(* ===== verification/_CoqProject ===== *)
-Q . S2P
Prelude.v
ByteOrder.v
MetaTypes.v
KvApi.v
SledStore.v
SledView.v
SledRange.v
StateMachine.v
StateMachineSpec.v
SmKvApi.v
SmModel.v
StateMachineProps.v
KeyCodec.v
SchemaApi.v
SchemaSpec.v
SchemaOps.v
SchemaList.v
SchemaInv.v
SchemaModel.v
SchemaProps.v
RaftStore.v
RaftLog.v
SnapshotInstall.v
SnapshotTransfer.v
StoreOpen.v
RaftModel.v
RaftProps.v
RangeMap.v
Watcher.v
WatcherSpec.v
UserGrant.v
Exception.v
UserTypes.v
Management.v
Dir.v
MgmtSpec.v
MgmtModel.v
MgmtProps.v
AccessControl.v
RoleGraph.v
AccessProps.v
Lru.v
DiskCache.v
DataValue.v
FuseMeta.v
FuseStats.v
FuseIo.v
FuseReads.v
Catalog.v
FuseTable.v
FuseCommit.v
FuseCommitProps.v
CatalogProps.v
FuseCatalog.v
FuseGc.v
FuseModel.v
HashTable.v
HashTableProps.v
HashTableKinds.v
Column.v
ColumnFilter.v
GroupKeys.v
GroupKeysProps.v
SerialKeys.v
AggFunction.v
AggLaws.v
AggState.v
AggLayout.v
Aggregator.v
AggregatorProps.v
AggregatorRun.v
AggSingle.v
AggDistinct.v
GroupBy.v
AggModel.v
Port.v
Pipeline.v
PipelineProps.v
PipelineLaws.v
PipelineModel.v
