(* ===== verification/Prelude.v ===== *)
(** * A verification development for databend: metadata service, access control, catalogs,
    the fuse table engine, pipelines and aggregation.

    databend keeps its metadata (databases, tables, users, cluster nodes) in a meta
    service: a replicated key-value store.  A write becomes a raft log entry
    (src/common/meta/types), each node applies committed entries in order to its state
    machine (src/common/meta/raft-store/src/state_machine), which lives in a tree of an
    embedded sled database behind a typed wrapper (src/common/meta/sled-store).  The raft
    log, the vote of the node and snapshots are kept in other trees of the same database
    (src/common/meta/raft-store/src/log and state, src/metasrv/src/store).  The state
    machine offers the key-value interface of src/common/meta/api/src/kv_api.rs, and the
    catalog of databases and tables (schema_api_impl.rs) is written against that
    interface only.  Clients can watch key ranges for changes (src/metasrv/src/watcher).

    Users, roles, functions, stages and cluster nodes are kept as records of the same
    store by the managers of src/common/management.  The query node uses them to
    authenticate users and to check their privileges (src/query/src/users, sessions and
    interpreters).  Errors carry numeric codes (src/common/exception) and travel between
    nodes as gRPC statuses.

    The query node sees databases and tables through its catalogs (src/query/src/catalogs
    and databases).  The data of a table of the engine FUSE
    (src/query/src/storages/fuse) are files in an object store: a snapshot lists segments,
    a segment lists blocks, and the record of the table in the meta service points to the
    current snapshot.  A query that writes adds files and moves the pointer, conditioned
    on the version of the record; history is removed by a purge.  Snapshots and segments
    are cached by each node (src/common/cache).

    A query runs as a pipeline (src/query/src/pipelines/new): a graph of processors with
    ports between them.  The executor asks an idle processor what it can do next; the
    processor looks at its ports, takes or hands on a block, or asks for time to work.
    Two connected ports share one atomic word, with the address of a block on its way and
    three flags; processors at its ends may run on different threads.

    GROUP BY runs in two phases (src/query/src/pipelines/new/processors/transforms).
    Each partial aggregator turns the group columns of a block (src/common/datavalues
    and src/common/datablocks) into one key per row, finds the state of the key in a
    hash table (src/query/src/common/hashtable: a table that grows and becomes
    two-level) and lets the aggregate functions (src/common/functions/src/aggregates)
    add the rows to the states, which lie in memory at offsets computed from their
    layouts. It hands on blocks of serialized states with their keys; the final
    aggregator merges them and turns the keys back into group columns.

    ** Files, in dependency order

    - Prelude.v: Rust results with panics ([res]), effectful code as state passing ([M],
      with [let!]), [u64] arithmetic, strings as bytes with UTF-8 validity, and the two
      ways code is reasoned about: [runs R m s r s'] (run on any state that represents
      [s], the code returns [r] and leaves a state that represents [s']) and
      [triple P m Q X] (as a Hoare triple; [X] holds if the run ends in an error or a
      panic).
    - ByteOrder.v: the order of byte strings and maps listed in key order.
    - MetaTypes.v: the data types of src/common/meta/types.
    - KvApi.v: the trait [KVApi] as a class, the abstract store [kv_store] with one pure
      function per operation, and the contract [KVApiLaws] between implementations and
      clients of the interface.
    - SledStore.v, SledView.v, SledRange.v: key spaces, codecs and the operations of
      [SledTree] and of its transactions; the view of a key space as a finite map
      ([repr]); ranges of key spaces with numeric keys.
    - StateMachine.v, StateMachineSpec.v, SmKvApi.v, SmModel.v, StateMachineProps.v: the
      state machine ([apply] and every command), its specification [spec_apply] on
      finite maps, the implementation of [KVApi], a concrete instance, and properties.
    - KeyCodec.v: structured keys, escaping, and prefixes of listings.
    - SchemaApi.v, SchemaSpec.v, SchemaOps.v, SchemaList.v, SchemaInv.v, SchemaModel.v,
      SchemaProps.v: the operations of the schema API, the abstract catalog [cat], one
      specification per operation, listings, the catalog invariant, a concrete instance,
      and properties.
    - RaftStore.v: named trees, [RaftState], [RaftLog] and [MetaRaftStore] with its
      implementation of [RaftStorage].
    - RaftLog.v, SnapshotInstall.v, SnapshotTransfer.v, StoreOpen.v, RaftModel.v,
      RaftProps.v: the log as a map by index, installation of snapshots and restarts under
      storage faults, snapshots as copies of a state machine, opening and creating a store
      and applying batches of entries, a concrete instance, and properties.
    - RangeMap.v, Watcher.v, WatcherSpec.v: the map from key ranges to watchers, the
      watcher manager as a fold over the events of its queue, and its specification.
    - UserGrant.v, UserTypes.v: privileges as bit flags, grant sets, passwords, users,
      roles, functions and stages.
    - Exception.v: the table of error codes, conversions of the errors of the meta
      service, and errors as gRPC statuses.
    - Management.v, Dir.v, MgmtSpec.v, MgmtModel.v, MgmtProps.v: the
      managers; directories, a versioned map of records of several kinds in one store;
      one specification per operation; a concrete instance; and properties.
    - AccessControl.v, RoleGraph.v, AccessProps.v: authentication, the role cache, the
      privilege check and the GRANT, REVOKE and SHOW GRANTS statements; the walk over
      the graph of roles; and properties.
    - Lru.v, DiskCache.v: the LRU cache with its meters, as a list in order of use; the
      cache of files in a directory.
    - DataValue.v, FuseMeta.v, FuseStats.v: values in statistics and their order;
      snapshots and segments in both formats, locations; reducing and merging statistics.
    - FuseIo.v, FuseReads.v: the object store and the cached readers of metadata, and what
      they return whatever is cached.
    - Catalog.v, CatalogProps.v: system databases, databases of the meta service, the two
      layers over them and the factories of engines; properties over the contract
      [SchemaTraitLaws], which SchemaApi.v is shown to fulfil.
    - FuseTable.v: fuse tables: commit, purge (OPTIMIZE), truncate.
    - FuseCommit.v, FuseCommitProps.v, FuseCatalog.v: commits cut into steps that
      interleave ([writer_step], [sys_steps]), what they guarantee over a catalog with
      [TableCatalogLaws], and that the default catalog has these laws.
    - FuseGc.v: purging.  FuseModel.v: a concrete query node on which the theorems on
      caches, catalogs and tables are run.
    - HashTable.v, HashTableProps.v, HashTableKinds.v: the hash table with its buffer, probing
      and growing in place; its invariant; iteration and tables of two levels.
    - Column.v, ColumnFilter.v: columns of the scalar types, nullable and constant columns,
      blocks; the filters of columns by a bitmap, byte for byte.
    - GroupKeys.v, GroupKeysProps.v, SerialKeys.v: the choice of a hash method, group
      columns as keys of fixed size or as serialized keys and back, down to the bytes of
      integers and floating-point numbers and to variable-length integers.
    - AggFunction.v, AggLaws.v, AggLayout.v: memory as a map from addresses to objects, the
      aggregate functions with their combinators and adaptors; what a function promises
      ([Lawful]: its state stands for the rows taken in) and which functions keep it; the
      states of several functions in one allocation.
    - AggState.v: the three kinds of maps from keys to places of states, and that they keep the contract [AggregatorStateLaws].
    - Aggregator.v, AggregatorProps.v, AggregatorRun.v, AggSingle.v, AggDistinct.v: the
      aggregators and the processor around them; the two phases by key; dropping the
      states; aggregation without keys; keys without functions.
    - GroupBy.v: the hash methods as codes of group values, and GROUP BY on such values.
      AggModel.v: concrete functions, memory and blocks on which aggregation is run.
    - Port.v: the word of two ports, its accesses by threads that interleave, and the
      atomic port that they implement.
    - Pipeline.v: processors as programs of port calls ([prog]): transforms, sources,
      sinks, limits and resizing; nodes, and pipelines over any implementation of ports.
    - PipelineProps.v, PipelineLaws.v, PipelineModel.v: the discipline of the ports
      ([Lawful]) and what every pipeline of such processors has; that the processors keep
      it, and what they do to the blocks; pipelines that run.

    ** How state and operations correspond to the code

    One definition models one function, under its name where that is free (a prefix such
    as [sm_], [log_] or [storage_] tells methods of different types apart).  The state
    of code that runs on one tree is [world T sm_env]: the tree, the number of sled calls
    made so far, and the clock readings and notifications of the state machine.  Code of
    a node runs on [world (gmap string T) node_env]: all trees by name, the state machine
    in use and the current snapshot.  The managers run on any state that has the
    key-value interface; the query node adds its role cache and clock ([query_world]).
    Table operations run on [fuse_world]: the meta service, the object store, the caches
    of all nodes and the identifiers drawn so far.  Aggregators run on [Agg]: the memory of
    the states, and the table from keys to places.  A pipeline is a [net]: the words of the
    ports with the values they have had, and a node for each processor, which is idle, in
    the middle of an event, at work or done; [net_step] is one access to a word by one
    thread, or a change of the state of one node.  A thread that reads a word gets its last
    value or an older one, not before one it has seen; an exchange replaces the last value.
    A [u64] is an [N] below 2^64 and addition wraps.
    [unwrap], [expect], [panic!] and indexing out of range give [Panic].

    Code outside of the repository is a parameter, a class with its laws in a second
    class: sled ([Sled], [SledLaws], [SledDb], [SledTransaction]), serde_json
    ([SledSerde], [SmSerde], [RaftSerde], [MetaCodec]: what is encoded can be decoded),
    prost ([Message]), the clocks ([Clock], [Instants]), openraft's membership type, the
    order of a hash set ([HashSetIter]), hash functions ([Hashes]), JWT verification
    ([JwtVerifier]), captured backtraces ([Capture]), the JSON of other records ([Json],
    [StatusCodec]), which receivers of watchers are gone ([Receivers]).  Code of the
    repository that is not modelled and used by modelled code is a parameter in the same
    way: protobuf conversions ([FromToProto]), the parser and names of functions
    ([UdfRules]), the catalogs as the access control uses them ([Catalogs]), the connection to the meta
    service ([MetaClients]), and the
    parser of cluster keys ([PlanParser]).  For the query node: the object store
    ([Operator]; calls may fail at any time, [OperatorQuiet] where they do not), linked
    hash maps ([LinkedHashMap]), the file system under the disk cache, the crates uuid
    ([Uuids]) and backoff ([Backoff]), and upper-casing of Unicode text ([ToUppercase]).
    For aggregation: the memory areas of bumpalo ([Bump]: allocations are aligned and
    do not overlap), the code of bincode, and the bits of a bitmap of arrow2 that does
    not start at a byte.  Storage faults are a parameter too: [SledEnv] says which call
    of a run fails, and how. [NoFaults] is assumed by the theorems on functional
    behaviour and by no other.  The files SmModel.v, SchemaModel.v, RaftModel.v,
    MgmtModel.v, FuseModel.v and AggModel.v instantiate the parameters of their
    components at once.

    ** What the theorems show

    - StateMachineProps.v: applying a log entry refines its specification, is atomic
      whichever storage call fails, executes a new command of a client and not its
      re-send, unless other commands of the client came in between, and gives equal
      states on replicas with different clocks if no record expires; a transaction
      conditioned on sequence numbers read before succeeds exactly if the records read are
      unchanged, whatever was applied in between; the state machine satisfies the contract
      of the key-value interface.
    - KvApi.v: of several writes conditioned on a version of a record one takes effect.
    - KeyCodec.v: keys are decoded from their strings, never collide, and listing
      prefixes select the records they should.
    - SchemaProps.v: on every store that satisfies the contract, each operation returns
      and writes what its specification says on every branch; any sequence of operations
      keeps names and metas in bijection; listings agree with lookups.
    - RaftProps.v: installing a snapshot is crash safe and a restart recovers; a
      snapshot is a faithful copy; the log operations replace, purge and read what they
      should; the hard state is durable; opening and creating a store.
    - WatcherSpec.v: the manager sends each change to the watchers of its key and to no
      other, and an open stream gets all its changes in order.
    - UserGrant.v: grant sets stay well formed, and granting and merging have the meaning
      they should.  UserTypes.v: MySQL authentication lets in who knows the password.
    - Exception.v: an error survives the way over gRPC; which codes are distinct.
    - MgmtProps.v: the managers of users and roles implement versioned maps; listings also
      give the records of tenants whose name starts with that of the tenant.
    - RoleGraph.v: the walk over roles terminates, cycles included, and computes
      reachability.  AccessProps.v: a privilege is checked as the grants of the user and
      of the reachable roles listed for the tenant say, and GRANT to a user or a role
      changes exactly what it names.
    - Lru.v, DiskCache.v: the caches hold what was inserted last within their capacity;
      files and index agree after an insertion without faults, unless the name that is
      inserted is among the entries evicted for it.
    - FuseCommitProps.v: queries that append to a table at the same time are committed in
      one sequence, and the current snapshot is in the store with the data of exactly these,
      unless the answer to a commit was lost; a commit without interference
      succeeds and can be read; FuseCommit.v: every commit ends.  FuseGc.v: a purge keeps
      what the current snapshot needs, and removes the history when it succeeds, but for
      snapshot files of version 0.  FuseStats.v: merged statistics bound the values they
      summarise.
    - CatalogProps.v: created databases are found, with the exceptions it states.
    - HashTableKinds.v: any sequence of uses of a hash table gives the answers of a finite
      map, inside its buffer and without endless probing.  ColumnFilter.v: filtering by
      chunks of 64 bits selects the rows whose bit is set, for bitmaps that have all bits of
      their first byte; others make the filter of a primitive column panic.
    - GroupBy.v: keys are equal exactly for equal group values and are read back
      ([hash_method_codes]); the two phases give each tuple of group values once, with the
      value of each function on its rows ([group_by_correct]), for the functions that keep
      the laws ([AggCall]: sum, avg, min, max, any and count, also under a condition; not
      behind the adaptor for nullable arguments, and count of rows only in the first place).
      AggSingle.v and AggDistinct.v: the same without keys and without functions.  AggLayout.v: the states
      of one allocation are aligned, disjoint and inside of it.  AggregatorRun.v: the
      processor consumes and generates in order, whenever it is asked.
    - Port.v: the loops on the word of two ports refine an atomic slot with two flags.
      PipelineProps.v: pipelines of disciplined processors deliver each block once and in
      order, on every port and under every interleaving, and never take a block from an
      empty port.  PipelineLaws.v: a sink that has finished has consumed what the stages
      make of all blocks of the source ([chain_complete]); a resize hands on each block
      once; LIMIT and OFFSET let through the rows they name ([limit_rows]).
    - Some theorems state behaviour that the code does not mean to have:
      [first_serial_zero_dropped], [install_drops_subscriber], [install_error_swallowed],
      [revoke_toggles], [role_cache_mixes_tenants], [user_key_collision], [get_nodes_id], and parts of
      [exception_codes] (codes assigned twice) and [status_roundtrip] (a panic);
      [lost_answer_breaks_table], [unknown_engine_breaks_list], a case of
      [created_database_lookup], [disk_reinsert], [old_format_example] and
      [truncate_stale_example]; [boolean_filter_sliced], [primitive_filter_panics],
      [constant_string_group], [resize_loses_block], [sum_of_nulls] and the other examples of AggModel.v that
      PROJECT.json lists among its findings.

    ** Bounds

    The schema operations retry a transaction that failed its conditions; [retry] takes
    the number of rounds as fuel.  The theorems hold for every positive fuel: run without
    interference, the first round succeeds, so one is enough.  The walk over roles takes
    one round for each entry that can ever be in its queue; [related_roles_terminates]
    shows that this is enough on every graph.  A commit takes one unit of fuel per attempt
    ([commit_terminates]: one more than the retries of the backoff), reading the history
    of a table one per snapshot ([optimize_safe]: more than the age of the current one).
    Caches evict with one unit per entry.  Probing takes one unit per cell of the buffer;
    a buffer is never full ([hash_table_refines], for tables below 2^57 keys).  A filter
    steps through 64 bits of a mask in at most 65 rounds.  Series of columns are unwrapped
    twice, for a nullable column and its inner one.  A resize searches its ports for one
    round per port ([resize_event_ok]: it never needs more).  All other loops are structural.
    Hypotheses such as [i + 1 < u64_modulus] say that ids and sequence numbers have not
    used up 64 bits.

    ** Not modelled

    Interleaving of requests inside a node of the meta service (each operation runs as a
    whole: the state machine is locked by the callers modelled here, and clients of the
    key-value interface see other clients only through the conditions of their
    transactions, which [txn_validates_reads] covers); openraft itself, the network,
    gRPC and HTTP services; protobuf conversions; parsers of stage options; the rest of
    src/common.  Of the query node, whatever is not access control, catalogs, metadata
    of fuse tables, pipelines or aggregation: parser, planner, scalar functions, the
    Parquet form of blocks, and the other engines.  Of pipelines: the triggers and queues
    by which the executor chooses the node to ask next (here it may ask any idle node at
    any time, so nothing is shown of progress), asynchronous processors and the other
    transforms.  Of aggregation: sums of
    floating-point numbers (the order of additions is not fixed), variants and arrays,
    arg_min, arg_max, covariance, deviations, retention and funnels, the factory of
    functions and the schemas of results, and the stream-based transforms that the
    processors replace.  Purging is modelled with the sets of segments and blocks
    visited in one fixed order.  PROJECT.json lists the parts one by one. *)
From stdpp Require Export base gmap strings pretty list sorting.

(** ** Rust results

    [res E A] is the outcome of a Rust function of type [Result<A, E>] together
    with the third outcome every Rust function has, a panic. *)
Inductive res (E A : Type) : Type :=
  | Ok (a : A)
  | Err (e : E)
  | Panic.
Arguments Ok {E A} a.
Arguments Err {E A} e.
Arguments Panic {E A}.

Definition res_bind {E A B} (r : res E A) (f : A → res E B) : res E B :=
  match r with Ok a => f a | Err e => Err e | Panic => Panic end.

Definition res_map {E A B} (f : A → B) (r : res E A) : res E B :=
  match r with Ok a => Ok (f a) | Err e => Err e | Panic => Panic end.

Definition map_err {E F A} (f : E → F) (r : res E A) : res F A :=
  match r with Ok a => Ok a | Err e => Err (f e) | Panic => Panic end.

(** [o.ok_or(e)]. *)
Definition ok_or {E A} (o : option A) (e : E) : res E A :=
  match o with Some a => Ok a | None => Err e end.

(** [o.unwrap()]. *)
Definition unwrap {E A} (o : option A) : res E A :=
  match o with Some a => Ok a | None => Panic end.

Definition is_ok {E A} (r : res E A) : bool :=
  match r with Ok _ => true | _ => false end.

(** [iter.map(f).collect::<Result<Vec<_>, _>>()]: stops at the first failure. *)
Fixpoint res_mapM {E A B} (f : A → res E B) (l : list A) : res E (list B) :=
  match l with
  | [] => Ok []
  | x :: l => res_bind (f x) (λ y, res_bind (res_mapM f l) (λ ys, Ok (y :: ys)))
  end.
Lemma res_mapM_ok {E A B} (f : A → res E B) l ys : Forall2 (λ x y, f x = Ok y) l ys → res_mapM f l = Ok ys.
Proof. induction 1 as [|x y l ys Hx Hl IH]; [done|]. simpl. by rewrite Hx; simpl; rewrite IH. Qed.

Global Instance res_eq_dec {E A} `{EqDecision E, EqDecision A} : EqDecision (res E A).
Proof. solve_decision. Defined.

(** ** Effectful code: a state of type [W] threaded through fallible calls.

    The state survives an error or a panic: what a failed call has already done
    stays done, unless the caller rolls it back. *)
Definition M (W E A : Type) : Type := W → res E A * W.

Definition ret {W E A} (a : A) : M W E A := λ w, (Ok a, w).
Definition throw {W E A} (e : E) : M W E A := λ w, (Err e, w).
Definition lift {W E A} (r : res E A) : M W E A := λ w, (r, w).
Definition bind {W E A B} (m : M W E A) (f : A → M W E B) : M W E B := λ w,
  match m w with
  | (Ok a, w1) => f a w1
  | (Err e, w1) => (Err e, w1)
  | (Panic, w1) => (Panic, w1)
  end.
Definition mapErrM {W E F A} (f : E → F) (m : M W E A) : M W F A := λ w,
  match m w with (r, w1) => (map_err f r, w1) end.

(** [match call().await { Ok(x) => .., Err(e) => .. }]: a failure handed to the
    caller as a value; a panic is not caught. *)
Definition tryM {W E F A} (m : M W E A) : M W F (E + A) := λ w,
  match m w with
  | (Ok a, w1) => (Ok (inr a), w1)
  | (Err e, w1) => (Ok (inl e), w1)
  | (Panic, w1) => (Panic, w1)
  end.

Declare Scope rust_scope.
Delimit Scope rust_scope with rust.
Notation "'let!' x ':=' c 'in' k" := (bind c (λ x, k))
  (at level 10, x name, c at level 100, k at level 200) : rust_scope.
Notation "'let!' ' p ':=' c 'in' k" := (bind c (λ x, match x with p => k end))
  (at level 10, p pattern, c at level 100, k at level 200) : rust_scope.
Notation "c ;;! k" := (bind c (λ _, k))
  (at level 100, k at level 200, right associativity) : rust_scope.
Notation "'let?' x ':=' c 'in' k" := (res_bind c (λ x, k))
  (at level 10, x name, c at level 100, k at level 200) : rust_scope.
Notation "'let?' ' p ':=' c 'in' k" := (res_bind c (λ x, match x with p => k end))
  (at level 10, p pattern, c at level 100, k at level 200) : rust_scope.
Global Open Scope rust_scope.

(** A [for] loop whose body can fail. *)
Fixpoint forM {W E A} (l : list A) (body : A → M W E unit) : M W E unit :=
  match l with
  | [] => ret tt
  | x :: l => body x ;;! forM l body
  end.

(** The same where the body gives a value to collect. *)
Fixpoint collectM {W E A B} (f : A → M W E B) (l : list A) : M W E (list B) :=
  match l with
  | [] => ret []
  | x :: l => let! y := f x in let! ys := collectM f l in ret (y :: ys)
  end.

(** ** Unsigned 64-bit integers

    A [u64] is an [N]; the release profile of the workspace does not turn
    overflow checks on, so addition wraps around. *)
Definition u64_modulus : N := 2 ^ 64.
Definition u64_max : N := u64_modulus - 1.
Definition u64_add (a b : N) : N := ((a + b) mod u64_modulus)%N.
Definition u64_sub (a b : N) : N := ((a + (u64_modulus - b mod u64_modulus)) mod u64_modulus)%N.

Lemma u64_add_small a b : (a + b < u64_modulus)%N → u64_add a b = (a + b)%N.
Proof. intros. by apply N.mod_small. Qed.
Lemma u64_add_bound a b : (u64_add a b < u64_modulus)%N.
Proof. by apply N.mod_lt. Qed.

(** *** Bits *)
Lemma N_below_bits f n : (f < 2 ^ n)%N ↔ ∀ i, (n ≤ i)%N → N.testbit f i = false.
Proof.
  split.
  - intros Hf i Hi. rewrite <-(N.mod_small f (2 ^ n)) by done. by apply N.mod_pow2_bits_high.
  - intros Hf. assert (f mod 2 ^ n = f)%N as <-; [|apply N.mod_lt; by apply N.pow_nonzero]. apply N.bits_inj. intros i.
    destruct (decide (i < n)%N); [by apply N.mod_pow2_bits_low|].
    rewrite N.mod_pow2_bits_high by lia. symmetry. apply Hf. lia.
Qed.
Lemma N_lor_below f g n : (f < 2 ^ n → g < 2 ^ n → N.lor f g < 2 ^ n)%N.
Proof. rewrite !N_below_bits. intros Hf Hg i Hi. by rewrite N.lor_spec, Hf, Hg. Qed.
Lemma N_lxor_below f g n : (f < 2 ^ n → g < 2 ^ n → N.lxor f g < 2 ^ n)%N.
Proof. rewrite !N_below_bits. intros Hf Hg i Hi. by rewrite N.lxor_spec, Hf, Hg. Qed.

(** ** Maps *)
Lemma lookup_deletes {K V} `{Countable K} (l : list K) (m : gmap K V) k :
  foldl (λ m k, base.delete k m) m l !! k = if decide (k ∈ l) then None else m !! k.
Proof.
  revert m. induction l as [|k' l IH]; intros m; csimpl; [done|]. rewrite IH.
  destruct (decide (k ∈ l)) as [Hin|Hin]; [by rewrite decide_True by by right|].
  destruct (decide (k = k')) as [->|Hne].
  - by rewrite lookup_delete_eq, decide_True by left.
  - rewrite lookup_delete_ne by done. rewrite decide_False; [done|]. by intros [?|?]%elem_of_cons.
Qed.

(** Turns boolean tests on numbers into propositions. *)
Ltac nbool :=
  rewrite ?negb_true_iff, ?negb_false_iff, ?N.eqb_eq, ?N.eqb_neq, ?N.ltb_lt, ?N.ltb_ge, ?N.leb_le,
    ?N.leb_gt in *.

(** ** Inverting and running effectful code *)
Section monad_lemmas.
Context {W E : Type}.

Lemma bind_ok {A B} (m : M W E A) (f : A → M W E B) w a w1 :
  m w = (Ok a, w1) → bind m f w = f a w1.
Proof. intros H. unfold bind. by rewrite H. Qed.

Lemma bind_err {A B} (m : M W E A) (f : A → M W E B) w e w1 :
  m w = (Err e, w1) → bind m f w = (Err e, w1).
Proof. intros H. unfold bind. by rewrite H. Qed.

(** Loops that succeed, with an invariant that counts the iterations done. *)
Lemma collectM_ok {A B} (f : A → M W E B) (I : nat → W → Prop) (Q : nat → A → B → Prop) l w :
  I 0 w → (∀ i x w, l !! i = Some x → I i w → ∃ y w', f x w = (Ok y, w') ∧ Q i x y ∧ I (S i) w') →
  ∃ ys w', collectM f l w = (Ok ys, w') ∧ length ys = length l ∧ (∀ i x y, l !! i = Some x → ys !! i = Some y → Q i x y) ∧ I (length l) w'.
Proof.
  revert I Q w. induction l as [|x l IH]; intros I Q w HI Hf; simpl; [by exists [], w|].
  destruct (Hf 0 x w eq_refl HI) as (y & w1 & Hx & HQ & HI1).
  destruct (IH (λ i, I (S i)) (λ i, Q (S i)) w1 HI1) as (ys & w2 & Hys & Hlen & HQs & HI2); [intros i; apply (Hf (S i))|].
  exists (y :: ys), w2. rewrite (bind_ok _ _ _ _ _ Hx), (bind_ok _ _ _ _ _ Hys). split_and!; [done|simpl; congruence| |done].
  intros [|i] x' y'; simpl; [by intros [= <-] [= <-]|apply HQs].
Qed.
Lemma forM_ok {A} (f : A → M W E unit) (I : nat → W → Prop) l w :
  I 0 w → (∀ i x w, l !! i = Some x → I i w → ∃ w', f x w = (Ok tt, w') ∧ I (S i) w') →
  ∃ w', forM l f w = (Ok tt, w') ∧ I (length l) w'.
Proof.
  revert I w. induction l as [|x l IH]; intros I w HI Hf; simpl; [by exists w|].
  destruct (Hf 0 x w eq_refl HI) as (w1 & Hx & HI1). rewrite (bind_ok _ _ _ _ _ Hx).
  apply (IH (λ i, I (S i)) w1 HI1). intros i. apply (Hf (S i)).
Qed.

End monad_lemmas.

(** ** Functional refinement

    [runs R m s r s']: started in any concrete state that [R] relates to the
    abstract state [s], the code [m] returns [r] and ends in a concrete state
    related to [s'].  The rules below execute code symbolically on abstract states. *)
Section runs.
Context {W S : Type} (R : W → S → Prop).

Definition runs {E A} (m : M W E A) (s : S) (r : res E A) (s' : S) : Prop :=
  ∀ w, R w s → ∃ w', m w = (r, w') ∧ R w' s'.

Lemma runs_ret {E A} (a : A) s : runs (E:=E) (ret a) s (Ok a) s.
Proof. intros w Hw. by exists w. Qed.
Lemma runs_throw {E A} (e : E) s : runs (A:=A) (throw e) s (Err e) s.
Proof. intros w Hw. by exists w. Qed.
Lemma runs_lift {E A} (r : res E A) s : runs (lift r) s r s.
Proof. intros w Hw. by exists w. Qed.
Lemma runs_bind {E A B} (m : M W E A) (f : A → M W E B) s a s1 r s2 :
  runs m s (Ok a) s1 → runs (f a) s1 r s2 → runs (bind m f) s r s2.
Proof.
  intros Hm Hf w Hw. destruct (Hm w Hw) as (w1 & Hmw & Hw1).
  destruct (Hf w1 Hw1) as (w2 & Hfw & Hw2). exists w2. split; [|done].
  by rewrite (bind_ok _ _ _ _ _ Hmw).
Qed.
Lemma runs_bind_err {E A B} (m : M W E A) (f : A → M W E B) s e s1 :
  runs m s (Err e) s1 → runs (bind m f) s (Err e) s1.
Proof.
  intros Hm w Hw. destruct (Hm w Hw) as (w1 & Hmw & Hw1). exists w1. split; [|done].
  by rewrite (bind_err _ _ _ _ _ Hmw).
Qed.
Lemma runs_map_err {E F A} (g : E → F) (m : M W E A) s r s1 :
  runs m s r s1 → runs (mapErrM g m) s (map_err g r) s1.
Proof.
  intros Hm w Hw. destruct (Hm w Hw) as (w1 & Hmw & Hw1). exists w1. split; [|done].
  unfold mapErrM. by rewrite Hmw.
Qed.
End runs.

(** ** Hoare triples with a postcondition for failure

    [triple P m Q X]: from a state in [P], the code [m] returns a value and ends in a
    state related to it by [Q], or fails (with an error or a panic) and ends in [X].
    With [X] empty the code is shown to succeed. *)
Section triple.
Context {W : Type}.

Definition triple {E A} (P : W → Prop) (m : M W E A) (Q : A → W → Prop) (X : W → Prop) : Prop :=
  ∀ w, P w → let '(r, w') := m w in match r with Ok a => Q a w' | _ => X w' end.

Lemma triple_weaken {E A} (P P' : W → Prop) (m : M W E A) (Q Q' : A → W → Prop) (X X' : W → Prop) :
  triple P' m Q' X' → (∀ w, P w → P' w) → (∀ a w, Q' a w → Q a w) → (∀ w, X' w → X w) → triple P m Q X.
Proof.
  intros Hm HP HQ HX w Hw. specialize (Hm w (HP w Hw)). destruct (m w) as [[a|e|] w']; eauto.
Qed.
Lemma triple_ret {E A} (P : W → Prop) (a : A) (Q : A → W → Prop) X :
  (∀ w, P w → Q a w) → triple (E:=E) P (ret a) Q X.
Proof. intros HP w Hw. by apply HP. Qed.
Lemma triple_lift {E A} (P : W → Prop) (r : res E A) (Q : A → W → Prop) (X : W → Prop) :
  (∀ w, P w → match r with Ok a => Q a w | _ => X w end) → triple P (lift r) Q X.
Proof. intros HP w Hw. by apply HP. Qed.
Lemma triple_throw {E A} (P : W → Prop) (e : E) (Q : A → W → Prop) (X : W → Prop) :
  (∀ w, P w → X w) → triple P (throw e) Q X.
Proof. intros HP w Hw. by apply HP. Qed.
Lemma triple_bind {E A B} (P : W → Prop) (m : M W E A) (f : A → M W E B) Q R X :
  triple P m R X → (∀ a, triple (R a) (f a) Q X) → triple P (bind m f) Q X.
Proof.
  intros Hm Hf w Hw. specialize (Hm w Hw). unfold bind. destruct (m w) as [[a|e|] w1]; [|done..].
  by apply Hf.
Qed.
Lemma triple_map_err {E F A} (g : E → F) (P : W → Prop) (m : M W E A) Q X :
  triple P m Q X → triple P (mapErrM g m) Q X.
Proof.
  intros Hm w Hw. specialize (Hm w Hw). unfold mapErrM. by destruct (m w) as [[a|e|] w1].
Qed.
(** A fact that does not depend on the state. *)
Lemma triple_pure {E A} (φ : Prop) (P : W → Prop) (m : M W E A) Q X :
  (φ → triple P m Q X) → triple (λ w, φ ∧ P w) m Q X.
Proof. intros Hm w [Hφ Hw]. by apply Hm. Qed.
Lemma triple_exists {E A C} (P : C → W → Prop) (m : M W E A) Q X :
  (∀ c, triple (P c) m Q X) → triple (λ w, ∃ c, P c w) m Q X.
Proof. intros Hm w [c Hw]. by apply (Hm c). Qed.
(** A loop whose body moves an index along a list. *)
Lemma triple_forM {E A} (I : list A → W → Prop) (body : A → M W E unit) X l :
  (∀ x l, triple (I (x :: l)) (body x) (λ _, I l) X) → triple (I l) (forM l body) (λ _, I []) X.
Proof.
  intros Hb. induction l as [|x l IH]; [by apply triple_ret|]. simpl.
  eapply triple_bind; [apply Hb|]. by intros [].
Qed.
End triple.

(** ** Weakest preconditions

    [wp m Φ w]: what [m] returns from [w], error or not, and the state after it satisfy [Φ]. *)
Section wp.
Context {W : Type}.

Definition wp {E A} (m : M W E A) (Φ : res E A → W → Prop) (w : W) : Prop := let '(r, w') := m w in Φ r w'.
Lemma wp_mono {E A} (m : M W E A) (Φ Ψ : res E A → W → Prop) w :
  wp m Φ w → (∀ r w', Φ r w' → Ψ r w') → wp m Ψ w.
Proof. unfold wp. destruct (m w). auto. Qed.
Lemma wp_bind {E A B} (m : M W E A) (f : A → M W E B) Φ w :
  wp m (λ r w', match r with Ok a => wp (f a) Φ w' | Err e => Φ (Err e) w' | Panic => Φ Panic w' end) w →
  wp (bind m f) Φ w.
Proof. unfold wp, bind. by destruct (m w) as [[a|e|] w1]. Qed.
Lemma wp_try {E F A} (m : M W E A) (Φ : res F (E + A) → W → Prop) w :
  wp m (λ r w', match r with Ok a => Φ (Ok (inr a)) w' | Err e => Φ (Ok (inl e)) w' | Panic => Φ Panic w' end) w →
  wp (tryM m) Φ w.
Proof. unfold wp, tryM. by destruct (m w) as [[a|e|] w1]. Qed.
Lemma wp_map_err {E F A} (g : E → F) (m : M W E A) Φ w :
  wp m (λ r w', Φ (map_err g r) w') w → wp (mapErrM g m) Φ w.
Proof. unfold wp, mapErrM. by destruct (m w). Qed.
End wp.

(** ** Strings as byte sequences, and the pieces of Rust's [str] the code uses *)
Definition byte_of (c : Ascii.ascii) : N := Ascii.N_of_ascii c.

Definition in_bytes (lo hi : N) (c : Ascii.ascii) : bool :=
  (lo <=? byte_of c)%N && (byte_of c <=? hi)%N.

(** [std::str::from_utf8]: the well-formed byte sequences of the Unicode standard. *)
Fixpoint utf8_valid (s : string) : bool :=
  match s with
  | EmptyString => true
  | String c0 s1 =>
      if in_bytes 0 127 c0 then utf8_valid s1 else
      match s1 with
      | EmptyString => false
      | String c1 s2 =>
          if in_bytes 194 223 c0 then in_bytes 128 191 c1 && utf8_valid s2 else
          match s2 with
          | EmptyString => false
          | String c2 s3 =>
              if in_bytes 224 239 c0 then
                in_bytes (if (byte_of c0 =? 224)%N then 160 else 128)
                         (if (byte_of c0 =? 237)%N then 159 else 191) c1 &&
                in_bytes 128 191 c2 && utf8_valid s3
              else
              match s3 with
              | EmptyString => false
              | String c3 s4 =>
                  in_bytes 240 244 c0 &&
                  in_bytes (if (byte_of c0 =? 240)%N then 144 else 128)
                           (if (byte_of c0 =? 244)%N then 143 else 191) c1 &&
                  in_bytes 128 191 c2 && in_bytes 128 191 c3 && utf8_valid s4
              end
          end
      end
  end.

Definition from_utf8 (b : string) : res string string := if utf8_valid b then Ok b else Err b.

(** [s.split(c)]: the segments between the separators, at least one. *)
Fixpoint split_on (c : Ascii.ascii) (s : string) : list string :=
  match s with
  | EmptyString => [""]
  | String a s =>
      if decide (a = c) then "" :: split_on c s
      else match split_on c s with
           | [] => [String a ""]
           | seg :: segs => String a seg :: segs
           end
  end.

(** [s.parse::<u64>()]: an optional plus sign, at least one digit, no overflow. *)
Definition digit_of (c : Ascii.ascii) : option N :=
  if in_bytes 48 57 c then Some (byte_of c - 48)%N else None.
Fixpoint parse_digits (acc : N) (s : string) : option N :=
  match s with
  | EmptyString => Some acc
  | String c s =>
      match digit_of c with
      | Some d =>
          let acc := (acc * 10 + d)%N in
          if (acc <? u64_modulus)%N then parse_digits acc s else None
      | None => None
      end
  end.
Definition parse_u64 (s : string) : option N :=
  match s with
  | EmptyString => None
  | String c rest =>
      if decide (c = Ascii.ascii_of_N 43) then
        match rest with EmptyString => None | _ => parse_digits 0 rest end
      else parse_digits 0 s
  end.

(** All characters of a string satisfy a predicate. *)
Fixpoint str_all (P : Ascii.ascii → bool) (s : string) : bool :=
  match s with EmptyString => true | String c s => P c && str_all P s end.

Lemma string_app_cons x a b : String x a +:+ b = String x (a +:+ b).
Proof. done. Qed.

Lemma string_app_length a b : String.length (a +:+ b) = String.length a + String.length b.
Proof. induction a as [|c a IH]; [done|]. rewrite string_app_cons. simpl. by rewrite IH. Qed.

Lemma str_all_app P a b : str_all P (a +:+ b) = str_all P a && str_all P b.
Proof.
  induction a as [|c a IH]; [done|]. rewrite string_app_cons. simpl. by rewrite IH, andb_assoc.
Qed.

Lemma str_all_impl (P Q : Ascii.ascii → bool) s :
  (∀ c, P c = true → Q c = true) → str_all P s = true → str_all Q s = true.
Proof.
  intros HPQ. induction s as [|c s IH]; [done|]; simpl.
  rewrite !andb_true_iff. intros [??]; auto.
Qed.

Lemma string_app_nil s : s +:+ "" = s.
Proof. induction s as [|c s IH]; [done|]. rewrite string_app_cons. by f_equal. Qed.

Lemma string_app_assoc a b c : (a +:+ b) +:+ c = a +:+ (b +:+ c).
Proof. induction a as [|x a IH]; [done|]. rewrite !string_app_cons. by f_equal. Qed.

Lemma ascii_of_byte_of c : Ascii.ascii_of_N (byte_of c) = c.
Proof. apply Ascii.ascii_N_embedding. Qed.

Lemma byte_of_ascii n : (n < 256)%N → byte_of (Ascii.ascii_of_N n) = n.
Proof. apply Ascii.N_ascii_embedding. Qed.

Lemma byte_of_bound c : (byte_of c < 256)%N.
Proof. apply Ascii.N_ascii_bounded. Qed.

(** ASCII strings are well-formed UTF-8. *)
Lemma utf8_valid_ascii s : str_all (in_bytes 0 127) s = true → utf8_valid s = true.
Proof.
  induction s as [|c s IH]; [done|]. cbn [str_all utf8_valid].
  intros [Hc ?]%andb_true_iff. rewrite Hc. auto.
Qed.

Lemma utf8_valid_app a b : utf8_valid a = true → utf8_valid b = true → utf8_valid (a +:+ b) = true.
Proof.
  intros Ha Hb. revert a Ha. fix IH 1. intros [|c0 a] Ha; [exact Hb|].
  rewrite string_app_cons. cbn [utf8_valid] in *. destruct (in_bytes 0 127 c0); [by apply IH|].
  destruct a as [|c1 a]; [done|]. rewrite string_app_cons. cbn beta iota in *.
  destruct (in_bytes 194 223 c0); [apply andb_true_iff in Ha as [-> Ha]; by apply IH|].
  destruct a as [|c2 a]; [done|]. rewrite string_app_cons. cbn beta iota in *.
  destruct (in_bytes 224 239 c0); [apply andb_true_iff in Ha as [-> Ha]; by apply IH|].
  destruct a as [|c3 a]; [done|]. rewrite string_app_cons. cbn beta iota in *.
  apply andb_true_iff in Ha as [-> Ha]. by apply IH.
Qed.

Section split_lemmas.
Context (c : Ascii.ascii).
Let no_sep (s : string) : Prop := str_all (λ x, negb (bool_decide (x = c))) s = true.

Lemma split_on_no_sep s : no_sep s → split_on c s = [s].
Proof.
  unfold no_sep. induction s as [|x s IH]; [done|]; cbn [str_all split_on].
  intros [Hx Hs]%andb_true_iff.
  rewrite decide_False by (intros ->; by rewrite bool_decide_true in Hx).
  by rewrite IH.
Qed.

Lemma split_on_app a b : no_sep a → split_on c (a +:+ String c b) = a :: split_on c b.
Proof.
  unfold no_sep. induction a as [|x a IH]; cbn [str_all split_on].
  - intros _. change ("" +:+ String c b) with (String c b). cbn [split_on].
    by rewrite decide_True.
  - intros [Hx Hs]%andb_true_iff. rewrite string_app_cons. cbn [split_on].
    rewrite decide_False by (intros ->; by rewrite bool_decide_true in Hx).
    by rewrite IH.
Qed.

Lemma split_on_inj s1 s2 : split_on c s1 = split_on c s2 → s1 = s2.
Proof.
  assert (∀ s, split_on c s ≠ []) as Hne.
  { intros [|a s]; simpl; [done|]. case_decide; [done|]. by destruct (split_on c s). }
  revert s2. induction s1 as [|a s1 IH]; intros [|b s2]; cbn [split_on]; [done|..].
  - case_decide; [intros Heq; by destruct (Hne s2); injection Heq|].
    destruct (split_on c s2) eqn:Hs; [by destruct (Hne s2)|done].
  - case_decide; [intros Heq; by destruct (Hne s1); injection Heq|].
    destruct (split_on c s1) eqn:Hs; [by destruct (Hne s1)|done].
  - destruct (decide (a = c)) as [->|Ha], (decide (b = c)) as [->|Hb].
    + by intros [= ->%IH].
    + destruct (split_on c s2) eqn:Hs; [by destruct (Hne s2)|done].
    + destruct (split_on c s1) eqn:Hs; [by destruct (Hne s1)|done].
    + destruct (split_on c s1) as [|x1 l1] eqn:Hs1; [by destruct (Hne s1)|].
      destruct (split_on c s2) as [|x2 l2] eqn:Hs2; [by destruct (Hne s2)|].
      intros [= -> -> ->]. f_equal. apply IH. by rewrite Hs2.
Qed.
End split_lemmas.

(** Decimal printing and parsing of a [u64]. *)
Definition is_digit (c : Ascii.ascii) : bool := in_bytes 48 57 c.

Lemma pretty_N_char_byte d : (d < 10)%N → byte_of (pretty_N_char d) = (48 + d)%N.
Proof.
  intros. assert (d = 0 ∨ d = 1 ∨ d = 2 ∨ d = 3 ∨ d = 4 ∨ d = 5 ∨ d = 6 ∨ d = 7 ∨ d = 8 ∨ d = 9)%N
    as Hd by lia.
  by destruct_or! Hd; subst.
Qed.

Lemma digit_of_char d :
  (d < 10)%N → is_digit (pretty_N_char d) = true ∧ digit_of (pretty_N_char d) = Some d.
Proof.
  intros Hd. unfold digit_of, is_digit, in_bytes. rewrite pretty_N_char_byte by done.
  rewrite (proj2 (N.leb_le 48 _)), (proj2 (N.leb_le _ 57)) by lia.
  split; [done|]. simpl. f_equal. lia.
Qed.

Lemma pretty_N_go_digits x s :
  str_all is_digit s = true → str_all is_digit (pretty_N_go x s) = true.
Proof.
  revert s. induction (N.lt_wf_0 x) as [x _ IH]; intros s Hs.
  assert (x = 0 ∨ 0 < x)%N as [->|?] by lia; [by rewrite pretty_N_go_0|].
  rewrite pretty_N_go_step by done. apply IH; [by apply N.div_lt|].
  simpl. rewrite Hs, andb_true_r. by apply digit_of_char, N.mod_lt.
Qed.

Lemma pretty_digits (n : N) : str_all is_digit (pretty n) = true.
Proof. unfold pretty, pretty_N. case_decide; [done|]. by apply pretty_N_go_digits. Qed.

Lemma pretty_nonempty (n : N) : pretty n ≠ "".
Proof.
  unfold pretty, pretty_N. case_decide as Hn; [done|]. intros Hp.
  assert (∀ x s, s ≠ "" → pretty_N_go x s ≠ "") as Hgo.
  { intros x. induction (N.lt_wf_0 x) as [x _ IH]; intros s ?.
    assert (x = 0 ∨ 0 < x)%N as [->|?] by lia; [by rewrite pretty_N_go_0|].
    rewrite pretty_N_go_step by done. apply IH; [by apply N.div_lt|done]. }
  rewrite pretty_N_go_step in Hp by lia. by eapply Hgo in Hp.
Qed.

Lemma parse_digits_go x s :
  (x < u64_modulus)%N → parse_digits 0 (pretty_N_go x s) = parse_digits x s.
Proof.
  revert s. induction (N.lt_wf_0 x) as [x _ IH]; intros s Hx.
  assert (x = 0 ∨ 0 < x)%N as [->|?] by lia; [by rewrite pretty_N_go_0|].
  rewrite pretty_N_go_step by done.
  assert (x / 10 < x)%N by (by apply N.div_lt).
  rewrite IH by (done || lia). cbn [parse_digits].
  rewrite (proj2 (digit_of_char (x `mod` 10) ltac:(by apply N.mod_lt))).
  replace (x / 10 * 10 + x `mod` 10)%N with x
    by (rewrite (N.div_mod x 10) at 1; [|done]; by rewrite N.mul_comm).
  by rewrite (proj2 (N.ltb_lt _ _)) by done.
Qed.

Lemma parse_u64_digits s :
  s ≠ "" → str_all is_digit s = true → parse_u64 s = parse_digits 0 s.
Proof.
  destruct s as [|c s]; [done|]. intros _ [Hc _]%andb_true_iff.
  unfold parse_u64. rewrite decide_False; [done|]. by intros ->.
Qed.

Lemma parse_u64_pretty n : (n < u64_modulus)%N → parse_u64 (pretty n) = Some n.
Proof.
  intros Hn. rewrite parse_u64_digits by auto using pretty_nonempty, pretty_digits.
  unfold pretty, pretty_N. case_decide; [by subst|]. by rewrite parse_digits_go.
Qed.

(** ** An injective encoding of countable types, for concrete codecs *)
Fixpoint pos_bits (p : positive) : string :=
  match p with
  | xH => ""
  | xO p => String Ascii.zero (pos_bits p)
  | xI p => String Ascii.one (pos_bits p)
  end.
Fixpoint bits_pos (s : string) : positive :=
  match s with
  | EmptyString => xH
  | String c s => if decide (c = Ascii.zero) then xO (bits_pos s) else xI (bits_pos s)
  end.
Lemma bits_pos_bits p : bits_pos (pos_bits p) = p.
Proof. induction p as [p IH|p IH|]; simpl; [by rewrite IH|by rewrite IH|done]. Qed.
Definition plain_encode {A} `{Countable A} (a : A) : string := String Ascii.one (pos_bits (encode a)).
Definition plain_decode {A} `{Countable A} (b : string) : option A :=
  match b with String _ b => decode (bits_pos b) | EmptyString => None end.
Lemma plain_decode_encode {A} `{Countable A} (a : A) : plain_decode (plain_encode a) = Some a.
Proof. unfold plain_decode, plain_encode. by rewrite bits_pos_bits, decode_encode. Qed.
#[global] Arguments plain_encode : simpl never.
#[global] Arguments plain_decode : simpl never.
