(* ===== verification/ByteOrder.v ===== *)
(** * The order of byte strings, and maps listed in key order.

    sled iterates over its entries in the lexicographic order of the key bytes;
    [sorted_kvs] and [list_prefix] are the reference for what an ordered iteration
    and a prefix scan return. *)
From S2P Require Import Prelude.

(** Byte-wise lexicographic order, the order of [[u8]]. *)
Definition bytes_le (a b : string) : Prop := String.le a b.
Definition bytes_lt (a b : string) : Prop := String.le a b ∧ a ≠ b.
#[export] Instance bytes_le_dec a b : Decision (bytes_le a b).
Proof. unfold bytes_le. apply _. Defined.
#[export] Instance bytes_lt_dec a b : Decision (bytes_lt a b).
Proof. unfold bytes_lt. apply _. Defined.

Lemma bytes_lt_compare a b : bytes_lt a b ↔ String.compare a b = Lt.
Proof.
  unfold bytes_lt, String.le, String.leb. split.
  - intros [Hle Hne]. destruct (String.compare a b) eqn:Hc; [|done|done].
    by apply String.compare_eq_iff in Hc.
  - intros Hc. rewrite Hc. split; [done|]. intros ->.
    pose proof (String.compare_antisym b b) as Ha. by rewrite Hc in Ha.
Qed.
Lemma bytes_compare_spec a b :
  CompareSpec (a = b) (bytes_lt a b) (bytes_lt b a) (String.compare a b).
Proof.
  destruct (String.compare a b) eqn:Hc; constructor; [by apply String.compare_eq_iff|by apply bytes_lt_compare|].
  apply bytes_lt_compare. by rewrite String.compare_antisym, Hc.
Qed.
Lemma bytes_lt_asym a b : bytes_lt a b → bytes_lt b a → False.
Proof. intros [H1 N1] [H2 _]. apply N1. by apply (anti_symm String.le). Qed.
Lemma bytes_lt_ne a b : bytes_lt a b → a ≠ b.
Proof. by intros [_ ?]. Qed.
#[export] Instance bytes_le_refl : Reflexive bytes_le.
Proof. intros a. apply (reflexivity (R:=String.le)). Qed.
Lemma bytes_lt_le a b : bytes_lt a b → bytes_le a b.
Proof. by intros [? _]. Qed.
Lemma bytes_lt_not_le a b : bytes_lt a b → ¬ bytes_le b a.
Proof. intros [H1 N1] H2. apply N1. by apply (anti_symm String.le). Qed.
Lemma bytes_lt_cons c a b : bytes_lt (String c a) (String c b) ↔ bytes_lt a b.
Proof.
  rewrite !bytes_lt_compare. simpl. unfold Ascii.compare. by rewrite N.compare_refl.
Qed.
#[export] Instance bytes_lt_transitive : Transitive bytes_lt.
Proof.
  intros a b c [H1 N1] [H2 N2]. split; [by etrans|]. intros ->. apply N1. by apply (anti_symm String.le).
Qed.
Lemma bytes_lt_irrefl a : ¬ bytes_lt a a.
Proof. by intros [_ []]. Qed.

(** ** The entries of a map in key order *)
Section sorted_map.
Context {K V : Type} `{Countable K} (le : relation K) `{!PartialOrder le, !Total le, !RelDecision le}.
Implicit Types (m : gmap K V) (l : list (K * V)).

Definition kv_le (a b : K * V) : Prop := le a.1 b.1.
Definition kv_lt (a b : K * V) : Prop := le a.1 b.1 ∧ a.1 ≠ b.1.
#[export] Instance kv_le_dec a b : Decision (kv_le a b).
Proof. unfold kv_le. apply _. Defined.

(** The entries of a map in the order of their keys. *)
Definition sorted_map m : list (K * V) := merge_sort kv_le (map_to_list m).

#[local] Instance kv_le_total : Total kv_le.
Proof. intros a b. apply (total le). Qed.
#[local] Instance kv_le_trans : Transitive kv_le.
Proof. intros a b c. unfold kv_le. apply transitivity. Qed.

Lemma elem_of_sorted_map m k v : (k, v) ∈ sorted_map m ↔ m !! k = Some v.
Proof. unfold sorted_map. rewrite merge_sort_Permutation. apply elem_of_map_to_list. Qed.

Lemma le_nodup_lt l : StronglySorted kv_le l → NoDup l.*1 → StronglySorted kv_lt l.
Proof.
  induction 1 as [|a l Hs IH Hall]; simpl; [by constructor|].
  intros [Hni Hnd]%NoDup_cons. constructor; [auto|].
  apply Forall_forall. intros b Hb. split; [by eapply Forall_forall in Hall|].
  intros Heq. apply Hni. rewrite Heq. apply list_elem_of_fmap. by exists b.
Qed.
Lemma sorted_map_sorted m : StronglySorted kv_lt (sorted_map m).
Proof.
  apply le_nodup_lt; [apply StronglySorted_merge_sort; apply _|].
  unfold sorted_map. rewrite merge_sort_Permutation. apply NoDup_fst_map_to_list.
Qed.

Lemma kv_lt_sorted_nodup l : StronglySorted kv_lt l → NoDup l.
Proof.
  induction 1 as [|a l Hs IH Hall]; constructor; [|done].
  intros Hin. eapply Forall_forall in Hall; [|done]. by destruct Hall as [_ []].
Qed.

(** A list sorted by distinct keys is determined by its elements. *)
Lemma kv_sorted_unique l1 l2 :
  StronglySorted kv_lt l1 → StronglySorted kv_lt l2 → (∀ kv, kv ∈ l1 ↔ kv ∈ l2) → l1 = l2.
Proof.
  intros H1 H2 Hiff. apply (StronglySorted_unique_strong kv_lt); [|done|done|].
  - intros x y _ _ [Hxy Hne] [Hyx _]. destruct Hne. by apply (anti_symm le).
  - apply NoDup_Permutation; eauto using kv_lt_sorted_nodup.
Qed.
End sorted_map.

Lemma filter_sorted {A} (R : relation A) P (l : list A) :
  StronglySorted R l → StronglySorted R (List.filter P l).
Proof.
  induction 1 as [|a l Hs IH Hall]; simpl; [constructor|].
  destruct (P a); [|done]. constructor; [done|].
  apply Forall_forall. intros b Hb. eapply Forall_forall in Hall; [done|].
  apply list_elem_of_In. apply list_elem_of_In, List.filter_In in Hb as [? _]. done.
Qed.

Lemma fst_filter_sorted {A B} (R : relation A) P (l : list (A * B)) :
  StronglySorted R l.*1 → StronglySorted R (List.filter P l).*1.
Proof.
  induction l as [|[k v] l IH]; csimpl; intros Hs; [constructor|].
  inversion_clear Hs as [|?? Hs' Hall]. destruct (P (k, v)); csimpl; [|auto].
  constructor; [auto|]. apply Forall_forall. intros k' ([k1 v1] & -> & Hin)%list_elem_of_fmap.
  eapply Forall_forall in Hall; [done|]. apply list_elem_of_fmap. exists (k1, v1). split; [done|].
  apply list_elem_of_In. by apply list_elem_of_In, List.filter_In in Hin as [? _].
Qed.

(** The entries whose key starts with a prefix, in byte order. *)
Section list_prefix.
Context {V : Type}.
Implicit Types (m : gmap string V).

Definition sorted_kvs m : list (string * V) := sorted_map String.le m.
Definition list_prefix m (p : string) : list (string * V) :=
  List.filter (λ kv, String.prefix p kv.1) (sorted_kvs m).

Lemma elem_of_list_prefix m p k v :
  (k, v) ∈ list_prefix m p ↔ m !! k = Some v ∧ String.prefix p k = true.
Proof.
  unfold list_prefix, sorted_kvs. rewrite list_elem_of_In, List.filter_In, <-list_elem_of_In.
  by rewrite elem_of_sorted_map.
Qed.
Lemma sorted_map_keys m : StronglySorted bytes_lt (sorted_map String.le m).*1.
Proof.
  pose proof (sorted_map_sorted String.le m) as Hs.
  induction Hs as [|a l Hs IH Hall]; csimpl; constructor; [done|]. by apply Forall_fmap.
Qed.
Lemma elem_of_list_prefix_keys m p k :
  k ∈ (list_prefix m p).*1 ↔ is_Some (m !! k) ∧ String.prefix p k = true.
Proof.
  rewrite list_elem_of_fmap. split.
  - intros ([k' v] & -> & [Hv Hp]%elem_of_list_prefix). eauto.
  - intros [[v Hv] Hp]. exists (k, v). split; [done|]. by apply elem_of_list_prefix.
Qed.
Lemma list_prefix_nodup m p : NoDup (list_prefix m p).*1.
Proof.
  unfold list_prefix, sorted_kvs. pose proof (fst_filter_sorted _ (λ kv, String.prefix p kv.1) _ (sorted_map_keys m)) as Hs.
  induction Hs as [|a l Hs IH Hall]; constructor; [|done]. intros Hin.
  eapply Forall_forall in Hall; [|done]. by apply bytes_lt_irrefl in Hall.
Qed.
Lemma list_prefix_sorted m p : StronglySorted (kv_lt String.le) (list_prefix m p).
Proof. apply filter_sorted, sorted_map_sorted; apply _. Qed.
End list_prefix.

(** Two maps that agree on the keys with a prefix, up to a relation on values, are
    listed alike. *)
Lemma list_prefix_rel {V1 V2 : Type} (P : string → V1 → V2 → Prop) (m1 : gmap string V1) (m2 : gmap string V2) p :
  (∀ k, String.prefix p k = true → option_Forall2 (P k) (m1 !! k) (m2 !! k)) →
  Forall2 (λ a b, a.1 = b.1 ∧ P a.1 a.2 b.2) (list_prefix m1 p) (list_prefix m2 p).
Proof.
  intros Hm.
  assert ((list_prefix m1 p).*1 = (list_prefix m2 p).*1) as Hkeys.
  { apply (StronglySorted_unique_strong bytes_lt).
    - intros x y _ _ Hxy Hyx. by destruct (bytes_lt_asym x y).
    - apply fst_filter_sorted. unfold sorted_kvs. apply sorted_map_keys.
    - apply fst_filter_sorted. unfold sorted_kvs. apply sorted_map_keys.
    - apply NoDup_Permutation; [apply list_prefix_nodup..|]. intros k. rewrite !elem_of_list_prefix_keys.
      split; intros [[v Hv] Hp]; (split; [|done]); pose proof (Hm k Hp) as Hk; rewrite Hv in Hk;
        inversion Hk; eauto. }
  assert (∀ a, a ∈ list_prefix m1 p → m1 !! a.1 = Some a.2 ∧ String.prefix p a.1 = true) as H1
    by by intros [k v] ?%elem_of_list_prefix.
  assert (∀ a, a ∈ list_prefix m2 p → m2 !! a.1 = Some a.2) as H2 by by intros [k v] [? _]%elem_of_list_prefix.
  revert Hkeys H1 H2. generalize (list_prefix m1 p) as l1, (list_prefix m2 p) as l2.
  induction l1 as [|a l1 IH]; intros [|b l2] Hkeys H1 H2; csimpl in *; simplify_eq; constructor.
  - destruct (H1 a) as [Ha Hp]; [by left|]. pose proof (Hm _ Hp) as Hk.
    pose proof (H2 b ltac:(by left)) as Hb. rewrite Ha in Hk.
    match goal with H : a.1 = b.1 |- _ => rewrite H in *; split; [done|] end. rewrite Hb in Hk. by inversion Hk.
  - apply IH; [done|intros; apply H1; by right|intros; apply H2; by right].
Qed.
