(* ===== verification/MetaTypes.v ===== *)
(** * Data types of the metadata service (src/common/meta/types).

    Versioned values ([SeqV]), write conditions ([MatchSeq]), state changes
    ([Change]), raft commands ([Cmd]), transactions, and the errors that the
    layers above report.  A Rust [String] and a [Vec<u8>] are both a Rocq
    [string], a sequence of 8-bit characters; [utf8_valid] (Prelude.v) is the
    property that separates the former from the latter. *)
From S2P Require Import Prelude.

Abbreviation bytes := string (only parsing).
(** [anyerror::AnyError], and the errors of openraft: the rendered text. *)
Abbreviation any_error := string (only parsing).

(** ** Versioned values: seq_value.rs *)
Record KVMeta := mkKVMeta { expire_at : option N }.

Record SeqV (T : Type) := mkSeqV { seq : N; meta : option KVMeta; data : T }.
Arguments mkSeqV {T} seq meta data.
Arguments seq {T} s.
Arguments meta {T} s.
Arguments data {T} s.

Record PbSeqV := mkPbSeqV { pb_seq : N; pb_data : bytes }.

Definition SeqV_new {T} (s : N) (d : T) : SeqV T := mkSeqV s None d.
Definition SeqV_with_meta {T} (s : N) (m : option KVMeta) (d : T) : SeqV T := mkSeqV s m d.
(** [SeqV<Vec<u8>>::default()], what [unwrap_or_default] gives for an absent record. *)
Definition SeqV_default : SeqV bytes := mkSeqV 0 None "".

Definition get_expire_at {T} (v : SeqV T) : N :=
  match meta v with
  | None => u64_max
  | Some m => match expire_at m with None => u64_max | Some exp_at => exp_at end
  end.

Definition set_seq {T} (v : SeqV T) (s : N) : SeqV T := mkSeqV s (meta v) (data v).
Definition set_meta {T} (v : SeqV T) (m : option KVMeta) : SeqV T := mkSeqV (seq v) m (data v).
Definition set_value {T} (v : SeqV T) (d : T) : SeqV T := mkSeqV (seq v) (meta v) d.

(** [IntoSeqV::into_seqv], with [try_into] the conversion of the payload. *)
Definition into_seqv {E T V} (try_into : V → res E T) (v : SeqV V) : res E (SeqV T) :=
  let? d := try_into (data v) in Ok (mkSeqV (seq v) (meta v) d).

Definition PbSeqV_from (v : SeqV bytes) : PbSeqV := mkPbSeqV (seq v) (data v).

(** ** Sequence numbers: seq_num.rs *)
Definition SeqNum_add (s rhs : N) : N := u64_add s rhs.

(** ** Write conditions: match_seq.rs *)
Inductive MatchSeq := Any | Exact (s : N) | GE (s : N).

Inductive ConflictSeq := NotMatch (want : MatchSeq) (got : N).

Definition MatchSeq_from (s : option N) : MatchSeq :=
  match s with None => Any | Some s => Exact s end.

(** [match_seq] on a bare sequence number. *)
Definition match_seq (self : MatchSeq) (s : N) : res ConflictSeq unit :=
  match self with
  | Any => Ok tt
  | Exact n => if decide (s = n) then Ok tt else Err (NotMatch self s)
  | GE n => if decide (n ≤ s)%N then Ok tt else Err (NotMatch self s)
  end.

(** The sequence number of a possibly absent record: 0 when absent. *)
Definition opt_seq {T} (sv : option (SeqV T)) : N :=
  match sv with None => 0 | Some v => seq v end.

(** [match_seq] on an [&Option<SeqV<U>>]. *)
Definition match_seq_opt {T} (self : MatchSeq) (sv : option (SeqV T)) : res ConflictSeq unit :=
  match_seq self (opt_seq sv).
(** [match_seq] on an [&SeqV<U>]. *)
Definition match_seq_v {T} (self : MatchSeq) (sv : SeqV T) : res ConflictSeq unit :=
  match_seq self (seq sv).

Definition MatchSeq_to_string (self : MatchSeq) : string :=
  match self with
  | Any => "is any value"
  | Exact s => "== " +:+ pretty s
  | GE s => ">= " +:+ pretty s
  end.

(** ** Operations on a value: operation.rs *)
Inductive Operation (T : Type) := OpUpdate (v : T) | OpDelete | OpAsIs.
Arguments OpUpdate {T} v.
Arguments OpDelete {T}.
Arguments OpAsIs {T}.

Definition Operation_from {T} (v : option T) : Operation T :=
  match v with None => OpDelete | Some x => OpUpdate x end.

(** ** Errors: errors.rs, meta_storage_errors.rs, meta_errors.rs, ... *)
Record DatabaseAlreadyExists := mkDatabaseAlreadyExists { dae_db_name : string; dae_context : string }.
Record TableAlreadyExists := mkTableAlreadyExists { tae_table_name : string; tae_context : string }.
Record TableVersionMismatched := mkTableVersionMismatched {
  tvm_table_id : N; tvm_expect : MatchSeq; tvm_curr : N; tvm_context : string }.
Record UnknownDatabase := mkUnknownDatabase { ud_db_name : string; ud_context : string }.
Record UnknownDatabaseId := mkUnknownDatabaseId { udi_db_id : N; udi_context : string }.
Record UnknownTable := mkUnknownTable { ut_table_name : string; ut_context : string }.
Record UnknownTableId := mkUnknownTableId { uti_table_id : N; uti_context : string }.
Record ShareAlreadyExists := mkShareAlreadyExists { sae_share_name : string; sae_context : string }.
Record UnknownShare := mkUnknownShare { us_share_name : string; us_context : string }.
Record UnknownShareId := mkUnknownShareId { usi_share_id : N; usi_context : string }.

Inductive AppError :=
  | AE_TableVersionMismatched (e : TableVersionMismatched)
  | AE_TableAlreadyExists (e : TableAlreadyExists)
  | AE_DatabaseAlreadyExists (e : DatabaseAlreadyExists)
  | AE_UnknownDatabase (e : UnknownDatabase)
  | AE_UnknownDatabaseId (e : UnknownDatabaseId)
  | AE_UnknownTable (e : UnknownTable)
  | AE_UnknownTableId (e : UnknownTableId)
  | AE_ShareAlreadyExists (e : ShareAlreadyExists)
  | AE_UnknownShare (e : UnknownShare)
  | AE_UnknownShareId (e : UnknownShareId).

Inductive MetaStorageError :=
  | BytesError (s : string)
  | SerdeError (s : string)
  | SledError (e : any_error)
  | Damaged (e : any_error)
  | SnapshotError (e : any_error)
  | TransactionConflict
  | MSE_AppError (e : AppError).

Inductive MetaResultError :=
  | InvalidAddResult (prev result : string)
  | InvalidType (expect got : string).

Inductive MetaNetworkError :=
  | ConnectionError (msg : string) (source : any_error)
  | GetNodeAddrError (s : string)
  | MNE_DnsParseError (s : string)
  | TLSConfigError (e : any_error)
  | MNE_BadAddressFormat (e : any_error).

Inductive MetaRaftError :=
  | ForwardToLeader (e : any_error)
  | ChangeMembershipError (e : any_error)
  | ConsistentReadError (s : string)
  | RaftFatal (e : any_error)
  | ForwardRequestError (s : string)
  | NoLeaderError (s : string)
  | JoinClusterFail (s : string)
  | RequestNotForwardToLeaderError (s : string).

Inductive MetaError :=
  | ME_MetaNetworkError (e : MetaNetworkError)
  | ME_MetaRaftError (e : MetaRaftError)
  | ME_MetaStorageError (e : MetaStorageError)
  | ME_MetaResultError (e : MetaResultError)
  | InvalidConfig (s : string)
  | MetaStoreAlreadyExists (id : N)
  | MetaStoreNotFound
  | LoadConfigError (s : string)
  | StartMetaServiceError (s : string)
  | ConcurrentSnapshotInstall (s : string)
  | MetaServiceError (s : string)
  | IllegalRoleInfoFormat (s : string)
  | IllegalUserInfoFormat (s : string)
  | ME_SerdeError (e : any_error)
  | EncodeError (e : any_error)
  | ME_AppError (e : AppError)
  | Fatal (e : any_error).

(** [impl From<MetaStorageError> for MetaError]. *)
Definition MetaError_from_storage (e : MetaStorageError) : MetaError :=
  match e with MSE_AppError app_err => ME_AppError app_err | _ => ME_MetaStorageError e end.

(** ** State changes: change.rs *)
Record Change (T ID : Type) := mkChange {
  ident : option ID; prev : option (SeqV T); result : option (SeqV T) }.
Arguments mkChange {T ID} ident prev result.
Arguments ident {T ID} c.
Arguments prev {T ID} c.
Arguments result {T ID} c.

Inductive OkOrExist (T : Type) := OkNew (v : SeqV T) | Exists (v : SeqV T).
Arguments OkNew {T} v.
Arguments Exists {T} v.

Record AddResult (T ID : Type) := mkAddResult { ar_id : option ID; ar_res : OkOrExist T }.
Arguments mkAddResult {T ID} ar_id ar_res.
Arguments ar_id {T ID} a.
Arguments ar_res {T ID} a.

Section Change.
Context {T ID : Type}.

Definition Change_new (p r : option (SeqV T)) : Change T ID := mkChange None p r.
Definition Change_new_with_id (id : ID) (p r : option (SeqV T)) : Change T ID :=
  mkChange (Some id) p r.
Definition nochange_with_id (id : ID) (p : option (SeqV T)) : Change T ID :=
  mkChange (Some id) p p.
Definition Change_map {U} (f : SeqV T → U) (c : Change T ID) : option U * option U :=
  (f <$> prev c, f <$> result c).
Definition unpack (c : Change T ID) : option (SeqV T) * option (SeqV T) := (prev c, result c).
Definition Change_unwrap (c : Change T ID) : res MetaError (SeqV T * SeqV T) :=
  let? p := unwrap (prev c) in let? r := unwrap (result c) in Ok (p, r).
Definition unpack_seq (c : Change T ID) : option N * option N := Change_map seq c.
Definition unpack_data (c : Change T ID) : option T * option T := Change_map data c.

Definition into_add_result (c : Change T ID) : res MetaResultError (AddResult T ID) :=
  match prev c with
  | Some p =>
      match result c with
      | Some _ => Ok (mkAddResult (ident c) (Exists p))
      | None => Err (InvalidAddResult "Some" "None")
      end
  | None =>
      match result c with
      | Some r => Ok (mkAddResult (ident c) (OkNew r))
      | None => Err (InvalidAddResult "None" "None")
      end
  end.
End Change.

#[export] Instance KVMeta_eq_dec : EqDecision KVMeta.
Proof. solve_decision. Defined.
#[export] Instance SeqV_eq_dec {T} `{EqDecision T} : EqDecision (SeqV T).
Proof. solve_decision. Defined.
#[export] Instance PbSeqV_eq_dec : EqDecision PbSeqV.
Proof. solve_decision. Defined.
#[export] Instance MatchSeq_eq_dec : EqDecision MatchSeq.
Proof. solve_decision. Defined.

Definition Change_changed {T ID} `{EqDecision T} (c : Change T ID) : bool :=
  negb (bool_decide (prev c = result c)).

(** ** Nodes: endpoint.rs, cluster.rs *)
Record Endpoint := mkEndpoint { addr : string; port : N }.
Record Node := mkNode { node_name : string; endpoint : Endpoint }.

Definition Endpoint_to_string (e : Endpoint) : string := addr e +:+ ":" +:+ pretty (port e).
Definition Node_to_string (n : Node) : string :=
  node_name n +:+ "=" +:+ Endpoint_to_string (endpoint n).

#[export] Instance Endpoint_eq_dec : EqDecision Endpoint.
Proof. solve_decision. Defined.
#[export] Instance Node_eq_dec : EqDecision Node.
Proof. solve_decision. Defined.

(** A query node as it registers itself in the cluster. *)
Record NodeInfo := mkNodeInfo {
  ni_id : string; cpu_nums : N; version : N; flight_address : string }.
Definition NodeInfo_create (id : string) (cpus : N) (flight : string) : NodeInfo :=
  mkNodeInfo id cpus 0 flight.

(** ** Transactions: proto/meta.proto, proto/request.proto *)
Inductive ConditionResult := CR_Eq | CR_Gt | CR_Ge | CR_Lt | CR_Le | CR_Ne.

Definition ConditionResult_to_i32 (c : ConditionResult) : Z :=
  match c with
  | CR_Eq => 0 | CR_Gt => 1 | CR_Ge => 2 | CR_Lt => 3 | CR_Le => 4 | CR_Ne => 5
  end.
(** [FromPrimitive::from_i32]. *)
Definition ConditionResult_from_i32 (n : Z) : option ConditionResult :=
  match n with
  | 0 => Some CR_Eq | 1 => Some CR_Gt | 2 => Some CR_Ge
  | 3 => Some CR_Lt | 4 => Some CR_Le | 5 => Some CR_Ne
  | _ => None
  end%Z.

Inductive Target := TargetValue (v : bytes) | TargetSeq (s : N).
Record TxnCondition := mkTxnCondition {
  cond_key : string; target : option Target; expected : Z }.

Record TxnGetRequest := mkTxnGetRequest { get_key : string }.
Record TxnPutRequest := mkTxnPutRequest {
  put_key : string; put_value : bytes; put_prev_value : bool }.
Record TxnDeleteRequest := mkTxnDeleteRequest { delete_key : string; delete_prev_value : bool }.
Inductive Request :=
  | ReqGet (r : TxnGetRequest) | ReqPut (r : TxnPutRequest) | ReqDelete (r : TxnDeleteRequest).
Record TxnOp := mkTxnOp { request : option Request }.

Record TxnGetResponse := mkTxnGetResponse { get_resp_key : string; get_resp_value : option PbSeqV }.
Record TxnPutResponse := mkTxnPutResponse { put_resp_key : string; put_resp_prev : option PbSeqV }.
Record TxnDeleteResponse := mkTxnDeleteResponse {
  del_resp_key : string; success : bool; del_resp_prev : option PbSeqV }.
Inductive Response :=
  | RespGet (r : TxnGetResponse) | RespPut (r : TxnPutResponse) | RespDelete (r : TxnDeleteResponse).
Record TxnOpResponse := mkTxnOpResponse { response : option Response }.

Record TxnRequest := mkTxnRequest {
  condition : list TxnCondition; if_then : list TxnOp; else_then : list TxnOp }.
Record TxnReply := mkTxnReply {
  txn_success : bool; responses : list TxnOpResponse; error : string }.

(** message.rs: [From<TxnReply> for Result<(bool, Vec<TxnOpResponse>), E>].
    [de_error] is [serde_json::from_str] at the error type; the conversion panics
    when the text does not parse. *)
Definition TxnReply_into {E} (de_error : string → option E) (msg : TxnReply)
    : res E (bool * list TxnOpResponse) :=
  if decide (error msg = "") then Ok (txn_success msg, responses msg)
  else match de_error (error msg) with Some e => Err e | None => Panic end.

(** ** Raft log entries: cmd.rs, raft_txid.rs, log_entry.rs *)
Inductive Cmd :=
  | IncrSeq (key : string)
  | AddNode (node_id : N) (node : Node)
  | RemoveNode (node_id : N)
  | AddMetaSrvAddr (metasrv_name metasrv_addr : string)
  | RemoveMetaSrvAddr (metasrv_name : string)
  | UpsertKV (key : string) (seq : MatchSeq) (value : Operation bytes) (value_meta : option KVMeta)
  | Transaction (txn : TxnRequest).

Record RaftTxId := mkRaftTxId { client : string; serial : N }.
Record LogEntry := mkLogEntry { txid : option RaftTxId; cmd : Cmd }.

(** kv_message.rs *)
Record UpsertKVAction := mkUpsertKVAction {
  act_key : string; act_seq : MatchSeq; act_value : Operation bytes; act_value_meta : option KVMeta }.
Abbreviation UpsertKVActionReply := (Change bytes N) (only parsing).

(** ** The state of an applied log: applied_state.rs *)
Inductive AppliedState :=
  | AS_Seq (s : N)
  | AS_Node (p r : option Node)
  | AS_MetaSrvAddr (p r : option string)
  | AS_KV (c : Change bytes N)
  | AS_AppError (e : AppError)
  | AS_TxnReply (r : TxnReply)
  | AS_None.

Definition AppliedState_changed (self : AppliedState) : bool :=
  match self with
  | AS_Seq _ => true
  | AS_Node p r => negb (bool_decide (p = r))
  | AS_MetaSrvAddr p r => negb (bool_decide (p = r))
  | AS_KV ch => Change_changed ch
  | AS_None => false
  | AS_AppError _ => false
  | AS_TxnReply txn => txn_success txn
  end.

Definition opt_is_none {A} (o : option A) : bool := match o with None => true | Some _ => false end.
Definition opt_is_some {A} (o : option A) : bool := negb (opt_is_none o).

Definition prev_is_none (self : AppliedState) : bool :=
  match self with
  | AS_Seq _ => false
  | AS_Node p _ => opt_is_none p
  | AS_MetaSrvAddr p _ => opt_is_none p
  | AS_KV ch => opt_is_none (prev ch)
  | AS_None => true
  | AS_AppError _ => true
  | AS_TxnReply _ => true
  end.

Definition result_is_none (self : AppliedState) : bool :=
  match self with
  | AS_Seq _ => false
  | AS_Node _ r => opt_is_none r
  | AS_MetaSrvAddr _ r => opt_is_none r
  | AS_KV ch => opt_is_none (result ch)
  | AS_None => true
  | AS_AppError _ => true
  | AS_TxnReply txn => negb (txn_success txn)
  end.

Definition prev_is_some (self : AppliedState) : bool := negb (prev_is_none self).
Definition result_is_some (self : AppliedState) : bool := negb (result_is_none self).
