(* ===== verification/KvApi.v ===== *)
(** * The key-value interface (src/common/meta/api/src/kv_api.rs).

    [KVApi] is the trait that the state machine (and the remote client) implements
    and that the schema and management APIs are written against.  The file fixes
    its abstract meaning: a [kv_store] of versioned records with a sequence-number
    generator, and one pure function [kv_*] per operation; [KVApiLaws] says that an
    implementation behaves as these functions.  The second half shows what the
    meaning guarantees to every client: sequence numbers identify record versions. *)
From S2P Require Import Prelude ByteOrder MetaTypes.

(** The system clock in seconds since the epoch, at each reading of it. *)
Class Clock := clock : nat → N.
(** [as_secs] returns a [u64]. *)
Class ClockLaws `{Clock} := clock_bound n : (clock n < u64_modulus)%N.

(** ** The abstract store *)
Record kv_store := mkStore {
  kv : gmap string (SeqV bytes);
  seqs : gmap string N;
  reads : nat;
}.
Definition set_kv (m : gmap string (SeqV bytes)) (st : kv_store) := mkStore m (seqs st) (reads st).
Definition set_seqs (m : gmap string N) (st : kv_store) := mkStore (kv st) m (reads st).
Definition set_reads (n : nat) (st : kv_store) := mkStore (kv st) (seqs st) n.

Definition cur_seq (st : kv_store) (k : string) : N := default 0%N (seqs st !! k).
(** The sequence number given out last to a record. *)
Definition last_seq (st : kv_store) : N := cur_seq st "generic-kv".

Section kv_spec.
Context `{Clock}.
Implicit Types (st : kv_store) (k : string).

(** A record seen at the [n]-th reading of the clock: nothing once it has expired. *)
Definition live {V} (n : nat) (v : SeqV V) : option (SeqV V) :=
  if (get_expire_at v <? clock n)%N then None else Some v.

(** Looking at a record that is there reads the clock once. *)
Definition kv_live st (o : option (SeqV bytes)) : option (SeqV bytes) * kv_store :=
  match o with
  | Some v => (live (reads st) v, set_reads (S (reads st)) st)
  | None => (None, st)
  end.

Definition kv_get st k : option (SeqV bytes) * kv_store := kv_live st (kv st !! k).

Fixpoint kv_mget st (ks : list string) : list (option (SeqV bytes)) * kv_store :=
  match ks with
  | [] => ([], st)
  | k :: ks => let '(v, st) := kv_get st k in let '(vs, st) := kv_mget st ks in (v :: vs, st)
  end.

Fixpoint kv_live_list st (l : list (string * SeqV bytes)) : list (string * SeqV bytes) * kv_store :=
  match l with
  | [] => ([], st)
  | (k, v) :: l =>
      let '(o, st) := kv_live st (Some v) in
      let '(l, st) := kv_live_list st l in
      (match o with Some v => (k, v) :: l | None => l end, st)
  end.
(** The live records whose key starts with the prefix, in key order. *)
Definition kv_list st (p : string) : list (string * SeqV bytes) * kv_store :=
  kv_live_list st (list_prefix (kv st) p).

Definition kv_incr_seq st k : N * kv_store :=
  let n := u64_add (cur_seq st k) 1 in (n, set_seqs (<[k:=n]> (seqs st)) st).

(** Writing a record gives it the next sequence number of the key-value space. *)
Definition kv_put st k (m : option KVMeta) (d : bytes) : option (SeqV bytes) * kv_store :=
  let '(n, st) := kv_incr_seq st "generic-kv" in
  let v := mkSeqV n m d in
  (Some v, set_kv (<[k:=v]> (kv st)) st).

(** An unconditional write over the live record [prev]. *)
Definition kv_write st k (prev : option (SeqV bytes)) (op : Operation bytes) (m : option KVMeta)
    : option (SeqV bytes) * kv_store :=
  match op with
  | OpUpdate d => kv_put st k m d
  | OpDelete => (None, set_kv (base.delete k (kv st)) st)
  | OpAsIs => match prev with Some p => kv_put st k m (data p) | None => (None, st) end
  end.

Definition seq_matches (ms : MatchSeq) (n : N) : bool :=
  match ms with Any => true | Exact s => (n =? s)%N | GE s => (s <=? n)%N end.

Lemma match_seq_ok ms n : is_ok (match_seq ms n) = seq_matches ms n.
Proof.
  destruct ms as [|s|s]; simpl; [done| |]; case_decide; simpl; symmetry; nbool; done || lia.
Qed.

(** A write guarded by the sequence number of the live record. *)
Definition kv_upsert st k (ms : MatchSeq) (op : Operation bytes) (m : option KVMeta)
    : option (SeqV bytes) * option (SeqV bytes) * kv_store :=
  let '(prev, st) := kv_get st k in
  if seq_matches ms (opt_seq prev) then
    let '(result, st) := kv_write st k prev op m in (prev, result, st)
  else (prev, prev, st).

(** *** Transactions *)
Definition cmp_ok (r : ConditionResult) (c : comparison) : bool :=
  match r, c with
  | CR_Eq, Eq | CR_Gt, Gt | CR_Lt, Lt => true
  | CR_Ge, (Gt | Eq) | CR_Le, (Lt | Eq) | CR_Ne, (Lt | Gt) => true
  | _, _ => false
  end.

(** A condition compares the sequence number (0 when absent) or the value of the
    stored record, expired or not, with the target. *)
Definition cond_holds st (c : TxnCondition) : bool :=
  match target c, ConditionResult_from_i32 (expected c) with
  | Some (TargetSeq n), Some r => cmp_ok r (opt_seq (kv st !! cond_key c) ?= n)%N
  | Some (TargetValue v), Some r =>
      match kv st !! cond_key c with
      | Some sv => cmp_ok r (String.compare (data sv) v)
      | None => false
      end
  | _, _ => false
  end.

Definition kv_op st (op : TxnOp) : list Response * kv_store :=
  match request op with
  | Some (ReqGet r) => ([RespGet (mkTxnGetResponse (get_key r) (PbSeqV_from <$> kv st !! get_key r))], st)
  | Some (ReqPut r) =>
      let '(prev, _, st) := kv_upsert st (put_key r) Any (OpUpdate (put_value r)) None in
      ([RespPut (mkTxnPutResponse (put_key r)
          (if put_prev_value r then PbSeqV_from <$> prev else None))], st)
  | Some (ReqDelete r) =>
      let '(prev, _, st) := kv_upsert st (delete_key r) Any OpDelete None in
      ([RespDelete (mkTxnDeleteResponse (delete_key r) (opt_is_some prev)
          (if delete_prev_value r then PbSeqV_from <$> prev else None))], st)
  | None => ([], st)
  end.
Fixpoint kv_ops st (ops : list TxnOp) : list Response * kv_store :=
  match ops with
  | [] => ([], st)
  | op :: ops => let '(r, st) := kv_op st op in let '(rs, st) := kv_ops st ops in (r ++ rs, st)
  end.

(** One of the two branches, chosen by the conjunction of the conditions in the
    state before. *)
Definition kv_txn st (req : TxnRequest) : TxnReply * kv_store :=
  let ok := forallb (cond_holds st) (condition req) in
  let '(rs, st) := kv_ops st (if ok then if_then req else else_then req) in
  (mkTxnReply ok ((λ r, mkTxnOpResponse (Some r)) <$> rs) "", st).
End kv_spec.

(** ** Well-formed inputs: in Rust every [String] is valid UTF-8 *)
Definition op_ok (op : TxnOp) : Prop :=
  match request op with
  | Some (ReqGet r) => utf8_valid (get_key r) = true
  | Some (ReqPut r) => utf8_valid (put_key r) = true
  | Some (ReqDelete r) => utf8_valid (delete_key r) = true
  | None => True
  end.
Definition txn_ok (req : TxnRequest) : Prop :=
  Forall (λ c, utf8_valid (cond_key c) = true) (condition req) ∧
  Forall op_ok (if_then req) ∧ Forall op_ok (else_then req).

(** ** The trait *)
Class KVApi (W : Type) := {
  upsert_kv : UpsertKVAction → M W MetaError UpsertKVActionReply;
  get_kv : string → M W MetaError (option (SeqV bytes));
  mget_kv : list string → M W MetaError (list (option (SeqV bytes)));
  prefix_list_kv : string → M W MetaError (list (string * SeqV bytes));
  kv_transaction : TxnRequest → M W MetaError TxnReply;
}.

(** The contract of the trait: [R] relates a state of the implementation to the
    store it represents. *)
Class KVApiLaws (W : Type) `{KVApi W, Clock} (R : W → kv_store → Prop) := {
  upsert_kv_ok act st :
    utf8_valid (act_key act) = true →
    let '(p, r, st') := kv_upsert st (act_key act) (act_seq act) (act_value act) (act_value_meta act) in
    runs R (upsert_kv act) st (Ok (Change_new p r)) st';
  get_kv_ok k st :
    utf8_valid k = true → runs R (get_kv k) st (Ok (kv_get st k).1) (kv_get st k).2;
  mget_kv_ok ks st :
    Forall (λ k, utf8_valid k = true) ks →
    runs R (mget_kv ks) st (Ok (kv_mget st ks).1) (kv_mget st ks).2;
  prefix_list_kv_ok p st :
    runs R (prefix_list_kv p) st (Ok (kv_list st p).1) (kv_list st p).2;
  transaction_ok req st :
    txn_ok req → runs R (kv_transaction req) st (Ok (kv_txn st req).1) (kv_txn st req).2;
}.

(** ** Records without expiry time *)
Definition immortal (v : SeqV bytes) : Prop := get_expire_at v = u64_max.

Lemma live_immortal `{!Clock, !ClockLaws} n v : immortal v → live n v = Some v.
Proof.
  unfold live. intros ->. destruct (_ <? _)%N eqn:Hlt; [|done]. nbool.
  pose proof (clock_bound n). unfold u64_max in Hlt. lia.
Qed.

Lemma kv_live_list_immortal `{!Clock, !ClockLaws} st (l : list (string * SeqV bytes)) :
  Forall (λ kv, immortal kv.2) l →
  (kv_live_list st l).1 = l ∧ kv (kv_live_list st l).2 = kv st ∧ last_seq (kv_live_list st l).2 = last_seq st.
Proof.
  intros Hl. revert st. induction Hl as [|[k v] l Hv _ IH]; intros st; [done|].
  cbn -[live]. rewrite live_immortal by done. specialize (IH (set_reads (S (reads st)) st)).
  destruct (kv_live_list _ l) as [l' st']. simpl in *. destruct IH as (-> & -> & ->). done.
Qed.

(** ** Sequence numbers identify versions *)

(** Records carry distinct sequence numbers, all of them given out already. *)
Record kv_wf (st : kv_store) : Prop := {
  wf_seq k v : kv st !! k = Some v → (0 < seq v ≤ last_seq st)%N;
  wf_inj k1 k2 v1 v2 :
    kv st !! k1 = Some v1 → kv st !! k2 = Some v2 → seq v1 = seq v2 → k1 = k2;
}.

(** [st'] is a later state than [st]: every record of it is a record of [st] or has
    a sequence number that was not yet given out in [st]. *)
Record kv_later (st st' : kv_store) : Prop := {
  later_seq : (last_seq st ≤ last_seq st')%N;
  later_new k v : kv st' !! k = Some v → kv st !! k = Some v ∨ (last_seq st < seq v)%N;
}.

#[export] Instance kv_later_preorder : PreOrder kv_later.
Proof.
  split.
  - intros st. split; [done|auto].
  - intros st1 st2 st3 [L12 N12] [L23 N23]. split; [lia|].
    intros k v [Hv|Hv]%N23; [by apply N12|right; lia].
Qed.

(** A record that still has the sequence number it had has not changed. *)
Lemma later_same_seq st st' k v v' :
  kv_wf st → kv_later st st' → kv st !! k = Some v → kv st' !! k = Some v' → seq v' = seq v → v' = v.
Proof.
  intros Hwf Hl Hv Hv' Heq. destruct (later_new _ _ Hl _ _ Hv') as [Hold|Hnew]; [congruence|].
  apply (wf_seq _ Hwf) in Hv. lia.
Qed.

(** A transition that gives out at most [n] sequence numbers. *)
Definition evolves (n : nat) (st st' : kv_store) : Prop :=
  kv_wf st → (last_seq st + N.of_nat n < u64_modulus)%N →
  kv_wf st' ∧ kv_later st st' ∧ (last_seq st' ≤ last_seq st + N.of_nat n)%N.

Lemma evolves_trans n1 n2 st st1 st2 :
  evolves n1 st st1 → evolves n2 st1 st2 → evolves (n1 + n2) st st2.
Proof.
  intros E1 E2 Hwf Hroom. destruct E1 as (Hwf1 & Hl1 & Hs1); [done|lia|].
  destruct E2 as (Hwf2 & Hl2 & Hs2); [done|lia|]. split_and!; [done|by etrans|lia].
Qed.
Lemma evolves_weaken n m st st' : n ≤ m → evolves n st st' → evolves m st st'.
Proof. intros Hle E Hwf Hroom. destruct E as (? & ? & ?); [done|lia|]. split_and!; [done|done|lia]. Qed.
(** A transition that touches neither the records nor their generator. *)
Lemma evolves_same n st st' : kv st' = kv st → last_seq st' = last_seq st → evolves n st st'.
Proof.
  intros Hkv Hs [Hseq Hinj] Hroom. split_and!; [split|split|lia].
  - intros k v. rewrite Hkv, Hs. apply Hseq.
  - intros k1 k2 v1 v2. rewrite Hkv. apply Hinj.
  - lia.
  - intros k v. rewrite Hkv. auto.
Qed.

Section evolution.
Context `{Clock}.
Implicit Types (st : kv_store) (k : string).

Lemma kv_live_evolves st o : evolves 0 st (kv_live st o).2.
Proof. by destruct o; apply evolves_same. Qed.
Lemma kv_live_kv st o : kv (kv_live st o).2 = kv st.
Proof. by destruct o. Qed.

Lemma last_seq_incr st k :
  last_seq (kv_incr_seq st k).2 =
  if decide (k = "generic-kv") then u64_add (last_seq st) 1 else last_seq st.
Proof.
  unfold last_seq at 1, cur_seq. simpl. case_decide as Hk.
  - subst k. by rewrite lookup_insert_eq.
  - by rewrite lookup_insert_ne.
Qed.

Lemma kv_incr_seq_evolves st k : evolves 1 st (kv_incr_seq st k).2.
Proof.
  intros [Hseq Hinj] Hroom. rewrite !last_seq_incr.
  assert (last_seq st ≤ last_seq (kv_incr_seq st k).2)%N as Hle.
  { rewrite last_seq_incr. case_decide; [rewrite u64_add_small|]; lia. }
  split_and!; [split|split; [done|auto]|].
  - intros k' v Hv. apply Hseq in Hv. lia.
  - apply Hinj.
  - case_decide; [rewrite u64_add_small|]; lia.
Qed.

Lemma kv_put_last st k m d : last_seq (kv_put st k m d).2 = u64_add (last_seq st) 1.
Proof. unfold last_seq, cur_seq. simpl. by rewrite lookup_insert_eq. Qed.

Lemma kv_put_evolves st k m d : evolves 1 st (kv_put st k m d).2.
Proof.
  intros [Hseq Hinj] Hroom. pose proof (kv_put_last st k m d) as Hlast.
  assert (kv (kv_put st k m d).2 = <[k:=mkSeqV (u64_add (last_seq st) 1) m d]> (kv st)) as Hkv by done.
  rewrite u64_add_small in Hlast, Hkv by done.
  split_and!; [split|split|]; rewrite ?Hlast, ?Hkv; [| |lia| |lia].
  - intros k' v'. rewrite lookup_insert_Some. intros [[_ <-]|[_ Hv]]; [simpl; lia|].
    apply Hseq in Hv. lia.
  - intros k1 k2 v1 v2. rewrite !lookup_insert_Some.
    intros [[<- <-]|[_ H1]] [[<- <-]|[_ H2]]; simpl; [done| | |by eapply Hinj].
    + apply Hseq in H2. lia.
    + apply Hseq in H1. lia.
  - intros k' v'. rewrite lookup_insert_Some. intros [[_ <-]|[_ Hv]]; simpl; [right; lia|auto].
Qed.

Lemma kv_delete_evolves st k : evolves 0 st (set_kv (base.delete k (kv st)) st).
Proof.
  intros [Hseq Hinj] Hroom. split_and!; [split|split|]; change (last_seq (set_kv _ st)) with (last_seq st);
    simpl; [| |lia| |lia].
  - intros k' v' [_ Hv]%lookup_delete_Some. eauto.
  - intros k1 k2 v1 v2 [_ H1]%lookup_delete_Some [_ H2]%lookup_delete_Some. eauto.
  - intros k' v' [_ Hv]%lookup_delete_Some. auto.
Qed.

Lemma kv_write_evolves st k prev op m : evolves 1 st (kv_write st k prev op m).2.
Proof.
  destruct op as [d| |]; simpl.
  - apply kv_put_evolves.
  - apply (evolves_weaken 0); [lia|]. apply kv_delete_evolves.
  - destruct prev; [apply kv_put_evolves|by apply evolves_same].
Qed.

Lemma kv_upsert_evolves st k ms op m : evolves 1 st (kv_upsert st k ms op m).2.
Proof.
  unfold kv_upsert, kv_get. pose proof (kv_live_evolves st (kv st !! k)) as E1.
  destruct (kv_live st (kv st !! k)) as [prev st1]. simpl in E1.
  destruct (seq_matches _ _); [|by eapply evolves_weaken; [|done]; lia].
  pose proof (kv_write_evolves st1 k prev op m) as E2.
  destruct (kv_write st1 k prev op m) as [r st2]. by apply (evolves_trans 0 1 _ st1).
Qed.

Lemma kv_op_evolves st op : evolves 1 st (kv_op st op).2.
Proof.
  unfold kv_op. destruct (request op) as [[r|r|r]|]; try by apply evolves_same.
  - pose proof (kv_upsert_evolves st (put_key r) Any (OpUpdate (put_value r)) None) as E.
    by destruct (kv_upsert _ _ _ _ _) as [[??]?].
  - pose proof (kv_upsert_evolves st (delete_key r) Any OpDelete None) as E.
    by destruct (kv_upsert _ _ _ _ _) as [[??]?].
Qed.
Lemma kv_ops_evolves st ops : evolves (length ops) st (kv_ops st ops).2.
Proof.
  revert st. induction ops as [|op ops IH]; intros st; simpl; [by apply evolves_same|].
  pose proof (kv_op_evolves st op) as E1. destruct (kv_op st op) as [r st1].
  specialize (IH st1). destruct (kv_ops st1 ops) as [rs st2]. by apply (evolves_trans 1 _ _ st1).
Qed.

(** The number of operations a transaction may run. *)
Definition txn_size (req : TxnRequest) : nat := length (if_then req) `max` length (else_then req).

Lemma kv_txn_evolves st req : evolves (txn_size req) st (kv_txn st req).2.
Proof.
  unfold kv_txn, txn_size. set (ops := if forallb _ _ then _ else _).
  pose proof (kv_ops_evolves st ops) as E. destruct (kv_ops st ops) as [rs st1].
  eapply evolves_weaken; [|done]. subst ops. destruct (forallb _ _); lia.
Qed.
End evolution.

(** ** Optimistic concurrency *)

(** A record with the sequence number read earlier (0: none) is the record read. *)
Lemma later_validated st0 st1 k :
  kv_wf st0 → kv_wf st1 → kv_later st0 st1 →
  opt_seq (kv st1 !! k) = opt_seq (kv st0 !! k) → kv st1 !! k = kv st0 !! k.
Proof.
  intros Hwf0 Hwf1 Hl Heq. destruct (kv st0 !! k) as [v0|] eqn:H0, (kv st1 !! k) as [v1|] eqn:H1; simpl in Heq.
  - f_equal. by apply (later_same_seq st0 st1 k v0 v1).
  - apply (wf_seq _ Hwf0) in H0. lia.
  - apply (wf_seq _ Hwf1) in H1. lia.
  - done.
Qed.

Definition seq_cond (k : string) (n : N) : TxnCondition := mkTxnCondition k (Some (TargetSeq n)) 0.
Lemma seq_cond_holds st k n : cond_holds st (seq_cond k n) = (opt_seq (kv st !! k) =? n)%N.
Proof.
  unfold cond_holds. simpl. destruct (N.compare_spec (opt_seq (kv st !! k)) n); simpl; symmetry; nbool; lia.
Qed.

(** The sequence number of the live record is that of the stored one, or 0. *)
Lemma kv_get_seq `{Clock} st k :
  opt_seq (kv_get st k).1 = opt_seq (kv st !! k) ∨ (kv_get st k).1 = None.
Proof. unfold kv_get, kv_live, live. destruct (kv st !! k); [simpl; destruct (_ <? _)%N|]; auto. Qed.

Lemma kv_get_le `{Clock} st k : kv_wf st → (opt_seq (kv_get st k).1 ≤ last_seq st)%N.
Proof.
  intros Hwf. destruct (kv_get_seq st k) as [->| ->]; [|simpl; lia].
  destruct (kv st !! k) as [v|] eqn:Hv; simpl; [apply (wf_seq _ Hwf) in Hv|]; lia.
Qed.
(** After an update or a deletion the record never has an old version again. *)
Lemma upsert_version_gone `{Clock} st k n op m st2 v :
  kv_wf st → (last_seq st + 1 < u64_modulus)%N → opt_seq (kv_get st k).1 = n → op ≠ OpAsIs →
  kv_later (kv_upsert st k (Exact n) op m).2 st2 → kv st2 !! k = Some v → (last_seq st < seq v)%N.
Proof.
  intros Hwf Hroom Hget Hop Hl Hv. unfold kv_upsert in Hl.
  assert (last_seq (kv_get st k).2 = last_seq st) as Hs by by unfold kv_get; destruct (kv st !! k).
  destruct (kv_get st k) as [prev st1]. simpl in *. subst n. rewrite N.eqb_refl in Hl. rewrite <-Hs in *.
  destruct op as [d| |]; [| |done].
  - pose proof (kv_put_last st1 k m d) as Hp. rewrite u64_add_small in Hp by done.
    destruct (later_new _ _ Hl _ _ Hv) as [Hold|Hnew]; simpl in Hold || simpl in Hnew.
    + rewrite lookup_insert_eq in Hold. simplify_eq/=. change (cur_seq st1 "generic-kv") with (last_seq st1).
      rewrite u64_add_small by done. lia.
    + simpl in Hp. lia.
  - destruct (later_new _ _ Hl _ _ Hv) as [Hold|Hnew]; [|done]. simpl in Hold. by rewrite lookup_delete_eq in Hold.
Qed.

(** Compare-and-swap succeeds once: after an update or a deletion conditioned on
    the version [n > 0] of a record has taken effect, any other write conditioned on
    the same version, at any later time, finds another version and changes nothing. *)
Theorem cas_once `{Clock} st k n op m st2 op2 m2 :
  kv_wf st → (last_seq st + 1 < u64_modulus)%N → (0 < n)%N →
  opt_seq (kv_get st k).1 = n → op ≠ OpAsIs →
  kv_later (kv_upsert st k (Exact n) op m).2 st2 →
  let '(prev, result, st3) := kv_upsert st2 k (Exact n) op2 m2 in
  opt_seq prev ≠ n ∧ result = prev ∧ kv st3 = kv st2.
Proof.
  intros Hwf Hroom Hn Hget Hop Hl. pose proof (kv_get_le st k Hwf) as Hle.
  pose proof (λ v, upsert_version_gone st k n op m st2 v Hwf Hroom Hget Hop Hl) as Hnew.
  unfold kv_upsert. pose proof (kv_get_seq st2 k) as Hs. pose proof (kv_live_kv st2 (kv st2 !! k)) as Hkv.
  fold (kv_get st2 k) in Hkv. destruct (kv_get st2 k) as [prev st3]. simpl in *.
  assert (opt_seq prev ≠ n) as Hne.
  { destruct Hs as [Hs| ->]; [|simpl; lia]. rewrite Hs. destruct (kv st2 !! k) as [v|]; simpl; [|lia].
    specialize (Hnew v eq_refl). lia. }
  by rewrite (proj2 (N.eqb_neq _ _) Hne).
Qed.

(** Two clients that read version 1 of a record. *)
Definition small_store : kv_store := mkStore {["k" := mkSeqV 1 None "a"]} {["generic-kv" := 1%N]} 0.
Lemma small_store_wf : kv_wf small_store.
Proof.
  split; unfold small_store; cbn [kv].
  - intros k v [<- <-]%lookup_singleton_Some. by vm_compute.
  - intros k1 k2 v1 v2 [<- _]%lookup_singleton_Some [<- _]%lookup_singleton_Some. done.
Qed.
Section examples.
#[local] Instance some_clock : Clock := λ _, 100%N.
Lemma cas_once_example :
  let st1 := (kv_upsert small_store "k" (Exact 1) (OpUpdate "b") None).2 in
  let '(prev, result, st2) := kv_upsert st1 "k" (Exact 1) (OpUpdate "c") None in
  opt_seq prev ≠ 1%N ∧ result = prev ∧ kv st2 = kv st1.
Proof.
  refine (cas_once small_store "k" 1 (OpUpdate "b") None (kv_upsert small_store "k" (Exact 1) (OpUpdate "b") None).2
    (OpUpdate "c") None _ _ _ _ _ _);
    [apply small_store_wf|vm_compute; reflexivity|lia|vm_compute; reflexivity|done|reflexivity].
Defined.
End examples.
