(* ===== verification/SledStore.v ===== *)
(** * The typed key-value store (src/common/meta/sled-store).

    [SledTree] wraps one [sled::Tree] and gives access to several key spaces in
    it: every key is serialized with an order-preserving codec and prepended with
    the one-byte prefix of its key space, every value is serialized with
    serde_json.  sled and serde_json are not part of the repository: they are the
    classes [Sled], [SledEnv] and [SledSerde] below, with their documented
    behaviour as the [..Laws] classes. *)
From S2P Require Import Prelude ByteOrder MetaTypes.

Inductive Bound (K : Type) := Included (k : K) | Excluded (k : K) | Unbounded.
Arguments Included {K} k.
Arguments Excluded {K} k.
Arguments Unbounded {K}.

Definition bound_debug {K} (key_debug : K → string) (b : Bound K) : string :=
  match b with
  | Included k => "Included(" +:+ key_debug k +:+ ")"
  | Excluded k => "Excluded(" +:+ key_debug k +:+ ")"
  | Unbounded => "Unbounded"
  end.

Definition in_range (lo hi : Bound bytes) (k : bytes) : bool :=
  match lo with
  | Included l => bool_decide (bytes_le l k)
  | Excluded l => bool_decide (bytes_lt l k)
  | Unbounded => true
  end &&
  match hi with
  | Included h => bool_decide (bytes_le k h)
  | Excluded h => bool_decide (bytes_lt k h)
  | Unbounded => true
  end.

(** ** The sled API that the repository calls *)
Class Sled (T : Type) := {
  tree_get : T → bytes → option bytes;
  tree_insert : T → bytes → bytes → option bytes * T;
  tree_remove : T → bytes → option bytes * T;
  tree_iter : T → list (bytes * bytes);
  tree_range : T → Bound bytes → Bound bytes → list (bytes * bytes);
  tree_scan_prefix : T → bytes → list (bytes * bytes);
}.

(** sled::Tree behaves as an ordered map from byte strings to byte strings. *)
Class SledLaws (T : Type) `{Sled T} := {
  tree_insert_prev t k v : (tree_insert t k v).1 = tree_get t k;
  tree_get_insert t k v k' :
    tree_get (tree_insert t k v).2 k' = if decide (k = k') then Some v else tree_get t k';
  tree_remove_prev t k : (tree_remove t k).1 = tree_get t k;
  tree_get_remove t k k' :
    tree_get (tree_remove t k).2 k' = if decide (k = k') then None else tree_get t k';
  tree_iter_spec t k v : (k, v) ∈ tree_iter t ↔ tree_get t k = Some v;
  tree_iter_sorted t : StronglySorted bytes_lt (tree_iter t).*1;
  tree_range_spec t lo hi :
    tree_range t lo hi = List.filter (λ kv, in_range lo hi kv.1) (tree_iter t);
  tree_scan_prefix_spec t p :
    tree_scan_prefix t p = List.filter (λ kv, String.prefix p kv.1) (tree_iter t);
}.

(** What a call inside a sled transaction can fail with. *)
Inductive UnabortableTransactionError := UStorage (e : any_error) | UConflict.
(** What the closure of a sled transaction returns. *)
Inductive ConflictableTransactionError := CAbort (e : MetaStorageError) | CConflict.
Inductive TransactionError := TAbort (e : MetaStorageError) | TStorage (e : any_error).

(** The faults of the storage below: the [n]-th sled call of a run fails with
    [txn_fault n] inside a transaction, with [io_fault n] outside. *)
Class SledEnv := {
  txn_fault : nat → option UnabortableTransactionError;
  io_fault : nat → option any_error;
  add_context : any_error → string → any_error;
  (** the text of [std::string::FromUtf8Error] for the given bytes *)
  utf8_error_text : bytes → string;
  (** the [Debug] rendering of a [String], used in error contexts only *)
  str_debug : string → string;
}.

(** [impl From<UnabortableTransactionError> for MetaStorageError]. *)
Definition MetaStorageError_from_unabortable (e : UnabortableTransactionError) : MetaStorageError :=
  match e with UStorage e => SledError e | UConflict => TransactionConflict end.

(** ** The state of a run: the tree, the number of sled calls made so far, and
    whatever else the code above the store keeps ([X]). *)
Record world (T X : Type) := mkWorld { tree : T; sled_ops : nat; env : X }.
Arguments mkWorld {T X} tree sled_ops env.
Arguments tree {T X} w.
Arguments sled_ops {T X} w.
Arguments env {T X} w.

Definition set_tree {T X} (t : T) (w : world T X) : world T X := mkWorld t (sled_ops w) (env w).

(** sled's [Tree::transaction]: runs the closure on the tree, again when it ends
    in a conflict.  The contract: a run that returns [Ok] is committed as a whole,
    when the call fails nothing of what the closure did to the tree remains. *)
Class SledTransaction (T X : Type) := transaction : ∀ A : Type,
  M (world T X) ConflictableTransactionError A → M (world T X) TransactionError A.
Arguments transaction {T X _ A} f : rename.

Class SledTransactionLaws (T X : Type) `{SledTransaction T X} := {
  transaction_commit {A} (f : M (world T X) _ A) w a w1 :
    f w = (Ok a, w1) → transaction f w = (Ok a, w1);
  transaction_abort {A} (f : M (world T X) _ A) w e w1 :
    f w = (Err (CAbort e), w1) → transaction f w = (Err (TAbort e), set_tree (tree w) w1);
  transaction_atomic {A} (f : M (world T X) _ A) w r w' :
    transaction f w = (r, w') →
    match r with
    | Ok a => ∃ w0, tree w0 = tree w ∧ f w0 = (Ok a, w')
    | _ => tree w' = tree w
    end;
}.

(** ** Key and value codecs: sled_serde.rs *)
Class SledOrderedSerde (K : Type) := {
  ord_ser : K → res MetaStorageError bytes;
  ord_de : bytes → res MetaStorageError K;
}.
Class SledSerde (V : Type) := {
  ser : V → res MetaStorageError bytes;
  de : bytes → res MetaStorageError V;
}.
(** serde_json writes every value of the stored types, and reads it back. *)
Class SledSerdeLaws (V : Type) `{SledSerde V} :=
  serde_roundtrip (v : V) : ∃ b, ser v = Ok b ∧ de b = Ok v.

(** [BigEndian::write_u64] and [BigEndian::read_u64]: eight bytes, the most
    significant first; reading takes the first eight bytes and panics on fewer. *)
Fixpoint be_write (n : nat) (x : N) (acc : bytes) : bytes :=
  match n with
  | O => acc
  | S n => be_write n (x / 256) (String (Ascii.ascii_of_N (x mod 256)) acc)
  end.
Fixpoint be_read (n : nat) (acc : N) (b : bytes) : option N :=
  match n, b with
  | O, _ => Some acc
  | S n, String c b => be_read n (acc * 256 + byte_of c) b
  | S _, EmptyString => None
  end.

Definition write_u64 (x : N) : bytes := be_write 8 x "".
Definition read_u64 {E} (v : bytes) : res E N := unwrap (be_read 8 0 v).
Arguments write_u64 : simpl never.
Arguments read_u64 : simpl never.

#[export] Instance u64_ordered_serde : SledOrderedSerde N := {
  ord_ser x := Ok (write_u64 x);
  ord_de := read_u64;
}.

#[export] Instance string_ordered_serde `{SledEnv} : SledOrderedSerde string := {
  ord_ser s := Ok s;
  ord_de v :=
    map_err (λ b, BytesError ("Bad bytes, cannot parse bytes with UTF8, cause: "
                                +:+ utf8_error_text b)) (from_utf8 v);
}.

(** ** Key spaces: sled_key_space.rs *)
Record SledKeySpace (K V : Type) := mkKeySpace { PREFIX : N; NAME : string }.
Arguments mkKeySpace {K V} PREFIX NAME.
Arguments PREFIX {K V} s.
Arguments NAME {K V} s.

Section key_space.
Context {K V : Type} `{SledOrderedSerde K, SledSerde V}.
Implicit Types (ks : SledKeySpace K V) (k : K) (v : V).

Definition serialize_key ks k : res MetaStorageError bytes :=
  let? x := ord_ser k in Ok (String (Ascii.ascii_of_N (PREFIX ks)) x).

Definition deserialize_key ks (iv : bytes) : res MetaStorageError K :=
  match iv with
  | EmptyString => Panic
  | String b0 rest =>
      if decide (b0 = Ascii.ascii_of_N (PREFIX ks)) then ord_de rest
      else Err (SledError "invalid prefix")
  end.

Definition serialize_value ks v : res MetaStorageError bytes := ser v.
Definition deserialize_value ks (iv : bytes) : res MetaStorageError V := de iv.

Definition serialize_bound ks (b : Bound K) (dir : string) : res MetaStorageError (Bound bytes) :=
  match b with
  | Included k => res_map Included (serialize_key ks k)
  | Excluded k => res_map Excluded (serialize_key ks k)
  | Unbounded =>
      if decide (dir = "left") then Ok (Included (String (Ascii.ascii_of_N (PREFIX ks)) ""))
      else Ok (Excluded (String (Ascii.ascii_of_N ((PREFIX ks + 1) mod 256)) ""))
  end.

Definition serialize_range ks (range : Bound K * Bound K)
    : res MetaStorageError (Bound bytes * Bound bytes) :=
  let? s := serialize_bound ks range.1 "left" in
  let? e := serialize_bound ks range.2 "right" in
  Ok (s, e).
End key_space.

(** ** Store operations: sled_tree.rs *)
Section sled_tree.
Context {T X : Type} `{Sled T, SledEnv}.
Abbreviation W := (world T X).

(** One call into sled, inside and outside a transaction. *)
Definition txn_call {A} (f : T → A * T) : M W MetaStorageError A := λ w,
  match txn_fault (sled_ops w) with
  | Some e => (Err (MetaStorageError_from_unabortable e), mkWorld (tree w) (S (sled_ops w)) (env w))
  | None => let (a, t) := f (tree w) in (Ok a, mkWorld t (S (sled_ops w)) (env w))
  end.
Definition io_call {A} (mes : string) (f : T → A * T) : M W MetaStorageError A := λ w,
  match io_fault (sled_ops w) with
  | Some e => (Err (SledError (add_context e mes)), mkWorld (tree w) (S (sled_ops w)) (env w))
  | None => let (a, t) := f (tree w) in (Ok a, mkWorld t (S (sled_ops w)) (env w))
  end.

(** [SledTree::txn]. *)
Definition sled_txn `{SledTransaction T X} {A} (f : M W MetaStorageError A) : M W MetaStorageError A :=
  mapErrM
    (λ txn_err, match txn_err with TAbort meta_sto_err => meta_sto_err | TStorage e => SerdeError e end)
    (transaction
       (mapErrM
          (λ meta_sto_err,
             match meta_sto_err with
             | BytesError _ => CAbort meta_sto_err
             | SerdeError _ => CAbort meta_sto_err
             | SledError _ => CAbort meta_sto_err
             | TransactionConflict => CConflict
             | MSE_AppError _ => CAbort meta_sto_err
             | SnapshotError _ => CAbort meta_sto_err
             | Damaged _ => CAbort meta_sto_err
             end) f)).

(** [match bytes { Some(v) => Ok(Some(deserialize_value(v)?)), None => Ok(None) }]. *)
Definition deserialize_opt {K V} `{SledSerde V} (ks : SledKeySpace K V) (o : option bytes)
    : res MetaStorageError (option V) :=
  match o with
  | Some v => let? v := deserialize_value ks v in Ok (Some v)
  | None => Ok None
  end.

Section key_space_ops.
Context {K V : Type} `{SledOrderedSerde K, SledSerde V} (ks : SledKeySpace K V).
Implicit Types (k : K) (v : V).

(** [impl Store<KV> for AsTxnKeySpace]. *)
Definition txn_insert k v : M W MetaStorageError (option V) :=
  let! kb := lift (serialize_key ks k) in
  let! vb := lift (serialize_value ks v) in
  let! prev := txn_call (λ t, tree_insert t kb vb) in
  lift (deserialize_opt ks prev).

Definition txn_get k : M W MetaStorageError (option V) :=
  let! kb := lift (serialize_key ks k) in
  let! got := txn_call (λ t, (tree_get t kb, t)) in
  lift (deserialize_opt ks got).

Definition txn_remove k : M W MetaStorageError (option V) :=
  let! kb := lift (serialize_key ks k) in
  let! removed := txn_call (λ t, tree_remove t kb) in
  lift (deserialize_opt ks removed).

Definition txn_update_and_fetch k (f : option V → option V) : M W MetaStorageError (option V) :=
  let! key_ivec := lift (serialize_key ks k) in
  let! old_val_ivec := txn_call (λ t, (tree_get t key_ivec, t)) in
  let! old_val := lift (deserialize_opt ks old_val_ivec) in
  let new_val := f old_val in
  match new_val with
  | Some v =>
      let! vb := lift (serialize_value ks v) in
      let! _ := txn_call (λ t, tree_insert t key_ivec vb) in
      ret new_val
  | None =>
      let! _ := txn_call (λ t, tree_remove t key_ivec) in
      ret new_val
  end.

(** [impl SledTree] (and [AsKeySpace], which delegates to it).  [name] and [sync]
    are the fields of the wrapper; [key_str] and [bound_str] are the [Display] and
    [Debug] renderings that go into error messages. *)
Context (name : string) (sync : bool) (key_str : K → string) (bound_str : Bound K → string).

Definition flush_async (flush : bool) : M W MetaStorageError unit :=
  if flush && sync then io_call "flust sled-tree" (λ t, (tt, t)) else ret tt.

Definition range_message (range : Bound K * Bound K) : string :=
  name +:+ ":" +:+ NAME ks +:+ "/[" +:+ bound_str range.1 +:+ ", " +:+ bound_str range.2 +:+ "]".

Definition contains_key k : M W MetaStorageError bool :=
  let! kb := lift (serialize_key ks k) in
  io_call ("contains_key: " +:+ name +:+ ":" +:+ key_str k)
    (λ t, (opt_is_some (tree_get t kb), t)).

(** The closure handed to sled: a value that does not deserialize, or does not
    serialize, makes it return [None], which removes the key. *)
Definition fetch_closure (f : option V → option V) (old : option bytes) : option bytes :=
  match
    match old with
    | Some o => match deserialize_value ks o with Ok v => Some (Some v) | _ => None end
    | None => Some None
    end
  with
  | None => None
  | Some old =>
      match f old with
      | Some v => match serialize_value ks v with Ok b => Some b | _ => None end
      | None => None
      end
  end.

Definition sled_update_and_fetch k (f : option V → option V) : M W MetaStorageError (option V) :=
  let! kb := lift (serialize_key ks k) in
  let! got := io_call ("update_and_fetch: " +:+ key_str k)
    (λ t, match fetch_closure f (tree_get t kb) with
          | Some b => (Some b, (tree_insert t kb b).2)
          | None => (None, (tree_remove t kb).2)
          end) in
  let! _ := flush_async true in
  lift (deserialize_opt ks got).

Definition sled_get k : M W MetaStorageError (option V) :=
  let! kb := lift (serialize_key ks k) in
  let! got := io_call ("get: " +:+ name +:+ ":" +:+ key_str k) (λ t, (tree_get t kb, t)) in
  lift (deserialize_opt ks got).

Definition deserialize_kv (kv : bytes * bytes) : res MetaStorageError (K * V) :=
  let? k := deserialize_key ks kv.1 in
  let? v := deserialize_value ks kv.2 in
  Ok (k, v).

Definition last : M W MetaStorageError (option (K * V)) :=
  let! '(lo, hi) := lift (serialize_range ks (Unbounded, Unbounded)) in
  let! kv := (λ w, (Ok (list.last (tree_range (tree w) lo hi)), w)) in
  match kv with
  | None => ret None
  | Some kv =>
      let! kv := io_call "last" (λ t, (kv, t)) in
      let! kv := lift (deserialize_kv kv) in
      ret (Some kv)
  end.

Definition sled_remove k (flush : bool) : M W MetaStorageError (option V) :=
  let! kb := lift (serialize_key ks k) in
  let! removed := io_call ("remove: " +:+ key_str k) (λ t, tree_remove t kb) in
  let! _ := flush_async flush in
  lift (deserialize_opt ks removed).

(** The loop over a sled iterator: reading an item can fail, then [f] is applied. *)
Definition for_item {A} (mes : string) (f : bytes * bytes → res MetaStorageError A)
    (items : list (bytes * bytes)) : M W MetaStorageError (list A) :=
  collectM (λ kv, let! kv := io_call mes (λ t, (kv, t)) in lift (f kv)) items.

Definition range_items {A} (mes : string) (range : Bound K * Bound K)
    (f : bytes * bytes → res MetaStorageError A) : M W MetaStorageError (list A) :=
  let! '(lo, hi) := lift (serialize_range ks range) in
  λ w, for_item (mes +:+ range_message range) f (tree_range (tree w) lo hi) w.

Definition range_remove (range : Bound K * Bound K) (flush : bool) : M W MetaStorageError unit :=
  let! batch := range_items "range_remove: " range (λ kv, Ok kv.1) in
  let! _ := io_call ("batch remove: " +:+ range_message range)
    (λ t, (tt, foldl (λ t kb, (tree_remove t kb).2) t batch)) in
  flush_async flush.

Definition range_keys (range : Bound K * Bound K) : M W MetaStorageError (list K) :=
  range_items "range_get: " range (λ kv, deserialize_key ks kv.1).

Definition range_kvs (range : Bound K * Bound K) : M W MetaStorageError (list (K * V)) :=
  range_items "range_get: " range deserialize_kv.

Definition scan_prefix k : M W MetaStorageError (list (K * V)) :=
  let! pref := lift (serialize_key ks k) in
  λ w, for_item ("scan_prefix: " +:+ key_str k) deserialize_kv (tree_scan_prefix (tree w) pref) w.

Definition range_values (range : Bound K * Bound K) : M W MetaStorageError (list V) :=
  range_items "range_get: " range (λ kv, deserialize_value ks kv.2).

Definition serialize_kv (kv : K * V) : res MetaStorageError (bytes * bytes) :=
  let? kb := serialize_key ks kv.1 in
  let? vb := serialize_value ks kv.2 in
  Ok (kb, vb).

Definition append (kvs : list (K * V)) : M W MetaStorageError unit :=
  let! batch := lift (res_mapM serialize_kv kvs) in
  let! _ := io_call "batch append"
    (λ t, (tt, foldl (λ t kv, (tree_insert t kv.1 kv.2).2) t batch)) in
  flush_async true.

(** [SledValueToKey::to_key] is the argument [to_key]. *)
Definition append_values (to_key : V → K) (values : list V) : M W MetaStorageError unit :=
  let! batch := lift (res_mapM (λ v, serialize_kv (to_key v, v)) values) in
  let! _ := io_call "batch append_values"
    (λ t, (tt, foldl (λ t kv, (tree_insert t kv.1 kv.2).2) t batch)) in
  flush_async true.

Definition sled_insert k v : M W MetaStorageError (option V) :=
  let! kb := lift (serialize_key ks k) in
  let! vb := lift (serialize_value ks v) in
  let! prev := io_call ("insert_value " +:+ key_str k) (λ t, tree_insert t kb vb) in
  let! prev := lift (deserialize_opt ks prev) in
  let! _ := flush_async true in
  ret prev.

Definition insert_value (to_key : V → K) v : M W MetaStorageError (option V) :=
  sled_insert (to_key v) v.
End key_space_ops.

(** [SledTree::export], whose error is the [std::io::Error] sled's converts into. *)
Definition export : M W any_error (list (bytes * bytes)) := λ w,
  collectM (λ kv w, match io_fault (sled_ops w) with
                | Some e => (Err e, mkWorld (tree w) (S (sled_ops w)) (env w))
                | None => (Ok kv, mkWorld (tree w) (S (sled_ops w)) (env w))
                end) (tree_iter (tree w)) w.
End sled_tree.
