(* ===== verification/SledView.v ===== *)
(** * The typed view of a sled tree.

    A key space of a [SledTree] behaves as a finite map from keys to values:
    [repr ks t m] says that the entries of the tree [t] under the prefix of [ks]
    are the serialized entries of [m].  The lemmas below give the effect of each
    store operation on the view of its own key space and show that it leaves the
    other key spaces alone.  The last part builds a concrete tree, codec and
    transaction that satisfy the laws assumed of sled and serde_json. *)
From S2P Require Import Prelude ByteOrder MetaTypes SledStore.

(** ** Key codecs *)

(** [key_ok] holds of the keys a Rust program can build: a [u64] is below 2^64, a
    [String] is valid UTF-8. *)
Class OrderedSerdeLaws (K : Type) `{SledOrderedSerde K} := {
  key_ok : K → Prop;
  ord_roundtrip k : key_ok k → ∃ b, ord_ser k = Ok b ∧ ord_de b = Ok k;
}.

(** The value of a big-endian byte string. *)
Fixpoint be_value (acc : N) (b : bytes) : N :=
  match b with
  | EmptyString => acc
  | String c b => be_value (acc * 256 + byte_of c) b
  end.

Lemma be_write_app n x acc : be_write n x acc = be_write n x "" +:+ acc.
Proof.
  revert x acc. induction n as [|n IH]; intros x acc; simpl; [done|].
  rewrite IH, (IH _ (String _ "")), string_app_assoc. done.
Qed.

Lemma be_write_length n x : String.length (be_write n x "") = n.
Proof.
  revert x. induction n as [|n IH]; intros x; simpl; [done|].
  rewrite be_write_app, string_app_length, IH. simpl. lia.
Qed.

Lemma be_read_value n acc b : String.length b = n → be_read n acc b = Some (be_value acc b).
Proof. intros <-. revert acc. induction b as [|c b IH]; intros acc; simpl; [done|]. apply IH. Qed.

Lemma be_value_snoc acc a c :
  be_value acc (a +:+ String c "") = (be_value acc a * 256 + byte_of c)%N.
Proof.
  revert acc. induction a as [|d a IH]; intros acc; [done|].
  rewrite string_app_cons. simpl. apply IH.
Qed.

Lemma be_value_write n x : (x < 256 ^ N.of_nat n)%N → be_value 0 (be_write n x "") = x.
Proof.
  revert x. induction n as [|n IH]; intros x Hx; simpl be_write.
  { change (x < 1)%N in Hx. simpl. lia. }
  rewrite be_write_app, be_value_snoc, byte_of_ascii by by apply N.mod_lt.
  rewrite IH; [symmetry; rewrite N.mul_comm; by apply N.div_mod|].
  apply N.Div0.div_lt_upper_bound. rewrite <-N.pow_succ_r'. by rewrite <-Nat2N.inj_succ.
Qed.

Lemma be_value_lt x y a b :
  (x < y)%N → String.length a = String.length b → (be_value x a < be_value y b)%N.
Proof.
  revert x y b. induction a as [|c a IH]; intros x y [|d b] Hxy; simpl; intros Hl; simplify_eq; [done|].
  apply IH; [|done]. pose proof (byte_of_bound c). lia.
Qed.

(** On byte strings of one length the byte order is the numeric order. *)
Lemma be_value_compare acc a b :
  String.length a = String.length b →
  String.compare a b = (be_value acc a ?= be_value acc b)%N.
Proof.
  revert acc b. induction a as [|c a IH]; intros acc [|d b]; simpl; intros Hl; simplify_eq.
  { by rewrite N.compare_refl. }
  unfold Ascii.compare. fold (byte_of c) (byte_of d).
  destruct (N.compare_spec (byte_of c) (byte_of d)) as [->|Hlt|Hlt].
  - by apply IH.
  - symmetry. apply N.compare_lt_iff, be_value_lt; [lia|done].
  - symmetry. apply N.compare_gt_iff, be_value_lt; [lia|done].
Qed.

Lemma read_write_u64 {E} n : (n < u64_modulus)%N → read_u64 (E:=E) (write_u64 n) = Ok n.
Proof.
  intros Hn. unfold read_u64, write_u64. rewrite be_read_value by apply be_write_length.
  by rewrite be_value_write.
Qed.
(** The encoding of a [u64] preserves the order. *)
Lemma write_u64_order a b :
  (a < u64_modulus)%N → (b < u64_modulus)%N → bytes_lt (write_u64 a) (write_u64 b) ↔ (a < b)%N.
Proof.
  intros Ha Hb. unfold write_u64.
  rewrite bytes_lt_compare, (be_value_compare 0) by by rewrite !be_write_length.
  by rewrite !be_value_write, N.compare_lt_iff.
Qed.

#[export] Program Instance u64_ordered_laws : OrderedSerdeLaws N :=
  {| key_ok n := (n < u64_modulus)%N |}.
Next Obligation.
  intros n Hn. exists (write_u64 n). split; [done|]. by apply read_write_u64.
Qed.

#[export] Program Instance string_ordered_laws `{SledEnv} : OrderedSerdeLaws string :=
  {| key_ok s := utf8_valid s = true |}.
Next Obligation.
  intros ? s Hs. eexists. split; [reflexivity|]. simpl. unfold from_utf8. by rewrite Hs.
Qed.

(** ** The view of one key space *)
Abbreviation space_byte ks := (Ascii.ascii_of_N (PREFIX ks)).

Lemma tree_get_insert_space `{SledLaws T} (t : T) c rest b c' rest' :
  c' ≠ c → tree_get (tree_insert t (String c rest) b).2 (String c' rest') = tree_get t (String c' rest').
Proof. intros. rewrite tree_get_insert. by rewrite decide_False by congruence. Qed.
Lemma tree_get_remove_space `{SledLaws T} (t : T) c rest c' rest' :
  c' ≠ c → tree_get (tree_remove t (String c rest)).2 (String c' rest') = tree_get t (String c' rest').
Proof. intros. rewrite tree_get_remove. by rewrite decide_False by congruence. Qed.

Section repr.
Context {T : Type} `{SledLaws T} {K V : Type} `{OrderedSerdeLaws K, SledSerdeLaws V, Countable K}.
Implicit Types (ks : SledKeySpace K V) (t : T) (m : gmap K V).

Record repr ks t m : Prop := {
  repr_keys k v : m !! k = Some v → key_ok k;
  repr_get k rest :
    key_ok k → ord_ser k = Ok rest →
    match m !! k with
    | Some v => ∃ b, tree_get t (String (space_byte ks) rest) = Some b ∧ de b = Ok v
    | None => tree_get t (String (space_byte ks) rest) = None
    end;
  repr_only rest b :
    tree_get t (String (space_byte ks) rest) = Some b → ∃ k, key_ok k ∧ ord_ser k = Ok rest;
}.

Lemma ord_ser_inj (k1 k2 : K) rest :
  key_ok k1 → key_ok k2 → ord_ser k1 = Ok rest → ord_ser k2 = Ok rest → k1 = k2.
Proof.
  intros Hk1 Hk2 H1' H2'.
  destruct (ord_roundtrip _ Hk1) as (? & ? & ?), (ord_roundtrip _ Hk2) as (? & ? & ?). congruence.
Qed.

Lemma repr_insert ks t m k v rest b :
  repr ks t m → key_ok k → ord_ser k = Ok rest → de b = Ok v →
  repr ks (tree_insert t (String (space_byte ks) rest) b).2 (<[k:=v]> m).
Proof.
  intros [Hkeys Hget Honly] Hk Hser Hde. split.
  - intros k' v'. rewrite lookup_insert_Some. intros [[-> _]|[_ Hm]]; eauto.
  - intros k' rest' Hk' Hser'. rewrite tree_get_insert. case_decide as Heq; simplify_eq.
    + rewrite (ord_ser_inj _ _ _ Hk Hk' Hser Hser'), lookup_insert_eq. eauto.
    + rewrite lookup_insert_ne by congruence. by apply Hget.
  - intros rest' b'. rewrite tree_get_insert. case_decide; simplify_eq; eauto.
Qed.

Lemma repr_remove ks t m k rest :
  repr ks t m → key_ok k → ord_ser k = Ok rest →
  repr ks (tree_remove t (String (space_byte ks) rest)).2 (base.delete k m).
Proof.
  intros [Hkeys Hget Honly] Hk Hser. split.
  - intros k' v'. rewrite lookup_delete_Some. intros [_ Hm]; eauto.
  - intros k' rest' Hk' Hser'. rewrite tree_get_remove. case_decide as Heq; simplify_eq.
    + by rewrite (ord_ser_inj _ _ _ Hk Hk' Hser Hser'), lookup_delete_eq.
    + rewrite lookup_delete_ne by congruence. by apply Hget.
  - intros rest' b'. rewrite tree_get_remove. case_decide; simplify_eq; eauto.
Qed.

(** What another key space does to the tree is not seen. *)
Lemma repr_frame ks t t' m :
  (∀ rest, tree_get t' (String (space_byte ks) rest) = tree_get t (String (space_byte ks) rest)) →
  repr ks t m → repr ks t' m.
Proof.
  intros Heq [Hkeys Hget Honly]. split; [done| |].
  - intros k rest Hk Hs. rewrite Heq. by apply Hget.
  - intros rest b. rewrite Heq. apply Honly.
Qed.
Lemma repr_frame_insert ks t m c rest b :
  c ≠ space_byte ks → repr ks t m → repr ks (tree_insert t (String c rest) b).2 m.
Proof.
  intros Hc. apply repr_frame. intros rest'. by apply tree_get_insert_space.
Qed.
Lemma repr_frame_remove ks t m c rest :
  c ≠ space_byte ks → repr ks t m → repr ks (tree_remove t (String c rest)).2 m.
Proof.
  intros Hc. apply repr_frame. intros rest'. by apply tree_get_remove_space.
Qed.

Lemma repr_deserialize ks t m k rest :
  repr ks t m → key_ok k → ord_ser k = Ok rest →
  deserialize_opt ks (tree_get t (String (space_byte ks) rest)) = Ok (m !! k).
Proof.
  intros Hr Hk Hs. pose proof (repr_get _ _ _ Hr _ _ Hk Hs) as Hg.
  destruct (m !! k) as [v|]; [destruct Hg as (b & -> & Hd)|by rewrite Hg].
  simpl. unfold deserialize_value. by rewrite Hd.
Qed.
End repr.

(** ** Executing store operations on abstract states

    An abstract state [S] of the code above the store holds the view of the key
    space [ks]: [sv_get] reads it, [sv_set] replaces it. *)
Class SpaceView {T X S : Type} `{Sled T} {K V : Type} `{Countable K, OrderedSerdeLaws K, SledSerde V}
    (R : world T X → S → Prop) (ks : SledKeySpace K V) := {
  sv_get : S → gmap K V;
  sv_set : gmap K V → S → S;
  sv_repr w s : R w s → repr ks (tree w) (sv_get s);
  sv_frame w w' s m :
    R w s → env w' = env w → repr ks (tree w') m →
    (∀ c rest, c ≠ space_byte ks →
       tree_get (tree w') (String c rest) = tree_get (tree w) (String c rest)) →
    R w' (sv_set m s);
  sv_ops w n s : R w s → R (mkWorld (tree w) n (env w)) s;
}.

(** A run without storage faults. *)
Class NoFaults `{SledEnv} := {
  no_txn_fault n : txn_fault n = None;
  no_io_fault n : io_fault n = None;
}.

Section run_ops.
Context {T X S : Type} `{SledLaws T, !SledEnv, !NoFaults}.
Context {K V : Type} `{Countable K, OrderedSerdeLaws K, SledSerdeLaws V}.
Context (R : world T X → S → Prop) (ks : SledKeySpace K V) `{!SpaceView R ks}.
Implicit Types (k : K) (v : V) (s : S).

Lemma txn_call_ok {A} (f : T → A * T) (w : world T X) :
  txn_call f w = (Ok (f (tree w)).1, mkWorld (f (tree w)).2 (1 + sled_ops w) (env w)).
Proof. unfold txn_call. rewrite no_txn_fault. by destruct (f (tree w)). Qed.
Lemma io_call_ok {A} mes (f : T → A * T) (w : world T X) :
  io_call mes f w = (Ok (f (tree w)).1, mkWorld (f (tree w)).2 (1 + sled_ops w) (env w)).
Proof. unfold io_call. rewrite no_io_fault. by destruct (f (tree w)). Qed.

Lemma serialize_key_ok k :
  key_ok k → ∃ rest, ord_ser k = Ok rest ∧ serialize_key ks k = Ok (String (space_byte ks) rest).
Proof.
  intros (rest & Hs & _)%ord_roundtrip. exists rest. unfold serialize_key. by rewrite Hs.
Qed.

Lemma runs_txn_get k s :
  key_ok k → runs R (txn_get ks k) s (Ok (sv_get s !! k)) s.
Proof.
  intros Hk w Hw. destruct (serialize_key_ok k Hk) as (rest & Hser & Hkey).
  eexists. split; [|by apply sv_ops]. unfold txn_get, bind, lift. rewrite Hkey, txn_call_ok. simpl.
  by rewrite (repr_deserialize _ _ (sv_get s) k) by eauto using sv_repr.
Qed.

Lemma runs_txn_insert k v s :
  key_ok k → runs R (txn_insert ks k v) s (Ok (sv_get s !! k)) (sv_set (<[k:=v]> (sv_get s)) s).
Proof.
  intros Hk w Hw. destruct (serialize_key_ok k Hk) as (rest & Hser & Hkey).
  destruct (serde_roundtrip v) as (b & Hb & Hd).
  eexists. unfold txn_insert, bind, lift, serialize_value. rewrite Hkey, Hb, txn_call_ok. simpl.
  rewrite tree_insert_prev, (repr_deserialize _ _ (sv_get s) k) by eauto using sv_repr.
  split; [done|]. apply sv_frame with w; [done|done|simpl; eauto using repr_insert, sv_repr|].
  intros c rest' Hc. by apply tree_get_insert_space.
Qed.

Lemma runs_txn_remove k s :
  key_ok k → runs R (txn_remove ks k) s (Ok (sv_get s !! k)) (sv_set (base.delete k (sv_get s)) s).
Proof.
  intros Hk w Hw. destruct (serialize_key_ok k Hk) as (rest & Hser & Hkey).
  eexists. unfold txn_remove, bind, lift. rewrite Hkey, txn_call_ok. simpl.
  rewrite tree_remove_prev, (repr_deserialize _ _ (sv_get s) k) by eauto using sv_repr.
  split; [done|]. apply sv_frame with w; [done|done|simpl; eauto using repr_remove, sv_repr|].
  intros c rest' Hc. by apply tree_get_remove_space.
Qed.

Lemma runs_txn_update_and_fetch k f s :
  key_ok k →
  runs R (txn_update_and_fetch ks k f) s (Ok (f (sv_get s !! k)))
    (sv_set match f (sv_get s !! k) with
            | Some v => <[k:=v]> (sv_get s)
            | None => base.delete k (sv_get s)
            end s).
Proof.
  intros Hk w Hw. destruct (serialize_key_ok k Hk) as (rest & Hser & Hkey).
  unfold txn_update_and_fetch, bind, lift. rewrite Hkey, txn_call_ok. simpl.
  rewrite (repr_deserialize _ _ (sv_get s) k) by eauto using sv_repr.
  destruct (f (sv_get s !! k)) as [v|].
  - destruct (serde_roundtrip v) as (b & Hb & Hd). unfold serialize_value. rewrite Hb, txn_call_ok. simpl.
    eexists. split; [done|]. apply sv_frame with w; [done|done|simpl; eauto using repr_insert, sv_repr|].
    intros c rest' Hc. by apply tree_get_insert_space.
  - rewrite txn_call_ok. eexists. split; [done|].
    apply sv_frame with w; [done|done|simpl; eauto using repr_remove, sv_repr|].
    intros c rest' Hc. by apply tree_get_remove_space.
Qed.

Lemma runs_sled_get name key_str k s :
  key_ok k → runs R (sled_get ks name key_str k) s (Ok (sv_get s !! k)) s.
Proof.
  intros Hk w Hw. destruct (serialize_key_ok k Hk) as (rest & Hser & Hkey).
  eexists. split; [|by apply sv_ops]. unfold sled_get, bind, lift. rewrite Hkey, io_call_ok. simpl.
  by rewrite (repr_deserialize _ _ (sv_get s) k) by eauto using sv_repr.
Qed.

Lemma runs_flush_async sync flush s : runs R (flush_async sync flush) s (Ok tt) s.
Proof.
  intros w Hw. unfold flush_async. destruct (flush && sync); [|by eexists].
  rewrite io_call_ok. eexists. split; [done|]. by apply sv_ops.
Qed.
Lemma runs_sled_insert sync key_str k v s :
  key_ok k →
  runs R (sled_insert ks sync key_str k v) s (Ok (sv_get s !! k)) (sv_set (<[k:=v]> (sv_get s)) s).
Proof.
  intros Hk w Hw. destruct (serialize_key_ok k Hk) as (rest & Hser & Hkey).
  destruct (serde_roundtrip v) as (b & Hb & Hd).
  unfold sled_insert, bind, lift, serialize_value. rewrite Hkey, Hb, io_call_ok. simpl.
  rewrite tree_insert_prev, (repr_deserialize _ _ (sv_get s) k) by eauto using sv_repr.
  match goal with |- context [flush_async sync true ?w1] =>
    destruct (runs_flush_async sync true (sv_set (<[k:=v]> (sv_get s)) s) w1) as (w2 & Hf & Hw2) end.
  - apply sv_frame with w; [done|done|simpl; eauto using repr_insert, sv_repr|].
    intros c rest' Hc. by apply tree_get_insert_space.
  - exists w2. by rewrite Hf.
Qed.
End run_ops.

(** ** Listing a key space of string keys by prefix *)
Section run_scan.
Context {T X S : Type} `{SledLaws T, !SledEnv, !NoFaults} {V : Type} `{SledSerdeLaws V}.
Context (R : world T X → S → Prop) (ks : SledKeySpace string V) `{!SpaceView R ks}.

Lemma for_item_ok {A} mes (f : bytes * bytes → res MetaStorageError A) items l (w : world T X) :
  res_mapM f items = Ok l → ∃ n, for_item mes f items w = (Ok l, mkWorld (tree w) n (env w)).
Proof.
  revert l w. induction items as [|x items IH]; simpl; intros l w Hl; simplify_eq.
  { exists (sled_ops w). by destruct w. }
  destruct (f x) as [y| |] eqn:Hfx; simplify_eq/=.
  destruct (res_mapM f items) as [ys| |] eqn:Hys; simplify_eq/=.
  edestruct (IH ys) as [n Hn]; [done|]. exists n.
  unfold for_item in *. simpl. unfold bind at 1 2. rewrite io_call_ok. simpl.
  unfold lift, bind. rewrite Hfx, Hn. done.
Qed.

Lemma deserialize_kv_ok (k : string) b v :
  utf8_valid k = true → de b = Ok v → deserialize_kv ks (String (space_byte ks) k, b) = Ok (k, v).
Proof.
  intros Hk Hd. unfold deserialize_kv, deserialize_key, deserialize_value. simpl.
  rewrite decide_True by done. unfold from_utf8. by rewrite Hk; simpl; rewrite Hd.
Qed.

(** The entries sled returns for a prefix, decoded. *)
Lemma scan_items t (m : gmap string V) (p : string) (items : list (bytes * bytes)) :
  repr ks t m →
  (∀ x, x ∈ items → tree_get t x.1 = Some x.2 ∧ String.prefix (String (space_byte ks) p) x.1 = true) →
  StronglySorted bytes_lt items.*1 →
  ∃ l : list (string * V), res_mapM (deserialize_kv ks) items = Ok l ∧
    items.*1 = (λ kv, String (space_byte ks) kv.1) <$> l ∧
    StronglySorted (kv_lt String.le) l ∧
    (∀ kv, kv ∈ l → m !! kv.1 = Some kv.2).
Proof.
  intros Hr Hin Hs. induction items as [|[kb b] items IH]; csimpl.
  { exists []. split_and!; [done|done|constructor|]. by intros kv ?%elem_of_nil. }
  rewrite fmap_cons in Hs. inversion_clear Hs as [|?? Hs' Hall].
  destruct IH as (l & Hl & Hkeys & Hsl & Hml); [|done|].
  { intros x Hx. apply Hin. by right. }
  destruct (Hin (kb, b)) as [Hg Hp]; [by left|]. simpl in Hg, Hp.
  destruct kb as [|c k]; [done|]. simpl in Hp. destruct (Ascii.ascii_dec _ c) as [<-|]; [|done].
  destruct (repr_only _ _ _ Hr _ _ Hg) as (k' & Hok & [= ->]).
  pose proof (repr_get _ _ _ Hr k k Hok eq_refl) as Hm. destruct (m !! k) as [v|] eqn:Hmk; [|congruence].
  destruct Hm as (b' & Hb' & Hde). simplify_eq.
  exists ((k, v) :: l). rewrite (deserialize_kv_ok _ _ _ Hok Hde). simpl. rewrite Hl. simpl.
  split_and!; [done|by f_equal| |].
  - constructor; [done|]. apply Forall_forall. intros kv Hkv. rewrite Hkeys in Hall.
    rewrite Forall_fmap in Hall. eapply Forall_forall in Hall; [|done]. by apply bytes_lt_cons in Hall.
  - intros kv [->|Hkv]%elem_of_cons; auto.
Qed.

Lemma prefix_cons c p k : String.prefix (String c p) (String c k) = String.prefix p k.
Proof. simpl. by destruct (Ascii.ascii_dec c c). Qed.

Lemma elem_of_scan (t : T) pb (x : bytes * bytes) :
  x ∈ tree_scan_prefix t pb ↔ tree_get t x.1 = Some x.2 ∧ String.prefix pb x.1 = true.
Proof.
  rewrite tree_scan_prefix_spec, list_elem_of_In, List.filter_In, <-list_elem_of_In.
  destruct x as [k v]. by rewrite tree_iter_spec.
Qed.
Lemma scan_sorted (t : T) pb : StronglySorted bytes_lt (tree_scan_prefix t pb).*1.
Proof. rewrite tree_scan_prefix_spec. apply fst_filter_sorted, tree_iter_sorted. Qed.

(** [scan_prefix] returns the entries of the view with the prefix, in key order. *)
Lemma runs_scan_prefix key_str p s :
  runs R (scan_prefix ks key_str p) s (Ok (list_prefix (sv_get s) p)) s.
Proof.
  intros w Hw. unfold scan_prefix, bind, lift, serialize_key. simpl.
  destruct (scan_items (tree w) (sv_get s) p (tree_scan_prefix (tree w) (String (space_byte ks) p)))
    as (l & Hl & Hkeys & Hsl & Hml); [by apply sv_repr|by intros x ?%elem_of_scan|apply scan_sorted|].
  destruct (for_item_ok ("scan_prefix: " +:+ key_str p) _ _ _ w Hl) as [n Hn].
  eexists. split; [|by apply (sv_ops w n)]. rewrite Hn. do 2 f_equal.
  apply (kv_sorted_unique String.le); [done|apply list_prefix_sorted|]. intros [k v].
  rewrite elem_of_list_prefix, <-(prefix_cons (space_byte ks)). split.
  - intros Hin. split; [by apply (Hml (k, v))|].
    assert (String (space_byte ks) k ∈ (tree_scan_prefix (tree w) (String (space_byte ks) p)).*1)
      as ([k' v'] & ? & Hin')%list_elem_of_fmap; [rewrite Hkeys; apply list_elem_of_fmap; by exists (k, v)|].
    simplify_eq/=. by apply elem_of_scan in Hin' as [_ ?].
  - intros [Hmk Hp]. pose proof (sv_repr _ _ Hw) as Hr.
    pose proof (repr_get _ _ _ Hr k k (repr_keys _ _ _ Hr _ _ Hmk) eq_refl) as Hg.
    rewrite Hmk in Hg. destruct Hg as (b & Hb & _).
    assert (String (space_byte ks) k ∈ (tree_scan_prefix (tree w) (String (space_byte ks) p)).*1) as Hin.
    { apply list_elem_of_fmap. exists (String (space_byte ks) k, b). split; [done|]. by apply elem_of_scan. }
    rewrite Hkeys in Hin. apply list_elem_of_fmap in Hin as ([k' v'] & ? & Hin). simplify_eq/=.
    pose proof (Hml _ Hin). by simplify_eq/=.
Qed.
End run_scan.

(** ** A concrete store

    A [gmap] of byte strings with sorted iteration is a sled tree, a transaction
    that runs its closure once and gives up on a conflict is a sled transaction,
    and an injective encoding is a value codec: the laws above are satisfiable. *)
Definition mem_tree : Type := gmap string string.

#[export] Instance mem_sled : Sled mem_tree := {
  tree_get t k := t !! k;
  tree_insert t k v := (t !! k, <[k:=v]> t);
  tree_remove t k := (t !! k, base.delete k t);
  tree_iter t := sorted_kvs t;
  tree_range t lo hi := List.filter (λ kv, in_range lo hi kv.1) (sorted_kvs t);
  tree_scan_prefix t p := List.filter (λ kv, String.prefix p kv.1) (sorted_kvs t);
}.

#[export] Instance mem_sled_laws : SledLaws mem_tree.
Proof.
  split; try done; simpl.
  - intros t k v k'. case_decide as Hk; [rewrite Hk; apply lookup_insert_eq|by apply lookup_insert_ne].
  - intros t k k'. case_decide as Hk; [rewrite Hk; apply lookup_delete_eq|by apply lookup_delete_ne].
  - intros. apply elem_of_sorted_map.
  - intros t. unfold sorted_kvs. induction (sorted_map_sorted String.le t) as [|a l Hs IH Hall]; csimpl; constructor; [done|].
    by apply Forall_fmap.
Qed.

#[export] Instance mem_transaction X : SledTransaction mem_tree X := λ A f w,
  match f w with
  | (Ok a, w1) => (Ok a, w1)
  | (Err (CAbort e), w1) => (Err (TAbort e), set_tree (tree w) w1)
  | (Err CConflict, w1) => (Err (TStorage "conflict"), set_tree (tree w) w1)
  | (Panic, w1) => (Panic, set_tree (tree w) w1)
  end.

#[export] Instance mem_transaction_laws X : SledTransactionLaws mem_tree X.
Proof.
  split; unfold transaction, mem_transaction.
  - by intros A f w a w1 ->.
  - by intros A f w e w1 ->.
  - intros A f w r w'. destruct (f w) as [[a|[e|]|] w1] eqn:Hf; intros [= <- <-]; eauto.
Qed.

(** No faults; the error texts are those of the given rendering. *)
Definition quiet_env : SledEnv := {|
  txn_fault _ := None; io_fault _ := None;
  add_context e c := c +:+ ": " +:+ e; utf8_error_text _ := "invalid utf-8 sequence";
  str_debug s := s |}.
Lemma quiet_no_faults : @NoFaults quiet_env.
Proof. by split. Qed.


Definition countable_serde (V : Type) `{Countable V} : SledSerde V := {|
  ser v := Ok (pos_bits (encode v));
  de b := match decode (bits_pos b) with Some v => Ok v | None => Err (SerdeError "not a value") end |}.
Lemma countable_serde_laws (V : Type) `{Countable V} : @SledSerdeLaws V (countable_serde V).
Proof.
  intros v. exists (pos_bits (encode v)). split; [done|]. simpl.
  by rewrite bits_pos_bits, decode_encode.
Qed.
