(* ===== verification/SledRange.v ===== *)
(** * Ranges of a key space with numeric keys.

    The operations of the raft log: appending, reading and removing ranges of
    indices, and finding the last entry.  On the view of a key space with [u64] keys
    they act as on a finite map ordered by index. *)
From S2P Require Import Prelude ByteOrder MetaTypes SledStore SledView.

Definition key_in (range : Bound N * Bound N) (k : N) : bool :=
  match range.1 with
  | Included a => (a <=? k)%N
  | Excluded a => (a <? k)%N
  | Unbounded => true
  end &&
  match range.2 with
  | Included b => (k <=? b)%N
  | Excluded b => (k <? b)%N
  | Unbounded => true
  end.
Definition bound_ok (b : Bound N) : Prop :=
  match b with Included k | Excluded k => (k < u64_modulus)%N | Unbounded => True end.
Definition range_ok (r : Bound N * Bound N) : Prop := bound_ok r.1 ∧ bound_ok r.2.

(** The entries of a map in a range, in index order. *)
Definition map_range {V} (m : gmap N V) (r : Bound N * Bound N) : list (N * V) :=
  List.filter (λ kv, key_in r kv.1) (sorted_map N.le m).

Lemma elem_of_map_range {V} (m : gmap N V) r k v :
  (k, v) ∈ map_range m r ↔ m !! k = Some v ∧ key_in r k = true.
Proof.
  unfold map_range. rewrite list_elem_of_In, List.filter_In, <-list_elem_of_In. by rewrite elem_of_sorted_map.
Qed.
Lemma map_range_sorted {V} (m : gmap N V) r : StronglySorted (kv_lt N.le) (map_range m r).
Proof. apply filter_sorted, sorted_map_sorted; apply _. Qed.

(** ** Comparing encoded keys *)
Lemma cmp_key c a b :
  (a < u64_modulus)%N → (b < u64_modulus)%N →
  String.compare (String c (write_u64 a)) (String c (write_u64 b)) = (a ?= b)%N.
Proof.
  intros Ha Hb.
  assert (String.compare (String c (write_u64 a)) (String c (write_u64 b)) =
          String.compare (write_u64 a) (write_u64 b)) as ->
    by (cbn [String.compare]; unfold Ascii.compare; by rewrite N.compare_refl).
  unfold write_u64. rewrite (be_value_compare 0) by by rewrite !be_write_length. by rewrite !be_value_write.
Qed.
Lemma cmp_head c d a b :
  String.compare (String c a) (String d b) ≠ Gt → (byte_of c ≤ byte_of d)%N.
Proof.
  simpl. unfold Ascii.compare. fold (byte_of c) (byte_of d).
  destruct (N.compare_spec (byte_of c) (byte_of d)); intros; [lia|lia|done].
Qed.
Lemma bytes_le_compare a b : bytes_le a b ↔ String.compare a b ≠ Gt.
Proof. unfold bytes_le, String.le, String.leb. by destruct (String.compare a b). Qed.

Lemma write_u64_inj a b : (a < u64_modulus)%N → (b < u64_modulus)%N → write_u64 a = write_u64 b → a = b.
Proof.
  intros Ha Hb Heq. pose proof (read_write_u64 (E:=unit) a Ha) as H1. rewrite Heq, read_write_u64 in H1 by done.
  congruence.
Qed.

Definition above (lo : Bound bytes) (k : bytes) : bool :=
  match lo with
  | Included l => bool_decide (bytes_le l k)
  | Excluded l => bool_decide (bytes_lt l k)
  | Unbounded => true
  end.
Definition below (hi : Bound bytes) (k : bytes) : bool :=
  match hi with
  | Included h => bool_decide (bytes_le k h)
  | Excluded h => bool_decide (bytes_lt k h)
  | Unbounded => true
  end.
Lemma in_range_above_below lo hi k : in_range lo hi k = above lo k && below hi k.
Proof. done. Qed.

Section bounds.
Context {V : Type} `{SledSerde V} (ks : SledKeySpace N V) (Hp : (PREFIX ks < 255)%N).

(** The bounds of a range, as bytes. *)
Definition lo_bytes (b : Bound N) : Bound bytes :=
  match b with
  | Included k => Included (String (space_byte ks) (write_u64 k))
  | Excluded k => Excluded (String (space_byte ks) (write_u64 k))
  | Unbounded => Included (String (space_byte ks) "")
  end.
Definition hi_bytes (b : Bound N) : Bound bytes :=
  match b with
  | Included k => Included (String (space_byte ks) (write_u64 k))
  | Excluded k => Excluded (String (space_byte ks) (write_u64 k))
  | Unbounded => Excluded (String (Ascii.ascii_of_N (PREFIX ks + 1)) "")
  end.

Lemma serialize_range_ok r : serialize_range ks r = Ok (lo_bytes r.1, hi_bytes r.2).
Proof.
  destruct r as [[a|a|] [b|b|]]; unfold serialize_range, serialize_bound, hi_bytes; simpl;
    rewrite ?N.mod_small by lia; done.
Qed.

Lemma above_head lo kb : above (lo_bytes lo) kb = true → ∃ c rest, kb = String c rest ∧ (PREFIX ks ≤ byte_of c)%N.
Proof.
  destruct kb as [|c kb]; [by destruct lo|]. intros Hab. exists c, kb. split; [done|].
  rewrite <-(byte_of_ascii (PREFIX ks)) by lia.
  destruct lo as [k|k|]; simpl in Hab; apply bool_decide_eq_true in Hab.
  - by apply bytes_le_compare, cmp_head in Hab.
  - apply bytes_lt_compare in Hab. eapply cmp_head. by rewrite Hab.
  - by apply bytes_le_compare, cmp_head in Hab.
Qed.
Lemma below_head hi c rest : below (hi_bytes hi) (String c rest) = true → (byte_of c ≤ PREFIX ks)%N.
Proof.
  intros Hb. destruct hi as [k|k|]; simpl in Hb; apply bool_decide_eq_true in Hb.
  - rewrite <-(byte_of_ascii (PREFIX ks)) by lia. by apply bytes_le_compare, cmp_head in Hb.
  - rewrite <-(byte_of_ascii (PREFIX ks)) by lia. apply bytes_lt_compare in Hb. eapply cmp_head. by rewrite Hb.
  - apply bytes_lt_compare in Hb. simpl in Hb. unfold Ascii.compare in Hb.
    change Ascii.N_of_ascii with byte_of in Hb. rewrite byte_of_ascii in Hb by lia.
    destruct (N.compare_spec (byte_of c) (PREFIX ks + 1)) as [He|Hlt|Hlt]; [by destruct rest|lia|done].
Qed.
Lemma above_key lo k :
  bound_ok lo → (k < u64_modulus)%N →
  above (lo_bytes lo) (String (space_byte ks) (write_u64 k)) = key_in (lo, Unbounded) k.
Proof.
  intros Hlo Hk. unfold key_in. simpl. rewrite andb_true_r.
  destruct lo as [a|a|]; simpl in Hlo |- *.
  - rewrite (bool_decide_ext _ _ (bytes_le_compare _ _)), cmp_key by done.
    destruct (N.compare_spec a k); case_bool_decide; symmetry; nbool; try done; try lia.
  - rewrite (bool_decide_ext _ _ (bytes_lt_compare _ _)), cmp_key by done.
    destruct (N.compare_spec a k); case_bool_decide; symmetry; nbool; try done; try lia.
  - rewrite (bool_decide_ext _ _ (bytes_le_compare _ _)). apply bool_decide_true. simpl.
    unfold Ascii.compare. by rewrite N.compare_refl.
Qed.
Lemma below_key hi k :
  bound_ok hi → (k < u64_modulus)%N →
  below (hi_bytes hi) (String (space_byte ks) (write_u64 k)) = key_in (Unbounded, hi) k.
Proof.
  intros Hhi Hk. unfold key_in. simpl.
  destruct hi as [a|a|]; simpl in Hhi |- *.
  - rewrite (bool_decide_ext _ _ (bytes_le_compare _ _)), cmp_key by done.
    destruct (N.compare_spec k a); case_bool_decide; symmetry; nbool; try done; try lia.
  - rewrite (bool_decide_ext _ _ (bytes_lt_compare _ _)), cmp_key by done.
    destruct (N.compare_spec k a); case_bool_decide; symmetry; nbool; try done; try lia.
  - rewrite (bool_decide_ext _ _ (bytes_lt_compare _ _)). apply bool_decide_true. simpl.
    unfold Ascii.compare. change Ascii.N_of_ascii with byte_of. rewrite !byte_of_ascii by lia.
    by rewrite (proj2 (N.compare_lt_iff _ _)) by lia.
Qed.
Lemma key_in_split r k : key_in r k = key_in (r.1, Unbounded) k && key_in (Unbounded, r.2) k.
Proof. destruct r as [lo hi]. unfold key_in. simpl. by rewrite andb_true_r. Qed.
End bounds.

Lemma res_mapM_Ok {E A B} (f : A → B) (l : list A) : res_mapM (E:=E) (λ x, Ok (f x)) l = Ok (f <$> l).
Proof. induction l as [|x l IH]; csimpl; [done|]. by rewrite IH. Qed.

(** ** Executing range operations *)
Section run_range.
Context {T X S : Type} `{SledLaws T, !SledEnv, !NoFaults}.
Context {V : Type} `{SledSerdeLaws V} (R : world T X → S → Prop) (ks : SledKeySpace N V) `{!SpaceView R ks}.
Context (Hp : (PREFIX ks < 255)%N).

Lemma range_decode t (m : gmap N V) (items : list (bytes * bytes)) :
  repr ks t m →
  (∀ x, x ∈ items → tree_get t x.1 = Some x.2 ∧ ∃ rest, x.1 = String (space_byte ks) rest) →
  StronglySorted bytes_lt items.*1 →
  ∃ l : list (N * V), res_mapM (deserialize_kv ks) items = Ok l ∧
    items.*1 = (λ kv, String (space_byte ks) (write_u64 kv.1)) <$> l ∧
    StronglySorted (kv_lt N.le) l ∧
    (∀ kv, kv ∈ l → m !! kv.1 = Some kv.2).
Proof.
  intros Hr Hin Hs. induction items as [|[kb b] items IH]; csimpl.
  { exists []. split_and!; [done|done|constructor|]. by intros kv ?%elem_of_nil. }
  rewrite fmap_cons in Hs. inversion_clear Hs as [|?? Hs' Hall].
  destruct IH as (l & Hl & Hkeys & Hsl & Hml); [|done|].
  { intros x Hx. apply Hin. by right. }
  destruct (Hin (kb, b)) as [Hg (rest & Hkb)]; [by left|]. simpl in Hg, Hkb. subst kb.
  destruct (repr_only _ _ _ Hr _ _ Hg) as (k & Hok & Hser).
  pose proof (repr_get _ _ _ Hr k rest Hok Hser) as Hm.
  destruct (m !! k) as [v|] eqn:Hmk; [|congruence]. destruct Hm as (b' & Hb' & Hde).
  assert (rest = write_u64 k) as -> by (simpl in Hser; congruence).
  assert (b' = b) as -> by congruence.
  exists ((k, v) :: l).
  assert (deserialize_kv ks (String (space_byte ks) (write_u64 k), b) = Ok (k, v)) as Hkv.
  { unfold deserialize_kv, deserialize_key, deserialize_value. simpl. rewrite decide_True by done.
    rewrite read_write_u64 by done. simpl. by rewrite Hde. }
  rewrite Hkv. simpl. rewrite Hl. simpl. split_and!; [done|by f_equal| |].
  - constructor; [done|]. apply Forall_forall. intros kv Hkv'.
    rewrite Hkeys, Forall_fmap in Hall. eapply Forall_forall in Hall; [|done].
    apply bytes_lt_cons, write_u64_order in Hall; [|done|eapply (repr_keys _ _ _ Hr); by apply Hml].
    unfold kv_lt. simpl. lia.
  - intros kv [->|Hkv']%elem_of_cons; auto.
Qed.

(** What sled returns for a range of a key space. *)
Lemma elem_of_range (t : T) r x :
  x ∈ tree_range t (lo_bytes ks r.1) (hi_bytes ks r.2) ↔
  tree_get t x.1 = Some x.2 ∧ above (lo_bytes ks r.1) x.1 = true ∧ below (hi_bytes ks r.2) x.1 = true.
Proof.
  rewrite tree_range_spec, list_elem_of_In, List.filter_In, <-list_elem_of_In.
  destruct x as [k v]. rewrite tree_iter_spec, in_range_above_below, andb_true_iff. done.
Qed.
Lemma range_space r kb :
  above (lo_bytes ks r.1) kb = true → below (hi_bytes ks r.2) kb = true → ∃ rest, kb = String (space_byte ks) rest.
Proof.
  intros (c & rest & -> & Hc)%above_head Hb%below_head; [|done|done]. exists rest. f_equal.
  rewrite <-(ascii_of_byte_of c). f_equal. lia.
Qed.
Lemma range_key r k :
  range_ok r → (k < u64_modulus)%N →
  above (lo_bytes ks r.1) (String (space_byte ks) (write_u64 k)) = true ∧
  below (hi_bytes ks r.2) (String (space_byte ks) (write_u64 k)) = true ↔ key_in r k = true.
Proof.
  intros [Hlo Hhi] Hk. rewrite above_key, below_key by done. by rewrite (key_in_split r k), andb_true_iff.
Qed.
Lemma range_sorted (t : T) lo hi : StronglySorted bytes_lt (tree_range t lo hi).*1.
Proof. rewrite tree_range_spec. apply fst_filter_sorted, tree_iter_sorted. Qed.

(** The entries of the tree in a range, next to those of the view. *)
Lemma range_view t m r :
  repr ks t m → range_ok r →
  res_mapM (deserialize_kv ks) (tree_range t (lo_bytes ks r.1) (hi_bytes ks r.2)) = Ok (map_range m r) ∧
  (tree_range t (lo_bytes ks r.1) (hi_bytes ks r.2)).*1 =
    (λ kv, String (space_byte ks) (write_u64 kv.1)) <$> map_range m r.
Proof.
  intros Hr Hok. set (items := tree_range _ _ _).
  destruct (range_decode t m items) as (l & Hl & Hkeys & Hsl & Hml); [done| |apply range_sorted|].
  { intros x (Hg & Ha & Hb)%elem_of_range. split; [done|]. by eapply range_space. }
  assert (l = map_range m r) as ->; [|by rewrite Hl].
  apply (kv_sorted_unique N.le); [done|apply map_range_sorted|]. intros [k v].
  rewrite elem_of_map_range. split.
  - intros Hin. pose proof (Hml _ Hin) as Hm. split; [done|]. apply range_key; [done|by apply (repr_keys _ _ _ Hr k v)|].
    assert (String (space_byte ks) (write_u64 k) ∈ items.*1) as ([kb b] & Heq & Hx)%list_elem_of_fmap.
    { rewrite Hkeys. apply list_elem_of_fmap. by exists (k, v). }
    simpl in Heq. subst kb. by apply elem_of_range in Hx as (_ & ? & ?).
  - intros [Hmk Hin]. pose proof (repr_keys _ _ _ Hr _ _ Hmk) as Hk.
    pose proof (repr_get _ _ _ Hr k (write_u64 k) Hk eq_refl) as Hg. rewrite Hmk in Hg.
    destruct Hg as (b & Hb & _). apply range_key in Hin; [|done|done].
    assert (String (space_byte ks) (write_u64 k) ∈ items.*1) as Hx.
    { apply list_elem_of_fmap. exists (String (space_byte ks) (write_u64 k), b).
      split; [done|]. by apply elem_of_range. }
    rewrite Hkeys in Hx. apply list_elem_of_fmap in Hx as ([k' v'] & Heq & Hx).
    pose proof (Hml _ Hx) as Hmk'. simpl in *.
    assert (k = k') as <-; [|by simplify_eq].
    apply write_u64_inj; [done|by eapply (repr_keys _ _ _ Hr)|congruence].
Qed.

Lemma res_mapM_fst_snd items l :
  res_mapM (deserialize_kv ks) items = Ok l →
  res_mapM (λ kv, deserialize_key ks kv.1) items = Ok l.*1 ∧
  res_mapM (λ kv, deserialize_value ks kv.2) items = Ok l.*2.
Proof.
  revert l. induction items as [|x items IH]; simpl; intros l Hl; simplify_eq; [done|].
  unfold deserialize_kv at 1 in Hl. destruct (deserialize_key ks x.1); simplify_eq/=.
  destruct (deserialize_value ks x.2); simplify_eq/=. destruct (res_mapM _ items) as [l'| |]; simplify_eq/=.
  destruct (IH l') as [-> ->]; done.
Qed.

Lemma runs_range_items {A} mes name bound_str r (f : bytes * bytes → res MetaStorageError A) s l :
  (∀ w, R w s → res_mapM f (tree_range (tree w) (lo_bytes ks r.1) (hi_bytes ks r.2)) = Ok l) →
  runs R (range_items ks name bound_str mes r f) s (Ok l) s.
Proof.
  intros Hf w Hw. unfold range_items, bind, lift. rewrite serialize_range_ok by done.
  destruct (for_item_ok (mes +:+ range_message ks name bound_str r) f _ l w (Hf w Hw)) as [n Hn].
  eexists. split; [done|]. by apply (sv_ops w n).
Qed.

(** The keys, the values and the entries in a range, in numeric order. *)
Lemma runs_range_keys name bound_str r s :
  range_ok r → runs R (range_keys ks name bound_str r) s (Ok (map_range (sv_get s) r).*1) s.
Proof.
  intros Hr. apply runs_range_items. intros w Hw. apply res_mapM_fst_snd.
  by apply (range_view _ _ _ (sv_repr _ _ Hw) Hr).
Qed.
Lemma runs_range_values name bound_str r s :
  range_ok r → runs R (range_values ks name bound_str r) s (Ok (map_range (sv_get s) r).*2) s.
Proof.
  intros Hr. apply runs_range_items. intros w Hw. apply res_mapM_fst_snd.
  by apply (range_view _ _ _ (sv_repr _ _ Hw) Hr).
Qed.
Lemma runs_range_kvs name bound_str r s :
  range_ok r → runs R (range_kvs ks name bound_str r) s (Ok (map_range (sv_get s) r)) s.
Proof.
  intros Hr. apply runs_range_items. intros w Hw. by apply (range_view _ _ _ (sv_repr _ _ Hw) Hr).
Qed.

(** *** Removing a range *)
Definition map_remove (m : gmap N V) (r : Bound N * Bound N) : gmap N V :=
  filter (λ kv, key_in r kv.1 = false) m.

Lemma remove_batch (l : list N) t m :
  repr ks t m → Forall (λ k, k < u64_modulus)%N l →
  let t' := foldl (λ t kb, (tree_remove t kb).2) t ((λ k, String (space_byte ks) (write_u64 k)) <$> l) in
  repr ks t' (foldl (λ m k, base.delete k m) m l) ∧
  (∀ c rest, c ≠ space_byte ks → tree_get t' (String c rest) = tree_get t (String c rest)).
Proof.
  intros Hr Hl. revert t m Hr. induction Hl as [|k l Hk _ IH]; intros t m Hr; [done|]. csimpl.
  destruct (IH (tree_remove t (String (space_byte ks) (write_u64 k))).2 (base.delete k m)) as [Hr' Hf];
    [by apply repr_remove|]. split; [done|].
  intros c rest Hc. rewrite Hf by done. by apply tree_get_remove_space.
Qed.
Lemma remove_range (m : gmap N V) r : foldl (λ m k, base.delete k m) m (map_range m r).*1 = map_remove m r.
Proof.
  apply map_eq. intros k. rewrite lookup_deletes. unfold map_remove. rewrite map_lookup_filter.
  destruct (m !! k) as [v|] eqn:Hk; simpl; [|by case_decide].
  case_decide as Hin; case_guard as Hg; try done; exfalso.
  - apply list_elem_of_fmap in Hin as ([k' v'] & -> & [_ Hin]%elem_of_map_range). simpl in *. congruence.
  - apply Hin, list_elem_of_fmap. exists (k, v). split; [done|]. apply elem_of_map_range.
    split; [done|]. simpl in Hg. by destruct (key_in r k).
Qed.

Lemma runs_range_remove name sync bound_str r flush s :
  range_ok r →
  runs R (range_remove ks name sync bound_str r flush) s (Ok tt) (sv_set (map_remove (sv_get s) r) s).
Proof.
  intros Hr w Hw. pose proof (sv_repr _ _ Hw) as Hrep. destruct (range_view _ _ _ Hrep Hr) as [_ Hkeys].
  set (items := tree_range (tree w) (lo_bytes ks r.1) (hi_bytes ks r.2)) in *.
  destruct (for_item_ok ("range_remove: " +:+ range_message ks name bound_str r) (λ kv, Ok kv.1) items items.*1 w)
    as [n Hn].
  { apply res_mapM_Ok. }
  unfold range_remove, range_items, bind, lift. rewrite serialize_range_ok by done. fold items. rewrite Hn.
  rewrite io_call_ok. cbn [fst snd tree sled_ops env]. rewrite Hkeys.
  change ((λ kv : N * V, String (space_byte ks) (write_u64 kv.1)) <$> map_range (sv_get s) r)
    with ((λ k, String (space_byte ks) (write_u64 k)) ∘ fst <$> map_range (sv_get s) r).
  rewrite list_fmap_compose.
  destruct (remove_batch (map_range (sv_get s) r).*1 (tree w) (sv_get s) Hrep) as [Hr' Hf].
  { apply Forall_fmap, Forall_forall. intros [k v] [Hk _]%elem_of_map_range. by apply (repr_keys _ _ _ Hrep k v). }
  rewrite remove_range in Hr'. apply (runs_flush_async R ks). by apply sv_frame with w.
Qed.

(** *** Appending entries *)
Lemma insert_batch (to_key : V → N) (l : list V) (batch : list (bytes * bytes)) t m :
  repr ks t m → Forall (λ v, to_key v < u64_modulus)%N l →
  res_mapM (λ v, serialize_kv ks (to_key v, v)) l = Ok batch →
  let t' := foldl (λ t kv, (tree_insert t kv.1 kv.2).2) t batch in
  repr ks t' (foldl (λ m v, <[to_key v:=v]> m) m l) ∧
  (∀ c rest, c ≠ space_byte ks → tree_get t' (String c rest) = tree_get t (String c rest)).
Proof.
  intros Hr Hl. revert t m batch Hr. induction Hl as [|v l Hv _ IH]; intros t m batch Hr Hb; simpl in Hb.
  { by simplify_eq. }
  destruct (serde_roundtrip v) as (b & Hs & Hd). unfold serialize_kv at 1 in Hb. unfold serialize_value in Hb.
  simpl in Hb. rewrite Hs in Hb. simpl in Hb. destruct (res_mapM _ l) as [bs| |]; simplify_eq/=.
  destruct (IH (tree_insert t (String (space_byte ks) (write_u64 (to_key v))) b).2 (<[to_key v:=v]> m) bs) as [Hr' Hf];
    [by apply repr_insert|done|]. split; [done|].
  intros c rest Hc. rewrite Hf by done. by apply tree_get_insert_space.
Qed.
Lemma serialize_batch (to_key : V → N) (l : list V) :
  ∃ batch, res_mapM (λ v, serialize_kv ks (to_key v, v)) l = Ok batch.
Proof.
  induction l as [|v l [bs IH]]; simpl; [by exists []|]. destruct (serde_roundtrip v) as (b & Hs & _).
  unfold serialize_kv at 1, serialize_value. simpl. rewrite Hs. simpl. rewrite IH. by eexists.
Qed.

Lemma runs_append_values sync to_key (l : list V) s :
  Forall (λ v, to_key v < u64_modulus)%N l →
  runs R (append_values ks sync to_key l) s (Ok tt) (sv_set (foldl (λ m v, <[to_key v:=v]> m) (sv_get s) l) s).
Proof.
  intros Hl w Hw. pose proof (sv_repr _ _ Hw) as Hrep. destruct (serialize_batch to_key l) as [batch Hb].
  destruct (insert_batch to_key l batch (tree w) (sv_get s) Hrep Hl Hb) as [Hr Hf].
  unfold append_values, bind, lift. rewrite Hb, io_call_ok. apply (runs_flush_async R ks).
  by apply sv_frame with w.
Qed.

(** *** The last entry *)
Lemma res_mapM_last {E A B} (f : A → res E B) l l' :
  res_mapM f l = Ok l' →
  match list.last l with
  | Some x => ∃ y, f x = Ok y ∧ list.last l' = Some y
  | None => list.last l' = None
  end.
Proof.
  revert l'. induction l as [|x l IH]; simpl; intros l' Hl; [by simplify_eq|].
  destruct (f x) as [y| |] eqn:Hx; simplify_eq/=. destruct (res_mapM f l) as [ys| |] eqn:Hys; simplify_eq/=.
  specialize (IH ys eq_refl). rewrite !last_cons. destruct (list.last l) as [z|].
  - destruct IH as (y' & Hy & ->). eauto.
  - rewrite IH. eauto.
Qed.

Lemma runs_last s : runs R (last ks) s (Ok (list.last (map_range (sv_get s) (Unbounded, Unbounded)))) s.
Proof.
  intros w Hw. destruct (range_view _ _ (Unbounded, Unbounded) (sv_repr _ _ Hw)) as [Hl _]; [done|].
  apply res_mapM_last in Hl. unfold last, bind, lift. rewrite serialize_range_ok by done.
  set (items := tree_range _ _ _) in *. destruct (list.last items) as [kv|].
  - destruct Hl as (y & Hy & ->). rewrite io_call_ok. simpl. rewrite Hy. eexists. split; [done|]. by apply sv_ops.
  - rewrite Hl. by eexists.
Qed.
End run_range.

(** The last entry of a range has the greatest index. *)
Lemma last_map_range {V} (m : gmap N V) r :
  match list.last (map_range m r) with
  | Some (k, v) => m !! k = Some v ∧ key_in r k = true ∧ ∀ k' v', m !! k' = Some v' → key_in r k' = true → (k' ≤ k)%N
  | None => ∀ k v, m !! k = Some v → key_in r k = false
  end.
Proof.
  pose proof (map_range_sorted m r) as Hs. pose proof (elem_of_map_range m r) as Hin.
  destruct (list.last (map_range m r)) as [[k v]|] eqn:Hl.
  - apply last_Some in Hl as (l & Hl). rewrite Hl in *.
    destruct (proj1 (Hin k v)) as [Hk Hr]; [apply elem_of_app; right; left|]. split_and!; [done|done|]. intros k' v' Hk' Hr'.
    assert ((k', v') ∈ l ++ [(k, v)]) as [Hx|Hx%list_elem_of_singleton]%elem_of_app by by apply Hin.
    + apply StronglySorted_app in Hs as (Hall & _ & _). specialize (Hall (k', v') (k, v) Hx ltac:(left)).
      unfold kv_lt in Hall. simpl in Hall. lia.
    + by simplify_eq.
  - apply last_None in Hl. rewrite Hl in Hin. intros k v Hk. destruct (key_in r k) eqn:Hr; [|done].
    exfalso. apply (not_elem_of_nil (k, v)). by apply Hin.
Qed.
