(* ===== verification/StateMachine.v ===== *)
(** * The raft state machine (src/common/meta/raft-store/src/state_machine).

    The state machine keeps everything in one sled tree, split into key spaces,
    and changes it only through [apply], which runs one raft log entry in one sled
    transaction.  The effects of the code are threaded through a [world]: the tree
    (SledStore.v), the number of times the system clock was read, and the
    notifications sent to the subscriber, which a rolled-back transaction does not
    take back.  The file holds the definitions; StateMachineSpec.v has the abstract
    specification and the refinement theorems. *)
From S2P Require Import Prelude ByteOrder MetaTypes KvApi SledStore.

(** ** Log ids and entries: the types of openraft that appear in the log *)
Record LogId := mkLogId { term : N; index : N }.
Record EffectiveMembership (Membership : Type) := mkEffectiveMembership {
  em_log_id : LogId; membership : Membership }.
Arguments mkEffectiveMembership {Membership} em_log_id membership.
Inductive EntryPayload (Membership : Type) :=
  | Blank
  | Normal (data : LogEntry)
  | MembershipEntry (mem : Membership).
Arguments Blank {Membership}.
Arguments Normal {Membership} data.
Arguments MembershipEntry {Membership} mem.
Record Entry (Membership : Type) := mkEntry { log_id : LogId; payload : EntryPayload Membership }.
Arguments mkEntry {Membership} log_id payload.
Arguments log_id {Membership} e.
Arguments payload {Membership} e.

(** ** Meta data of the state machine: state_machine_meta.rs, log_meta.rs *)
Inductive StateMachineMetaKey := LastApplied | Initialized | LastMembership.
Inductive StateMachineMetaValue (Membership : Type) :=
  | SMV_LogId (l : LogId)
  | SMV_Bool (b : bool)
  | SMV_Membership (m : EffectiveMembership Membership).
Arguments SMV_LogId {Membership} l.
Arguments SMV_Bool {Membership} b.
Arguments SMV_Membership {Membership} m.

#[export] Instance StateMachineMetaKey_eq_dec : EqDecision StateMachineMetaKey.
Proof. solve_decision. Defined.

Definition StateMachineMetaKey_to_string (k : StateMachineMetaKey) : string :=
  match k with
  | LastApplied => "last-applied"
  | Initialized => "initialized"
  | LastMembership => "last-membership"
  end.

Definition StateMachineMetaKey_ser (k : StateMachineMetaKey) : bytes :=
  let i := match k with LastApplied => 1 | Initialized => 2 | LastMembership => 3 end%N in
  String (Ascii.ascii_of_N i) "".
(** [slice[0]] panics on an empty slice. *)
Definition StateMachineMetaKey_de (v : bytes) : res MetaStorageError StateMachineMetaKey :=
  match v with
  | EmptyString => Panic
  | String c _ =>
      if (byte_of c =? 1)%N then Ok LastApplied
      else if (byte_of c =? 2)%N then Ok Initialized
      else if (byte_of c =? 3)%N then Ok LastMembership
      else Err (SledError "invalid key IVec")
  end.
#[export] Instance meta_key_ordered_serde : SledOrderedSerde StateMachineMetaKey := {
  ord_ser k := Ok (StateMachineMetaKey_ser k);
  ord_de := StateMachineMetaKey_de;
}.

Inductive LogMetaKey := LastPurged.
Inductive LogMetaValue := LMV_LogId (l : LogId).
Definition LogMetaKey_to_string (k : LogMetaKey) : string :=
  match k with LastPurged => "last-purged" end.
Definition LogMetaKey_de (v : bytes) : res MetaStorageError LogMetaKey :=
  match v with
  | EmptyString => Panic
  | String c _ =>
      if (byte_of c =? 1)%N then Ok LastPurged else Err (SledError "invalid key IVec")
  end.
#[export] Instance log_meta_key_ordered_serde : SledOrderedSerde LogMetaKey := {
  ord_ser k := Ok (String (Ascii.ascii_of_N match k with LastPurged => 1%N end) "");
  ord_de := LogMetaKey_de;
}.

(** The last response to a client: client_last_resp.rs *)
Record ClientLastRespValue := mkClientLastRespValue { req_serial_num : N; res_state : AppliedState }.

(** ** Key spaces: sled_key_spaces.rs *)
Section key_spaces.
Context {Membership : Type}.
Definition Logs : SledKeySpace N (Entry Membership) := mkKeySpace 1 "log".
Definition LogMeta : SledKeySpace LogMetaKey LogMetaValue := mkKeySpace 13 "log-meta".
Definition Nodes : SledKeySpace N Node := mkKeySpace 2 "node".
Definition StateMachineMeta : SledKeySpace StateMachineMetaKey (StateMachineMetaValue Membership) :=
  mkKeySpace 3 "sm-meta".
Definition GenericKV : SledKeySpace string (SeqV bytes) := mkKeySpace 6 "generic-kv".
Definition Sequences : SledKeySpace string N := mkKeySpace 7 "sequences".
Definition ClientLastResps : SledKeySpace string ClientLastRespValue := mkKeySpace 10 "client-last-resp".
Definition MetaSrvAddrs : SledKeySpace string string := mkKeySpace 11 "metasrv-addr".
End key_spaces.

(** ** The state machine: sm.rs *)

(** A call of [StateMachineSubscriber::kv_changed]. *)
Record KvChanged := mkKvChanged {
  ev_key : string; ev_prev : option (SeqV bytes); ev_current : option (SeqV bytes) }.

Record sm_env := mkSmEnv { clock_reads : nat; events : list KvChanged }.

(** The fields of a [StateMachine] besides the tree's contents: the wrapper's
    [name] and [sync], and whether a subscriber is set. *)
Record StateMachine := mkStateMachine { tree_name : string; sm_sync : bool; has_subscriber : bool }.

(** serde_json on the types of the values in the tree. *)
Class SmSerde (Membership : Type) := {
  serde_node :: SledSerde Node;
  serde_sm_meta :: SledSerde (StateMachineMetaValue Membership);
  serde_seqv :: SledSerde (SeqV bytes);
  serde_seq_num :: SledSerde N;
  serde_last_resp :: SledSerde ClientLastRespValue;
  serde_string :: SledSerde string;
}.

Section sm.
Context {T : Type} `{Sled T, SledEnv, Clock} {Membership : Type} `{SmSerde Membership}.
Abbreviation W := (world T sm_env).
Abbreviation SM A := (M W MetaStorageError A).
Implicit Types (self : StateMachine) (key : string).

(** [SystemTime::now().duration_since(UNIX_EPOCH).unwrap().as_secs()]. *)
Definition now {E} : M W E N := λ w,
  (Ok (clock (clock_reads (env w))),
   mkWorld (tree w) (sled_ops w) (mkSmEnv (S (clock_reads (env w))) (events (env w)))).

Definition kv_changed {E} key (p current : option (SeqV bytes)) : M W E unit := λ w,
  (Ok tt,
   mkWorld (tree w) (sled_ops w)
     (mkSmEnv (clock_reads (env w)) (events (env w) ++ [mkKvChanged key p current]))).

Definition unexpired {E V} (seq_value : SeqV V) : M W E (option (SeqV V)) :=
  let! now := now in
  if (get_expire_at seq_value <? now)%N then ret None else ret (Some seq_value).

(** [seq_value.and_then(Self::unexpired)]. *)
Definition unexpired_opt {E V} (seq_value : option (SeqV V)) : M W E (option (SeqV V)) :=
  match seq_value with Some v => unexpired v | None => ret None end.

Definition txn_incr_seq key : SM N :=
  let! curr := txn_update_and_fetch Sequences key (λ old, Some (SeqNum_add (default 0%N old) 1)) in
  lift (unwrap curr).

Section sub_tree.
Context {K V : Type} `{SledOrderedSerde K, SledSerde (SeqV V)} (sub_tree : SledKeySpace K (SeqV V)).

Definition txn_sub_tree_do_update (k : K) (prev : option (SeqV V)) (value_meta : option KVMeta)
    (value_op : Operation V) : SM (option (SeqV V)) :=
  let store (seq_kv_value : SeqV V) :=
    let! s := txn_incr_seq (NAME sub_tree) in
    let seq_kv_value := set_seq seq_kv_value s in
    let! _ := txn_insert sub_tree k seq_kv_value in
    ret (Some seq_kv_value) in
  match value_op with
  | OpUpdate v => store (SeqV_with_meta 0 value_meta v)
  | OpDelete => let! _ := txn_remove sub_tree k in ret None
  | OpAsIs =>
      match prev with
      | None => ret None
      | Some prev_kv_value => store (set_meta prev_kv_value value_meta)
      end
  end.

Definition txn_sub_tree_upsert (k : K) (s : MatchSeq) (value_op : Operation V)
    (value_meta : option KVMeta) : SM (option (SeqV V) * option (SeqV V)) :=
  let! prev := txn_get sub_tree k in
  let! prev := unexpired_opt prev in
  if is_ok (match_seq_opt s prev) then
    let! result := txn_sub_tree_do_update k prev value_meta value_op in
    ret (prev, result)
  else ret (prev, prev).
End sub_tree.

Definition txn_client_last_resp_update key (value : N * AppliedState) : SM AppliedState :=
  let v := mkClientLastRespValue value.1 value.2 in
  let! _ := txn_insert ClientLastResps key v in
  ret value.2.

Definition txn_get_client_last_resp key : SM (N * AppliedState) :=
  let! v := txn_get ClientLastResps key in
  match v with
  | Some resp => ret (req_serial_num resp, res_state resp)
  | None => ret (0%N, AS_None)
  end.

Definition apply_incr_seq_cmd key : SM AppliedState :=
  let! r := txn_incr_seq key in ret (AS_Seq r).

Definition apply_add_node_cmd (node_id : N) (node : Node) : SM AppliedState :=
  let! prev := txn_get Nodes node_id in
  if opt_is_some prev then ret (AS_Node prev None)
  else
    let! _ := txn_insert Nodes node_id node in
    ret (AS_Node prev (Some node)).

Definition apply_remove_node_cmd (node_id : N) : SM AppliedState :=
  let! prev := txn_get Nodes node_id in
  let! _ := if opt_is_some prev then let! _ := txn_remove Nodes node_id in ret tt else ret tt in
  ret (AS_Node prev None).

Definition apply_add_metasrv_addr_cmd (metasrv_name addr : string) : SM AppliedState :=
  let! prev := txn_get MetaSrvAddrs metasrv_name in
  if opt_is_some prev then ret (AS_MetaSrvAddr prev None)
  else
    let! _ := txn_insert MetaSrvAddrs metasrv_name addr in
    ret (AS_MetaSrvAddr prev (Some addr)).

Definition apply_remove_metasrv_addr_cmd (metasrv_name : string) : SM AppliedState :=
  let! prev := txn_get MetaSrvAddrs metasrv_name in
  let! _ :=
    if opt_is_some prev then let! _ := txn_remove MetaSrvAddrs metasrv_name in ret tt else ret tt in
  ret (AS_MetaSrvAddr prev None).

Definition apply_update_kv_cmd self key (s : MatchSeq) (value_op : Operation bytes)
    (value_meta : option KVMeta) : SM AppliedState :=
  let! '(prev, result) := txn_sub_tree_upsert GenericKV key s value_op value_meta in
  let! _ := if has_subscriber self then kv_changed key prev result else ret tt in
  ret (AS_KV (Change_new prev result)).

(** [Vec<u8>] compares as [[u8]] does. *)
Definition return_value_condition_result (expected : Z) (target_value : bytes) (value : SeqV bytes)
    : bool :=
  match ConditionResult_from_i32 expected with
  | Some CR_Eq => bool_decide (data value = target_value)
  | Some CR_Gt => bool_decide (bytes_lt target_value (data value))
  | Some CR_Lt => bool_decide (bytes_lt (data value) target_value)
  | Some CR_Ne => bool_decide (data value ≠ target_value)
  | Some CR_Ge => bool_decide (bytes_le target_value (data value))
  | Some CR_Le => bool_decide (bytes_le (data value) target_value)
  | _ => false
  end.

Definition return_seq_condition_result (expected : Z) (target_seq : N) (value : SeqV bytes) : bool :=
  match ConditionResult_from_i32 expected with
  | Some CR_Eq => (seq value =? target_seq)%N
  | Some CR_Gt => (target_seq <? seq value)%N
  | Some CR_Lt => (seq value <? target_seq)%N
  | Some CR_Ne => negb (seq value =? target_seq)%N
  | Some CR_Ge => (target_seq <=? seq value)%N
  | Some CR_Le => (seq value <=? target_seq)%N
  | _ => false
  end.

Definition txn_execute_one_condition (cond : TxnCondition) : SM bool :=
  let! sv := txn_get GenericKV (cond_key cond) in
  match target cond with
  | Some (TargetSeq target_seq) =>
      ret (return_seq_condition_result (expected cond) target_seq (default SeqV_default sv))
  | Some (TargetValue target_value) =>
      match sv with
      | Some sv => ret (return_value_condition_result (expected cond) target_value sv)
      | None => ret false
      end
  | None => ret false
  end.

Fixpoint txn_execute_condition (condition : list TxnCondition) : SM bool :=
  match condition with
  | [] => ret true
  | cond :: condition =>
      let! b := txn_execute_one_condition cond in
      if b then txn_execute_condition condition else ret false
  end.

(** [resp.responses.push(..)]. *)
Definition push_response (resp : TxnReply) (r : Response) : TxnReply :=
  mkTxnReply (txn_success resp) (responses resp ++ [mkTxnOpResponse (Some r)]) (error resp).

Definition txn_execute_get_operation (get : TxnGetRequest) (resp : TxnReply) : SM TxnReply :=
  let! sv := txn_get GenericKV (get_key get) in
  let value := PbSeqV_from <$> sv in
  ret (push_response resp (RespGet (mkTxnGetResponse (get_key get) value))).

Definition txn_execute_put_operation (put : TxnPutRequest) (resp : TxnReply) : SM TxnReply :=
  let! '(prev, _) :=
    txn_sub_tree_upsert GenericKV (put_key put) Any (OpUpdate (put_value put)) None in
  ret (push_response resp (RespPut (mkTxnPutResponse (put_key put)
    (if put_prev_value put then PbSeqV_from <$> prev else None)))).

Definition txn_execute_delete_operation (del : TxnDeleteRequest) (resp : TxnReply) : SM TxnReply :=
  let! '(prev, _) := txn_sub_tree_upsert GenericKV (delete_key del) Any OpDelete None in
  ret (push_response resp (RespDelete (mkTxnDeleteResponse (delete_key del) (opt_is_some prev)
    (if delete_prev_value del then PbSeqV_from <$> prev else None)))).

Definition txn_execute_operation (op : TxnOp) (resp : TxnReply) : SM TxnReply :=
  match request op with
  | Some (ReqGet get) => txn_execute_get_operation get resp
  | Some (ReqPut put) => txn_execute_put_operation put resp
  | Some (ReqDelete del) => txn_execute_delete_operation del resp
  | None => ret resp
  end.

(** [for op in ops { self.txn_execute_operation(.., &mut resp)?; }]. *)
Fixpoint txn_execute_operations (ops : list TxnOp) (resp : TxnReply) : SM TxnReply :=
  match ops with
  | [] => ret resp
  | op :: ops => let! resp := txn_execute_operation op resp in txn_execute_operations ops resp
  end.

Definition apply_txn_cmd (req : TxnRequest) : SM AppliedState :=
  let! success := txn_execute_condition (condition req) in
  let ops := if success then if_then req else else_then req in
  let! resp := txn_execute_operations ops (mkTxnReply success [] "") in
  ret (AS_TxnReply resp).

Definition apply_cmd self (cmd : Cmd) : SM AppliedState :=
  match cmd with
  | IncrSeq key => apply_incr_seq_cmd key
  | AddNode node_id node => apply_add_node_cmd node_id node
  | RemoveNode node_id => apply_remove_node_cmd node_id
  | AddMetaSrvAddr metasrv_name metasrv_addr => apply_add_metasrv_addr_cmd metasrv_name metasrv_addr
  | RemoveMetaSrvAddr metasrv_name => apply_remove_metasrv_addr_cmd metasrv_name
  | UpsertKV key s value_op value_meta => apply_update_kv_cmd self key s value_op value_meta
  | Transaction txn => apply_txn_cmd txn
  end.

(** The closure that [apply] runs in a sled transaction. *)
Definition apply_entry self (entry : Entry Membership) : SM (option AppliedState) :=
  let! _ := txn_insert StateMachineMeta LastApplied (SMV_LogId (log_id entry)) in
  match payload entry with
  | Blank => ret None
  | Normal data =>
      let run :=
        let! applied_state := apply_cmd self (cmd data) in
        let! _ :=
          match txid data with
          | Some txid =>
              let! _ := txn_client_last_resp_update (client txid) (serial txid, applied_state) in ret tt
          | None => ret tt
          end in
        ret (Some applied_state) in
      match txid data with
      | Some txid =>
          let! '(s, resp) := txn_get_client_last_resp (client txid) in
          if (s =? serial txid)%N then ret (Some resp) else run
      | None => run
      end
  | MembershipEntry mem =>
      let! _ := txn_insert StateMachineMeta LastMembership
                  (SMV_Membership (mkEffectiveMembership (log_id entry) mem)) in
      ret (Some AS_None)
  end.

Definition apply `{SledTransaction T sm_env} self (entry : Entry Membership) : SM AppliedState :=
  let! result := tryM (sled_txn (apply_entry self entry)) in
  match result with
  | inr (Some r) => ret r
  | inr None => ret AS_None
  | inl (MSE_AppError app_err) => ret (AS_AppError app_err)
  | inl meta_sto_err => throw meta_sto_err
  end.

(** *** Reads outside of a transaction *)
Definition open self : SM unit :=
  let! inited := sled_get StateMachineMeta (tree_name self) StateMachineMetaKey_to_string Initialized in
  if opt_is_some inited then ret tt
  else
    let! _ := sled_insert StateMachineMeta (sm_sync self) StateMachineMetaKey_to_string
                Initialized (SMV_Bool true) in
    ret tt.

Definition get_membership self : SM (option (EffectiveMembership Membership)) :=
  let! v := sled_get StateMachineMeta (tree_name self) StateMachineMetaKey_to_string LastMembership in
  match v with
  | None => ret None
  | Some (SMV_Membership m) => ret (Some m)
  | Some _ => lift Panic
  end.

Definition get_last_applied self : SM (option LogId) :=
  let! v := sled_get (StateMachineMeta (Membership:=Membership)) (tree_name self)
              StateMachineMetaKey_to_string LastApplied in
  match v with
  | None => ret None
  | Some (SMV_LogId l) => ret (Some l)
  | Some _ => lift Panic
  end.

Definition get_client_last_resp self key : M W MetaError (option (N * AppliedState)) :=
  let! v := mapErrM MetaError_from_storage (sled_get ClientLastResps (tree_name self) id key) in
  match v with
  | Some resp => ret (Some (req_serial_num resp, res_state resp))
  | None => ret (Some (0%N, AS_None))
  end.

Definition list_node_ids self : SM (list N) := λ w,
  match range_keys Nodes (tree_name self) (bound_debug pretty) (Unbounded, Unbounded) w with
  | (Err _, w1) => (Panic, w1)
  | r => r
  end.

Definition get_node self (node_id : N) : M W MetaError (option Node) :=
  mapErrM MetaError_from_storage (sled_get Nodes (tree_name self) pretty node_id).
Definition get_nodes self : M W MetaError (list Node) :=
  mapErrM MetaError_from_storage
    (range_values Nodes (tree_name self) (bound_debug pretty) (Unbounded, Unbounded)).
Definition get_metasrv_addrs self : M W MetaError (list string) :=
  mapErrM MetaError_from_storage
    (range_values MetaSrvAddrs (tree_name self) (bound_debug str_debug) (Unbounded, Unbounded)).

(** The snapshot: all entries, each a list of a key and a value, the last applied log
    id, and the snapshot id.  A state machine without a last applied log id makes
    [expect] panic. *)
Definition build_snapshot self : SM (list (list bytes) * LogId * string) :=
  let! last_applied := get_last_applied self in
  let! last_applied := lift (unwrap last_applied) in
  let! snapshot_idx := now in
  let snapshot_id :=
    pretty (term last_applied) +:+ "-" +:+ pretty (index last_applied) +:+ "-" +:+ pretty snapshot_idx in
  let! kvs := (λ w, for_item "taking snapshot" (λ kv, Ok [kv.1; kv.2]) (tree_iter (tree w)) w) in
  ret (kvs, last_applied, snapshot_id).
End sm.
