(* ===== verification/StateMachineSpec.v ===== *)
(** * Abstract specification of the state machine, and refinement.

    The abstract state [sm_spec] is a record of finite maps, one per key space of
    the tree, with the clock position and the notifications sent so far.  The
    functions [spec_*] say what a command does to it, without bytes, codecs,
    transactions or errors.  [sm_repr] relates a concrete [world] to an abstract
    state; the refinement lemmas show that the code of StateMachine.v, run on any
    sled tree and codec that satisfy their laws, implements the specification. *)
From S2P Require Import Prelude ByteOrder MetaTypes KvApi SledStore SledView StateMachine.

#[export] Instance StateMachineMetaKey_countable : Countable StateMachineMetaKey.
Proof.
  refine (inj_countable' (λ k, match k with LastApplied => 0 | Initialized => 1 | LastMembership => 2 end)%N
    (λ n, match n with 0 => LastApplied | 1 => Initialized | _ => LastMembership end)%N _).
  by intros [].
Defined.

#[export] Program Instance meta_key_ordered_laws : OrderedSerdeLaws StateMachineMetaKey :=
  {| key_ok _ := True |}.
Next Obligation. intros [] _; eexists; by split. Qed.

Class SmSerdeLaws (Membership : Type) `{SmSerde Membership} := {
  laws_node :: SledSerdeLaws Node;
  laws_sm_meta :: SledSerdeLaws (StateMachineMetaValue Membership);
  laws_seqv :: SledSerdeLaws (SeqV bytes);
  laws_seq_num :: SledSerdeLaws N;
  laws_last_resp :: SledSerdeLaws ClientLastRespValue;
  laws_string :: SledSerdeLaws string;
}.

(** ** The abstract state *)
Record sm_spec (Membership : Type) := mkSpec {
  s_meta : gmap StateMachineMetaKey (StateMachineMetaValue Membership);
  s_nodes : gmap N Node;
  s_addrs : gmap string string;
  s_store : kv_store;
  s_resps : gmap string ClientLastRespValue;
  s_events : list KvChanged;
}.
Arguments mkSpec {Membership} s_meta s_nodes s_addrs s_store s_resps s_events.
Arguments s_meta {Membership} s.
Arguments s_nodes {Membership} s.
Arguments s_addrs {Membership} s.
Arguments s_store {Membership} s.
Arguments s_resps {Membership} s.
Arguments s_events {Membership} s.

Section setters.
Context {Membership : Type}.
Definition set_s_meta x (s : sm_spec Membership) : sm_spec Membership :=
  mkSpec x (s_nodes s) (s_addrs s) (s_store s) (s_resps s) (s_events s).
Definition set_s_nodes x (s : sm_spec Membership) : sm_spec Membership :=
  mkSpec (s_meta s) x (s_addrs s) (s_store s) (s_resps s) (s_events s).
Definition set_s_addrs x (s : sm_spec Membership) : sm_spec Membership :=
  mkSpec (s_meta s) (s_nodes s) x (s_store s) (s_resps s) (s_events s).
Definition set_s_store x (s : sm_spec Membership) : sm_spec Membership :=
  mkSpec (s_meta s) (s_nodes s) (s_addrs s) x (s_resps s) (s_events s).
Definition set_s_resps x (s : sm_spec Membership) : sm_spec Membership :=
  mkSpec (s_meta s) (s_nodes s) (s_addrs s) (s_store s) x (s_events s).
Definition set_s_events x (s : sm_spec Membership) : sm_spec Membership :=
  mkSpec (s_meta s) (s_nodes s) (s_addrs s) (s_store s) (s_resps s) x.
Definition set_s_kv x (s : sm_spec Membership) := set_s_store (set_kv x (s_store s)) s.
Definition set_s_seqs x (s : sm_spec Membership) := set_s_store (set_seqs x (s_store s)) s.
End setters.

Section repr.
Context {T : Type} `{SledLaws T, !SledEnv} {Membership : Type} `{SmSerdeLaws Membership}.

Record sm_repr (w : world T sm_env) (s : sm_spec Membership) : Prop := {
  r_meta : repr StateMachineMeta (tree w) (s_meta s);
  r_nodes : repr Nodes (tree w) (s_nodes s);
  r_addrs : repr MetaSrvAddrs (tree w) (s_addrs s);
  r_kv : repr GenericKV (tree w) (kv (s_store s));
  r_seqs : repr Sequences (tree w) (seqs (s_store s));
  r_resps : repr ClientLastResps (tree w) (s_resps s);
  r_reads : clock_reads (env w) = reads (s_store s);
  r_events : events (env w) = s_events s;
}.

Ltac solve_view :=
  first
  [ by intros w s []
  | by intros w n s []
  | intros w w' s m [] Henv Hm Hframe; split; simpl; rewrite ?Henv; try done;
    (eapply repr_frame; [|eassumption]); intros rest; by apply Hframe ].

#[export] Instance view_meta : SpaceView sm_repr StateMachineMeta.
Proof. refine {| sv_get := s_meta; sv_set := set_s_meta |}; solve_view. Defined.
#[export] Instance view_nodes : SpaceView sm_repr Nodes.
Proof. refine {| sv_get := s_nodes; sv_set := set_s_nodes |}; solve_view. Defined.
#[export] Instance view_addrs : SpaceView sm_repr MetaSrvAddrs.
Proof. refine {| sv_get := s_addrs; sv_set := set_s_addrs |}; solve_view. Defined.
#[export] Instance view_kv : SpaceView sm_repr GenericKV.
Proof. refine {| sv_get := λ s, kv (s_store s); sv_set := set_s_kv |}; solve_view. Defined.
#[export] Instance view_seqs : SpaceView sm_repr Sequences.
Proof. refine {| sv_get := λ s, seqs (s_store s); sv_set := set_s_seqs |}; solve_view. Defined.
#[export] Instance view_resps : SpaceView sm_repr ClientLastResps.
Proof. refine {| sv_get := s_resps; sv_set := set_s_resps |}; solve_view. Defined.
End repr.

(** ** The specification of the commands *)
Section spec.
Context `{Clock} {Membership : Type}.
Abbreviation spec := (sm_spec Membership).
Implicit Types (s : spec) (k : string).

Definition spec_notify (self : StateMachine) s k (p r : option (SeqV bytes)) : spec :=
  if has_subscriber self then set_s_events (s_events s ++ [mkKvChanged k p r]) s else s.

Definition spec_cmd (self : StateMachine) s (c : Cmd) : AppliedState * spec :=
  match c with
  | IncrSeq k => let '(n, st) := kv_incr_seq (s_store s) k in (AS_Seq n, set_s_store st s)
  | AddNode id node =>
      match s_nodes s !! id with
      | Some p => (AS_Node (Some p) None, s)
      | None => (AS_Node None (Some node), set_s_nodes (<[id:=node]> (s_nodes s)) s)
      end
  | RemoveNode id => (AS_Node (s_nodes s !! id) None, set_s_nodes (base.delete id (s_nodes s)) s)
  | AddMetaSrvAddr n a =>
      match s_addrs s !! n with
      | Some p => (AS_MetaSrvAddr (Some p) None, s)
      | None => (AS_MetaSrvAddr None (Some a), set_s_addrs (<[n:=a]> (s_addrs s)) s)
      end
  | RemoveMetaSrvAddr n =>
      (AS_MetaSrvAddr (s_addrs s !! n) None, set_s_addrs (base.delete n (s_addrs s)) s)
  | UpsertKV k ms op m =>
      let '(p, r, st) := kv_upsert (s_store s) k ms op m in
      (AS_KV (Change_new p r), spec_notify self (set_s_store st s) k p r)
  | Transaction req => let '(r, st) := kv_txn (s_store s) req in (AS_TxnReply r, set_s_store st s)
  end.

(** The last serial number of a client and the response to it; a client that was
    never seen counts as having serial number 0. *)
Definition last_resp s (c : string) : N * AppliedState :=
  match s_resps s !! c with
  | Some r => (req_serial_num r, res_state r)
  | None => (0%N, AS_None)
  end.

Definition spec_entry (self : StateMachine) s (e : LogEntry) : AppliedState * spec :=
  match txid e with
  | None => spec_cmd self s (cmd e)
  | Some t =>
      if ((last_resp s (client t)).1 =? serial t)%N then ((last_resp s (client t)).2, s)
      else
        let '(r, s) := spec_cmd self s (cmd e) in
        (r, set_s_resps (<[client t:=mkClientLastRespValue (serial t) r]> (s_resps s)) s)
  end.

Definition spec_apply (self : StateMachine) s (e : Entry Membership) : AppliedState * spec :=
  let s := set_s_meta (<[LastApplied:=SMV_LogId (log_id e)]> (s_meta s)) s in
  match payload e with
  | Blank => (AS_None, s)
  | Normal d => spec_entry self s d
  | MembershipEntry m =>
      (AS_None,
       set_s_meta (<[LastMembership:=SMV_Membership (mkEffectiveMembership (log_id e) m)]> (s_meta s)) s)
  end.
End spec.

(** ** Well-formed inputs

    In Rust every [String] is valid UTF-8 and every [u64] is below 2^64. *)
Definition cmd_ok (c : Cmd) : Prop :=
  match c with
  | IncrSeq k => utf8_valid k = true
  | AddNode id _ | RemoveNode id => (id < u64_modulus)%N
  | AddMetaSrvAddr n _ | RemoveMetaSrvAddr n => utf8_valid n = true
  | UpsertKV k _ _ _ => utf8_valid k = true
  | Transaction req => txn_ok req
  end.
Definition entry_ok {Membership} (e : Entry Membership) : Prop :=
  match payload e with
  | Normal d =>
      cmd_ok (cmd d) ∧ match txid d with Some t => utf8_valid (client t) = true | None => True end
  | _ => True
  end.

(** ** The code refines the specification *)
Create HintDb runs discriminated.
#[export] Hint Resolve runs_ret runs_throw runs_lift : runs.

(** Executes one call with a known rule. *)
Ltac run_prim :=
  simpl;
  first
  [ by apply runs_txn_get | by apply runs_txn_insert | by apply runs_txn_remove
  | by apply runs_txn_update_and_fetch | by eauto with runs ].
(** Executes the first call of a [bind]. *)
Ltac run_call := eapply runs_bind; [run_prim|]; simpl.

Section refine.
Context {T : Type} `{SledLaws T, !SledEnv, !NoFaults, !Clock}.
Context {Membership : Type} `{SmSerdeLaws Membership}.
Abbreviation R := (sm_repr (T:=T) (Membership:=Membership)).
Implicit Types (s : sm_spec Membership) (k : string).

Lemma runs_unexpired {E} (v : SeqV bytes) s :
  runs R (E:=E) (unexpired v) s (Ok (live (reads (s_store s)) v))
    (set_s_store (set_reads (S (reads (s_store s))) (s_store s)) s).
Proof.
  intros w Hw. eexists. unfold unexpired, bind, now, live.
  rewrite (r_reads _ _ Hw). split; [by destruct (_ <? _)%N|].
  destruct Hw; split; simpl in *; congruence.
Qed.
Lemma set_s_store_id s : set_s_store (s_store s) s = s.
Proof. by destruct s. Qed.
Lemma runs_unexpired_opt {E} (o : option (SeqV bytes)) s :
  runs R (E:=E) (unexpired_opt o) s (Ok (kv_live (s_store s) o).1) (set_s_store (kv_live (s_store s) o).2 s).
Proof. destruct o; simpl; [apply runs_unexpired|rewrite set_s_store_id; apply runs_ret]. Qed.
Hint Resolve runs_unexpired_opt : runs.

Lemma runs_kv_changed {E} k p r s :
  runs R (E:=E) (kv_changed k p r) s (Ok tt) (set_s_events (s_events s ++ [mkKvChanged k p r]) s).
Proof.
  intros w Hw. eexists. split; [done|]. destruct Hw; split; simpl in *; congruence.
Qed.
Hint Resolve runs_kv_changed : runs.

Lemma runs_txn_incr_seq k s :
  utf8_valid k = true →
  runs R (txn_incr_seq k) s (Ok (kv_incr_seq (s_store s) k).1) (set_s_store (kv_incr_seq (s_store s) k).2 s).
Proof. intros Hk. unfold txn_incr_seq. run_call. run_prim. Qed.
Hint Resolve runs_txn_incr_seq : runs.

Lemma runs_do_update k prev m op s :
  utf8_valid k = true →
  runs R (txn_sub_tree_do_update GenericKV k prev m op) s
    (Ok (kv_write (s_store s) k prev op m).1) (set_s_store (kv_write (s_store s) k prev op m).2 s).
Proof.
  intros Hk. destruct op as [d| |]; simpl.
  - run_call. run_call. run_prim.
  - run_call. run_prim.
  - destruct prev as [p|]; [|simpl; rewrite set_s_store_id; run_prim]. run_call. run_call. run_prim.
Qed.
Hint Resolve runs_do_update : runs.

Lemma runs_upsert k ms op m s :
  utf8_valid k = true →
  runs R (txn_sub_tree_upsert GenericKV k ms op m) s
    (Ok (kv_upsert (s_store s) k ms op m).1) (set_s_store (kv_upsert (s_store s) k ms op m).2 s).
Proof.
  intros Hk. unfold txn_sub_tree_upsert, kv_upsert, kv_get. run_call. run_call.
  unfold match_seq_opt. rewrite match_seq_ok. destruct (kv_live _ _) as [prev st1]. simpl.
  destruct (seq_matches _ _); [|run_prim]. run_call.
  destruct (kv_write st1 k prev op m) as [result st2]. run_prim.
Qed.
Hint Resolve runs_upsert : runs.

(** The six comparisons of the code are the tests on the outcome of one comparison. *)
Lemma seq_condition_ok e n (o : option (SeqV bytes)) :
  return_seq_condition_result e n (default SeqV_default o) =
  match ConditionResult_from_i32 e with Some r => cmp_ok r (opt_seq o ?= n)%N | None => false end.
Proof.
  unfold return_seq_condition_result.
  assert (seq (default SeqV_default o) = opt_seq o) as -> by by destruct o.
  destruct (ConditionResult_from_i32 e) as [[]|]; [..|done];
    destruct (N.compare_spec (opt_seq o) n); simpl; nbool; lia.
Qed.
Lemma value_condition_ok e d (v : SeqV bytes) :
  return_value_condition_result e d v =
  match ConditionResult_from_i32 e with Some r => cmp_ok r (String.compare (data v) d) | None => false end.
Proof.
  unfold return_value_condition_result. generalize (data v) as x. intros x.
  destruct (ConditionResult_from_i32 e) as [[]|]; [..|done];
    destruct (bytes_compare_spec x d) as [->|Hlt|Hlt]; simpl;
    first [apply bool_decide_eq_true | apply bool_decide_eq_false];
    first [done | by auto using bytes_lt_le, bytes_lt_not_le, bytes_lt_irrefl, bytes_lt_ne, not_eq_sym
          | intros ?; subst; by eauto using bytes_lt_asym, bytes_lt_irrefl].
Qed.

Lemma runs_one_condition c s :
  utf8_valid (cond_key c) = true →
  runs R (txn_execute_one_condition c) s (Ok (cond_holds (s_store s) c)) s.
Proof.
  intros Hk. unfold txn_execute_one_condition, cond_holds. run_call.
  destruct (target c) as [[v|n]|]; [|rewrite seq_condition_ok; run_prim|run_prim].
  destruct (kv (s_store s) !! cond_key c); [rewrite value_condition_ok; run_prim|].
  destruct (ConditionResult_from_i32 _); run_prim.
Qed.
Hint Resolve runs_one_condition : runs.
Lemma runs_condition cs s :
  Forall (λ c, utf8_valid (cond_key c) = true) cs →
  runs R (txn_execute_condition cs) s (Ok (forallb (cond_holds (s_store s)) cs)) s.
Proof.
  induction 1 as [|c cs Hc _ IH]; simpl; [run_prim|].
  run_call. destruct (cond_holds (s_store s) c); run_prim.
Qed.
Hint Resolve runs_condition : runs.

Definition push_responses (resp : TxnReply) (rs : list Response) : TxnReply :=
  mkTxnReply (txn_success resp) (responses resp ++ ((λ r, mkTxnOpResponse (Some r)) <$> rs)) (error resp).

Lemma push_responses_nil resp : push_responses resp [] = resp.
Proof. unfold push_responses. simpl. rewrite app_nil_r. by destruct resp. Qed.

Lemma runs_operation op resp s :
  op_ok op →
  runs R (txn_execute_operation op resp) s
    (Ok (push_responses resp (kv_op (s_store s) op).1)) (set_s_store (kv_op (s_store s) op).2 s).
Proof.
  unfold op_ok, txn_execute_operation, kv_op. destruct (request op) as [[r|r|r]|]; intros Hk.
  - unfold txn_execute_get_operation. simpl. rewrite set_s_store_id. run_call. run_prim.
  - unfold txn_execute_put_operation. run_call. destruct (kv_upsert _ _ _ _ _) as [[prev res] st]. run_prim.
  - unfold txn_execute_delete_operation. run_call.
    destruct (kv_upsert _ _ _ _ _) as [[prev res] st]. run_prim.
  - simpl. rewrite push_responses_nil, set_s_store_id. run_prim.
Qed.
Hint Resolve runs_operation : runs.
Lemma runs_operations ops resp s :
  Forall op_ok ops →
  runs R (txn_execute_operations ops resp) s
    (Ok (push_responses resp (kv_ops (s_store s) ops).1)) (set_s_store (kv_ops (s_store s) ops).2 s).
Proof.
  intros Hops. revert resp s. induction Hops as [|op ops Hop _ IH]; intros resp s; simpl.
  - rewrite push_responses_nil, set_s_store_id. run_prim.
  - run_call. destruct (kv_op (s_store s) op) as [r st]. simpl.
    specialize (IH (push_responses resp r) (set_s_store st s)). simpl in IH.
    destruct (kv_ops st ops) as [rs st2]. simpl in *.
    unfold push_responses in *. simpl in *. by rewrite fmap_app, app_assoc.
Qed.
Hint Resolve runs_operations : runs.

Lemma runs_apply_cmd self c s :
  cmd_ok c → runs R (apply_cmd self c) s (Ok (spec_cmd self s c).1) (spec_cmd self s c).2.
Proof.
  destruct c as [k|id node|id|n a|n|k ms op m|req]; simpl; intros Hok.
  - unfold apply_incr_seq_cmd. run_call. run_prim.
  - unfold apply_add_node_cmd. run_call. destruct (s_nodes s !! id); [run_prim|]. simpl. run_call. run_prim.
  - unfold apply_remove_node_cmd. run_call. destruct (s_nodes s !! id) eqn:Hid; simpl.
    + eapply runs_bind; [run_call; run_prim|]. run_prim.
    + run_call. rewrite delete_id by done. destruct s. run_prim.
  - unfold apply_add_metasrv_addr_cmd. run_call. destruct (s_addrs s !! n); [run_prim|]. simpl. run_call. run_prim.
  - unfold apply_remove_metasrv_addr_cmd. run_call. destruct (s_addrs s !! n) eqn:Hid; simpl.
    + eapply runs_bind; [run_call; run_prim|]. run_prim.
    + run_call. rewrite delete_id by done. destruct s. run_prim.
  - unfold apply_update_kv_cmd, spec_notify. run_call. destruct (kv_upsert _ _ _ _ _) as [[p r] st]. simpl.
    destruct (has_subscriber self); run_call; run_prim.
  - destruct Hok as (Hc & Ht & He). unfold apply_txn_cmd, kv_txn. run_call.
    destruct (forallb _ _); run_call; destruct (kv_ops _ _) as [rs st]; run_prim.
Qed.
Hint Resolve runs_apply_cmd : runs.

Context `{SledTransactionLaws T sm_env}.

(** A transaction whose closure succeeds commits. *)
Lemma runs_sled_txn {A} (f : M (world T sm_env) MetaStorageError A) s a s' :
  runs R f s (Ok a) s' → runs R (sled_txn f) s (Ok a) s'.
Proof.
  intros Hf w Hw. destruct (Hf w Hw) as (w' & Hfw & Hw'). exists w'. split; [|done].
  unfold sled_txn, mapErrM at 1.
  rewrite (transaction_commit _ w a w'); [done|]. unfold mapErrM. by rewrite Hfw.
Qed.

Lemma runs_apply_entry self e s :
  entry_ok e →
  ∃ o, runs R (apply_entry self e) s (Ok o) (spec_apply self s e).2 ∧
       default AS_None o = (spec_apply self s e).1.
Proof.
  unfold entry_ok, apply_entry, spec_apply, spec_entry. intros Hok.
  set (s0 := set_s_meta (<[LastApplied:=_]> _) s).
  destruct (payload e) as [|d|m].
  - exists None. split; [run_call; run_prim|done].
  - destruct Hok as [Hc Ht]. destruct (txid d) as [t|].
    + assert (runs R (txn_get_client_last_resp (client t)) s0 (Ok (last_resp s0 (client t))) s0) as Hlast.
      { unfold txn_get_client_last_resp, last_resp. run_call. destruct (s_resps s !! client t); run_prim. }
      destruct (last_resp s0 (client t)) as [n resp]. simpl.
      destruct (n =? serial t)%N eqn:Hs.
      * exists (Some resp). split; [|done].
        run_call. eapply runs_bind; [done|]. simpl. rewrite Hs. run_prim.
      * exists (Some (spec_cmd self s0 (cmd d)).1). split; [|by destruct (spec_cmd _ _ _)].
        run_call. eapply runs_bind; [done|]. simpl. rewrite Hs. run_call.
        destruct (spec_cmd _ _ _) as [r s1]. unfold txn_client_last_resp_update. simpl.
        eapply runs_bind; [eapply runs_bind; [run_call; run_prim|run_prim]|run_prim].
    + exists (Some (spec_cmd self s0 (cmd d)).1). split; [|done].
      run_call. run_call. run_call. run_prim.
  - exists (Some AS_None). split; [|done]. run_call. run_call. run_prim.
Qed.

Lemma runs_apply self e s :
  entry_ok e →
  runs R (apply self e) s (Ok (spec_apply self s e).1) (spec_apply self s e).2.
Proof.
  intros (o & Hrun & Ho)%(runs_apply_entry self e s). unfold apply.
  eapply runs_bind with (a := inr o).
  - intros w Hw. destruct (runs_sled_txn _ _ _ _ Hrun w Hw) as (w' & Heq & Hw').
    exists w'. unfold tryM. by rewrite Heq.
  - rewrite <-Ho. destruct o; run_prim.
Qed.
End refine.
