(* ===== verification/SmKvApi.v ===== *)
(** * [KVApi for StateMachine] (src/common/meta/raft-store/src/state_machine/sm_kv_api_impl.rs).

    The state machine as an implementation of the key-value interface: the
    definitions, and the proof that they satisfy the contract [KVApiLaws]. *)
From S2P Require Import Prelude ByteOrder MetaTypes KvApi SledStore SledView StateMachine StateMachineSpec.

(** [.unwrap()] on the result of a call. *)
Definition unwrapM {W E F A} (m : M W E A) : M W F A := λ w,
  match m w with
  | (Ok a, w1) => (Ok a, w1)
  | (Err _, w1) => (Panic, w1)
  | (Panic, w1) => (Panic, w1)
  end.

Section impl.
Context {T : Type} `{Sled T, SledEnv, Clock, SledTransaction T sm_env}.
Context {Membership : Type} `{SmSerde Membership} (self : StateMachine).
Abbreviation KV A := (M (world T sm_env) MetaError A).

Definition sm_upsert_kv (act : UpsertKVAction) : KV UpsertKVActionReply :=
  let cmd := UpsertKV (act_key act) (act_seq act) (act_value act) (act_value_meta act) in
  let! r := mapErrM MetaError_from_storage (sled_txn (unwrapM (apply_cmd self cmd))) in
  match r with AS_KV x => ret x | _ => lift Panic end.

Definition sm_transaction (txn : TxnRequest) : KV TxnReply :=
  let cmd := Transaction txn in
  let! r := mapErrM MetaError_from_storage (sled_txn (unwrapM (apply_cmd self cmd))) in
  match r with AS_TxnReply x => ret x | _ => lift Panic end.

Definition sm_get_kv (key : string) : KV (option (SeqV bytes)) :=
  let! sv := mapErrM MetaError_from_storage (sled_get GenericKV (tree_name self) id key) in
  match sv with
  | None => ret None
  | Some sv => unexpired sv
  end.

Definition sm_mget_kv (keys : list string) : KV (list (option (SeqV bytes))) :=
  collectM (λ x,
    let! v := mapErrM MetaError_from_storage (sled_get GenericKV (tree_name self) id x) in
    unexpired_opt v) keys.

Definition sm_prefix_list_kv (pref : string) : KV (list (string * SeqV bytes)) :=
  let! kv_pairs := mapErrM MetaError_from_storage (scan_prefix GenericKV id pref) in
  let! x := collectM (λ '(k, v), let! o := unexpired v in ret (k, o)) kv_pairs in
  ret (omap (λ '(k, o), match o with Some v => Some (k, v) | None => None end) x).

#[export] Instance sm_kv_api : KVApi (world T sm_env) := {
  upsert_kv := sm_upsert_kv;
  get_kv := sm_get_kv;
  mget_kv := sm_mget_kv;
  prefix_list_kv := sm_prefix_list_kv;
  kv_transaction := sm_transaction;
}.
End impl.

Section laws.
Context {T : Type} `{SledLaws T, !SledEnv, !NoFaults, !Clock, SledTransactionLaws T sm_env}.
Context {Membership : Type} `{SmSerdeLaws Membership} (self : StateMachine).

(** The store that a state of the state machine represents. *)
Definition sm_store (w : world T sm_env) (st : kv_store) : Prop :=
  ∃ s : sm_spec Membership, sm_repr w s ∧ s_store s = st.

Lemma runs_store {E A} (m : M (world T sm_env) E A) st r st' :
  (∀ s : sm_spec Membership, s_store s = st →
     ∃ s', runs sm_repr m s r s' ∧ s_store s' = st') →
  runs sm_store m st r st'.
Proof.
  intros Hm w (s & Hw & Hs). destruct (Hm s Hs) as (s' & Hrun & Hs').
  destruct (Hrun w Hw) as (w' & Heq & Hw'). exists w'. split; [done|]. by exists s'.
Qed.

Lemma runs_unwrap {W S E F A} (R : W → S → Prop) (m : M W E A) s a s' :
  runs R m s (Ok a) s' → runs R (unwrapM (F:=F) m) s (Ok a) s'.
Proof.
  intros Hm w Hw. destruct (Hm w Hw) as (w' & Heq & Hw'). exists w'. split; [|done].
  unfold unwrapM. by rewrite Heq.
Qed.

(** One command run on its own, as the interface runs it. *)
Lemma runs_cmd_txn c (s : sm_spec Membership) :
  cmd_ok c →
  runs (sm_repr (T:=T))
    (mapErrM MetaError_from_storage (sled_txn (unwrapM (apply_cmd (Membership:=Membership) self c)))) s
    (Ok (spec_cmd self s c).1) (spec_cmd self s c).2.
Proof.
  intros Hc. apply (runs_map_err _ MetaError_from_storage _ s (Ok _)), runs_sled_txn, runs_unwrap.
  by apply runs_apply_cmd.
Qed.

Lemma runs_get_raw k (s : sm_spec Membership) :
  utf8_valid k = true →
  runs (sm_repr (T:=T)) (mapErrM MetaError_from_storage (sled_get GenericKV (tree_name self) id k)) s
    (Ok (kv (s_store s) !! k)) s.
Proof.
  intros Hk. apply (runs_map_err _ MetaError_from_storage _ s (Ok _)).
  pose proof (runs_sled_get (sm_repr (T:=T)) GenericKV (tree_name self) id k s Hk) as Hrun. apply Hrun.
Qed.

Lemma runs_sm_get k (s : sm_spec Membership) :
  utf8_valid k = true →
  runs (sm_repr (T:=T)) (let! v := mapErrM MetaError_from_storage (sled_get GenericKV (tree_name self) id k) in
             unexpired_opt v) s
    (Ok (kv_get (s_store s) k).1) (set_s_store (kv_get (s_store s) k).2 s).
Proof. intros Hk. eapply runs_bind; [by apply runs_get_raw|]. apply runs_unexpired_opt. Qed.

Lemma runs_sm_mget ks (s : sm_spec Membership) :
  Forall (λ k, utf8_valid k = true) ks →
  runs (sm_repr (T:=T)) (sm_mget_kv (Membership:=Membership) self ks) s
    (Ok (kv_mget (s_store s) ks).1) (set_s_store (kv_mget (s_store s) ks).2 s).
Proof.
  intros Hks. revert s. induction Hks as [|k ks Hk _ IH]; intros s; simpl.
  { rewrite set_s_store_id. apply runs_ret. }
  eapply runs_bind; [by apply runs_sm_get|]. destruct (kv_get (s_store s) k) as [v st].
  eapply runs_bind; [apply IH|]. simpl. destruct (kv_mget st ks) as [vs st']. simpl. apply runs_ret.
Qed.

Lemma runs_live_list l (s : sm_spec Membership) :
  ∃ x, runs (sm_repr (T:=T)) (E:=MetaError)
         (collectM (λ '(k, v), let! o := unexpired v in ret (k, o)) l) s (Ok x)
         (set_s_store (kv_live_list (s_store s) l).2 s) ∧
       omap (λ '(k, o), match o with Some v => Some (k, v) | None => None end) x =
       (kv_live_list (s_store s) l).1.
Proof.
  revert s. induction l as [|[k v] l IH]; intros s; simpl.
  { exists []. rewrite set_s_store_id. split; [apply runs_ret|done]. }
  set (s1 := set_s_store (set_reads (S (reads (s_store s))) (s_store s)) s).
  destruct (IH s1) as (x & Hrun & Hx). exists ((k, live (reads (s_store s)) v) :: x). simpl in Hrun, Hx.
  destruct (kv_live_list _ l) as [l' st']. simpl in *. split.
  - eapply runs_bind; [eapply runs_bind; [apply runs_unexpired|apply runs_ret]|].
    eapply runs_bind; [done|]. apply runs_ret.
  - destruct (live _ v); [f_equal|]; exact Hx.
Qed.

#[export] Instance sm_kv_api_laws :
  KVApiLaws (H:=sm_kv_api (Membership:=Membership) self) (world T sm_env) sm_store.
Proof.
  split.
  - intros act st Hk. destruct (kv_upsert _ _ _ _ _) as [[p r] st'] eqn:Hup.
    apply runs_store. intros s <-. eexists. split.
    + eapply runs_bind; [by apply runs_cmd_txn|]. simpl. rewrite Hup. apply runs_ret.
    + unfold spec_notify. by destruct (has_subscriber self).
  - intros k st Hk. apply runs_store. intros s <-. eexists. split.
    + eapply runs_bind; [by apply runs_get_raw|]. apply runs_unexpired_opt.
    + done.
  - intros ks st Hks. apply runs_store. intros s <-. eexists. split; [by apply runs_sm_mget|done].
  - intros p st. apply runs_store. intros s <-.
    destruct (runs_live_list (list_prefix (kv (s_store s)) p) s) as (x & Hrun & Hx).
    eexists (set_s_store _ s). split; [|done]. eapply runs_bind.
    { eapply (runs_map_err _ MetaError_from_storage _ s (Ok _)), (runs_scan_prefix (sm_repr (T:=T)) GenericKV). }
    eapply runs_bind; [done|]. rewrite Hx. apply runs_ret.
  - intros req st Hok. apply runs_store. intros s <-.
    exists (set_s_store (kv_txn (s_store s) req).2 s). split; [|done].
    eapply runs_bind; [by apply runs_cmd_txn|]. simpl. destruct (kv_txn _ req). apply runs_ret.
Qed.
End laws.
