(* ===== verification/SmModel.v ===== *)
(** * A concrete state machine.

    The laws assumed of sled, of serde_json and of openraft's types are satisfied
    together: an in-memory tree with injective encodings for the stored values.  The
    concrete instance is what the examples of the other files run on. *)
From S2P Require Import Prelude ByteOrder MetaTypes KvApi SledStore SledView StateMachine StateMachineSpec.

#[export] Instance KVMeta_countable : Countable KVMeta.
Proof. refine (inj_countable' expire_at mkKVMeta _). by intros []. Defined.
#[export] Instance SeqV_countable `{Countable T} : Countable (SeqV T).
Proof.
  refine (inj_countable' (λ v, (seq v, meta v, data v)) (λ '(s, m, d), mkSeqV s m d) _). by intros [].
Defined.
#[export] Instance PbSeqV_countable : Countable PbSeqV.
Proof. refine (inj_countable' (λ v, (pb_seq v, pb_data v)) (λ '(s, d), mkPbSeqV s d) _). by intros []. Defined.
#[export] Instance Endpoint_countable : Countable Endpoint.
Proof. refine (inj_countable' (λ e, (addr e, port e)) (λ '(a, p), mkEndpoint a p) _). by intros []. Defined.
#[export] Instance Node_countable : Countable Node.
Proof. refine (inj_countable' (λ n, (node_name n, endpoint n)) (λ '(a, p), mkNode a p) _). by intros []. Defined.
#[export] Instance MatchSeq_countable : Countable MatchSeq.
Proof.
  refine (inj_countable' (λ m, match m with Any => (0, 0) | Exact s => (1, s) | GE s => (2, s) end)%N
    (λ '(c, s), match c with 0 => Any | 1 => Exact s | _ => GE s end)%N _).
  by intros [].
Defined.

#[export] Instance LogId_eq_dec : EqDecision LogId.
Proof. solve_decision. Defined.
#[export] Instance LogId_countable : Countable LogId.
Proof. refine (inj_countable' (λ l, (term l, index l)) (λ '(t, i), mkLogId t i) _). by intros []. Defined.
#[export] Instance EffectiveMembership_eq_dec `{EqDecision Mb} : EqDecision (EffectiveMembership Mb).
Proof. solve_decision. Defined.
#[export] Instance EffectiveMembership_countable `{Countable Mb} : Countable (EffectiveMembership Mb).
Proof.
  refine (inj_countable' (λ l, (em_log_id _ l, membership _ l)) (λ '(t, i), mkEffectiveMembership t i) _).
  by intros [].
Defined.
#[export] Instance SMV_eq_dec `{EqDecision Mb} : EqDecision (StateMachineMetaValue Mb).
Proof. solve_decision. Defined.
#[export] Instance SMV_countable `{Countable Mb} : Countable (StateMachineMetaValue Mb).
Proof.
  refine (inj_countable'
    (λ v, match v with SMV_LogId l => inl l | SMV_Bool b => inr (inl b) | SMV_Membership m => inr (inr m) end)
    (λ x, match x with inl l => SMV_LogId l | inr (inl b) => SMV_Bool b | inr (inr m) => SMV_Membership m end) _).
  by intros [].
Defined.

(** The errors of the API, as a tag, up to two strings, a number and a condition. *)
Definition AppError_code (e : AppError) : N * string * string * N * option MatchSeq * N :=
  match e with
  | AE_TableVersionMismatched (mkTableVersionMismatched i e c x) => (0, x, "", i, Some e, c)
  | AE_TableAlreadyExists (mkTableAlreadyExists a b) => (1, a, b, 0, None, 0)
  | AE_DatabaseAlreadyExists (mkDatabaseAlreadyExists a b) => (2, a, b, 0, None, 0)
  | AE_UnknownDatabase (mkUnknownDatabase a b) => (3, a, b, 0, None, 0)
  | AE_UnknownDatabaseId (mkUnknownDatabaseId i b) => (4, "", b, i, None, 0)
  | AE_UnknownTable (mkUnknownTable a b) => (5, a, b, 0, None, 0)
  | AE_UnknownTableId (mkUnknownTableId i b) => (6, "", b, i, None, 0)
  | AE_ShareAlreadyExists (mkShareAlreadyExists a b) => (7, a, b, 0, None, 0)
  | AE_UnknownShare (mkUnknownShare a b) => (8, a, b, 0, None, 0)
  | AE_UnknownShareId (mkUnknownShareId i b) => (9, "", b, i, None, 0)
  end%N.
Definition AppError_decode (x : N * string * string * N * option MatchSeq * N) : AppError :=
  match x with
  | (0, x, _, i, Some e, c) => AE_TableVersionMismatched (mkTableVersionMismatched i e c x)
  | (1, a, b, _, _, _) => AE_TableAlreadyExists (mkTableAlreadyExists a b)
  | (2, a, b, _, _, _) => AE_DatabaseAlreadyExists (mkDatabaseAlreadyExists a b)
  | (3, a, b, _, _, _) => AE_UnknownDatabase (mkUnknownDatabase a b)
  | (4, _, b, i, _, _) => AE_UnknownDatabaseId (mkUnknownDatabaseId i b)
  | (5, a, b, _, _, _) => AE_UnknownTable (mkUnknownTable a b)
  | (6, _, b, i, _, _) => AE_UnknownTableId (mkUnknownTableId i b)
  | (7, a, b, _, _, _) => AE_ShareAlreadyExists (mkShareAlreadyExists a b)
  | (8, a, b, _, _, _) => AE_UnknownShare (mkUnknownShare a b)
  | (_, _, b, i, _, _) => AE_UnknownShareId (mkUnknownShareId i b)
  end%N.
#[export] Instance AppError_eq_dec : EqDecision AppError.
Proof.
  intros a b. unfold Decision. decide equality; repeat (decide equality || apply MatchSeq_eq_dec).
Defined.
#[export] Instance AppError_countable : Countable AppError.
Proof. refine (inj_countable' AppError_code AppError_decode _). by intros [[]|[]|[]|[]|[]|[]|[]|[]|[]|[]]. Defined.

#[export] Instance Response_eq_dec : EqDecision Response.
Proof.
  assert (EqDecision TxnGetResponse) by solve_decision.
  assert (EqDecision TxnPutResponse) by solve_decision.
  assert (EqDecision TxnDeleteResponse) by solve_decision. solve_decision.
Defined.
#[export] Instance Response_countable : Countable Response.
Proof.
  refine (inj_countable'
    (λ r, match r with
          | RespGet (mkTxnGetResponse k v) => (0%N, k, false, v)
          | RespPut (mkTxnPutResponse k v) => (1%N, k, false, v)
          | RespDelete (mkTxnDeleteResponse k b v) => (2%N, k, b, v)
          end)
    (λ '(c, k, b, v), match c with
                      | 0%N => RespGet (mkTxnGetResponse k v)
                      | 1%N => RespPut (mkTxnPutResponse k v)
                      | _ => RespDelete (mkTxnDeleteResponse k b v)
                      end) _).
  by intros [[]|[]|[]].
Defined.
#[export] Instance TxnOpResponse_eq_dec : EqDecision TxnOpResponse.
Proof. solve_decision. Defined.
#[export] Instance TxnOpResponse_countable : Countable TxnOpResponse.
Proof. refine (inj_countable' response mkTxnOpResponse _). by intros []. Defined.
#[export] Instance TxnReply_eq_dec : EqDecision TxnReply.
Proof. solve_decision. Defined.
#[export] Instance TxnReply_countable : Countable TxnReply.
Proof.
  refine (inj_countable' (λ r, (txn_success r, responses r, error r)) (λ '(b, l, e), mkTxnReply b l e) _).
  by intros [].
Defined.
#[export] Instance Change_eq_dec {T ID : Type} `{EqDecision T, EqDecision ID} : EqDecision (Change T ID).
Proof. solve_decision. Defined.
#[export] Instance Change_countable {T ID : Type} `{Countable T, Countable ID} : Countable (Change T ID).
Proof.
  refine (inj_countable' (λ c, (ident c, prev c, result c)) (λ '(i, p, r), mkChange i p r) _). by intros [].
Defined.

#[export] Instance AppliedState_eq_dec : EqDecision AppliedState.
Proof. solve_decision. Defined.
#[export] Instance AppliedState_countable : Countable AppliedState.
Proof.
  refine (inj_countable'
    (λ a, match a with
          | AS_Seq n => inl (inl n)
          | AS_Node p r => inl (inr (inl (p, r)))
          | AS_MetaSrvAddr p r => inl (inr (inr (p, r)))
          | AS_KV c => inr (inl (inl c))
          | AS_AppError e => inr (inl (inr e))
          | AS_TxnReply r => inr (inr (inl r))
          | AS_None => inr (inr (inr tt))
          end)
    (λ x, match x with
          | inl (inl n) => AS_Seq n
          | inl (inr (inl (p, r))) => AS_Node p r
          | inl (inr (inr (p, r))) => AS_MetaSrvAddr p r
          | inr (inl (inl c)) => AS_KV c
          | inr (inl (inr e)) => AS_AppError e
          | inr (inr (inl r)) => AS_TxnReply r
          | inr (inr (inr _)) => AS_None
          end) _).
  by intros [].
Defined.
#[export] Instance ClientLastRespValue_eq_dec : EqDecision ClientLastRespValue.
Proof. solve_decision. Defined.
#[export] Instance ClientLastRespValue_countable : Countable ClientLastRespValue.
Proof.
  refine (inj_countable' (λ v, (req_serial_num v, res_state v)) (λ '(n, r), mkClientLastRespValue n r) _).
  by intros [].
Defined.

(** ** The concrete codecs, environment and initial state *)
Definition mem_serde : SmSerde (list N) := {|
  serde_node := countable_serde Node;
  serde_sm_meta := countable_serde (StateMachineMetaValue (list N));
  serde_seqv := countable_serde (SeqV bytes);
  serde_seq_num := countable_serde N;
  serde_last_resp := countable_serde ClientLastRespValue;
  serde_string := countable_serde string;
|}.
Lemma mem_serde_laws : @SmSerdeLaws (list N) mem_serde.
Proof. split; apply countable_serde_laws. Qed.

Definition empty_world : world mem_tree sm_env := mkWorld (∅ : mem_tree) 0 (mkSmEnv 0 []).
Definition empty_store : kv_store := mkStore ∅ ∅ 0.
Definition empty_spec : sm_spec (list N) := mkSpec ∅ ∅ ∅ empty_store ∅ [].

Lemma repr_empty `{OrderedSerdeLaws K, SledSerde V, Countable K} (ks : SledKeySpace K V) :
  repr ks (∅ : mem_tree) ∅.
Proof.
  split.
  - by intros k v ?%lookup_empty_Some.
  - intros k rest _ _. rewrite lookup_empty. apply lookup_empty.
  - intros rest b. simpl. by intros ?%lookup_empty_Some.
Qed.
Lemma empty_repr : @sm_repr mem_tree _ quiet_env (list N) mem_serde empty_world empty_spec.
Proof. split; try done; apply repr_empty. Qed.

(** ** An example run *)
Definition demo_clock : Clock := λ n, (100 + N.of_nat n)%N.
Definition demo_sm : StateMachine := mkStateMachine "test-sm" true true.
Definition demo_data : LogEntry :=
  mkLogEntry (Some (mkRaftTxId "c1" 7)) (UpsertKV "foo" (Exact 0) (OpUpdate "bar") None).
Definition demo_entry (i : N) : Entry (list N) := mkEntry (mkLogId 1 i) (Normal demo_data).

Lemma demo_clock_laws : @ClockLaws (λ n, (100 + N.of_nat n) mod u64_modulus)%N.
Proof. intros n. by apply N.mod_lt. Qed.
