(* ===== verification/StateMachineProps.v ===== *)
(** * Properties of the state machine.

    What the raft layer and the clients rely on: log entries are applied as the
    specification says, atomically, once per client transaction id, and equally on
    every replica as long as no record expires. *)
From S2P Require Import Prelude ByteOrder MetaTypes KvApi SledStore SledView StateMachine StateMachineSpec SmKvApi.
From S2P Require Import SmModel SledRange.

(** ** Refinement *)
Section refinement.
Context {T : Type} `{SledLaws T, !SledEnv, !NoFaults, !Clock, SledTransactionLaws T sm_env}.
Context {Membership : Type} `{SmSerdeLaws Membership}.
Implicit Types (s : sm_spec Membership) (e : Entry Membership).

(** C1: [StateMachine::apply] refines the specification: on any sled tree and codec
    that satisfy their laws, and without storage faults, applying a raft log entry
    succeeds, answers with the response the specification gives and leaves a tree
    that represents the state the specification gives. *)
Theorem apply_refines self e s :
  entry_ok e →
  runs (sm_repr (T:=T)) (apply self e) s (Ok (spec_apply self s e).1) (spec_apply self s e).2.
Proof. apply runs_apply. Qed.

(** C3: The state machine is a key-value store: each of the five operations of the
    interface, run on a sled tree without faults, returns what the abstract store
    returns and leaves a tree that represents the store the operation leaves. *)
Theorem sm_is_kv_store self :
  KVApiLaws (H:=sm_kv_api (Membership:=Membership) self) (world T sm_env) (sm_store (Membership:=Membership)).
Proof. apply sm_kv_api_laws. Qed.

(** ** Duplicate log entries *)

(** Moving the last applied log id. *)
Definition at_log (l : LogId) s : sm_spec Membership :=
  set_s_meta (<[LastApplied:=SMV_LogId l]> (s_meta s)) s.

(** After an entry of a client was applied, its response is the client's last. *)
Lemma spec_entry_last_resp self s d t :
  txid d = Some t →
  last_resp (spec_entry self s d).2 (client t) = (serial t, (spec_entry self s d).1).
Proof.
  intros Ht. unfold spec_entry. rewrite Ht.
  destruct (_ =? _)%N eqn:Hs; nbool.
  - simpl. rewrite <-Hs. apply surjective_pairing.
  - destruct (spec_cmd self s (cmd d)) as [r s1]. unfold last_resp. simpl. by rewrite lookup_insert_eq.
Qed.
Lemma spec_apply_duplicate self s e d t :
  payload e = Normal d → txid d = Some t → (last_resp s (client t)).1 = serial t →
  spec_apply self s e = ((last_resp s (client t)).2, at_log (log_id e) s).
Proof.
  intros Hp Ht Hs. unfold spec_apply, spec_entry. rewrite Hp, Ht.
  change (last_resp (set_s_meta _ s) (client t)) with (last_resp s (client t)).
  by rewrite Hs, N.eqb_refl.
Qed.

(** Entries without a command of a client leave the last response to it alone. *)
Definition not_from (c : string) (e : Entry Membership) : Prop := ∀ d t, payload e = Normal d → txid d = Some t → client t ≠ c.
Lemma spec_cmd_resps self s c : s_resps (spec_cmd self s c).2 = s_resps s.
Proof.
  destruct c as [k|id node|id|n a|n|k ms op m|req]; simpl; try done.
  - by destruct (s_nodes s !! id).
  - by destruct (s_addrs s !! n).
  - destruct (kv_upsert _ _ _ _ _) as [[p r] st]. unfold spec_notify. by repeat case_match.
  - by destruct (kv_txn _ _).
Qed.
Lemma spec_apply_last_resp self s e c : not_from c e → last_resp (spec_apply self s e).2 c = last_resp s c.
Proof.
  unfold not_from, spec_apply. intros Hc. fold (at_log (log_id e) s). destruct (payload e) as [|d|m] eqn:Hp; try done. unfold spec_entry.
  pose proof (spec_cmd_resps self (at_log (log_id e) s) (cmd d)) as Hr. destruct (txid d) as [t|] eqn:Ht; [|unfold last_resp; by rewrite Hr].
  destruct (_ =? _)%N; [done|]. destruct (spec_cmd _ _ _) as [r s']. simpl in *. unfold last_resp. simpl. rewrite lookup_insert_ne by by eapply Hc. by rewrite Hr.
Qed.
Lemma runs_log self es c s :
  Forall entry_ok es → Forall (not_from c) es → ∃ rs s', runs (sm_repr (T:=T)) (collectM (apply self) es) s (Ok rs) s' ∧ last_resp s' c = last_resp s c.
Proof.
  intros Hok Hnot. revert s. induction Hok as [|e es He _ IH]; intros s; [exists [], s; split; [apply runs_ret|done]|].
  apply Forall_cons in Hnot as [Hn Hnot]. destruct (IH Hnot (spec_apply self s e).2) as (rs & s' & Hrun & Hl).
  exists ((spec_apply self s e).1 :: rs), s'. rewrite Hl, spec_apply_last_resp by done. split; [|done]. cbn [collectM].
  eapply runs_bind; [by apply runs_apply|]. eapply runs_bind; [exact Hrun|apply runs_ret].
Qed.

(** C29: A client may re-send a command.  A log entry whose serial number is not the last of its client is executed: the
    response is that of the command, and it is recorded with the state after the command.  If the same data comes in
    a second entry, after any entries without a command of this client, the response is the same, and the second entry
    changes nothing but the last applied log id. *)
Theorem apply_idempotent self e1 between e2 d t s :
  payload e1 = Normal d → payload e2 = Normal d → txid d = Some t → entry_ok e1 → Forall entry_ok between →
  serial t ≠ (last_resp s (client t)).1 → Forall (not_from (client t)) between →
  let '(r, s0) := spec_cmd self (at_log (log_id e1) s) (cmd d) in
  let s1 := set_s_resps (<[client t:=mkClientLastRespValue (serial t) r]> (s_resps s0)) s0 in
  ∃ rs s2, runs (sm_repr (T:=T)) (apply self e1) s (Ok r) s1 ∧
           runs (sm_repr (T:=T)) (collectM (apply self) between) s1 (Ok rs) s2 ∧
           runs (sm_repr (T:=T)) (apply self e2) s2 (Ok r) (at_log (log_id e2) s2).
Proof.
  intros Hp1 Hp2 Ht Hok Hoks Hnew Hnot. pose proof (runs_apply self e1 s Hok) as Hrun1.
  assert (spec_apply self s e1 = spec_entry self (at_log (log_id e1) s) d) as Heq by by unfold spec_apply; rewrite Hp1.
  pose proof (spec_entry_last_resp self (at_log (log_id e1) s) d t Ht) as Hlast. rewrite Heq in Hrun1. unfold spec_entry in Hrun1, Hlast. rewrite Ht in Hrun1, Hlast.
  change (last_resp (at_log (log_id e1) s) (client t)) with (last_resp s (client t)) in *.
  rewrite (proj2 (N.eqb_neq (last_resp s (client t)).1 (serial t))) in Hrun1, Hlast by done.
  destruct (spec_cmd self (at_log (log_id e1) s) (cmd d)) as [r s0]. simpl in Hrun1, Hlast. set (s1 := set_s_resps _ s0) in *.
  destruct (runs_log self between (client t) s1 Hoks Hnot) as (rs & s2 & Hrun2 & Hl). exists rs, s2. split_and!; [done|done|].
  assert (entry_ok e2) as Hok2 by by unfold entry_ok in *; rewrite Hp1, Hp2 in *.
  pose proof (runs_apply self e2 s2 Hok2) as Hrun3. rewrite Hlast in Hl. rewrite (spec_apply_duplicate _ _ _ _ _ Hp2 Ht), Hl in Hrun3; [done|by rewrite Hl].
Qed.

(** The first command of a client that numbers its requests from 0 is taken for
    a duplicate: nothing is executed and the answer is [AppliedState::None]. *)
Theorem first_serial_zero_dropped self e d t s :
  payload e = Normal d → txid d = Some t → serial t = 0%N → s_resps s !! client t = None → entry_ok e →
  runs (sm_repr (T:=T)) (apply self e) s (Ok AS_None) (at_log (log_id e) s).
Proof.
  intros Hp Ht Hz Hnone Hok. pose proof (runs_apply self e s Hok) as Hrun.
  assert (last_resp s (client t) = (0%N, AS_None)) as Hl by by unfold last_resp; rewrite Hnone.
  by rewrite (spec_apply_duplicate _ _ _ _ _ Hp Ht), Hl in Hrun by by rewrite Hl.
Qed.

(** ** Optimistic transactions *)

(** The most sequence numbers of records that an entry gives out. *)
Definition cmd_size (c : Cmd) : nat := match c with IncrSeq _ | UpsertKV _ _ _ _ => 1 | Transaction req => txn_size req | _ => 0 end.
Definition entry_size (e : Entry Membership) : nat := match payload e with Normal d => cmd_size (cmd d) | _ => 0 end.
Lemma spec_cmd_evolves self s c : evolves (cmd_size c) (s_store s) (s_store (spec_cmd self s c).2).
Proof.
  destruct c as [k|id node|id|n a|n|k ms op m|req]; simpl; try by apply evolves_same.
  - pose proof (kv_incr_seq_evolves (s_store s) k) as He. exact He.
  - destruct (s_nodes s !! id); by apply evolves_same.
  - destruct (s_addrs s !! n); by apply evolves_same.
  - pose proof (kv_upsert_evolves (s_store s) k ms op m) as He. destruct (kv_upsert _ _ _ _ _) as [[p r] st]. unfold spec_notify. by repeat case_match.
  - pose proof (kv_txn_evolves (s_store s) req) as He. by destruct (kv_txn _ _).
Qed.
Lemma spec_apply_evolves self s e : evolves (entry_size e) (s_store s) (s_store (spec_apply self s e).2).
Proof.
  unfold spec_apply, entry_size. destruct (payload e) as [|d|m]; [by apply evolves_same| |by apply evolves_same].
  set (s' := set_s_meta _ s). change (s_store s) with (s_store s'). unfold spec_entry. pose proof (spec_cmd_evolves self s' (cmd d)) as He.
  destruct (txid d) as [t|]; [|done]. destruct (_ =? _)%N; [by apply evolves_same|]. by destruct (spec_cmd _ _ _).
Qed.
Lemma runs_log_evolves self es s :
  Forall entry_ok es → ∃ rs s', runs (sm_repr (T:=T)) (collectM (apply self) es) s (Ok rs) s' ∧ evolves (sum_list (entry_size <$> es)) (s_store s) (s_store s').
Proof.
  intros Hok. revert s. induction Hok as [|e es He _ IH]; intros s; [exists [], s; split; [apply runs_ret|by apply evolves_same]|].
  destruct (IH (spec_apply self s e).2) as (rs & s' & Hrun & Hev). exists ((spec_apply self s e).1 :: rs), s'. split.
  - cbn [collectM]. eapply runs_bind; [by apply runs_apply|]. eapply runs_bind; [exact Hrun|apply runs_ret].
  - simpl. eapply evolves_trans; [apply spec_apply_evolves|exact Hev].
Qed.
(** What is read are the records that are stored, but for those that have expired. *)
Lemma mget_reads st ks :
  Forall2 (λ k v, v = kv st !! k ∨ v = None) ks (kv_mget st ks).1 ∧ kv (kv_mget st ks).2 = kv st ∧ last_seq (kv_mget st ks).2 = last_seq st.
Proof.
  revert st. induction ks as [|k ks IH]; intros st; [done|]. simpl. pose proof (kv_live_kv st (kv st !! k)) as Hkv. fold (kv_get st k) in Hkv.
  assert (last_seq (kv_get st k).2 = last_seq st) as Hs by by unfold kv_get; destruct (kv st !! k).
  assert ((kv_get st k).1 = kv st !! k ∨ (kv_get st k).1 = None) as Hv by (unfold kv_get, kv_live, live; destruct (kv st !! k); [simpl; destruct (_ <? _)%N|]; auto).
  destruct (kv_get st k) as [v st1]. simpl in *. destruct (IH st1) as (Hvs & Hkv2 & Hs2). destruct (kv_mget st1 ks) as [vs st2]. simpl in *. rewrite Hkv in *.
  split_and!; [by constructor|done|congruence].
Qed.
Lemma conditions_hold st0 st1 ks vs :
  kv_wf st0 → kv_wf st1 → kv_later st0 st1 → Forall2 (λ k v, v = kv st0 !! k ∨ v = None) ks vs →
  forallb (cond_holds st1) (zip_with (λ k v, seq_cond k (opt_seq v)) ks vs) = true ↔ Forall2 (λ k (v : option (SeqV bytes)), kv st1 !! k = v) ks vs.
Proof.
  intros Hwf0 Hwf1 Hl Hvs. induction Hvs as [|k v ks vs Hv _ IH]; [done|]. simpl. rewrite andb_true_iff, Forall2_cons, IH, seq_cond_holds, N.eqb_eq. apply and_iff_compat_r.
  split; [|by intros ->]. intros Heq. destruct Hv as [-> | ->]; [by apply later_validated|]. destruct (kv st1 !! k) as [v1|] eqn:Hk1; [|done].
  apply (wf_seq _ Hwf1) in Hk1. simpl in Heq. lia.
Qed.

(** C28: A transaction validates what its client read before.  A client reads some keys, any entries are applied, and then
    a transaction on condition that the keys have the sequence numbers read (0 for a key without a record).  It succeeds exactly
    if every key holds the very record that was read, or none where none was read; then the operations of its first
    branch are executed on that state, and those of the other branch otherwise. *)
Theorem txn_validates_reads self s ks es ops els l :
  kv_wf (s_store s) → Forall (λ k, utf8_valid k = true) ks → Forall entry_ok es → Forall op_ok ops → Forall op_ok els →
  (last_seq (s_store s) + N.of_nat (sum_list (entry_size <$> es)) < u64_modulus)%N →
  ∃ vs s0 rs s1, runs (sm_repr (T:=T)) (sm_mget_kv (Membership:=Membership) self ks) s (Ok vs) s0 ∧
    runs (sm_repr (T:=T)) (collectM (apply self) es) s0 (Ok rs) s1 ∧
    let req := mkTxnRequest (zip_with (λ k v, seq_cond k (opt_seq v)) ks vs) ops els in
    ∃ ok s2, let '(resps, st2) := kv_ops (s_store s1) (if (ok : bool) then ops else els) in
      runs (sm_repr (T:=T)) (apply self (mkEntry l (Normal (mkLogEntry None (Transaction req))))) s1
        (Ok (AS_TxnReply (mkTxnReply ok ((λ r, mkTxnOpResponse (Some r)) <$> resps) ""))) s2 ∧
      s_store s2 = st2 ∧ (ok = true ↔ Forall2 (λ k v, kv (s_store s1) !! k = v) ks vs).
Proof.
  intros Hwf Hks Hes Hops Hels Hroom. destruct (mget_reads (s_store s) ks) as (Hvs & Hkv & Hs).
  pose proof (runs_sm_mget self ks s Hks) as Hread. destruct (kv_mget (s_store s) ks) as [vs st0]. simpl in *.
  destruct (runs_log_evolves self es (set_s_store st0 s) Hes) as (rs & s1 & Hrun & Hev).
  destruct (evolves_same 0 (s_store s) st0 Hkv Hs Hwf ltac:(lia)) as (Hwf0 & _). destruct Hev as (Hwf1 & Hl & _); [done|simpl; lia|]. simpl in Hl.
  exists vs, (set_s_store st0 s), rs, s1. split_and!; [done|done|]. set (req := mkTxnRequest _ ops els).
  pose proof (runs_apply self (mkEntry l (Normal (mkLogEntry None (Transaction req)))) s1) as Htxn.
  set (ok := forallb (cond_holds (s_store s1)) (condition req)). exists ok.
  assert (spec_apply self s1 (mkEntry l (Normal (mkLogEntry None (Transaction req)))) =
    let '(r, st) := kv_txn (s_store s1) req in (AS_TxnReply r, set_s_store st (at_log l s1))) as Hspec by done.
  rewrite Hspec in Htxn. unfold kv_txn in Htxn. fold ok in Htxn. change (if_then req) with ops in Htxn. change (else_then req) with els in Htxn.
  destruct (kv_ops (s_store s1) (if ok then ops else els)) as [resps st2]. eexists. split; [apply Htxn|split; [done|]].
  - split; [|done]. unfold cmd_ok. simpl. split; [|done]. unfold req. simpl. clear -Hks Hvs. revert Hks. induction Hvs as [|k v ks vs _ _ IH]; [constructor|]. intros [Hk Hks2]%Forall_cons. simpl. constructor; [done|by apply IH].
  - apply (conditions_hold st0); [done|done|done|]. by rewrite Hkv.
Qed.

(** The ids of the nodes are listed in increasing order, each once: the
    big-endian encoding makes sled's byte order the numeric order. *)
Lemma list_node_ids_sorted self s :
  ∃ ids, runs (sm_repr (T:=T)) (list_node_ids self) s (Ok ids) s ∧
         StronglySorted N.lt ids ∧ (∀ id, id ∈ ids ↔ is_Some (s_nodes s !! id)).
Proof.
  exists (map_range (s_nodes s) (Unbounded, Unbounded)).*1. split_and!.
  - intros w Hw.
    destruct (runs_range_keys (sm_repr (T:=T)) Nodes eq_refl (tree_name self) (bound_debug pretty)
      (Unbounded, Unbounded) s) with w as (w' & Heq & Hw'); [done|done|]. exists w'. split; [|done].
    unfold list_node_ids. by rewrite Heq.
  - pose proof (map_range_sorted (s_nodes s) (Unbounded, Unbounded)) as Hs.
    induction Hs as [|a l Hs IH Hall]; csimpl; constructor; [done|].
    apply Forall_fmap. eapply Forall_impl; [done|]. intros b [Hle Hne]. simpl. lia.
  - intros id. split.
    + intros ([k v] & -> & [Hv _]%elem_of_map_range)%list_elem_of_fmap. by exists v.
    + intros [v Hv]. apply list_elem_of_fmap. exists (id, v). split; [done|]. by apply elem_of_map_range.
Qed.
End refinement.

(** ** Atomicity *)

(** C2: A log entry is applied as a whole or not at all, whatever sled call fails:
    when [apply] returns an error, panics, or answers with an application error the
    tree is what it was; otherwise the tree is what one complete run of the closure
    leaves, and the answer is the closure's. *)
Theorem apply_atomic {T : Type} `{Sled T, SledEnv, Clock, SledTransactionLaws T sm_env}
    {Membership : Type} `{SmSerde Membership} self (e : Entry Membership) w r w' :
  apply self e w = (r, w') →
  match r with
  | Ok a =>
      (tree w' = tree w ∧ ∃ err, a = AS_AppError err) ∨
      (∃ w0 o, tree w0 = tree w ∧ apply_entry self e w0 = (Ok o, w') ∧ a = default AS_None o)
  | _ => tree w' = tree w
  end.
Proof.
  unfold apply, bind, tryM, sled_txn, mapErrM at 1.
  destruct (transaction _ w) as [r1 w1] eqn:Htx.
  apply transaction_atomic in Htx. destruct r1 as [o|e1|]; simpl.
  - destruct Htx as (w0 & Hw0 & Hrun). unfold mapErrM in Hrun.
    destruct (apply_entry self e w0) as [r2 w2] eqn:Hent.
    destruct r2 as [o2|[]|]; simplify_eq/=. intros Hres.
    destruct o as [a|]; cbv [ret] in Hres; simplify_eq; right; by exists w0; eexists.
  - destruct e1 as [[]|]; cbv [ret throw]; intros; simplify_eq/=; eauto.
  - by intros [= <- <-].
Qed.

(** ** Replicas with different clocks *)
Definition kv_immortal (st : kv_store) : Prop := map_Forall (λ _, immortal) (kv st).
Definition meta_immortal (m : option KVMeta) : Prop := immortal (mkSeqV 0 m "").
(** The command sets no expiry time. *)
Definition cmd_immortal (c : Cmd) : Prop :=
  match c with UpsertKV _ _ _ m => meta_immortal m | _ => True end.
Definition entry_immortal {Membership} (e : Entry Membership) : Prop :=
  match payload e with Normal d => cmd_immortal (cmd d) | _ => True end.

Section two_clocks.
Context (c1 c2 : Clock) (L1 : @ClockLaws c1) (L2 : @ClockLaws c2).
Implicit Types st : kv_store.

Lemma kv_get_immortal st k :
  kv_immortal st →
  @kv_get c1 st k = @kv_get c2 st k ∧ kv_immortal (@kv_get c1 st k).2 ∧
  (∀ v, (@kv_get c1 st k).1 = Some v → immortal v).
Proof.
  intros Hst. unfold kv_get, kv_live. destruct (kv st !! k) as [v|] eqn:Hv; [|done].
  pose proof (Hst _ _ Hv) as Hi. simpl in Hi. rewrite !live_immortal by done.
  split_and!; [done|done|naive_solver].
Qed.
Lemma kv_put_immortal (c : Clock) st k m d :
  kv_immortal st → meta_immortal m → kv_immortal (kv_put st k m d).2.
Proof. intros Hst Hm. unfold kv_immortal. simpl. by apply map_Forall_insert_2. Qed.

Lemma kv_upsert_immortal st k ms op m :
  kv_immortal st → meta_immortal m →
  @kv_upsert c1 st k ms op m = @kv_upsert c2 st k ms op m ∧ kv_immortal (@kv_upsert c1 st k ms op m).2.
Proof.
  intros Hst Hm. unfold kv_upsert. destruct (kv_get_immortal st k Hst) as (<- & Hi & Hp).
  destruct (@kv_get c1 st k) as [prev st1]. simpl in *. destruct (seq_matches _ _); [|done].
  destruct op as [d| |]; simpl.
  - split; [done|]. by apply (kv_put_immortal c1 st1 k m d).
  - split; [done|]. by apply map_Forall_delete.
  - destruct prev as [p|]; simpl; [|done]. split; [done|]. by apply (kv_put_immortal c1 st1 k m (data p)).
Qed.
Lemma kv_op_immortal st op :
  kv_immortal st → @kv_op c1 st op = @kv_op c2 st op ∧ kv_immortal (@kv_op c1 st op).2.
Proof.
  intros Hst. unfold kv_op. destruct (request op) as [[r|r|r]|]; [done| | |done].
  - destruct (kv_upsert_immortal st (put_key r) Any (OpUpdate (put_value r)) None Hst eq_refl) as [<- Hi].
    by destruct (kv_upsert _ _ _ _ _) as [[??]?].
  - destruct (kv_upsert_immortal st (delete_key r) Any OpDelete None Hst eq_refl) as [<- Hi].
    by destruct (kv_upsert _ _ _ _ _) as [[??]?].
Qed.
Lemma kv_ops_immortal st ops :
  kv_immortal st → @kv_ops c1 st ops = @kv_ops c2 st ops ∧ kv_immortal (@kv_ops c1 st ops).2.
Proof.
  revert st. induction ops as [|op ops IH]; intros st Hst; simpl; [done|].
  destruct (kv_op_immortal st op Hst) as [<- Hi]. destruct (kv_op st op) as [r st1].
  destruct (IH st1 Hi) as [<- Hi2]. by destruct (kv_ops st1 ops).
Qed.

Context {Membership : Type}.
Implicit Types (s : sm_spec Membership) (e : Entry Membership).

Lemma spec_cmd_immortal self s c :
  kv_immortal (s_store s) → cmd_immortal c →
  @spec_cmd c1 _ self s c = @spec_cmd c2 _ self s c ∧ kv_immortal (s_store (@spec_cmd c1 _ self s c).2).
Proof.
  intros Hst Hc. destruct c as [k|id node|id|n a|n|k ms op m|req]; simpl; try done.
  - by destruct (s_nodes s !! id).
  - by destruct (s_addrs s !! n).
  - destruct (kv_upsert_immortal (s_store s) k ms op m Hst Hc) as [<- Hi].
    destruct (kv_upsert _ _ _ _ _) as [[p r] st]. split; [done|].
    unfold spec_notify. by destruct (has_subscriber self).
  - unfold kv_txn. destruct (kv_ops_immortal (s_store s)
      (if forallb (cond_holds (s_store s)) (condition req) then if_then req else else_then req) Hst) as [<- Hi].
    by destruct (kv_ops _ _).
Qed.
Lemma spec_apply_immortal self s e :
  kv_immortal (s_store s) → entry_immortal e →
  @spec_apply c1 _ self s e = @spec_apply c2 _ self s e ∧
  kv_immortal (s_store (@spec_apply c1 _ self s e).2).
Proof.
  unfold entry_immortal, spec_apply, spec_entry. intros Hst He.
  destruct (payload e) as [|d|m]; [done| |done]. set (s0 := set_s_meta _ s).
  destruct (spec_cmd_immortal self s0 (cmd d) Hst He) as [<- Hi].
  destruct (txid d) as [t|]; [|done]. destruct (_ =? _)%N; [done|]. by destruct (spec_cmd _ _ _).
Qed.

(** C30: Replicas do not need synchronized clocks unless records expire: two nodes in
    the same state, none of whose records has an expiry time, apply a log entry that
    sets none with different clocks, and give the same answer and end in the same
    state, in which again no record has an expiry time. *)
Theorem replicas_agree {T} `{SledLaws T, !SledEnv, !NoFaults, SledTransactionLaws T sm_env}
    `{SmSerdeLaws Membership} self s e :
  entry_ok e → kv_immortal (s_store s) → entry_immortal e →
  ∃ r s',
    runs (sm_repr (T:=T)) (@apply T _ _ c1 _ _ _ self e) s (Ok r) s' ∧
    runs (sm_repr (T:=T)) (@apply T _ _ c2 _ _ _ self e) s (Ok r) s' ∧
    kv_immortal (s_store s').
Proof.
  intros Hok Hst He. destruct (spec_apply_immortal self s e Hst He) as [Heq Hi].
  exists (@spec_apply c1 _ self s e).1, (@spec_apply c1 _ self s e).2.
  split_and!; [by apply runs_apply| |done]. rewrite Heq. by apply runs_apply.
Qed.
End two_clocks.

(** ** Examples: the theorems at a concrete store, codec and log entry *)
Section examples.
#[local] Existing Instances quiet_env quiet_no_faults mem_serde mem_serde_laws demo_clock.

Lemma apply_refines_example :
  (spec_apply demo_sm empty_spec (demo_entry 5)).1 =
    AS_KV (Change_new None (Some (mkSeqV 1 None "bar"))) ∧
  runs (sm_repr (T:=mem_tree)) (apply demo_sm (demo_entry 5)) empty_spec
    (Ok (spec_apply demo_sm empty_spec (demo_entry 5)).1) (spec_apply demo_sm empty_spec (demo_entry 5)).2.
Proof. split; [vm_compute; reflexivity|]. apply apply_refines. vm_compute. done. Defined.

(** Writing and reading a key through the interface of the concrete state machine. *)
Lemma sm_is_kv_store_example :
  let st1 := (kv_upsert empty_store "foo" Any (OpUpdate "bar") None).2 in
  runs (sm_store (Membership:=list N) (T:=mem_tree))
    (sm_upsert_kv (Membership:=list N) demo_sm (mkUpsertKVAction "foo" Any (OpUpdate "bar") None)) empty_store
    (Ok (Change_new None (Some (mkSeqV 1 None "bar")))) st1 ∧
  runs (sm_store (Membership:=list N) (T:=mem_tree)) (sm_get_kv (Membership:=list N) demo_sm "foo") st1
    (Ok (Some (mkSeqV 1 None "bar"))) (kv_get st1 "foo").2.
Proof.
  pose proof (sm_is_kv_store (T:=mem_tree) (Membership:=list N) demo_sm) as Hlaws. split.
  - exact (upsert_kv_ok (KVApiLaws:=Hlaws) (mkUpsertKVAction "foo" Any (OpUpdate "bar") None) empty_store eq_refl).
  - exact (get_kv_ok (KVApiLaws:=Hlaws) "foo" (kv_upsert empty_store "foo" Any (OpUpdate "bar") None).2 eq_refl).
Defined.

(** Another client writes the same key in between. *)
Definition other_entry : Entry (list N) :=
  mkEntry (mkLogId 1 6) (Normal (mkLogEntry (Some (mkRaftTxId "c2" 7)) (UpsertKV "foo" Any (OpUpdate "baz") None))).
Lemma apply_idempotent_example :
  let '(r, s0) := spec_cmd demo_sm (at_log (mkLogId 1 5) empty_spec) (cmd demo_data) in
  let s1 := set_s_resps (<["c1":=mkClientLastRespValue 7 r]> (s_resps s0)) s0 in
  ∃ rs s2,
    runs (sm_repr (T:=mem_tree)) (apply demo_sm (demo_entry 5)) empty_spec (Ok r) s1 ∧
    runs (sm_repr (T:=mem_tree)) (collectM (apply demo_sm) [other_entry]) s1 (Ok rs) s2 ∧
    runs (sm_repr (T:=mem_tree)) (apply demo_sm (demo_entry 7)) s2 (Ok r) (at_log (mkLogId 1 7) s2).
Proof.
  apply (apply_idempotent demo_sm (demo_entry 5) [other_entry] (demo_entry 7) demo_data (mkRaftTxId "c1" 7) empty_spec);
    [reflexivity|reflexivity|reflexivity|vm_compute; done|by repeat constructor|by vm_compute|].
  constructor; [|constructor]. by intros d t [= <-] [= <-].
Defined.

(** Two keys are read; another client writes one of them. *)
Lemma empty_store_wf : kv_wf (s_store (Membership:=list N) empty_spec).
Proof. by split. Qed.
Lemma txn_validates_reads_example :
  ∃ vs s0 rs s1, runs (sm_repr (T:=mem_tree)) (sm_mget_kv (Membership:=list N) demo_sm ["foo"; "bar"]) empty_spec (Ok vs) s0 ∧
    runs (sm_repr (T:=mem_tree)) (collectM (apply demo_sm) [other_entry]) s0 (Ok rs) s1 ∧
    let req := mkTxnRequest (zip_with (λ k v, seq_cond k (opt_seq v)) ["foo"; "bar"] vs) [] [] in
    ∃ ok s2, let '(resps, st2) := kv_ops (s_store s1) (if (ok : bool) then [] else []) in
      runs (sm_repr (T:=mem_tree)) (apply demo_sm (mkEntry (mkLogId 1 7) (Normal (mkLogEntry None (Transaction req))))) s1
        (Ok (AS_TxnReply (mkTxnReply ok ((λ r, mkTxnOpResponse (Some r)) <$> resps) ""))) s2 ∧
      s_store s2 = st2 ∧ (ok = true ↔ Forall2 (λ k v, kv (s_store s1) !! k = v) ["foo"; "bar"] vs).
Proof.
  apply (txn_validates_reads demo_sm empty_spec ["foo"; "bar"] [other_entry] [] [] (mkLogId 1 7)); [apply empty_store_wf|by repeat constructor..|].
  vm_compute. reflexivity.
Defined.

Definition zero_data : LogEntry :=
  mkLogEntry (Some (mkRaftTxId "c1" 0)) (UpsertKV "foo" Any (OpUpdate "bar") None).
Lemma first_serial_zero_dropped_example :
  runs (sm_repr (T:=mem_tree)) (apply demo_sm (mkEntry (mkLogId 1 5) (Normal zero_data))) empty_spec
    (Ok AS_None) (at_log (mkLogId 1 5) empty_spec).
Proof.
  apply (first_serial_zero_dropped demo_sm (mkEntry (mkLogId 1 5) (Normal zero_data)) zero_data
           (mkRaftTxId "c1" 0) empty_spec);
    [reflexivity|reflexivity|reflexivity|reflexivity|vm_compute; done].
Defined.

Lemma replicas_agree_example :
  ∃ r s',
    runs (sm_repr (T:=mem_tree)) (@apply mem_tree _ _ (λ _, 100%N) _ _ _ demo_sm (demo_entry 5)) empty_spec (Ok r) s' ∧
    runs (sm_repr (T:=mem_tree)) (@apply mem_tree _ _ (λ _, 999%N) _ _ _ demo_sm (demo_entry 5)) empty_spec (Ok r) s' ∧
    kv_immortal (s_store s').
Proof.
  apply (replicas_agree (λ _, 100%N) (λ _, 999%N)); try apply _;
    [by intros n|by intros n|by split|apply map_Forall_empty|reflexivity].
Defined.
End examples.

(** The same entry on a disk that fails at the third call. *)
Definition faulty_env : SledEnv := {|
  txn_fault n := if decide (n = 2) then Some (UStorage "disk full") else None;
  io_fault _ := None; add_context e c := c +:+ ": " +:+ e;
  utf8_error_text _ := "invalid utf-8 sequence"; str_debug s := s |}.

Section fault_example.
#[local] Existing Instances faulty_env mem_serde demo_clock.
Lemma apply_atomic_example :
  (apply demo_sm (demo_entry 5) empty_world).1 = Err (SledError "disk full") ∧
  tree (apply demo_sm (demo_entry 5) empty_world).2 = tree empty_world.
Proof.
  split; [vm_compute; reflexivity|].
  apply (apply_atomic demo_sm (demo_entry 5) empty_world (Err (SledError "disk full"))
           (apply demo_sm (demo_entry 5) empty_world).2).
  vm_compute. reflexivity.
Defined.
End fault_example.
