(* ===== verification/KeyCodec.v ===== *)
(** * Structured keys (src/common/meta/api/src/kv_api_key.rs, schema_api_keys.rs).

    The schema API stores its records under string keys made of segments separated
    by slashes, with names escaped so that a segment contains neither a slash nor a
    multi-byte character.  The file models the escaping and the key types, and shows
    that keys can be decoded, do not collide within or across types, and that the
    prefix used to list the databases of a tenant selects exactly these. *)
From S2P Require Import Prelude ByteOrder.

Inductive KVApiKeyError :=
  | FromUtf8Error (b : string)
  | InvalidSegment (i : N) (expect got : string)
  | WrongNumberOfSegments (expect : N) (got : string)
  | InvalidId (s reason : string).

(** ** Escaping *)
Definition is_plain (c : Ascii.ascii) : bool :=
  in_bytes 48 57 c || (byte_of c =? 95)%N || in_bytes 97 122 c || in_bytes 65 90 c.

(** The match arms of [hex] and [unhex] outside the digits are unreachable!() calls. *)
Definition hex (num : N) : option Ascii.ascii :=
  if (num <=? 9)%N then Some (Ascii.ascii_of_N (48 + num))
  else if (num <=? 15)%N then Some (Ascii.ascii_of_N (97 + (num - 10)))
  else None.
Definition unhex (c : Ascii.ascii) : option N :=
  if in_bytes 48 57 c then Some (byte_of c - 48)%N
  else if in_bytes 97 102 c then Some (byte_of c - 97 + 10)%N
  else None.

Definition percent : Ascii.ascii := Ascii.ascii_of_N 37.

(** The loop of [escape]; [None] is a panic. *)
Fixpoint escape_bytes (key : string) : option string :=
  match key with
  | EmptyString => Some ""
  | String c key =>
      match escape_bytes key with
      | None => None
      | Some rest =>
          if is_plain c then Some (String c rest)
          else
            match hex (byte_of c / 16), hex (byte_of c mod 16) with
            | Some h, Some l => Some (String percent (String h (String l rest)))
            | _, _ => None
            end
      end
  end.
(** The whole function: [String::from_utf8(new_key).unwrap()] at the end. *)
Definition escape_checked (key : string) : option string :=
  match escape_bytes key with
  | Some new_key => if utf8_valid new_key then Some new_key else None
  | None => None
  end.
(** The panics of [escape_checked] are unreachable ([escape_never_panics] below), so
    the function has a value on every string. *)
Definition escape (key : string) : string := default "" (escape_checked key).

(** The loop of [unescape]: indexing past the end and a byte that is not a
    hexadecimal digit panic. *)
Fixpoint unescape_bytes (key : string) : option string :=
  match key with
  | EmptyString => Some ""
  | String c key =>
      if decide (c = percent) then
        match key with
        | String h (String l key) =>
            match unhex h, unhex l, unescape_bytes key with
            | Some h, Some l, Some rest => Some (String (Ascii.ascii_of_N (h * 16 + l)) rest)
            | _, _, _ => None
            end
        | _ => None
        end
      else
        match unescape_bytes key with
        | Some rest => Some (String c rest)
        | None => None
        end
  end.
Definition unescape (key : string) : res KVApiKeyError string :=
  match unescape_bytes key with
  | Some new_key => map_err FromUtf8Error (from_utf8 new_key)
  | None => Panic
  end.

(** ** Key types *)
Class KVApiKey (K : Type) := {
  KEY_PREFIX : string;
  to_key : K → string;
  from_key : string → res KVApiKeyError K;
}.

Definition slash : Ascii.ascii := Ascii.ascii_of_N 47.

Definition check_segment_absent (elt : option string) (i : N) (key : string) : res KVApiKeyError unit :=
  match elt with
  | Some _ => Err (WrongNumberOfSegments i key)
  | None => Ok tt
  end.
Definition check_segment_present (elt : option string) (i : N) (key : string)
    : res KVApiKeyError string :=
  match elt with
  | Some s => Ok s
  | None => Err (WrongNumberOfSegments (i + 1) key)
  end.
Definition check_segment (elt : string) (i : N) (expect : string) : res KVApiKeyError unit :=
  if decide (elt = expect) then Ok tt else Err (InvalidSegment i expect elt).

(** The text of [std::num::ParseIntError] for a string that is not a [u64]. *)
Fixpoint parse_digits_error (acc : N) (s : string) : string :=
  match s with
  | EmptyString => ""
  | String c s =>
      match digit_of c with
      | None => "invalid digit found in string"
      | Some d =>
          if (acc * 10 + d <? u64_modulus)%N then parse_digits_error (acc * 10 + d) s
          else "number too large to fit in target type"
      end
  end.
Definition parse_u64_error (s : string) : string :=
  match s with
  | EmptyString => "cannot parse integer from empty string"
  | String c rest =>
      if decide (c = Ascii.ascii_of_N 43) then
        match rest with
        | EmptyString => "invalid digit found in string"
        | _ => parse_digits_error 0 rest
        end
      else parse_digits_error 0 s
  end.

Definition decode_id (s : string) : res KVApiKeyError N :=
  match parse_u64 s with
  | Some id => Ok id
  | None => Err (InvalidId s (parse_u64_error s))
  end.

Definition PREFIX_DATABASE : string := "__fd_database".
Definition PREFIX_DATABASE_BY_ID : string := "__fd_database_by_id".
Definition PREFIX_TABLE : string := "__fd_table".
Definition PREFIX_TABLE_BY_ID : string := "__fd_table_by_id".
Definition PREFIX_ID_GEN : string := "__fd_id_gen".

Record DatabaseNameIdent := mkDatabaseNameIdent { tenant : string; db_name : string }.
Record DatabaseId := mkDatabaseId { db_id : N }.
Record DBIdTableName := mkDBIdTableName { dbt_db_id : N; table_name : string }.
Record TableId := mkTableId { table_id : N }.
Inductive DatabaseIdGen := mkDatabaseIdGen.
Inductive TableIdGen := mkTableIdGen.

(** [elts.next()] of the iterator over the segments. *)
Definition next (elts : list string) : option string * list string := (head elts, tail elts).

#[export] Instance DatabaseNameIdent_key : KVApiKey DatabaseNameIdent := {
  KEY_PREFIX := PREFIX_DATABASE;
  to_key self :=
    PREFIX_DATABASE +:+ "/" +:+ escape (tenant self) +:+ "/" +:+ escape (db_name self);
  from_key s :=
    let (e, elts) := next (split_on slash s) in
    let? pref := check_segment_present e 0 s in
    let? _ := check_segment pref 0 PREFIX_DATABASE in
    let (e, elts) := next elts in
    let? tenant := check_segment_present e 1 s in
    let (e, elts) := next elts in
    let? db_name := check_segment_present e 2 s in
    let (e, elts) := next elts in
    let? _ := check_segment_absent e 3 s in
    let? tenant := unescape tenant in
    let? db_name := unescape db_name in
    Ok (mkDatabaseNameIdent tenant db_name);
}.

#[export] Instance DatabaseId_key : KVApiKey DatabaseId := {
  KEY_PREFIX := PREFIX_DATABASE_BY_ID;
  to_key self := PREFIX_DATABASE_BY_ID +:+ "/" +:+ pretty (db_id self);
  from_key s :=
    let (e, elts) := next (split_on slash s) in
    let? pref := check_segment_present e 0 s in
    let? _ := check_segment pref 0 PREFIX_DATABASE_BY_ID in
    let (e, elts) := next elts in
    let? db_id := check_segment_present e 1 s in
    let? db_id := decode_id db_id in
    let (e, elts) := next elts in
    let? _ := check_segment_absent e 2 s in
    Ok (mkDatabaseId db_id);
}.

#[export] Instance DBIdTableName_key : KVApiKey DBIdTableName := {
  KEY_PREFIX := PREFIX_TABLE;
  to_key self :=
    PREFIX_TABLE +:+ "/" +:+ pretty (dbt_db_id self) +:+ "/" +:+ escape (table_name self);
  from_key s :=
    let (e, elts) := next (split_on slash s) in
    let? pref := check_segment_present e 0 s in
    let? _ := check_segment pref 0 PREFIX_TABLE in
    let (e, elts) := next elts in
    let? db_id := check_segment_present e 1 s in
    let? db_id := decode_id db_id in
    let (e, elts) := next elts in
    let? tb_name := check_segment_present e 2 s in
    let? tb_name := unescape tb_name in
    let (e, elts) := next elts in
    let? _ := check_segment_absent e 3 s in
    Ok (mkDBIdTableName db_id tb_name);
}.

#[export] Instance TableId_key : KVApiKey TableId := {
  KEY_PREFIX := PREFIX_TABLE_BY_ID;
  to_key self := PREFIX_TABLE_BY_ID +:+ "/" +:+ pretty (table_id self);
  from_key s :=
    let (e, elts) := next (split_on slash s) in
    let? pref := check_segment_present e 0 s in
    let? _ := check_segment pref 0 PREFIX_TABLE_BY_ID in
    let (e, elts) := next elts in
    let? tb_id := check_segment_present e 1 s in
    let? tb_id := decode_id tb_id in
    let (e, elts) := next elts in
    let? _ := check_segment_absent e 2 s in
    Ok (mkTableId tb_id);
}.

(** [unimplemented!()] panics. *)
#[export] Instance DatabaseIdGen_key : KVApiKey DatabaseIdGen := {
  KEY_PREFIX := PREFIX_ID_GEN;
  to_key _ := PREFIX_ID_GEN +:+ "/database_id";
  from_key _ := Panic;
}.
#[export] Instance TableIdGen_key : KVApiKey TableIdGen := {
  KEY_PREFIX := PREFIX_ID_GEN;
  to_key _ := PREFIX_ID_GEN +:+ "/table_id";
  from_key _ := Panic;
}.

(** ** Escaping is injective and produces safe segments *)

(** The characters of an escaped segment. *)
Definition is_safe (c : Ascii.ascii) : bool := is_plain c || bool_decide (c = percent).

(** What the loop of [escape] appends for one byte. *)
Definition escape_char (c : Ascii.ascii) : string :=
  if is_plain c then String c ""
  else
    match hex (byte_of c / 16), hex (byte_of c mod 16) with
    | Some h, Some l => String percent (String h (String l ""))
    | _, _ => ""
    end.
Fixpoint escaped (s : string) : string :=
  match s with EmptyString => "" | String c s => escape_char c +:+ escaped s end.

(** The facts about a single byte, checked for all 256 of them. *)
Lemma plain_char c : is_plain c = true → c ≠ percent.
Proof. intros Hc ->. by vm_compute in Hc. Qed.
Lemma special_char c :
  is_plain c = false →
  match hex (byte_of c / 16), hex (byte_of c mod 16) with
  | Some h, Some l =>
      is_plain h = true ∧ is_plain l = true ∧
      match unhex h, unhex l with
      | Some h, Some l => Ascii.ascii_of_N (h * 16 + l) = c
      | _, _ => False
      end
  | _, _ => False
  end.
Proof. destruct c as [[] [] [] [] [] [] [] []]; vm_compute; intros; repeat split; discriminate || done. Qed.
Lemma safe_char c : is_safe c = true → in_bytes 0 127 c = true ∧ c ≠ slash.
Proof. destruct c as [[] [] [] [] [] [] [] []]; vm_compute; intros; split; discriminate || done. Qed.

Lemma escape_char_safe c : str_all is_safe (escape_char c) = true.
Proof.
  unfold escape_char, is_safe. destruct (is_plain c) eqn:Hc; [by simpl; rewrite Hc|].
  pose proof (special_char c Hc) as Hs. destruct (hex _) as [h|]; [|done].
  destruct (hex _) as [l|]; [|done]. destruct Hs as (Hh & Hl & _). simpl. by rewrite Hh, Hl.
Qed.
Lemma escaped_safe s : str_all is_safe (escaped s) = true.
Proof.
  induction s as [|c s IH]; [done|]. simpl. by rewrite str_all_app, escape_char_safe, IH.
Qed.

Lemma escape_bytes_escaped s : escape_bytes s = Some (escaped s).
Proof.
  induction s as [|c s IH]; [done|]. cbn [escape_bytes escaped]. rewrite IH.
  unfold escape_char. destruct (is_plain c) eqn:Hc; [done|].
  pose proof (special_char c Hc) as Hs. destruct (hex _) as [h|]; [|done].
  destruct (hex _) as [l|]; [|done]. by rewrite !string_app_cons.
Qed.

Lemma safe_utf8 s : str_all is_safe s = true → utf8_valid s = true.
Proof.
  intros Hs. apply utf8_valid_ascii. eapply str_all_impl; [|done].
  intros c Hc. by apply safe_char in Hc as [? _].
Qed.
Lemma escape_checked_escaped s : escape_checked s = Some (escaped s).
Proof.
  unfold escape_checked. by rewrite escape_bytes_escaped, safe_utf8 by apply escaped_safe.
Qed.
Lemma escape_escaped s : escape s = escaped s.
Proof. unfold escape. by rewrite escape_checked_escaped. Qed.

Lemma unescape_bytes_char c s r :
  unescape_bytes s = Some r → unescape_bytes (escape_char c +:+ s) = Some (String c r).
Proof.
  intros Hs. unfold escape_char. destruct (is_plain c) eqn:Hc.
  - rewrite string_app_cons. cbn [unescape_bytes]. rewrite decide_False by by apply plain_char.
    change ("" +:+ s) with s. by rewrite Hs.
  - pose proof (special_char c Hc) as Hsp. destruct (hex _) as [h|]; [|done].
    destruct (hex _) as [l|]; [|done]. destruct Hsp as (_ & _ & Hx).
    rewrite !string_app_cons. cbn [unescape_bytes]. rewrite decide_True by done.
    change ("" +:+ s) with s. rewrite Hs.
    destruct (unhex h); [|done]. destruct (unhex l); [|done]. by rewrite Hx.
Qed.
Lemma unescape_bytes_escaped s : unescape_bytes (escaped s) = Some s.
Proof. induction s as [|c s IH]; [done|]. cbn [escaped]. by apply unescape_bytes_char. Qed.

Lemma unescape_escape s : utf8_valid s = true → unescape (escape s) = Ok s.
Proof.
  intros Hs. unfold unescape. rewrite escape_escaped, unescape_bytes_escaped.
  unfold from_utf8. by rewrite Hs.
Qed.
Lemma escape_inj a b : escape a = escape b → a = b.
Proof.
  rewrite !escape_escaped. intros Heq. pose proof (unescape_bytes_escaped a) as Ha.
  rewrite Heq, unescape_bytes_escaped in Ha. by simplify_eq.
Qed.

(** A segment contains no slash. *)
Lemma escape_no_slash s : str_all (λ x, negb (bool_decide (x = slash))) (escape s) = true.
Proof.
  rewrite escape_escaped. eapply str_all_impl; [|apply escaped_safe].
  intros c Hc. apply safe_char in Hc as [_ Hc]. by rewrite bool_decide_false.
Qed.
Lemma pretty_no_slash (n : N) : str_all (λ x, negb (bool_decide (x = slash))) (pretty n) = true.
Proof.
  eapply str_all_impl; [|apply pretty_digits]. intros c Hc. rewrite bool_decide_false; [done|].
  intros ->. by vm_compute in Hc.
Qed.

(** ** Keys decode to what they encode *)
Arguments escape : simpl never.
Arguments unescape : simpl never.
Arguments decode_id : simpl never.

Class KVApiKeyLaws (K : Type) `{KVApiKey K} := {
  (** the values a Rust program can build *)
  key_wf : K → Prop;
  key_roundtrip k : key_wf k → from_key (to_key k) = Ok k;
  key_utf8 k : utf8_valid (to_key k) = true;
  key_head k : head (split_on slash (to_key k)) = Some KEY_PREFIX;
}.

Lemma slash_app s : "/" +:+ s = String slash s.
Proof. done. Qed.

Lemma split_on_segments a b :
  str_all (λ x, negb (bool_decide (x = slash))) a = true →
  split_on slash (a +:+ "/" +:+ b) = a :: split_on slash b.
Proof. intros Ha. rewrite slash_app. by apply split_on_app. Qed.

Definition ascii_str (s : string) : bool := str_all (in_bytes 0 127) s.
Lemma escape_ascii s : ascii_str (escape s) = true.
Proof.
  rewrite escape_escaped. eapply str_all_impl; [|apply escaped_safe].
  intros c Hc. by apply safe_char in Hc as [? _].
Qed.
Lemma pretty_ascii (n : N) : ascii_str (pretty n) = true.
Proof.
  eapply str_all_impl; [|apply pretty_digits]. unfold in_bytes. intros c Hc.
  unfold is_digit, in_bytes in Hc. apply andb_true_iff in Hc as [H1 H2]. nbool. apply andb_true_iff.
  split; nbool; lia.
Qed.
Lemma ascii_app a b : ascii_str a = true → ascii_str b = true → ascii_str (a +:+ b) = true.
Proof. unfold ascii_str. intros Ha Hb. by rewrite str_all_app, Ha, Hb. Qed.

Create HintDb segments discriminated.
#[export] Hint Resolve escape_no_slash pretty_no_slash escape_ascii pretty_ascii ascii_app : segments.
#[export] Hint Extern 1 (str_all _ _ = true) => reflexivity : segments.
#[export] Hint Extern 1 (ascii_str _ = true) => reflexivity : segments.

(** Splits a key into its segments. *)
Ltac split_key :=
  unfold from_key, to_key, DatabaseNameIdent_key, DatabaseId_key, DBIdTableName_key, TableId_key, next;
  repeat first [rewrite split_on_segments by eauto with segments
               | rewrite split_on_no_sep by eauto with segments].
Ltac solve_key :=
  [> .. | intros k; apply utf8_valid_ascii; change (ascii_str (to_key k) = true); simpl to_key;
         repeat (apply ascii_app; [eauto with segments|]); eauto with segments
        | intros k; split_key; reflexivity ].

Lemma decode_id_pretty n : (n < u64_modulus)%N → decode_id (pretty n) = Ok n.
Proof. intros Hn. unfold decode_id. by rewrite parse_u64_pretty. Qed.

#[export] Instance DatabaseNameIdent_laws : KVApiKeyLaws DatabaseNameIdent.
Proof.
  refine {| key_wf k := utf8_valid (tenant k) = true ∧ utf8_valid (db_name k) = true |}; solve_key.
  intros [t d] [Ht Hd]. split_key. simpl. by rewrite !unescape_escape.
Defined.
#[export] Instance DatabaseId_laws : KVApiKeyLaws DatabaseId.
Proof.
  refine {| key_wf k := (db_id k < u64_modulus)%N |}; solve_key.
  intros [n] Hn. split_key. simpl. by rewrite decode_id_pretty.
Defined.
#[export] Instance DBIdTableName_laws : KVApiKeyLaws DBIdTableName.
Proof.
  refine {| key_wf k := (dbt_db_id k < u64_modulus)%N ∧ utf8_valid (table_name k) = true |}; solve_key.
  intros [n t] [Hn Ht]. split_key. simpl. by rewrite decode_id_pretty; simpl; rewrite ?unescape_escape.
Defined.
#[export] Instance TableId_laws : KVApiKeyLaws TableId.
Proof.
  refine {| key_wf k := (table_id k < u64_modulus)%N |}; solve_key.
  intros [n] Hn. split_key. simpl. by rewrite decode_id_pretty.
Defined.

(** ** The keys of the schema API, all kinds together *)
Inductive schema_key :=
  | KDatabase (k : DatabaseNameIdent)
  | KDatabaseId (k : DatabaseId)
  | KTable (k : DBIdTableName)
  | KTableId (k : TableId)
  | KDatabaseIdGen (k : DatabaseIdGen)
  | KTableIdGen (k : TableIdGen).

Definition schema_to_key (k : schema_key) : string :=
  match k with
  | KDatabase k => to_key k
  | KDatabaseId k => to_key k
  | KTable k => to_key k
  | KTableId k => to_key k
  | KDatabaseIdGen k => to_key k
  | KTableIdGen k => to_key k
  end.

Definition schema_segments (k : schema_key) : list string :=
  match k with
  | KDatabase k => [PREFIX_DATABASE; escape (tenant k); escape (db_name k)]
  | KDatabaseId k => [PREFIX_DATABASE_BY_ID; pretty (db_id k)]
  | KTable k => [PREFIX_TABLE; pretty (dbt_db_id k); escape (table_name k)]
  | KTableId k => [PREFIX_TABLE_BY_ID; pretty (table_id k)]
  | KDatabaseIdGen _ => [PREFIX_ID_GEN; "database_id"]
  | KTableIdGen _ => [PREFIX_ID_GEN; "table_id"]
  end.

Lemma schema_key_segments k : split_on slash (schema_to_key k) = schema_segments k.
Proof. destruct k as [k|k|k|k|[]|[]]; unfold schema_to_key; [split_key; done..|done|done]. Qed.

Lemma schema_key_utf8 k : utf8_valid (schema_to_key k) = true.
Proof. destruct k as [k|k|k|k|[]|[]]; [apply key_utf8..|done|done]. Qed.

Lemma schema_segments_inj k1 k2 : schema_segments k1 = schema_segments k2 → k1 = k2.
Proof.
  destruct k1 as [[t1 d1]|[i1]|[i1 t1]|[i1]|[]|[]], k2 as [[t2 d2]|[i2]|[i2 t2]|[i2]|[]|[]]; simpl;
    unfold PREFIX_DATABASE, PREFIX_DATABASE_BY_ID, PREFIX_TABLE, PREFIX_TABLE_BY_ID, PREFIX_ID_GEN;
    intros Heq; try done; injection Heq; clear Heq; intros;
    repeat match goal with
      | H : escape _ = escape _ |- _ => apply escape_inj in H; subst
      | H : pretty ?a = pretty ?b |- _ => apply (inj pretty) in H; subst
      end; done.
Qed.

Lemma schema_to_key_inj k1 k2 : schema_to_key k1 = schema_to_key k2 → k1 = k2.
Proof.
  intros Heq. apply schema_segments_inj. by rewrite <-!schema_key_segments, Heq.
Qed.

Lemma prefix_app p s : String.prefix p s = true → ∃ r, s = p +:+ r.
Proof.
  revert s. induction p as [|c p IH]; intros s; [by exists s|].
  destruct s as [|c' s]; [done|]. simpl. destruct (Ascii.ascii_dec c c') as [<-|]; [|done].
  intros (r & ->)%IH. exists r. by rewrite string_app_cons.
Qed.
Lemma app_prefix p r : String.prefix p (p +:+ r) = true.
Proof.
  induction p as [|c p IH]; [by destruct r|]. rewrite string_app_cons. simpl. by destruct (Ascii.ascii_dec c c).
Qed.

Lemma prefix_segments a b s rest :
  str_all (λ x, negb (bool_decide (x = slash))) a = true →
  str_all (λ x, negb (bool_decide (x = slash))) b = true →
  String.prefix (a +:+ "/" +:+ b +:+ "/") s = true → split_on slash s = rest →
  ∃ rest', rest = a :: b :: rest'.
Proof.
  intros Ha Hb (r & ->)%prefix_app <-. rewrite !string_app_assoc.
  rewrite split_on_segments by done. rewrite split_on_segments by done. eauto.
Qed.

(** The keys listed by the prefix of a tenant, and of a database. *)
Lemma database_prefix t k :
  String.prefix (to_key (mkDatabaseNameIdent t "")) (schema_to_key k) = true ↔
  ∃ d, k = KDatabase (mkDatabaseNameIdent t d).
Proof.
  change (to_key (mkDatabaseNameIdent t "")) with
    (PREFIX_DATABASE +:+ "/" +:+ escape t +:+ "/" +:+ escape "").
  change (escape "") with "". rewrite string_app_nil. split.
  - intros Hp. pose proof (schema_key_segments k) as Hs.
    destruct (prefix_segments PREFIX_DATABASE _ _ _ eq_refl (escape_no_slash t) Hp Hs) as (r & Hr).
    destruct k as [[t' d]|[]|[]|[]|[]|[]]; try done. exists d. simpl in Hr. injection Hr as Ht _.
    by apply escape_inj in Ht as ->.
  - intros (d & ->). simpl. rewrite <-!string_app_assoc. apply app_prefix.
Qed.
Lemma table_prefix i k :
  String.prefix (to_key (mkDBIdTableName i "")) (schema_to_key k) = true ↔
  ∃ t, k = KTable (mkDBIdTableName i t).
Proof.
  change (to_key (mkDBIdTableName i "")) with
    (PREFIX_TABLE +:+ "/" +:+ pretty i +:+ "/" +:+ escape "").
  change (escape "") with "". rewrite string_app_nil. split.
  - intros Hp. pose proof (schema_key_segments k) as Hs.
    destruct (prefix_segments PREFIX_TABLE _ _ _ eq_refl (pretty_no_slash i) Hp Hs) as (r & Hr).
    destruct k as [[]|[]|[i' t]|[]|[]|[]]; try done. exists t. simpl in Hr. injection Hr as Ht _.
    by apply (inj pretty) in Ht as ->.
  - intros (d & ->). simpl. rewrite <-!string_app_assoc. apply app_prefix.
Qed.

(** Escaping a name and unescaping it gives the name back; escaping never
    panics, and the result has no slash, so that it is one segment of a key. *)
Lemma escape_roundtrip s :
  utf8_valid s = true →
  escape_checked s = Some (escape s) ∧ unescape (escape s) = Ok s ∧
  split_on slash (escape s) = [escape s].
Proof.
  intros Hs. split_and!; [by rewrite escape_escaped, escape_checked_escaped|by apply unescape_escape|].
  apply split_on_no_sep, escape_no_slash.
Qed.
(** C39: Every structured key of the schema API is decoded from its string form. *)
Theorem schema_keys_roundtrip (d : DatabaseNameIdent) (di : DatabaseId) (t : DBIdTableName) (ti : TableId) :
  utf8_valid (tenant d) = true → utf8_valid (db_name d) = true → (db_id di < u64_modulus)%N →
  (dbt_db_id t < u64_modulus)%N → utf8_valid (table_name t) = true → (table_id ti < u64_modulus)%N →
  from_key (to_key d) = Ok d ∧ from_key (to_key di) = Ok di ∧
  from_key (to_key t) = Ok t ∧ from_key (to_key ti) = Ok ti.
Proof. intros. split_and!; by apply key_roundtrip. Qed.
Lemma schema_keys_roundtrip_example :
  to_key (mkDBIdTableName 7 "a b") = "__fd_table/7/a%20b" ∧
  from_key (to_key (mkDatabaseNameIdent "t1" "db/1")) = Ok (mkDatabaseNameIdent "t1" "db/1") ∧
  from_key (to_key (mkDatabaseId 7)) = Ok (mkDatabaseId 7) ∧
  from_key (to_key (mkDBIdTableName 7 "a b")) = Ok (mkDBIdTableName 7 "a b") ∧
  from_key (to_key (mkTableId 9)) = Ok (mkTableId 9).
Proof.
  split; [vm_compute; reflexivity|].
  apply (schema_keys_roundtrip (mkDatabaseNameIdent "t1" "db/1") (mkDatabaseId 7) (mkDBIdTableName 7 "a b")
           (mkTableId 9)); vm_compute; reflexivity.
Defined.

(** The string keys of the schema API do not collide: two keys of the same or of
    different kinds have the same string form only when they are the same key.  The
    prefix that lists the databases of a tenant selects, among all keys of the schema
    API, exactly the databases of that tenant; likewise for the tables of a database. *)
Theorem schema_keys_distinct t i k :
  (∀ k', schema_to_key k = schema_to_key k' ↔ k = k') ∧
  (String.prefix (to_key (mkDatabaseNameIdent t "")) (schema_to_key k) = true ↔
     ∃ d, k = KDatabase (mkDatabaseNameIdent t d)) ∧
  (String.prefix (to_key (mkDBIdTableName i "")) (schema_to_key k) = true ↔
     ∃ n, k = KTable (mkDBIdTableName i n)).
Proof.
  split_and!; [|apply database_prefix|apply table_prefix].
  intros k'. split; [apply schema_to_key_inj|by intros ->].
Qed.
