(* ===== verification/SchemaApi.v ===== *)
(** * The schema API (src/common/meta/api/src/schema_api_impl.rs).

    Databases and tables on top of the key-value interface.  A database is two
    records, (tenant, name) -> id and id -> meta, and so is a table; every change is
    one key-value transaction whose conditions name the sequence numbers of the
    records that were read before, retried until it succeeds.  The code is generic in
    the implementation of [KVApi]; the retry loops take the number of rounds they may
    run as an argument and return [None] when it is used up. *)
From S2P Require Import Prelude ByteOrder MetaTypes KvApi KeyCodec.

(** ** Requests and replies: database.rs, table.rs *)
Section types.
Context {DateTime DataSchema : Type}.

Record DatabaseMeta := mkDatabaseMeta {
  db_engine : string;
  db_engine_options : gmap string string;
  db_options : gmap string string;
  db_created_on : DateTime;
  db_updated_on : DateTime;
  db_comment : string;
}.
Record TableMeta := mkTableMeta {
  schema : DataSchema;
  engine : string;
  engine_options : gmap string string;
  options : gmap string string;
  order_keys : option string;
  created_on : DateTime;
  updated_on : DateTime;
  comment : string;
}.
End types.
Arguments DatabaseMeta DateTime : clear implicits.
Arguments TableMeta DateTime DataSchema : clear implicits.

Record DatabaseIdent := mkDatabaseIdent { dbi_db_id : N; dbi_seq : N }.
Record DatabaseInfo (DateTime : Type) := mkDatabaseInfo {
  dbinfo_ident : DatabaseIdent; dbinfo_name_ident : DatabaseNameIdent; dbinfo_meta : DatabaseMeta DateTime }.
Arguments mkDatabaseInfo {DateTime} dbinfo_ident dbinfo_name_ident dbinfo_meta.

Record TableIdent := mkTableIdent { ti_table_id : N; ti_seq : N }.
Record TableInfo (DateTime DataSchema : Type) := mkTableInfo {
  tinfo_ident : TableIdent; tinfo_desc : string; tinfo_name : string;
  tinfo_meta : TableMeta DateTime DataSchema }.
Arguments mkTableInfo {DateTime DataSchema} tinfo_ident tinfo_desc tinfo_name tinfo_meta.

Record TableNameIdent := mkTableNameIdent { tn_tenant : string; tn_db_name : string; tn_table_name : string }.
Definition db_name_ident (self : TableNameIdent) : DatabaseNameIdent :=
  mkDatabaseNameIdent (tn_tenant self) (tn_db_name self).

Definition DatabaseNameIdent_to_string (self : DatabaseNameIdent) : string :=
  "'" +:+ tenant self +:+ "'/'" +:+ db_name self +:+ "'".
Definition TableNameIdent_to_string (self : TableNameIdent) : string :=
  "'" +:+ tn_tenant self +:+ "'.'" +:+ tn_db_name self +:+ "'.'" +:+ tn_table_name self +:+ "'".
Definition TableId_to_string (self : TableId) : string := pretty (table_id self).

Record CreateDatabaseReq (DateTime : Type) := mkCreateDatabaseReq {
  cd_if_not_exists : bool; cd_name_ident : DatabaseNameIdent; cd_meta : DatabaseMeta DateTime }.
Arguments mkCreateDatabaseReq {DateTime} cd_if_not_exists cd_name_ident cd_meta.
Arguments cd_if_not_exists {DateTime} c.
Arguments cd_name_ident {DateTime} c.
Arguments cd_meta {DateTime} c.
Record CreateDatabaseReply := mkCreateDatabaseReply { cdr_db_id : N }.
Record DropDatabaseReq := mkDropDatabaseReq { dd_if_exists : bool; dd_name_ident : DatabaseNameIdent }.
Inductive DropDatabaseReply := mkDropDatabaseReply.
Record RenameDatabaseReq := mkRenameDatabaseReq {
  rd_if_exists : bool; rd_name_ident : DatabaseNameIdent; rd_new_db_name : string }.
Inductive RenameDatabaseReply := mkRenameDatabaseReply.
Record GetDatabaseReq := mkGetDatabaseReq { gd_inner : DatabaseNameIdent }.
Record ListDatabaseReq := mkListDatabaseReq { ld_tenant : string }.

Record CreateTableReq (DateTime DataSchema : Type) := mkCreateTableReq {
  ct_if_not_exists : bool; ct_name_ident : TableNameIdent; ct_table_meta : TableMeta DateTime DataSchema }.
Arguments mkCreateTableReq {DateTime DataSchema} ct_if_not_exists ct_name_ident ct_table_meta.
Arguments ct_if_not_exists {DateTime DataSchema} c.
Arguments ct_name_ident {DateTime DataSchema} c.
Arguments ct_table_meta {DateTime DataSchema} c.
Record CreateTableReply := mkCreateTableReply { ctr_table_id : N }.
Record DropTableReq := mkDropTableReq { dt_if_exists : bool; dt_name_ident : TableNameIdent }.
Inductive DropTableReply := mkDropTableReply.
Record RenameTableReq := mkRenameTableReq {
  rt_if_exists : bool; rt_name_ident : TableNameIdent; rt_new_db_name : string; rt_new_table_name : string }.
Record RenameTableReply := mkRenameTableReply { rtr_table_id : N }.
Record GetTableReq := mkGetTableReq { gt_inner : TableNameIdent }.
Record ListTableReq := mkListTableReq { lt_inner : DatabaseNameIdent }.
(** A [HashMap]: one entry per option, in no particular order. *)
Record UpsertTableOptionReq := mkUpsertTableOptionReq {
  uto_table_id : N; uto_seq : MatchSeq; uto_options : gmap string (option string) }.
Inductive UpsertTableOptionReply := mkUpsertTableOptionReply.
(** [UpsertTableOptionReq::new]. *)
Definition UpsertTableOptionReq_new (table_ident : TableIdent) (key value : string) : UpsertTableOptionReq :=
  mkUpsertTableOptionReq (ti_table_id table_ident) (Exact (ti_seq table_ident)) {[key := Some value]}.

(** ** Codecs

    serde_json on a [u64] and on an error, anyerror's [AnyError::new], and prost's
    [Message] are not part of the repository; [FromToProto] is the conversion of a
    type to its protobuf message. *)
Class MetaCodec := {
  json_of_u64 : N → res any_error bytes;
  u64_of_json : bytes → res any_error N;
  meta_error_of_json : string → option MetaError;
  any_error_of_meta : MetaError → any_error;
  any_error_of_key : KVApiKeyError → any_error;
}.
Class Message (PB : Type) := {
  msg_encode : PB → res any_error bytes;
  msg_decode : bytes → res any_error PB;
}.
Class FromToProto (PB T : Type) := {
  to_pb : T → res any_error PB;
  from_pb : PB → res any_error T;
}.

Section codecs.
Context `{MetaCodec}.
Definition meta_encode_err (e : any_error) : MetaError := EncodeError e.
Definition serialize_id (id : N) : res MetaError bytes := map_err meta_encode_err (json_of_u64 id).
Definition deserialize_id (v : bytes) : res MetaError N := map_err meta_encode_err (u64_of_json v).
Definition serialize_struct {PB T} `{Message PB, FromToProto PB T} (value : T) : res MetaError bytes :=
  let? p := map_err meta_encode_err (to_pb value) in
  map_err meta_encode_err (msg_encode p).
Definition deserialize_struct {PB T} `{Message PB, FromToProto PB T} (buf : bytes) : res MetaError T :=
  let? p := map_err meta_encode_err (msg_decode buf) in
  map_err meta_encode_err (from_pb p).
End codecs.

(** ** Helpers *)
Definition db_has_to_exist (seq : N) (db_name_ident : DatabaseNameIdent) (msg : string)
    : res MetaError unit :=
  if (seq =? 0)%N then
    Err (ME_AppError (AE_UnknownDatabase (mkUnknownDatabase (db_name db_name_ident)
      (msg +:+ ": " +:+ DatabaseNameIdent_to_string db_name_ident))))
  else Ok tt.

Definition table_has_to_exist (seq : N) (name_ident : TableNameIdent) (ctx : string)
    : res MetaError unit :=
  if (seq =? 0)%N then
    Err (ME_AppError (AE_UnknownTable (mkUnknownTable (tn_table_name name_ident)
      (ctx +:+ ": " +:+ TableNameIdent_to_string name_ident))))
  else Ok tt.

Definition db_has_to_not_exist (seq : N) (name_ident : DatabaseNameIdent) (ctx : string)
    : res MetaError unit :=
  if (seq =? 0)%N then Ok tt
  else
    Err (ME_AppError (AE_DatabaseAlreadyExists (mkDatabaseAlreadyExists (db_name name_ident)
      (ctx +:+ ": " +:+ DatabaseNameIdent_to_string name_ident)))).

Definition table_has_to_not_exist (seq : N) (name_ident : TableNameIdent) (ctx : string)
    : res MetaError unit :=
  if (seq =? 0)%N then Ok tt
  else
    Err (ME_AppError (AE_TableAlreadyExists (mkTableAlreadyExists (tn_table_name name_ident)
      (ctx +:+ ": " +:+ TableNameIdent_to_string name_ident)))).

Definition txn_cond_seq {K} `{KVApiKey K} (key : K) (op : ConditionResult) (seq : N)
    : res MetaError TxnCondition :=
  Ok (mkTxnCondition (to_key key) (Some (TargetSeq seq)) (ConditionResult_to_i32 op)).
Definition txn_op_put {K} `{KVApiKey K} (key : K) (value : bytes) : res MetaError TxnOp :=
  Ok (mkTxnOp (Some (ReqPut (mkTxnPutRequest (to_key key) value true)))).
Definition txn_op_del {K} `{KVApiKey K} (key : K) : res MetaError TxnOp :=
  Ok (mkTxnOp (Some (ReqDelete (mkTxnDeleteRequest (to_key key) true)))).

(** [loop { body }]: a round that does not return starts the next one. *)
Fixpoint retry {W E A} (fuel : nat) (body : M W E (option A)) : M W E (option A) :=
  match fuel with
  | O => ret None
  | S fuel =>
      let! r := body in
      match r with Some a => ret (Some a) | None => retry fuel body end
  end.

Section api.
Context {W : Type} `{KVApi W, MetaCodec} {DateTime DataSchema : Type}.
Abbreviation DbMeta := (DatabaseMeta DateTime).
Abbreviation TbMeta := (TableMeta DateTime DataSchema).
Context {PbDb PbTb : Type} `{Message PbDb, FromToProto PbDb DbMeta, Message PbTb, FromToProto PbTb TbMeta}.
Abbreviation API A := (M W MetaError A).

Definition get_id_value {K} `{KVApiKey K} (name_ident : K) : API (N * N) :=
  let! r := get_kv (to_key name_ident) in
  match r with
  | Some seq_v => let! id := lift (deserialize_id (data seq_v)) in ret (seq seq_v, id)
  | None => ret (0, 0)%N
  end.

Definition list_id_value {K} `{KVApiKey K} (key : K) : API (list K * list N) :=
  let! r := prefix_list_kv (to_key key) in
  let! pairs := lift (res_mapM (λ '(str_key, seq_id),
    let? id := map_err (λ e, meta_encode_err (any_error_of_meta e)) (deserialize_id (data seq_id)) in
    let? struct_key := map_err (λ e, meta_encode_err (any_error_of_key e)) (from_key str_key) in
    Ok (struct_key, id)) r) in
  ret (pairs.*1, pairs.*2).

Definition get_struct_value {K PB T} `{KVApiKey K, Message PB, FromToProto PB T} (k : K) : API (N * option T) :=
  let! r := get_kv (to_key k) in
  match r with
  | Some seq_v => let! v := lift (deserialize_struct (data seq_v)) in ret (seq seq_v, Some v)
  | None => ret (0%N, None)
  end.

Definition fetch_id {K} `{KVApiKey K} (generator : K) : API N :=
  let! r := upsert_kv (mkUpsertKVAction (to_key generator) Any (OpUpdate "") None) in
  let! seq_v := lift (unwrap (result r)) in
  ret (seq seq_v).

Definition send_txn (txn_req : TxnRequest) : API (bool * list TxnOpResponse) :=
  let! tx_reply := kv_transaction txn_req in
  lift (TxnReply_into meta_error_of_json tx_reply).

Definition get_db_or_err (name_key : DatabaseNameIdent) (msg : string) : API (N * N * N * DbMeta) :=
  let! '(db_id_seq, db_id) := get_id_value name_key in
  let! _ := lift (db_has_to_exist db_id_seq name_key msg) in
  let id_key := mkDatabaseId db_id in
  let! '(db_meta_seq, db_meta) := get_struct_value (PB:=PbDb) (T:=DbMeta) id_key in
  let! _ := lift (db_has_to_exist db_meta_seq name_key msg) in
  let! db_meta := lift (unwrap db_meta) in
  ret (db_id_seq, db_id, db_meta_seq, db_meta).

(** ** Databases *)
Definition create_database (fuel : nat) (req : CreateDatabaseReq DateTime)
    : API (option CreateDatabaseReply) :=
  let name_key := cd_name_ident req in
  retry fuel (
    let! '(db_id_seq, db_id) := get_id_value name_key in
    if (0 <? db_id_seq)%N then
      if cd_if_not_exists req then ret (Some (mkCreateDatabaseReply db_id))
      else throw (ME_AppError (AE_DatabaseAlreadyExists (mkDatabaseAlreadyExists (db_name name_key)
             ("create db: tenant: " +:+ tenant name_key))))
    else
      let! db_id := fetch_id mkDatabaseIdGen in
      let id_key := mkDatabaseId db_id in
      let! txn_req := lift (
        let? c1 := txn_cond_seq name_key CR_Eq 0 in
        let? v1 := serialize_id db_id in
        let? o1 := txn_op_put name_key v1 in
        let? v2 := serialize_struct (PB:=PbDb) (cd_meta req) in
        let? o2 := txn_op_put id_key v2 in
        Ok (mkTxnRequest [c1] [o1; o2] [])) in
      let! '(succ, _) := send_txn txn_req in
      if (succ : bool) then ret (Some (mkCreateDatabaseReply db_id)) else ret None).

Definition drop_database (fuel : nat) (req : DropDatabaseReq) : API (option DropDatabaseReply) :=
  let tenant_dbname := dd_name_ident req in
  retry fuel (
    let! r := tryM (get_db_or_err tenant_dbname
                      ("drop_database: " +:+ DatabaseNameIdent_to_string tenant_dbname)) in
    match r with
    | inl e =>
        match e with
        | ME_AppError (AE_UnknownDatabase _) =>
            if dd_if_exists req then ret (Some mkDropDatabaseReply) else throw e
        | _ => throw e
        end
    | inr (db_id_seq, db_id, db_meta_seq, _) =>
        let db_id_key := mkDatabaseId db_id in
        let! txn_req := lift (
          let? c1 := txn_cond_seq tenant_dbname CR_Eq db_id_seq in
          let? c2 := txn_cond_seq db_id_key CR_Eq db_meta_seq in
          let? o1 := txn_op_del tenant_dbname in
          let? o2 := txn_op_del db_id_key in
          Ok (mkTxnRequest [c1; c2] [o1; o2] [])) in
        let! '(succ, _) := send_txn txn_req in
        if (succ : bool) then ret (Some mkDropDatabaseReply) else ret None
    end).

Definition rename_database (fuel : nat) (req : RenameDatabaseReq) : API (option RenameDatabaseReply) :=
  let tenant_dbname := rd_name_ident req in
  let tenant_newdbname := mkDatabaseNameIdent (tenant tenant_dbname) (rd_new_db_name req) in
  retry fuel (
    let! '(old_db_id_seq, old_db_id) := get_id_value tenant_dbname in
    if rd_if_exists req && (old_db_id_seq =? 0)%N then ret (Some mkRenameDatabaseReply)
    else
      let! _ :=
        if rd_if_exists req then ret tt
        else lift (db_has_to_exist old_db_id_seq tenant_dbname "rename_database: src (db)") in
      let! '(db_id_seq, _) := get_id_value tenant_newdbname in
      let! _ := lift (db_has_to_not_exist db_id_seq tenant_newdbname "rename_database") in
      let! txn_req := lift (
        let? c1 := txn_cond_seq tenant_dbname CR_Eq old_db_id_seq in
        let? c2 := txn_cond_seq tenant_newdbname CR_Eq 0 in
        let? o1 := txn_op_del tenant_dbname in
        let? v2 := serialize_id old_db_id in
        let? o2 := txn_op_put tenant_newdbname v2 in
        Ok (mkTxnRequest [c1; c2] [o1; o2] [])) in
      let! '(succ, _) := send_txn txn_req in
      if (succ : bool) then ret (Some mkRenameDatabaseReply) else ret None).

Definition get_database (req : GetDatabaseReq) : API (DatabaseInfo DateTime) :=
  let name_key := gd_inner req in
  let! '(_, db_id, db_meta_seq, db_meta) := get_db_or_err name_key "get_database" in
  ret (mkDatabaseInfo (mkDatabaseIdent db_id db_meta_seq) name_key db_meta).

(** The loop over [seq_metas.iter().enumerate()]: the names and ids are read by index. *)
Definition list_databases (req : ListDatabaseReq) : API (list (DatabaseInfo DateTime)) :=
  let name_key := mkDatabaseNameIdent (ld_tenant req) "" in
  let! '(tenant_dbnames, db_ids) := list_id_value name_key in
  let kv_keys := (λ db_id, to_key (mkDatabaseId db_id)) <$> db_ids in
  let! seq_metas := mget_kv kv_keys in
  let! infos := lift (res_mapM (λ '(i, seq_meta_opt),
    match seq_meta_opt with
    | Some seq_meta =>
        let? db_meta := map_err (λ e, meta_encode_err (any_error_of_meta e))
                          (deserialize_struct (PB:=PbDb) (T:=DbMeta) (data seq_meta)) in
        let? db_id := unwrap (db_ids !! i) in
        let? dbname := unwrap (tenant_dbnames !! i) in
        Ok [mkDatabaseInfo (mkDatabaseIdent db_id (seq seq_meta))
              (mkDatabaseNameIdent (tenant name_key) (db_name dbname)) db_meta]
    | None => Ok []
    end) (imap pair seq_metas)) in
  ret (concat infos).

(** ** Tables *)
Definition create_table (fuel : nat) (req : CreateTableReq DateTime DataSchema)
    : API (option CreateTableReply) :=
  let tenant_dbname_tbname := ct_name_ident req in
  let tenant_dbname := db_name_ident tenant_dbname_tbname in
  retry fuel (
    let! '(_, db_id, db_meta_seq, db_meta) := get_db_or_err tenant_dbname "create_table" in
    let dbid_tbname := mkDBIdTableName db_id (tn_table_name tenant_dbname_tbname) in
    let! '(tb_id_seq, tb_id) := get_id_value dbid_tbname in
    if (0 <? tb_id_seq)%N then
      if ct_if_not_exists req then ret (Some (mkCreateTableReply tb_id))
      else throw (ME_AppError (AE_TableAlreadyExists (mkTableAlreadyExists
             (tn_table_name tenant_dbname_tbname)
             ("create_table: " +:+ TableNameIdent_to_string tenant_dbname_tbname))))
    else
      let! table_id := fetch_id mkTableIdGen in
      let tbid := mkTableId table_id in
      let! txn_req := lift (
        let? c1 := txn_cond_seq (mkDatabaseId db_id) CR_Eq db_meta_seq in
        let? c2 := txn_cond_seq dbid_tbname CR_Eq 0 in
        let? v1 := serialize_struct (PB:=PbDb) db_meta in
        let? o1 := txn_op_put (mkDatabaseId db_id) v1 in
        let? v2 := serialize_id table_id in
        let? o2 := txn_op_put dbid_tbname v2 in
        let? v3 := serialize_struct (PB:=PbTb) (ct_table_meta req) in
        let? o3 := txn_op_put tbid v3 in
        Ok (mkTxnRequest [c1; c2] [o1; o2; o3] [])) in
      let! '(succ, _) := send_txn txn_req in
      if (succ : bool) then ret (Some (mkCreateTableReply table_id)) else ret None).

Definition drop_table (fuel : nat) (req : DropTableReq) : API (option DropTableReply) :=
  let tenant_dbname_tbname := dt_name_ident req in
  let tenant_dbname := db_name_ident tenant_dbname_tbname in
  retry fuel (
    let! '(_, db_id, db_meta_seq, db_meta) := get_db_or_err tenant_dbname "drop_table" in
    let dbid_tbname := mkDBIdTableName db_id (tn_table_name tenant_dbname_tbname) in
    let! '(tb_id_seq, table_id) := get_id_value dbid_tbname in
    if (tb_id_seq =? 0)%N then
      if dt_if_exists req then ret (Some mkDropTableReply)
      else throw (ME_AppError (AE_UnknownTable (mkUnknownTable (tn_table_name tenant_dbname_tbname)
             ("drop_table: " +:+ TableNameIdent_to_string tenant_dbname_tbname))))
    else
      let tbid := mkTableId table_id in
      let! '(tb_meta_seq, _) := get_struct_value (PB:=PbTb) (T:=TbMeta) tbid in
      let! txn_req := lift (
        let? c1 := txn_cond_seq (mkDatabaseId db_id) CR_Eq db_meta_seq in
        let? c2 := txn_cond_seq dbid_tbname CR_Eq tb_id_seq in
        let? c3 := txn_cond_seq tbid CR_Eq tb_meta_seq in
        let? v1 := serialize_struct (PB:=PbDb) db_meta in
        let? o1 := txn_op_put (mkDatabaseId db_id) v1 in
        let? o2 := txn_op_del dbid_tbname in
        let? o3 := txn_op_del tbid in
        Ok (mkTxnRequest [c1; c2; c3] [o1; o2; o3] [])) in
      let! '(succ, _) := send_txn txn_req in
      if (succ : bool) then ret (Some mkDropTableReply) else ret None).

Definition rename_table (fuel : nat) (req : RenameTableReq) : API (option RenameTableReply) :=
  let tenant_dbname_tbname := rt_name_ident req in
  let tenant_dbname := db_name_ident tenant_dbname_tbname in
  let tenant_newdbname_newtbname :=
    mkTableNameIdent (tn_tenant tenant_dbname_tbname) (rt_new_db_name req) (rt_new_table_name req) in
  retry fuel (
    let! '(_, db_id, db_meta_seq, db_meta) := get_db_or_err tenant_dbname "rename_table" in
    let dbid_tbname := mkDBIdTableName db_id (tn_table_name tenant_dbname_tbname) in
    let! '(tb_id_seq, table_id) := get_id_value dbid_tbname in
    if rt_if_exists req && (tb_id_seq =? 0)%N then ret (Some (mkRenameTableReply 0))
    else
      let! _ :=
        if rt_if_exists req then ret tt
        else lift (table_has_to_exist tb_id_seq tenant_dbname_tbname "rename_table: src (db,table)") in
      let tenant_newdbname := mkDatabaseNameIdent (tenant tenant_dbname) (rt_new_db_name req) in
      let! '(_, new_db_id, new_db_meta_seq, new_db_meta) :=
        get_db_or_err tenant_newdbname "rename_table: new db" in
      let newdbid_newtbname := mkDBIdTableName new_db_id (rt_new_table_name req) in
      let! '(new_tb_id_seq, _) := get_id_value newdbid_newtbname in
      let! _ := lift (table_has_to_not_exist new_tb_id_seq tenant_newdbname_newtbname "rename_table") in
      let! txn_req := lift (
        let? c1 := txn_cond_seq (mkDatabaseId db_id) CR_Eq db_meta_seq in
        let? c2 := txn_cond_seq (mkDatabaseId new_db_id) CR_Eq new_db_meta_seq in
        let? c3 := txn_cond_seq dbid_tbname CR_Eq tb_id_seq in
        let? c4 := txn_cond_seq newdbid_newtbname CR_Eq 0 in
        let? o1 := txn_op_del dbid_tbname in
        let? v2 := serialize_id table_id in
        let? o2 := txn_op_put newdbid_newtbname v2 in
        let? v3 := serialize_struct (PB:=PbDb) db_meta in
        let? o3 := txn_op_put (mkDatabaseId db_id) v3 in
        let? more :=
          if (db_id =? new_db_id)%N then Ok []
          else
            let? v4 := serialize_struct (PB:=PbDb) new_db_meta in
            let? o4 := txn_op_put (mkDatabaseId new_db_id) v4 in
            Ok [o4] in
        Ok (mkTxnRequest [c1; c2; c3; c4] ([o1; o2; o3] ++ more) [])) in
      let! '(succ, _) := send_txn txn_req in
      if (succ : bool) then ret (Some (mkRenameTableReply table_id)) else ret None).

Definition get_table (req : GetTableReq) : API (TableInfo DateTime DataSchema) :=
  let tenant_dbname_tbname := gt_inner req in
  let tenant_dbname := db_name_ident tenant_dbname_tbname in
  let! '(db_id_seq, db_id) := get_id_value tenant_dbname in
  let! _ := lift (db_has_to_exist db_id_seq tenant_dbname
                    ("get_table: " +:+ TableNameIdent_to_string tenant_dbname_tbname)) in
  let dbid_tbname := mkDBIdTableName db_id (tn_table_name tenant_dbname_tbname) in
  let! '(tb_id_seq, table_id) := get_id_value dbid_tbname in
  let! _ := lift (table_has_to_exist tb_id_seq tenant_dbname_tbname "get_table") in
  let tbid := mkTableId table_id in
  let! '(tb_meta_seq, tb_meta) := get_struct_value (PB:=PbTb) (T:=TbMeta) tbid in
  let! _ := lift (table_has_to_exist tb_meta_seq tenant_dbname_tbname
                    ("get_table meta by: " +:+ TableId_to_string tbid)) in
  let! tb_meta := lift (unwrap tb_meta) in
  ret (mkTableInfo (mkTableIdent table_id tb_meta_seq) (TableNameIdent_to_string tenant_dbname_tbname)
         (tn_table_name tenant_dbname_tbname) tb_meta).

Definition list_tables (req : ListTableReq) : API (list (TableInfo DateTime DataSchema)) :=
  let tenant_dbname := lt_inner req in
  let! '(db_id_seq, db_id) := get_id_value tenant_dbname in
  let! _ := lift (db_has_to_exist db_id_seq tenant_dbname "list_tables") in
  let dbid_tbname := mkDBIdTableName db_id "" in
  let! '(dbid_tbnames, ids) := list_id_value dbid_tbname in
  let! tb_meta_keys := lift (res_mapM (λ '(i, _),
    let? id := unwrap (ids !! i) in Ok (to_key (mkTableId id))) (imap pair dbid_tbnames)) in
  let! seq_tb_metas := mget_kv tb_meta_keys in
  let! infos := lift (res_mapM (λ '(i, seq_meta_opt),
    match seq_meta_opt with
    | Some seq_meta =>
        let? tb_meta := map_err (λ e, meta_encode_err (any_error_of_meta e))
                          (deserialize_struct (PB:=PbTb) (T:=TbMeta) (data seq_meta)) in
        let? id := unwrap (ids !! i) in
        let? tbname := unwrap (dbid_tbnames !! i) in
        Ok [mkTableInfo (mkTableIdent id (seq seq_meta))
              ("'" +:+ db_name tenant_dbname +:+ "'.'" +:+ table_name tbname +:+ "'")
              (table_name tbname) tb_meta]
    | None => Ok []
    end) (imap pair seq_tb_metas)) in
  ret (concat infos).

Definition get_table_by_id (table_id : N) : API (TableIdent * TbMeta) :=
  let tbid := mkTableId table_id in
  let! '(tb_meta_seq, table_meta) := get_struct_value (PB:=PbTb) (T:=TbMeta) tbid in
  if (tb_meta_seq =? 0)%N || opt_is_none table_meta then
    throw (ME_AppError (AE_UnknownTableId (mkUnknownTableId table_id "get_table_by_id")))
  else
    let! table_meta := lift (unwrap table_meta) in
    ret (mkTableIdent table_id tb_meta_seq, table_meta).

(** The loop over [&req.options]: [None] removes the option, [Some] sets it.  The
    keys of a [HashMap] are distinct, so the order does not matter. *)
Definition update_options (opts : gmap string string) (req_options : gmap string (option string))
    : gmap string string :=
  map_fold (λ k opt_v opts,
    match opt_v with None => base.delete k opts | Some v => <[k:=v]> opts end) opts req_options.

Definition set_options (table_meta : TbMeta) (opts : gmap string string) : TbMeta :=
  mkTableMeta (schema table_meta) (engine table_meta) (engine_options table_meta) opts
    (order_keys table_meta) (created_on table_meta) (updated_on table_meta) (comment table_meta).

Definition upsert_table_option (fuel : nat) (req : UpsertTableOptionReq)
    : API (option UpsertTableOptionReply) :=
  let tbid := mkTableId (uto_table_id req) in
  let req_seq := uto_seq req in
  retry fuel (
    let! '(tb_meta_seq, table_meta) := get_struct_value (PB:=PbTb) (T:=TbMeta) tbid in
    if (tb_meta_seq =? 0)%N || opt_is_none table_meta then
      throw (ME_AppError (AE_UnknownTableId (mkUnknownTableId (uto_table_id req) "upsert_table_option")))
    else if negb (is_ok (match_seq req_seq tb_meta_seq)) then
      throw (ME_AppError (AE_TableVersionMismatched
        (mkTableVersionMismatched (uto_table_id req) (uto_seq req) tb_meta_seq "upsert_table_option")))
    else
      let! table_meta := lift (unwrap table_meta) in
      let table_meta := set_options table_meta (update_options (options table_meta) (uto_options req)) in
      let! txn_req := lift (
        let? c1 := txn_cond_seq tbid CR_Eq tb_meta_seq in
        let? v1 := serialize_struct (PB:=PbTb) table_meta in
        let? o1 := txn_op_put tbid v1 in
        Ok (mkTxnRequest [c1] [o1] [])) in
      let! '(succ, _) := send_txn txn_req in
      if (succ : bool) then ret (Some mkUpsertTableOptionReply) else ret None).
End api.

Lemma lookup_update_options opts req k :
  update_options opts req !! k = match req !! k with Some o => o | None => opts !! k end.
Proof.
  unfold update_options. revert k. apply (map_fold_weak_ind
    (λ m req, ∀ k, m !! k = match req !! k with Some o => o | None => opts !! k end)).
  - intros k. by rewrite lookup_empty.
  - intros i o m r Hi IH k. rewrite lookup_insert. case_decide; subst.
    + destruct o; [by rewrite lookup_insert_eq|by rewrite lookup_delete_eq].
    + destruct o; [rewrite lookup_insert_ne by done|rewrite lookup_delete_ne by done]; apply IH.
Qed.
