(* ===== verification/SchemaSpec.v ===== *)
(** * The catalog behind the schema API, and refinement.

    [cat] is the abstract state of the schema API: the typed records of the key-value
    store, with their sequence numbers.  [cat_repr] relates it to a [kv_store], and the
    [spec_*] functions say what each operation of SchemaApi.v does to it.  The
    refinement theorems hold for every implementation of [KVApi] that satisfies
    [KVApiLaws], when no other client interferes: one round of each loop suffices. *)
From S2P Require Import Prelude ByteOrder MetaTypes KvApi KeyCodec SchemaApi.

#[export] Instance DatabaseNameIdent_eq_dec : EqDecision DatabaseNameIdent.
Proof. solve_decision. Defined.
#[export] Instance DatabaseId_eq_dec : EqDecision DatabaseId.
Proof. solve_decision. Defined.
#[export] Instance DBIdTableName_eq_dec : EqDecision DBIdTableName.
Proof. solve_decision. Defined.
#[export] Instance TableId_eq_dec : EqDecision TableId.
Proof. solve_decision. Defined.
#[export] Instance DatabaseIdGen_eq_dec : EqDecision DatabaseIdGen.
Proof. solve_decision. Defined.
#[export] Instance TableIdGen_eq_dec : EqDecision TableIdGen.
Proof. solve_decision. Defined.
#[export] Instance schema_key_eq_dec : EqDecision schema_key.
Proof. solve_decision. Defined.
#[export] Instance schema_key_countable : Countable schema_key.
Proof.
  refine (inj_countable'
    (λ k, match k with
          | KDatabase (mkDatabaseNameIdent t d) => (0, t, d, 0)
          | KDatabaseId (mkDatabaseId i) => (1, "", "", i)
          | KTable (mkDBIdTableName i t) => (2, t, "", i)
          | KTableId (mkTableId i) => (3, "", "", i)
          | KDatabaseIdGen _ => (4, "", "", 0)
          | KTableIdGen _ => (5, "", "", 0)
          end)%N
    (λ '(c, a, b, i),
       match c with
       | 0 => KDatabase (mkDatabaseNameIdent a b)
       | 1 => KDatabaseId (mkDatabaseId i)
       | 2 => KTable (mkDBIdTableName i a)
       | 3 => KTableId (mkTableId i)
       | 4 => KDatabaseIdGen mkDatabaseIdGen
       | _ => KTableIdGen mkTableIdGen
       end)%N _).
  by intros [[]|[]|[]|[]|[]|[]].
Defined.

(** ** Codec laws *)
Class MetaCodecLaws `{MetaCodec} :=
  json_u64_roundtrip n : (n < u64_modulus)%N → ∃ b, json_of_u64 n = Ok b ∧ u64_of_json b = Ok n.
(** The values of [T] that can be written, and are read back. *)
Class StructLaws (PB T : Type) `{Message PB, FromToProto PB T} := {
  storable : T → Prop;
  struct_roundtrip (v : T) : storable v →
    ∃ b, serialize_struct (PB:=PB) v = Ok b ∧ deserialize_struct (PB:=PB) (T:=T) b = Ok v;
}.

(** ** The catalog *)
Section cat.
Context {DateTime DataSchema : Type}.
Abbreviation DbMeta := (DatabaseMeta DateTime).
Abbreviation TbMeta := (TableMeta DateTime DataSchema).

Inductive schema_val := VId (id : N) | VDb (m : DbMeta) | VTb (m : TbMeta) | VUnit.
Record cat := mkCat { c_recs : gmap schema_key (N * schema_val); c_seq : N }.

Definition cat_put (c : cat) (k : schema_key) (x : schema_val) : cat :=
  mkCat (<[k:=((c_seq c + 1)%N, x)]> (c_recs c)) (c_seq c + 1).
Definition cat_del (c : cat) (k : schema_key) : cat := mkCat (base.delete k (c_recs c)) (c_seq c).

(** The sequence number of a record, 0 when it is absent. *)
Definition cat_seq (c : cat) (k : schema_key) : N :=
  match c_recs c !! k with Some (n, _) => n | None => 0 end.
Definition cat_id (c : cat) (k : schema_key) : N * N :=
  match c_recs c !! k with Some (n, VId i) => (n, i) | _ => (0, 0) end%N.
Definition cat_db (c : cat) (i : N) : N * option DbMeta :=
  match c_recs c !! KDatabaseId (mkDatabaseId i) with Some (n, VDb m) => (n, Some m) | _ => (0%N, None) end.
Definition cat_tb (c : cat) (i : N) : N * option TbMeta :=
  match c_recs c !! KTableId (mkTableId i) with Some (n, VTb m) => (n, Some m) | _ => (0%N, None) end.
End cat.
Arguments schema_val DateTime DataSchema : clear implicits.
Arguments cat DateTime DataSchema : clear implicits.

Definition schema_key_wf (k : schema_key) : Prop :=
  match k with
  | KDatabase d => utf8_valid (tenant d) = true ∧ utf8_valid (db_name d) = true
  | KDatabaseId i => (db_id i < u64_modulus)%N
  | KTable t => (dbt_db_id t < u64_modulus)%N ∧ utf8_valid (table_name t) = true
  | KTableId i => (table_id i < u64_modulus)%N
  | _ => True
  end.

Section repr.
Context `{MetaCodec} {DateTime DataSchema PbDb PbTb : Type}.
Context `{StructLaws PbDb (DatabaseMeta DateTime), StructLaws PbTb (TableMeta DateTime DataSchema)}.
Abbreviation catalog := (cat DateTime DataSchema).
Abbreviation sval := (schema_val DateTime DataSchema).

(** [rec_ok k b x]: the bytes [b] under the key [k] stand for the value [x]. *)
Definition rec_ok (k : schema_key) (b : bytes) (x : sval) : Prop :=
  match k, x with
  | (KDatabase _ | KTable _), VId i => u64_of_json b = Ok i ∧ (i < u64_modulus)%N
  | KDatabaseId _, VDb m => deserialize_struct (PB:=PbDb) b = Ok m ∧ storable (PB:=PbDb) m
  | KTableId _, VTb m => deserialize_struct (PB:=PbTb) b = Ok m ∧ storable (PB:=PbTb) m
  | (KDatabaseIdGen _ | KTableIdGen _), VUnit => True
  | _, _ => False
  end.

(** The prefixes that the schema API lists. *)
Definition listed (s : string) : Prop :=
  String.prefix (PREFIX_DATABASE +:+ "/") s = true ∨ String.prefix (PREFIX_TABLE +:+ "/") s = true.

Record cat_repr (st : kv_store) (c : catalog) : Prop := {
  cr_seq : last_seq st = c_seq c;
  cr_rec k :
    match c_recs c !! k with
    | Some (n, x) =>
        ∃ v, kv st !! schema_to_key k = Some v ∧ seq v = n ∧ (0 < n)%N ∧ immortal v ∧ rec_ok k (data v) x
    | None => kv st !! schema_to_key k = None
    end;
  cr_wf k r : c_recs c !! k = Some r → schema_key_wf k;
  cr_listed s v : kv st !! s = Some v → listed s → ∃ k, s = schema_to_key k;
}.

Lemma cat_repr_put st c k x b n :
  cat_repr st c → rec_ok k b x → schema_key_wf k → n = (c_seq c + 1)%N →
  ∀ st', kv st' = <[schema_to_key k:=mkSeqV n None b]> (kv st) → last_seq st' = n →
  cat_repr st' (cat_put c k x).
Proof.
  intros [Hseq Hrec Hwf Hl] Hok Hk -> st' Hkv Hlast. split; [done|..].
  - intros k'. simpl. rewrite Hkv. destruct (decide (k = k')) as [<-|Hne].
    + rewrite !lookup_insert_eq. eexists. split_and!; [done|done|lia|done|done].
    + rewrite !lookup_insert_ne; [apply Hrec|by intros ?%schema_to_key_inj|done].
  - intros k' r. simpl. rewrite lookup_insert_Some. intros [[<- _]|[_ Hr]]; eauto.
  - intros s v. rewrite Hkv, lookup_insert_Some. intros [[<- _]|[_ Hr]]; eauto.
Qed.
Lemma cat_repr_del st c k :
  cat_repr st c → ∀ st', kv st' = base.delete (schema_to_key k) (kv st) → last_seq st' = last_seq st →
  cat_repr st' (cat_del c k).
Proof.
  intros [Hseq Hrec Hwf Hl] st' Hkv Hlast. split; [simpl; congruence|..].
  - intros k'. simpl. rewrite Hkv. destruct (decide (k = k')) as [<-|Hne].
    + by rewrite !lookup_delete_eq.
    + rewrite !lookup_delete_ne; [apply Hrec|by intros ?%schema_to_key_inj|done].
  - intros k' r. simpl. rewrite lookup_delete_Some. intros [_ Hr]; eauto.
  - intros s v. rewrite Hkv, lookup_delete_Some. intros [_ Hr]; eauto.
Qed.
Lemma cat_repr_same st st' c :
  cat_repr st c → kv st' = kv st → last_seq st' = last_seq st → cat_repr st' c.
Proof. intros [Hseq Hrec Hwf Hl] Hkv Hlast. split; rewrite ?Hkv, ?Hlast; auto. Qed.

Lemma cat_repr_seq st c k : cat_repr st c → opt_seq (kv st !! schema_to_key k) = cat_seq c k.
Proof.
  intros Hr. pose proof (cr_rec _ _ Hr k) as Hk. unfold cat_seq.
  destruct (c_recs c !! k) as [[n x]|]; [destruct Hk as (v & -> & Hn & _)|rewrite Hk]; done.
Qed.
End repr.

(** ** Executing the helpers on a catalog *)

(** The key types as schema keys. *)
Class SchemaKey (K : Type) `{KVApiKey K} := {
  skey : K → schema_key;
  skey_to_key k : to_key k = schema_to_key (skey k);
}.
#[export] Instance DatabaseNameIdent_skey : SchemaKey DatabaseNameIdent := {| skey := KDatabase; skey_to_key _ := eq_refl |}.
#[export] Instance DatabaseId_skey : SchemaKey DatabaseId := {| skey := KDatabaseId; skey_to_key _ := eq_refl |}.
#[export] Instance DBIdTableName_skey : SchemaKey DBIdTableName := {| skey := KTable; skey_to_key _ := eq_refl |}.
#[export] Instance TableId_skey : SchemaKey TableId := {| skey := KTableId; skey_to_key _ := eq_refl |}.
#[export] Instance DatabaseIdGen_skey : SchemaKey DatabaseIdGen := {| skey := KDatabaseIdGen; skey_to_key _ := eq_refl |}.
#[export] Instance TableIdGen_skey : SchemaKey TableIdGen := {| skey := KTableIdGen; skey_to_key _ := eq_refl |}.

Section runs.
Context {W : Type} `{!KVApi W, !Clock, !ClockLaws} (R : W → kv_store → Prop) `{!KVApiLaws W R}.
Context `{!MetaCodec, !MetaCodecLaws} {DateTime DataSchema PbDb PbTb : Type}.
Context `{StructLaws PbDb (DatabaseMeta DateTime), StructLaws PbTb (TableMeta DateTime DataSchema)}.
Abbreviation catalog := (cat DateTime DataSchema).
Implicit Types c : catalog.

(** The catalog that a state of the implementation stands for. *)
Definition cat_of (w : W) (c : catalog) : Prop :=
  ∃ st, R w st ∧ cat_repr (PbDb:=PbDb) (PbTb:=PbTb) st c.

(** A record of the schema API does not expire. *)
Lemma kv_get_schema st c k :
  cat_repr (PbDb:=PbDb) (PbTb:=PbTb) st c →
  (kv_get st (schema_to_key k)).1 = kv st !! schema_to_key k ∧
  cat_repr (PbDb:=PbDb) (PbTb:=PbTb) (kv_get st (schema_to_key k)).2 c.
Proof.
  intros Hr. unfold kv_get. split.
  - pose proof (cr_rec _ _ Hr k) as Hk. destruct (c_recs c !! k) as [[n x]|]; [|by rewrite Hk].
    destruct Hk as (v & -> & _ & _ & Him & _). simpl. by apply live_immortal.
  - by destruct (kv st !! schema_to_key k); apply (cat_repr_same st).
Qed.

(** Reading a record, followed by code that depends on the record's meaning only. *)
Lemma runs_get_kv {A} k c (f : option (SeqV bytes) → M W MetaError A) r :
  match c_recs c !! k with
  | Some (n, x) =>
      ∀ v, seq v = n → (0 < n)%N → rec_ok (PbDb:=PbDb) (PbTb:=PbTb) k (data v) x → runs cat_of (f (Some v)) c r c
  | None => runs cat_of (f None) c r c
  end →
  runs cat_of (let! o := get_kv (schema_to_key k) in f o) c r c.
Proof.
  intros Hf w (st & Hw & Hr).
  destruct (get_kv_ok (schema_to_key k) st (schema_key_utf8 k) w Hw) as (w1 & Hget & Hw1).
  destruct (kv_get_schema st c k Hr) as [Hv Hr1]. rewrite Hv in Hget. rewrite (bind_ok _ _ _ _ _ Hget).
  pose proof (cr_rec _ _ Hr k) as Hk.
  destruct (c_recs c !! k) as [[n x]|]; [destruct Hk as (v & -> & Hn & Hpos & _ & Hok)|rewrite Hk].
  - eapply Hf; [done..|]. by eexists.
  - apply Hf. by eexists.
Qed.

Lemma runs_get_id {K} `{SchemaKey K} (k : K) c :
  match skey k with KDatabase _ | KTable _ => True | _ => False end →
  runs cat_of (get_id_value k) c (Ok (cat_id c (skey k))) c.
Proof.
  intros Hkind. unfold get_id_value. rewrite skey_to_key. apply runs_get_kv. unfold cat_id.
  destruct (c_recs c !! skey k) as [[n x]|]; [|apply runs_ret]. intros v <- _ Hok.
  unfold rec_ok in Hok. destruct (skey k); try done; destruct x; try done; destruct Hok as [Hd _];
    (eapply runs_bind; [|apply runs_ret]); unfold deserialize_id; rewrite Hd; apply runs_lift.
Qed.

Lemma runs_get_db i c :
  runs cat_of (get_struct_value (PB:=PbDb) (mkDatabaseId i)) c (Ok (cat_db c i)) c.
Proof.
  unfold get_struct_value. rewrite skey_to_key. apply runs_get_kv. unfold cat_db. simpl.
  destruct (c_recs c !! _) as [[n x]|]; [|apply runs_ret]. intros v <- _ Hok.
  destruct x; try done. destruct Hok as [Hd _]. rewrite Hd. eapply runs_bind; [apply runs_lift|apply runs_ret].
Qed.
Lemma runs_get_tb i c :
  runs cat_of (get_struct_value (PB:=PbTb) (mkTableId i)) c (Ok (cat_tb c i)) c.
Proof.
  unfold get_struct_value. rewrite skey_to_key. apply runs_get_kv. unfold cat_tb. simpl.
  destruct (c_recs c !! _) as [[n x]|]; [|apply runs_ret]. intros v <- _ Hok.
  destruct x; try done. destruct Hok as [Hd _]. rewrite Hd. eapply runs_bind; [apply runs_lift|apply runs_ret].
Qed.

(** *** Writing *)
Lemma kv_upsert_any st c k d :
  cat_repr (PbDb:=PbDb) (PbTb:=PbTb) st c →
  ∃ st1, cat_repr (PbDb:=PbDb) (PbTb:=PbTb) st1 c ∧ kv st1 = kv st ∧ last_seq st1 = last_seq st ∧
    kv_upsert st (schema_to_key k) Any (OpUpdate d) None =
      (kv st !! schema_to_key k, (kv_put st1 (schema_to_key k) None d).1, (kv_put st1 (schema_to_key k) None d).2).
Proof.
  intros Hr. exists (kv_get st (schema_to_key k)).2. destruct (kv_get_schema st c k Hr) as [Hv Hr1].
  split_and!; [done|by apply kv_live_kv|by unfold kv_get; destruct (kv st !! _)|].
  unfold kv_upsert. destruct (kv_get st (schema_to_key k)) as [prev st1]. simpl in *. by subst.
Qed.

Lemma kv_put_repr st c k d x :
  cat_repr (PbDb:=PbDb) (PbTb:=PbTb) st c → rec_ok (PbDb:=PbDb) (PbTb:=PbTb) k d x → schema_key_wf k →
  (c_seq c + 1 < u64_modulus)%N →
  cat_repr (PbDb:=PbDb) (PbTb:=PbTb) (kv_put st (schema_to_key k) None d).2 (cat_put c k x).
Proof.
  intros Hr Hok Hk Hroom. pose proof (cr_seq _ _ Hr) as Hseq.
  eapply (cat_repr_put st c k x d (u64_add (last_seq st) 1)); [done..| |done|apply kv_put_last].
  rewrite Hseq. by apply u64_add_small.
Qed.

(** Ids come from the sequence numbers of the generator's record. *)
Lemma runs_fetch_id {K} `{SchemaKey K} (g : K) c :
  match skey g with KDatabaseIdGen _ | KTableIdGen _ => True | _ => False end →
  (c_seq c + 1 < u64_modulus)%N →
  runs cat_of (fetch_id g) c (Ok (c_seq c + 1)%N) (cat_put c (skey g) VUnit).
Proof.
  intros Hkind Hroom w (st & Hw & Hr). unfold fetch_id. rewrite skey_to_key.
  destruct (kv_upsert_any st c (skey g) "" Hr) as (st1 & Hr1 & _ & _ & Hup).
  pose proof (upsert_kv_ok (mkUpsertKVAction (schema_to_key (skey g)) Any (OpUpdate "") None) st
    (schema_key_utf8 _)) as Hrun. simpl in Hrun. rewrite Hup in Hrun.
  destruct (Hrun w Hw) as (w1 & Heq & Hw1). exists w1. rewrite (bind_ok _ _ _ _ _ Heq). simpl.
  pose proof (cr_seq _ _ Hr1) as Hseq. split.
  - unfold bind, lift, ret. simpl. unfold last_seq in Hseq. by rewrite Hseq, u64_add_small.
  - eexists. split; [done|]. apply kv_put_repr; [done| |by destruct (skey g)|done].
    by destruct (skey g).
Qed.

(** The operations of a transaction, with the meaning of the bytes they write. *)
Inductive cat_op := CPut (k : schema_key) (b : bytes) (x : schema_val DateTime DataSchema) | CDel (k : schema_key).
Definition op_req (o : cat_op) : TxnOp :=
  match o with
  | CPut k b _ => mkTxnOp (Some (ReqPut (mkTxnPutRequest (schema_to_key k) b true)))
  | CDel k => mkTxnOp (Some (ReqDelete (mkTxnDeleteRequest (schema_to_key k) true)))
  end.
Definition cat_op_ok (o : cat_op) : Prop :=
  match o with
  | CPut k b x => rec_ok (PbDb:=PbDb) (PbTb:=PbTb) k b x ∧ schema_key_wf k
  | CDel _ => True
  end.
Definition cat_apply (c : catalog) (o : cat_op) : catalog :=
  match o with CPut k _ x => cat_put c k x | CDel k => cat_del c k end.
Definition cond_of (kn : schema_key * N) : TxnCondition :=
  mkTxnCondition (schema_to_key kn.1) (Some (TargetSeq kn.2)) 0.

Lemma kv_op_repr st c o :
  cat_repr (PbDb:=PbDb) (PbTb:=PbTb) st c → cat_op_ok o → (c_seq c + 1 < u64_modulus)%N →
  cat_repr (PbDb:=PbDb) (PbTb:=PbTb) (kv_op st (op_req o)).2 (cat_apply c o).
Proof.
  intros Hr Hok Hroom. destruct o as [k b x|k]; simpl.
  - destruct (kv_upsert_any st c k b Hr) as (st1 & Hr1 & _ & _ & Hup).
    unfold kv_op. simpl. rewrite Hup. simpl. destruct Hok. by apply kv_put_repr.
  - unfold kv_op, kv_upsert. simpl. destruct (kv_get_schema st c k Hr) as [_ Hr1].
    destruct (kv_get st (schema_to_key k)) as [prev st1]. simpl in *. by apply (cat_repr_del st1).
Qed.
Lemma kv_ops_repr st c ops :
  cat_repr (PbDb:=PbDb) (PbTb:=PbTb) st c → Forall cat_op_ok ops →
  (c_seq c + N.of_nat (length ops) < u64_modulus)%N →
  cat_repr (PbDb:=PbDb) (PbTb:=PbTb) (kv_ops st (op_req <$> ops)).2 (foldl cat_apply c ops).
Proof.
  intros Hr Hops. revert st c Hr. induction Hops as [|o ops Ho _ IH]; intros st c Hr Hroom; [done|].
  csimpl in *. destruct (kv_op st (op_req o)) as [r st1] eqn:Hop.
  assert (cat_repr (PbDb:=PbDb) (PbTb:=PbTb) st1 (cat_apply c o)) as Hr1.
  { pose proof (kv_op_repr st c o Hr Ho ltac:(lia)) as Hr1. by rewrite Hop in Hr1. }
  specialize (IH st1 _ Hr1). destruct (kv_ops st1 _) as [rs st2]. apply IH.
  destruct o; simpl; lia.
Qed.

Lemma cond_of_holds st c kn :
  cat_repr (PbDb:=PbDb) (PbTb:=PbTb) st c → cond_holds st (cond_of kn) = (cat_seq c kn.1 =? kn.2)%N.
Proof.
  intros Hr. unfold cond_holds. simpl. rewrite (cat_repr_seq _ _ _ Hr).
  destruct (N.compare_spec (cat_seq c kn.1) kn.2); simpl; symmetry; nbool; lia.
Qed.

(** A transaction all of whose conditions name current sequence numbers. *)
Lemma runs_send_txn {A} cs ops c (f : bool → M W MetaError A) r c' :
  Forall (λ kn, cat_seq c kn.1 = kn.2) cs → Forall cat_op_ok ops →
  (c_seq c + N.of_nat (length ops) < u64_modulus)%N →
  runs cat_of (f true) (foldl cat_apply c ops) r c' →
  runs cat_of (let! '(succ, _) := send_txn (mkTxnRequest (cond_of <$> cs) (op_req <$> ops) []) in f succ) c r c'.
Proof.
  intros Hcs Hops Hroom Hf w (st & Hw & Hr). set (req := mkTxnRequest _ _ _).
  assert (txn_ok req) as Hok.
  { split_and!; [| |constructor]; apply Forall_fmap, Forall_true; intros; [apply schema_key_utf8|].
    match goal with |- (_ ∘ _) ?o => destruct o end; apply schema_key_utf8. }
  destruct (transaction_ok req st Hok w Hw) as (w1 & Heq & Hw1).
  assert (forallb (cond_holds st) (condition req) = true) as Hall.
  { apply forallb_forall. intros cd (kn & -> & Hin)%list_elem_of_In%list_elem_of_fmap.
    rewrite (cond_of_holds _ _ _ Hr). apply N.eqb_eq. by eapply Forall_forall in Hcs. }
  unfold kv_txn in Heq, Hw1. rewrite Hall in Heq, Hw1. simpl in Heq, Hw1.
  pose proof (kv_ops_repr st c ops Hr Hops Hroom) as Hr1.
  destruct (kv_ops st (op_req <$> ops)) as [rs st1]. simpl in *.
  destruct (Hf w1) as (w2 & Hfw & Hw2); [by exists st1|]. exists w2. split; [|done].
  unfold send_txn, bind. rewrite Heq. by simpl.
Qed.
End runs.
