(* ===== verification/SchemaOps.v ===== *)
(** * What the operations of the schema API do.

    One specification per operation, as a function on catalogs, and the theorem that
    the operation of SchemaApi.v computes it on every store that satisfies
    [KVApiLaws]. *)
From S2P Require Import Prelude ByteOrder MetaTypes KvApi KeyCodec SchemaApi SchemaSpec.

Section spec.
Context {DateTime DataSchema : Type}.
Abbreviation catalog := (cat DateTime DataSchema).
Abbreviation DbMeta := (DatabaseMeta DateTime).
Abbreviation TbMeta := (TableMeta DateTime DataSchema).
Implicit Types c : catalog.

Definition unknown_db (d : DatabaseNameIdent) (msg : string) : MetaError :=
  ME_AppError (AE_UnknownDatabase (mkUnknownDatabase (db_name d) (msg +:+ ": " +:+ DatabaseNameIdent_to_string d))).
Definition unknown_tb (t : TableNameIdent) (msg : string) : MetaError :=
  ME_AppError (AE_UnknownTable (mkUnknownTable (tn_table_name t) (msg +:+ ": " +:+ TableNameIdent_to_string t))).
Definition db_exists (d : DatabaseNameIdent) (ctx : string) : MetaError :=
  ME_AppError (AE_DatabaseAlreadyExists (mkDatabaseAlreadyExists (db_name d) ctx)).
Definition tb_exists (t : TableNameIdent) (ctx : string) : MetaError :=
  ME_AppError (AE_TableAlreadyExists (mkTableAlreadyExists (tn_table_name t) ctx)).

(** The id under a name, and the records of a database that is there. *)
Definition id_of c (k : schema_key) : option N :=
  match c_recs c !! k with Some (_, VId i) => Some i | _ => None end.
Definition db_meta_of c (i : N) : option (N * DbMeta) :=
  match c_recs c !! KDatabaseId (mkDatabaseId i) with Some (n, VDb m) => Some (n, m) | _ => None end.
Definition tb_meta_of c (i : N) : option (N * TbMeta) :=
  match c_recs c !! KTableId (mkTableId i) with Some (n, VTb m) => Some (n, m) | _ => None end.
Definition db_of c (d : DatabaseNameIdent) : option (N * N * DbMeta) :=
  match id_of c (KDatabase d) with
  | Some i => match db_meta_of c i with Some (n, m) => Some (i, n, m) | None => None end
  | None => None
  end.

Definition spec_create_database c (req : CreateDatabaseReq DateTime)
    : res MetaError CreateDatabaseReply * catalog :=
  let d := cd_name_ident req in
  match id_of c (KDatabase d) with
  | Some i =>
      (if cd_if_not_exists req then Ok (mkCreateDatabaseReply i)
       else Err (db_exists d ("create db: tenant: " +:+ tenant d)), c)
  | None =>
      let i := (c_seq c + 1)%N in
      let c := cat_put c (KDatabaseIdGen mkDatabaseIdGen) VUnit in
      let c := cat_put c (KDatabase d) (VId i) in
      (Ok (mkCreateDatabaseReply i), cat_put c (KDatabaseId (mkDatabaseId i)) (VDb (cd_meta req)))
  end.

Definition spec_drop_database c (req : DropDatabaseReq) : res MetaError DropDatabaseReply * catalog :=
  let d := dd_name_ident req in
  match db_of c d with
  | Some (i, _, _) =>
      (Ok mkDropDatabaseReply, cat_del (cat_del c (KDatabase d)) (KDatabaseId (mkDatabaseId i)))
  | None =>
      (if dd_if_exists req then Ok mkDropDatabaseReply
       else Err (unknown_db d ("drop_database: " +:+ DatabaseNameIdent_to_string d)), c)
  end.

Definition spec_rename_database c (req : RenameDatabaseReq) : res MetaError RenameDatabaseReply * catalog :=
  let d := rd_name_ident req in
  let d' := mkDatabaseNameIdent (tenant d) (rd_new_db_name req) in
  match id_of c (KDatabase d) with
  | None =>
      (if rd_if_exists req then Ok mkRenameDatabaseReply
       else Err (unknown_db d "rename_database: src (db)"), c)
  | Some i =>
      match id_of c (KDatabase d') with
      | Some _ => (Err (db_exists d' ("rename_database: " +:+ DatabaseNameIdent_to_string d')), c)
      | None => (Ok mkRenameDatabaseReply, cat_put (cat_del c (KDatabase d)) (KDatabase d') (VId i))
      end
  end.

Definition spec_get_database c (req : GetDatabaseReq) : res MetaError (DatabaseInfo DateTime) :=
  let d := gd_inner req in
  match db_of c d with
  | Some (i, n, m) => Ok (mkDatabaseInfo (mkDatabaseIdent i n) d m)
  | None => Err (unknown_db d "get_database")
  end.

(** Changing a table of a database writes the meta record of the database again. *)
Definition spec_create_table c (req : CreateTableReq DateTime DataSchema)
    : res MetaError CreateTableReply * catalog :=
  let t := ct_name_ident req in
  match db_of c (db_name_ident t) with
  | None => (Err (unknown_db (db_name_ident t) "create_table"), c)
  | Some (i, _, m) =>
      let k := KTable (mkDBIdTableName i (tn_table_name t)) in
      match id_of c k with
      | Some ti =>
          (if ct_if_not_exists req then Ok (mkCreateTableReply ti)
           else Err (tb_exists t ("create_table: " +:+ TableNameIdent_to_string t)), c)
      | None =>
          let ti := (c_seq c + 1)%N in
          let c := cat_put c (KTableIdGen mkTableIdGen) VUnit in
          let c := cat_put c (KDatabaseId (mkDatabaseId i)) (VDb m) in
          let c := cat_put c k (VId ti) in
          (Ok (mkCreateTableReply ti), cat_put c (KTableId (mkTableId ti)) (VTb (ct_table_meta req)))
      end
  end.

Definition spec_drop_table c (req : DropTableReq) : res MetaError DropTableReply * catalog :=
  let t := dt_name_ident req in
  match db_of c (db_name_ident t) with
  | None => (Err (unknown_db (db_name_ident t) "drop_table"), c)
  | Some (i, _, m) =>
      let k := KTable (mkDBIdTableName i (tn_table_name t)) in
      match id_of c k with
      | None =>
          (if dt_if_exists req then Ok mkDropTableReply
           else Err (ME_AppError (AE_UnknownTable (mkUnknownTable (tn_table_name t)
                  ("drop_table: " +:+ TableNameIdent_to_string t)))), c)
      | Some ti =>
          let c := cat_put c (KDatabaseId (mkDatabaseId i)) (VDb m) in
          (Ok mkDropTableReply, cat_del (cat_del c k) (KTableId (mkTableId ti)))
      end
  end.

Definition spec_rename_table c (req : RenameTableReq) : res MetaError RenameTableReply * catalog :=
  let t := rt_name_ident req in
  let t' := mkTableNameIdent (tn_tenant t) (rt_new_db_name req) (rt_new_table_name req) in
  match db_of c (db_name_ident t) with
  | None => (Err (unknown_db (db_name_ident t) "rename_table"), c)
  | Some (i, _, m) =>
      let k := KTable (mkDBIdTableName i (tn_table_name t)) in
      match id_of c k with
      | None =>
          (if rt_if_exists req then Ok (mkRenameTableReply 0)
           else Err (unknown_tb t "rename_table: src (db,table)"), c)
      | Some ti =>
          match db_of c (db_name_ident t') with
          | None => (Err (unknown_db (db_name_ident t') "rename_table: new db"), c)
          | Some (i', _, m') =>
              let k' := KTable (mkDBIdTableName i' (tn_table_name t')) in
              match id_of c k' with
              | Some _ => (Err (tb_exists t' ("rename_table: " +:+ TableNameIdent_to_string t')), c)
              | None =>
                  let c := cat_put (cat_del c k) k' (VId ti) in
                  let c := cat_put c (KDatabaseId (mkDatabaseId i)) (VDb m) in
                  (Ok (mkRenameTableReply ti),
                   if (i =? i')%N then c else cat_put c (KDatabaseId (mkDatabaseId i')) (VDb m'))
              end
          end
      end
  end.

Definition spec_get_table c (req : GetTableReq) : res MetaError (TableInfo DateTime DataSchema) :=
  let t := gt_inner req in
  match id_of c (KDatabase (db_name_ident t)) with
  | None => Err (unknown_db (db_name_ident t) ("get_table: " +:+ TableNameIdent_to_string t))
  | Some i =>
      match id_of c (KTable (mkDBIdTableName i (tn_table_name t))) with
      | None => Err (unknown_tb t "get_table")
      | Some ti =>
          match tb_meta_of c ti with
          | None => Err (unknown_tb t ("get_table meta by: " +:+ pretty ti))
          | Some (n, m) =>
              Ok (mkTableInfo (mkTableIdent ti n) (TableNameIdent_to_string t) (tn_table_name t) m)
          end
      end
  end.

Definition spec_get_table_by_id c (ti : N) : res MetaError (TableIdent * TbMeta) :=
  match tb_meta_of c ti with
  | Some (n, m) => Ok (mkTableIdent ti n, m)
  | None => Err (ME_AppError (AE_UnknownTableId (mkUnknownTableId ti "get_table_by_id")))
  end.

Definition spec_upsert_table_option c (req : UpsertTableOptionReq)
    : res MetaError UpsertTableOptionReply * catalog :=
  let ti := uto_table_id req in
  match tb_meta_of c ti with
  | None => (Err (ME_AppError (AE_UnknownTableId (mkUnknownTableId ti "upsert_table_option"))), c)
  | Some (n, m) =>
      if seq_matches (uto_seq req) n then
        (Ok mkUpsertTableOptionReply,
         cat_put c (KTableId (mkTableId ti))
           (VTb (set_options m (update_options (options m) (uto_options req)))))
      else
        (Err (ME_AppError (AE_TableVersionMismatched
                (mkTableVersionMismatched ti (uto_seq req) n "upsert_table_option"))), c)
  end.
End spec.

(** ** The operations compute their specifications *)
Section refine.
Context {W : Type} `{!KVApi W, !Clock, !ClockLaws} (R : W → kv_store → Prop) `{!KVApiLaws W R}.
Context `{!MetaCodec, !MetaCodecLaws} {DateTime DataSchema PbDb PbTb : Type}.
Context `{StructLaws PbDb (DatabaseMeta DateTime), StructLaws PbTb (TableMeta DateTime DataSchema)}.
Abbreviation catalog := (cat DateTime DataSchema).
Abbreviation catR := (cat_of R (PbDb:=PbDb) (PbTb:=PbTb)).
Implicit Types c : catalog.

(** What the types and the codecs guarantee about the records of a catalog. *)
Definition val_ok (k : schema_key) (x : schema_val DateTime DataSchema) : Prop :=
  match k, x with
  | (KDatabase _ | KTable _), VId i => (i < u64_modulus)%N
  | KDatabaseId _, VDb m => storable (PB:=PbDb) m
  | KTableId _, VTb m => storable (PB:=PbTb) m
  | (KDatabaseIdGen _ | KTableIdGen _), VUnit => True
  | _, _ => False
  end.
Definition cat_typed c : Prop :=
  ∀ k n x, c_recs c !! k = Some (n, x) → (0 < n)%N ∧ val_ok k x ∧ schema_key_wf k.

Lemma runs_typed {E A} (m : M W E A) c r c' : (cat_typed c → runs catR m c r c') → runs catR m c r c'.
Proof.
  intros Hm w Hw. apply Hm; [|done]. destruct Hw as (st & _ & Hr). intros k n x Hk.
  pose proof (cr_wf _ _ Hr _ _ Hk) as Hwf. pose proof (cr_rec _ _ Hr k) as Hrec. rewrite Hk in Hrec.
  destruct Hrec as (v & _ & _ & Hn & _ & Hok). split_and!; [done| |done].
  unfold rec_ok in Hok. destruct k, x; simpl; try done; by destruct Hok.
Qed.

(** A record with an id, read as a name. *)
Lemma typed_id c k :
  cat_typed c → match k with KDatabase _ | KTable _ => True | _ => False end →
  match id_of c k with
  | Some i => ∃ n, cat_id c k = (n, i) ∧ cat_seq c k = n ∧ (n =? 0)%N = false ∧ (0 <? n)%N = true ∧
                   (i < u64_modulus)%N
  | None => cat_id c k = (0, 0)%N ∧ cat_seq c k = 0%N
  end.
Proof.
  intros Ht Hk. unfold id_of, cat_id, cat_seq. destruct (c_recs c !! k) as [[n x]|] eqn:Hr; [|done].
  destruct (Ht _ _ _ Hr) as (Hn & Hv & _). unfold val_ok in Hv.
  assert ((n =? 0)%N = false ∧ (0 <? n)%N = true) as [? ?] by (nbool; lia).
  destruct k; try done; destruct x; try done; eauto 10.
Qed.
Lemma typed_db c i :
  cat_typed c →
  match db_meta_of c i with
  | Some (n, m) => cat_db c i = (n, Some m) ∧ cat_seq c (KDatabaseId (mkDatabaseId i)) = n ∧
                   (n =? 0)%N = false ∧ storable (PB:=PbDb) m ∧ (i < u64_modulus)%N
  | None => cat_db c i = (0%N, None)
  end.
Proof.
  intros Ht. unfold db_meta_of, cat_db, cat_seq. destruct (c_recs c !! _) as [[n x]|] eqn:Hr; [|done].
  destruct (Ht _ _ _ Hr) as (Hn & Hv & Hwf). destruct x; try done. split_and!; [done|done|nbool; lia|done|done].
Qed.
Lemma typed_tb c i :
  cat_typed c →
  match tb_meta_of c i with
  | Some (n, m) => cat_tb c i = (n, Some m) ∧ cat_seq c (KTableId (mkTableId i)) = n ∧
                   (n =? 0)%N = false ∧ storable (PB:=PbTb) m ∧ (i < u64_modulus)%N
  | None => cat_tb c i = (0%N, None) ∧ cat_seq c (KTableId (mkTableId i)) = 0%N
  end.
Proof.
  intros Ht. unfold tb_meta_of, cat_tb, cat_seq. destruct (c_recs c !! _) as [[n x]|] eqn:Hr; [|done].
  destruct (Ht _ _ _ Hr) as (Hn & Hv & Hwf). destruct x; try done. split_and!; [done|done|nbool; lia|done|done].
Qed.

Lemma runs_retry {A} fuel (body : M W MetaError (option A)) c r c' :
  runs catR body c (res_map Some r) c' → r ≠ Panic → runs catR (retry (S fuel) body) c (res_map Some r) c'.
Proof.
  intros Hb Hp. destruct r as [a|e|]; simpl in *; [|by apply runs_bind_err|done].
  eapply runs_bind; [done|]. apply runs_ret.
Qed.

Lemma runs_try_ok {A} (m : M W MetaError A) c a c' :
  runs catR m c (Ok a) c' → runs catR (tryM (F:=MetaError) m) c (Ok (inr a)) c'.
Proof.
  intros Hm w Hw. destruct (Hm w Hw) as (w' & Heq & Hw'). exists w'. unfold tryM. by rewrite Heq.
Qed.
Lemma runs_try_err {A} (m : M W MetaError A) c e c' :
  runs catR m c (Err e) c' → runs catR (tryM (F:=MetaError) m) c (Ok (inl e)) c'.
Proof.
  intros Hm w Hw. destruct (Hm w Hw) as (w' & Heq & Hw'). exists w'. unfold tryM. by rewrite Heq.
Qed.

Lemma serialize_id_ok i :
  (i < u64_modulus)%N → ∃ b, serialize_id i = Ok b ∧ u64_of_json b = Ok i.
Proof.
  intros (b & Hb & Hd)%json_u64_roundtrip. exists b. unfold serialize_id. by rewrite Hb.
Qed.

(** The prologue shared by the operations on tables. *)
Lemma runs_get_db_or_err d msg c :
  cat_typed c →
  match db_of c d with
  | Some (i, n, m) =>
      ∃ s, runs catR (get_db_or_err (PbDb:=PbDb) d msg) c (Ok (s, i, n, m)) c ∧
        cat_seq c (KDatabase d) = s ∧ cat_seq c (KDatabaseId (mkDatabaseId i)) = n ∧
        storable (PB:=PbDb) m ∧ (i < u64_modulus)%N
  | None => runs catR (get_db_or_err (PbDb:=PbDb) d msg) c (Err (unknown_db d msg)) c
  end.
Proof.
  intros Ht. unfold db_of, get_db_or_err.
  pose proof (runs_get_id R d c I) as Hid. pose proof (typed_id c (KDatabase d) Ht I) as Ti. simpl in Hid.
  destruct (id_of c (KDatabase d)) as [i|]; last first.
  { destruct Ti as [Hz _]. rewrite Hz in Hid. eapply runs_bind; [done|].
    apply runs_bind_err, runs_lift. }
  destruct Ti as (s & Hs & Hseq & Hnz & _ & Hi). rewrite Hs in Hid.
  pose proof (runs_get_db R i c (PbTb:=PbTb)) as Hdb. pose proof (typed_db c i Ht) as Td.
  destruct (db_meta_of c i) as [[n m]|].
  - destruct Td as (Hdbm & Hn & Hnz' & Hst & _). rewrite Hdbm in Hdb. exists s. split_and!; [|done..].
    eapply runs_bind; [done|]. simpl. unfold db_has_to_exist. rewrite Hnz.
    eapply runs_bind; [apply runs_lift|]. eapply runs_bind; [done|]. simpl. rewrite Hnz'.
    eapply runs_bind; [apply runs_lift|]. eapply runs_bind; [apply runs_lift|]. apply runs_ret.
  - rewrite Td in Hdb. eapply runs_bind; [done|]. simpl. unfold db_has_to_exist. rewrite Hnz.
    eapply runs_bind; [apply runs_lift|]. eapply runs_bind; [done|]. apply runs_bind_err, runs_lift.
Qed.

(** *** Databases *)
Lemma runs_create_database fuel req c :
  schema_key_wf (KDatabase (cd_name_ident req)) → storable (PB:=PbDb) (cd_meta req) →
  (c_seq c + 3 < u64_modulus)%N →
  runs catR (create_database (PbDb:=PbDb) (S fuel) req) c
    (res_map Some (spec_create_database c req).1) (spec_create_database c req).2.
Proof.
  intros Hwf Hst Hroom. apply runs_typed. intros Ht. apply runs_retry; last first.
  { unfold spec_create_database. by destruct (id_of _ _), (cd_if_not_exists req). }
  unfold spec_create_database. set (d := cd_name_ident req) in *.
  pose proof (runs_get_id R d c I) as Hid. pose proof (typed_id c (KDatabase d) Ht I) as Ti. simpl in Hid.
  eapply runs_bind; [done|]. destruct (id_of c (KDatabase d)) as [i|].
  - destruct Ti as (n & -> & _ & _ & Hpos & _). simpl. rewrite Hpos.
    destruct (cd_if_not_exists req); [apply runs_ret|apply runs_throw].
  - destruct Ti as [-> Hz]. simpl.
    eapply runs_bind; [apply (runs_fetch_id R mkDatabaseIdGen); [done|lia]|]. simpl.
    destruct (serialize_id_ok (c_seq c + 1)) as (b & Hb & Hd); [lia|].
    destruct (struct_roundtrip (PB:=PbDb) (cd_meta req) Hst) as (b2 & Hb2 & Hd2).
    rewrite Hb, Hb2. eapply runs_bind; [apply runs_lift|]. simpl.
    apply (runs_send_txn R [(KDatabase d, 0%N)]
      [CPut (KDatabase d) b (VId (c_seq c + 1)); CPut (KDatabaseId (mkDatabaseId (c_seq c + 1))) b2 (VDb (cd_meta req))]);
      [| |simpl; lia|apply runs_ret].
    + repeat constructor. simpl. unfold cat_seq in *. simpl. by rewrite lookup_insert_ne.
    + repeat constructor; simpl; try done; try lia; by destruct Hwf.
Qed.

Lemma runs_drop_database fuel req c :
  (c_seq c + 2 < u64_modulus)%N →
  runs catR (drop_database (PbDb:=PbDb) (S fuel) req) c
    (res_map Some (spec_drop_database c req).1) (spec_drop_database c req).2.
Proof.
  intros Hroom. apply runs_typed. intros Ht. apply runs_retry; last first.
  { unfold spec_drop_database. by destruct (db_of _ _) as [[[]]|], (dd_if_exists req). }
  unfold spec_drop_database. set (d := dd_name_ident req).
  pose proof (runs_get_db_or_err d ("drop_database: " +:+ DatabaseNameIdent_to_string d) c Ht) as Hdb.
  destruct (db_of c d) as [[[i n] m]|].
  - destruct Hdb as (s & Hrun & Hs & Hn & _ & _).
    eapply runs_bind; [by apply runs_try_ok|]. simpl. eapply runs_bind; [apply runs_lift|]. simpl.
    apply (runs_send_txn R [(KDatabase d, s); (KDatabaseId (mkDatabaseId i), n)]
      [CDel (KDatabase d); CDel (KDatabaseId (mkDatabaseId i))]); [|by repeat constructor|simpl; lia|apply runs_ret].
    repeat constructor; done.
  - eapply runs_bind; [by apply runs_try_err|]. unfold unknown_db. simpl.
    destruct (dd_if_exists req); [apply runs_ret|apply runs_throw].
Qed.

Lemma runs_rename_database fuel req c :
  schema_key_wf (KDatabase (mkDatabaseNameIdent (tenant (rd_name_ident req)) (rd_new_db_name req))) →
  (c_seq c + 2 < u64_modulus)%N →
  runs catR (rename_database (S fuel) req) c
    (res_map Some (spec_rename_database c req).1) (spec_rename_database c req).2.
Proof.
  intros Hwf Hroom. apply runs_typed. intros Ht. apply runs_retry; last first.
  { unfold spec_rename_database. destruct (id_of _ _); [by destruct (id_of _ _)|by destruct (rd_if_exists req)]. }
  unfold spec_rename_database. set (d := rd_name_ident req) in *. set (d' := mkDatabaseNameIdent _ _) in *.
  pose proof (runs_get_id R d c I) as Hid. pose proof (typed_id c (KDatabase d) Ht I) as Ti. simpl in Hid.
  eapply runs_bind; [done|]. destruct (id_of c (KDatabase d)) as [i|]; last first.
  { destruct Ti as [-> _]. simpl. destruct (rd_if_exists req); [apply runs_ret|].
    apply runs_bind_err, runs_lift. }
  destruct Ti as (n & -> & Hn & Hnz & Hpos & Hi). simpl. unfold db_has_to_exist. rewrite Hnz, andb_false_r.
  eapply runs_bind; [by destruct (rd_if_exists req); apply runs_ret|].
  pose proof (runs_get_id R d' c I) as Hid'. pose proof (typed_id c (KDatabase d') Ht I) as Ti'. simpl in Hid'.
  eapply runs_bind; [done|]. destruct (id_of c (KDatabase d')) as [i'|].
  - destruct Ti' as (n' & -> & _ & Hnz' & _). simpl. unfold db_has_to_not_exist. rewrite Hnz'.
    apply runs_bind_err, runs_lift.
  - destruct Ti' as [-> Hz]. simpl. eapply runs_bind; [apply runs_lift|].
    destruct (serialize_id_ok i Hi) as (b & Hb & Hd). rewrite Hb. eapply runs_bind; [apply runs_lift|]. simpl.
    apply (runs_send_txn R [(KDatabase d, n); (KDatabase d', 0%N)] [CDel (KDatabase d); CPut (KDatabase d') b (VId i)]);
      [repeat constructor; done| |simpl; lia|apply runs_ret].
    repeat constructor; try done; by destruct Hwf.
Qed.

Lemma runs_get_database req c :
  runs catR (get_database (PbDb:=PbDb) req) c (spec_get_database c req) c.
Proof.
  apply runs_typed. intros Ht. unfold get_database, spec_get_database.
  pose proof (runs_get_db_or_err (gd_inner req) "get_database" c Ht) as Hdb.
  destruct (db_of c (gd_inner req)) as [[[i n] m]|].
  - destruct Hdb as (s & Hrun & _). eapply runs_bind; [done|]. apply runs_ret.
  - by apply runs_bind_err.
Qed.

(** *** Tables *)
Lemma runs_create_table fuel req c :
  utf8_valid (tn_table_name (ct_name_ident req)) = true → storable (PB:=PbTb) (ct_table_meta req) →
  (c_seq c + 4 < u64_modulus)%N →
  runs catR (create_table (PbDb:=PbDb) (PbTb:=PbTb) (S fuel) req) c
    (res_map Some (spec_create_table c req).1) (spec_create_table c req).2.
Proof.
  intros Hwf Hst Hroom. apply runs_typed. intros Ht. apply runs_retry; last first.
  { unfold spec_create_table. destruct (db_of _ _) as [[[]]|]; [|done].
    by destruct (id_of _ _), (ct_if_not_exists req). }
  unfold spec_create_table. set (t := ct_name_ident req) in *.
  pose proof (runs_get_db_or_err (db_name_ident t) "create_table" c Ht) as Hdb.
  destruct (db_of c (db_name_ident t)) as [[[i n] m]|]; [|by apply runs_bind_err].
  destruct Hdb as (s & Hrun & _ & Hn & Hm & Hi). eapply runs_bind; [done|]. simpl.
  set (k := mkDBIdTableName i (tn_table_name t)) in *.
  pose proof (runs_get_id R k c I) as Hid. pose proof (typed_id c (KTable k) Ht I) as Ti. simpl in Hid.
  eapply runs_bind; [done|]. destruct (id_of c (KTable k)) as [ti|].
  - destruct Ti as (n' & -> & _ & _ & Hpos & _). simpl. rewrite Hpos.
    destruct (ct_if_not_exists req); [apply runs_ret|apply runs_throw].
  - destruct Ti as [-> Hz]. simpl.
    eapply runs_bind; [apply (runs_fetch_id R mkTableIdGen); [done|lia]|]. simpl.
    destruct (serialize_id_ok (c_seq c + 1)) as (b & Hb & Hd); [lia|].
    destruct (struct_roundtrip (PB:=PbDb) m Hm) as (b1 & Hb1 & Hd1).
    destruct (struct_roundtrip (PB:=PbTb) (ct_table_meta req) Hst) as (b2 & Hb2 & Hd2).
    rewrite Hb, Hb1, Hb2. eapply runs_bind; [apply runs_lift|]. simpl.
    apply (runs_send_txn R [(KDatabaseId (mkDatabaseId i), n); (KTable k, 0%N)]
      [CPut (KDatabaseId (mkDatabaseId i)) b1 (VDb m); CPut (KTable k) b (VId (c_seq c + 1));
       CPut (KTableId (mkTableId (c_seq c + 1))) b2 (VTb (ct_table_meta req))]);
      [| |simpl; lia|apply runs_ret].
    + repeat constructor; simpl; unfold cat_seq in *; simpl; by rewrite lookup_insert_ne.
    + repeat constructor; simpl; try done; lia.
Qed.

Lemma runs_drop_table fuel req c :
  (c_seq c + 3 < u64_modulus)%N →
  runs catR (drop_table (PbDb:=PbDb) (PbTb:=PbTb) (S fuel) req) c
    (res_map Some (spec_drop_table c req).1) (spec_drop_table c req).2.
Proof.
  intros Hroom. apply runs_typed. intros Ht. apply runs_retry; last first.
  { unfold spec_drop_table. destruct (db_of _ _) as [[[]]|]; [|done].
    by destruct (id_of _ _), (dt_if_exists req). }
  unfold spec_drop_table. set (t := dt_name_ident req) in *.
  pose proof (runs_get_db_or_err (db_name_ident t) "drop_table" c Ht) as Hdb.
  destruct (db_of c (db_name_ident t)) as [[[i n] m]|]; [|by apply runs_bind_err].
  destruct Hdb as (s & Hrun & _ & Hn & Hm & Hi). eapply runs_bind; [done|]. simpl.
  set (k := mkDBIdTableName i (tn_table_name t)) in *.
  pose proof (runs_get_id R k c I) as Hid. pose proof (typed_id c (KTable k) Ht I) as Ti. simpl in Hid.
  eapply runs_bind; [done|]. destruct (id_of c (KTable k)) as [ti|]; last first.
  { destruct Ti as [-> Hz]. simpl. destruct (dt_if_exists req); [apply runs_ret|apply runs_throw]. }
  destruct Ti as (n' & -> & Hn' & Hnz & _ & _). simpl. rewrite Hnz.
  eapply runs_bind; [apply (runs_get_tb R ti c (PbDb:=PbDb))|].
  assert (∃ mo, cat_tb c ti = (cat_seq c (KTableId (mkTableId ti)), mo)) as [mo ->].
  { pose proof (typed_tb c ti Ht) as Tt. destruct (tb_meta_of c ti) as [[n2 m2]|].
    - destruct Tt as (-> & -> & _). eauto.
    - destruct Tt as (-> & ->). eauto. }
  simpl. destruct (struct_roundtrip (PB:=PbDb) m Hm) as (b1 & Hb1 & Hd1). rewrite Hb1.
  eapply runs_bind; [apply runs_lift|]. simpl.
  apply (runs_send_txn R
    [(KDatabaseId (mkDatabaseId i), n); (KTable k, n'); (KTableId (mkTableId ti), cat_seq c (KTableId (mkTableId ti)))]
    [CPut (KDatabaseId (mkDatabaseId i)) b1 (VDb m); CDel (KTable k); CDel (KTableId (mkTableId ti))]);
    [by repeat constructor|by repeat constructor|simpl; lia|apply runs_ret].
Qed.

Lemma runs_rename_table fuel req c :
  utf8_valid (rt_new_table_name req) = true → (c_seq c + 4 < u64_modulus)%N →
  runs catR (rename_table (PbDb:=PbDb) (S fuel) req) c
    (res_map Some (spec_rename_table c req).1) (spec_rename_table c req).2.
Proof.
  intros Hwf Hroom. apply runs_typed. intros Ht. apply runs_retry; last first.
  { unfold spec_rename_table. destruct (db_of _ _) as [[[]]|]; [|done].
    destruct (id_of _ _); [|by destruct (rt_if_exists req)].
    destruct (db_of _ _) as [[[]]|]; [|done]. by destruct (id_of _ _). }
  unfold spec_rename_table. set (t := rt_name_ident req) in *. set (t' := mkTableNameIdent _ _ _) in *.
  pose proof (runs_get_db_or_err (db_name_ident t) "rename_table" c Ht) as Hdb.
  destruct (db_of c (db_name_ident t)) as [[[i n] m]|]; [|by apply runs_bind_err].
  destruct Hdb as (s & Hrun & _ & Hn & Hm & Hi). eapply runs_bind; [done|]. simpl.
  set (k := mkDBIdTableName i (tn_table_name t)) in *.
  pose proof (runs_get_id R k c I) as Hid. pose proof (typed_id c (KTable k) Ht I) as Ti. simpl in Hid.
  eapply runs_bind; [done|]. destruct (id_of c (KTable k)) as [ti|]; last first.
  { destruct Ti as [-> Hz]. simpl. destruct (rt_if_exists req); [apply runs_ret|].
    apply runs_bind_err, runs_lift. }
  destruct Ti as (nk & -> & Hnk & Hnz & _ & Hti). simpl. unfold table_has_to_exist. rewrite Hnz, andb_false_r.
  eapply runs_bind; [by destruct (rt_if_exists req); apply runs_ret|].
  pose proof (runs_get_db_or_err (db_name_ident t') "rename_table: new db" c Ht) as Hdb'.
  destruct (db_of c (db_name_ident t')) as [[[i' n'] m']|]; [|by apply runs_bind_err].
  destruct Hdb' as (s' & Hrun' & _ & Hn' & Hm' & Hi'). eapply runs_bind; [done|]. simpl.
  set (k' := mkDBIdTableName i' (rt_new_table_name req)) in *.
  pose proof (runs_get_id R k' c I) as Hid'. pose proof (typed_id c (KTable k') Ht I) as Ti'. simpl in Hid'.
  eapply runs_bind; [done|]. destruct (id_of c (KTable k')) as [ti'|].
  { destruct Ti' as (nk' & -> & _ & Hnz' & _). simpl. unfold table_has_to_not_exist. rewrite Hnz'.
    apply runs_bind_err, runs_lift. }
  destruct Ti' as [-> Hz]. simpl. eapply runs_bind; [apply runs_lift|].
  destruct (serialize_id_ok ti Hti) as (b & Hb & Hd).
  destruct (struct_roundtrip (PB:=PbDb) m Hm) as (b1 & Hb1 & Hd1).
  destruct (struct_roundtrip (PB:=PbDb) m' Hm') as (b2 & Hb2 & Hd2). rewrite Hb, Hb1, Hb2. simpl.
  destruct (i =? i')%N; (eapply runs_bind; [apply runs_lift|]); simpl.
  - apply (runs_send_txn R
      [(KDatabaseId (mkDatabaseId i), n); (KDatabaseId (mkDatabaseId i'), n'); (KTable k, nk); (KTable k', 0%N)]
      [CDel (KTable k); CPut (KTable k') b (VId ti); CPut (KDatabaseId (mkDatabaseId i)) b1 (VDb m)]);
      [by repeat constructor|by repeat constructor|simpl; lia|apply runs_ret].
  - apply (runs_send_txn R
      [(KDatabaseId (mkDatabaseId i), n); (KDatabaseId (mkDatabaseId i'), n'); (KTable k, nk); (KTable k', 0%N)]
      [CDel (KTable k); CPut (KTable k') b (VId ti); CPut (KDatabaseId (mkDatabaseId i)) b1 (VDb m);
       CPut (KDatabaseId (mkDatabaseId i')) b2 (VDb m')]);
      [by repeat constructor|by repeat constructor|simpl; lia|apply runs_ret].
Qed.

Lemma runs_get_table req c :
  runs catR (get_table (PbTb:=PbTb) req) c (spec_get_table c req) c.
Proof.
  apply runs_typed. intros Ht. unfold get_table, spec_get_table. set (t := gt_inner req).
  pose proof (runs_get_id R (db_name_ident t) c I) as Hid.
  pose proof (typed_id c (KDatabase (db_name_ident t)) Ht I) as Ti. simpl in Hid.
  eapply runs_bind; [done|]. destruct (id_of c (KDatabase _)) as [i|].
  2: { destruct Ti as [-> _]. simpl. apply runs_bind_err, runs_lift. }
  destruct Ti as (n & -> & _ & Hnz & _). simpl. unfold db_has_to_exist. rewrite Hnz.
  eapply runs_bind; [apply runs_lift|]. set (k := mkDBIdTableName i (tn_table_name t)) in *.
  pose proof (runs_get_id R k c I) as Hid'. pose proof (typed_id c (KTable k) Ht I) as Ti'. simpl in Hid'.
  eapply runs_bind; [done|]. destruct (id_of c (KTable k)) as [ti|].
  2: { destruct Ti' as [-> _]. simpl. apply runs_bind_err, runs_lift. }
  destruct Ti' as (n' & -> & _ & Hnz' & _). simpl. unfold table_has_to_exist. rewrite Hnz'.
  eapply runs_bind; [apply runs_lift|]. eapply runs_bind; [apply (runs_get_tb R ti c (PbDb:=PbDb))|].
  pose proof (typed_tb c ti Ht) as Tt. destruct (tb_meta_of c ti) as [[n2 m2]|].
  - destruct Tt as (-> & _ & Hnz2 & _). simpl. rewrite Hnz2.
    eapply runs_bind; [apply runs_lift|]. eapply runs_bind; [apply runs_lift|]. apply runs_ret.
  - destruct Tt as (-> & _). simpl. apply runs_bind_err, runs_lift.
Qed.

Lemma runs_get_table_by_id ti c :
  runs catR (get_table_by_id (PbTb:=PbTb) ti) c (spec_get_table_by_id c ti) c.
Proof.
  apply runs_typed. intros Ht. unfold get_table_by_id, spec_get_table_by_id.
  eapply runs_bind; [apply (runs_get_tb R ti c (PbDb:=PbDb))|].
  pose proof (typed_tb c ti Ht) as Tt. destruct (tb_meta_of c ti) as [[n m]|].
  - destruct Tt as (-> & _ & Hnz & _). simpl. rewrite Hnz. eapply runs_bind; [apply runs_lift|]. apply runs_ret.
  - destruct Tt as (-> & _). apply runs_throw.
Qed.

Lemma runs_upsert_table_option fuel req c :
  (∀ m opts, storable (PB:=PbTb) m → storable (PB:=PbTb) (set_options m opts)) →
  (c_seq c + 1 < u64_modulus)%N →
  runs catR (upsert_table_option (PbTb:=PbTb) (S fuel) req) c
    (res_map Some (spec_upsert_table_option c req).1) (spec_upsert_table_option c req).2.
Proof.
  intros Hopts Hroom. apply runs_typed. intros Ht. apply runs_retry; last first.
  { unfold spec_upsert_table_option. destruct (tb_meta_of _ _) as [[]|]; [|done]. by destruct (seq_matches _ _). }
  unfold spec_upsert_table_option. set (ti := uto_table_id req).
  eapply runs_bind; [apply (runs_get_tb R ti c (PbDb:=PbDb))|].
  pose proof (typed_tb c ti Ht) as Tt. destruct (tb_meta_of c ti) as [[n m]|].
  2: { destruct Tt as (-> & _). apply runs_throw. }
  destruct Tt as (-> & Hn & Hnz & Hm & Hti). simpl. rewrite Hnz. simpl. rewrite match_seq_ok.
  destruct (seq_matches (uto_seq req) n); simpl; [|apply runs_throw].
  eapply runs_bind; [apply runs_lift|].
  destruct (struct_roundtrip (PB:=PbTb) _ (Hopts m (update_options (options m) (uto_options req)) Hm))
    as (b & Hb & Hd).
  rewrite Hb. eapply runs_bind; [apply runs_lift|]. simpl.
  apply (runs_send_txn R [(KTableId (mkTableId ti), n)]
    [CPut (KTableId (mkTableId ti)) b (VTb (set_options m (update_options (options m) (uto_options req))))]);
    [by repeat constructor|repeat constructor; simpl; auto|simpl; lia|apply runs_ret].
Qed.
End refine.
