(* ===== verification/SchemaList.v ===== *)
(** * Listing databases and tables.

    What [list_databases] and [list_tables] return, as functions on catalogs, and the
    proof that the code computes them: the records under a prefix are read in key
    order, and the metas of the ids found there in one multi-get. *)
From S2P Require Import Prelude ByteOrder MetaTypes KvApi KeyCodec SchemaApi SchemaSpec SchemaOps.

#[export] Instance schema_to_key_Inj : Inj (=) (=) schema_to_key.
Proof. intros k1 k2. apply schema_to_key_inj. Qed.

Section spec.
Context {DateTime DataSchema : Type}.
Abbreviation catalog := (cat DateTime DataSchema).
Abbreviation sval := (schema_val DateTime DataSchema).
Implicit Types c : catalog.

(** The records of a catalog by their string keys, and those under a prefix. *)
Definition cat_strings c : gmap string (schema_key * (N * sval)) :=
  kmap schema_to_key (map_imap (λ k r, Some (k, r)) (c_recs c)).
Definition cat_list c (p : string) : list (schema_key * (N * sval)) := (list_prefix (cat_strings c) p).*2.

Lemma lookup_cat_strings c s k r :
  cat_strings c !! s = Some (k, r) ↔ s = schema_to_key k ∧ c_recs c !! k = Some r.
Proof.
  unfold cat_strings. rewrite (lookup_kmap_Some (M2:=gmap string) schema_to_key) by apply _. split.
  - intros (k' & -> & Hk). rewrite map_lookup_imap in Hk. destruct (c_recs c !! k') eqn:E; by simplify_eq/=.
  - intros (-> & Hk). exists k. split; [done|]. by rewrite map_lookup_imap, Hk.
Qed.

(** The pairs of a name and an id under a prefix, for the keys selected by [un]. *)
Definition cat_ids {K} (un : schema_key → option K) c (p : string) : list (K * N) :=
  omap (λ '(k, (_, x)), match un k, x with Some d, VId i => Some (d, i) | _, _ => None end) (cat_list c p).

Definition un_db (k : schema_key) : option DatabaseNameIdent := match k with KDatabase d => Some d | _ => None end.
Definition un_tb (k : schema_key) : option DBIdTableName := match k with KTable t => Some t | _ => None end.

Definition db_info c (t : string) (di : DatabaseNameIdent * N) : list (DatabaseInfo DateTime) :=
  match db_meta_of c di.2 with
  | Some (n, m) => [mkDatabaseInfo (mkDatabaseIdent di.2 n) (mkDatabaseNameIdent t (db_name di.1)) m]
  | None => []
  end.
Definition spec_list_databases c (req : ListDatabaseReq) : list (DatabaseInfo DateTime) :=
  concat (db_info c (ld_tenant req) <$> cat_ids un_db c (to_key (mkDatabaseNameIdent (ld_tenant req) ""))).

Definition tb_info c (d : DatabaseNameIdent) (ti : DBIdTableName * N) : list (TableInfo DateTime DataSchema) :=
  match tb_meta_of c ti.2 with
  | Some (n, m) =>
      [mkTableInfo (mkTableIdent ti.2 n) ("'" +:+ db_name d +:+ "'.'" +:+ table_name ti.1 +:+ "'")
         (table_name ti.1) m]
  | None => []
  end.
Definition spec_list_tables c (req : ListTableReq) : res MetaError (list (TableInfo DateTime DataSchema)) :=
  let d := lt_inner req in
  match id_of c (KDatabase d) with
  | None => Err (unknown_db d "list_tables")
  | Some i => Ok (concat (tb_info c d <$> cat_ids un_tb c (to_key (mkDBIdTableName i ""))))
  end.
End spec.

(** A loop over the elements of a list with their indices. *)
Lemma res_mapM_imap {E A B C} (Rel : A → B → Prop) (h : A → C) (body : nat * B → res E C) (l : list A) (l' : list B) :
  Forall2 Rel l l' → (∀ i a b, l !! i = Some a → Rel a b → body (i, b) = Ok (h a)) →
  res_mapM body (imap pair l') = Ok (h <$> l).
Proof.
  intros Hrel. revert body. induction Hrel as [|a b l l' Hab Hrel IH]; intros body Hbody; [done|].
  csimpl. rewrite (Hbody 0 a b eq_refl Hab). simpl.
  assert (res_mapM body (imap (pair ∘ S) l') = res_mapM (λ '(i, b), body (S i, b)) (imap pair l')) as ->.
  { change (imap (pair ∘ S) l') with (imap (λ n, prod_map S id ∘ pair n) l').
    rewrite <-(fmap_imap (@pair nat B) (prod_map S id)). generalize (imap (@pair nat B) l') as l0.
    induction l0 as [|[i x] l0 IH0]; csimpl; [done|]. by rewrite IH0. }
  rewrite (IH (λ '(i, b), body (S i, b))); [done|]. intros i a' b' Hi. by apply (Hbody (S i)).
Qed.

Section refine.
Context {W : Type} `{!KVApi W, !Clock, !ClockLaws} (R : W → kv_store → Prop) `{!KVApiLaws W R}.
Context `{!MetaCodec, !MetaCodecLaws} {DateTime DataSchema PbDb PbTb : Type}.
Context `{StructLaws PbDb (DatabaseMeta DateTime), StructLaws PbTb (TableMeta DateTime DataSchema)}.
Abbreviation catalog := (cat DateTime DataSchema).
Abbreviation reprs := (cat_repr (PbDb:=PbDb) (PbTb:=PbTb)).
Abbreviation recok := (rec_ok (PbDb:=PbDb) (PbTb:=PbTb)).
Abbreviation catR := (cat_of R (PbDb:=PbDb) (PbTb:=PbTb)).
Implicit Types c : catalog.

(** A record listed by a prefix, next to the record of the catalog it stands for. *)
Definition listed_rec (s : string) (v : SeqV bytes) (kr : schema_key * (N * schema_val DateTime DataSchema)) : Prop :=
  s = schema_to_key kr.1 ∧ immortal v ∧ recok kr.1 (data v) kr.2.2 ∧ schema_key_wf kr.1.

Lemma repr_list st c p :
  reprs st c → (∀ s, String.prefix p s = true → listed s) →
  Forall2 (λ a b, a.1 = b.1 ∧ listed_rec a.1 a.2 b.2) (list_prefix (kv st) p) (list_prefix (cat_strings c) p).
Proof.
  intros Hr Hp. apply (list_prefix_rel listed_rec). intros s Hs.
  destruct (kv st !! s) as [v|] eqn:Hv.
  - destruct (cr_listed _ _ Hr s v Hv (Hp s Hs)) as (k & ->).
    pose proof (cr_rec _ _ Hr k) as Hk. destruct (c_recs c !! k) as [[n x]|] eqn:Hc; [|congruence].
    destruct Hk as (v' & Hv' & <- & _ & Him & Hok). rewrite Hv in Hv'. injection Hv' as <-.
    rewrite (proj2 (lookup_cat_strings c (schema_to_key k) k (seq v, x))) by done. constructor.
    split_and!; [done..|]. by eapply cr_wf.
  - destruct (cat_strings c !! s) as [[k [n x]]|] eqn:Hc; [|constructor].
    apply lookup_cat_strings in Hc as [-> Hc]. pose proof (cr_rec _ _ Hr k) as Hk. rewrite Hc in Hk.
    destruct Hk as (v' & Hv' & _). congruence.
Qed.

(** Listing the ids under a prefix that selects keys of one kind. *)
Lemma runs_list_id {K} `{SchemaKey K} `{!KVApiKeyLaws K} (un : schema_key → option K) (key : K) c :
  (∀ s, String.prefix (to_key key) s = true → listed s) →
  (∀ k, String.prefix (to_key key) (schema_to_key k) = true → schema_key_wf k →
    match k with KDatabase _ | KTable _ => True | _ => False end ∧ ∃ d, un k = Some d ∧ k = skey d ∧ key_wf d) →
  runs catR (list_id_value key) c (Ok ((cat_ids un c (to_key key)).*1, (cat_ids un c (to_key key)).*2)) c.
Proof.
  intros Hp Hun w (st & Hw & Hr). unfold list_id_value.
  destruct (prefix_list_kv_ok (to_key key) st w Hw) as (w' & Heq & Hw'). rewrite (bind_ok _ _ _ _ _ Heq).
  pose proof (repr_list st c _ Hr Hp) as Hl. unfold kv_list in *.
  destruct (kv_live_list_immortal st (list_prefix (kv st) (to_key key))) as (-> & Hkv & Hls).
  { apply Forall_forall. intros [s v] (i & Hi)%list_elem_of_lookup.
    destruct (Forall2_lookup_l _ _ _ _ _ Hl Hi) as (b & _ & _ & _ & Him & _). done. }
  exists w'. split; [|by eexists; split; [done|]; eapply cat_repr_same].
  assert (∀ a, a ∈ list_prefix (kv st) (to_key key) → String.prefix (to_key key) a.1 = true) as Hpre
    by by intros [k v] [_ ?]%elem_of_list_prefix.
  match goal with |- bind (lift ?x) _ _ = _ =>
    assert (x = Ok (cat_ids un c (to_key key))) as ->; [|done] end.
  clear Heq Hw' Hkv Hls. unfold cat_ids, cat_list. revert Hpre. induction Hl as [|[s v] [s' [k [n x]]] l l' Hrel _ IH]; intros Hpre; [done|].
  destruct Hrel as (Hs & Hk & _ & Hok & Hwf). simpl in Hs, Hk, Hok, Hwf. subst s' s.
  csimpl. rewrite IH by (intros; apply Hpre; by right).
  destruct (Hun k) as (Hkind & d & Hd & -> & Hdwf); [by apply (Hpre (schema_to_key k, v)); left|done|].
  rewrite Hd, <-skey_to_key, key_roundtrip by done. unfold rec_ok in Hok. unfold deserialize_id.
  destruct (skey d); try done; destruct x; try done; destruct Hok as [-> _]; done.
Qed.

(** Reading several records at once. *)
Lemma kv_mget_schema st c ks :
  reprs st c →
  (kv_mget st (schema_to_key <$> ks)).1 = (λ k, kv st !! schema_to_key k) <$> ks ∧
  reprs (kv_mget st (schema_to_key <$> ks)).2 c.
Proof.
  revert st. induction ks as [|k ks IH]; intros st Hr; [done|]. csimpl.
  destruct (kv_get_schema st c k Hr) as [Hv Hr1]. pose proof (kv_live_kv st (kv st !! schema_to_key k)) as Hkv.
  fold (kv_get st (schema_to_key k)) in Hkv. destruct (kv_get st (schema_to_key k)) as [o st1]. simpl in *.
  destruct (IH st1 Hr1) as [Hvs Hr2]. destruct (kv_mget st1 _) as [vs st2]. simpl in *. by rewrite Hv, Hvs, Hkv.
Qed.

Definition mget_rec c (k : schema_key) (o : option (SeqV bytes)) : Prop :=
  match c_recs c !! k with
  | Some (n, x) => ∃ v, o = Some v ∧ seq v = n ∧ recok k (data v) x
  | None => o = None
  end.
Lemma runs_mget_kv {A} ks c (f : list (option (SeqV bytes)) → M W MetaError A) r :
  (∀ vs, Forall2 (mget_rec c) ks vs → runs catR (f vs) c r c) →
  runs catR (let! vs := mget_kv (schema_to_key <$> ks) in f vs) c r c.
Proof.
  intros Hf w (st & Hw & Hr).
  destruct (mget_kv_ok (schema_to_key <$> ks) st) with w as (w1 & Heq & Hw1); [|done|].
  { apply Forall_fmap, Forall_true. intros. apply schema_key_utf8. }
  destruct (kv_mget_schema st c ks Hr) as [Hvs Hr1]. rewrite (bind_ok _ _ _ _ _ Heq), Hvs.
  apply Hf; [|by eexists]. apply Forall2_fmap_r, Forall_Forall2_diag, Forall_true. intros k. simpl.
  unfold mget_rec, compose. pose proof (cr_rec _ _ Hr k) as Hk. destruct (c_recs c !! k) as [[n x]|]; [|done].
  destruct Hk as (v & -> & ? & _ & _ & ?). eauto.
Qed.

Lemma listed_database_prefix t s : String.prefix (to_key (mkDatabaseNameIdent t "")) s = true → listed s.
Proof.
  intros (r & ->)%prefix_app. left. change (to_key (mkDatabaseNameIdent t "")) with
    ((PREFIX_DATABASE +:+ "/") +:+ escape t +:+ "/" +:+ escape ""). rewrite string_app_assoc. apply app_prefix.
Qed.
Lemma listed_table_prefix i s : String.prefix (to_key (mkDBIdTableName i "")) s = true → listed s.
Proof.
  intros (r & ->)%prefix_app. right. change (to_key (mkDBIdTableName i "")) with
    ((PREFIX_TABLE +:+ "/") +:+ pretty i +:+ "/" +:+ escape ""). rewrite string_app_assoc. apply app_prefix.
Qed.

Lemma runs_list_databases req c :
  runs catR (list_databases (PbDb:=PbDb) req) c (Ok (spec_list_databases c req)) c.
Proof.
  unfold list_databases, spec_list_databases. set (p := mkDatabaseNameIdent (ld_tenant req) "").
  eapply runs_bind.
  { apply (runs_list_id un_db p); [apply listed_database_prefix|].
    intros k (d & ->)%database_prefix Hwf. split; [done|]. eexists. split_and!; [done..|apply Hwf]. }
  cbv beta iota. set (l := cat_ids un_db c (to_key p)).
  replace ((λ db_id, to_key (mkDatabaseId db_id)) <$> l.*2)
    with (schema_to_key <$> ((λ a, KDatabaseId (mkDatabaseId a.2)) <$> l)) by (by rewrite <-!list_fmap_compose).
  apply (runs_mget_kv ((λ a, KDatabaseId (mkDatabaseId a.2)) <$> l)). intros vs Hvs. rewrite Forall2_fmap_l in Hvs.
  rewrite (res_mapM_imap _ (db_info c (ld_tenant req)) _ _ _ Hvs).
  { eapply runs_bind; [apply runs_lift|apply runs_ret]. }
  intros i [d j] o Hi Hrec. unfold mget_rec in Hrec. unfold db_info, db_meta_of. simpl in *.
  destruct (c_recs c !! KDatabaseId (mkDatabaseId j)) as [[n x]|]; [|by subst o].
  destruct Hrec as (v & -> & <- & Hok). destruct x; try done. destruct Hok as [-> _]. simpl.
  by rewrite !list_lookup_fmap, Hi.
Qed.

Lemma runs_list_tables req c :
  runs catR (list_tables (PbTb:=PbTb) req) c (spec_list_tables c req) c.
Proof.
  apply (runs_typed R (PbDb:=PbDb) (PbTb:=PbTb)). intros Ht.
  unfold list_tables, spec_list_tables. set (d := lt_inner req).
  pose proof (runs_get_id R d c I (PbDb:=PbDb) (PbTb:=PbTb)) as Hid.
  pose proof (typed_id c (KDatabase d) Ht I) as Ti. simpl in Hid.
  eapply runs_bind; [done|]. destruct (id_of c (KDatabase d)) as [i|].
  2: { destruct Ti as [-> _]. simpl. apply runs_bind_err, runs_lift. }
  destruct Ti as (n & -> & _ & Hnz & _). simpl. unfold db_has_to_exist. rewrite Hnz.
  eapply runs_bind; [apply runs_lift|]. set (p := mkDBIdTableName i ""). eapply runs_bind.
  { apply (runs_list_id un_tb p); [apply listed_table_prefix|].
    intros k (t & ->)%table_prefix Hwf. split; [done|]. eexists. split_and!; [done..|apply Hwf]. }
  cbv beta iota. set (l := cat_ids un_tb c (to_key p)).
  rewrite (res_mapM_imap (λ a b, a.1 = b) (schema_to_key ∘ (λ a, KTableId (mkTableId a.2))) _ l l.*1).
  2: { by apply Forall2_fmap_r, Forall_Forall2_diag, Forall_true. }
  2: { intros j [t ti] b Hj _. simpl. by rewrite list_lookup_fmap, Hj. }
  eapply runs_bind; [apply runs_lift|].  rewrite list_fmap_compose.
  apply (runs_mget_kv ((λ a, KTableId (mkTableId a.2)) <$> l)). intros vs Hvs. rewrite Forall2_fmap_l in Hvs.
  rewrite (res_mapM_imap _ (tb_info c d) _ _ _ Hvs).
  { eapply runs_bind; [apply runs_lift|apply runs_ret]. }
  intros j [t ti] o Hi Hrec. unfold mget_rec in Hrec. unfold tb_info, tb_meta_of. simpl in *.
  destruct (c_recs c !! KTableId (mkTableId ti)) as [[n' x]|]; [|by subst o].
  destruct Hrec as (v & -> & <- & Hok). destruct x; try done. destruct Hok as [-> _]. simpl.
  by rewrite !list_lookup_fmap, Hi.
Qed.
End refine.

(** ** What the lists contain *)
Lemma sorted_concat {A B C} (R : relation C) (f : A → C) (g : B → C) (h : A → list B) (l : list A) :
  StronglySorted R (f <$> l) → (∀ x y, y ∈ h x → g y = f x) → (∀ x, length (h x) ≤ 1) →
  StronglySorted R (g <$> concat (h <$> l)).
Proof.
  intros Hs Hg Hh. remember (f <$> l) as fl eqn:Hfl. revert l Hfl.
  induction Hs as [|a fl Hs IH Hall]; intros [|x l] Hfl; try done; [constructor|].
  csimpl in *. simplify_eq. rewrite fmap_app. specialize (IH l eq_refl).
  assert (Forall (R (f x)) (g <$> concat (h <$> l))) as Hall'.
  { apply Forall_fmap, Forall_forall. intros y Hy. apply list_elem_of_In, in_concat in Hy as (ys & Hys & Hy).
    apply list_elem_of_In in Hys, Hy. apply list_elem_of_fmap in Hys as (x' & -> & Hx').
    simpl. rewrite (Hg x' y Hy). eapply Forall_forall in Hall; [done|]. by apply list_elem_of_fmap_2. }
  pose proof (Hg x) as Hx. specialize (Hh x). destruct (h x) as [|y [|]]; simpl in *; [done| |lia].
  constructor; [done|]. by rewrite (Hx y ltac:(left)).
Qed.

Section contents.
Context {DateTime DataSchema : Type}.
Abbreviation catalog := (cat DateTime DataSchema).
Implicit Types c : catalog.

Lemma elem_of_cat_list c p k r :
  (k, r) ∈ cat_list c p ↔ c_recs c !! k = Some r ∧ String.prefix p (schema_to_key k) = true.
Proof.
  unfold cat_list. rewrite list_elem_of_fmap. split.
  - intros ([s [k' r']] & Heq & [Hs Hp]%elem_of_list_prefix). simplify_eq/=.
    by apply lookup_cat_strings in Hs as [-> Hs].
  - intros [Hr Hp]. exists (schema_to_key k, (k, r)). split; [done|]. apply elem_of_list_prefix.
    split; [|done]. by apply lookup_cat_strings.
Qed.

Lemma elem_of_cat_ids {K} (un : schema_key → option K) (sk : K → schema_key) c p d i :
  (∀ k d, un k = Some d ↔ k = sk d) →
  (d, i) ∈ cat_ids un c p ↔ id_of c (sk d) = Some i ∧ String.prefix p (schema_to_key (sk d)) = true.
Proof.
  intros Hun. unfold cat_ids, id_of. rewrite list_elem_of_omap. split.
  - intros ([k [n x]] & [Hk Hp]%elem_of_cat_list & Heq). destruct (un k) as [d'|] eqn:Hd; [|done].
    destruct x; simplify_eq. apply Hun in Hd as ->. by rewrite Hk.
  - intros [Hi Hp]. destruct (c_recs c !! sk d) as [[n [j| | |]]|] eqn:Hk; simplify_eq.
    exists (sk d, (n, VId i)). split; [by apply elem_of_cat_list|].
    by rewrite (proj2 (Hun (sk d) d) eq_refl).
Qed.

(** The ids are listed in the order of the keys of their names. *)
Lemma cat_ids_sorted {K} (un : schema_key → option K) (sk : K → schema_key) c p :
  (∀ k d, un k = Some d ↔ k = sk d) →
  StronglySorted bytes_lt ((λ di, schema_to_key (sk di.1)) <$> cat_ids un c p).
Proof.
  intros Hun. unfold cat_ids, cat_list.
  assert (StronglySorted bytes_lt (list_prefix (cat_strings c) p).*1) as Hs
    by apply fst_filter_sorted, sorted_map_keys.
  assert (∀ s k r, (s, (k, r)) ∈ list_prefix (cat_strings c) p → s = schema_to_key k) as Hkey.
  { by intros s k r [[Hs' _]%lookup_cat_strings _]%elem_of_list_prefix. }
  induction (list_prefix (cat_strings c) p) as [|[s [k [n x]]] l IH]; csimpl; [constructor|].
  csimpl in Hs. apply StronglySorted_inv in Hs as [Hs Hall].
  assert (StronglySorted bytes_lt ((λ di, schema_to_key (sk di.1)) <$>
    omap (λ '(k, (_, x)), match un k, x with Some d, VId i => Some (d, i) | _, _ => None end) l.*2)) as IH'.
  { apply IH; [done|]. intros; eapply Hkey; by right. }
  destruct (un k) as [d|] eqn:Hd; [|done]. destruct x; try done. csimpl. constructor; [done|].
  apply Hun in Hd as ->. rewrite <-(Hkey s (sk d) (n, VId id)) by left.
  apply Forall_fmap, Forall_forall. intros [d' i'] ([k' [n' x']] & Hin & Heq)%list_elem_of_omap.
  apply list_elem_of_fmap in Hin as ([s' [k0 r0]] & ? & Hin). simplify_eq/=.
  destruct (un k0) as [d0|] eqn:Hd0; [|done]. destruct x'; simplify_eq. apply Hun in Hd0 as ->. simpl.
  rewrite <-(Hkey s' (sk d') (n', VId i')) by by right.
  eapply Forall_forall in Hall; [done|]. apply list_elem_of_fmap. by exists (s', (sk d', (n', VId i'))).
Qed.

Lemma un_db_spec k d : un_db k = Some d ↔ k = KDatabase d.
Proof. destruct k; simpl; split; intros; by simplify_eq. Qed.
Lemma un_tb_spec k t : un_tb k = Some t ↔ k = KTable t.
Proof. destruct k; simpl; split; intros; by simplify_eq. Qed.

Lemma elem_of_list_databases c t info :
  info ∈ spec_list_databases c (mkListDatabaseReq t) ↔
  ∃ name, spec_get_database c (mkGetDatabaseReq (mkDatabaseNameIdent t name)) = Ok info.
Proof.
  unfold spec_list_databases, spec_get_database, db_of, db_info. simpl.
  rewrite list_elem_of_In, in_concat. setoid_rewrite <-list_elem_of_In. split.
  - intros (l & ([d i] & -> & [Hi Hp]%(elem_of_cat_ids un_db KDatabase))%list_elem_of_fmap & Hin);
      [|apply un_db_spec]. apply database_prefix in Hp as (name & [= ->]). exists name. rewrite Hi. simpl in Hin.
    destruct (db_meta_of c i) as [[n m]|]; [by apply list_elem_of_singleton in Hin as ->|].
    by apply not_elem_of_nil in Hin.
  - intros (name & Hget). destruct (id_of c _) as [i|] eqn:Hi; [|done].
    destruct (db_meta_of c i) as [[n m]|] eqn:Hm; simplify_eq.
    eexists. split; [|by left]. apply list_elem_of_fmap. exists (mkDatabaseNameIdent t name, i). simpl. rewrite Hm.
    split; [done|]. apply (elem_of_cat_ids un_db KDatabase); [apply un_db_spec|]. split; [done|].
    apply database_prefix. eauto.
Qed.

Lemma list_databases_sorted c t :
  StronglySorted bytes_lt ((λ info, to_key (dbinfo_name_ident _ info)) <$> spec_list_databases c (mkListDatabaseReq t)).
Proof.
  unfold spec_list_databases. simpl ld_tenant.
  assert (Forall (λ di, tenant di.1 = t) (cat_ids un_db c (to_key (mkDatabaseNameIdent t "")))) as Ht.
  { apply Forall_forall. intros [d i] [_ Hp]%(elem_of_cat_ids un_db KDatabase); [|apply un_db_spec].
    apply database_prefix in Hp as (name & [= ->]). done. }
  pose proof (cat_ids_sorted un_db KDatabase c (to_key (mkDatabaseNameIdent t "")) un_db_spec) as Hs.
  revert Ht Hs. generalize (cat_ids un_db c (to_key (mkDatabaseNameIdent t ""))) as l. intros l Ht Hs.
  apply (sorted_concat bytes_lt (λ di, to_key (mkDatabaseNameIdent t (db_name di.1)))).
  - erewrite (Forall_fmap_ext_1 _ _ l); [exact Hs|]. eapply Forall_impl; [exact Ht|].
    intros [[t' d] i]. simpl. by intros ->.
  - intros [d i] info. unfold db_info. simpl. destruct (db_meta_of c i) as [[n m]|]; [|by intros ?%not_elem_of_nil].
    by intros ->%list_elem_of_singleton.
  - intros [d i]. unfold db_info. simpl. by destruct (db_meta_of c i) as [[]|]; simpl; lia.
Qed.

(** A table of the database [d] with the id [i]. *)
Definition table_in c (d : DatabaseNameIdent) (i : N) (name : string) (info : TableInfo DateTime DataSchema) : Prop :=
  ∃ ti n m, id_of c (KTable (mkDBIdTableName i name)) = Some ti ∧ tb_meta_of c ti = Some (n, m) ∧
    info = mkTableInfo (mkTableIdent ti n) ("'" +:+ db_name d +:+ "'.'" +:+ name +:+ "'") name m.

Lemma elem_of_list_tables c d i info :
  info ∈ concat (tb_info c d <$> cat_ids un_tb c (to_key (mkDBIdTableName i ""))) ↔ ∃ name, table_in c d i name info.
Proof.
  rewrite list_elem_of_In, in_concat. setoid_rewrite <-list_elem_of_In. unfold table_in, tb_info. split.
  - intros (l & ([t ti] & -> & [Hi Hp]%(elem_of_cat_ids un_tb KTable))%list_elem_of_fmap & Hin);
      [|apply un_tb_spec]. apply table_prefix in Hp as (name & [= ->]). exists name. simpl in Hin.
    destruct (tb_meta_of c ti) as [[n m]|] eqn:Hm; [|by apply not_elem_of_nil in Hin].
    apply list_elem_of_singleton in Hin as ->. by exists ti, n, m.
  - intros (name & ti & n & m & Hi & Hm & ->). eexists. split; [|by left].
    apply list_elem_of_fmap. exists (mkDBIdTableName i name, ti). simpl. rewrite Hm. split; [done|].
    apply (elem_of_cat_ids un_tb KTable); [apply un_tb_spec|]. split; [done|]. apply table_prefix. eauto.
Qed.
End contents.
