(* ===== verification/SchemaInv.v ===== *)
(** * The integrity of the catalog.

    Names and metas of databases (and of tables) stay in bijection, ids are never
    reused, and sequence numbers stay below the generator, whatever operations are
    performed. *)
From S2P Require Import Prelude ByteOrder MetaTypes KvApi KeyCodec SchemaApi SchemaSpec SchemaOps.

(** ** An index: names to ids, and ids to metas *)
Section index.
Context {K V : Type} `{EqDecision K}.
Implicit Types (names : K → option N) (metas : N → option V).

Record index_inv names metas (bound : N) : Prop := {
  ii_meta k i : names k = Some i → is_Some (metas i);
  ii_inj k1 k2 i : names k1 = Some i → names k2 = Some i → k1 = k2;
  ii_name i : is_Some (metas i) → ∃ k, names k = Some i;
  ii_bound i : is_Some (metas i) → (i ≤ bound)%N;
}.

Lemma index_same names metas bound names' metas' bound' :
  index_inv names metas bound → (bound ≤ bound')%N →
  (∀ k, names' k = names k) → (∀ i, is_Some (metas' i) ↔ is_Some (metas i)) →
  index_inv names' metas' bound'.
Proof.
  intros [Hm Hi Hn Hb] Hle Hnames Hmetas. split.
  - intros k i. rewrite Hnames, Hmetas. eauto.
  - intros k1 k2 i. rewrite !Hnames. eauto.
  - intros i. rewrite Hmetas. intros (k & Hk)%Hn. exists k. by rewrite Hnames.
  - intros i. rewrite Hmetas. intros ?%Hb. lia.
Qed.

Lemma index_create names metas bound names' metas' bound' k i v :
  index_inv names metas bound → names k = None → (bound < i ≤ bound')%N →
  (∀ k', names' k' = if decide (k = k') then Some i else names k') →
  (∀ i', metas' i' = if decide (i = i') then Some v else metas i') →
  index_inv names' metas' bound'.
Proof.
  intros [Hm Hi Hn Hb] Hk Hbound Hnames Hmetas.
  assert (∀ k', names k' ≠ Some i) as Hfresh by (intros k' ?%Hm%Hb; lia). split.
  - intros k' i'. rewrite Hnames, Hmetas. repeat case_decide; intros; simplify_eq; eauto; exfalso; naive_solver.
  - intros k1 k2 i'. rewrite !Hnames. repeat case_decide; intros; simplify_eq; eauto; exfalso; naive_solver.
  - intros i'. rewrite Hmetas. case_decide; [|intros (k' & Hk')%Hn].
    + exists k. rewrite Hnames, decide_True by done. naive_solver.
    + exists k'. rewrite Hnames, decide_False; [done|]. intros <-. congruence.
  - intros i'. rewrite Hmetas. case_decide; [|intros ?%Hb]; lia.
Qed.

Lemma index_drop names metas bound names' metas' bound' k i :
  index_inv names metas bound → names k = Some i → (bound ≤ bound')%N →
  (∀ k', names' k' = if decide (k = k') then None else names k') →
  (∀ i', is_Some (metas' i') ↔ i ≠ i' ∧ is_Some (metas i')) →
  index_inv names' metas' bound'.
Proof.
  intros [Hm Hi Hn Hb] Hk Hle Hnames Hmetas. split.
  - intros k' i'. rewrite Hnames, Hmetas. case_decide; [done|]. intros Hk'. split; [|by eapply Hm].
    intros ->. naive_solver.
  - intros k1 k2 i'. rewrite !Hnames. repeat case_decide; intros; simplify_eq; eauto; exfalso; naive_solver.
  - intros i'. rewrite Hmetas. intros (Hne & (k' & Hk')%Hn). exists k'. rewrite Hnames, decide_False; [done|].
    intros <-. congruence.
  - intros i'. rewrite Hmetas. intros (_ & ?%Hb). lia.
Qed.

Lemma index_rename names metas bound names' metas' bound' k k' i :
  index_inv names metas bound → names k = Some i → names k' = None → (bound ≤ bound')%N →
  (∀ k1, names' k1 = if decide (k' = k1) then Some i else if decide (k = k1) then None else names k1) →
  (∀ i', is_Some (metas' i') ↔ is_Some (metas i')) →
  index_inv names' metas' bound'.
Proof.
  intros [Hm Hi Hn Hb] Hk Hk' Hle Hnames Hmetas. split.
  - intros k1 i'. rewrite Hnames, Hmetas. repeat case_decide; intros; simplify_eq; eauto; exfalso; naive_solver.
  - intros k1 k2 i'. rewrite !Hnames. repeat case_decide; intros; simplify_eq; eauto; exfalso; naive_solver.
  - intros i'. rewrite Hmetas. intros (k1 & Hk1)%Hn. destruct (decide (k = k1)) as [<-|Hne].
    + exists k'. rewrite Hnames, decide_True by done. congruence.
    + exists k1. rewrite Hnames, !decide_False; [done..|]. intros <-. congruence.
  - intros i'. rewrite Hmetas. intros ?%Hb. lia.
Qed.
End index.

Section inv.
Context {DateTime DataSchema : Type}.
Abbreviation catalog := (cat DateTime DataSchema).
Implicit Types c : catalog.

Definition db_names c (d : DatabaseNameIdent) : option N := id_of c (KDatabase d).
Definition tb_names c (t : DBIdTableName) : option N := id_of c (KTable t).

Record cat_inv c : Prop := {
  ci_dbs : index_inv (db_names c) (db_meta_of c) (c_seq c);
  ci_tbs : index_inv (tb_names c) (tb_meta_of c) (c_seq c);
  (** the database a table was created in has an id below the generator *)
  ci_owner t i : tb_names c t = Some i → (dbt_db_id t ≤ c_seq c)%N;
  ci_seq k n x : c_recs c !! k = Some (n, x) → (0 < n ≤ c_seq c)%N;
}.

Lemma ci_seq_put c k x :
  (∀ k n x, c_recs c !! k = Some (n, x) → (0 < n ≤ c_seq c)%N) →
  ∀ k' n x', c_recs (cat_put c k x) !! k' = Some (n, x') → (0 < n ≤ c_seq (cat_put c k x))%N.
Proof.
  intros Hs k' n x'. simpl. rewrite lookup_insert. case_decide; [|intros ?%Hs; lia]. intros. simplify_eq. lia.
Qed.
Lemma ci_seq_del c k :
  (∀ k n x, c_recs c !! k = Some (n, x) → (0 < n ≤ c_seq c)%N) →
  ∀ k' n x', c_recs (cat_del c k) !! k' = Some (n, x') → (0 < n ≤ c_seq (cat_del c k))%N.
Proof. intros Hs k' n x'. simpl. rewrite lookup_delete. case_decide; [done|]. apply Hs. Qed.
End inv.

(** Reads a record of an updated catalog. *)
Ltac lookups :=
  intros; unfold db_names, tb_names, id_of, db_meta_of, tb_meta_of in *; simpl;
  repeat first [rewrite lookup_insert | rewrite lookup_delete]; repeat case_decide; simplify_eq; try done; eauto.

Section preservation.
Context {DateTime DataSchema : Type}.
Abbreviation catalog := (cat DateTime DataSchema).
Implicit Types c : catalog.

Lemma db_of_Some c d i n m : db_of c d = Some (i, n, m) → db_names c d = Some i ∧ db_meta_of c i = Some (n, m).
Proof.
  unfold db_of, db_names. destruct (id_of c (KDatabase d)) as [j|]; [|done].
  destruct (db_meta_of c j) as [[n' m']|] eqn:E; [|done]. intros. by simplify_eq.
Qed.

Lemma owner_same c c' :
  (∀ t i, tb_names c t = Some i → (dbt_db_id t ≤ c_seq c)%N) → (c_seq c ≤ c_seq c')%N →
  (∀ t, tb_names c' t = tb_names c t ∨ tb_names c' t = None ∨ (dbt_db_id t ≤ c_seq c)%N) →
  ∀ t i, tb_names c' t = Some i → (dbt_db_id t ≤ c_seq c')%N.
Proof.
  intros Ho Hle Heq t i Hi. destruct (Heq t) as [Hs|[Hs|Hs]]; [|congruence|lia].
  rewrite Hs in Hi. apply Ho in Hi. lia.
Qed.

Lemma create_database_inv c req : cat_inv c → cat_inv (spec_create_database c req).2.
Proof.
  intros [Hd Ht Ho Hs]. unfold spec_create_database. set (d := cd_name_ident req).
  destruct (id_of c (KDatabase d)) as [i|] eqn:Hid; [done|]. simpl. split.
  - apply (index_create (db_names c) (db_meta_of c) (c_seq c) _ _ _ d (c_seq c + 1) ((c_seq c + 1 + 1 + 1)%N, cd_meta req));
      [done|done|simpl; lia|lookups..].
  - apply (index_same (tb_names c) (tb_meta_of c) (c_seq c)); [done|simpl; lia|lookups..].
  - apply (owner_same c); [done|simpl; lia|lookups].
  - by do 3 apply ci_seq_put.
Qed.

(** Closes a goal [is_Some _ ↔ _] about the metas of an updated catalog. *)
Ltac metas := lookups; try (split; [by intros []|by intros []]); try naive_solver.

Lemma drop_database_inv c req : cat_inv c → cat_inv (spec_drop_database c req).2.
Proof.
  intros [Hd Ht Ho Hs]. unfold spec_drop_database. set (d := dd_name_ident req).
  destruct (db_of c d) as [[[i n] m]|] eqn:Hdb; [|done]. apply db_of_Some in Hdb as [Hid Hm]. simpl. split.
  - apply (index_drop (db_names c) (db_meta_of c) (c_seq c) _ _ _ d i); [done|done|done|lookups|metas].
  - apply (index_same (tb_names c) (tb_meta_of c) (c_seq c)); [done|done|lookups..].
  - apply (owner_same c); [done|done|lookups].
  - by do 2 apply ci_seq_del.
Qed.

Lemma rename_database_inv c req : cat_inv c → cat_inv (spec_rename_database c req).2.
Proof.
  intros [Hd Ht Ho Hs]. unfold spec_rename_database. set (d := rd_name_ident req). set (d' := mkDatabaseNameIdent _ _).
  destruct (id_of c (KDatabase d)) as [i|] eqn:Hid; [|done].
  destruct (id_of c (KDatabase d')) as [i'|] eqn:Hid'; [done|]. simpl. split.
  - apply (index_rename (db_names c) (db_meta_of c) (c_seq c) _ _ _ d d' i); [done..|simpl; lia|lookups|metas].
  - apply (index_same (tb_names c) (tb_meta_of c) (c_seq c)); [done|simpl; lia|lookups..].
  - apply (owner_same c); [done|simpl; lia|lookups].
  - by apply ci_seq_put, ci_seq_del.
Qed.

Lemma create_table_inv c req : cat_inv c → cat_inv (spec_create_table c req).2.
Proof.
  intros [Hd Ht Ho Hs]. unfold spec_create_table. set (t := ct_name_ident req).
  destruct (db_of c (db_name_ident t)) as [[[i n] m]|] eqn:Hdb; [|done]. apply db_of_Some in Hdb as [Hid Hm].
  set (k := mkDBIdTableName i (tn_table_name t)). pose proof (ii_bound _ _ _ Hd i ltac:(eauto)) as Hi.
  destruct (id_of c (KTable k)) as [ti|] eqn:Hk; [done|]. simpl. split.
  - apply (index_same (db_names c) (db_meta_of c) (c_seq c)); [done|simpl; lia|lookups|metas].
  - apply (index_create (tb_names c) (tb_meta_of c) (c_seq c) _ _ _ k (c_seq c + 1)
             ((c_seq c + 1 + 1 + 1 + 1)%N, ct_table_meta req)); [done|done|simpl; lia|lookups..].
  - apply (owner_same c); [done|simpl; lia|lookups].
  - by do 4 apply ci_seq_put.
Qed.

Lemma drop_table_inv c req : cat_inv c → cat_inv (spec_drop_table c req).2.
Proof.
  intros [Hd Ht Ho Hs]. unfold spec_drop_table. set (t := dt_name_ident req).
  destruct (db_of c (db_name_ident t)) as [[[i n] m]|] eqn:Hdb; [|done]. apply db_of_Some in Hdb as [Hid Hm].
  set (k := mkDBIdTableName i (tn_table_name t)).
  destruct (id_of c (KTable k)) as [ti|] eqn:Hk; [|done]. simpl. split.
  - apply (index_same (db_names c) (db_meta_of c) (c_seq c)); [done|simpl; lia|lookups|metas].
  - apply (index_drop (tb_names c) (tb_meta_of c) (c_seq c) _ _ _ k ti); [done|done|simpl; lia|lookups|metas].
  - apply (owner_same c); [done|simpl; lia|lookups].
  - by do 2 apply ci_seq_del; apply ci_seq_put.
Qed.

Lemma rename_table_inv c req : cat_inv c → cat_inv (spec_rename_table c req).2.
Proof.
  intros [Hd Ht Ho Hs]. unfold spec_rename_table. set (t := rt_name_ident req). set (t' := mkTableNameIdent _ _ _).
  destruct (db_of c (db_name_ident t)) as [[[i n] m]|] eqn:Hdb; [|done]. apply db_of_Some in Hdb as [Hid Hm].
  set (k := mkDBIdTableName i (tn_table_name t)). destruct (id_of c (KTable k)) as [ti|] eqn:Hk; [|done].
  destruct (db_of c (db_name_ident t')) as [[[i' n'] m']|] eqn:Hdb'; [|done].
  apply db_of_Some in Hdb' as [Hid' Hm']. pose proof (ii_bound _ _ _ Hd i' ltac:(eauto)) as Hi'.
  set (k' := mkDBIdTableName i' (tn_table_name t')). destruct (id_of c (KTable k')) as [ti'|] eqn:Hk'; [done|].
  change i' with (dbt_db_id k') in Hi'. clearbody k k'. cbn [snd]. destruct (i =? i')%N; split.
  1, 5: apply (index_same (db_names c) (db_meta_of c) (c_seq c)); [done|simpl; lia|lookups|metas].
  1, 4: apply (index_rename (tb_names c) (tb_meta_of c) (c_seq c) _ _ _ k k' ti); [done..|simpl; lia|lookups|metas].
  1, 3: apply (owner_same c); [done|simpl; lia|lookups].
  all: by repeat first [apply ci_seq_put | apply ci_seq_del].
Qed.

Lemma upsert_table_option_inv c req : cat_inv c → cat_inv (spec_upsert_table_option c req).2.
Proof.
  intros [Hd Ht Ho Hs]. unfold spec_upsert_table_option.
  destruct (tb_meta_of c (uto_table_id req)) as [[n m]|] eqn:Hm; [|done].
  destruct (seq_matches _ _); [|done]. cbn [snd]. split.
  - apply (index_same (db_names c) (db_meta_of c) (c_seq c)); [done|simpl; lia|lookups|metas].
  - apply (index_same (tb_names c) (tb_meta_of c) (c_seq c)); [done|simpl; lia|lookups|metas].
  - apply (owner_same c); [done|simpl; lia|lookups].
  - by apply ci_seq_put.
Qed.

(** ** Operations in sequence *)
Inductive SchemaOp :=
  | OpCreateDatabase (req : CreateDatabaseReq DateTime)
  | OpDropDatabase (req : DropDatabaseReq)
  | OpRenameDatabase (req : RenameDatabaseReq)
  | OpCreateTable (req : CreateTableReq DateTime DataSchema)
  | OpDropTable (req : DropTableReq)
  | OpRenameTable (req : RenameTableReq)
  | OpUpsertTableOption (req : UpsertTableOptionReq).

(** The answers of the operations. *)
Inductive SchemaReply :=
  | ReCreateDatabase (r : CreateDatabaseReply)
  | ReDropDatabase (r : DropDatabaseReply)
  | ReRenameDatabase (r : RenameDatabaseReply)
  | ReCreateTable (r : CreateTableReply)
  | ReDropTable (r : DropTableReply)
  | ReRenameTable (r : RenameTableReply)
  | ReUpsertTableOption (r : UpsertTableOptionReply).

Definition tagged {A} (f : A → SchemaReply) (rc : res MetaError A * catalog) : res MetaError SchemaReply * catalog :=
  (res_map f rc.1, rc.2).
(** What an operation answers and the catalog after it. *)
Definition spec_run c (o : SchemaOp) : res MetaError SchemaReply * catalog :=
  match o with
  | OpCreateDatabase req => tagged ReCreateDatabase (spec_create_database c req)
  | OpDropDatabase req => tagged ReDropDatabase (spec_drop_database c req)
  | OpRenameDatabase req => tagged ReRenameDatabase (spec_rename_database c req)
  | OpCreateTable req => tagged ReCreateTable (spec_create_table c req)
  | OpDropTable req => tagged ReDropTable (spec_drop_table c req)
  | OpRenameTable req => tagged ReRenameTable (spec_rename_table c req)
  | OpUpsertTableOption req => tagged ReUpsertTableOption (spec_upsert_table_option c req)
  end.
(** The catalog after an operation, whether it succeeded or failed. *)
Definition spec_op c (o : SchemaOp) : catalog := (spec_run c o).2.

Lemma spec_op_inv c o : cat_inv c → cat_inv (spec_op c o).
Proof.
  unfold spec_op. destruct o; simpl;
    auto using create_database_inv, drop_database_inv, rename_database_inv, create_table_inv, drop_table_inv,
      rename_table_inv, upsert_table_option_inv.
Qed.

Lemma spec_op_room c o : (c_seq c ≤ c_seq (spec_op c o) ≤ c_seq c + 4)%N.
Proof.
  unfold spec_op. destruct o; simpl; unfold spec_create_database, spec_drop_database, spec_rename_database, spec_create_table,
    spec_drop_table, spec_rename_table, spec_upsert_table_option;
    repeat match goal with
      | |- context [match ?x with Some _ => _ | None => _ end] => destruct x
      | p : _ * _ |- _ => destruct p
      end; simpl; try destruct (seq_matches _ _); try destruct (_ =? _)%N; simpl; lia.
Qed.

Definition empty_cat : catalog := mkCat ∅ 0.
Lemma empty_cat_inv : cat_inv empty_cat.
Proof. split; [split..| |]; try done; by intros ? []. Qed.
End preservation.
Arguments SchemaOp DateTime DataSchema : clear implicits.
