(* ===== verification/SchemaModel.v ===== *)
(** * Concrete codecs for the schema API.

    The laws assumed of serde_json, prost and the protobuf conversions hold together
    for decimal ids and injectively encoded metas.  With the concrete state machine of
    SmModel.v this gives a complete instance of the meta service to run examples on. *)
From S2P Require Import Prelude ByteOrder MetaTypes KvApi SledStore SledView StateMachine StateMachineSpec SmKvApi.
From S2P Require Import SmModel KeyCodec SchemaApi SchemaSpec SchemaInv.

(** Times are numbers and a table schema is its text. *)
Abbreviation demo_db := (DatabaseMeta N).
Abbreviation demo_tb := (TableMeta N string).

#[export] Instance DatabaseMeta_eq_dec : EqDecision demo_db.
Proof. solve_decision. Defined.
#[export] Instance DatabaseMeta_countable : Countable demo_db.
Proof.
  refine (inj_countable'
    (λ m, (db_engine m, db_engine_options m, db_options m, db_created_on m, db_updated_on m, db_comment m))
    (λ '(a, b, c, d, e, f), mkDatabaseMeta a b c d e f) _).
  by intros [].
Defined.
#[export] Instance TableMeta_eq_dec : EqDecision demo_tb.
Proof. solve_decision. Defined.
#[export] Instance TableMeta_countable : Countable demo_tb.
Proof.
  refine (inj_countable'
    (λ m, (schema m, engine m, engine_options m, options m, order_keys m, created_on m, updated_on m, comment m))
    (λ '(a, b, c, d, e, f, g, h), mkTableMeta a b c d e f g h) _).
  by intros [].
Defined.

Definition demo_codec : MetaCodec := {|
  json_of_u64 n := Ok (pretty n);
  u64_of_json b := match parse_u64 b with Some n => Ok n | None => Err "expected a number" end;
  meta_error_of_json _ := None;
  any_error_of_meta _ := "meta error";
  any_error_of_key _ := "key error" |}.
Lemma demo_codec_laws : @MetaCodecLaws demo_codec.
Proof. intros n Hn. exists (pretty n). split; [done|]. simpl. by rewrite parse_u64_pretty. Qed.

(** A message is its encoding. *)
Definition demo_message : Message bytes := {| msg_encode b := Ok b; msg_decode b := Ok b |}.
Definition demo_proto (V : Type) `{Countable V} : FromToProto bytes V := {|
  to_pb v := Ok (pos_bits (encode v));
  from_pb b := match decode (bits_pos b) with Some v => Ok v | None => Err "not a message" end |}.
Definition demo_struct_laws (V : Type) `{Countable V} :
  @StructLaws bytes V demo_message (demo_proto V).
Proof.
  refine {| storable _ := True |}. intros v _. exists (pos_bits (encode v)). split; [done|].
  unfold deserialize_struct. simpl. by rewrite bits_pos_bits, decode_encode.
Defined.

Definition demo_meta : demo_db := mkDatabaseMeta "default" ∅ ∅ 10%N 10%N "".
Definition demo_table_meta : demo_tb := mkTableMeta "(a int)" "fuse" ∅ ∅ None 11%N 11%N "".

(** ** The empty meta service *)
Definition small_clock : Clock := λ n, ((100 + N.of_nat n) mod u64_modulus)%N.
Lemma small_clock_laws : @ClockLaws small_clock.
Proof. intros n. by apply N.mod_lt. Qed.

Section demo.
#[local] Existing Instances quiet_env quiet_no_faults mem_serde mem_serde_laws small_clock small_clock_laws
  demo_codec demo_codec_laws demo_message demo_proto demo_struct_laws.

(** The catalogs represented by the states of the concrete service. *)
Definition demo_cat_of : world mem_tree sm_env → cat N string → Prop :=
  cat_of (sm_store (Membership:=list N)) (PbDb:=bytes) (PbTb:=bytes).

Lemma demo_cat_of_empty : demo_cat_of empty_world empty_cat.
Proof.
  exists empty_store. split; [by exists empty_spec; split; [apply empty_repr|]|].
  split; [done|..]; [|done|done]. intros k. unfold empty_cat, empty_store. cbn [c_recs kv].
  by rewrite !lookup_empty.
Qed.
End demo.
