(* ===== verification/SchemaProps.v ===== *)
(** * Properties of the schema API.

    Every operation computes its specification on every key-value store that satisfies
    [KVApiLaws]; any sequence of operations leaves a consistent catalog; and what the
    operations mean to one another: a created database is found under its name, a
    renamed table keeps its id and contents, listings agree with lookups. *)
From S2P Require Import Prelude ByteOrder MetaTypes KvApi SledStore SledView StateMachine StateMachineSpec SmKvApi.
From S2P Require Import SmModel KeyCodec SchemaApi SchemaSpec SchemaOps SchemaList SchemaInv SchemaModel.

Section props.
Context {W : Type} `{!KVApi W, !Clock, !ClockLaws} (R : W → kv_store → Prop) `{!KVApiLaws W R}.
Context `{!MetaCodec, !MetaCodecLaws} {DateTime DataSchema PbDb PbTb : Type}.
Context `{StructLaws PbDb (DatabaseMeta DateTime), StructLaws PbTb (TableMeta DateTime DataSchema)}.
Abbreviation catalog := (cat DateTime DataSchema).
Abbreviation catR := (cat_of R (PbDb:=PbDb) (PbTb:=PbTb)).
Implicit Types c : catalog.

(** ** Databases *)

(** A database that was created is found under its name, with the meta it was
    created with and an id that no record of the catalog had. *)
Theorem create_then_get fuel if_not_exists name meta c :
  id_of c (KDatabase name) = None → schema_key_wf (KDatabase name) → storable (PB:=PbDb) meta →
  (c_seq c + 3 < u64_modulus)%N →
  ∃ i n c',
    runs catR (create_database (PbDb:=PbDb) (S fuel) (mkCreateDatabaseReq if_not_exists name meta)) c
      (Ok (Some (mkCreateDatabaseReply i))) c' ∧
    runs catR (get_database (PbDb:=PbDb) (mkGetDatabaseReq name)) c'
      (Ok (mkDatabaseInfo (mkDatabaseIdent i n) name meta)) c' ∧
    (cat_inv c → db_meta_of c i = None ∧ ∀ d, id_of c (KDatabase d) ≠ Some i).
Proof.
  intros Hnone Hwf Hst Hroom. set (req := mkCreateDatabaseReq if_not_exists name meta).
  pose proof (runs_create_database R fuel req c Hwf Hst Hroom) as Hrun.
  unfold spec_create_database in Hrun. simpl in Hrun. rewrite Hnone in Hrun.
  eexists _, _, _. split_and!; [exact Hrun| |].
  - match goal with |- runs _ _ ?c' _ _ => pose proof (runs_get_database R (mkGetDatabaseReq name) c') as Hget end.
    unfold spec_get_database, db_of, id_of, db_meta_of in Hget. simpl in Hget.
    rewrite lookup_insert_ne, lookup_insert_eq, lookup_insert_eq in Hget by done. exact Hget.
  - intros [Hd _ _ _]. assert (¬ is_Some (db_meta_of c (c_seq c + 1))) as Hno.
    { intros ?%(ii_bound _ _ _ Hd). lia. }
    split; [by apply eq_None_not_Some|]. intros d Hi. by apply (ii_meta _ _ _ Hd) in Hi.
Qed.

(** [list_databases] returns, in the order of their keys, exactly the databases of
    the tenant that [get_database] finds by name. *)
Theorem list_databases_correct t c :
  ∃ l, runs catR (list_databases (PbDb:=PbDb) (mkListDatabaseReq t)) c (Ok l) c ∧
    (∀ info, info ∈ l ↔ ∃ name, spec_get_database c (mkGetDatabaseReq (mkDatabaseNameIdent t name)) = Ok info) ∧
    StronglySorted bytes_lt ((λ info, to_key (dbinfo_name_ident _ info)) <$> l).
Proof.
  eexists. split_and!; [apply (runs_list_databases R)|apply elem_of_list_databases|apply list_databases_sorted].
Qed.

(** ** Tables *)

(** The error of a look-up of a name that is not there. *)
Lemma spec_get_table_found c t i ti n m :
  id_of c (KDatabase (db_name_ident t)) = Some i → id_of c (KTable (mkDBIdTableName i (tn_table_name t))) = Some ti →
  tb_meta_of c ti = Some (n, m) →
  spec_get_table c (mkGetTableReq t) =
    Ok (mkTableInfo (mkTableIdent ti n) (TableNameIdent_to_string t) (tn_table_name t) m).
Proof. intros Hi Hti Hm. unfold spec_get_table. simpl. by rewrite Hi, Hti, Hm. Qed.

(** A renamed table keeps its id, its version and its contents: what [get_table]
    returned under the old name it returns under the new one, and under the old name
    the table is unknown. *)
Theorem rename_table_keeps fuel req c i mi n1 i' mi' n2 ti n m :
  let t := rt_name_ident req in
  let t' := mkTableNameIdent (tn_tenant t) (rt_new_db_name req) (rt_new_table_name req) in
  db_of c (db_name_ident t) = Some (i, n1, mi) → id_of c (KTable (mkDBIdTableName i (tn_table_name t))) = Some ti →
  tb_meta_of c ti = Some (n, m) → db_of c (db_name_ident t') = Some (i', n2, mi') →
  id_of c (KTable (mkDBIdTableName i' (rt_new_table_name req))) = None →
  utf8_valid (rt_new_table_name req) = true → (c_seq c + 4 < u64_modulus)%N →
  ∃ c', runs catR (rename_table (PbDb:=PbDb) (S fuel) req) c (Ok (Some (mkRenameTableReply ti))) c' ∧
    runs catR (get_table (PbTb:=PbTb) (mkGetTableReq t')) c'
      (Ok (mkTableInfo (mkTableIdent ti n) (TableNameIdent_to_string t') (tn_table_name t') m)) c' ∧
    runs catR (get_table (PbTb:=PbTb) (mkGetTableReq t)) c' (Err (unknown_tb t "get_table")) c'.
Proof.
  intros t t' Hdb Hti Hm Hdb' Hnone Hwf Hroom. pose proof (runs_rename_table R fuel req c Hwf Hroom) as Hrun.
  unfold spec_rename_table in Hrun. fold t t' in Hrun. rewrite Hdb, Hti, Hdb' in Hrun.
  change (tn_table_name t') with (rt_new_table_name req) in Hrun. rewrite Hnone in Hrun. simpl in Hrun.
  apply db_of_Some in Hdb as [Hid Hmi], Hdb' as [Hid' Hmi']. unfold db_names in *.
  assert (mkDBIdTableName i' (rt_new_table_name req) ≠ mkDBIdTableName i (tn_table_name t)) as Hne
    by (intros Heq; rewrite Heq in Hnone; congruence).
  eexists. split; [exact Hrun|]. match goal with |- runs _ _ ?c' _ _ ∧ _ => set (cc := c') end.
  assert (∀ d, id_of cc (KDatabase d) = id_of c (KDatabase d)) as Hdbs
    by (intros d; subst cc; destruct (i =? i')%N; lookups).
  split.
  - rewrite <-(spec_get_table_found cc t' i' ti n m).
    + apply (runs_get_table R (PbDb:=PbDb)).
    + by rewrite Hdbs.
    + subst cc. destruct (i =? i')%N; lookups.
    + subst cc. destruct (i =? i')%N; lookups.
  - replace (Err (unknown_tb t "get_table")) with (spec_get_table cc (mkGetTableReq t)); [apply (runs_get_table R (PbDb:=PbDb))|].
    unfold spec_get_table. cbn [gt_inner]. rewrite Hdbs, Hid.
    assert (id_of cc (KTable (mkDBIdTableName i (tn_table_name t))) = None) as ->; [|done].
    subst cc. destruct (i =? i')%N; lookups; by destruct Hne; congruence.
Qed.

(** [list_tables] returns exactly the tables whose name and meta are recorded for
    the database, and fails when the database is unknown. *)
Theorem list_tables_correct d c :
  match id_of c (KDatabase d) with
  | None => runs catR (list_tables (PbTb:=PbTb) (mkListTableReq d)) c (Err (unknown_db d "list_tables")) c
  | Some i =>
      ∃ l, runs catR (list_tables (PbTb:=PbTb) (mkListTableReq d)) c (Ok l) c ∧
           ∀ info, info ∈ l ↔ ∃ name, table_in c d i name info
  end.
Proof.
  pose proof (runs_list_tables R (mkListTableReq d) c (PbDb:=PbDb)) as Hrun. unfold spec_list_tables in Hrun.
  simpl in Hrun. destruct (id_of c (KDatabase d)) as [i|]; [|done].
  eexists. split; [done|]. apply elem_of_list_tables.
Qed.

(** [upsert_table_option] changes the options of a table exactly when the version
    of the table satisfies the caller's condition: an option given as [None] is
    removed, one with a value is set, the others are kept. *)
Lemma upsert_table_option_correct fuel req c n m :
  (∀ m opts, storable (PB:=PbTb) m → storable (PB:=PbTb) (set_options m opts)) →
  tb_meta_of c (uto_table_id req) = Some (n, m) → (c_seq c + 1 < u64_modulus)%N →
  if seq_matches (uto_seq req) n then
    ∃ m', runs catR (upsert_table_option (PbTb:=PbTb) (S fuel) req) c (Ok (Some mkUpsertTableOptionReply))
            (cat_put c (KTableId (mkTableId (uto_table_id req))) (VTb m')) ∧
          m' = set_options m (options m') ∧
          ∀ k, options m' !! k = match uto_options req !! k with Some o => o | None => options m !! k end
  else
    runs catR (upsert_table_option (PbTb:=PbTb) (S fuel) req) c
      (Err (ME_AppError (AE_TableVersionMismatched
              (mkTableVersionMismatched (uto_table_id req) (uto_seq req) n "upsert_table_option")))) c.
Proof.
  intros Hopts Hm Hroom. pose proof (runs_upsert_table_option R fuel req c Hopts Hroom) as Hrun.
  unfold spec_upsert_table_option in Hrun. rewrite Hm in Hrun. destruct (seq_matches _ _); [|exact Hrun].
  eexists. split_and!; [exact Hrun|done|]. intros k. simpl. apply lookup_update_options.
Qed.

(** ** Sequences of operations *)
Hypothesis storable_options : ∀ m opts, storable (PB:=PbTb) m → storable (PB:=PbTb) (set_options m opts).

(** An operation of the interface, its answer tagged. *)
Definition tag {A} (f : A → SchemaReply) (m : M W MetaError (option A)) : M W MetaError (option SchemaReply) :=
  let! a := m in ret (f <$> a).
Definition run_op (fuel : nat) (o : SchemaOp DateTime DataSchema) : M W MetaError (option SchemaReply) :=
  match o with
  | OpCreateDatabase req => tag ReCreateDatabase (create_database (PbDb:=PbDb) fuel req)
  | OpDropDatabase req => tag ReDropDatabase (drop_database (PbDb:=PbDb) fuel req)
  | OpRenameDatabase req => tag ReRenameDatabase (rename_database fuel req)
  | OpCreateTable req => tag ReCreateTable (create_table (PbDb:=PbDb) (PbTb:=PbTb) fuel req)
  | OpDropTable req => tag ReDropTable (drop_table (PbDb:=PbDb) (PbTb:=PbTb) fuel req)
  | OpRenameTable req => tag ReRenameTable (rename_table (PbDb:=PbDb) fuel req)
  | OpUpsertTableOption req => tag ReUpsertTableOption (upsert_table_option (PbTb:=PbTb) fuel req)
  end.
Definition exec_op (o : SchemaOp DateTime DataSchema) : M W MetaError unit :=
  let! _ := tryM (F:=MetaError) (run_op 1 o) in ret tt.
Definition op_wf (o : SchemaOp DateTime DataSchema) : Prop :=
  match o with
  | OpCreateDatabase req => schema_key_wf (KDatabase (cd_name_ident req)) ∧ storable (PB:=PbDb) (cd_meta req)
  | OpRenameDatabase req =>
      schema_key_wf (KDatabase (mkDatabaseNameIdent (tenant (rd_name_ident req)) (rd_new_db_name req)))
  | OpCreateTable req => utf8_valid (tn_table_name (ct_name_ident req)) = true ∧ storable (PB:=PbTb) (ct_table_meta req)
  | OpRenameTable req => utf8_valid (rt_new_table_name req) = true
  | _ => True
  end.

Lemma runs_tag {A} (f : A → SchemaReply) m c (rc : res MetaError A * catalog) :
  runs catR m c (res_map Some rc.1) rc.2 → runs catR (tag f m) c (res_map Some (tagged f rc).1) (tagged f rc).2.
Proof.
  intros Hm w Hw. destruct (Hm w Hw) as (w1 & Heq & Hw1). exists w1. split; [|done].
  unfold tag, bind. rewrite Heq. by destruct rc as [[a|e|] c'].
Qed.

Lemma runs_run_op fuel o c :
  op_wf o → (c_seq c + 4 < u64_modulus)%N →
  runs catR (run_op (S fuel) o) c (res_map Some (spec_run c o).1) (spec_run c o).2.
Proof.
  intros Ho Hroom. destruct o as [req|req|req|req|req|req|req]; simpl in Ho; apply runs_tag.
  - destruct Ho. apply (runs_create_database R); done || lia.
  - apply (runs_drop_database R); lia.
  - apply (runs_rename_database R); done || lia.
  - destruct Ho. apply (runs_create_table R); done.
  - apply (runs_drop_table R); lia.
  - apply (runs_rename_table R); done.
  - apply (runs_upsert_table_option R (PbDb:=PbDb)); [done|lia].
Qed.

(** The specifications do not panic: they answer or fail. *)
Lemma spec_run_no_panic c o : (spec_run c o).1 ≠ Panic.
Proof.
  destruct o; simpl; unfold spec_create_database, spec_drop_database, spec_rename_database, spec_create_table,
    spec_drop_table, spec_rename_table, spec_upsert_table_option;
  repeat match goal with
    | |- context [match ?x with Some _ => _ | None => _ end] => destruct x
    | |- context [if ?b then _ else _] => destruct b
    | p : _ * _ |- _ => destruct p
    end; done.
Qed.

Lemma runs_exec_op o c :
  op_wf o → (c_seq c + 4 < u64_modulus)%N → runs catR (exec_op o) c (Ok tt) (spec_op c o).
Proof.
  intros Ho Hroom. pose proof (runs_run_op 0 o c Ho Hroom) as Hrun. pose proof (spec_run_no_panic c o) as Hp.
  unfold exec_op, spec_op. destruct (spec_run c o) as [[a|e|] c']; simpl in *; [..|done];
    (eapply runs_bind; [|apply runs_ret]).
  - by apply runs_try_ok.
  - by apply runs_try_err.
Qed.

(** C7: Every operation of the schema API computes its specification, on any key-value
    store with the contract of the interface: creating, dropping and renaming databases
    and tables and changing the options of a table return what the catalog says they
    return, on success and on every error, write exactly the records they should, in
    one transaction, and change nothing when they fail. *)
Theorem schema_ops_refine fuel o c :
  op_wf o → (c_seq c + 4 < u64_modulus)%N →
  runs catR (run_op (S fuel) o) c (res_map Some (spec_run c o).1) (spec_run c o).2.
Proof. apply runs_run_op. Qed.

(** C6: Whatever operations are performed from the empty catalog on, failed ones
    included, the catalog stays consistent: names and metas of databases are in
    bijection, so are those of tables, and no record has a sequence number or an id
    that was not yet given out. *)
Theorem catalog_integrity ops :
  Forall op_wf ops → (4 * N.of_nat (length ops) < u64_modulus)%N →
  ∃ c', runs catR (forM ops exec_op) empty_cat (Ok tt) c' ∧ cat_inv c'.
Proof.
  intros Hops Hroom. enough (∀ c, cat_inv c → (c_seq c + 4 * N.of_nat (length ops) < u64_modulus)%N →
    ∃ c', runs catR (forM ops exec_op) c (Ok tt) c' ∧ cat_inv c') as Hgen.
  { apply Hgen; [apply empty_cat_inv|done]. }
  clear Hroom. induction Hops as [|o ops Ho _ IH]; intros c Hinv Hroom.
  - exists c. split; [apply runs_ret|done].
  - simpl in Hroom. pose proof (spec_op_room c o). destruct (IH (spec_op c o)) as (c' & Hrun & Hinv').
    { by apply spec_op_inv. }
    { lia. }
    exists c'. split; [|done]. eapply runs_bind; [|exact Hrun]. apply runs_exec_op; [done|lia].
Qed.
End props.

(** ** Examples: the schema API on the concrete state machine *)
Section examples.
#[local] Existing Instances quiet_env quiet_no_faults mem_serde mem_serde_laws small_clock small_clock_laws
  demo_codec demo_codec_laws demo_message demo_proto demo_struct_laws.
#[local] Instance demo_api : KVApi (world mem_tree sm_env) := sm_kv_api (Membership:=list N) demo_sm.
#[local] Instance demo_api_laws : KVApiLaws (world mem_tree sm_env) (sm_store (Membership:=list N)).
Proof. exact (sm_kv_api_laws demo_sm). Qed.
Abbreviation demo_R := (sm_store (Membership:=list N)).

Definition d1 : DatabaseNameIdent := mkDatabaseNameIdent "tenant1" "db1".
Definition t1 : TableNameIdent := mkTableNameIdent "tenant1" "db1" "tb1".
Definition t2 : TableNameIdent := mkTableNameIdent "tenant1" "db1" "tb2".
Definition create1 : CreateDatabaseReq N := mkCreateDatabaseReq false d1 demo_meta.
(** The catalog with the database, and with a table in it. *)
Definition cat1 : cat N string := (spec_create_database empty_cat create1).2.
Definition create_t1 : CreateTableReq N string := mkCreateTableReq false t1 demo_table_meta.
Definition cat2 : cat N string := (spec_create_table cat1 create_t1).2.

Lemma create_then_get_example :
  ∃ i n c',
    runs demo_cat_of (create_database (PbDb:=bytes) 1 create1) empty_cat (Ok (Some (mkCreateDatabaseReply i))) c' ∧
    runs demo_cat_of (get_database (PbDb:=bytes) (mkGetDatabaseReq d1)) c'
      (Ok (mkDatabaseInfo (mkDatabaseIdent i n) d1 demo_meta)) c' ∧
    (cat_inv (empty_cat : cat N string) →
       db_meta_of (empty_cat : cat N string) i = None ∧ ∀ d, id_of (empty_cat : cat N string) (KDatabase d) ≠ Some i).
Proof.
  apply (create_then_get demo_R 0 false d1 demo_meta empty_cat);
    [reflexivity|by split|done|vm_compute; reflexivity].
Defined.

Lemma list_databases_correct_example :
  ∃ l, runs demo_cat_of (list_databases (PbDb:=bytes) (mkListDatabaseReq "tenant1")) cat1 (Ok l) cat1 ∧
    (∀ info, info ∈ l ↔
       ∃ name, spec_get_database cat1 (mkGetDatabaseReq (mkDatabaseNameIdent "tenant1" name)) = Ok info) ∧
    StronglySorted bytes_lt ((λ info, to_key (dbinfo_name_ident _ info)) <$> l).
Proof. apply (list_databases_correct demo_R "tenant1" cat1). Defined.

Definition rename1 : RenameTableReq := mkRenameTableReq false t1 "db1" "tb2".
Lemma rename_table_keeps_example :
  ∃ c', runs demo_cat_of (rename_table (PbDb:=bytes) 1 rename1) cat2 (Ok (Some (mkRenameTableReply 4))) c' ∧
    runs demo_cat_of (get_table (PbTb:=bytes) (mkGetTableReq t2)) c'
      (Ok (mkTableInfo (mkTableIdent 4 7) (TableNameIdent_to_string t2) "tb2" demo_table_meta)) c' ∧
    runs demo_cat_of (get_table (PbTb:=bytes) (mkGetTableReq t1)) c' (Err (unknown_tb t1 "get_table")) c'.
Proof.
  apply (rename_table_keeps demo_R 0 rename1 cat2 1 demo_meta 5 1 demo_meta 5 4 7 demo_table_meta);
    vm_compute; reflexivity.
Defined.

Lemma list_tables_correct_example :
  ∃ l, runs demo_cat_of (list_tables (PbTb:=bytes) (mkListTableReq d1)) cat2 (Ok l) cat2 ∧
       ∀ info, info ∈ l ↔ ∃ name, table_in cat2 d1 1 name info.
Proof. apply (list_tables_correct demo_R d1 cat2 (PbDb:=bytes)). Defined.

Definition set_opt : UpsertTableOptionReq := mkUpsertTableOptionReq 4 (Exact 7) {["k" := Some "v"]}.
Lemma upsert_table_option_correct_example :
  ∃ m', runs demo_cat_of (upsert_table_option (PbTb:=bytes) 1 set_opt) cat2 (Ok (Some mkUpsertTableOptionReply))
          (cat_put cat2 (KTableId (mkTableId 4)) (VTb m')) ∧
        m' = set_options demo_table_meta (options m') ∧
        ∀ k, options m' !! k = match uto_options set_opt !! k with Some o => o | None => options demo_table_meta !! k end.
Proof.
  apply (upsert_table_option_correct demo_R (PbDb:=bytes) 0 set_opt cat2 7 demo_table_meta);
    [done|vm_compute; reflexivity|vm_compute; reflexivity].
Defined.

Lemma schema_ops_refine_example :
  (spec_run cat2 (OpRenameTable rename1)).1 = Ok (ReRenameTable (mkRenameTableReply 4)) ∧
  runs demo_cat_of (run_op (PbDb:=bytes) (PbTb:=bytes) 1 (OpRenameTable rename1)) cat2
    (Ok (Some (ReRenameTable (mkRenameTableReply 4)))) (spec_run cat2 (OpRenameTable rename1)).2.
Proof.
  split; [vm_compute; reflexivity|].
  apply (schema_ops_refine demo_R (PbDb:=bytes) (PbTb:=bytes)) with (fuel := 0) (o := OpRenameTable rename1) (c := cat2);
    [done|reflexivity|vm_compute; reflexivity].
Defined.

Lemma catalog_integrity_example :
  ∃ c', runs demo_cat_of
    (forM [OpCreateDatabase create1; OpCreateTable create_t1; OpRenameTable rename1;
           OpDropDatabase (mkDropDatabaseReq false d1)] (exec_op (PbDb:=bytes) (PbTb:=bytes)))
    empty_cat (Ok tt) c' ∧ cat_inv c'.
Proof.
  apply (catalog_integrity demo_R (PbDb:=bytes) (PbTb:=bytes)); [done| |vm_compute; reflexivity].
  repeat constructor.
Defined.
End examples.
