(* ===== verification/RaftStore.v ===== *)
(** * The storage of a raft node (src/metasrv/src/store, raft-store/src/log and state).

    A node keeps its raft state, its log and its state machine in named trees of one
    sled database.  The state machine is replaced as a whole when a snapshot is
    installed: the new one is built in a tree of its own, and a record with the ids of
    the active and the previous state machine says which tree counts. *)
From S2P Require Import Prelude ByteOrder MetaTypes KvApi SledStore StateMachine.

(** ** Raft state records: raft_state_kv.rs *)

(** openraft's [HardState]. *)
Record HardState := mkHardState { current_term : N; voted_for : option N }.
Inductive RaftStateKey := RSK_Id | RSK_HardState | RSK_StateMachineId.
Inductive RaftStateValue :=
  | RSV_NodeId (id : N)
  | RSV_HardState (hs : HardState)
  | RSV_StateMachineId (ids : N * N).

#[export] Instance RaftStateKey_eq_dec : EqDecision RaftStateKey.
Proof. solve_decision. Defined.

Definition RaftStateKey_to_string (k : RaftStateKey) : string :=
  match k with
  | RSK_Id => "Id"
  | RSK_HardState => "HardState"
  | RSK_StateMachineId => "StateMachineId"
  end.
Definition RaftStateKey_ser (k : RaftStateKey) : bytes :=
  let i := match k with RSK_Id => 1 | RSK_HardState => 2 | RSK_StateMachineId => 3 end%N in
  String (Ascii.ascii_of_N i) "".
Definition RaftStateKey_de (v : bytes) : res MetaStorageError RaftStateKey :=
  match v with
  | EmptyString => Panic
  | String c _ =>
      if (byte_of c =? 1)%N then Ok RSK_Id
      else if (byte_of c =? 2)%N then Ok RSK_HardState
      else if (byte_of c =? 3)%N then Ok RSK_StateMachineId
      else Err (SledError "invalid key IVec")
  end.
#[export] Instance raft_state_key_ordered_serde : SledOrderedSerde RaftStateKey := {
  ord_ser k := Ok (RaftStateKey_ser k);
  ord_de := RaftStateKey_de;
}.

(** [From<RaftStateValue>] for the three contents: a value of another kind panics. *)
Definition RaftStateValue_node_id {E} (v : RaftStateValue) : res E N :=
  match v with RSV_NodeId x => Ok x | _ => Panic end.
Definition RaftStateValue_hard_state {E} (v : RaftStateValue) : res E HardState :=
  match v with RSV_HardState x => Ok x | _ => Panic end.
Definition RaftStateValue_sm_id {E} (v : RaftStateValue) : res E (N * N) :=
  match v with RSV_StateMachineId x => Ok x | _ => Panic end.

Definition RaftStateKV : SledKeySpace RaftStateKey RaftStateValue := mkKeySpace 4 "raft-state".

(** [opt.map(From::from)] with a conversion that can panic. *)
Definition res_opt {E A B} (f : A → res E B) (o : option A) : res E (option B) :=
  match o with Some a => res_map Some (f a) | None => Ok None end.

(** ** The state of a node *)

(** The fields of [RaftConfig] the store uses. *)
Record RaftConfig := mkRaftConfig { config_id : N; no_sync : bool; sled_tree_prefix : string }.
Definition config_tree_name (config : RaftConfig) (name : string) : string := sled_tree_prefix config +:+ name.
Definition is_sync (config : RaftConfig) : bool := negb (no_sync config).
Definition sm_tree_name (config : RaftConfig) (sm_id : N) : string :=
  config_tree_name config ("state_machine" +:+ "/" +:+ pretty sm_id).

(** openraft's [SnapshotMeta], and the snapshot kept by the store. *)
Record SnapshotMeta := mkSnapshotMeta { last_log_id : LogId; snapshot_id : string }.
Record Snapshot := mkSnapshot { snap_meta : SnapshotMeta; snap_data : bytes }.
Record StateMachineChanges := mkStateMachineChanges { last_applied : LogId; is_snapshot : bool }.
Record LogState := mkLogState { last_purged_log_id : option LogId; ls_last_log_id : option LogId }.

(** The mutable state of the process: what the state machine's code uses, the state
    machine in use and the current snapshot ([RwLock]s in the source). *)
Record node_env := mkNodeEnv {
  n_env : sm_env; state_machine : StateMachine; current_snapshot : option Snapshot }.

(** openraft's [StorageError], built by [map_to_sto_err]. *)
Inductive ErrorSubject :=
  | ES_HardState | ES_Logs | ES_Log (l : LogId) | ES_Apply (l : LogId) | ES_StateMachine.
Inductive ErrorVerb := EV_Read | EV_Write | EV_Delete.
Record StorageError := mkStorageError { subject : ErrorSubject; verb : ErrorVerb; source : any_error }.

(** sled's named trees: a new tree is empty. *)
Class SledDb (T : Type) := tree_empty : T.
Class SledDbLaws (T : Type) `{Sled T, SledDb T} := tree_get_empty k : tree_get tree_empty k = None.

(** serde_json on the types of the log and of a snapshot, and [AnyError::new]. *)
Class RaftSerde (Membership : Type) := {
  serde_entry :: SledSerde (Entry Membership);
  serde_log_meta :: SledSerde LogMetaValue;
  serde_raft_state :: SledSerde RaftStateValue;
  snapshot_to_json : list (list bytes) → res any_error bytes;
  snapshot_of_json : bytes → res any_error (list (list bytes));
  any_error_of_storage : MetaStorageError → any_error;
}.

Section store.
Context {T : Type} `{Sled T, SledDb T, SledEnv, Clock} {Membership : Type}.
Context `{SmSerde Membership, RaftSerde Membership, SledTransaction T sm_env}.
Abbreviation W := (world (gmap string T) node_env).
Abbreviation ST A := (M W MetaStorageError A).

(** Running code on one tree of the database. *)
Definition on_tree {E A} (name : string) (m : M (world T sm_env) E A) : M W E A := λ w,
  let t := default tree_empty (tree w !! name) in
  let (r, w1) := m (mkWorld t (sled_ops w) (n_env (env w))) in
  (r, mkWorld (<[name:=tree w1]> (tree w)) (sled_ops w1)
        (mkNodeEnv (env w1) (state_machine (env w)) (current_snapshot (env w)))).

(** [SledTree::open]. *)
Definition sled_open (tree_name : string) : ST unit :=
  io_call ("open tree: " +:+ tree_name)
    (λ db, (tt, match db !! tree_name with Some _ => db | None => <[tree_name:=tree_empty]> db end)).

(** ** The raft state: raft_state.rs *)
Definition state_tree (config : RaftConfig) : string := config_tree_name config "raft_state".

Section raft_state.
Context (config : RaftConfig).
Abbreviation state_insert k v :=
  (on_tree (state_tree config) (sled_insert RaftStateKV (is_sync config) RaftStateKey_to_string k v)).
Abbreviation state_get k :=
  (on_tree (state_tree config) (sled_get RaftStateKV (state_tree config) RaftStateKey_to_string k)).

(** [RaftState::init]. *)
Definition raft_state_init (id : N) : ST unit :=
  let! _ := state_insert RSK_Id (RSV_NodeId id) in ret tt.

(** [RaftState::open_create]: the id of the node, and whether the state existed. *)
Definition raft_state_open_create (open create : option unit) : M W MetaError (N * bool) :=
  let! _ := mapErrM MetaError_from_storage (sled_open (state_tree config)) in
  let! got := mapErrM MetaError_from_storage (state_get RSK_Id) in
  let! curr_id := lift (res_opt RaftStateValue_node_id got) in
  let! '(id, is_open) :=
    match curr_id with
    | Some curr_id =>
        match open, create with
        | Some _, _ => ret (curr_id, true)
        | None, Some _ => throw (MetaStoreAlreadyExists curr_id)
        | None, None => lift Panic
        end
    | None =>
        match open, create with
        | Some _, Some _ => ret (config_id config, false)
        | Some _, None => throw MetaStoreNotFound
        | None, Some _ => ret (config_id config, false)
        | None, None => lift Panic
        end
    end in
  let! _ := if (is_open : bool) then ret tt else mapErrM MetaError_from_storage (raft_state_init id) in
  ret (id, is_open).

Definition write_hard_state (hs : HardState) : ST unit :=
  let! _ := state_insert RSK_HardState (RSV_HardState hs) in ret tt.
Definition read_hard_state : ST (option HardState) :=
  let! hs := state_get RSK_HardState in
  lift (res_opt RaftStateValue_hard_state hs).
Definition write_state_machine_id (id : N * N) : ST unit :=
  let! _ := state_insert RSK_StateMachineId (RSV_StateMachineId id) in ret tt.
Definition read_state_machine_id : ST (N * N) :=
  let! smid := state_get RSK_StateMachineId in
  match smid with
  | None => ret (0, 0)%N
  | Some v => lift (RaftStateValue_sm_id v)
  end.
End raft_state.

(** ** The raft log: raft_log.rs *)
Definition log_tree (config : RaftConfig) : string := config_tree_name config "raft_log".

Section raft_log.
Context (config : RaftConfig).
Abbreviation L A := (M (world T sm_env) MetaStorageError A).
Abbreviation name := (log_tree config).
Abbreviation sync := (is_sync config).

Definition log_contains_key (key : N) : L bool :=
  contains_key (Logs (Membership:=Membership)) name pretty key.
Definition log_get (key : N) : L (option (Entry Membership)) := sled_get Logs name pretty key.
Definition log_last : L (option (N * Entry Membership)) := last Logs.
Definition set_last_purged (l : LogId) : L unit :=
  let! _ := sled_insert LogMeta sync LogMetaKey_to_string LastPurged (LMV_LogId l) in ret tt.
(** [try_into] a [LogId] succeeds on the only kind of value. *)
Definition get_last_purged : L (option LogId) :=
  let! r := sled_get LogMeta name LogMetaKey_to_string LastPurged in
  match r with None => ret None | Some (LMV_LogId l) => ret (Some l) end.
Definition log_range_remove (range : Bound N * Bound N) : L unit :=
  range_remove (Logs (Membership:=Membership)) name sync (bound_debug pretty) range true.
Definition log_range_keys (range : Bound N * Bound N) : L (list N) :=
  range_keys (Logs (Membership:=Membership)) name (bound_debug pretty) range.
Definition log_range_values (range : Bound N * Bound N) : L (list (Entry Membership)) :=
  range_values Logs name (bound_debug pretty) range.
(** [SledValueToKey<LogIndex>] for an entry is the index of its log id. *)
Definition entry_index (e : Entry Membership) : N := index (log_id e).
Definition log_append (logs : list (Entry Membership)) : L unit := append_values Logs sync entry_index logs.
Definition log_insert (log : Entry Membership) : L (option (Entry Membership)) :=
  insert_value Logs sync pretty entry_index log.
End raft_log.

(** ** The store: meta_raft_store.rs *)
Section meta_raft_store.
Context (config : RaftConfig).

(** [StateMachine::open] and [StateMachine::clean]. *)
Definition sm_open (sm_id : N) : ST StateMachine :=
  let name := sm_tree_name config sm_id in
  let! _ := sled_open name in
  let sm := mkStateMachine name (is_sync config) false in
  let! _ := on_tree name (open (Membership:=Membership) sm) in
  ret sm.
Definition sm_clean (sm_id : N) : ST unit :=
  io_call "drop prev state machine" (λ db, (tt, base.delete (sm_tree_name config sm_id) db)).

Definition set_state_machine {E} (sm : StateMachine) : M W E unit := λ w,
  (Ok tt, mkWorld (tree w) (sled_ops w) (mkNodeEnv (n_env (env w)) sm (current_snapshot (env w)))).
Definition set_current_snapshot {E} (s : option Snapshot) : M W E unit := λ w,
  (Ok tt, mkWorld (tree w) (sled_ops w) (mkNodeEnv (n_env (env w)) (state_machine (env w)) s)).
Definition get_state_machine {E} : M W E StateMachine := λ w, (Ok (state_machine (env w)), w).
Definition get_snapshot {E} : M W E (option Snapshot) := λ w, (Ok (current_snapshot (env w)), w).

(** [MetaRaftStore::open_create]: the fields [id] and [is_opened] of the store. *)
Definition open_create (open create : option unit) : M W MetaError (N * bool) :=
  let! '(id, is_open) := raft_state_open_create config open create in
  let! _ := mapErrM MetaError_from_storage (sled_open (log_tree config)) in
  let! '(sm_id, prev_sm_id) := mapErrM MetaError_from_storage (read_state_machine_id config) in
  let! _ :=
    if (sm_id =? prev_sm_id)%N then ret tt
    else
      let! _ := mapErrM MetaError_from_storage (sm_clean prev_sm_id) in
      mapErrM MetaError_from_storage (write_state_machine_id config (sm_id, sm_id)) in
  let! sm := mapErrM MetaError_from_storage (sm_open sm_id) in
  let! _ := set_state_machine sm in
  let! _ := set_current_snapshot None in
  ret (id, is_open).

(** The loop that inserts the entries of a snapshot: [x[0]] and [x[1]] panic on a
    shorter list. *)
Definition insert_kvs (name : string) (kvs : list (list bytes)) : ST unit :=
  forM kvs (λ x,
    let! k := lift (unwrap (x !! 0)) in
    let! v := lift (unwrap (x !! 1)) in
    let! _ := on_tree name (io_call "insert snapshot" (λ t, tree_insert t k v)) in
    ret tt).

(** [MetaRaftStore::install_snapshot].  The log lines at level info read the last
    applied log id of the new state machine. *)
Definition install_snapshot (data : bytes) : ST unit :=
  let! '(sm_id, prev_sm_id) := read_state_machine_id config in
  if negb (sm_id =? prev_sm_id)%N then
    throw (SnapshotError ("another snapshot install is not finished yet: " +:+ pretty sm_id +:+ " " +:+ pretty prev_sm_id))
  else
    let new_sm_id := u64_add sm_id 1 in
    let! kvs := lift (map_err SerdeError (snapshot_of_json data)) in
    let! _ := write_state_machine_id config (sm_id, new_sm_id) in
    let! new_sm := sm_open new_sm_id in
    let name := tree_name new_sm in
    let! _ := insert_kvs name kvs in
    let! _ := on_tree name (get_last_applied (Membership:=Membership) new_sm) in
    let! _ := on_tree name (io_call "flush snapshot" (λ t, (tt, t))) in
    let! _ := write_state_machine_id config (new_sm_id, sm_id) in
    let! _ := on_tree name (get_last_applied (Membership:=Membership) new_sm) in
    let! _ := sm_clean sm_id in
    let! _ := write_state_machine_id config (new_sm_id, new_sm_id) in
    set_state_machine new_sm.

(** *** [impl RaftStorage for MetaRaftStore] *)
Definition map_to_sto_err {A} (s : ErrorSubject) (v : ErrorVerb) (m : ST A) : M W StorageError A :=
  mapErrM (λ e, mkStorageError s v (any_error_of_storage e)) m.

Definition save_hard_state (hs : HardState) : M W StorageError unit :=
  map_to_sto_err ES_HardState EV_Write (write_hard_state config hs).
Definition try_get_log_entries (range : Bound N * Bound N) : M W StorageError (list (Entry Membership)) :=
  map_to_sto_err ES_Logs EV_Read (on_tree (log_tree config) (log_range_values config range)).
Definition delete_conflict_logs_since (l : LogId) : M W StorageError unit :=
  map_to_sto_err (ES_Log l) EV_Delete
    (on_tree (log_tree config) (log_range_remove config (Included (index l), Unbounded))).
Definition purge_logs_upto (l : LogId) : M W StorageError unit :=
  let! _ := map_to_sto_err ES_Logs EV_Write (on_tree (log_tree config) (set_last_purged config l)) in
  map_to_sto_err (ES_Log l) EV_Delete
    (on_tree (log_tree config) (log_range_remove config (Unbounded, Included (index l)))).
Definition append_to_log (entries : list (Entry Membership)) : M W StorageError unit :=
  map_to_sto_err ES_Logs EV_Write (on_tree (log_tree config) (log_append config entries)).

Definition apply_to_state_machine (entries : list (Entry Membership)) : M W StorageError (list AppliedState) :=
  let! sm := get_state_machine in
  collectM (λ entry,
    map_to_sto_err (ES_Apply (log_id entry)) EV_Write (on_tree (tree_name sm) (apply sm entry))) entries.

Definition storage_build_snapshot : M W StorageError (SnapshotMeta * bytes) :=
  let! sm := get_state_machine in
  let! '(snap, last_applied_log, snapshot_id) :=
    map_to_sto_err ES_StateMachine EV_Read
      (on_tree (tree_name sm) (build_snapshot (Membership:=Membership) sm)) in
  let! data := map_to_sto_err ES_StateMachine EV_Read (lift (map_err SerdeError (snapshot_to_json snap))) in
  let meta := mkSnapshotMeta last_applied_log snapshot_id in
  let! _ := set_current_snapshot (Some (mkSnapshot meta data)) in
  ret (meta, data).

Definition begin_receiving_snapshot : M W StorageError bytes := ret "".

(** A failed installation is logged, and the call succeeds all the same. *)
Definition storage_install_snapshot (meta : SnapshotMeta) (snapshot : bytes)
    : M W StorageError StateMachineChanges :=
  let! _ := tryM (install_snapshot snapshot) in
  let! _ := set_current_snapshot (Some (mkSnapshot meta snapshot)) in
  ret (mkStateMachineChanges (last_log_id meta) true).

Definition get_current_snapshot : M W StorageError (option (SnapshotMeta * bytes)) :=
  let! s := get_snapshot in
  ret match s with Some s => Some (snap_meta s, snap_data s) | None => None end.

Definition storage_read_hard_state : M W StorageError (option HardState) :=
  map_to_sto_err ES_HardState EV_Read (read_hard_state config).

Definition get_log_state : M W StorageError LogState :=
  let! last_purged := map_to_sto_err ES_Logs EV_Read (on_tree (log_tree config) (get_last_purged config)) in
  let! last := map_to_sto_err ES_Logs EV_Read (on_tree (log_tree config) log_last) in
  let last_id := match last with None => last_purged | Some x => Some (log_id x.2) end in
  ret (mkLogState last_purged last_id).

Definition last_applied_state : M W StorageError (option LogId * option (EffectiveMembership Membership)) :=
  let! sm := get_state_machine in
  let! a := map_to_sto_err ES_StateMachine EV_Read
    (on_tree (tree_name sm) (get_last_applied (Membership:=Membership) sm)) in
  let! m := map_to_sto_err ES_StateMachine EV_Read (on_tree (tree_name sm) (get_membership sm)) in
  ret (a, m).

(** *** Nodes and voters

    [RaftStorage::get_membership] and [Membership::contains] are openraft's. *)
Section voters.
Context (storage_get_membership : M W StorageError (option (EffectiveMembership Membership))).
Context (mem_contains : Membership → N → bool).

Definition store_get_node (node_id : N) : M W MetaError (option Node) :=
  let! sm := get_state_machine in
  on_tree (tree_name sm) (get_node (Membership:=Membership) sm node_id).

(** [expect] on a result. *)
Definition expectM {E F A} (m : M W E A) : M W F A := λ w,
  let (r, w1) := m w in (match r with Ok a => Ok a | _ => Panic end, w1).

Definition nodes_kvs (sm : StateMachine) : M (world T sm_env) MetaStorageError (list (N * Node)) :=
  range_kvs Nodes (tree_name sm) (bound_debug pretty) (Unbounded, Unbounded).

Definition get_voters : M W MetaError (list Node) :=
  let! sm := get_state_machine in
  let! ms := expectM storage_get_membership in
  match ms with
  | Some m =>
      let! nodes := expectM (on_tree (tree_name sm) (nodes_kvs sm)) in
      ret (List.filter (λ kv, mem_contains (membership _ m) kv.1) nodes).*2
  | None => ret []
  end.
Definition get_non_voters : M W MetaError (list Node) :=
  let! sm := get_state_machine in
  let! ms := expectM storage_get_membership in
  match ms with
  | Some m =>
      let! nodes := expectM (on_tree (tree_name sm) (nodes_kvs sm)) in
      ret (List.filter (λ kv, negb (mem_contains (membership _ m) kv.1)) nodes).*2
  | None => ret []
  end.

Definition get_node_endpoint (node_id : N) : M W MetaError Endpoint :=
  let! n := store_get_node node_id in
  match n with
  | Some n => ret (endpoint n)
  | None => throw (ME_MetaNetworkError (GetNodeAddrError ("node id: " +:+ pretty node_id)))
  end.

Definition list_non_voters : M W MetaError (gset N) :=
  let! ms := expectM storage_get_membership in
  match ms with
  | None => ret ∅
  | Some m =>
      let! sm := get_state_machine in
      let! node_ids := expectM (on_tree (tree_name sm)
        (range_keys Nodes (tree_name sm) (bound_debug pretty) (Unbounded, Unbounded))) in
      ret (foldl (λ rst node_id, if mem_contains (membership _ m) node_id then rst else {[node_id]} ∪ rst) ∅ node_ids)
  end.
End voters.
End meta_raft_store.
End store.
