(* ===== verification/RaftLog.v ===== *)
(** * The raft log as a map from indices to entries.

    The log operations of the storage, run on a tree without faults, act on the
    abstract log [log_spec]: the entries by index, and the last purged log id. *)
From S2P Require Import Prelude ByteOrder MetaTypes KvApi SledStore SledView SledRange StateMachine RaftStore.

#[export] Instance LogMetaKey_eq_dec : EqDecision LogMetaKey.
Proof. solve_decision. Defined.
#[export] Instance LogMetaKey_countable : Countable LogMetaKey.
Proof. refine (inj_countable' (λ _, tt) (λ _, LastPurged) _). by intros []. Defined.
#[export] Program Instance log_meta_key_laws : OrderedSerdeLaws LogMetaKey := {| key_ok _ := True |}.
Next Obligation. intros [] _; eexists; by split. Qed.
#[export] Instance RaftStateKey_countable : Countable RaftStateKey.
Proof.
  refine (inj_countable' (λ k, match k with RSK_Id => 0 | RSK_HardState => 1 | RSK_StateMachineId => 2 end)%N
    (λ n, match n with 0 => RSK_Id | 1 => RSK_HardState | _ => RSK_StateMachineId end)%N _).
  by intros [].
Defined.
#[export] Program Instance raft_state_key_laws : OrderedSerdeLaws RaftStateKey := {| key_ok _ := True |}.
Next Obligation. intros [] _; eexists; by split. Qed.

Class RaftSerdeLaws (Membership : Type) `{RaftSerde Membership} := {
  laws_entry :: SledSerdeLaws (Entry Membership);
  laws_log_meta :: SledSerdeLaws LogMetaValue;
  laws_raft_state :: SledSerdeLaws RaftStateValue;
  snapshot_json kvs : ∃ b, snapshot_to_json kvs = Ok b ∧ snapshot_of_json b = Ok kvs;
}.

Record log_spec (Membership : Type) := mkLogSpec {
  l_logs : gmap N (Entry Membership);
  l_meta : gmap LogMetaKey LogMetaValue;
}.
Arguments mkLogSpec {Membership} l_logs l_meta.
Arguments l_logs {Membership} l.
Arguments l_meta {Membership} l.

Section log.
Context {T : Type} `{SledLaws T, !SledDb T, !SledEnv} {Membership : Type} `{RaftSerdeLaws Membership}.
Abbreviation spec := (log_spec Membership).
Implicit Types (ls : spec) (e : Entry Membership).

Record log_repr (w : world T sm_env) ls : Prop := {
  lr_logs : repr Logs (tree w) (l_logs ls);
  lr_meta : repr LogMeta (tree w) (l_meta ls);
}.

#[export] Instance view_logs : SpaceView log_repr Logs.
Proof.
  refine {| sv_get := l_logs; sv_set m ls := mkLogSpec m (l_meta ls) |}.
  - by intros w ls [].
  - intros w w' ls m [] _ Hm Hf. split; [done|]. simpl. eapply repr_frame; [|eassumption]. intros; by apply Hf.
  - by intros w n ls [].
Defined.
#[export] Instance view_log_meta : SpaceView log_repr LogMeta.
Proof.
  refine {| sv_get := l_meta; sv_set m ls := mkLogSpec (l_logs ls) m |}.
  - by intros w ls [].
  - intros w w' ls m [] _ Hm Hf. split; [|done]. simpl. eapply repr_frame; [|eassumption]. intros; by apply Hf.
  - by intros w n ls [].
Defined.

(** The log of a node: its tree in the database. *)
Context (config : RaftConfig).
Definition node_log (w : world (gmap string T) node_env) ls : Prop :=
  log_repr (mkWorld (default tree_empty (tree w !! log_tree config)) (sled_ops w) (n_env (env w))) ls.

Lemma runs_on_log {E A} (m : M (world T sm_env) E A) ls r ls' :
  runs log_repr m ls r ls' → runs node_log (on_tree (log_tree config) m) ls r ls'.
Proof.
  intros Hm w Hw. destruct (Hm _ Hw) as (w' & Heq & Hw'). unfold on_tree. rewrite Heq. eexists. split; [done|].
  unfold node_log. simpl. rewrite lookup_insert_eq. simpl. by destruct w'.
Qed.

Context `{!NoFaults}.

Definition log_put (m : gmap N (Entry Membership)) e : gmap N (Entry Membership) := <[entry_index e:=e]> m.

Lemma runs_append_to_log es ls :
  Forall (λ e, entry_index e < u64_modulus)%N es →
  runs node_log (append_to_log config es) ls (Ok tt) (mkLogSpec (foldl log_put (l_logs ls) es) (l_meta ls)).
Proof.
  intros Hes. apply (runs_map_err node_log _ _ ls (Ok tt)), runs_on_log.
  exact (runs_append_values log_repr Logs (is_sync config) entry_index es ls Hes).
Qed.
Lemma runs_try_get r ls :
  range_ok r → runs node_log (try_get_log_entries config r) ls (Ok (map_range (l_logs ls) r).*2) ls.
Proof.
  intros Hr. apply (runs_map_err node_log _ _ ls (Ok _)), runs_on_log.
  exact (runs_range_values log_repr Logs eq_refl (log_tree config) (bound_debug pretty) r ls Hr).
Qed.
Lemma runs_log_remove subj v r ls :
  range_ok r →
  runs node_log (map_to_sto_err (Membership:=Membership) subj v
      (on_tree (log_tree config) (log_range_remove (Membership:=Membership) config r)))
    ls (Ok tt) (mkLogSpec (map_remove (l_logs ls) r) (l_meta ls)).
Proof.
  intros Hr. apply (runs_map_err node_log _ _ ls (Ok tt)), runs_on_log.
  exact (runs_range_remove log_repr Logs eq_refl (log_tree config) (is_sync config) (bound_debug pretty) r true ls Hr).
Qed.

Definition purged ls : option LogId :=
  match l_meta ls !! LastPurged with Some (LMV_LogId l) => Some l | None => None end.
Definition set_purged (l : LogId) ls : spec := mkLogSpec (l_logs ls) (<[LastPurged:=LMV_LogId l]> (l_meta ls)).

Lemma runs_set_last_purged subj v l ls :
  runs node_log (map_to_sto_err (Membership:=Membership) subj v
      (on_tree (log_tree config) (set_last_purged (Membership:=Membership) config l)))
    ls (Ok tt) (set_purged l ls).
Proof.
  apply (runs_map_err node_log _ _ ls (Ok tt)), runs_on_log. unfold set_last_purged.
  eapply runs_bind; [|apply runs_ret].
  exact (runs_sled_insert log_repr LogMeta (is_sync config) LogMetaKey_to_string LastPurged (LMV_LogId l) ls I).
Qed.

(** The entry with the greatest index. *)
Definition log_last_entry ls : option (N * Entry Membership) :=
  list.last (map_range (l_logs ls) (Unbounded, Unbounded)).
Definition log_state ls : LogState :=
  mkLogState (purged ls) match log_last_entry ls with Some x => Some (log_id x.2) | None => purged ls end.

Lemma runs_get_log_state ls :
  runs node_log (get_log_state (Membership:=Membership) config) ls (Ok (log_state ls)) ls.
Proof.
  unfold get_log_state. eapply runs_bind.
  { apply (runs_map_err node_log _ _ ls (Ok (purged ls))), runs_on_log. unfold get_last_purged.
    eapply runs_bind; [exact (runs_sled_get log_repr LogMeta _ _ LastPurged ls I)|]. unfold purged. simpl.
    destruct (l_meta ls !! LastPurged) as [[l]|]; apply runs_ret. }
  eapply runs_bind.
  { apply (runs_map_err node_log _ _ ls (Ok _)), runs_on_log, (runs_last log_repr Logs eq_refl). }
  apply runs_ret.
Qed.

(** *** Runs of consecutive entries *)
Fixpoint index_from (i : N) (es : list (Entry Membership)) : list (N * Entry Membership) :=
  match es with [] => [] | e :: es => (i, e) :: index_from (i + 1) es end.
Definition contiguous (i : N) (es : list (Entry Membership)) : Prop :=
  Forall (λ x, entry_index x.2 = x.1) (index_from i es).

Lemma index_from_snd i es : (index_from i es).*2 = es.
Proof. revert i. induction es as [|e es IH]; intros i; csimpl; [done|]. by rewrite IH. Qed.
Lemma index_from_ge i es k e : (k, e) ∈ index_from i es → (i ≤ k < i + N.of_nat (length es))%N.
Proof.
  revert i. induction es as [|e' es IH]; intros i; simpl; [by intros ?%elem_of_nil|].
  intros [Heq|Hin%IH]%elem_of_cons; [simplify_eq|]; lia.
Qed.
Lemma index_from_sorted i es : StronglySorted (kv_lt N.le) (index_from i es).
Proof.
  revert i. induction es as [|e es IH]; intros i; simpl; constructor; [done|].
  apply Forall_forall. intros [k e'] Hin%index_from_ge. unfold kv_lt. simpl. lia.
Qed.
Lemma contiguous_bound i es :
  contiguous i es → (i + N.of_nat (length es) ≤ u64_modulus)%N → Forall (λ e, entry_index e < u64_modulus)%N es.
Proof.
  intros Hc Hb. rewrite <-(index_from_snd i es), Forall_fmap. apply Forall_forall. intros [k e] Hin. simpl.
  unfold contiguous in Hc. rewrite Forall_forall in Hc. specialize (Hc _ Hin). apply index_from_ge in Hin. simpl in *. lia.
Qed.

Lemma lookup_log_puts i es m k e :
  contiguous i es →
  foldl log_put m es !! k = Some e ↔
    (k, e) ∈ index_from i es ∨ ((k < i ∨ i + N.of_nat (length es) ≤ k)%N ∧ m !! k = Some e).
Proof.
  unfold contiguous. revert i m. induction es as [|e' es IH]; intros i m Hc; simpl in *.
  { split; [|by intros [?%elem_of_nil|[_ ?]]]. intros Hk. right. split; [lia|done]. }
  apply Forall_cons in Hc as [Hi Hc]. rewrite (IH _ _ Hc), elem_of_cons. unfold log_put. simpl in Hi. rewrite Hi.
  destruct (decide (i = k)) as [<-|Hne].
  - rewrite lookup_insert_eq. split.
    + intros [Hin%index_from_ge|[_ [= ->]]]; [lia|by left; left].
    + intros [[[= ->]|Hin%index_from_ge]|[? _]]; [right; split; [lia|done]|lia|lia].
  - rewrite lookup_insert_ne by done. split.
    + intros [Hin|[? ?]]; [by left; right|right; split; [lia|done]].
    + intros [[[= -> ->]|Hin]|[? ?]]; [done|by left|right; split; [lia|done]].
Qed.

Lemma key_in_from a k : key_in (Included a, Unbounded) k = true ↔ (a ≤ k)%N.
Proof. unfold key_in. simpl. by rewrite andb_true_r, N.leb_le. Qed.
Lemma key_in_between a b k : key_in (Included a, Excluded b) k = true ↔ (a ≤ k < b)%N.
Proof. unfold key_in. simpl. by rewrite andb_true_iff, N.leb_le, N.ltb_lt. Qed.
Lemma key_out_from a k : key_in (Included a, Unbounded) k = false ↔ (k < a)%N.
Proof. unfold key_in. simpl. by rewrite andb_true_r, N.leb_gt. Qed.

(** Replacing the entries from an index on. *)
Lemma map_range_replace i es m a :
  contiguous i es → (a ≤ i)%N →
  map_range (foldl log_put (map_remove m (Included i, Unbounded)) es) (Included a, Unbounded) =
  map_range m (Included a, Excluded i) ++ index_from i es.
Proof.
  intros Hc Ha. apply (kv_sorted_unique N.le); [apply map_range_sorted| |].
  - apply StronglySorted_app. split_and!; [|apply map_range_sorted|apply index_from_sorted].
    intros [k1 e1] [k2 e2] [_ Hr%key_in_between]%elem_of_map_range Hin%index_from_ge. unfold kv_lt. simpl. lia.
  - intros [k e]. rewrite elem_of_app, !elem_of_map_range, (lookup_log_puts i) by done.
    unfold map_remove. rewrite map_lookup_filter_Some, key_in_from, key_in_between. simpl. rewrite key_out_from.
    split; [intros [[?|(? & ? & ?)] ?]; [by right|left; split; [done|lia]]|].
    intros [[? ?]|Hin]; [split; [right; split_and!; [lia|done|lia]|lia]|]. split; [by left|].
    apply index_from_ge in Hin. lia.
Qed.
Lemma map_range_all (m : gmap N (Entry Membership)) : map_range m (Unbounded, Unbounded) = map_range m (Included 0, Unbounded)%N.
Proof. unfold map_range. apply List.filter_ext. intros [[|k] e]; done. Qed.
Lemma last_replace i es m e meta :
  contiguous i es → list.last es = Some e →
  ls_last_log_id (log_state (mkLogSpec (foldl log_put (map_remove m (Included i, Unbounded)) es) meta)) = Some (log_id e).
Proof.
  intros Hc He. unfold log_state, log_last_entry. simpl. rewrite map_range_all, map_range_replace by (done || lia).
  rewrite last_app. assert (list.last (index_from i es).*2 = Some e) as Hl by by rewrite index_from_snd.
  rewrite fmap_last in Hl. by destruct (list.last (index_from i es)) as [[k e']|]; simplify_eq/=.
Qed.

(** Removing the entries up to an index. *)
Lemma elem_of_purged (m : gmap N (Entry Membership)) i k e :
  (k, e) ∈ map_range (map_remove m (Unbounded, Included i)) (Unbounded, Unbounded) ↔ m !! k = Some e ∧ (i < k)%N.
Proof.
  rewrite elem_of_map_range. unfold map_remove. rewrite map_lookup_filter_Some. unfold key_in. simpl. rewrite N.leb_gt.
  tauto.
Qed.
Lemma map_range_purge (m : gmap N (Entry Membership)) i :
  map_range (map_remove m (Unbounded, Included i)) (Unbounded, Unbounded) = map_range m (Excluded i, Unbounded).
Proof.
  apply (kv_sorted_unique N.le); [apply map_range_sorted..|]. intros [k e].
  rewrite elem_of_purged, elem_of_map_range. unfold key_in. simpl. by rewrite andb_true_r, N.ltb_lt.
Qed.
(** The entries after an index end with the last entry, if there are any. *)
Lemma last_after (m : gmap N (Entry Membership)) i :
  list.last (map_range m (Excluded i, Unbounded)) =
    match list.last (map_range m (Unbounded, Unbounded)) with
    | Some (k, e) => if (i <? k)%N then Some (k, e) else None
    | None => None
    end.
Proof.
  pose proof (last_map_range m (Excluded i, Unbounded)) as H1'. pose proof (last_map_range m (Unbounded, Unbounded)) as H2'.
  destruct (list.last (map_range m (Excluded i, Unbounded))) as [[k e]|], (list.last (map_range m (Unbounded, Unbounded))) as [[k' e']|].
  - destruct H1' as (Hk & Hik & Hmax), H2' as (Hk' & _ & Hmax'). unfold key_in in *. simpl in *. rewrite andb_true_r, N.ltb_lt in Hik.
    specialize (Hmax' _ _ Hk eq_refl). specialize (Hmax k' e' Hk'). rewrite andb_true_r, N.ltb_lt in Hmax.
    assert (k' = k) as -> by lia. simplify_eq. by rewrite (proj2 (N.ltb_lt _ _)).
  - destruct H1' as (Hk & _). by specialize (H2' _ _ Hk).
  - destruct H2' as (Hk' & _). specialize (H1' _ _ Hk'). unfold key_in in H1'. simpl in H1'. by rewrite andb_true_r in H1'; rewrite H1'.
  - done.
Qed.
End log.
