(* ===== verification/SnapshotInstall.v ===== *)
(** * Installing a snapshot, with storage calls that may fail.

    The triples below hold for every pattern of storage faults.  A run that fails at
    its [n]-th storage call leaves the database as it is after [n] calls, so they
    speak about every state in which the process can be killed. *)
From S2P Require Import Prelude ByteOrder MetaTypes KvApi SledStore SledView StateMachine StateMachineSpec RaftStore.
From S2P Require Import RaftLog.

(** ** Storage calls *)
Section calls.
Context {T X : Type} `{SledLaws T, !SledEnv}.
Implicit Types (P : T → X → Prop).

(** Some storage call of some run fails. *)
Definition Faulty : Prop := ∃ n e, io_fault n = Some e.

(** Predicates on the tree and the environment, but not on the number of calls. *)
Definition at_tree P (w : world T X) : Prop := P (tree w) (env w).

Lemma triple_io_call {A} mes (f : T → A * T) P (Q : A → T → X → Prop) (F : T → X → Prop) :
  (∀ t x, P t x → Q (f t).1 (f t).2 x) → (Faulty → ∀ t x, P t x → F t x) →
  triple (at_tree P) (io_call mes f) (λ a, at_tree (Q a)) (at_tree F).
Proof.
  intros HQ HF w Hw. unfold io_call. destruct (io_fault (sled_ops w)) as [e|] eqn:Hio.
  - apply HF; [by eexists _, _|done].
  - specialize (HQ _ _ Hw). by destruct (f (tree w)).
Qed.
Lemma triple_flush sync flush P (F : T → X → Prop) :
  (Faulty → ∀ t x, P t x → F t x) →
  triple (at_tree P) (flush_async sync flush) (λ _, at_tree P) (at_tree F).
Proof.
  intros HF. unfold flush_async. destruct (flush && sync); [|by apply triple_ret]. by apply triple_io_call.
Qed.

Context {K V : Type} `{Countable K, OrderedSerdeLaws K, SledSerdeLaws V} (ks : SledKeySpace K V).
Implicit Types (k : K) (v : V).

(** Reading a record changes nothing. *)
Lemma triple_sled_get name key_str k P m (F : T → X → Prop) :
  key_ok k → (∀ t x, P t x → repr ks t m) → (Faulty → ∀ t x, P t x → F t x) →
  triple (at_tree P) (sled_get ks name key_str k) (λ o, at_tree (λ t x, o = m !! k ∧ P t x)) (at_tree F).
Proof.
  intros Hk Hm HF. destruct (serialize_key_ok ks k Hk) as (rest & Hser & Hkey). unfold sled_get. rewrite Hkey.
  eapply triple_bind; [by apply (triple_lift _ _ (λ kb w, kb = String (space_byte ks) rest ∧ at_tree P w))|].
  intros kb. apply triple_pure. intros ->. eapply triple_bind.
  - apply (triple_io_call _ _ P (λ o t x, P t x ∧ o = tree_get t (String (space_byte ks) rest))); [done|done].
  - intros o. apply triple_lift. intros w [Hw ->].
    rewrite (repr_deserialize _ _ m k) by eauto. done.
Qed.

(** Writing a record: the other key spaces of the tree are untouched, and a failed
    write has written the record or not. *)
Lemma triple_sled_insert sync key_str k v m (F : T → X → Prop) (B : X → Prop) :
  key_ok k →
  (Faulty → ∀ t x, repr ks t m ∨ repr ks t (<[k:=v]> m) → B x → F t x) →
  triple (at_tree (λ t x, repr ks t m ∧ B x)) (sled_insert ks sync key_str k v)
    (λ _, at_tree (λ t x, repr ks t (<[k:=v]> m) ∧ B x)) (at_tree F).
Proof.
  intros Hk HF. destruct (serialize_key_ok ks k Hk) as (rest & Hser & Hkey).
  destruct (serde_roundtrip v) as (b & Hb & Hd). unfold sled_insert, serialize_value. rewrite Hkey, Hb.
  apply (triple_bind _ _ _ _ (λ kb w, kb = String (space_byte ks) rest ∧ at_tree (λ t x, repr ks t m ∧ B x) w));
    [by apply triple_lift|]. intros kb. apply triple_pure. intros ->.
  apply (triple_bind _ _ _ _ (λ vb w, vb = b ∧ at_tree (λ t x, repr ks t m ∧ B x) w));
    [by apply triple_lift|]. intros vb. apply triple_pure. intros ->.
  eapply triple_bind.
  { apply (triple_io_call _ _ (λ t x, repr ks t m ∧ B x)
      (λ o t x, (deserialize_opt ks o = Ok (m !! k) ∧ repr ks t (<[k:=v]> m) ∧ B x))).
    - intros t x [Hr Hx]. rewrite tree_insert_prev, (repr_deserialize _ _ m k) by done.
      split_and!; [done|by apply repr_insert|done].
    - intros Hf t x [? ?]. by apply HF; [|left|]. }
  intros o. apply (triple_bind _ _ _ _ (λ _, at_tree (λ t x, repr ks t (<[k:=v]> m) ∧ B x))).
  { apply triple_lift. intros w (-> & Hw). done. }
  intros prev. eapply triple_bind; [apply triple_flush|intros []; by apply triple_ret].
  intros Hf t x [? ?]. by apply HF; [|right|].
Qed.
End calls.

(** ** The trees of the database *)
Lemma sm_tree_name_inj config a b : sm_tree_name config a = sm_tree_name config b → a = b.
Proof.
  unfold sm_tree_name, config_tree_name. intros Heq. by apply (inj (String.append _)), (inj (String.append _)),
    (inj (String.append _)), (inj pretty) in Heq.
Qed.
Lemma state_tree_sm config a : state_tree config ≠ sm_tree_name config a.
Proof. intros Heq. by apply (inj (String.append _)) in Heq. Qed.
Lemma log_tree_sm config a : log_tree config ≠ sm_tree_name config a.
Proof. intros Heq. by apply (inj (String.append _)) in Heq. Qed.
Lemma state_tree_log config : state_tree config ≠ log_tree config.
Proof. intros Heq. by apply (inj (String.append _)) in Heq. Qed.

Section trees.
Context {T : Type} `{SledLaws T, !SledDb T, !SledDbLaws T, !SledEnv}.
Abbreviation db := (gmap string T).
Implicit Types (d : db) (D G F : db → Prop).

(** A predicate on the database of a node. *)
Definition on_db D : world (gmap string T) node_env → Prop := at_tree (λ d _, D d).

(** [G] does not depend on the named tree. *)
Definition apart (name : string) G : Prop := ∀ d t, G d → G (<[name:=t]> d).

Lemma triple_on_tree {E A} name (m : M (world T sm_env) E A) (P : T → Prop) (Q : A → T → Prop) (X : T → Prop) G :
  triple (at_tree (λ t _, P t)) m (λ a, at_tree (λ t _, Q a t)) (at_tree (λ t _, X t)) → apart name G →
  triple (on_db (λ d, P (default tree_empty (d !! name)) ∧ G d)) (on_tree name m)
    (λ a, on_db (λ d, (∃ t, d !! name = Some t ∧ Q a t) ∧ G d)) (on_db (λ d, (∃ t, d !! name = Some t ∧ X t) ∧ G d)).
Proof.
  intros Hm HG w [HP Hw]. unfold on_tree.
  specialize (Hm (mkWorld (default tree_empty (tree w !! name)) (sled_ops w) (n_env (env w))) HP).
  destruct (m _) as [r w1]. destruct r as [a|e|]; unfold on_db, at_tree; simpl; rewrite lookup_insert_eq; eauto.
Qed.

Lemma triple_db_call {A} mes (f : db → A * db) D (Q : A → db → Prop) F :
  (∀ d, D d → Q (f d).1 (f d).2) → (Faulty → ∀ d, D d → F d) →
  triple (on_db D) (io_call mes f) (λ a, on_db (Q a)) (on_db F).
Proof. intros HQ HF. apply triple_io_call; [intros; by apply HQ|intros Hf d _; by apply HF]. Qed.
End trees.

(** *** Exact contents of a tree *)
Section exact.
Context {T : Type} `{SledLaws T, !SledEnv} {K V : Type} `{Countable K, OrderedSerdeLaws K, SledSerdeLaws V}.
Context (ks : SledKeySpace K V).

Definition is_tree (t : T) : world T sm_env → Prop := at_tree (λ t' _, t' = t).

Lemma triple_get_exact name key_str k rest t :
  ord_ser k = Ok rest →
  triple (is_tree t) (sled_get ks name key_str k)
    (λ o, at_tree (λ t' _, t' = t ∧ deserialize_opt ks (tree_get t (String (space_byte ks) rest)) = Ok o))
    (at_tree (λ t' _, (Faulty ∨ ∀ o, deserialize_opt ks (tree_get t (String (space_byte ks) rest)) ≠ Ok o) ∧ t' = t)).
Proof.
  intros Hk. unfold sled_get, serialize_key. rewrite Hk. simpl.
  eapply triple_bind; [by apply (triple_lift _ _ (λ kb w, kb = String (space_byte ks) rest ∧ is_tree t w))|].
  intros kb. apply triple_pure. intros ->. eapply triple_bind.
  - apply (triple_io_call _ _ (λ t' _, t' = t) (λ o t' _, t' = t ∧ o = tree_get t (String (space_byte ks) rest)));
      [by intros ? _ ->|by auto].
  - intros o. apply triple_lift. intros w [Hw ->]. by destruct (deserialize_opt _ _); [|split; [right|]..].
Qed.
Lemma triple_insert_exact sync key_str k v rest b t :
  ord_ser k = Ok rest → ser v = Ok b → tree_get t (String (space_byte ks) rest) = None →
  triple (is_tree t) (sled_insert ks sync key_str k v)
    (λ _, is_tree (tree_insert t (String (space_byte ks) rest) b).2) (at_tree (λ _ _, Faulty)).
Proof.
  intros Hk Hv Hnone. unfold sled_insert, serialize_key, serialize_value. rewrite Hk, Hv. simpl.
  set (t1 := (tree_insert t (String (space_byte ks) rest) b).2).
  eapply triple_bind; [by apply (triple_lift _ _ (λ kb w, kb = String (space_byte ks) rest ∧ is_tree t w))|].
  intros kb. apply triple_pure. intros ->.
  eapply triple_bind; [by apply (triple_lift _ _ (λ vb w, vb = b ∧ is_tree t w))|].
  intros vb. apply triple_pure. intros ->. eapply triple_bind.
  { apply (triple_io_call _ _ (λ t' _, t' = t) (λ o t' _, o = None ∧ t' = t1)); [|done].
    intros ? _ ->. split; [|done]. by rewrite tree_insert_prev. }
  intros o. eapply triple_bind.
  { apply (triple_lift _ _ (λ _, is_tree t1)). by intros w [-> Hw]. }
  intros prev. eapply triple_bind; [by apply (triple_flush _ _ (λ t' _, t' = t1))|].
  intros []. by apply triple_ret.
Qed.
End exact.

(** ** Installation *)
Section install.
Context {T : Type} `{SledLaws T, !SledDb T, !SledDbLaws T, !SledEnv, !Clock} {Membership : Type}.
Context `{SmSerdeLaws Membership, RaftSerdeLaws Membership, !SledTransaction T sm_env} (config : RaftConfig).
Abbreviation db := (gmap string T).
Implicit Types (d : db) (D G F : db → Prop) (m : gmap RaftStateKey RaftStateValue).

(** The records of the raft state, and the ids of the state machines in them. *)
Definition state_is m d : Prop := repr RaftStateKV (default tree_empty (d !! state_tree config)) m.
Definition rec_ids m : option (N * N) :=
  match m !! RSK_StateMachineId with
  | None => Some (0, 0)%N
  | Some (RSV_StateMachineId p) => Some p
  | Some _ => None
  end.
Definition set_ids (p : N * N) m := <[RSK_StateMachineId:=RSV_StateMachineId p]> m.

(** The records of the raft state agree but for the ids of the state machines. *)
Definition same_state m0 m : Prop := base.delete RSK_StateMachineId m = base.delete RSK_StateMachineId m0.

(** There are no other state machines. *)
Definition only_sms (a b : N) d : Prop := ∀ j, j ≠ a → j ≠ b → d !! sm_tree_name config j = None.

(** The contents of the active state machine, what a restart continues with, on a
    node whose other raft state is that of [m0]. *)
Definition active m0 (t : T) d : Prop :=
  ∃ m a b, state_is m d ∧ same_state m0 m ∧ rec_ids m = Some (a, b) ∧
           d !! sm_tree_name config a = Some t ∧ only_sms a b d.
(** A node with one state machine, on which no installation is going on. *)
Definition settled m (a : N) (t : T) d : Prop :=
  state_is m d ∧ rec_ids m = Some (a, a) ∧ d !! sm_tree_name config a = Some t ∧ only_sms a a d.

Lemma state_is_apart name m : name ≠ state_tree config → apart name (state_is m).
Proof. intros Hne d t Hd. unfold state_is. by rewrite lookup_insert_ne. Qed.
Lemma only_apart name a b :
  (∀ j, j ≠ a → j ≠ b → name ≠ sm_tree_name config j) → apart name (only_sms a b).
Proof. intros Hne d t Hd j Ha Hb. rewrite lookup_insert_ne by auto. by apply Hd. Qed.
Lemma only_apart_l a b : apart (sm_tree_name config a) (only_sms a b).
Proof. apply only_apart. intros j Hj _ ->%sm_tree_name_inj. done. Qed.
Lemma only_apart_r a b : apart (sm_tree_name config b) (only_sms a b).
Proof. apply only_apart. intros j _ Hj ->%sm_tree_name_inj. done. Qed.
Lemma only_apart_state a b : apart (state_tree config) (only_sms a b).
Proof. apply only_apart. intros j _ _. apply state_tree_sm. Qed.
Lemma only_sms_more a b d : only_sms a a d → only_sms a b d.
Proof. intros Hd j ??. by apply Hd. Qed.
Lemma only_sms_sym a b d : only_sms a b d → only_sms b a d.
Proof. intros Hd j ??. by apply Hd. Qed.
Lemma only_sms_delete a b d : only_sms a b d → only_sms a a (base.delete (sm_tree_name config b) d).
Proof.
  intros Hd j Ha _. destruct (decide (j = b)) as [->|Hb]; [apply lookup_delete_eq|].
  rewrite lookup_delete_ne; [by apply Hd|]. by intros ?%sm_tree_name_inj.
Qed.
Lemma tree_apart name name' (o : option T) : name ≠ name' → apart name (λ d, d !! name' = o).
Proof. intros Hne d t Hd. by rewrite lookup_insert_ne. Qed.
Lemma apart_and name G F : apart name G → apart name F → apart name (λ d, G d ∧ F d).
Proof. intros HG HF d t [? ?]. split; [by apply HG|by apply HF]. Qed.

Lemma triple_state_get m k G :
  apart (state_tree config) G →
  triple (on_db (λ d, state_is m d ∧ G d))
    (on_tree (state_tree config) (sled_get RaftStateKV (state_tree config) RaftStateKey_to_string k))
    (λ o, on_db (λ d, o = m !! k ∧ state_is m d ∧ G d)) (on_db (λ d, Faulty ∧ state_is m d ∧ G d)).
Proof.
  intros HG. eapply triple_weaken; [apply (triple_on_tree _ _ (λ t, repr RaftStateKV t m)
    (λ o t, o = m !! k ∧ repr RaftStateKV t m) (λ t, Faulty ∧ repr RaftStateKV t m) G); [|done]|..].
  - by apply (triple_sled_get RaftStateKV _ _ _ (λ t _, repr RaftStateKV t m)).
  - done.
  - intros o w [(t & Ht & -> & Hr) Hw]. split_and!; [done| |done]. unfold state_is. by rewrite Ht.
  - intros w [(t & Ht & Hf & Hr) Hw]. split_and!; [done| |done]. unfold state_is. by rewrite Ht.
Qed.
Lemma triple_read_ids m p G :
  rec_ids m = Some p → apart (state_tree config) G →
  triple (on_db (λ d, state_is m d ∧ G d)) (read_state_machine_id config)
    (λ r, on_db (λ d, r = p ∧ state_is m d ∧ G d)) (on_db (λ d, Faulty ∧ state_is m d ∧ G d)).
Proof.
  intros Hp HG. unfold read_state_machine_id. eapply triple_bind; [by apply triple_state_get|].
  intros o. apply triple_pure. intros ->. unfold rec_ids in Hp.
  destruct (m !! RSK_StateMachineId) as [[]|]; simplify_eq; [by apply triple_lift|by apply triple_ret].
Qed.

Lemma triple_state_insert m k v G :
  apart (state_tree config) G →
  triple (on_db (λ d, state_is m d ∧ G d))
    (on_tree (state_tree config) (sled_insert RaftStateKV (is_sync config) RaftStateKey_to_string k v))
    (λ _, on_db (λ d, state_is (<[k:=v]> m) d ∧ G d))
    (on_db (λ d, Faulty ∧ (state_is m d ∨ state_is (<[k:=v]> m) d) ∧ G d)).
Proof.
  intros HG. eapply triple_weaken; [apply (triple_on_tree _ _ (λ t, repr RaftStateKV t m)
    (λ _ t, repr RaftStateKV t (<[k:=v]> m))
    (λ t, Faulty ∧ (repr RaftStateKV t m ∨ repr RaftStateKV t (<[k:=v]> m))) G); [|done]|..].
  - eapply triple_weaken; [apply (triple_sled_insert RaftStateKV _ _ k v m
      (λ t _, Faulty ∧ (repr RaftStateKV t m ∨ repr RaftStateKV t (<[k:=v]> m))) (λ _, True)); [done|by auto]|..].
    + by intros w Hw.
    + by intros a w [Hw _].
    + done.
  - done.
  - intros a w [(t & Ht & Hr) Hw]. split; [|done]. unfold state_is. by rewrite Ht.
  - intros w [(t & Ht & Hf & Hr) Hw]. split_and!; [done| |done]. unfold state_is. by rewrite Ht.
Qed.
Lemma triple_write_ids m p G F :
  apart (state_tree config) G → (Faulty → ∀ d, state_is m d ∨ state_is (set_ids p m) d → G d → F d) →
  triple (on_db (λ d, state_is m d ∧ G d)) (write_state_machine_id config p)
    (λ _, on_db (λ d, state_is (set_ids p m) d ∧ G d)) (on_db F).
Proof.
  intros HG HF. unfold write_state_machine_id.
  apply (triple_bind _ _ _ _ (λ _, on_db (λ d, state_is (set_ids p m) d ∧ G d))); [|intros ?; by apply triple_ret].
  eapply triple_weaken; [by apply triple_state_insert|done|done|]. intros w (Hf & Hs & Hg). by apply HF.
Qed.

Lemma meta_key_ser k : ord_ser k = Ok (StateMachineMetaKey_ser k).
Proof. done. Qed.

(** A new state machine: the tree has the one record [Initialized]. *)
Definition init_key : bytes := String (space_byte (StateMachineMeta (Membership:=Membership))) (StateMachineMetaKey_ser Initialized).
Definition new_tree (t : T) : Prop :=
  ∃ b, ser (SMV_Bool (Membership:=Membership) true) = Ok b ∧ t = (tree_insert tree_empty init_key b).2.

Lemma triple_open_new sm :
  triple (is_tree tree_empty) (open (Membership:=Membership) sm) (λ _, at_tree (λ t _, new_tree t))
    (at_tree (λ _ _, Faulty)).
Proof.
  unfold open. eapply triple_bind.
  - eapply triple_weaken; [apply (triple_get_exact StateMachineMeta _ _ Initialized _ tree_empty (meta_key_ser Initialized))|done|by intros o w Hw; exact Hw|].
    intros w [[?|Hno] _]; [done|]. destruct (Hno None). by rewrite tree_get_empty.
  - intros o w [Ht Ho]. rewrite tree_get_empty in Ho. simpl in Ho. injection Ho as <-. simpl.
    destruct (serde_roundtrip (SMV_Bool (Membership:=Membership) true)) as (b & Hb & _).
    pose proof (triple_insert_exact StateMachineMeta (sm_sync sm) StateMachineMetaKey_to_string Initialized
      (SMV_Bool true) _ b tree_empty (meta_key_ser Initialized) Hb (tree_get_empty _) w Ht) as Hins. unfold bind.
    destruct (sled_insert _ _ _ _ _ _) as [[a|e|] w1]; simpl; [by exists b|done|done].
Qed.

Lemma triple_sm_open i G :
  apart (sm_tree_name config i) G →
  triple (on_db (λ d, d !! sm_tree_name config i = None ∧ G d)) (sm_open (Membership:=Membership) config i)
    (λ sm, on_db (λ d, sm = mkStateMachine (sm_tree_name config i) (is_sync config) false ∧
                   (∃ t, d !! sm_tree_name config i = Some t ∧ new_tree t) ∧ G d))
    (on_db (λ d, Faulty ∧ G d)).
Proof.
  intros HG. unfold sm_open. eapply triple_bind.
  { apply (triple_db_call _ _ _ (λ _ d, d !! sm_tree_name config i = Some tree_empty ∧ G d)); [|by intros Hf d []].
    intros d [Hd Hg]. rewrite Hd. simpl. rewrite lookup_insert_eq. split; [done|by apply HG]. }
  intros []. eapply triple_bind.
  - eapply triple_weaken; [apply (triple_on_tree _ _ (λ t, t = tree_empty) (λ _, new_tree) (λ _, Faulty) G);
      [apply triple_open_new|done]|..].
    + intros w [Hw Hg]. split; [|done]. by rewrite Hw.
    + intros a w Hw. exact Hw.
    + by intros w [(t & _ & Hf) Hw].
  - intros a. apply triple_ret. by intros w.
Qed.

(** The entries of a snapshot, inserted into a tree one after the other. *)
Definition insert_all (t : T) (kvs : list (bytes * bytes)) : T :=
  foldl (λ t kv, (tree_insert t kv.1 kv.2).2) t kvs.
Definition pair_list (kv : bytes * bytes) : list bytes := [kv.1; kv.2].

Lemma triple_insert_kvs name t0 kvs G :
  apart name G →
  triple (on_db (λ d, d !! name = Some t0 ∧ G d)) (insert_kvs name (pair_list <$> kvs))
    (λ _, on_db (λ d, d !! name = Some (insert_all t0 kvs) ∧ G d)) (on_db (λ d, Faulty ∧ G d)).
Proof.
  intros HG. unfold insert_kvs. revert t0. induction kvs as [|[k v] kvs IH]; intros t0; csimpl.
  { by apply triple_ret. }
  apply (triple_bind _ _ _ _ (λ _, on_db (λ d, d !! name = Some (tree_insert t0 k v).2 ∧ G d))); [|intros []; apply IH].
  eapply triple_bind; [by apply (triple_lift _ _ (λ k' w, k' = k ∧ on_db (λ d, d !! name = Some t0 ∧ G d) w))|].
  intros k'. apply triple_pure. intros ->.
  eapply triple_bind; [by apply (triple_lift _ _ (λ v' w, v' = v ∧ on_db (λ d, d !! name = Some t0 ∧ G d) w))|].
  intros v'. apply triple_pure. intros ->. simpl.
  apply (triple_bind _ _ _ _ (λ _, on_db (λ d, d !! name = Some (tree_insert t0 k v).2 ∧ G d)));
    [|intros ?; by apply triple_ret].
  eapply triple_weaken; [apply (triple_on_tree name _ (λ t, t = t0) (λ _ t, t = (tree_insert t0 k v).2) (λ _, Faulty) G);
    [|done]|..].
  - apply triple_io_call; [by intros t _ ->|done].
  - intros w [Hw Hg]. split; [|done]. by rewrite Hw.
  - intros a w [(t & Ht & ->) Hg]. by split.
  - by intros w [(t & _ & Hf) Hg].
Qed.

(** The last applied log id in a tree, if it can be read. *)
Definition la_key : bytes := String (space_byte (StateMachineMeta (Membership:=Membership))) (StateMachineMetaKey_ser LastApplied).
Definition readable (t : T) : Prop :=
  match deserialize_opt (StateMachineMeta (Membership:=Membership)) (tree_get t la_key) with
  | Ok None | Ok (Some (SMV_LogId _)) => True
  | _ => False
  end.

(** Reading from a tree leaves it alone, whatever happens. *)
Lemma triple_last_applied name sm t G :
  apart name G →
  triple (on_db (λ d, d !! name = Some t ∧ G d)) (on_tree name (get_last_applied (Membership:=Membership) sm))
    (λ _, on_db (λ d, d !! name = Some t ∧ G d)) (on_db (λ d, (Faulty ∨ ¬ readable t) ∧ d !! name = Some t ∧ G d)).
Proof.
  intros HG. eapply triple_weaken; [apply (triple_on_tree name _ (λ t', t' = t) (λ _ t', t' = t)
    (λ t', (Faulty ∨ ¬ readable t) ∧ t' = t) G); [|done]|..].
  - unfold get_last_applied. eapply triple_bind.
    + eapply triple_weaken; [apply (triple_get_exact StateMachineMeta _ _ LastApplied _ t (meta_key_ser LastApplied))
        |done|intros o w Hw; exact Hw|]. intros w [[Hf|Hno] Hw]; (split; [|done]); [by left|right].
      unfold readable, la_key. destruct (deserialize_opt _ _) as [o| |]; [by destruct (Hno o)|by intros []..].
    + intros o w [Hw Ho]. unfold readable, la_key. rewrite Ho. destruct o as [[]|]; try done; (split; [right; by intros []|done]).
  - intros w [Hw Hg]. split; [|done]. by rewrite Hw.
  - intros a w [(t' & Ht & ->) Hg]. by split.
  - intros w [(t' & Ht & Hf & ->) Hg]. by split.
Qed.

Lemma rec_ids_set p m : rec_ids (set_ids p m) = Some p.
Proof. unfold rec_ids, set_ids. by rewrite lookup_insert_eq. Qed.
Lemma set_ids_twice p q m : set_ids p (set_ids q m) = set_ids p m.
Proof. unfold set_ids. by rewrite insert_insert_eq. Qed.
Lemma same_state_set p m0 m : same_state m0 m → same_state m0 (set_ids p m).
Proof. unfold same_state, set_ids. by rewrite delete_insert_eq. Qed.
Lemma same_state_refl m : same_state m m.
Proof. done. Qed.
Lemma same_state_lookup m0 m k : same_state m0 m → k ≠ RSK_StateMachineId → m !! k = m0 !! k.
Proof. intros Hm Hk. by rewrite <-(lookup_delete_ne m RSK_StateMachineId k), Hm, lookup_delete_ne. Qed.
Lemma active_intro m0 m a b t d :
  state_is m d → same_state m0 m → rec_ids m = Some (a, b) → d !! sm_tree_name config a = Some t →
  only_sms a b d → active m0 t d.
Proof. intros. by exists m, a, b. Qed.
Lemma sm_names_ne i : sm_tree_name config i ≠ sm_tree_name config (i + 1).
Proof. intros Heq%sm_tree_name_inj. lia. Qed.

Create HintDb raft_state discriminated.
#[local] Hint Resolve rec_ids_set same_state_set same_state_refl only_sms_more only_sms_sym : raft_state.
Create HintDb apart discriminated.
#[local] Hint Resolve state_is_apart tree_apart only_apart_l only_apart_r only_apart_state apart_and sm_names_ne : apart.
#[local] Hint Extern 1 (_ ≠ _) => solve [apply not_eq_sym; auto using sm_names_ne, state_tree_sm | apply state_tree_sm] : apart.

(** From the switch to the new tree on. *)
Lemma triple_switch m i t0 t new_sm :
  tree_name new_sm = sm_tree_name config (i + 1) →
  triple (on_db (λ d, state_is (set_ids (i, (i + 1)%N) m) d ∧ d !! sm_tree_name config i = Some t0 ∧
                      d !! sm_tree_name config (i + 1) = Some t ∧ only_sms i (i + 1) d))
    (let! _ := write_state_machine_id config ((i + 1)%N, i) in
     let! _ := on_tree (tree_name new_sm) (get_last_applied (Membership:=Membership) new_sm) in
     let! _ := sm_clean config i in
     let! _ := write_state_machine_id config ((i + 1)%N, (i + 1)%N) in
     set_state_machine new_sm)
    (λ _ w, on_db (settled (set_ids ((i + 1)%N, (i + 1)%N) m) (i + 1) t) w ∧ state_machine (env w) = new_sm)
    (on_db (λ d, (Faulty ∨ ¬ readable t) ∧ (active m t0 d ∨ active m t d))).
Proof.
  intros Hname. rewrite Hname.
  eapply triple_bind; [apply triple_write_ids; [eauto 6 with apart|]|].
  { intros Hf d [Hs|Hs] (H0' & H1' & Ho); (split; [by left|]); [left|right];
      eapply active_intro; eauto with raft_state. }
  intros []. rewrite set_ids_twice. set (G := λ d, state_is (set_ids ((i + 1)%N, i) m) d ∧ only_sms (i + 1) i d).
  assert (∀ d, d !! sm_tree_name config (i + 1) = Some t ∧ G d → active m t d) as Hact
    by (intros d (? & ? & ?); eapply active_intro; eauto with raft_state).
  apply (triple_bind _ _ _ _ (λ _, on_db (λ d, d !! sm_tree_name config (i + 1) = Some t ∧ G d))).
  { eapply triple_weaken; [apply (triple_last_applied _ _ t G); unfold G; eauto with apart|..].
    - intros w (Hs & _ & Ht & Ho). split; [done|split; [done|by apply only_sms_sym]].
    - done.
    - intros w [Hf Hw]. split; [done|]. right. by apply Hact. }
  intros ?. apply (triple_bind _ _ _ _ (λ _, on_db (λ d, state_is (set_ids ((i + 1)%N, i) m) d ∧
    d !! sm_tree_name config (i + 1) = Some t ∧ only_sms (i + 1) (i + 1) d))).
  { apply (triple_db_call _ _ (λ d, d !! sm_tree_name config (i + 1) = Some t ∧ G d)).
    - intros d (Ht & Hs & Ho). simpl. rewrite lookup_delete_ne by apply sm_names_ne. split_and!.
      + unfold state_is. by rewrite lookup_delete_ne by apply not_eq_sym, state_tree_sm.
      + done.
      + by apply only_sms_delete.
    - intros Hf d Hd. split; [by left|]. right. by apply Hact. }
  intros []. eapply triple_bind; [apply triple_write_ids; [eauto with apart|]|].
  { intros Hf d [Hs|Hs] [Ht Ho]; (split; [by left|]); right; eapply active_intro; eauto with raft_state. }
  intros []. rewrite set_ids_twice. intros w (Hs & Ht & Ho). split; [|done]. split_and!; auto using rec_ids_set.
Qed.

(** From the new, empty state machine on. *)
Lemma triple_fill m i t0 t1 kvs new_sm :
  tree_name new_sm = sm_tree_name config (i + 1) →
  triple (on_db (λ d, d !! sm_tree_name config (i + 1) = Some t1 ∧ state_is (set_ids (i, (i + 1)%N) m) d ∧
                      d !! sm_tree_name config i = Some t0 ∧ only_sms i (i + 1) d))
    (let! _ := insert_kvs (tree_name new_sm) (pair_list <$> kvs) in
     let! _ := on_tree (tree_name new_sm) (get_last_applied (Membership:=Membership) new_sm) in
     let! _ := on_tree (tree_name new_sm) (io_call "flush snapshot" (λ t, (tt, t))) in
     let! _ := write_state_machine_id config ((i + 1)%N, i) in
     let! _ := on_tree (tree_name new_sm) (get_last_applied (Membership:=Membership) new_sm) in
     let! _ := sm_clean config i in
     let! _ := write_state_machine_id config ((i + 1)%N, (i + 1)%N) in
     set_state_machine new_sm)
    (λ _ w, on_db (settled (set_ids ((i + 1)%N, (i + 1)%N) m) (i + 1) (insert_all t1 kvs)) w ∧
            state_machine (env w) = new_sm)
    (on_db (λ d, (Faulty ∨ ¬ readable (insert_all t1 kvs)) ∧ (active m t0 d ∨ active m (insert_all t1 kvs) d))).
Proof.
  intros Hname. pose proof (triple_switch m i t0 (insert_all t1 kvs) new_sm Hname) as Hsw. rewrite Hname in *.
  set (G := λ d : db, state_is (set_ids (i, (i + 1)%N) m) d ∧ d !! sm_tree_name config i = Some t0 ∧ only_sms i (i + 1) d).
  assert (apart (sm_tree_name config (i + 1)) G) as HG by (unfold G; eauto with apart).
  assert (∀ d, G d → active m t0 d) as Hact by (intros d (Hs & Hg & Ho); eapply active_intro; eauto with raft_state).
  eapply triple_bind.
  { eapply triple_weaken; [apply (triple_insert_kvs _ t1 kvs G HG)|done..|].
    intros w [Hf Hw]. split; [by left|]. left. by apply Hact. }
  intros []. eapply triple_bind.
  { eapply triple_weaken; [apply (triple_last_applied _ new_sm (insert_all t1 kvs) G HG)|done|by intros ? w Hw; exact Hw|].
    intros w (Hf & _ & Hw). split; [done|]. left. by apply Hact. }
  intros ?. eapply triple_bind.
  { eapply triple_weaken; [apply (triple_on_tree _ _ (λ t, t = insert_all t1 kvs) (λ _ t, t = insert_all t1 kvs)
      (λ _, Faulty) G); [|done]|..].
    - apply triple_io_call; [by intros t _ ->|done].
    - intros w [Hw Hg]. split; [|done]. by rewrite Hw.
    - intros ? w Hw. exact Hw.
    - intros w [(t & _ & Hf) Hw]. split; [by left|]. left. by apply Hact. }
  intros ?. eapply triple_weaken; [apply Hsw| |done|done].
  intros w ((t & Ht & ->) & (Hs & Hg & Ho)). by split_and!.
Qed.

(** The whole installation: a failure leaves the old or the new state machine active. *)
Lemma triple_install m i t0 kvs data :
  rec_ids m = Some (i, i) → (i + 1 < u64_modulus)%N → snapshot_of_json data = Ok (pair_list <$> kvs) →
  triple (on_db (λ d, state_is m d ∧ d !! sm_tree_name config i = Some t0 ∧ only_sms i i d))
    (install_snapshot (Membership:=Membership) config data)
    (λ _ w, ∃ t1, new_tree t1 ∧
       (on_db (settled (set_ids ((i + 1)%N, (i + 1)%N) m) (i + 1) (insert_all t1 kvs)) w ∧
        state_machine (env w) = mkStateMachine (sm_tree_name config (i + 1)) (is_sync config) false))
    (on_db (λ d, (Faulty ∨ ∃ t1, new_tree t1 ∧ ¬ readable (insert_all t1 kvs)) ∧
                 (active m t0 d ∨ ∃ t1, new_tree t1 ∧ active m (insert_all t1 kvs) d))).
Proof.
  intros Hids Hi Hjson. set (G := λ d : db, d !! sm_tree_name config i = Some t0 ∧ only_sms i i d).
  unfold install_snapshot.
  assert (∀ m' b d, state_is m' d → same_state m m' → rec_ids m' = Some (i, b) → G d → active m t0 d) as Hact
    by (intros m' b d ??? []; eapply active_intro; eauto with raft_state).
  eapply triple_bind.
  { eapply triple_weaken; [apply (triple_read_ids m (i, i) G); [done|unfold G; eauto with apart]|done
      |intros ? w Hw; exact Hw|]. intros w (Hf & Hs & Hg). split; [by left|]. left. by eapply Hact. }
  intros [a b]. apply triple_pure. intros [= -> ->]. rewrite N.eqb_refl. cbn [negb].
  rewrite u64_add_small, Hjson by done.
  eapply triple_bind; [by apply (triple_lift _ _ (λ l w, l = pair_list <$> kvs ∧ on_db (λ d, state_is m d ∧ G d) w))|].
  intros l. apply triple_pure. intros ->.
  eapply triple_bind; [apply triple_write_ids; [unfold G; eauto with apart|]|].
  { intros Hf d [Hs|Hs] Hg; (split; [by left|]); left; eapply Hact; eauto with raft_state. }
  intros []. eapply triple_bind.
  { eapply triple_weaken; [apply (triple_sm_open (i + 1) (λ d, state_is (set_ids (i, (i + 1)%N) m) d ∧
      d !! sm_tree_name config i = Some t0 ∧ only_sms i (i + 1) d)); eauto 6 with apart|..].
    - intros w (Hs & Ht & Ho). split; [apply Ho; lia|]. split_and!; [done..|by apply only_sms_more].
    - intros sm w Hw. exact Hw.
    - intros w (Hf & Hs & Ht & Ho). split; [by left|]. left. eapply active_intro; eauto with raft_state. }
  intros new_sm. apply triple_pure. intros ->. cbn zeta.
  intros w ((t1 & Ht1 & Hnew) & Hsg).
  eapply (triple_weaken (λ w', w' = w) _ _ _ _ _ _ (triple_fill m i t0 t1 kvs
    (mkStateMachine (sm_tree_name config (i + 1)) (is_sync config) false) eq_refl)); [..|done].
  - by intros w' ->.
  - intros ? w' Hw'. by exists t1.
  - intros w' [Hf Hw']. split; [destruct Hf as [Hf|Hf]|destruct Hw' as [Hw'|Hw']]; unfold on_db, at_tree; eauto 6.
Qed.

(** ** Restarting a node *)

(** The record [Initialized] of a tree can be read. *)
Definition initialized (t : T) : Prop :=
  ∃ v, deserialize_opt (StateMachineMeta (Membership:=Membership)) (tree_get t init_key) = Ok (Some v).

(** Opening an initialised state machine changes nothing. *)
Lemma triple_sm_reopen i t G :
  initialized t → apart (sm_tree_name config i) G →
  triple (on_db (λ d, d !! sm_tree_name config i = Some t ∧ G d)) (sm_open (Membership:=Membership) config i)
    (λ sm, on_db (λ d, sm = mkStateMachine (sm_tree_name config i) (is_sync config) false ∧
                   d !! sm_tree_name config i = Some t ∧ G d))
    (on_db (λ d, Faulty ∧ d !! sm_tree_name config i = Some t ∧ G d)).
Proof.
  intros [v Hv] HG. unfold sm_open. eapply triple_bind.
  { apply (triple_db_call _ _ _ (λ _ d, d !! sm_tree_name config i = Some t ∧ G d)); [|done].
    intros d [Hd Hg]. by rewrite Hd. }
  intros []. eapply triple_bind.
  - eapply triple_weaken; [apply (triple_on_tree _ _ (λ t', t' = t) (λ _ t', t' = t) (λ t', Faulty ∧ t' = t) G); [|done]|..].
    + unfold open. eapply triple_bind.
      * eapply triple_weaken; [apply (triple_get_exact StateMachineMeta _ _ Initialized _ t (meta_key_ser Initialized))
          |done|intros o w Hw; exact Hw|]. intros w [[Hf|Hno] Hw]; [by split|]. by destruct (Hno (Some v)).
      * intros o w [Ht Ho]. unfold init_key in Hv. rewrite Hv in Ho. by injection Ho as <-.
    + intros w [Hw Hg]. split; [|done]. by rewrite Hw.
    + intros a w Hw. exact Hw.
    + by intros w [(t' & Ht & Hf & ->) Hw].
  - intros a. apply triple_ret. by intros w [(t' & Ht & ->) Hw].
Qed.

Lemma triple_state_opened m G :
  apart (state_tree config) G →
  triple (on_db (λ d, state_is m d ∧ G d)) (sled_open (state_tree config))
    (λ _, on_db (λ d, state_is m d ∧ G d)) (on_db (λ d, Faulty ∧ state_is m d ∧ G d)).
Proof.
  intros HG. apply triple_db_call; [|done].
  intros d [Hs Hg]. simpl. destruct (d !! state_tree config) as [t|] eqn:Ht; [done|].
  split; [|by apply HG]. unfold state_is in *. by rewrite lookup_insert_eq; rewrite Ht in Hs.
Qed.

(** The raft state of a node that has an id is opened as it is. *)
Lemma triple_state_open m id create G :
  m !! RSK_Id = Some (RSV_NodeId id) → apart (state_tree config) G →
  triple (on_db (λ d, state_is m d ∧ G d)) (raft_state_open_create config (Some tt) create)
    (λ r, on_db (λ d, r = (id, true) ∧ state_is m d ∧ G d)) (on_db (λ d, Faulty ∧ state_is m d ∧ G d)).
Proof.
  intros Hid HG. unfold raft_state_open_create. eapply triple_bind; [by apply triple_map_err, triple_state_opened|].
  intros []. eapply triple_bind; [by apply triple_map_err, triple_state_get|].
  intros o. apply triple_pure. intros ->. rewrite Hid. by intros w Hw.
Qed.

(** The raft state after a restart. *)
Definition end_ids (a b : N) m := if (a =? b)%N then m else set_ids (a, a) m.

(** Removing what an unfinished installation has left. *)
Lemma triple_settle m0 m a b t :
  rec_ids m = Some (a, b) → same_state m0 m →
  triple (on_db (λ d, state_is m d ∧ d !! sm_tree_name config a = Some t ∧ only_sms a b d))
    (if (a =? b)%N then ret tt
     else
       let! _ := mapErrM MetaError_from_storage (sm_clean config b) in
       mapErrM MetaError_from_storage (write_state_machine_id config (a, a)))
    (λ _, on_db (settled (end_ids a b m) a t)) (on_db (λ d, Faulty ∧ active m0 t d)).
Proof.
  intros Hids Hsame. unfold end_ids. destruct (N.eqb_spec a b) as [->|Hne].
  { apply triple_ret. by intros w (Hs & Ht & Ho). }
  assert (sm_tree_name config b ≠ sm_tree_name config a) as Hn by (by intros ?%sm_tree_name_inj).
  apply (triple_bind _ _ _ _ (λ _, on_db (λ d, state_is m d ∧ d !! sm_tree_name config a = Some t ∧ only_sms a a d))).
  { apply triple_map_err, (triple_db_call _ _ (λ d, state_is m d ∧ d !! sm_tree_name config a = Some t ∧ only_sms a b d)).
    - intros d (Hs & Ht & Ho). unfold state_is. simpl. split_and!; [| |by apply only_sms_delete].
      + by rewrite lookup_delete_ne by apply not_eq_sym, state_tree_sm.
      + by rewrite lookup_delete_ne.
    - intros Hf d (Hs & Ht & Ho). split; [done|]. by eapply active_intro. }
  intros []. eapply triple_weaken; [apply triple_map_err, (triple_write_ids m (a, a)
    (λ d, d !! sm_tree_name config a = Some t ∧ only_sms a a d)
    (λ d, Faulty ∧ active m0 t d)); [eauto with apart|]|done| |done].
  - intros Hf d [Hs|Hs] [Ht Ho]; (split; [done|]); eapply active_intro; eauto with raft_state.
  - intros ? w (Hs & Ht & Ho). split_and!; auto using rec_ids_set.
Qed.

(** Opening the store on a database with an active state machine [t]: it is the one in
    use, an unfinished installation is cleaned up, and a failure leaves it active. *)
Lemma triple_open_create m0 m id a b t create :
  m !! RSK_Id = Some (RSV_NodeId id) → rec_ids m = Some (a, b) → same_state m0 m → initialized t →
  triple (on_db (λ d, state_is m d ∧ d !! sm_tree_name config a = Some t ∧ only_sms a b d))
    (open_create (Membership:=Membership) config (Some tt) create)
    (λ r w, r = (id, true) ∧ on_db (settled (end_ids a b m) a t) w ∧
       state_machine (env w) = mkStateMachine (sm_tree_name config a) (is_sync config) false ∧
       current_snapshot (env w) = None)
    (on_db (λ d, Faulty ∧ active m0 t d)).
Proof.
  intros Hid Hids Hsame Hinit. unfold open_create.
  set (G := λ d : db, d !! sm_tree_name config a = Some t ∧ only_sms a b d).
  assert (Hbad : ∀ d, Faulty ∧ state_is m d ∧ G d → Faulty ∧ active m0 t d)
    by (intros d (Hf & Hs & Ht & Ho); split; [done|by eapply active_intro]).
  assert (apart (state_tree config) G) as HG by (unfold G; eauto with apart).
  eapply triple_bind; [eapply triple_weaken; [by apply (triple_state_open m id create G)
    |done|by intros r w Hw; exact Hw|by intros w; apply Hbad]|].
  intros [id' is_open]. apply triple_pure. intros [= -> ->].
  apply (triple_bind _ _ _ _ (λ _, on_db (λ d, state_is m d ∧ G d))).
  { apply triple_map_err, (triple_db_call _ _ (λ d, state_is m d ∧ G d)); [|by intros Hf d Hd; apply Hbad].
    intros d (Hs & Ht & Ho). simpl. destruct (d !! log_tree config) eqn:Hl; [done|]. unfold G. simpl. split_and!.
    - apply state_is_apart; [apply not_eq_sym, state_tree_log|done].
    - by rewrite lookup_insert_ne by apply log_tree_sm.
    - apply only_apart; [intros; apply log_tree_sm|done]. }
  intros []. eapply triple_bind; [apply triple_map_err; eapply triple_weaken;
    [by apply (triple_read_ids m (a, b) G)|done|by intros r w Hw; exact Hw|by intros w; apply Hbad]|].
  intros [a' b']. apply triple_pure. intros [= -> ->].
  eapply triple_bind; [by apply (triple_settle m0 m a b t)|]. intros [].
  eapply triple_bind.
  { apply triple_map_err. eapply triple_weaken; [apply (triple_sm_reopen a t (λ d, state_is (end_ids a b m) d ∧
      rec_ids (end_ids a b m) = Some (a, a) ∧ only_sms a a d)); [done|]|by intros w (Hs & ? & Ht & Ho)
      |by intros sm w Hw; exact Hw|].
    - apply apart_and; [apply state_is_apart, not_eq_sym, state_tree_sm|].
      apply apart_and; [by intros ?|apply only_apart_l].
    - intros w (Hf & Ht & Hs & Hi & Ho). split; [done|]. eapply active_intro; [done| |done..].
      unfold end_ids. destruct (a =? b)%N; eauto with raft_state. }
  intros sm. apply triple_pure. intros ->. intros w (Ht & Hs & Hi & Ho). by split_and!.
Qed.

(** ** Installing, and restarting after it *)

(** The state machine built from the entries of a snapshot. *)
Definition installed (kvs : list (bytes * bytes)) (t : T) : Prop := ∃ t1, new_tree t1 ∧ t = insert_all t1 kvs.

Lemma settled_active m0 m a t d : same_state m0 m → settled m a t d → active m0 t d.
Proof. intros Hm (Hs & Hi & Ht & Ho). by eapply active_intro. Qed.

Lemma install_outcome m i t0 kvs data w :
  (i + 1 < u64_modulus)%N → snapshot_of_json data = Ok (pair_list <$> kvs) → settled m i t0 (tree w) →
  let '(r, w1) := install_snapshot (Membership:=Membership) config data w in
  ∃ t, active m t (tree w1) ∧
       match r with
       | Ok _ => installed kvs t ∧ settled (set_ids ((i + 1)%N, (i + 1)%N) m) (i + 1) t (tree w1) ∧
           state_machine (env w1) = mkStateMachine (sm_tree_name config (i + 1)) (is_sync config) false
       | _ => (t = t0 ∨ installed kvs t) ∧ (Faulty ∨ ∃ t', installed kvs t' ∧ ¬ readable t')
       end.
Proof.
  intros Hi Hdata (Hs & Hids & Ht & Ho).
  pose proof (triple_install m i t0 kvs data Hids Hi Hdata w (conj Hs (conj Ht Ho))) as Hw.
  destruct (install_snapshot config data w) as [r w1].
  assert ((∃ t1, new_tree t1 ∧ ¬ readable (insert_all t1 kvs)) → ∃ t', installed kvs t' ∧ ¬ readable t') as Hex
    by (intros (t1 & ? & ?); eexists; split; [by exists t1|done]).
  destruct r as [u|e|].
  - destruct Hw as (t1 & Hnew & Hd & Hsm). exists (insert_all t1 kvs). split_and!; [|by exists t1|done|done].
    eapply settled_active; [|exact Hd]. apply same_state_set, same_state_refl.
  - destruct Hw as [Hf [Ha|(t1 & Hnew & Ha)]]; [exists t0|exists (insert_all t1 kvs)];
      (split_and!; [done|unfold installed; eauto|tauto]).
  - destruct Hw as [Hf [Ha|(t1 & Hnew & Ha)]]; [exists t0|exists (insert_all t1 kvs)];
      (split_and!; [done|unfold installed; eauto|tauto]).
Qed.

Lemma restart_outcome m0 id t create w :
  m0 !! RSK_Id = Some (RSV_NodeId id) → initialized t → active m0 t (tree w) →
  let '(r, w1) := open_create (Membership:=Membership) config (Some tt) create w in
  active m0 t (tree w1) ∧
  match r with
  | Ok o => o = (id, true) ∧ ∃ m a, same_state m0 m ∧ settled m a t (tree w1) ∧
      state_machine (env w1) = mkStateMachine (sm_tree_name config a) (is_sync config) false
  | _ => Faulty
  end.
Proof.
  intros Hid Hinit (m & a & b & Hs & Hm & Hids & Ht & Ho).
  assert (m !! RSK_Id = Some (RSV_NodeId id)) as Hid' by (by rewrite (same_state_lookup m0)).
  pose proof (triple_open_create m0 m id a b t create Hid' Hids Hm Hinit w (conj Hs (conj Ht Ho))) as Hw.
  destruct (open_create config (Some tt) create w) as [[o|e|] w1]; [|by destruct Hw..].
  destruct Hw as (-> & Hd & Hsm & _).
  assert (same_state m0 (end_ids a b m)) as Hm' by (unfold end_ids; destruct (a =? b)%N; eauto with raft_state).
  split; [by eapply settled_active|]. split; [done|]. by exists (end_ids a b m), a.
Qed.
End install.
