(* ===== verification/SnapshotTransfer.v ===== *)
(** * From the node that builds a snapshot to the node that installs it.

    The contents of the tree that an installation builds, compared with the tree the
    snapshot was taken of. *)
From S2P Require Import Prelude ByteOrder MetaTypes KvApi SledStore SledView StateMachine StateMachineSpec RaftStore.
From S2P Require Import SledRange RaftLog SnapshotInstall.

Section contents.
Context {T : Type} `{SledLaws T, !SledDb T, !SledDbLaws T}.

(** Two trees with the same records. *)
Definition same_tree (t t' : T) : Prop := ∀ k, tree_get t' k = tree_get t k.

Lemma insert_all_get t kvs k :
  NoDup kvs.*1 →
  tree_get (insert_all t kvs) k =
    match (list_to_map kvs : gmap bytes bytes) !! k with Some v => Some v | None => tree_get t k end.
Proof.
  revert t. induction kvs as [|[k' v'] kvs IH]; intros t Hnd; csimpl; [by rewrite lookup_empty|].
  apply NoDup_cons in Hnd as [Hk' Hnd]. rewrite IH by done. simpl. rewrite tree_get_insert.
  destruct (decide (k' = k)) as [->|Hne].
  - rewrite lookup_insert_eq. by rewrite (proj1 (not_elem_of_list_to_map kvs k)).
  - by rewrite lookup_insert_ne.
Qed.

Lemma tree_iter_nodup t : NoDup (tree_iter t).*1.
Proof.
  pose proof (tree_iter_sorted t) as Hs. induction Hs as [|k l Hl IH Hall]; constructor; [|done].
  intros Hin. rewrite Forall_forall in Hall. specialize (Hall k Hin). by eapply bytes_lt_irrefl.
Qed.

(** Every record of [t] in a tree with fewer keys than [t]. *)
Lemma copy_get t t1 :
  (∀ k v, tree_get t1 k = Some v → is_Some (tree_get t k)) → same_tree t (insert_all t1 (tree_iter t)).
Proof.
  intros Hsub k. rewrite insert_all_get by apply tree_iter_nodup.
  destruct (list_to_map (tree_iter t) !! k) as [v|] eqn:Hv.
  - apply elem_of_list_to_map in Hv; [|apply tree_iter_nodup]. symmetry. by apply tree_iter_spec.
  - destruct (tree_get t k) as [v|] eqn:Hk.
    + apply tree_iter_spec, (elem_of_list_to_map_1 (M:=gmap bytes)) in Hk; [|apply tree_iter_nodup]. congruence.
    + destruct (tree_get t1 k) as [v|] eqn:Hk1; [|done]. destruct (Hsub k v Hk1). congruence.
Qed.
End contents.

Section build.
Context {T : Type} `{SledLaws T, !SledDb T, !SledDbLaws T, !SledEnv, !NoFaults, !Clock} {Membership : Type}.
Context `{SmSerdeLaws Membership, RaftSerdeLaws Membership, !SledTransaction T sm_env}.
Implicit Types (t : T) (s : sm_spec Membership).

Lemma same_tree_repr {K V} `{Countable K, OrderedSerdeLaws K, SledSerdeLaws V} (ks : SledKeySpace K V) t t' m :
  same_tree t t' → repr ks t m → repr ks t' m.
Proof. intros Heq. apply repr_frame. intros; apply Heq. Qed.
Lemma same_tree_sm t t' n n' x s : same_tree t t' → sm_repr (mkWorld t n x) s → sm_repr (mkWorld t' n' x) s.
Proof. intros Heq []. split; simpl in *; try done; (eapply repr_frame; [intros; apply Heq|done]). Qed.

(** The records every state machine that has applied an entry has. *)
Definition sm_started (t : T) (l : LogId) : Prop :=
  ∃ meta b, repr (StateMachineMeta (Membership:=Membership)) t meta ∧ meta !! Initialized = Some b ∧
            meta !! LastApplied = Some (SMV_LogId l).

Lemma started_init_key t l : sm_started t l → is_Some (tree_get t (init_key (Membership:=Membership))).
Proof.
  intros (meta & b & Hr & Hb & _). pose proof (repr_get _ _ _ Hr Initialized _ I (meta_key_ser _)) as Hg.
  rewrite Hb in Hg. destruct Hg as (bb & Hg & _). by exists bb.
Qed.
Lemma started_initialized t l : sm_started t l → initialized (Membership:=Membership) t.
Proof.
  intros (meta & b & Hr & Hb & _). exists b. unfold init_key.
  rewrite (repr_deserialize _ _ meta Initialized); [by rewrite Hb|done..].
Qed.
Lemma started_readable t l : sm_started t l → readable (Membership:=Membership) t.
Proof.
  intros (meta & b & Hr & _ & Hl). unfold readable, la_key.
  by rewrite (repr_deserialize _ _ meta LastApplied), Hl.
Qed.
Lemma same_tree_started t t' l : same_tree t t' → sm_started t l → sm_started t' l.
Proof. intros Heq (meta & b & Hr & ?). exists meta, b. split; [by eapply same_tree_repr|done]. Qed.

(** What an installation of all records of [t] builds. *)
Lemma installed_same t l t' :
  sm_started t l → installed (Membership:=Membership) (tree_iter t) t' → same_tree t t'.
Proof.
  intros Hinit%started_init_key (t1 & (b & _ & ->) & ->). apply copy_get. intros k v Hk.
  rewrite tree_get_insert in Hk. destruct (decide (init_key = k)) as [<-|]; [done|by rewrite tree_get_empty in Hk].
Qed.

(** Runs that leave the tree as it is. *)
Definition keeps (t : T) (w : world T sm_env) (x : sm_env) : Prop := tree w = t ∧ env w = x.

Lemma runs_keeps_last_applied t x l sm :
  sm_started t l → runs (keeps t) (get_last_applied (Membership:=Membership) sm) x (Ok (Some l)) x.
Proof.
  intros (m & b & Hr & Hb & Hl). unfold get_last_applied. apply (runs_bind _ _ _ _ (Some (SMV_LogId l)) x); [|apply runs_ret].
  intros w [Hw Hx]. unfold sled_get, serialize_key, bind, lift. simpl. rewrite io_call_ok. simpl.
  pose proof (repr_deserialize _ _ _ LastApplied _ Hr I (meta_key_ser LastApplied)) as Hd.
  rewrite Hl, <-Hw in Hd. simpl in Hd. rewrite Hd. by eexists.
Qed.
Lemma runs_keeps_iter t x :
  runs (keeps t) (λ w, for_item "taking snapshot" (λ kv, Ok [kv.1; kv.2]) (tree_iter (tree w)) w) x
    (Ok (pair_list <$> tree_iter t)) x.
Proof.
  intros w [Hw Hx].
  destruct (for_item_ok "taking snapshot" (λ kv, Ok [kv.1; kv.2]) (tree_iter (tree w)) (pair_list <$> tree_iter t) w)
    as [n Hn]; [|rewrite Hn; by eexists]. rewrite Hw. apply (res_mapM_Ok pair_list).
Qed.
Lemma runs_keeps_build t x l sm :
  sm_started t l →
  ∃ id x', runs (keeps t) (build_snapshot (Membership:=Membership) sm) x (Ok (pair_list <$> tree_iter t, l, id)) x'.
Proof.
  intros Hl. eexists _, _. unfold build_snapshot. eapply runs_bind; [by apply runs_keeps_last_applied|].
  eapply runs_bind; [apply (runs_lift _ (Ok l))|].
  apply (runs_bind _ now _ x (clock (clock_reads x)) (mkSmEnv (S (clock_reads x)) (events x))).
  { intros w [Hw Hx]. eexists. split; [unfold now; rewrite Hx; done|]. by destruct x. }
  eapply runs_bind; [apply runs_keeps_iter|]. apply runs_ret.
Qed.

(** The snapshot of a node: all records of its state machine, and its last applied
    log id.  The trees are not changed. *)
Lemma build_outcome l (w : world (gmap string T) node_env) t :
  tree w !! tree_name (state_machine (env w)) = Some t → sm_started t l →
  ∃ meta data w1,
    storage_build_snapshot (Membership:=Membership) w = (Ok (meta, data), w1) ∧
    last_log_id meta = l ∧ snapshot_of_json data = Ok (pair_list <$> tree_iter t) ∧ tree w1 = tree w ∧
    state_machine (env w1) = state_machine (env w) ∧ current_snapshot (env w1) = Some (mkSnapshot meta data).
Proof.
  intros Ht Hl. destruct (snapshot_json (pair_list <$> tree_iter t)) as (data & Hdata & Hjson).
  destruct (runs_keeps_build t (n_env (env w)) l (state_machine (env w)) Hl) as (id & x' & Hrun).
  destruct (Hrun (mkWorld t (sled_ops w) (n_env (env w)))) as (w1 & Hw1 & Ht1 & Hx1); [done|].
  eexists (mkSnapshotMeta l id), data, _.
  unfold storage_build_snapshot, get_state_machine, bind, map_to_sto_err, mapErrM, on_tree.
  rewrite Ht. simpl. rewrite Hw1. simpl. unfold lift. rewrite Hdata. simpl. split; [done|].
  split_and!; [done|done| |done|done]. simpl. by rewrite Ht1, insert_id.
Qed.

Lemma no_faulty : ¬ Faulty.
Proof. intros (n & e & He). by rewrite no_io_fault in He. Qed.

(** Installing a snapshot of [tl] succeeds and gives a copy of [tl]. *)
Lemma install_copy config m i t0 tl l data w :
  settled config m i t0 (tree w) → (i + 1 < u64_modulus)%N →
  snapshot_of_json data = Ok (pair_list <$> tree_iter tl) → sm_started tl l →
  ∃ w1 t, install_snapshot (Membership:=Membership) config data w = (Ok tt, w1) ∧ same_tree tl t ∧
          tree w1 !! tree_name (state_machine (env w1)) = Some t.
Proof.
  intros Hset Hi Hdata Hl. pose proof (install_outcome config m i t0 _ data w Hi Hdata Hset) as Hins.
  destruct (install_snapshot config data w) as [r w1]. destruct Hins as (t & _ & Hr).
  assert (¬ (Faulty ∨ ∃ t', installed (Membership:=Membership) (tree_iter tl) t' ∧ ¬ readable (Membership:=Membership) t'))
    as Hno.
  { intros [Hf|(t' & Hin & Hnr)]; [by apply no_faulty|]. apply Hnr.
    eapply started_readable, same_tree_started; [|done]. by eapply installed_same. }
  destruct r as [[]|e|]; [|by destruct Hr..]. destruct Hr as (Hin & (_ & _ & Ht & _) & Hsm).
  exists w1, t. rewrite Hsm. split_and!; [done|by eapply installed_same|done].
Qed.
End build.
