(* ===== verification/StoreOpen.v ===== *)
(** * Opening or creating the store of a node, and applying entries to it.

    Which of the modes of [open_create] succeed, and the state of a node it has created;
    [RaftStorage::apply_to_state_machine] and what the node reports about its state machine
    afterwards, as runs of the specification of StateMachineSpec.v. *)
From S2P Require Import Prelude ByteOrder MetaTypes KvApi SledStore SledView StateMachine StateMachineSpec RaftStore.
From S2P Require Import RaftLog SnapshotInstall.

Section open.
Context {T : Type} `{SledLaws T, !SledDb T, !SledDbLaws T, !SledEnv, !Clock} {Membership : Type}.
Context `{SmSerdeLaws Membership, RaftSerdeLaws Membership, !SledTransaction T sm_env} (config : RaftConfig).
Abbreviation db := (gmap string T).
Implicit Types (d : db) (G : db → Prop) (m : gmap RaftStateKey RaftStateValue).

Lemma repr_tree_empty {K V} `{Countable K, OrderedSerdeLaws K, SledSerdeLaws V} (ks : SledKeySpace K V) :
  repr ks (tree_empty : T) ∅.
Proof.
  split.
  - by intros k v ?%lookup_empty_Some.
  - intros k rest _ _. rewrite lookup_empty. apply tree_get_empty.
  - intros rest b. by rewrite tree_get_empty.
Qed.

(** The id of the node recorded in the raft state, and the mode of opening. *)
Definition node_id_of m : option N :=
  match m !! RSK_Id with Some (RSV_NodeId id) => Some id | _ => None end.
Definition id_ok m : Prop := match m !! RSK_Id with None | Some (RSV_NodeId _) => True | _ => False end.

Definition spec_state_open m (open create : option unit) : res MetaError (N * bool) :=
  match open, create, node_id_of m with
  | Some _, _, Some id => Ok (id, true)
  | None, Some _, Some id => Err (MetaStoreAlreadyExists id)
  | Some _, None, None => Err MetaStoreNotFound
  | _, Some _, None => Ok (config_id config, false)
  | None, None, _ => Panic
  end.
Definition state_opened m (open create : option unit) :=
  match spec_state_open m open create with
  | Ok (id, false) => <[RSK_Id:=RSV_NodeId id]> m
  | _ => m
  end.

(** *** All modes, without faults *)
Definition state_repr (w : world T sm_env) m : Prop := repr RaftStateKV (tree w) m.
#[export] Instance view_state : SpaceView state_repr RaftStateKV.
Proof. refine {| sv_get := id; sv_set m _ := m |}; by intros. Defined.

Definition node_state (w : world db node_env) m : Prop := state_is config m (tree w).

Context `{!NoFaults}.
Lemma runs_on_state {E A} (p : M (world T sm_env) E A) m r m' :
  runs state_repr p m r m' → runs node_state (on_tree (state_tree config) p) m r m'.
Proof.
  intros Hp w Hw. unfold on_tree. edestruct Hp as (w' & Heq & Hw'); [|rewrite Heq]; [exact Hw|]. eexists. split; [done|].
  unfold node_state, state_is. simpl. by rewrite lookup_insert_eq.
Qed.
Lemma runs_state_get k m :
  runs node_state (on_tree (state_tree config) (sled_get RaftStateKV (state_tree config) RaftStateKey_to_string k))
    m (Ok (m !! k)) m.
Proof. apply runs_on_state. exact (runs_sled_get state_repr RaftStateKV _ _ k m I). Qed.
Lemma runs_state_insert k v m :
  runs node_state (on_tree (state_tree config) (sled_insert RaftStateKV (is_sync config) RaftStateKey_to_string k v))
    m (Ok (m !! k)) (<[k:=v]> m).
Proof. apply runs_on_state. exact (runs_sled_insert state_repr RaftStateKV _ _ k v m I). Qed.

Lemma runs_state_open open create m :
  id_ok m →
  runs node_state (raft_state_open_create config open create) m
    (spec_state_open m open create) (state_opened m open create).
Proof.
  intros Hid. unfold raft_state_open_create. apply (runs_bind _ _ _ _ tt m).
  { apply (runs_map_err _ _ _ m (Ok tt)). intros w Hw. unfold sled_open. rewrite io_call_ok. eexists. split; [done|].
    unfold node_state, state_is in *. simpl. destruct (tree w !! state_tree config) eqn:Ht; simpl; [by rewrite Ht|].
    by rewrite lookup_insert_eq. }
  eapply runs_bind; [apply (runs_map_err _ _ _ m (Ok _)), runs_state_get|].
  assert (∀ E, res_opt RaftStateValue_node_id (m !! RSK_Id) = Ok (E:=E) (node_id_of m)) as ->
    by (intros E; unfold node_id_of, id_ok in *; by destruct (m !! RSK_Id) as [[]|]).
  eapply runs_bind; [apply (runs_lift _ (Ok (node_id_of m)))|].
  unfold state_opened, spec_state_open. destruct (node_id_of m) as [id|], open as [u|], create as [u'|]; simpl.
  all: try (apply runs_bind_err, runs_throw).
  all: try (by intros w Hw; exists w).
  all: (eapply runs_bind; [apply runs_ret|]; simpl; eapply runs_bind; [|apply runs_ret]).
  all: apply (runs_map_err _ _ _ m (Ok tt)); (eapply runs_bind; [apply runs_state_insert|apply runs_ret]).
Qed.

(** Reading the raft state changes neither the database nor the process. *)
Lemma read_ids_exact m p (w : world db node_env) :
  state_is config m (tree w) → is_Some (tree w !! state_tree config) → rec_ids m = Some p →
  ∃ n, read_state_machine_id config w = (Ok p, mkWorld (tree w) n (env w)).
Proof.
  intros Hs [t Ht] Hp. unfold state_is in Hs. rewrite Ht in Hs. simpl in Hs.
  assert (key_ok RSK_StateMachineId) as Hok by done.
  destruct (serialize_key_ok RaftStateKV RSK_StateMachineId Hok) as (rest & Hser & Hkey).
  exists (1 + sled_ops w). unfold read_state_machine_id, bind, on_tree, sled_get, bind, lift.
  pose proof (repr_deserialize _ _ _ _ _ Hs Hok Hser) as Hd.
  rewrite Ht, Hkey, io_call_ok. simpl in Hd |- *. rewrite Hd, (insert_id _ _ _ Ht).
  destruct w as [d n [x sm c]]. unfold rec_ids in Hp. simpl. by destruct (m !! RSK_StateMachineId) as [[]|]; simplify_eq/=.
Qed.

(** *** Creating a node *)

(** A database without a node: no id, no state machine. *)
Definition no_node m d : Prop :=
  state_is config m d ∧ m !! RSK_Id = None ∧ m !! RSK_StateMachineId = None ∧
  ∀ j, d !! sm_tree_name config j = None.

Lemma triple_state_create m open G :
  m !! RSK_Id = None → apart (state_tree config) G →
  triple (on_db (λ d, state_is config m d ∧ G d)) (raft_state_open_create config open (Some tt))
    (λ r, on_db (λ d, r = (config_id config, false) ∧
       state_is config (<[RSK_Id:=RSV_NodeId (config_id config)]> m) d ∧ G d)) (on_db (λ _, Faulty)).
Proof.
  intros Hid HG. unfold raft_state_open_create. eapply triple_bind.
  { apply triple_map_err. eapply triple_weaken; [by apply (triple_state_opened config m G)|done|by intros ? w Hw; exact Hw|].
    by intros w [Hf _]. }
  intros []. eapply triple_bind.
  { apply triple_map_err. eapply triple_weaken; [apply (triple_state_get config m RSK_Id G HG)|done|by intros ? w Hw; exact Hw|].
    by intros w [Hf _]. }
  intros o. apply triple_pure. intros ->. rewrite Hid. simpl.
  apply (triple_bind _ _ _ _ (λ c w, c = None ∧ on_db (λ d, state_is config m d ∧ G d) w)); [by apply triple_lift|].
  intros c. apply triple_pure. intros ->.
  apply (triple_bind _ _ _ _ (λ r w, r = (config_id config, false) ∧ on_db (λ d, state_is config m d ∧ G d) w));
    [by destruct open; apply triple_ret|].
  intros [id is_open]. apply triple_pure. intros [= -> ->].
  set (Q := λ _ : unit, on_db (λ d, state_is config (<[RSK_Id:=RSV_NodeId (config_id config)]> m) d ∧ G d)).
  apply (triple_bind _ _ _ _ Q); [|intros ?; apply triple_ret; by intros w Hw].
  apply triple_map_err, (triple_bind _ _ _ _ (λ _, Q tt)); [|by intros ?; apply triple_ret].
  eapply triple_weaken; [apply (triple_state_insert config m _ _ G HG)|done|done|by intros w [Hf _]].
Qed.

Lemma triple_create m open :
  m !! RSK_Id = None → m !! RSK_StateMachineId = None →
  triple (on_db (λ d, state_is config m d ∧ ∀ j, d !! sm_tree_name config j = None))
    (open_create (Membership:=Membership) config open (Some tt))
    (λ r w, r = (config_id config, false) ∧
       (∃ t, new_tree (Membership:=Membership) t ∧
          settled config (<[RSK_Id:=RSV_NodeId (config_id config)]> m) 0 t (tree w)) ∧
       state_machine (env w) = mkStateMachine (sm_tree_name config 0) (is_sync config) false)
    (on_db (λ _, Faulty)).
Proof.
  intros Hid Hsm. unfold open_create. set (m' := <[RSK_Id:=RSV_NodeId (config_id config)]> m).
  set (G := λ d : db, ∀ j, d !! sm_tree_name config j = None).
  assert (rec_ids m' = Some (0, 0)%N) as Hids by (unfold rec_ids, m'; by rewrite lookup_insert_ne, Hsm).
  assert (∀ name, (∀ j, name ≠ sm_tree_name config j) → apart name G) as HG
    by (intros name Hn d t Hd j; by rewrite lookup_insert_ne).
  eapply triple_bind; [apply (triple_state_create m open G); auto using state_tree_sm|].
  intros [id is_open]. apply triple_pure. intros [= -> ->].
  apply (triple_bind _ _ _ _ (λ _, on_db (λ d, state_is config m' d ∧ G d))).
  { apply triple_map_err, (triple_db_call _ _ (λ d, state_is config m' d ∧ G d)); [|done].
    intros d [Hs Hg]. simpl. destruct (d !! log_tree config) eqn:Hl; [done|].
    split; [apply state_is_apart; [apply not_eq_sym, state_tree_log|done]|]. by apply HG; [apply log_tree_sm|]. }
  intros []. eapply triple_bind; [apply triple_map_err; eapply triple_weaken;
    [apply (triple_read_ids config m' (0, 0)%N G); auto using state_tree_sm|done|by intros r w Hw; exact Hw|by intros w [Hf _]]|].
  intros [a b]. apply triple_pure. intros [= -> ->]. simpl.
  apply (triple_bind _ _ _ _ (λ _, on_db (λ d, state_is config m' d ∧ G d))); [by apply triple_ret|]. intros [].
  eapply triple_bind.
  { apply triple_map_err. eapply triple_weaken; [apply (triple_sm_open config 0 (λ d, state_is config m' d ∧ only_sms config 0 0 d))
      |..|by intros sm w Hw; exact Hw|by intros w [Hf _]].
    - apply apart_and; [apply state_is_apart, not_eq_sym, state_tree_sm|apply only_apart_l].
    - intros w [Hs Hg]. split_and!; [apply Hg|done|by intros j _ _]. }
  intros sm. apply triple_pure. intros ->. intros w ((t & Ht & Hnew) & Hs & Ho).
  split_and!; [done| |done]. by exists t.
Qed.
End open.

(** ** Applying log entries to the state machine in use *)
Section apply.
Context {T : Type} `{SledLaws T, !SledDb T, !SledEnv, !NoFaults, !Clock} {Membership : Type}.
Context `{SmSerdeLaws Membership, RaftSerde Membership, !SledTransaction T sm_env, !SledTransactionLaws T sm_env}.
Implicit Types (s : sm_spec Membership) (e : Entry Membership) (sm : StateMachine).

(** A node whose state machine in use is [sm]. *)
Definition node_sm sm (w : world (gmap string T) node_env) s : Prop :=
  state_machine (env w) = sm ∧
  sm_repr (mkWorld (default tree_empty (tree w !! tree_name sm)) (sled_ops w) (n_env (env w))) s.

Lemma runs_on_sm {E A} sm (m : M (world T sm_env) E A) s r s' :
  runs sm_repr m s r s' → runs (node_sm sm) (on_tree (tree_name sm) m) s r s'.
Proof.
  intros Hm w [Hsm Hw]. destruct (Hm _ Hw) as (w' & Heq & Hw'). unfold on_tree. rewrite Heq. eexists.
  split; [done|]. split; [done|]. simpl. rewrite lookup_insert_eq. simpl. by destruct w'.
Qed.

(** The specification, entry by entry. *)
Fixpoint spec_apply_all sm s (es : list (Entry Membership)) : list AppliedState * sm_spec Membership :=
  match es with
  | [] => ([], s)
  | e :: es =>
      let '(r, s1) := spec_apply sm s e in
      let '(rs, s2) := spec_apply_all sm s1 es in
      (r :: rs, s2)
  end.

Lemma runs_apply_all sm es s :
  Forall entry_ok es →
  runs (node_sm sm) (apply_to_state_machine es) s (Ok (spec_apply_all sm s es).1) (spec_apply_all sm s es).2.
Proof.
  intros Hes. unfold apply_to_state_machine. apply (runs_bind _ _ _ _ sm s); [by intros w [<- Hw]; exists w|].
  revert s. induction Hes as [|e es He _ IH]; intros s; simpl; [apply runs_ret|].
  destruct (spec_apply sm s e) as [r s1] eqn:Hs. eapply runs_bind.
  { apply (runs_map_err _ _ _ s (Ok r)), runs_on_sm. pose proof (runs_apply (T:=T) sm e s He) as Hrun. rewrite Hs in Hrun.
    exact Hrun. }
  specialize (IH s1). destruct (spec_apply_all sm s1 es) as [rs s2]. eapply runs_bind; [apply IH|apply runs_ret].
Qed.

(** What the node reports about its state machine. *)
Definition spec_last_applied s : option LogId :=
  match s_meta s !! LastApplied with Some (SMV_LogId l) => Some l | _ => None end.
Definition spec_membership s : option (EffectiveMembership Membership) :=
  match s_meta s !! LastMembership with Some (SMV_Membership m) => Some m | _ => None end.
(** The records of the meta data have the kind of value their key is for. *)
Definition meta_ok s : Prop :=
  match s_meta s !! LastApplied with None | Some (SMV_LogId _) => True | _ => False end ∧
  match s_meta s !! LastMembership with None | Some (SMV_Membership _) => True | _ => False end.

Lemma runs_last_applied_state sm s :
  meta_ok s →
  runs (node_sm sm) last_applied_state s (Ok (spec_last_applied s, spec_membership s)) s.
Proof.
  intros [Ha Hm]. unfold last_applied_state. apply (runs_bind _ _ _ _ sm s); [by intros w [<- Hw]; exists w|].
  eapply runs_bind.
  { apply (runs_map_err _ _ _ s (Ok (spec_last_applied s))), runs_on_sm. unfold get_last_applied, spec_last_applied.
    eapply runs_bind; [exact (runs_sled_get sm_repr StateMachineMeta _ _ LastApplied s I)|]. simpl.
    destruct (s_meta s !! LastApplied) as [[]|]; done || apply runs_ret. }
  eapply runs_bind; [|apply runs_ret].
  apply (runs_map_err _ _ _ s (Ok (spec_membership s))), runs_on_sm. unfold get_membership, spec_membership.
  eapply runs_bind; [exact (runs_sled_get sm_repr StateMachineMeta _ _ LastMembership s I)|]. simpl.
  destruct (s_meta s !! LastMembership) as [[]|]; done || apply runs_ret.
Qed.

(** Commands do not touch the meta data, and notify nobody without a subscriber. *)
Lemma spec_cmd_frame sm s c :
  s_meta (spec_cmd sm s c).2 = s_meta s ∧ (has_subscriber sm = false → s_events (spec_cmd sm s c).2 = s_events s).
Proof.
  destruct c; simpl; unfold spec_notify; repeat case_match; by simplify_eq/=.
Qed.
Lemma spec_entry_frame sm s d :
  s_meta (spec_entry sm s d).2 = s_meta s ∧ (has_subscriber sm = false → s_events (spec_entry sm s d).2 = s_events s).
Proof.
  unfold spec_entry. pose proof (spec_cmd_frame sm s (cmd d)) as Hc.
  destruct (txid d) as [t|]; [|done]. destruct (_ =? _)%N; [done|]. by destruct (spec_cmd sm s (cmd d)).
Qed.
Lemma spec_apply_events sm s e : has_subscriber sm = false → s_events (spec_apply sm s e).2 = s_events s.
Proof.
  intros Hsub. unfold spec_apply. destruct (payload e) as [|d|m]; [done| |done]. by rewrite (proj2 (spec_entry_frame _ _ _)).
Qed.
Lemma spec_apply_meta sm s e :
  meta_ok s → meta_ok (spec_apply sm s e).2 ∧ spec_last_applied (spec_apply sm s e).2 = Some (log_id e).
Proof.
  intros [Ha Hm]. unfold meta_ok, spec_last_applied, spec_apply. destruct (payload e) as [|d|m]; simpl.
  - by rewrite lookup_insert_eq, lookup_insert_ne.
  - rewrite (proj1 (spec_entry_frame _ _ _)). simpl. by rewrite lookup_insert_eq, lookup_insert_ne.
  - by rewrite lookup_insert_ne, !lookup_insert_eq.
Qed.

Lemma spec_apply_all_events sm s es : has_subscriber sm = false → s_events (spec_apply_all sm s es).2 = s_events s.
Proof.
  intros Hsub. revert s. induction es as [|e es IH]; intros s; simpl; [done|].
  pose proof (spec_apply_events sm s e Hsub) as He. destruct (spec_apply sm s e) as [r s1]. specialize (IH s1).
  destruct (spec_apply_all sm s1 es). simpl in *. congruence.
Qed.
Lemma spec_apply_all_meta sm s es :
  meta_ok s →
  meta_ok (spec_apply_all sm s es).2 ∧
  spec_last_applied (spec_apply_all sm s es).2 =
    match list.last es with Some e => Some (log_id e) | None => spec_last_applied s end.
Proof.
  revert s. induction es as [|e es IH]; intros s Hs; [done|]. rewrite last_cons. simpl.
  destruct (spec_apply_meta sm s e Hs) as [He Hl]. destruct (spec_apply sm s e) as [r s1]. simpl in *.
  destruct (IH s1 He) as [Hok Hlast]. destruct (spec_apply_all sm s1 es) as [rs s2]. simpl in *. split; [done|].
  rewrite Hlast. by destruct (list.last es).
Qed.
End apply.
