(* ===== verification/RaftModel.v ===== *)
(** * A concrete raft store.

    Injective encodings of log entries, raft state and snapshots, and a database of
    in-memory trees.  With SmModel.v they satisfy all laws assumed of sled and of
    serde_json, and are what the examples of RaftProps.v run on. *)
From S2P Require Import Prelude ByteOrder MetaTypes KvApi SledStore SledView StateMachine StateMachineSpec SmModel.
From S2P Require Import RaftStore RaftLog SnapshotInstall SnapshotTransfer.

#[export] Instance Operation_eq_dec `{EqDecision A} : EqDecision (Operation A).
Proof. solve_decision. Defined.
#[export] Instance Operation_countable `{Countable A} : Countable (Operation A).
Proof.
  refine (inj_countable' (λ o, match o with OpUpdate v => inl v | OpDelete => inr true | OpAsIs => inr false end)
    (λ x, match x with inl v => OpUpdate v | inr true => OpDelete | inr false => OpAsIs end) _).
  by intros [].
Defined.
#[export] Instance TxnCondition_eq_dec : EqDecision TxnCondition.
Proof. assert (EqDecision Target) by solve_decision. solve_decision. Defined.
#[export] Instance TxnCondition_countable : Countable TxnCondition.
Proof.
  refine (inj_countable'
    (λ c, (cond_key c, expected c,
           match target c with None => None | Some (TargetValue v) => Some (inl v) | Some (TargetSeq s) => Some (inr s) end))
    (λ '(k, e, t), mkTxnCondition k
       match t with None => None | Some (inl v) => Some (TargetValue v) | Some (inr s) => Some (TargetSeq s) end e) _).
  by intros [? [[]|] ?].
Defined.
#[export] Instance TxnOp_eq_dec : EqDecision TxnOp.
Proof.
  assert (EqDecision TxnGetRequest) by solve_decision. assert (EqDecision TxnPutRequest) by solve_decision.
  assert (EqDecision TxnDeleteRequest) by solve_decision. assert (EqDecision Request) by solve_decision. solve_decision.
Defined.
#[export] Instance TxnOp_countable : Countable TxnOp.
Proof.
  refine (inj_countable'
    (λ o, match request o with
          | None => None
          | Some (ReqGet (mkTxnGetRequest k)) => Some (0%N, k, "", false)
          | Some (ReqPut (mkTxnPutRequest k v p)) => Some (1%N, k, v, p)
          | Some (ReqDelete (mkTxnDeleteRequest k p)) => Some (2%N, k, "", p)
          end)
    (λ x, mkTxnOp match x with
          | None => None
          | Some (0%N, k, _, _) => Some (ReqGet (mkTxnGetRequest k))
          | Some (1%N, k, v, p) => Some (ReqPut (mkTxnPutRequest k v p))
          | Some (_, k, _, p) => Some (ReqDelete (mkTxnDeleteRequest k p))
          end) _).
  by intros [[[[]|[]|[]]|]].
Defined.
#[export] Instance TxnRequest_eq_dec : EqDecision TxnRequest.
Proof. solve_decision. Defined.
#[export] Instance TxnRequest_countable : Countable TxnRequest.
Proof.
  refine (inj_countable' (λ t, (condition t, if_then t, else_then t)) (λ '(c, i, e), mkTxnRequest c i e) _).
  by intros [].
Defined.
#[export] Instance Cmd_eq_dec : EqDecision Cmd.
Proof. solve_decision. Defined.
#[export] Instance Cmd_countable : Countable Cmd.
Proof.
  refine (inj_countable'
    (λ c, match c with
          | IncrSeq k => inl (inl (inl k))
          | AddNode i n => inl (inl (inr (i, n)))
          | RemoveNode i => inl (inr (inl i))
          | AddMetaSrvAddr n a => inl (inr (inr (n, a)))
          | RemoveMetaSrvAddr n => inr (inl (inl n))
          | UpsertKV k s v m => inr (inl (inr (k, s, v, m)))
          | Transaction t => inr (inr t)
          end)
    (λ x, match x with
          | inl (inl (inl k)) => IncrSeq k
          | inl (inl (inr (i, n))) => AddNode i n
          | inl (inr (inl i)) => RemoveNode i
          | inl (inr (inr (n, a))) => AddMetaSrvAddr n a
          | inr (inl (inl n)) => RemoveMetaSrvAddr n
          | inr (inl (inr (k, s, v, m))) => UpsertKV k s v m
          | inr (inr t) => Transaction t
          end) _).
  by intros [].
Defined.
#[export] Instance LogEntry_eq_dec : EqDecision LogEntry.
Proof. assert (EqDecision RaftTxId) by solve_decision. solve_decision. Defined.
#[export] Instance LogEntry_countable : Countable LogEntry.
Proof.
  refine (inj_countable' (λ e, (match txid e with Some t => Some (client t, serial t) | None => None end, cmd e))
    (λ '(t, c), mkLogEntry match t with Some (a, b) => Some (mkRaftTxId a b) | None => None end c) _).
  by intros [[[]|] ?].
Defined.
#[export] Instance Entry_eq_dec `{EqDecision Mb} : EqDecision (Entry Mb).
Proof. assert (EqDecision (EntryPayload Mb)) by solve_decision. solve_decision. Defined.
#[export] Instance Entry_countable `{Countable Mb} : Countable (Entry Mb).
Proof.
  refine (inj_countable'
    (λ e, (log_id e, match payload e with Blank => inl tt | Normal d => inr (inl d) | MembershipEntry m => inr (inr m) end))
    (λ '(l, p), mkEntry l match p with inl _ => Blank | inr (inl d) => Normal d | inr (inr m) => MembershipEntry m end) _).
  by intros [? []].
Defined.
#[export] Instance LogMetaValue_eq_dec : EqDecision LogMetaValue.
Proof. solve_decision. Defined.
#[export] Instance LogMetaValue_countable : Countable LogMetaValue.
Proof. refine (inj_countable' (λ '(LMV_LogId l), l) LMV_LogId _). by intros []. Defined.
#[export] Instance RaftStateValue_eq_dec : EqDecision RaftStateValue.
Proof. assert (EqDecision HardState) by solve_decision. solve_decision. Defined.
#[export] Instance RaftStateValue_countable : Countable RaftStateValue.
Proof.
  refine (inj_countable'
    (λ v, match v with
          | RSV_NodeId i => inl i
          | RSV_HardState (mkHardState t v) => inr (inl (t, v))
          | RSV_StateMachineId p => inr (inr p)
          end)
    (λ x, match x with
          | inl i => RSV_NodeId i
          | inr (inl (t, v)) => RSV_HardState (mkHardState t v)
          | inr (inr p) => RSV_StateMachineId p
          end) _).
  by intros [?|[]|].
Defined.

Definition mem_raft_serde : RaftSerde (list N) := {|
  serde_entry := countable_serde (Entry (list N));
  serde_log_meta := countable_serde LogMetaValue;
  serde_raft_state := countable_serde RaftStateValue;
  snapshot_to_json kvs := Ok (pos_bits (encode kvs));
  snapshot_of_json b := match decode (bits_pos b) with Some v => Ok v | None => Err "expected a snapshot" end;
  any_error_of_storage _ := "storage error" |}.
Lemma mem_raft_serde_laws : @RaftSerdeLaws (list N) mem_raft_serde.
Proof.
  split; [apply countable_serde_laws..|]. intros kvs. eexists. split; [done|]. simpl.
  by rewrite bits_pos_bits, decode_encode.
Qed.
Definition mem_db : SledDb mem_tree := (∅ : mem_tree).
Lemma mem_db_laws : @SledDbLaws mem_tree _ mem_db.
Proof. by intros k. Qed.

(** ** A node with id 3 that has applied the log up to index 5 *)
Definition demo_config : RaftConfig := mkRaftConfig 3 false "test-".
Definition blank_node : world (gmap string mem_tree) node_env :=
  mkWorld ∅ 0 (mkNodeEnv (mkSmEnv 0 []) (mkStateMachine "" false false) None).

#[local] Existing Instances mem_serde mem_raft_serde mem_serde_laws mem_raft_serde_laws mem_db mem_db_laws.

Definition store {K V} `{SledOrderedSerde K, SledSerde V} (ks : SledKeySpace K V) (k : K) (v : V) (t : mem_tree) : mem_tree :=
  match serialize_key ks k, serialize_value ks v with Ok kb, Ok vb => (tree_insert t kb vb).2 | _, _ => t end.
Lemma repr_store {K V} `{Countable K, OrderedSerdeLaws K, SledSerdeLaws V} (ks : SledKeySpace K V) k v t m :
  key_ok k → repr ks t m → repr ks (store ks k v t) (<[k:=v]> m).
Proof.
  intros Hk Hr. destruct (serialize_key_ok ks k Hk) as (rest & Hser & Hkey).
  destruct (serde_roundtrip v) as (b & Hb & Hd). unfold store, serialize_value. rewrite Hkey, Hb.
  by eapply repr_insert.
Qed.

Definition demo_state : gmap RaftStateKey RaftStateValue := {[RSK_Id := RSV_NodeId 3]}.
Definition demo_state_tree (m : list (RaftStateKey * RaftStateValue)) : mem_tree :=
  foldr (λ kv t, store RaftStateKV kv.1 kv.2 t) (∅ : mem_tree) m.
Definition demo_sm_tree (l : LogId) : mem_tree :=
  store StateMachineMeta LastApplied (SMV_LogId (Membership:=list N) l)
    (store StateMachineMeta Initialized (SMV_Bool (Membership:=list N) true) (∅ : mem_tree)).
Definition demo_node (l : LogId) (state : list (RaftStateKey * RaftStateValue)) : world (gmap string mem_tree) node_env :=
  mkWorld (<[state_tree demo_config := demo_state_tree state]> {[sm_tree_name demo_config 0 := demo_sm_tree l]}) 0
    (mkNodeEnv (mkSmEnv 0 []) (mkStateMachine (sm_tree_name demo_config 0) true true) None).

Lemma demo_node_state l state : state_is demo_config (list_to_map state) (tree (demo_node l state)).
Proof.
  unfold state_is, demo_node. cbn [tree]. rewrite lookup_insert_eq. cbn [default].
  induction state as [|[k v] state IH]; [apply repr_empty|]. by apply repr_store.
Qed.
Lemma demo_node_sm l state : tree (demo_node l state) !! sm_tree_name demo_config 0 = Some (demo_sm_tree l).
Proof. unfold demo_node. cbn [tree]. by rewrite lookup_insert_ne, lookup_singleton_eq by apply state_tree_sm. Qed.
Lemma demo_meta_repr l :
  repr (StateMachineMeta (Membership:=list N)) (demo_sm_tree l) (<[LastApplied:=SMV_LogId l]> {[Initialized := SMV_Bool true]}).
Proof. apply repr_store; [done|]. by apply repr_store, repr_empty. Qed.
Lemma demo_sm_started l : sm_started (Membership:=list N) (demo_sm_tree l) l.
Proof.
  exists (<[LastApplied:=SMV_LogId l]> {[Initialized := SMV_Bool true]}), (SMV_Bool true). split_and!.
  - apply demo_meta_repr.
  - by rewrite lookup_insert_ne, lookup_singleton_eq.
  - by rewrite lookup_insert_eq.
Qed.
Lemma demo_settled l : settled demo_config demo_state 0 (demo_sm_tree l) (tree (demo_node l [(RSK_Id, RSV_NodeId 3)])).
Proof.
  split_and!; [apply (demo_node_state l [(RSK_Id, RSV_NodeId 3)])|done|apply demo_node_sm|].
  intros j Hj _. unfold demo_node. cbn [tree]. rewrite lookup_insert_ne by apply state_tree_sm.
  apply lookup_singleton_ne. by intros ?%sm_tree_name_inj.
Qed.

Definition demo_spec (l : LogId) (x : sm_env) : sm_spec (list N) :=
  mkSpec (<[LastApplied:=SMV_LogId l]> {[Initialized := SMV_Bool true]}) ∅ ∅ (mkStore ∅ ∅ (clock_reads x)) ∅ (events x).
Lemma demo_repr l n x : @sm_repr mem_tree _ quiet_env (list N) mem_serde (mkWorld (demo_sm_tree l) n x) (demo_spec l x).
Proof.
  split; simpl; try done; [apply demo_meta_repr|..].
  all: unfold demo_sm_tree, store; repeat (apply repr_frame_insert; [done|]); apply repr_empty.
Qed.
