(* ===== verification/RaftProps.v ===== *)
(** * Properties of the storage of a raft node.

    Installing snapshots with storage that may fail at any call, transferring a
    snapshot to another node, the raft log, the hard state, and applying entries. *)
From S2P Require Import Prelude ByteOrder MetaTypes KvApi SledStore SledView SledRange StateMachine StateMachineSpec.
From S2P Require Import SmModel RaftStore RaftLog SnapshotInstall SnapshotTransfer StoreOpen RaftModel.

Section faulty.
Context {T : Type} `{SledLaws T, !SledDb T, !SledDbLaws T, !SledEnv, !Clock} {Membership : Type}.
Context `{SmSerdeLaws Membership, RaftSerdeLaws Membership, !SledTransaction T sm_env} (config : RaftConfig).
Implicit Types (m : gmap RaftStateKey RaftStateValue) (t : T).

(** C4: Installing a snapshot is crash safe.  Storage calls may fail in any pattern,
    which covers a process that is killed between any two of them.  Afterwards the
    active state machine is the old one, unchanged, or the complete new one, the other
    raft state is as before, and it is the new one in use when the call succeeds.
    Restarting then opens that state machine, removes the other one and leaves a node
    ready for the next installation; if storage fails during the restart, it is still
    the active one.  Without storage faults both calls succeed. *)
Theorem install_crash_safe m i id t0 kvs data create w :
  settled config m i t0 (tree w) → m !! RSK_Id = Some (RSV_NodeId id) → (i + 1 < u64_modulus)%N →
  snapshot_of_json data = Ok (pair_list <$> kvs) →
  initialized (Membership:=Membership) t0 →
  (∀ t, installed (Membership:=Membership) kvs t →
     initialized (Membership:=Membership) t ∧ readable (Membership:=Membership) t) →
  let '(r, w1) := install_snapshot (Membership:=Membership) config data w in
  let '(r2, w2) := open_create (Membership:=Membership) config (Some tt) create w1 in
  ∃ t, match r with
       | Ok _ => installed (Membership:=Membership) kvs t ∧ tree w1 !! tree_name (state_machine (env w1)) = Some t
       | _ => (t = t0 ∨ installed (Membership:=Membership) kvs t) ∧ Faulty
       end ∧
       active config m t (tree w1) ∧ active config m t (tree w2) ∧
       match r2 with
       | Ok o => o = (id, true) ∧ tree w2 !! tree_name (state_machine (env w2)) = Some t ∧
           ∃ m' a, same_state m m' ∧ settled config m' a t (tree w2)
       | _ => Faulty
       end.
Proof.
  intros Hset Hid Hi Hdata Hinit Hnew.
  pose proof (install_outcome config m i t0 kvs data w Hi Hdata Hset) as Hins.
  destruct (install_snapshot config data w) as [r w1]. destruct Hins as (t & Hact & Hr).
  assert (initialized (Membership:=Membership) t) as Ht.
  { destruct r as [u| |]; [by destruct Hr as ([? _]%Hnew & _)|by destruct Hr as [[->|[? _]%Hnew] _]..]. }
  assert (Faulty ∨ (∃ t', installed (Membership:=Membership) kvs t' ∧ ¬ readable (Membership:=Membership) t') → Faulty)
    as Hf by (intros [?|(t' & [_ ?]%Hnew & Hn)]; [done|by destruct Hn]).
  pose proof (restart_outcome config m id t create w1 Hid Ht Hact) as Hre.
  destruct (open_create config (Some tt) create w1) as [r2 w2]. destruct Hre as [Hact2 Hr2].
  exists t. split_and!; [|done|done|].
  - destruct r; [by destruct Hr as (Hin & (_ & _ & Htree & _) & ->)|by destruct Hr as [? ?%Hf]..].
  - destruct r2 as [o| |]; [|done..]. destruct Hr2 as (-> & m' & a & Hm & Hs & ->).
    split_and!; [done|apply Hs|by exists m', a].
Qed.

Lemma triple_save_hard_state m hs :
  triple (on_db (state_is config m)) (save_hard_state (Membership:=Membership) config hs)
    (λ _, on_db (state_is config (<[RSK_HardState:=RSV_HardState hs]> m)))
    (on_db (λ d, Faulty ∧ (state_is config m d ∨ state_is config (<[RSK_HardState:=RSV_HardState hs]> m) d))).
Proof.
  apply triple_map_err, (triple_bind _ _ _ _ (λ _, on_db (state_is config (<[RSK_HardState:=RSV_HardState hs]> m))));
    [|intros ?; by apply triple_ret].
  eapply triple_weaken; [by apply (triple_state_insert config m _ _ (λ _, True))|done|by intros ? w [Hw _]|].
  intros w (Hf & Hw & _). by split.
Qed.
Lemma triple_read_hard_state m o :
  m !! RSK_HardState = RSV_HardState <$> o →
  triple (on_db (state_is config m)) (storage_read_hard_state (Membership:=Membership) config)
    (λ v _, v = o) (λ _, Faulty).
Proof.
  intros Ho. apply triple_map_err. unfold read_hard_state. eapply triple_bind.
  { eapply triple_weaken; [by apply (triple_state_get config m RSK_HardState (λ _, True))|done
      |by intros ? w Hw; exact Hw|by intros w [Hf _]]. }
  intros v. apply triple_pure. intros ->. rewrite Ho. by destruct o; apply triple_lift.
Qed.

(** The hard state of a node is durable: after [save_hard_state] has succeeded, a
    read gives what was saved; after it has failed, which only happens when storage
    does, a read gives the old or the new hard state, never a mixture.  A read fails
    only if storage does. *)
Theorem hard_state_durable m (old : option HardState) hs (w : world (gmap string T) node_env) :
  state_is config m (tree w) → m !! RSK_HardState = RSV_HardState <$> old →
  let '(r, w1) := save_hard_state (Membership:=Membership) config hs w in
  (r = Ok tt ∨ Faulty) ∧
  match (storage_read_hard_state (Membership:=Membership) config w1).1 with
  | Ok v => v = Some hs ∨ (r ≠ Ok tt ∧ v = old)
  | _ => Faulty
  end.
Proof.
  intros Hs Hold. pose proof (triple_save_hard_state m hs w Hs) as Hsave.
  destruct (save_hard_state config hs w) as [r w1].
  assert ((r = Ok tt ∨ Faulty) ∧ (state_is config (<[RSK_HardState:=RSV_HardState hs]> m) (tree w1) ∨
          (r ≠ Ok tt ∧ state_is config m (tree w1)))) as [Hr Hstate].
  { destruct r as [[]| |]; [by auto|destruct Hsave as (? & [?|?])..]; auto. }
  split; [done|]. destruct Hstate as [Hn|[Hne Ho]].
  - pose proof (triple_read_hard_state _ (Some hs) (lookup_insert_eq _ _ _) w1 Hn) as Hread.
    destruct (storage_read_hard_state config w1) as [[v| |] w2]; [by left|done..].
  - pose proof (triple_read_hard_state _ old Hold w1 Ho) as Hread.
    destruct (storage_read_hard_state config w1) as [[v| |] w2]; [by right|done..].
Qed.
End faulty.

Section quiet.
Context {T : Type} `{SledLaws T, !SledDb T, !SledDbLaws T, !SledEnv, !NoFaults, !Clock} {Membership : Type}.
Context `{SmSerdeLaws Membership, RaftSerdeLaws Membership, SledTransactionLaws T sm_env} (config : RaftConfig).
Implicit Types (m : gmap RaftStateKey RaftStateValue) (t : T) (s : sm_spec Membership).
Implicit Types (ls : log_spec Membership) (e : Entry Membership) (w : world (gmap string T) node_env).

(** C5: A snapshot carries the whole state machine: when one node builds a snapshot
    and another installs it, both calls succeed, and the state machine the second node
    then uses has exactly the records of the first, so it represents the same
    abstract state; the reported last applied log id is the builder's. *)
Theorem snapshot_replicates wl wf tl l m i t0 :
  tree wl !! tree_name (state_machine (env wl)) = Some tl → sm_started (Membership:=Membership) tl l →
  settled config m i t0 (tree wf) → (i + 1 < u64_modulus)%N →
  ∃ meta data wl' wf' t',
    storage_build_snapshot (Membership:=Membership) wl = (Ok (meta, data), wl') ∧ tree wl' = tree wl ∧
    storage_install_snapshot (Membership:=Membership) config meta data wf = (Ok (mkStateMachineChanges l true), wf') ∧
    tree wf' !! tree_name (state_machine (env wf')) = Some t' ∧
    (∀ k, tree_get t' k = tree_get tl k) ∧
    (∀ n x s, sm_repr (mkWorld tl n x) s → sm_repr (mkWorld t' n x) s) ∧
    current_snapshot (env wf') = Some (mkSnapshot meta data).
Proof.
  intros Htl Hl Hset Hi.
  destruct (build_outcome l wl tl Htl Hl) as (meta & data & wl' & Hb & Hlast & Hdata & Hwl & _).
  destruct (install_copy config m i t0 tl l data wf Hset Hi Hdata Hl) as (w1 & t' & Hins & Hsame & Ht').
  exists meta, data, wl'. eexists _, t'. unfold storage_install_snapshot, tryM, bind. rewrite Hins, Hlast.
  do 3 (split; [done|]). split_and!; [done|done|by intros n x s; apply same_tree_sm|done].
Qed.

(** C31: Replacing the tail of the log: after the entries from index [i] on are
    deleted and consecutive entries from [i] are appended, reading from any index up to
    [i] gives the entries before [i] that were there, followed by the new ones; the last
    log id is that of the last new entry, and the purge mark is not changed. *)
Theorem log_replace ls (l : LogId) es a :
  contiguous (index l) es → (index l + N.of_nat (length es) < u64_modulus)%N → (a ≤ index l)%N →
  ∃ ls',
    runs (node_log (T:=T) config)
      (let! _ := delete_conflict_logs_since (Membership:=Membership) config l in
       let! _ := append_to_log config es in
       let! got := try_get_log_entries config (Included a, Unbounded) in
       let! st := get_log_state (Membership:=Membership) config in
       ret (got, st)) ls
      (Ok ((map_range (l_logs ls) (Included a, Excluded (index l))).*2 ++ es, log_state ls')) ls' ∧
    purged ls' = purged ls ∧
    (∀ e, list.last es = Some e → ls_last_log_id (log_state ls') = Some (log_id e)).
Proof.
  intros Hc Hlen Ha. assert (index l < u64_modulus)%N as Hl by lia. assert (a < u64_modulus)%N as Hau by lia.
  exists (mkLogSpec (foldl log_put (map_remove (l_logs ls) (Included (index l), Unbounded)) es) (l_meta ls)).
  split_and!; [|done|by intros e; apply last_replace].
  eapply runs_bind; [refine (runs_log_remove config _ _ _ ls _); by split|].
  eapply runs_bind; [refine (runs_append_to_log config _ _ _); eapply contiguous_bound; [done|lia]|].
  eapply runs_bind; [refine (runs_try_get config _ _ _); by split|].
  eapply runs_bind; [exact (runs_get_log_state config _)|]. simpl. rewrite map_range_replace by done.
  rewrite fmap_app, index_from_snd. apply runs_ret.
Qed.

(** Purging the log up to a log id: the entries up to its index are gone, all
    others can still be read, the purge mark is the given id, and the last log id is
    unchanged unless every entry was purged, when it is the given id. *)
Theorem log_purge ls (l : LogId) :
  (index l < u64_modulus)%N →
  ∃ ls',
    runs (node_log (T:=T) config)
      (let! _ := purge_logs_upto (Membership:=Membership) config l in
       let! got := try_get_log_entries config (Unbounded, Unbounded) in
       let! st := get_log_state (Membership:=Membership) config in
       ret (got, st)) ls
      (Ok ((map_range (l_logs ls) (Excluded (index l), Unbounded)).*2,
           mkLogState (Some l)
             match log_last_entry ls with
             | Some (k, e) => if (index l <? k)%N then Some (log_id e) else Some l
             | None => Some l
             end)) ls' ∧
    (∀ k, l_logs ls' !! k = if (k <=? index l)%N then None else l_logs ls !! k).
Proof.
  intros Hl. exists (mkLogSpec (map_remove (l_logs ls) (Unbounded, Included (index l))) (l_meta (set_purged l ls))).
  split.
  - eapply runs_bind; [eapply runs_bind; [exact (runs_set_last_purged config _ _ l ls)|refine (runs_log_remove config _ _ _ _ _); by split]|].
    eapply runs_bind; [by refine (runs_try_get config _ _ _)|]. eapply runs_bind; [exact (runs_get_log_state config _)|]. simpl.
    unfold log_state, log_last_entry, purged. simpl. rewrite lookup_insert_eq, !map_range_purge, last_after.
    destruct (list.last _) as [[k e]|]; [destruct (_ <? k)%N|]; apply runs_ret.
  - intros k. simpl. unfold map_remove. rewrite map_lookup_filter. unfold key_in. simpl.
    destruct (l_logs ls !! k); simpl; [|by destruct (_ <=? _)%N]. by destruct (k <=? index l)%N; case_guard.
Qed.

(** The modes of opening the raft state: an existing node is opened under its
    recorded id, never under the configured one; creating over an existing node and
    opening a missing one are refused with their errors and change nothing; otherwise
    a node with the configured id is recorded.  Asking for neither panics. *)
Lemma open_create_modes m open create :
  id_ok m →
  runs (node_state (T:=T) config) (raft_state_open_create config open create) m
    match open, create, node_id_of m with
    | Some _, _, Some id => Ok (id, true)
    | None, Some _, Some id => Err (MetaStoreAlreadyExists id)
    | Some _, None, None => Err MetaStoreNotFound
    | _, Some _, None => Ok (config_id config, false)
    | None, None, _ => Panic
    end
    match node_id_of m, create with
    | None, Some _ => <[RSK_Id:=RSV_NodeId (config_id config)]> m
    | _, _ => m
    end.
Proof.
  intros Hid. pose proof (runs_state_open config open create m Hid) as Hrun.
  unfold state_opened, spec_state_open in Hrun. by destruct (node_id_of m), open, create.
Qed.

(** Creating a store: on a database without a node, [open_create] records the
    configured id, and the new state machine, in use at once, is empty but for its
    initialisation record.  The node is then ready for installations. *)
Lemma create_node m open w :
  state_is config m (tree w) → m !! RSK_Id = None → m !! RSK_StateMachineId = None →
  (∀ j, tree w !! sm_tree_name config j = None) →
  ∃ w1 t,
    open_create (Membership:=Membership) config open (Some tt) w = (Ok (config_id config, false), w1) ∧
    settled config (<[RSK_Id:=RSV_NodeId (config_id config)]> m) 0 t (tree w1) ∧
    tree_name (state_machine (env w1)) = sm_tree_name config 0 ∧
    (∀ k, is_Some (tree_get t k) ↔ k = init_key (Membership:=Membership)).
Proof.
  intros Hs Hid Hsm Hno. pose proof (triple_create config m open Hid Hsm w (conj Hs Hno)) as Hw.
  destruct (open_create config open (Some tt) w) as [[o|e|] w1]; [|by destruct (no_faulty Hw)..].
  destruct Hw as (-> & (t & (b & _ & Ht) & Hset) & Hsm'). exists w1, t. rewrite Hsm'. split_and!; [done|done|done|].
  intros k. rewrite Ht, tree_get_insert, tree_get_empty. case_decide as Hk; [by split|].
  split; [by intros [v ?]|by intros ->].
Qed.

(** C32: [apply_to_state_machine] applies the entries one after the other as the
    specification does and returns their responses in order; the node then reports
    the last of them as its last applied log. *)
Theorem apply_batch sm es s :
  Forall entry_ok es → meta_ok s →
  ∃ s',
    runs (node_sm (T:=T) sm)
      (let! rs := apply_to_state_machine es in
       let! st := last_applied_state in
       ret (rs, st)) s
      (Ok ((spec_apply_all sm s es).1,
           (match list.last es with Some e => Some (log_id e) | None => spec_last_applied s end, spec_membership s')))
      s' ∧ s' = (spec_apply_all sm s es).2.
Proof.
  intros Hes Hs. eexists. split; [|done]. destruct (spec_apply_all_meta sm s es Hs) as [Hm Hl].
  eapply runs_bind; [by apply runs_apply_all|]. eapply runs_bind; [by apply runs_last_applied_state|].
  rewrite Hl. apply runs_ret.
Qed.

(** After a snapshot is installed, nobody is notified of changes any more: whatever
    entries are applied to the state machine in use, no event is sent, even if the
    state machine that was replaced had a subscriber. *)
Theorem install_drops_subscriber m i t0 kvs data w w1 es s :
  settled config m i t0 (tree w) → (i + 1 < u64_modulus)%N → snapshot_of_json data = Ok (pair_list <$> kvs) →
  install_snapshot (Membership:=Membership) config data w = (Ok tt, w1) →
  node_sm (state_machine (env w1)) w1 s → Forall entry_ok es →
  ∃ rs w2, apply_to_state_machine es w1 = (Ok rs, w2) ∧ events (n_env (env w2)) = events (n_env (env w1)).
Proof.
  intros Hset Hi Hdata Hins Hs Hes. pose proof (install_outcome config m i t0 kvs data w Hi Hdata Hset) as Hout.
  rewrite Hins in Hout. destruct Hout as (t & _ & _ & _ & Hsm).
  destruct (runs_apply_all (T:=T) _ es s Hes w1 Hs) as (w2 & Hrun & Hw2). eexists _, w2. split; [exact Hrun|].
  destruct Hs as [_ Hs], Hw2 as [_ Hw2]. apply r_events in Hs, Hw2. simpl in Hs, Hw2.
  by rewrite Hw2, spec_apply_all_events, Hs by by rewrite Hsm.
Qed.

(** The storage interface reports a failed installation as done: with an
    unfinished installation on record, [RaftStorage::install_snapshot] answers that
    the snapshot's last log is applied, while the state machine in use and all trees
    are as before. *)
Theorem install_error_swallowed m a b meta data w :
  state_is config m (tree w) → is_Some (tree w !! state_tree config) → rec_ids m = Some (a, b) → a ≠ b →
  ∃ w1,
    storage_install_snapshot (Membership:=Membership) config meta data w =
      (Ok (mkStateMachineChanges (last_log_id meta) true), w1) ∧
    tree w1 = tree w ∧ state_machine (env w1) = state_machine (env w).
Proof.
  intros Hs Ht Hids Hne. destruct (read_ids_exact config m (a, b) w Hs Ht Hids) as [n Hn].
  eexists. unfold storage_install_snapshot, install_snapshot, tryM, bind. rewrite Hn.
  rewrite (proj2 (N.eqb_neq a b) Hne). simpl. split; [done|]. by split.
Qed.
End quiet.

(** ** Examples on the concrete store *)
Abbreviation log5 := (mkLogId 1 5).
Abbreviation node_records := [(RSK_Id, RSV_NodeId 3)].

Section examples.
#[local] Existing Instances quiet_env quiet_no_faults demo_clock.
#[local] Existing Instances mem_serde mem_raft_serde mem_serde_laws mem_raft_serde_laws mem_db mem_db_laws.

(** A node that has applied up to index 5 sends its state machine to one that is at 2. *)
Lemma snapshot_replicates_example :
  ∃ meta data wf' t',
    (storage_build_snapshot (Membership:=list N) (demo_node log5 node_records)).1 = Ok (meta, data) ∧
    storage_install_snapshot (Membership:=list N) demo_config meta data (demo_node (mkLogId 1 2) node_records) =
      (Ok (mkStateMachineChanges log5 true), wf') ∧
    tree wf' !! tree_name (state_machine (env wf')) = Some t' ∧
    (∀ k, tree_get t' k = tree_get (demo_sm_tree log5) k).
Proof.
  destruct (snapshot_replicates (Membership:=list N) demo_config (demo_node log5 node_records)
    (demo_node (mkLogId 1 2) node_records) (demo_sm_tree log5) log5 demo_state 0 (demo_sm_tree (mkLogId 1 2))
    (demo_node_sm _ _) (demo_sm_started log5) (demo_settled _) eq_refl)
    as (meta & data & wl' & wf' & t' & Hb & _ & Hi & Ht & Hsame & _).
  exists meta, data, wf', t'. rewrite Hb. by split_and!.
Defined.

Definition demo_log : log_spec (list N) :=
  mkLogSpec {[3%N := demo_entry 3; 4%N := demo_entry 4; 5%N := mkEntry log5 Blank]} ∅.
Lemma log_replace_example :
  ∃ ls' st, runs (node_log (T:=mem_tree) demo_config)
    (let! _ := delete_conflict_logs_since (Membership:=list N) demo_config log5 in
     let! _ := append_to_log demo_config [demo_entry 5; demo_entry 6] in
     let! got := try_get_log_entries demo_config (Included 3%N, Unbounded) in
     let! st := get_log_state (Membership:=list N) demo_config in
     ret (got, st)) demo_log
    (Ok ([demo_entry 3; demo_entry 4; demo_entry 5; demo_entry 6], st)) ls' ∧
    ls_last_log_id st = Some (mkLogId 1 6).
Proof.
  destruct (log_replace (T:=mem_tree) demo_config demo_log log5 [demo_entry 5; demo_entry 6] 3)
    as (ls' & Hrun & Hp & Hlast); [by repeat constructor|done|done|].
  exists ls', (log_state ls'). split; [exact Hrun|]. exact (Hlast (demo_entry 6) eq_refl).
Defined.
Lemma log_purge_example :
  ∃ ls', runs (node_log (T:=mem_tree) demo_config)
    (let! _ := purge_logs_upto (Membership:=list N) demo_config (mkLogId 1 4) in
     let! got := try_get_log_entries demo_config (Unbounded, Unbounded) in
     let! st := get_log_state (Membership:=list N) demo_config in
     ret (got, st)) demo_log
    (Ok ([mkEntry log5 Blank], mkLogState (Some (mkLogId 1 4)) (Some log5))) ls'.
Proof.
  destruct (log_purge (T:=mem_tree) demo_config demo_log (mkLogId 1 4)) as (ls' & Hrun & _); [done|].
  exists ls'. exact Hrun.
Defined.

Lemma open_create_modes_example :
  runs (node_state (T:=mem_tree) demo_config) (raft_state_open_create demo_config None (Some tt))
    {[RSK_Id := RSV_NodeId 7]} (Err (MetaStoreAlreadyExists 7)) {[RSK_Id := RSV_NodeId 7]}.
Proof. exact (open_create_modes demo_config {[RSK_Id := RSV_NodeId 7]} None (Some tt) I). Defined.
Lemma create_node_example :
  ∃ w1, open_create (Membership:=list N) demo_config None (Some tt) blank_node = (Ok (3%N, false), w1) ∧
        tree_name (state_machine (env w1)) = "test-state_machine/0".
Proof.
  destruct (create_node (Membership:=list N) demo_config ∅ None blank_node) as (w1 & t & Hrun & _ & Hname & _);
    [apply repr_empty|done|done|done|]. exists w1. by split.
Defined.

Lemma apply_batch_example :
  ∃ rs mem s', runs (node_sm (T:=mem_tree) demo_sm)
    (let! rs := apply_to_state_machine [demo_entry 5; demo_entry 6] in
     let! st := last_applied_state in
     ret (rs, st)) empty_spec (Ok (rs, (Some (mkLogId 1 6), mem))) s'.
Proof.
  destruct (apply_batch (T:=mem_tree) demo_sm [demo_entry 5; demo_entry 6] empty_spec) as (s' & Hrun & _);
    [by repeat constructor|done|]. by eexists _, _, s'.
Defined.

(** The raft state of a node on which an installation was interrupted. *)
Abbreviation unfinished := [(RSK_Id, RSV_NodeId 3); (RSK_StateMachineId, RSV_StateMachineId (0, 1)%N)].
Lemma install_error_swallowed_example :
  ∃ w1,
    storage_install_snapshot (Membership:=list N) demo_config (mkSnapshotMeta (mkLogId 9 100) "9-100-1") "data"
      (demo_node log5 unfinished) = (Ok (mkStateMachineChanges (mkLogId 9 100) true), w1) ∧
    tree w1 = tree (demo_node log5 unfinished).
Proof.
  destruct (install_error_swallowed (Membership:=list N) demo_config (list_to_map unfinished) 0 1
    (mkSnapshotMeta (mkLogId 9 100) "9-100-1") "data" (demo_node log5 unfinished)) as (w1 & Hrun & Ht & _);
    [apply demo_node_state|by eexists|done|done|]. by exists w1.
Defined.

(** The node at index 2 installs the state machine of the node at index 5: no event
    about the write of [foo] is sent, although the replaced state machine had a
    subscriber. *)
Lemma install_drops_subscriber_example :
  ∃ data w1 rs w2,
    install_snapshot (Membership:=list N) demo_config data (demo_node (mkLogId 1 2) node_records) = (Ok tt, w1) ∧
    apply_to_state_machine [demo_entry 6] w1 = (Ok rs, w2) ∧ events (n_env (env w2)) = events (n_env (env w1)).
Proof.
  destruct (snapshot_json (Membership:=list N) (pair_list <$> tree_iter (demo_sm_tree log5))) as (data & _ & Hdata).
  destruct (install_copy (Membership:=list N) demo_config demo_state 0 (demo_sm_tree (mkLogId 1 2)) (demo_sm_tree log5) log5
    data (demo_node (mkLogId 1 2) node_records) (demo_settled _) eq_refl Hdata (demo_sm_started log5))
    as (w1 & t & Hins & Hsame & Ht).
  exists data, w1.
  destruct (install_drops_subscriber (Membership:=list N) demo_config demo_state 0 (demo_sm_tree (mkLogId 1 2))
    (tree_iter (demo_sm_tree log5)) data (demo_node (mkLogId 1 2) node_records) w1 [demo_entry 6]
    (demo_spec log5 (n_env (env w1)))) as (rs & w2 & Hrun & Hev); [apply demo_settled|done|done|done| |by repeat constructor|].
  - split; [done|]. rewrite Ht. simpl. eapply same_tree_sm; [done|]. apply (demo_repr log5 0).
  - exists rs, w2. by split_and!.
Defined.
End examples.

(** ** Examples with failing storage *)
Definition flaky_env : SledEnv := {|
  txn_fault _ := None; io_fault n := if decide (n = 4) then Some "disk full" else None;
  add_context e c := c +:+ ": " +:+ e; utf8_error_text _ := "invalid utf-8 sequence"; str_debug s := s |}.

Section flaky.
#[local] Existing Instances flaky_env demo_clock.
#[local] Existing Instances mem_serde mem_raft_serde mem_serde_laws mem_raft_serde_laws mem_db mem_db_laws.

Lemma install_crash_safe_example :
  ∃ data,
    let w1 := (install_snapshot (Membership:=list N) demo_config data (demo_node (mkLogId 1 2) node_records)).2 in
    ∃ t, active demo_config demo_state t (tree w1) ∧
      (t = demo_sm_tree (mkLogId 1 2) ∨ installed (Membership:=list N) (tree_iter (demo_sm_tree log5)) t).
Proof.
  destruct (snapshot_json (Membership:=list N) (pair_list <$> tree_iter (demo_sm_tree log5))) as (data & _ & Hdata).
  exists data. pose proof (install_crash_safe (Membership:=list N) demo_config demo_state 0 3 (demo_sm_tree (mkLogId 1 2))
    (tree_iter (demo_sm_tree log5)) data None (demo_node (mkLogId 1 2) node_records) (demo_settled _) eq_refl eq_refl Hdata
    (started_initialized _ _ (demo_sm_started _))) as Hsafe.
  destruct (install_snapshot _ _ _) as [r w1].
  destruct (open_create _ _ _ w1) as [r2 w2]. destruct Hsafe as (t & Hr & Hact & _).
  - intros t Hin%(installed_same _ log5); [|apply demo_sm_started].
    pose proof (same_tree_started _ _ _ Hin (demo_sm_started log5)) as Ht.
    split; [by eapply started_initialized|by eapply started_readable].
  - exists t. split; [done|]. destruct r as [u| |]; [by destruct Hr; right|by destruct Hr..].
Defined.

Lemma hard_state_durable_example :
  let '(r, w1) := save_hard_state (Membership:=list N) demo_config (mkHardState 4 (Some 1%N)) (demo_node log5 node_records) in
  (r = Ok tt ∨ Faulty) ∧
  match (storage_read_hard_state (Membership:=list N) demo_config w1).1 with
  | Ok v => v = Some (mkHardState 4 (Some 1%N)) ∨ (r ≠ Ok tt ∧ v = None)
  | _ => Faulty
  end.
Proof.
  exact (hard_state_durable demo_config demo_state None (mkHardState 4 (Some 1%N)) (demo_node log5 node_records)
    (demo_node_state log5 node_records) eq_refl).
Defined.
End flaky.
