(* ===== verification/RangeMap.v ===== *)
(** * Maps from ranges (src/common/base/src/rangemap).

    A [RangeMap] holds values under a range and a key, in a [BTreeMap] whose keys are
    ordered by the end of the range first, so that the ranges around a point are found
    by one range query and a filter. *)
From S2P Require Import Prelude ByteOrder.

(** ** Ordered types: Rust's [Ord] *)
Class Ord (A : Type) := ord_cmp : A → A → comparison.
Class OrdLaws (A : Type) `{Ord A} := {
  ord_cmp_eq a b : ord_cmp a b = Eq ↔ a = b;
  ord_cmp_flip a b : ord_cmp b a = CompOpp (ord_cmp a b);
  ord_cmp_trans a b c : ord_cmp a b = Lt → ord_cmp b c = Lt → ord_cmp a c = Lt;
}.
Definition ord_le `{Ord A} (a b : A) : bool := match ord_cmp a b with Gt => false | _ => true end.

#[export] Instance string_ord : Ord string := String.compare.
#[export] Instance string_ord_laws : OrdLaws string.
Proof.
  split.
  - intros a b. unfold ord_cmp, string_ord. destruct (bytes_compare_spec a b) as [->|Hlt|Hlt]; [done|..].
    + split; [done|]. intros ->. by apply bytes_lt_irrefl in Hlt.
    + split; [done|]. intros ->. by apply bytes_lt_irrefl in Hlt.
  - intros a b. apply String.compare_antisym.
  - intros a b c ?%bytes_lt_compare ?%bytes_lt_compare. apply bytes_lt_compare. by etrans.
Qed.
#[export] Instance i64_ord : Ord Z := Z.compare.
#[export] Instance i64_ord_laws : OrdLaws Z.
Proof.
  split.
  - apply Z.compare_eq_iff.
  - intros a b. apply Z.compare_antisym.
  - intros a b c. unfold ord_cmp, i64_ord. rewrite !Z.compare_lt_iff. lia.
Qed.

(** ** [BTreeMap]: an association list in key order *)
Section btree.
Context {K V : Type} `{OrdLaws K}.
Implicit Types (k : K) (v : V) (m : list (K * V)).

(** [insert] replaces the value of an equal key. *)
Fixpoint bt_insert k v m : list (K * V) :=
  match m with
  | [] => [(k, v)]
  | (k', v') :: m' =>
      match ord_cmp k k' with
      | Lt => (k, v) :: m
      | Eq => (k', v) :: m'
      | Gt => (k', v') :: bt_insert k v m'
      end
  end.
Definition bt_remove k m : list (K * V) :=
  List.filter (λ kv, match ord_cmp k kv.1 with Eq => false | _ => true end) m.
(** [range((Bound::Included(k), Bound::Unbounded))]. *)
Definition bt_range_from k m : list (K * V) := List.filter (λ kv, ord_le k kv.1) m.

Definition bt_sorted m : Prop := StronglySorted (λ a b, ord_cmp a.1 b.1 = Lt) m.

Lemma ord_cmp_refl k : ord_cmp k k = Eq.
Proof. by apply ord_cmp_eq. Qed.
Lemma ord_cmp_gt k k' : ord_cmp k k' = Gt → ord_cmp k' k = Lt.
Proof. intros Hk. by rewrite ord_cmp_flip, Hk. Qed.

Lemma bt_insert_keys k v m x y : (x, y) ∈ bt_insert k v m → x = k ∨ (x, y) ∈ m.
Proof.
  induction m as [|[k' v'] m IH]; simpl; [intros [= -> ->]%list_elem_of_singleton; by left|].
  destruct (ord_cmp k k') eqn:Hc; rewrite !elem_of_cons.
  - apply ord_cmp_eq in Hc as ->. intros [[= -> ->]|?]; auto.
  - intros [[= -> ->]|?]; auto.
  - intros [?|?%IH]; tauto.
Qed.
Lemma bt_insert_sorted k v m : bt_sorted m → bt_sorted (bt_insert k v m).
Proof.
  unfold bt_sorted. induction 1 as [|[k' v'] m Hm IH Hall]; simpl; [by repeat constructor|].
  destruct (ord_cmp k k') eqn:Hc.
  - constructor; [done|]. by eapply Forall_impl.
  - constructor; [by constructor|]. constructor; [done|]. eapply Forall_impl; [done|]. simpl. intros x ?.
    by eapply ord_cmp_trans.
  - constructor; [done|]. apply Forall_forall. intros [x y] [->|Hin]%bt_insert_keys; [by apply ord_cmp_gt|].
    rewrite Forall_forall in Hall. by apply (Hall (x, y)).
Qed.
Lemma elem_of_bt_insert k v m x y :
  bt_sorted m → (x, y) ∈ bt_insert k v m ↔ (x = k ∧ y = v) ∨ (x ≠ k ∧ (x, y) ∈ m).
Proof.
  unfold bt_sorted. induction 1 as [|[k' v'] m Hm IH Hall]; simpl.
  { rewrite list_elem_of_singleton. split; [intros [= -> ->]; by left|]. by intros [[-> ->]|[_ ?%elem_of_nil]]. }
  assert (∀ x y, (x, y) ∈ m → ord_cmp k' x = Lt) as Hlt.
  { intros x0 y0 Hin. rewrite Forall_forall in Hall. by apply (Hall (x0, y0)). }
  assert (∀ y, (k', y) ∉ m) as Hk' by (intros y' Hin%Hlt; rewrite ord_cmp_refl in Hin; done).
  destruct (ord_cmp k k') eqn:Hc; rewrite !elem_of_cons.
  - apply ord_cmp_eq in Hc as ->. split.
    + intros [[= -> ->]|Hin]; [by left|]. right. split; [|by right]. intros ->. by apply (Hk' y).
    + intros [[-> ->]|[Hne [[= -> ->]|Hin]]]; [by left|done|by right].
  - assert (∀ y, (k, y) ∉ (k', v') :: m) as Hk.
    { intros y' [[= -> ->]|Hin%Hlt]%elem_of_cons; [by rewrite ord_cmp_refl in Hc|].
      pose proof (ord_cmp_trans _ _ _ Hc Hin) as Hkk. by rewrite ord_cmp_refl in Hkk. }
    split.
    + intros [[= -> ->]|Hin]; [by left|]. right. split; [|done]. intros ->.
      apply (Hk y). by apply elem_of_cons.
    + intros [[-> ->]|[_ Hin]]; [by left|by right].
  - rewrite IH. split.
    + intros [[= -> ->]|[?|[? ?]]]; [|by auto|by auto]. right. split; [|by left]. intros <-. by rewrite ord_cmp_refl in Hc.
    + intros [?|[? [?|?]]]; auto.
Qed.
Lemma elem_of_bt_remove k m x y : (x, y) ∈ bt_remove k m ↔ x ≠ k ∧ (x, y) ∈ m.
Proof.
  unfold bt_remove. rewrite !list_elem_of_In, List.filter_In. simpl.
  assert (match ord_cmp k x with Eq => false | _ => true end = true ↔ x ≠ k) as ->; [|tauto].
  pose proof (ord_cmp_eq k x) as [H1 H2]. destruct (ord_cmp k x).
  - rewrite (H1 eq_refl). by split.
  - split; [|done]. intros _ ->. by discriminate H2.
  - split; [|done]. intros _ ->. by discriminate H2.
Qed.
Lemma bt_remove_sorted k m : bt_sorted m → bt_sorted (bt_remove k m).
Proof. apply filter_sorted. Qed.
Lemma bt_sorted_nodup m : bt_sorted m → NoDup m.
Proof.
  induction 1 as [|[k v] m _ IH Hall]; constructor; [|done]. intros Hin. rewrite Forall_forall in Hall.
  specialize (Hall _ Hin). simpl in Hall. by rewrite ord_cmp_refl in Hall.
Qed.
End btree.

(** ** Range keys: range_map_key.rs *)
Record RangeMapKey (T K : Type) := mkRangeMapKey { r_start : T; r_end : T; r_key : K }.
Arguments mkRangeMapKey {T K} r_start r_end r_key.
Arguments r_start {T K} r.
Arguments r_end {T K} r.
Arguments r_key {T K} r.

Section range_map.
Context {T K V : Type} `{OrdLaws T, OrdLaws K} (default_key : K).
Implicit Types (p : T) (k : K) (m : list (RangeMapKey T K * V)).

Definition RangeMapKey_cmp (self other : RangeMapKey T K) : comparison :=
  match ord_cmp (r_end self) (r_end other) with
  | Eq =>
      match ord_cmp (r_start self) (r_start other) with
      | Eq => ord_cmp (r_key self) (r_key other)
      | ret => ret
      end
  | ret => ret
  end.
#[export] Instance RangeMapKey_ord : Ord (RangeMapKey T K) := RangeMapKey_cmp.
#[export] Instance RangeMapKey_ord_laws : OrdLaws (RangeMapKey T K).
Proof.
  split.
  - intros [s e k] [s' e' k']. unfold ord_cmp, RangeMapKey_ord, RangeMapKey_cmp. simpl.
    destruct (ord_cmp e e') eqn:He; [|by split; intros; simplify_eq; rewrite ord_cmp_refl in He..].
    destruct (ord_cmp s s') eqn:Hs; [|by split; intros; simplify_eq; rewrite ord_cmp_refl in Hs..].
    apply ord_cmp_eq in He as ->, Hs as ->. rewrite ord_cmp_eq. naive_solver.
  - intros a b. unfold ord_cmp, RangeMapKey_ord, RangeMapKey_cmp.
    rewrite (ord_cmp_flip (r_end a)), (ord_cmp_flip (r_start a)), (ord_cmp_flip (r_key a)).
    by destruct (ord_cmp (r_end a) _), (ord_cmp (r_start a) _), (ord_cmp (r_key a) _).
  - intros [s1 e1 k1] [s2 e2 k2] [s3 e3 k3]. unfold ord_cmp, RangeMapKey_ord, RangeMapKey_cmp. simpl.
    destruct (ord_cmp e1 e2) eqn:H12; [apply ord_cmp_eq in H12 as ->| |done].
    + destruct (ord_cmp e2 e3) eqn:H23; [|done|done].
      destruct (ord_cmp s1 s2) eqn:S12; [apply ord_cmp_eq in S12 as ->| |done].
      * destruct (ord_cmp s2 s3) eqn:S23; [|done|done]. apply ord_cmp_trans.
      * destruct (ord_cmp s2 s3) eqn:S23; [apply ord_cmp_eq in S23 as ->; by rewrite S12| |done].
        by rewrite (ord_cmp_trans _ _ _ S12 S23).
    + destruct (ord_cmp e2 e3) eqn:H23; [apply ord_cmp_eq in H23 as ->; by rewrite H12| |done].
      by rewrite (ord_cmp_trans _ _ _ H12 H23).
Qed.

(** ** The map: range_map.rs *)

(** [assert!(range.start <= range.end)]. *)
Definition rm_insert {E} (s e : T) k (v : V) m : res E (list (RangeMapKey T K * V)) :=
  if ord_le s e then Ok (bt_insert (mkRangeMapKey s e k) v m) else Panic.
Definition get_by_point m p : list (RangeMapKey T K * V) :=
  List.filter (λ e, ord_le (r_start e.1) p) (bt_range_from (mkRangeMapKey p p default_key) m).
Definition rm_remove (s e : T) k m : list (RangeMapKey T K * V) := bt_remove (mkRangeMapKey s e k) m.
Definition remove_by_key (key : RangeMapKey T K) m : list (RangeMapKey T K * V) := bt_remove key m.

(** A range [start..end] is half open, but an empty one holds its point. *)
Definition covers (r : RangeMapKey T K) p : Prop :=
  ord_le (r_start r) p = true ∧ (ord_cmp p (r_end r) = Lt ∨ (r_start r = p ∧ r_end r = p ∧ ord_le default_key (r_key r) = true)).

Lemma elem_of_get_by_point m p r v : (r, v) ∈ get_by_point m p ↔ (r, v) ∈ m ∧ covers r p.
Proof.
  unfold get_by_point, bt_range_from, covers. rewrite !list_elem_of_In, !List.filter_In. simpl.
  assert (ord_le (r_start r) p = true →
    (ord_le (mkRangeMapKey p p default_key) r = true ↔
     ord_cmp p (r_end r) = Lt ∨ (r_start r = p ∧ r_end r = p ∧ ord_le default_key (r_key r) = true))) as Hiff; [|tauto].
  intros Hs. unfold ord_le at 1. unfold ord_cmp at 1, RangeMapKey_ord, RangeMapKey_cmp. simpl.
  destruct (ord_cmp p (r_end r)) eqn:He; [|tauto|].
  - apply ord_cmp_eq in He. rewrite <-He. unfold ord_le in Hs. rewrite ord_cmp_flip in Hs.
    pose proof (ord_cmp_eq p (r_start r)) as Heq. unfold ord_le.
    destruct (ord_cmp p (r_start r)) eqn:Hps; simpl in Hs; try done.
    + rewrite <-(proj1 Heq eq_refl). destruct (ord_cmp default_key (r_key r)); intuition congruence.
    + split; [done|]. intros [?|(Hsp & _)]; [done|]. by discriminate (proj2 Heq (eq_sym Hsp)).
  - split; [done|]. intros [?|(_ & Hep & _)]; [done|]. rewrite Hep, ord_cmp_refl in He. done.
Qed.
Lemma get_by_point_sorted m p : bt_sorted m → bt_sorted (get_by_point m p).
Proof. intros Hm. by apply filter_sorted, filter_sorted. Qed.
End range_map.
