(* ===== verification/WatcherSpec.v ===== *)
(** * What the watch service promises, and that the manager keeps it.

    The abstract state is the set of registered watchers by id.  A step relation says
    what an event does: registering adds a watcher, a change is sent once to every
    watcher that wants it, and a watcher whose client is gone is forgotten. *)
From S2P Require Import Prelude ByteOrder MetaTypes StateMachine RangeMap Watcher.

(** ** The specification *)
Record watcher := mkWatcher { w_req : WatchRequest; w_tx : WatcherStreamSender }.

(** The keys a request asks for: one key, or all from [key] to [key_end], inclusive. *)
Definition watches (r : WatchRequest) (k : string) : bool :=
  match wr_key_end r with
  | Some e => ord_le (wr_key r) k && ord_le k e
  | None => bool_decide (k = wr_key r)
  end.
Definition passes (f : FilterType) (kv : KvChanged) : bool :=
  match f with FT_All => true | FT_Update => negb (is_none (ev_current kv)) | FT_Delete => is_none (ev_current kv) end.
Definition wants (r : WatchRequest) (kv : KvChanged) : bool := watches r (ev_key kv) && passes (filter_type r) kv.
Definition request_ok (r : WatchRequest) : bool :=
  match wr_key_end r with Some e => ord_le (wr_key r) e | None => true end.

Record watch_state := mkWatchState { ws_watchers : gmap Z watcher; ws_last_id : Z; ws_sends : nat }.

Section spec.
Context `{Receivers}.

(** Sending to watchers one after the other: the messages that arrive, and the ids of
    those whose client is gone. *)
Fixpoint spec_send (ws : gmap Z watcher) (m : WatchResponse) (n : nat) (ids : list Z)
    : list (WatcherStreamSender * WatchResponse) :=
  match ids with
  | [] => []
  | i :: ids =>
      match ws !! i with
      | Some w => if gone n (w_tx w) then [] else [(w_tx w, m)]
      | None => []
      end ++ spec_send ws m (S n) ids
  end.
Fixpoint spec_failed (ws : gmap Z watcher) (n : nat) (ids : list Z) : list Z :=
  match ids with
  | [] => []
  | i :: ids =>
      match ws !! i with Some w => if gone n (w_tx w) then [i] else [] | None => [] end ++ spec_failed ws (S n) ids
  end.

Inductive watch_step : watch_state → WatcherEvent → list (WatcherStreamSender * WatchResponse) → watch_state → Prop :=
  | step_create ws id n req tx :
      request_ok req = true →
      watch_step (mkWatchState ws id n) (CreateWatcherEvent req tx) []
        (mkWatchState (<[(id + 1)%Z:=mkWatcher req tx]> ws) (id + 1) n)
  | step_refuse s req tx :
      request_ok req = false → watch_step s (CreateWatcherEvent req tx) [] s
  | step_notify ws id n kv ids :
      NoDup ids → (∀ i, i ∈ ids ↔ ∃ w, ws !! i = Some w ∧ wants (w_req w) kv = true) →
      watch_step (mkWatchState ws id n) (StateMachineKvDataEvent kv) (spec_send ws (watch_response kv) n ids)
        (mkWatchState (foldl (λ ws i, base.delete i ws) ws (spec_failed ws n ids)) id (n + length ids)).

Inductive watch_steps : watch_state → list WatcherEvent → list (WatcherStreamSender * WatchResponse) → watch_state → Prop :=
  | steps_nil s : watch_steps s [] [] s
  | steps_cons s e out s1 es outs s2 :
      watch_step s e out s1 → watch_steps s1 es outs s2 → watch_steps s (e :: es) (out ++ outs) s2.
End spec.

(** ** Ranges *)
Lemma cmp_past_end k e : ord_cmp k (e +:+ String (Ascii.ascii_of_N 0) "") = Lt ↔ ord_le k e = true.
Proof.
  unfold ord_le, ord_cmp, string_ord. revert k. induction e as [|d e IH]; intros k.
  - destruct k as [|c k]; [done|]. simpl. unfold Ascii.compare. change (Ascii.N_of_ascii Ascii.zero) with 0%N.
    destruct (Ascii.N_of_ascii c ?= 0)%N eqn:Hc; [split; by destruct k|by apply N.compare_lt_iff, N.nlt_0_r in Hc|by split].
  - rewrite string_app_cons. destruct k as [|c k]; [done|]. simpl.
    destruct (Ascii.compare c d); [apply IH|by split..].
Qed.

Lemma get_range_key_ok r :
  match get_range_key (wr_key r) (wr_key_end r) with
  | Ok (s, e) => request_ok r = true ∧ ord_le s e = true ∧
      ∀ i k, (0 ≤ i)%Z → covers 0%Z (mkRangeMapKey s e i) k ↔ watches r k = true
  | _ => request_ok r = false
  end.
Proof.
  unfold get_range_key, request_ok, watches. destruct (wr_key_end r) as [e|]; simpl.
  - destruct (ord_le (wr_key r) e) eqn:Hle; simpl; [|done]. split_and!; [done| |].
    + unfold ord_le. by rewrite (proj2 (cmp_past_end _ _)).
    + intros i k Hi. unfold covers. simpl. rewrite cmp_past_end, andb_true_iff. split; [|tauto].
      intros [H1 [?|(Hk & He & _)]]; [done|]. split; [done|]. by rewrite <-Hk.
  - split_and!; [done|unfold ord_le; by rewrite ord_cmp_refl|].
    intros i k Hi. unfold covers. simpl. rewrite bool_decide_eq_true. split.
    + intros [H1 [Hlt|(-> & _)]]; [|done]. unfold ord_le in H1. rewrite ord_cmp_flip, Hlt in H1. done.
    + intros ->. split; [unfold ord_le; by rewrite ord_cmp_refl|]. right. split_and!; [done|done|].
      unfold ord_le, ord_cmp, i64_ord. by destruct (Z.compare_spec 0 i); [..|lia].
Qed.

(** ** The relation between the manager and the specification *)
Definition stream_of (i : Z) (w : watcher) (s e : string) : WatcherStream :=
  mkWatcherStream i (filter_type (w_req w)) (w_tx w) s e.

Record watch_rel (c : WatcherManagerCore) (ws : gmap Z watcher) (last : Z) : Prop := {
  rel_sorted : bt_sorted (watcher_range_map c);
  rel_last : current_watcher_id c = last;
  rel_ids i w : ws !! i = Some w → (0 < i ≤ last)%Z;
  rel_elem rk st : (rk, st) ∈ watcher_range_map c ↔
    ∃ w, ws !! r_key rk = Some w ∧ get_range_key (wr_key (w_req w)) (wr_key_end (w_req w)) = Ok (r_start rk, r_end rk) ∧
         st = stream_of (r_key rk) w (r_start rk) (r_end rk);
  rel_ok i w : ws !! i = Some w → request_ok (w_req w) = true;
}.

Lemma rel_empty : watch_rel (mkWatcherManagerCore [] 1) ∅ 1.
Proof.
  split; simpl; [constructor|done|..].
  - by intros i w ?%lookup_empty_Some.
  - intros rk st. rewrite elem_of_nil. split; [done|]. by intros (w & ?%lookup_empty_Some & _).
  - by intros i w ?%lookup_empty_Some.
Qed.

Lemma i64_add_small a : (0 ≤ a)%Z → (a + 1 < 2 ^ 63)%Z → i64_add a 1 = (a + 1)%Z.
Proof. intros. unfold i64_add. rewrite Z.mod_small by lia. lia. Qed.

Section refine.
Context `{Receivers} {E : Type}.

Lemma create_ok c ws last n dl req tx :
  watch_rel c ws last → (0 < last)%Z → (last + 1 < 2 ^ 63)%Z →
  ∃ c' s', create_watcher_stream (E:=E) req tx (mkWatchWorld c n dl) = (Ok tt, mkWatchWorld c' n dl) ∧
    watch_step (mkWatchState ws last n) (CreateWatcherEvent req tx) [] s' ∧
    watch_rel c' (ws_watchers s') (ws_last_id s') ∧ ws_sends s' = n ∧ (last ≤ ws_last_id s' ≤ last + 1)%Z.
Proof.
  intros Hrel Hpos Hmax. pose proof (get_range_key_ok req) as Hreq. unfold create_watcher_stream.
  destruct (get_range_key (wr_key req) (wr_key_end req)) as [[s e]| |] eqn:Hr.
  - destruct Hreq as (Hok & Hle & _). unfold bind, get_core, set_core, lift, rm_insert. simpl. rewrite Hle.
    rewrite (rel_last _ _ _ Hrel), i64_add_small by lia. simpl.
    eexists _, _. split; [done|]. split; [by apply step_create|]. split; [|by simpl; lia]. simpl.
    destruct Hrel as [Hsort Hlast Hids Helem Hoks].
    assert (ws !! (last + 1)%Z = None) as Hnew by (destruct (ws !! _) as [w|] eqn:Hw; [apply Hids in Hw; lia|done]).
    split; simpl.
    + by apply bt_insert_sorted.
    + done.
    + intros i w. rewrite lookup_insert_Some. intros [[<- _]|[_ Hi%Hids]]; lia.
    + intros rk st. rewrite elem_of_bt_insert, Helem by done. split.
      * intros [[-> ->]|(Hne & w & Hw & Hrk & ->)]; simpl; [|].
        -- exists (mkWatcher req tx). by rewrite lookup_insert_eq.
        -- exists w. rewrite lookup_insert_ne; [done|]. intros Heq. by rewrite <-Heq, Hnew in Hw.
      * intros (w & Hw & Hrk & ->). destruct rk as [rs re ri]. simpl in *.
        apply lookup_insert_Some in Hw as [[<- <-]|[Hne Hw]]; simpl in *.
        -- left. rewrite Hr in Hrk. by simplify_eq.
        -- right. split; [by intros [=]; simplify_eq|]. by exists w.
    + intros i w. rewrite lookup_insert_Some. intros [[_ <-]|[_ Hi]]; [done|by eapply Hoks].
  - exists c, (mkWatchState ws last n). split_and!; [done|by apply step_refuse|done|done|simpl; lia..].
  - exists c, (mkWatchState ws last n). split_and!; [done|by apply step_refuse|done|done|simpl; lia..].
Qed.

(** *** Notifications *)
Lemma notify_one_eq kv rk st :
  st_id st = r_key rk →
  notify_one (E:=E) kv (rk, st) =
    if passes (st_filter_type st) kv then
      let! sent := stream_send st (watch_response kv) in
      if (sent : bool) then ret None else ret (Some (mkRangeMapKey (st_key st) (st_key_end st) (r_key rk)))
    else ret None.
Proof.
  intros Hid. unfold notify_one, passes. cbn [fst snd]. rewrite Hid, Z.eqb_refl.
  destruct (st_filter_type st), (ev_current kv); reflexivity.
Qed.

(** The watchers among some entries that the change is sent to. *)
Definition takers (kv : KvChanged) (set : list (RangeMapKey string Z * WatcherStream)) : list Z :=
  (λ x, r_key x.1) <$> List.filter (λ x, passes (st_filter_type x.2) kv) set.

Lemma collect_notify ws kv set c n dl :
  Forall (λ x, ∃ w, ws !! r_key x.1 = Some w ∧ x.2 = stream_of (r_key x.1) w (r_start x.1) (r_end x.1)) set →
  ∃ ks, collectM (notify_one (E:=E) kv) set (mkWatchWorld c n dl) =
          (Ok ks, mkWatchWorld c (n + length (takers kv set))
                    (dl ++ spec_send ws (watch_response kv) n (takers kv set))) ∧
        r_key <$> omap id ks = spec_failed ws n (takers kv set) ∧ (∀ rk, rk ∈ omap id ks → rk ∈ set.*1).
Proof.
  intros Hset. revert n dl. induction Hset as [|[rk st] set (w & Hw & Hst) _ IH]; intros n dl; simpl.
  { exists []. rewrite Nat.add_0_r, app_nil_r. split_and!; [done|done|]. by intros ? ?%elem_of_nil. }
  simpl in *. rewrite notify_one_eq by (by rewrite Hst). unfold takers in *. simpl.
  destruct (passes (st_filter_type st) kv); csimpl.
  - rewrite Hw. unfold bind, stream_send. rewrite Hst. simpl. destruct (gone n (w_tx w)); cbn.
    + destruct (IH (S n) dl) as (ks & Heq & Hfail & Hin). rewrite Heq. exists (Some (mkRangeMapKey (r_start rk) (r_end rk) (r_key rk)) :: ks).
      split_and!; [by rewrite Nat.add_succ_r|csimpl; by rewrite Hfail|]. destruct rk; simpl.
      intros rk' [->|?%Hin]%elem_of_cons; apply elem_of_cons; auto.
    + destruct (IH (S n) (dl ++ [(w_tx w, watch_response kv)])) as (ks & Heq & Hfail & Hin). rewrite Heq. exists (None :: ks).
      split_and!; [by rewrite Nat.add_succ_r, <-app_assoc|done|]. intros rk' Hrk%Hin. by apply elem_of_cons; right.
  - destruct (IH n dl) as (ks & Heq & Hfail & Hin). unfold bind, ret. rewrite Heq. exists (None :: ks).
    split_and!; [done|done|]. intros rk' Hrk%Hin. by apply elem_of_cons; right.
Qed.

Lemma close_all ks m cur n dl :
  forM ks (close_stream (E:=E)) (mkWatchWorld (mkWatcherManagerCore m cur) n dl) =
  (Ok tt, mkWatchWorld (mkWatcherManagerCore (foldl (λ m k, remove_by_key k m) m ks) cur) n dl).
Proof. revert m. induction ks as [|k ks IH]; intros m; simpl; [done|]. by rewrite <-IH. Qed.
Lemma elem_of_remove_all ks (m : list (RangeMapKey string Z * WatcherStream)) rk st :
  (rk, st) ∈ foldl (λ m k, remove_by_key k m) m ks ↔ (rk ∉ ks) ∧ (rk, st) ∈ m.
Proof.
  revert m. induction ks as [|k ks IH]; intros m; simpl; [by rewrite elem_of_nil; tauto|].
  rewrite IH, not_elem_of_cons. unfold remove_by_key. rewrite elem_of_bt_remove. tauto.
Qed.
Lemma remove_all_sorted ks (m : list (RangeMapKey string Z * WatcherStream)) :
  bt_sorted m → bt_sorted (foldl (λ m k, remove_by_key k m) m ks).
Proof. revert m. induction ks as [|k ks IH]; intros m Hm; simpl; [done|]. by apply IH, bt_remove_sorted. Qed.

(** Forgetting watchers in the manager and in the specification. *)
Lemma rel_forget c ws last ks :
  watch_rel c ws last → (∀ rk, rk ∈ ks → rk ∈ (watcher_range_map c).*1) →
  watch_rel (mkWatcherManagerCore (foldl (λ m k, remove_by_key k m) (watcher_range_map c) ks) (current_watcher_id c))
    (foldl (λ ws i, base.delete i ws) ws (r_key <$> ks)) last.
Proof.
  intros [Hsort Hlast Hids Helem Hoks] Hks. split; simpl; [by apply remove_all_sorted|done|..].
  - intros i w. rewrite lookup_deletes. case_decide; [done|]. apply Hids.
  - intros rk st. rewrite elem_of_remove_all, Helem. split.
    + intros (Hrk & w & Hw & Hr & ->). exists w. rewrite lookup_deletes. case_decide as Hin; [|done]. destruct Hrk.
      apply list_elem_of_fmap in Hin as (rk' & Heq & Hin). specialize (Hks _ Hin) as Hm.
      apply list_elem_of_fmap in Hm as ([rk'' st'] & -> & Hm). simpl in *.
      apply Helem in Hm as (w' & Hw' & Hr' & _). rewrite <-Heq, Hw in Hw'. destruct rk, rk''. simplify_eq/=.
      rewrite Hr in Hr'. by simplify_eq.
    + intros (w & Hw & Hr & ->). rewrite lookup_deletes in Hw. case_decide as Hin; [done|]. split; [|by exists w].
      intros Hrk. apply Hin, list_elem_of_fmap. by exists rk.
  - intros i w. rewrite lookup_deletes. case_decide; [done|]. apply Hoks.
Qed.

(** The entries found for a key are the watchers that watch it. *)
Lemma takers_spec c ws last kv :
  watch_rel c ws last →
  let ids := takers kv (get_by_point 0%Z (watcher_range_map c) (ev_key kv)) in
  NoDup ids ∧ ∀ i, i ∈ ids ↔ ∃ w, ws !! i = Some w ∧ wants (w_req w) kv = true.
Proof.
  intros Hrel ids. assert (∀ rk st, (rk, st) ∈ List.filter (λ x, passes (st_filter_type x.2) kv)
    (get_by_point 0%Z (watcher_range_map c) (ev_key kv)) ↔
    (rk, st) ∈ watcher_range_map c ∧ covers 0%Z rk (ev_key kv) ∧ passes (st_filter_type st) kv = true) as Hfilter.
  { intros rk st. rewrite list_elem_of_In, List.filter_In, <-list_elem_of_In, elem_of_get_by_point. simpl. tauto. }
  assert (∀ rk w, ws !! r_key rk = Some w →
    get_range_key (wr_key (w_req w)) (wr_key_end (w_req w)) = Ok (r_start rk, r_end rk) →
    covers 0%Z rk (ev_key kv) ↔ watches (w_req w) (ev_key kv) = true) as Hcov.
  { intros [rs re ri] w Hw Hr. simpl in *. pose proof (get_range_key_ok (w_req w)) as Hok. rewrite Hr in Hok.
    apply Hok. apply (rel_ids _ _ _ Hrel) in Hw. lia. }
  split.
  - unfold ids, takers. apply NoDup_fmap_2_strong.
    + intros [rk1 st1] [rk2 st2] (Hin1 & _)%Hfilter (Hin2 & _)%Hfilter Heq. simpl in Heq.
      apply (rel_elem _ _ _ Hrel) in Hin1 as (w1 & Hw1 & Hr1 & ->), Hin2 as (w2 & Hw2 & Hr2 & ->).
      rewrite Heq, Hw2 in Hw1. destruct rk1, rk2. simplify_eq/=. rewrite Hr1 in Hr2. by simplify_eq.
    + apply bt_sorted_nodup, filter_sorted, get_by_point_sorted, (rel_sorted _ _ _ Hrel).
  - intros i. unfold ids, takers. rewrite list_elem_of_fmap. unfold wants. split.
    + intros ([rk st] & -> & (Hin & Hc & Hp)%Hfilter). apply (rel_elem _ _ _ Hrel) in Hin as (w & Hw & Hr & ->).
      exists w. simpl. split; [done|]. rewrite andb_true_iff, <-(Hcov _ _ Hw Hr). by split.
    + intros (w & Hw & [Hc Hp]%andb_true_iff). pose proof (get_range_key_ok (w_req w)) as Hok.
      pose proof (rel_ok _ _ _ Hrel _ _ Hw) as Hreq.
      destruct (get_range_key (wr_key (w_req w)) (wr_key_end (w_req w))) as [[rs re]| |] eqn:Hr; [|congruence..].
      exists (mkRangeMapKey rs re i, stream_of i w rs re). split; [done|]. apply Hfilter. split_and!.
      * apply (rel_elem _ _ _ Hrel). by exists w.
      * apply Hok; [|done]. apply (rel_ids _ _ _ Hrel) in Hw. lia.
      * done.
Qed.

(** An empty set of watchers needs no case of its own. *)
Lemma notify_event_eq kv w :
  notify_event (E:=E) kv w =
  (let! ks := collectM (notify_one kv) (get_by_point 0%Z (watcher_range_map (core w)) (ev_key kv)) in
   forM (omap id ks) close_stream) w.
Proof. unfold notify_event, bind at 1, get_core. by destruct (get_by_point _ _ _). Qed.

Lemma notify_ok c ws last n dl kv :
  watch_rel c ws last →
  ∃ c' out s', notify_event (E:=E) kv (mkWatchWorld c n dl) = (Ok tt, mkWatchWorld c' (ws_sends s') (dl ++ out)) ∧
    watch_step (mkWatchState ws last n) (StateMachineKvDataEvent kv) out s' ∧
    watch_rel c' (ws_watchers s') (ws_last_id s') ∧ ws_last_id s' = last.
Proof.
  intros Hrel. destruct (takers_spec c ws last kv Hrel) as [Hnd Hids]. destruct c as [m cur].
  cbn [watcher_range_map] in Hnd, Hids. set (set := get_by_point 0%Z m (ev_key kv)) in *.
  destruct (collect_notify ws kv set (mkWatcherManagerCore m cur) n dl) as (ks & Hcol & Hfail & Hin).
  { apply Forall_forall. intros [rk st] [Hm _]%elem_of_get_by_point.
    apply (rel_elem _ _ _ Hrel) in Hm as (w & Hw & _ & ->). by exists w. }
  assert (∀ rk, rk ∈ omap id ks → rk ∈ m.*1) as Hks.
  { intros rk Hrk%Hin. apply list_elem_of_fmap in Hrk as ([rk' st] & -> & [Hm _]%elem_of_get_by_point).
    apply list_elem_of_fmap. by exists (rk', st). }
  eexists _, _, _. split; [|split; [apply (step_notify _ _ _ _ _ Hnd Hids)|]].
  - rewrite notify_event_eq. unfold bind. cbn [core watcher_range_map]. fold set. rewrite Hcol, close_all. done.
  - simpl. rewrite <-Hfail. split; [|done]. by apply (rel_forget (mkWatcherManagerCore m cur)).
Qed.

Lemma main_ok evs c ws last n dl :
  watch_rel c ws last → (0 < last)%Z → (last + Z.of_nat (length evs) < 2 ^ 63)%Z →
  ∃ c' out s', watcher_manager_main (E:=E) evs (mkWatchWorld c n dl) = (Ok tt, mkWatchWorld c' (ws_sends s') (dl ++ out)) ∧
    watch_steps (mkWatchState ws last n) evs out s' ∧ watch_rel c' (ws_watchers s') (ws_last_id s').
Proof.
  revert c ws last n dl. induction evs as [|ev evs IH]; intros c ws last n dl Hrel Hpos Hmax.
  { exists c, [], (mkWatchState ws last n). rewrite app_nil_r. split_and!; [done|constructor|done]. }
  assert (∃ c1 out s1, handle_event (E:=E) ev (mkWatchWorld c n dl) = (Ok tt, mkWatchWorld c1 (ws_sends s1) (dl ++ out)) ∧
    watch_step (mkWatchState ws last n) ev out s1 ∧ watch_rel c1 (ws_watchers s1) (ws_last_id s1) ∧
    (last ≤ ws_last_id s1 ≤ last + 1)%Z) as (c1 & out & [ws1 last1 n1] & Heq & Hstep & Hrel1 & Hlast1).
  { destruct ev as [req tx|kv]; simpl in *.
    - destruct (create_ok c ws last n dl req tx Hrel Hpos) as (c1 & s1 & Heq & Hst & Hr & Hn & Hl); [lia|].
      exists c1, [], s1. rewrite app_nil_r, Heq, Hn. split_and!; first [done|lia].
    - destruct (notify_ok c ws last n dl kv Hrel) as (c1 & out & s1 & Heq & Hst & Hr & Hl).
      exists c1, out, s1. split_and!; first [done|lia]. }
  simpl in *. destruct (IH c1 ws1 last1 n1 (dl ++ out) Hrel1) as (c2 & outs & s2 & Heq2 & Hsteps & Hrel2); [lia..|].
  exists c2, (out ++ outs), s2. split_and!; [|by econstructor|done].
  unfold watcher_manager_main in *. simpl. unfold bind. by rewrite Heq, Heq2, app_assoc.
Qed.
End refine.

(** ** The stream of one client *)
Definition received (tx : WatcherStreamSender) (out : list (WatcherStreamSender * WatchResponse)) : list WatchResponse :=
  omap (λ m, if decide (m.1 = tx) then Some m.2 else None) out.
Definition changes (evs : list WatcherEvent) : list KvChanged :=
  omap (λ e, match e with StateMachineKvDataEvent kv => Some kv | CreateWatcherEvent _ _ => None end) evs.
(** No other watcher is registered with the channel. *)
Definition unused (tx : WatcherStreamSender) (evs : list WatcherEvent) : Prop :=
  Forall (λ e, match e with CreateWatcherEvent _ tx' => tx' ≠ tx | StateMachineKvDataEvent _ => True end) evs.

Section stream.
Context `{Receivers} (tx : WatcherStreamSender).
Implicit Types (ws : gmap Z watcher).

Lemma received_app out1 out2 : received tx (out1 ++ out2) = received tx out1 ++ received tx out2.
Proof. apply omap_app. Qed.

(** [tx] is the channel of the watcher [o], if any, and of no other. *)
Definition owner ws (o : option Z) : Prop := ∀ i w, ws !! i = Some w → w_tx w = tx ↔ o = Some i.

Lemma received_send ws o m n ids :
  owner ws o → NoDup ids → (∀ n, gone n tx = false) →
  received tx (spec_send ws m n ids) =
    match o with Some i => if decide (i ∈ ids ∧ is_Some (ws !! i)) then [m] else [] | None => [] end.
Proof.
  intros Ho Hnd Hopen. revert n. induction Hnd as [|j ids Hj Hnd IH]; intros n.
  { destruct o as [i|]; [|done]. rewrite decide_False; [done|]. by intros [?%elem_of_nil _]. }
  cbn [spec_send]. rewrite received_app, IH. destruct (ws !! j) as [w|] eqn:Hw.
  - destruct (decide (w_tx w = tx)) as [Heq|Hne].
    + apply (Ho j w Hw) in Heq as Hoj. rewrite Hoj, Heq, Hopen, Hw. unfold received at 1. simpl.
      rewrite (decide_True (P:=tx = tx)) by done. rewrite decide_False by by intros [? _].
      rewrite decide_True; [done|]. split; [left|by eexists].
    + assert (received tx (if gone n (w_tx w) then [] else [(w_tx w, m)]) = []) as ->
        by (destruct (gone n (w_tx w)); simpl; [done|by rewrite decide_False]).
      destruct o as [i|]; [|done]. cbn [app]. assert (i ≠ j) by (intros ->; by apply Hne, (Ho j w Hw)).
      apply decide_ext. rewrite elem_of_cons. tauto.
  - destruct o as [i|]; [|done]. apply decide_ext. rewrite elem_of_cons. split; [tauto|].
    intros [[->|?] Hi]; [by rewrite Hw in Hi; destruct Hi|done].
Qed.
Lemma failed_open ws n ids i w :
  ws !! i = Some w → w_tx w = tx → (∀ n, gone n tx = false) → i ∉ spec_failed ws n ids.
Proof.
  intros Hw Htx Hopen. revert n. induction ids as [|j ids IH]; intros n; simpl; [apply not_elem_of_nil|].
  rewrite not_elem_of_app. split; [|done]. destruct (ws !! j) as [w'|] eqn:Hj; [|apply not_elem_of_nil].
  destruct (gone n (w_tx w')) eqn:Hg; [|apply not_elem_of_nil]. intros ->%list_elem_of_singleton.
  simplify_eq. by rewrite Hopen in Hg.
Qed.
Lemma owner_delete ws o ids : owner ws o → owner (foldl (λ ws i, base.delete i ws) ws ids) o.
Proof. intros Ho i w. rewrite lookup_deletes. case_decide; [done|]. apply Ho. Qed.

(** Before the watcher is registered, nothing arrives. *)
Lemma steps_before s evs out s' :
  watch_steps s evs out s' → owner (ws_watchers s) None → unused tx evs → (∀ n, gone n tx = false) →
  received tx out = [] ∧ owner (ws_watchers s') None.
Proof.
  intros Hsteps Ho Hun Hopen. induction Hsteps as [s|s e out s1 es outs s2 Hstep _ IH]; [done|].
  apply Forall_cons in Hun as [He Hun]. rewrite received_app.
  destruct Hstep as [ws id n req tx' Hok|s req tx' Hno|ws id n kv ids Hnd Hids]; simpl in *.
  - apply IH; [|done]. intros i w. rewrite lookup_insert_Some. intros [[_ <-]|[_ Hw]]; [|by apply Ho].
    simpl. by split.
  - by apply IH.
  - rewrite (received_send ws None) by done. apply IH; [|done]. by apply owner_delete.
Qed.

(** From then on, exactly the changes it asked for. *)
Lemma steps_after s evs out s' i req :
  watch_steps s evs out s' → owner (ws_watchers s) (Some i) → ws_watchers s !! i = Some (mkWatcher req tx) →
  (i ≤ ws_last_id s)%Z → unused tx evs → (∀ n, gone n tx = false) →
  received tx out = watch_response <$> List.filter (wants req) (changes evs).
Proof.
  intros Hsteps Ho Hi Hlast Hun Hopen. induction Hsteps as [s|s e out s1 es outs s2 Hstep _ IH]; [done|].
  apply Forall_cons in Hun as [He Hun]. rewrite received_app. unfold changes in *.
  destruct Hstep as [ws id n req' tx' Hok|s req' tx' Hno|ws id n kv ids Hnd Hids]; csimpl.
  - simpl in *. apply IH; [|by rewrite lookup_insert_ne by lia|lia|done].
    intros j w. rewrite lookup_insert_Some. intros [[<- <-]|[_ Hw]]; [|by apply Ho]. simpl.
    split; [done|]. intros [= ->]. lia.
  - by apply IH.
  - simpl in *. rewrite (received_send ws (Some i)) by done.
    rewrite IH; [|by apply owner_delete| |done|done].
    + destruct (wants req kv) eqn:Hwants; csimpl.
      * rewrite decide_True; [done|]. split; [apply Hids; by eexists|by eexists].
      * rewrite decide_False; [done|]. intros [(w & Hw & Hwk)%Hids _]. simplify_eq/=. congruence.
    + rewrite lookup_deletes, decide_False; [done|]. by eapply failed_open.
Qed.
End stream.

Lemma watch_steps_app `{Receivers} s evs1 evs2 out s2 :
  watch_steps s (evs1 ++ evs2) out s2 →
  ∃ out1 s1 out2, watch_steps s evs1 out1 s1 ∧ watch_steps s1 evs2 out2 s2 ∧ out = out1 ++ out2.
Proof.
  revert s out. induction evs1 as [|e evs1 IH]; intros s out Hs; simpl in *.
  { exists [], s, out. split_and!; [constructor|done|done]. }
  inversion Hs as [|? ? o ? ? outs ? Hstep Hrest]; subst. apply IH in Hrest as (out1 & sm & out2 & H1 & H2 & ->).
  exists (o ++ out1), sm, out2. split_and!; [by econstructor|done|by rewrite app_assoc].
Qed.

(** ** Properties *)
Section props.
Context `{Receivers} {E : Type}.

(** C33: The watcher manager refines its specification: from its creation, for every
    sequence of events and whichever clients disappear, it never panics, and the
    messages it sends and the watchers it keeps are those of a run of the step
    relation, in which a change is sent once to each registered watcher that wants it
    and a watcher is forgotten when its client is gone. *)
Theorem watch_manager_refines evs :
  (Z.of_nat (length evs) + 1 < 2 ^ 63)%Z →
  ∃ c out s, watcher_manager_main (E:=E) evs manager_create = (Ok tt, mkWatchWorld c (ws_sends s) out) ∧
    watch_steps (mkWatchState ∅ 1 0) evs out s ∧ watch_rel c (ws_watchers s) (ws_last_id s).
Proof.
  intros Hlen. destruct (main_ok (E:=E) evs (mkWatcherManagerCore [] 1) ∅ 1 0 [] rel_empty)
    as (c & out & s & Hrun & Hsteps & Hrel); [lia..|]. by exists c, out, s.
Qed.

(** C34: A client that keeps its stream open receives every change it asked for: once
    its watcher is registered, the messages on its channel are, in order and without
    repetition, the responses for exactly the changes of the keys from [key] to
    [key_end] that pass its filter. *)
Theorem watch_stream_complete evs1 req tx evs2 :
  request_ok req = true → unused tx evs1 → unused tx evs2 → (∀ n, gone n tx = false) →
  (Z.of_nat (length (evs1 ++ CreateWatcherEvent req tx :: evs2)) + 1 < 2 ^ 63)%Z →
  ∃ w, watcher_manager_main (E:=E) (evs1 ++ CreateWatcherEvent req tx :: evs2) manager_create = (Ok tt, w) ∧
       received tx (delivered w) = watch_response <$> List.filter (wants req) (changes evs2).
Proof.
  intros Hok Hun1 Hun2 Hopen Hlen.
  destruct (main_ok (E:=E) (evs1 ++ CreateWatcherEvent req tx :: evs2) (mkWatcherManagerCore [] 1) ∅ 1 0 [] rel_empty)
    as (c & out & s & Hrun & Hsteps & _); [lia..|].
  eexists. split; [exact Hrun|]. simpl. apply watch_steps_app in Hsteps as (out1 & s1 & out2 & H1 & H2 & ->).
  destruct (steps_before tx _ _ _ _ H1) as [Hr1 Ho1]; [intros i w; simpl; by rewrite lookup_empty|done|done|].
  rewrite received_app, Hr1. simpl. inversion H2 as [|? ? o ? ? outs ? Hstep Hrest]; subst.
  inversion Hstep as [ws id n ? ? _|? ? ? Hno|]; subst; [|congruence]. simpl in *.
  apply (steps_after tx _ _ _ _ (id + 1) req Hrest); simpl; [|by rewrite lookup_insert_eq|lia|done|done].
  intros i w. rewrite lookup_insert_Some. intros [[<- <-]|[Hne Hw]]; [done|]. rewrite (Ho1 i w Hw). split; [done|].
  by intros [=].
Qed.
End props.

(** ** Examples *)
Section examples.
#[local] Instance all_open : Receivers := λ _ _, false.
Definition demo_watch : WatchRequest := mkWatchRequest "a" (Some "b") 0.
Definition demo_changes : list WatcherEvent :=
  [StateMachineKvDataEvent (mkKvChanged "b" None (Some (mkSeqV 1 None "x")));
   StateMachineKvDataEvent (mkKvChanged "c" None (Some (mkSeqV 2 None "y")))].
Lemma watch_manager_refines_example :
  ∃ c out s, watcher_manager_main (E:=unit) demo_changes manager_create = (Ok tt, mkWatchWorld c (ws_sends s) out) ∧
    watch_steps (mkWatchState ∅ 1 0) demo_changes out s ∧ watch_rel c (ws_watchers s) (ws_last_id s).
Proof. apply watch_manager_refines. vm_compute. reflexivity. Defined.
Lemma watch_stream_complete_example :
  ∃ w, watcher_manager_main (E:=unit) ([] ++ CreateWatcherEvent demo_watch 7 :: demo_changes) manager_create = (Ok tt, w) ∧
       received 7 (delivered w) = [mkWatchResponse (Some (mkEvent "b" (Some (mkPbSeqV 1 "x")) None))].
Proof.
  apply (watch_stream_complete [] demo_watch 7 demo_changes); [reflexivity|by repeat constructor|by repeat constructor|done|].
  vm_compute. reflexivity.
Defined.
End examples.
