(* ===== verification/UserGrant.v ===== *)
(** * Privileges and grants (src/common/meta/types/src/user_privilege.rs, user_grant.rs).

    A set of privileges is a bit set; a grant set has one entry per granted object and
    the set of granted roles.  The theorems say which privileges a grant set gives after
    granting, revoking and merging. *)
From S2P Require Import Prelude.

(** ** Privileges: user_privilege.rs *)
Inductive UserPrivilegeType :=
  | Usage | Select | Insert | Update | Delete | Create | Drop | Alter | Super
  | CreateUser | CreateRole | Grant | CreateStage | PSet.
#[export] Instance UserPrivilegeType_eq_dec : EqDecision UserPrivilegeType.
Proof. solve_decision. Defined.

(** The exponent in the discriminant [1 << n]. *)
Definition priv_bit (p : UserPrivilegeType) : N :=
  match p with
  | Usage => 0 | Select => 2 | Insert => 3 | Update => 5 | Delete => 6 | Create => 1 | Drop => 7
  | Alter => 8 | Super => 9 | CreateUser => 10 | CreateRole => 11 | Grant => 12 | CreateStage => 13
  | PSet => 4
  end.

(** [enumflags2::BitFlags]: a [u64] with the bits of the flags. *)
Abbreviation BitFlags := N (only parsing).
Definition priv_flag (p : UserPrivilegeType) : BitFlags := N.shiftl 1 (priv_bit p).
Definition make_bitflags (l : list UserPrivilegeType) : BitFlags :=
  foldr (λ p f, N.lor (priv_flag p) f) 0%N l.
Definition flags_contains (self other : BitFlags) : bool := (N.land self other =? other)%N.

(** The flags in the order of their bits, in which [iter] returns them. *)
Definition privileges_by_bit : list UserPrivilegeType :=
  [Usage; Create; Select; Insert; PSet; Update; Delete; Drop; Alter; Super; CreateUser; CreateRole;
   Grant; CreateStage].
Definition flags_iter (f : BitFlags) : list UserPrivilegeType :=
  List.filter (λ p, flags_contains f (priv_flag p)) privileges_by_bit.

Definition ALL_PRIVILEGES : BitFlags :=
  make_bitflags [Create; Select; Insert; Update; Delete; Drop; Alter; Super; CreateUser; CreateRole; Grant; PSet].

Definition UserPrivilegeType_to_string (p : UserPrivilegeType) : string :=
  match p with
  | Usage => "USAGE" | Create => "CREATE" | Update => "UPDATE" | Select => "SELECT" | Insert => "INSERT"
  | Delete => "DELETE" | Drop => "DROP" | Alter => "ALTER" | Super => "SUPER"
  | CreateUser => "CREATE USER" | CreateRole => "CREATE ROLE" | CreateStage => "CREATE STAGE"
  | Grant => "GRANT" | PSet => "SET"
  end.

Record UserPrivilegeSet := mkUserPrivilegeSet { ups_privileges : BitFlags }.
Definition ups_empty : UserPrivilegeSet := mkUserPrivilegeSet 0.
Definition ups_iter (self : UserPrivilegeSet) : list UserPrivilegeType := flags_iter (ups_privileges self).
Definition available_privileges_on_table : UserPrivilegeSet :=
  mkUserPrivilegeSet (make_bitflags [Create; Update; Select; Insert; Delete; Drop; Alter; Grant]).
Definition available_privileges_on_database : UserPrivilegeSet := available_privileges_on_table.
Definition available_privileges_on_global : UserPrivilegeSet :=
  let database_privs := available_privileges_on_database in
  let privs := make_bitflags [Usage; Super; CreateUser; CreateRole; Grant] in
  mkUserPrivilegeSet (N.lor (ups_privileges database_privs) privs).
Definition all_privileges : UserPrivilegeSet := mkUserPrivilegeSet ALL_PRIVILEGES.
Definition set_privilege (self : UserPrivilegeSet) (p : UserPrivilegeType) : UserPrivilegeSet :=
  mkUserPrivilegeSet (N.lor (ups_privileges self) (priv_flag p)).
Definition has_privilege (self : UserPrivilegeSet) (p : UserPrivilegeType) : bool :=
  flags_contains (ups_privileges self) (priv_flag p).
Definition set_all_privileges (self : UserPrivilegeSet) : UserPrivilegeSet :=
  mkUserPrivilegeSet (N.lor (ups_privileges self) ALL_PRIVILEGES).
Definition is_all_privileges (self : UserPrivilegeSet) : bool := (ups_privileges self =? ALL_PRIVILEGES)%N.
(** [join]. *)
Definition UserPrivilegeSet_to_string (self : UserPrivilegeSet) : string :=
  String.concat "," (UserPrivilegeType_to_string <$> flags_iter (ups_privileges self)).
Definition ups_bitor (self other : UserPrivilegeSet) : UserPrivilegeSet :=
  mkUserPrivilegeSet (N.lor (ups_privileges self) (ups_privileges other)).

(** ** Objects and entries: user_grant.rs *)
Inductive GrantObject :=
  | Global
  | Database (catalog db : string)
  | Table (catalog db table : string).
#[export] Instance GrantObject_eq_dec : EqDecision GrantObject.
Proof. solve_decision. Defined.

(** [self.contains(object)]. *)
Definition object_contains (self object : GrantObject) : bool :=
  match self, object with
  | Global, _ => true
  | Database _ _, Global => false
  | Database lcat ldb, Database rcat rdb => bool_decide (lcat = rcat) && bool_decide (ldb = rdb)
  | Database lcat ldb, Table rcat rdb _ => bool_decide (lcat = rcat) && bool_decide (ldb = rdb)
  | Table lcat lhs_db lhs_table, Table rcat rhs_db rhs_table =>
      bool_decide (lcat = rcat) && bool_decide (lhs_db = rhs_db) && bool_decide (lhs_table = rhs_table)
  | Table _ _ _, _ => false
  end.
Definition available_privileges (self : GrantObject) : UserPrivilegeSet :=
  match self with
  | Global => available_privileges_on_global
  | Database _ _ => available_privileges_on_database
  | Table _ _ _ => available_privileges_on_table
  end.
Definition GrantObject_to_string (self : GrantObject) : string :=
  match self with
  | Global => "*.*"
  | Database cat db => "'" +:+ cat +:+ "'.'" +:+ db +:+ "'.*"
  | Table cat db table => "'" +:+ cat +:+ "'.'" +:+ db +:+ "'.'" +:+ table +:+ "'"
  end.

Record GrantEntry := mkGrantEntry { ge_object : GrantObject; ge_privileges : BitFlags }.
Definition entry_verify_privilege (self : GrantEntry) (object : GrantObject) (privilege : UserPrivilegeType) : bool :=
  if negb (object_contains (ge_object self) object) then false
  else flags_contains (ge_privileges self) (priv_flag privilege).
Definition matches_entry (self : GrantEntry) (object : GrantObject) : bool := bool_decide (ge_object self = object).
Definition has_all_available_privileges (self : GrantEntry) : bool :=
  flags_contains (ge_privileges self) (ups_privileges (available_privileges (ge_object self))).
Definition GrantEntry_to_string (self : GrantEntry) : string :=
  let privileges_str :=
    if has_all_available_privileges self then "ALL"
    else UserPrivilegeSet_to_string (mkUserPrivilegeSet (ge_privileges self)) in
  "GRANT " +:+ privileges_str +:+ " ON " +:+ GrantObject_to_string (ge_object self).

(** ** Grant sets *)
Record UserGrantSet := mkUserGrantSet { ug_entries : list GrantEntry; ug_roles : gset string }.
Definition ugs_empty : UserGrantSet := mkUserGrantSet [] ∅.
Definition ugs_grant_role (self : UserGrantSet) (role : string) : UserGrantSet :=
  mkUserGrantSet (ug_entries self) ({[role]} ∪ ug_roles self).
Definition ugs_revoke_role (self : UserGrantSet) (role : string) : UserGrantSet :=
  mkUserGrantSet (ug_entries self) (ug_roles self ∖ {[role]}).
Definition verify_privilege (self : UserGrantSet) (object : GrantObject) (privilege : UserPrivilegeType) : bool :=
  existsb (λ e, entry_verify_privilege e object privilege) (ug_entries self).

(** The loop over the entries carries the new entries and [changed]. *)
Definition grant_entry (object : GrantObject) (privileges : BitFlags) (acc : list GrantEntry * bool)
    (entry : GrantEntry) : list GrantEntry * bool :=
  let '(new_entries, changed) := acc in
  if matches_entry entry object
  then (new_entries ++ [mkGrantEntry (ge_object entry) (N.lor (ge_privileges entry) privileges)], true)
  else (new_entries ++ [entry], changed).
Definition ugs_grant_privileges (self : UserGrantSet) (object : GrantObject) (privileges : UserPrivilegeSet)
    : UserGrantSet :=
  let privileges := ups_privileges privileges in
  let '(new_entries, changed) := foldl (grant_entry object privileges) ([], false) (ug_entries self) in
  let new_entries := if changed then new_entries else new_entries ++ [mkGrantEntry object privileges] in
  mkUserGrantSet new_entries (ug_roles self).
(** The entry of the object has the revoked flags flipped ([^=]); empty entries go. *)
Definition revoke_entry (object : GrantObject) (privileges : BitFlags) (e : GrantEntry) : GrantEntry :=
  if matches_entry e object then mkGrantEntry (ge_object e) (N.lxor (ge_privileges e) privileges) else e.
Definition ugs_revoke_privileges (self : UserGrantSet) (object : GrantObject) (privileges : UserPrivilegeSet)
    : UserGrantSet :=
  let privileges := ups_privileges privileges in
  mkUserGrantSet
    (List.filter (λ e, negb (ge_privileges e =? 0)%N) (revoke_entry object privileges <$> ug_entries self))
    (ug_roles self).

(** The order in which a [HashSet] is iterated is not specified. *)
Class HashSetIter := hash_iter : gset string → list string.
Class HashSetIterLaws `{HashSetIter} := hash_iter_elements s : hash_iter s ≡ₚ elements s.
Section iterated.
Context `{HashSetIter}.
Definition ugs_roles (self : UserGrantSet) : list string := hash_iter (ug_roles self).
Definition ugs_bitor_assign (self other : UserGrantSet) : UserGrantSet :=
  let grants := foldl (λ g entry, ugs_grant_privileges g (ge_object entry) (mkUserPrivilegeSet (ge_privileges entry)))
                  self (ug_entries other) in
  foldl ugs_grant_role grants (ugs_roles other).
Definition ugs_bitor (self other : UserGrantSet) : UserGrantSet := ugs_bitor_assign self other.
End iterated.

(** ** Bit sets *)
Lemma priv_flag_pow p : priv_flag p = (2 ^ priv_bit p)%N.
Proof. unfold priv_flag. by rewrite N.shiftl_1_l. Qed.
Lemma contains_flag f p : flags_contains f (priv_flag p) = N.testbit f (priv_bit p).
Proof.
  unfold flags_contains. rewrite priv_flag_pow. apply eq_bool_prop_intro. rewrite !Is_true_true, N.eqb_eq.
  split; intros Hf.
  - apply (f_equal (λ x, N.testbit x (priv_bit p))) in Hf. rewrite N.land_spec, N.pow2_bits_true in Hf.
    by rewrite andb_true_r in Hf.
  - apply N.bits_inj. intros n. rewrite N.land_spec. destruct (decide (n = priv_bit p)) as [->|Hne].
    + by rewrite Hf, N.pow2_bits_true.
    + by rewrite N.pow2_bits_false, andb_false_r.
Qed.

(** A [BitFlags] holds no bit but those of the flags. *)
Definition flags_valid (f : BitFlags) : bool := (f <? 2 ^ 14)%N.
Lemma flags_valid_lor f g : flags_valid f = true → flags_valid g = true → flags_valid (N.lor f g) = true.
Proof. unfold flags_valid. rewrite !N.ltb_lt. apply N_lor_below. Qed.
Lemma flags_valid_lxor f g : flags_valid f = true → flags_valid g = true → flags_valid (N.lxor f g) = true.
Proof. unfold flags_valid. rewrite !N.ltb_lt. apply N_lxor_below. Qed.

(** ** Grant sets *)
Section grants.
Implicit Types (g : UserGrantSet) (o : GrantObject) (f : BitFlags) (e : GrantEntry) (es : list GrantEntry) (p : UserPrivilegeType).

Lemma entry_verify e o p :
  entry_verify_privilege e o p = object_contains (ge_object e) o && N.testbit (ge_privileges e) (priv_bit p).
Proof. unfold entry_verify_privilege. rewrite contains_flag. by destruct (object_contains _ _). Qed.

(** What the loop of [grant_privileges] makes of an entry. *)
Definition granted o f e : GrantEntry :=
  if matches_entry e o then mkGrantEntry (ge_object e) (N.lor (ge_privileges e) f) else e.
Lemma grant_loop o f es acc ch :
  foldl (grant_entry o f) (acc, ch) es = (acc ++ (granted o f <$> es), ch || existsb (λ e, matches_entry e o) es).
Proof.
  revert acc ch. induction es as [|e es IH]; intros acc ch; csimpl.
  { by rewrite app_nil_r, orb_false_r. }
  unfold granted at 1. destruct (matches_entry e o); rewrite IH, <-app_assoc; simpl; [|done].
  by rewrite orb_true_r.
Qed.
Lemma granted_object o f e : ge_object (granted o f e) = ge_object e.
Proof. unfold granted. by destruct (matches_entry e o). Qed.
Lemma granted_objects o f es : ge_object <$> (granted o f <$> es) = ge_object <$> es.
Proof. rewrite <-list_fmap_compose. apply list_fmap_ext. intros ? e _. apply granted_object. Qed.
Lemma no_entry o es : existsb (λ e, matches_entry e o) es = false ↔ o ∉ (ge_object <$> es).
Proof.
  induction es as [|e es IH]; simpl; [split; [by intros _ ?%elem_of_nil|done]|].
  rewrite orb_false_iff, IH, not_elem_of_cons. unfold matches_entry. rewrite bool_decide_eq_false. intuition congruence.
Qed.

Lemma existsb_granted o f o' p es :
  existsb (λ e, entry_verify_privilege e o' p) (granted o f <$> es) =
  existsb (λ e, entry_verify_privilege e o' p) es ||
  (existsb (λ e, matches_entry e o) es && (object_contains o o' && N.testbit f (priv_bit p))).
Proof.
  induction es as [|e es IH]; csimpl; [done|]. rewrite IH. unfold granted, matches_entry.
  destruct (decide (ge_object e = o)) as [<-|Hne].
  - rewrite bool_decide_true by done. rewrite !entry_verify. simpl. rewrite N.lor_spec.
    destruct (object_contains _ _), (N.testbit f _), (N.testbit (ge_privileges e) _); simpl;
      rewrite ?andb_false_r, ?orb_true_r, ?orb_false_r; done.
  - rewrite bool_decide_false by done. simpl. by rewrite orb_assoc.
Qed.

Lemma verify_granted g o s o' p :
  verify_privilege (ugs_grant_privileges g o s) o' p =
  verify_privilege g o' p || (object_contains o o' && has_privilege s p).
Proof.
  unfold verify_privilege, ugs_grant_privileges, has_privilege. rewrite contains_flag, grant_loop. simpl.
  destruct (existsb (λ e, matches_entry e o) (ug_entries g)) eqn:Hm; simpl; rewrite ?existsb_app, existsb_granted, Hm.
  - done.
  - simpl. by rewrite entry_verify, !orb_false_r.
Qed.

Lemma verify_merged g es o p :
  verify_privilege
    (foldl (λ g e, ugs_grant_privileges g (ge_object e) (mkUserPrivilegeSet (ge_privileges e))) g es) o p =
  verify_privilege g o p || existsb (λ e, entry_verify_privilege e o p) es.
Proof.
  revert g. induction es as [|e es IH]; intros g; simpl; [by rewrite orb_false_r|].
  rewrite IH, verify_granted, entry_verify. unfold has_privilege. rewrite contains_flag. simpl.
  by rewrite orb_assoc.
Qed.
Lemma granted_roles g o s : ug_roles (ugs_grant_privileges g o s) = ug_roles g.
Proof. unfold ugs_grant_privileges. by destruct (foldl _ _ _). Qed.
Lemma merged_roles g es :
  ug_roles (foldl (λ g e, ugs_grant_privileges g (ge_object e) (mkUserPrivilegeSet (ge_privileges e))) g es) = ug_roles g.
Proof. revert g. induction es as [|e es IH]; intros g; simpl; [done|]. by rewrite IH, granted_roles. Qed.
Lemma grant_roles g l :
  foldl ugs_grant_role g l = mkUserGrantSet (ug_entries g) (list_to_set l ∪ ug_roles g).
Proof.
  revert g. induction l as [|r l IH]; intros [es rs]; simpl; [by rewrite (left_id_L ∅ (∪))|].
  rewrite IH. simpl. by rewrite (assoc_L (∪)), (comm_L (∪) (list_to_set l)).
Qed.

(** Revoking flips the revoked flags of the entry of the object, whatever they were. *)
Lemma verify_revoked g o s o' p :
  verify_privilege (ugs_revoke_privileges g o s) o' p =
  existsb (λ e, object_contains (ge_object e) o' &&
                xorb (N.testbit (ge_privileges e) (priv_bit p)) (matches_entry e o && has_privilege s p))
    (ug_entries g).
Proof.
  unfold verify_privilege, ugs_revoke_privileges, has_privilege. rewrite contains_flag. simpl.
  induction (ug_entries g) as [|e es IH]; csimpl; [done|].
  assert (entry_verify_privilege (revoke_entry o (ups_privileges s) e) o' p =
    object_contains (ge_object e) o' &&
    xorb (N.testbit (ge_privileges e) (priv_bit p)) (matches_entry e o && N.testbit (ups_privileges s) (priv_bit p)))
    as He.
  { rewrite entry_verify. unfold revoke_entry. destruct (matches_entry e o); simpl; [by rewrite N.lxor_spec|].
    by rewrite xorb_false_r. }
  destruct (ge_privileges (revoke_entry o _ e) =? 0)%N eqn:H0; simpl; rewrite IH; [|by rewrite He].
  apply N.eqb_eq in H0. rewrite <-He, entry_verify, H0, N.bits_0, andb_false_r. done.
Qed.
End grants.

(** ** Properties *)
Section props.
Context `{HashSetIterLaws}.
Implicit Types (g : UserGrantSet) (o : GrantObject) (p : UserPrivilegeType).

(** A well-formed grant set: one entry per object, with valid flags. *)
Record grants_wf g : Prop := {
  wf_objects : NoDup (ge_object <$> ug_entries g);
  wf_flags : Forall (λ e, flags_valid (ge_privileges e) = true) (ug_entries g);
}.

Lemma wf_empty : grants_wf ugs_empty.
Proof. split; simpl; constructor. Qed.
Lemma wf_granted g o s :
  grants_wf g → flags_valid (ups_privileges s) = true → grants_wf (ugs_grant_privileges g o s).
Proof.
  intros [Hn Hf] Hs. unfold ugs_grant_privileges. rewrite grant_loop. simpl.
  assert (Forall (λ e, flags_valid (ge_privileges e) = true) (granted o (ups_privileges s) <$> ug_entries g)) as Hf'.
  { apply Forall_fmap. eapply Forall_impl; [exact Hf|]. intros e He. unfold compose, granted.
    destruct (matches_entry e o); [by apply flags_valid_lor|done]. }
  destruct (existsb _ _) eqn:Hm; split; simpl; rewrite ?fmap_app, ?granted_objects; [done|done| |].
  - apply no_entry in Hm. apply NoDup_app. split_and!; [done| |apply NoDup_singleton].
    intros x Hx ->%list_elem_of_singleton. done.
  - apply Forall_app. split; [done|]. by apply Forall_singleton.
Qed.
Lemma wf_revoked g o s :
  grants_wf g → flags_valid (ups_privileges s) = true → grants_wf (ugs_revoke_privileges g o s).
Proof.
  intros [Hn Hf] Hs. assert (∀ e, ge_object (revoke_entry o (ups_privileges s) e) = ge_object e) as Ho.
  { intros e. unfold revoke_entry. by destruct (matches_entry e o). }
  split; simpl.
  - induction (ug_entries g) as [|e es IH]; csimpl; [constructor|]. inversion Hn; inversion Hf; subst.
    destruct (negb _); csimpl; [|by apply IH]. constructor; [|by apply IH]. rewrite Ho.
    intros (e' & He' & [Hin _]%list_elem_of_In%List.filter_In)%list_elem_of_fmap.
    apply list_elem_of_In, list_elem_of_fmap in Hin as (e'' & -> & Hin).
    assert (ge_object e ∈ (ge_object <$> es)); [|done]. rewrite He', Ho. by apply list_elem_of_fmap_2.
  - apply List.Forall_forall. intros e [Hin _]%List.filter_In.
    apply list_elem_of_In, list_elem_of_fmap in Hin as (e' & -> & Hin). rewrite Forall_forall in Hf.
    unfold revoke_entry. destruct (matches_entry e' o); [apply flags_valid_lxor|]; by auto.
Qed.
Lemma wf_merged g1 g2 : grants_wf g1 → grants_wf g2 → grants_wf (ugs_bitor g1 g2).
Proof.
  intros H1 [_ Hf]. unfold ugs_bitor, ugs_bitor_assign. rewrite grant_roles.
  assert (grants_wf (foldl (λ g e, ugs_grant_privileges g (ge_object e) (mkUserPrivilegeSet (ge_privileges e))) g1
    (ug_entries g2))) as [? ?]; [|by split].
  revert g1 H1. induction Hf as [|e es He _ IH]; intros g1 H1; simpl; [done|]. apply IH. by apply wf_granted.
Qed.

(** Every operation on grant sets keeps them well formed: each object has one entry,
    and the bits of an entry are bits of declared privileges. *)
Theorem grant_set_wf g1 g2 o s r :
  grants_wf g1 → grants_wf g2 → flags_valid (ups_privileges s) = true →
  grants_wf ugs_empty ∧ grants_wf (ugs_grant_privileges g1 o s) ∧ grants_wf (ugs_revoke_privileges g1 o s) ∧
  grants_wf (ugs_bitor g1 g2) ∧ grants_wf (ugs_grant_role g1 r) ∧ grants_wf (ugs_revoke_role g1 r).
Proof.
  intros H1 H2 Hs. split_and!; auto using wf_empty, wf_granted, wf_revoked, wf_merged.
  - by destruct H1; split.
  - by destruct H1; split.
Qed.

(** C38: Granting adds exactly the given privileges on the object and on the objects
    inside it, and merging two grant sets gives exactly the privileges and the roles of
    either. *)
Theorem grant_semantics g1 g2 o s o' p :
  verify_privilege (ugs_grant_privileges g1 o s) o' p =
    verify_privilege g1 o' p || (object_contains o o' && has_privilege s p) ∧
  verify_privilege (ugs_bitor g1 g2) o' p = verify_privilege g1 o' p || verify_privilege g2 o' p ∧
  ug_roles (ugs_bitor g1 g2) = ug_roles g1 ∪ ug_roles g2.
Proof.
  split; [apply verify_granted|]. unfold ugs_bitor, ugs_bitor_assign. rewrite grant_roles. split.
  - unfold verify_privilege at 1. simpl. fold (verify_privilege
      (foldl (λ g e, ugs_grant_privileges g (ge_object e) (mkUserPrivilegeSet (ge_privileges e))) g1 (ug_entries g2))
      o' p). apply verify_merged.
  - simpl. rewrite merged_roles. unfold ugs_roles.
    rewrite (comm_L (∪)). f_equal. apply set_eq. intros x.
    by rewrite elem_of_list_to_set, hash_iter_elements, elem_of_elements.
Qed.

(** After revoking a privilege on an object that has an entry, the privilege is held
    on the object if another entry gives it, or if the entry did not give it before:
    revoking a privilege that was not granted grants it. *)
Theorem revoke_toggles g o s p e :
  grants_wf g → e ∈ ug_entries g → ge_object e = o → has_privilege s p = true →
  verify_privilege (ugs_revoke_privileges g o s) o p =
  existsb (λ e, negb (matches_entry e o) && entry_verify_privilege e o p) (ug_entries g) ||
  negb (flags_contains (ge_privileges e) (priv_flag p)).
Proof.
  intros [Hn _] He Ho Hs. rewrite verify_revoked, Hs, contains_flag.
  induction (ug_entries g) as [|e' es IH]; [by apply elem_of_nil in He|]. csimpl in *.
  inversion Hn as [|? ? Hnot Hn']; subst. rewrite entry_verify, andb_true_r.
  assert (object_contains (ge_object e) (ge_object e) = true) as Hrefl.
  { destruct (ge_object e); simpl; rewrite ?bool_decide_true by done; done. }
  apply elem_of_cons in He as [->|Hin].
  - unfold matches_entry at 1 3. rewrite bool_decide_true, Hrefl by done. simpl.
    destruct (N.testbit (ge_privileges e') _); simpl; rewrite ?orb_true_r, ?orb_false_r; [|done].
    apply no_entry in Hnot. clear -Hnot. induction es as [|x es IH]; csimpl in *; [done|].
    apply orb_false_iff in Hnot as [Hx Hes]. rewrite Hx. simpl. by rewrite xorb_false_r, entry_verify, IH.
  - assert (matches_entry e' (ge_object e) = false) as ->.
    { unfold matches_entry. apply bool_decide_eq_false. intros Heq. apply Hnot. rewrite Heq. by apply list_elem_of_fmap_2. }
    simpl. rewrite xorb_false_r, IH by done. by rewrite orb_assoc.
Qed.
End props.

(** ** Examples *)
Section examples.
#[local] Instance some_hash_iter : HashSetIter := elements.
#[local] Instance some_hash_iter_laws : HashSetIterLaws.
Proof. by intros s. Qed.
Definition demo_db : GrantObject := Database "default" "db".
Definition demo_table : GrantObject := Table "default" "db" "t".
Definition select_only : UserPrivilegeSet := mkUserPrivilegeSet (make_bitflags [Select]).
Definition demo_grants : UserGrantSet := ugs_grant_privileges ugs_empty demo_db select_only.
Lemma demo_grants_wf : grants_wf demo_grants.
Proof. by apply wf_granted; [apply wf_empty|]. Qed.

Lemma grant_set_wf_example :
  grants_wf (ugs_revoke_privileges demo_grants demo_db all_privileges) ∧
  grants_wf (ugs_bitor demo_grants demo_grants).
Proof.
  destruct (grant_set_wf demo_grants demo_grants demo_db all_privileges "r" demo_grants_wf demo_grants_wf eq_refl)
    as (_ & _ & ? & ? & _). done.
Defined.
Lemma grant_semantics_example :
  verify_privilege demo_grants demo_table Select = true ∧
  verify_privilege (ugs_bitor (ugs_grant_role ugs_empty "r") demo_grants) demo_table Select = true ∧
  ug_roles (ugs_bitor (ugs_grant_role ugs_empty "r") demo_grants) = {["r"]}.
Proof.
  destruct (grant_semantics (ugs_grant_role ugs_empty "r") demo_grants demo_db select_only demo_table Select)
    as (_ & Hv & Hr).
  rewrite Hv, Hr. by vm_compute.
Defined.
(** [REVOKE ALL] leaves a user who could only read the database able to drop it. *)
Lemma revoke_toggles_example :
  verify_privilege demo_grants demo_db Drop = false ∧
  verify_privilege (ugs_revoke_privileges demo_grants demo_db all_privileges) demo_db Drop = true.
Proof.
  split; [by vm_compute|].
  rewrite (revoke_toggles demo_grants demo_db all_privileges Drop (mkGrantEntry demo_db 4) demo_grants_wf
    (list_elem_of_here _ _) eq_refl eq_refl). by vm_compute.
Defined.
End examples.
