(* ===== verification/Exception.v ===== *)
(** * Error codes (src/common/exception/src, and the conversions to them in
    src/common/meta/types/src/meta_errors_into.rs, meta_storage_errors.rs,
    meta_network_errors.rs, meta_result_error.rs).

    Errors of the query node are a code with a text.  The file has the table of codes,
    the conversions of the errors of the meta service, and the way an error travels
    between nodes inside a gRPC status. *)
From S2P Require Import Prelude MetaTypes.

(** ** The table of codes: exception_code.rs *)
Module Exc.
Inductive exception :=
  | Ok | UnknownTypeOfQuery | UnImplement | UnknownDatabase | UnknownDatabaseId | SyntaxException
  | BadArguments | IllegalDataType | UnknownFunction | IllegalFunctionState | BadDataValueType
  | UnknownPlan | IllegalPipelineState | BadTransformType | IllegalTransformConnectionState | LogicalError
  | EmptyData | DataStructMissMatch | BadDataArrayLength | UnknownContextID | UnknownTableId
  | UnknownTableFunction | BadOption | CannotReadFile | ParquetError | UnknownTable | IllegalAggregateExp
  | UnknownAggregateFunction | NumberArgumentsNotMatch | NotFoundStream | EmptyDataFromServer
  | NotFoundLocalNode | PlanScheduleError | BadPlanInputs | DuplicateClusterNode | NotFoundClusterNode
  | BadAddressFormat | DnsParseError | CannotConnectNode | DuplicateGetStream | Timeout
  | TooManyUserConnections | AbortedSession | AbortedQuery | NotFoundSession | CannotListenerPort
  | BadBytes | InitPrometheusFailure | ScalarSubqueryBadRows | Overflow | InvalidMetaBinaryFormat
  | AuthenticateFailure | TLSConfigurationFailure | UnknownSession | UnexpectedError | DateTimeParseError
  | BadPredicateRows | SHA1CheckFailed | UnknownColumn | InvalidSourceFormat | StrParseError | IllegalGrant
  | ManagementModePermissionDenied | PermissionDenied | UnmarshalError | SemanticError | InvalidAuthInfo
  | InvalidTimezone | InvalidDate | InvalidTimestamp | UnexpectedResponseType | UnknownException
  | TokioError | PipelineAreadlyStarted | PipelineNotStarted | PipelineUnInitialized | HttpNotFound
  | NetworkRequestError | UnknownFormat | TenantIsEmpty | IndexOutOfBounds | LayoutError | MetaServiceError
  | InvalidConfig | MetaStorageError | TableVersionMismatched | OCCRetryFailure | UnknownUser
  | UserAlreadyExists | IllegalUserInfoFormat | UnknownRole | IllegalUserSettingFormat
  | DatabaseAlreadyExists | TableAlreadyExists | IllegalMetaState | MetaNodeInternalError
  | ViewAlreadyExists | ClusterUnknownNode | ClusterNodeAlreadyExists | UnknownStage | StageAlreadyExists
  | IllegalUserStageFormat | IllegalUDFFormat | UnknownUDF | UdfAlreadyExists | UnknownDatabaseEngine
  | UnknownTableEngine | UnsupportedEngineParams | ShareAlreadyExists | UnknownShare | UnknownShareId
  | UnknownVariable | StorageNotFound | StoragePermissionDenied | StorageOther | DiskCacheIOError
  | DiskCacheFileTooLarge | DiskCacheFileNotInCache | AlreadyStarted | AlreadyStopped.
Definition code_of (e : exception) : N :=
  match e with
  | Ok => 0 | UnknownTypeOfQuery => 1001 | UnImplement => 1002 | UnknownDatabase => 1003
  | UnknownDatabaseId => 1004 | SyntaxException => 1005 | BadArguments => 1006 | IllegalDataType => 1007
  | UnknownFunction => 1008 | IllegalFunctionState => 1009 | BadDataValueType => 1010 | UnknownPlan => 1011
  | IllegalPipelineState => 1012 | BadTransformType => 1013 | IllegalTransformConnectionState => 1014
  | LogicalError => 1015 | EmptyData => 1016 | DataStructMissMatch => 1017 | BadDataArrayLength => 1018
  | UnknownContextID => 1019 | UnknownTableId => 1020 | UnknownTableFunction => 1021 | BadOption => 1022
  | CannotReadFile => 1023 | ParquetError => 1024 | UnknownTable => 1025 | IllegalAggregateExp => 1026
  | UnknownAggregateFunction => 1027 | NumberArgumentsNotMatch => 1028 | NotFoundStream => 1029
  | EmptyDataFromServer => 1030 | NotFoundLocalNode => 1031 | PlanScheduleError => 1032
  | BadPlanInputs => 1033 | DuplicateClusterNode => 1034 | NotFoundClusterNode => 1035
  | BadAddressFormat => 1036 | DnsParseError => 1037 | CannotConnectNode => 1038
  | DuplicateGetStream => 1039 | Timeout => 1040 | TooManyUserConnections => 1041 | AbortedSession => 1042
  | AbortedQuery => 1043 | NotFoundSession => 1044 | CannotListenerPort => 1045 | BadBytes => 1046
  | InitPrometheusFailure => 1047 | ScalarSubqueryBadRows => 1048 | Overflow => 1049
  | InvalidMetaBinaryFormat => 1050 | AuthenticateFailure => 1051 | TLSConfigurationFailure => 1052
  | UnknownSession => 1053 | UnexpectedError => 1054 | DateTimeParseError => 1055
  | BadPredicateRows => 1056 | SHA1CheckFailed => 1057 | UnknownColumn => 1058
  | InvalidSourceFormat => 1059 | StrParseError => 1060 | IllegalGrant => 1061
  | ManagementModePermissionDenied => 1062 | PermissionDenied => 1063 | UnmarshalError => 1064
  | SemanticError => 1065 | InvalidAuthInfo => 1066 | InvalidTimezone => 1067 | InvalidDate => 1068
  | InvalidTimestamp => 1069 | UnexpectedResponseType => 1066 | UnknownException => 1067
  | TokioError => 1068 | PipelineAreadlyStarted => 1069 | PipelineNotStarted => 1070
  | PipelineUnInitialized => 1071 | HttpNotFound => 1072 | NetworkRequestError => 1073
  | UnknownFormat => 1074 | TenantIsEmpty => 1101 | IndexOutOfBounds => 1102 | LayoutError => 1103
  | MetaServiceError => 2001 | InvalidConfig => 2002 | MetaStorageError => 2003
  | TableVersionMismatched => 2009 | OCCRetryFailure => 2011 | UnknownUser => 2201
  | UserAlreadyExists => 2202 | IllegalUserInfoFormat => 2203 | UnknownRole => 2204
  | IllegalUserSettingFormat => 2205 | DatabaseAlreadyExists => 2301 | TableAlreadyExists => 2302
  | IllegalMetaState => 2304 | MetaNodeInternalError => 2305 | ViewAlreadyExists => 2306
  | ClusterUnknownNode => 2401 | ClusterNodeAlreadyExists => 2402 | UnknownStage => 2501
  | StageAlreadyExists => 2502 | IllegalUserStageFormat => 2503 | IllegalUDFFormat => 2601
  | UnknownUDF => 2602 | UdfAlreadyExists => 2603 | UnknownDatabaseEngine => 2701
  | UnknownTableEngine => 2702 | UnsupportedEngineParams => 2703 | ShareAlreadyExists => 2705
  | UnknownShare => 2706 | UnknownShareId => 2707 | UnknownVariable => 2801 | StorageNotFound => 3001
  | StoragePermissionDenied => 3002 | StorageOther => 4000 | DiskCacheIOError => 4001
  | DiskCacheFileTooLarge => 4002 | DiskCacheFileNotInCache => 4003 | AlreadyStarted => 5001
  | AlreadyStopped => 5002
  end.
Definition all_exceptions : list exception := [
  Ok; UnknownTypeOfQuery; UnImplement; UnknownDatabase; UnknownDatabaseId; SyntaxException; BadArguments;
  IllegalDataType; UnknownFunction; IllegalFunctionState; BadDataValueType; UnknownPlan;
  IllegalPipelineState; BadTransformType; IllegalTransformConnectionState; LogicalError; EmptyData;
  DataStructMissMatch; BadDataArrayLength; UnknownContextID; UnknownTableId; UnknownTableFunction;
  BadOption; CannotReadFile; ParquetError; UnknownTable; IllegalAggregateExp; UnknownAggregateFunction;
  NumberArgumentsNotMatch; NotFoundStream; EmptyDataFromServer; NotFoundLocalNode; PlanScheduleError;
  BadPlanInputs; DuplicateClusterNode; NotFoundClusterNode; BadAddressFormat; DnsParseError;
  CannotConnectNode; DuplicateGetStream; Timeout; TooManyUserConnections; AbortedSession; AbortedQuery;
  NotFoundSession; CannotListenerPort; BadBytes; InitPrometheusFailure; ScalarSubqueryBadRows; Overflow;
  InvalidMetaBinaryFormat; AuthenticateFailure; TLSConfigurationFailure; UnknownSession; UnexpectedError;
  DateTimeParseError; BadPredicateRows; SHA1CheckFailed; UnknownColumn; InvalidSourceFormat; StrParseError;
  IllegalGrant; ManagementModePermissionDenied; PermissionDenied; UnmarshalError; SemanticError;
  InvalidAuthInfo; InvalidTimezone; InvalidDate; InvalidTimestamp; UnexpectedResponseType;
  UnknownException; TokioError; PipelineAreadlyStarted; PipelineNotStarted; PipelineUnInitialized;
  HttpNotFound; NetworkRequestError; UnknownFormat; TenantIsEmpty; IndexOutOfBounds; LayoutError;
  MetaServiceError; InvalidConfig; MetaStorageError; TableVersionMismatched; OCCRetryFailure; UnknownUser;
  UserAlreadyExists; IllegalUserInfoFormat; UnknownRole; IllegalUserSettingFormat; DatabaseAlreadyExists;
  TableAlreadyExists; IllegalMetaState; MetaNodeInternalError; ViewAlreadyExists; ClusterUnknownNode;
  ClusterNodeAlreadyExists; UnknownStage; StageAlreadyExists; IllegalUserStageFormat; IllegalUDFFormat;
  UnknownUDF; UdfAlreadyExists; UnknownDatabaseEngine; UnknownTableEngine; UnsupportedEngineParams;
  ShareAlreadyExists; UnknownShare; UnknownShareId; UnknownVariable; StorageNotFound;
  StoragePermissionDenied; StorageOther; DiskCacheIOError; DiskCacheFileTooLarge; DiskCacheFileNotInCache;
  AlreadyStarted; AlreadyStopped].
End Exc.

(** ** Errors: exception.rs *)
Definition newline : string := String (Ascii.ascii_of_N 10) "".

(** [Origin] carries what [{:?}] prints of the captured backtrace. *)
Inductive ErrorCodeBacktrace := BtSerialized (s : string) | BtOrigin (s : string).
Definition ErrorCodeBacktrace_to_string (b : ErrorCodeBacktrace) : string :=
  match b with BtSerialized s => s | BtOrigin s => s end.

(** [ec_cause] is what [{:?}] prints of the cause. *)
Record ErrorCode := mkErrorCode {
  code : N; display_text : string; ec_cause : option string; ec_backtrace : option ErrorCodeBacktrace }.

Definition ec_message (self : ErrorCode) : string :=
  match ec_cause self with
  | Some cause => display_text self +:+ newline +:+ cause
  | None => display_text self
  end.
Definition add_message (self : ErrorCode) (msg : string) : ErrorCode :=
  mkErrorCode (code self) (msg +:+ newline +:+ display_text self) (ec_cause self) (ec_backtrace self).
Definition add_message_back (self : ErrorCode) (msg : string) : ErrorCode :=
  mkErrorCode (code self) (display_text self +:+ msg) (ec_cause self) (ec_backtrace self).
Definition backtrace_str (self : ErrorCode) : string :=
  match ec_backtrace self with Some x => ErrorCodeBacktrace_to_string x | None => "" end.
Definition ErrorCode_to_string (self : ErrorCode) : string :=
  "Code: " +:+ pretty (code self) +:+ ", displayText = " +:+ ec_message self +:+ ".".
Definition ErrorCode_clone (self : ErrorCode) : ErrorCode :=
  mkErrorCode (code self) (ec_message self) None (ec_backtrace self).

(** What a backtrace looks like, captured where an error of this code and text is made. *)
Class Capture := capture : N → string → string.

Section errors.
Context `{Capture}.

(** The functions that the macro [build_exceptions] generates. *)
Definition exc (e : Exc.exception) (text : string) : ErrorCode :=
  mkErrorCode (Exc.code_of e) text None (Some (BtOrigin (capture (Exc.code_of e) text))).
Definition from_std_error (error : string) : ErrorCode :=
  mkErrorCode 1002 error None (Some (BtOrigin (capture 1002 error))).
Definition map_err_to_code {A} (err_code : string → ErrorCode) (context : string) (r : res any_error A)
    : res ErrorCode A :=
  map_err (λ error, err_code (context +:+ ", cause: " +:+ error)) r.

(** exception_into.rs *)
Definition ErrorCode_from_serde_json (error : any_error) : ErrorCode := from_std_error error.
Definition ErrorCode_from_utf8_error (error : any_error) : ErrorCode :=
  exc Exc.BadBytes ("Bad bytes, cannot parse bytes with UTF8, cause: " +:+ error).
(** [std::io::Error]; the last kind stands for all others, with their text. *)
Inductive IoKind := IoNotFound | IoPermissionDenied | IoOther (text : string).
Record IoErr := mkIoErr { io_kind : IoKind; io_text : string }.
Definition IoKind_to_string (k : IoKind) : string :=
  match k with
  | IoNotFound => "entity not found"
  | IoPermissionDenied => "permission denied"
  | IoOther text => text
  end.
Definition ErrorCode_from_io (error : IoErr) : ErrorCode :=
  let msg := IoKind_to_string (io_kind error) +:+ " (" +:+ io_text error +:+ ")" in
  match io_kind error with
  | IoNotFound => exc Exc.StorageNotFound msg
  | IoPermissionDenied => exc Exc.StoragePermissionDenied msg
  | IoOther _ => exc Exc.StorageOther msg
  end.

(** ** Errors of the meta service *)

(** meta_storage_errors.rs: the messages for end users; the last arms are [Display]. *)
Definition AppError_message (e : AppError) : string :=
  match e with
  | AE_UnknownDatabase e => "Unknown database '" +:+ ud_db_name e +:+ "'"
  | AE_DatabaseAlreadyExists e => "Database '" +:+ dae_db_name e +:+ "' already exists"
  | AE_UnknownTable e => "Unknown table '" +:+ ut_table_name e +:+ "'"
  | AE_TableAlreadyExists e => "Table '" +:+ tae_table_name e +:+ "' already exists"
  | AE_ShareAlreadyExists e => "Share '" +:+ sae_share_name e +:+ "' already exists"
  | AE_UnknownShare e => "Unknown share '" +:+ us_share_name e +:+ "'"
  | AE_UnknownShareId e => "Unknown share id '" +:+ pretty (usi_share_id e) +:+ "'"
  | AE_UnknownTableId e =>
      "UnknownTableId: `" +:+ pretty (uti_table_id e) +:+ "` while `" +:+ uti_context e +:+ "`"
  | AE_UnknownDatabaseId e =>
      "UnknownDatabaseId: `" +:+ pretty (udi_db_id e) +:+ "` while `" +:+ udi_context e +:+ "`"
  | AE_TableVersionMismatched e =>
      "TableVersionMismatched: " +:+ pretty (tvm_table_id e) +:+ " expect `" +:+
      MatchSeq_to_string (tvm_expect e) +:+ "` but `" +:+ pretty (tvm_curr e) +:+ "`  while `" +:+
      tvm_context e +:+ "`"
  end.
Definition ErrorCode_from_app (e : AppError) : ErrorCode :=
  exc match e with
      | AE_UnknownDatabase _ => Exc.UnknownDatabase
      | AE_UnknownDatabaseId _ => Exc.UnknownDatabaseId
      | AE_UnknownTableId _ => Exc.UnknownTableId
      | AE_UnknownTable _ => Exc.UnknownTable
      | AE_DatabaseAlreadyExists _ => Exc.DatabaseAlreadyExists
      | AE_TableAlreadyExists _ => Exc.TableAlreadyExists
      | AE_TableVersionMismatched _ => Exc.TableVersionMismatched
      | AE_ShareAlreadyExists _ => Exc.ShareAlreadyExists
      | AE_UnknownShare _ => Exc.UnknownShare
      | AE_UnknownShareId _ => Exc.UnknownShareId
      end (AppError_message e).

(** The [#[error(..)]] attributes. *)
Definition AppError_to_string (e : AppError) : string :=
  match e with
  | AE_UnknownDatabase e => "UnknownDatabase: `" +:+ ud_db_name e +:+ "` while `" +:+ ud_context e +:+ "`"
  | AE_DatabaseAlreadyExists e =>
      "DatabaseAlreadyExists: `" +:+ dae_db_name e +:+ "` while `" +:+ dae_context e +:+ "`"
  | AE_UnknownTable e => "UnknownTable: `" +:+ ut_table_name e +:+ "` while `" +:+ ut_context e +:+ "`"
  | AE_TableAlreadyExists e => "TableAlreadyExists: " +:+ tae_table_name e +:+ " while " +:+ tae_context e
  | AE_ShareAlreadyExists e => "ShareAlreadyExists: " +:+ sae_share_name e +:+ " while " +:+ sae_context e
  | AE_UnknownShare e => "UnknownShare: " +:+ us_share_name e +:+ " while " +:+ us_context e
  | AE_UnknownShareId e => "UnknownShareID: " +:+ pretty (usi_share_id e) +:+ " while " +:+ usi_context e
  | _ => AppError_message e
  end.
Definition MetaStorageError_to_string (e : MetaStorageError) : string :=
  match e with
  | BytesError s | SerdeError s => s
  | SledError e | Damaged e | SnapshotError e => e
  | TransactionConflict => "Conflict when execute transaction, just retry"
  | MSE_AppError e => AppError_to_string e
  end.
Definition MetaResultError_to_string (e : MetaResultError) : string :=
  match e with
  | InvalidAddResult prev result =>
      "The result of an add operation is invalid: before: " +:+ prev +:+ ", after: " +:+ result
  | InvalidType expect got => "Expect result of type: " +:+ expect +:+ ", got: " +:+ got
  end.
Definition MetaRaftError_to_string (e : MetaRaftError) : string :=
  match e with
  | ForwardToLeader e | ChangeMembershipError e | RaftFatal e => e
  | ConsistentReadError s | ForwardRequestError s | NoLeaderError s | JoinClusterFail s
  | RequestNotForwardToLeaderError s => s
  end.

Definition ErrorCode_from_storage (e : MetaStorageError) : ErrorCode :=
  match e with
  | MSE_AppError app_err => ErrorCode_from_app app_err
  | _ => exc Exc.MetaStorageError (MetaStorageError_to_string e)
  end.
Definition ErrorCode_from_network (net_err : MetaNetworkError) : ErrorCode :=
  match net_err with
  | MNE_BadAddressFormat any_err => exc Exc.BadAddressFormat any_err
  | ConnectionError msg source =>
      exc Exc.CannotConnectNode ("ConnectionError: " +:+ msg +:+ " source: " +:+ source)
  | GetNodeAddrError s => exc Exc.MetaServiceError s
  | TLSConfigError any_err => exc Exc.TLSConfigurationFailure any_err
  | MNE_DnsParseError s => exc Exc.DnsParseError s
  end.
Definition ErrorCode_from_result (e : MetaResultError) : ErrorCode :=
  exc Exc.MetaNodeInternalError (MetaResultError_to_string e).

Definition ErrorCode_from_meta (e : MetaError) : ErrorCode :=
  match e with
  | ME_AppError app_err => ErrorCode_from_app app_err
  | ME_MetaNetworkError net_err => ErrorCode_from_network net_err
  | ME_MetaRaftError e => exc Exc.MetaServiceError (MetaRaftError_to_string e)
  | ME_MetaStorageError e => exc Exc.MetaServiceError (MetaStorageError_to_string e)
  | ME_MetaResultError e => exc Exc.MetaServiceError (MetaResultError_to_string e)
  | InvalidConfig e => exc Exc.MetaServiceError e
  | MetaStoreAlreadyExists e => exc Exc.MetaServiceError ("meta store already exists: " +:+ pretty e)
  | MetaStoreNotFound => exc Exc.MetaServiceError "MetaStoreNotFound"
  | LoadConfigError e => exc Exc.MetaServiceError e
  | StartMetaServiceError e => exc Exc.MetaServiceError e
  | ConcurrentSnapshotInstall e => exc Exc.MetaServiceError e
  | MetaServiceError e => exc Exc.MetaServiceError e
  | IllegalRoleInfoFormat e => exc Exc.MetaServiceError e
  | IllegalUserInfoFormat e => exc Exc.MetaServiceError e
  | ME_SerdeError e => exc Exc.MetaServiceError e
  | EncodeError e => exc Exc.MetaServiceError e
  | Fatal e => exc Exc.MetaServiceError e
  end.
End errors.

(** ** Errors between nodes: exception_into.rs *)
Record SerializedError := mkSerializedError { se_code : N; se_message : string; se_backtrace : string }.
(** The parts of a [tonic::Status] the code uses. *)
Inductive StatusCode := CodeUnknown | CodeOther (n : N).
Record Status := mkStatus { st_code : StatusCode; st_message : string; st_details : bytes }.

(** serde_json on [SerializedError], and [Display] of a status. *)
Class StatusCodec := {
  json_of_serialized : SerializedError → res any_error bytes;
  serialized_of_json : bytes → res any_error SerializedError;
  status_to_string : Status → string;
}.
Class StatusCodecLaws `{StatusCodec} := json_of_serialized_ok se :
  ∃ b, json_of_serialized se = Ok b ∧ b ≠ "" ∧ serialized_of_json b = Ok se.

(** [s.is_char_boundary(n)] and [s.truncate(n)], which panics elsewhere. *)
Definition is_char_boundary (s : string) (n : nat) : bool :=
  match String.get n s with
  | Some c => negb (in_bytes 128 191 c)
  | None => bool_decide (n = String.length s)
  end.
Definition str_truncate {E} (s : string) (n : nat) : res E string :=
  if (n <=? String.length s) then if is_char_boundary s n then Ok (String.substring 0 n s) else Panic
  else Ok s.

Section status.
Context `{Capture, StatusCodec}.

(** [2 * 1024]. *)
Definition backtrace_limit : nat := N.to_nat (2 * 1024).

Definition Status_from (err : ErrorCode) : res ErrorCode Status :=
  let? str := str_truncate (backtrace_str err) backtrace_limit in
  match json_of_serialized (mkSerializedError (code err) (ec_message err) str) with
  | Ok serialized_error_json => Ok (mkStatus CodeUnknown (ec_message err) serialized_error_json)
  | Err error => Ok (mkStatus CodeUnknown error "")
  | Panic => Panic
  end.

Definition ErrorCode_from_status (status : Status) : res ErrorCode ErrorCode :=
  match st_code status with
  | CodeUnknown =>
      if bool_decide (st_details status = "") then Ok (exc Exc.UnknownException (st_message status))
      else
        match serialized_of_json (st_details status) with
        | Err error => Ok (ErrorCode_from_serde_json error)
        | Ok se =>
            if bool_decide (se_backtrace se = "") then Ok (mkErrorCode (se_code se) (se_message se) None None)
            else Ok (mkErrorCode (se_code se) (se_message se) None (Some (BtSerialized (se_backtrace se))))
        | Panic => Panic
        end
  | CodeOther _ => Ok (exc Exc.UnImplement (status_to_string status))
  end.

Lemma from_status `{!StatusCodecLaws} e bt :
  str_truncate (E:=ErrorCode) (backtrace_str e) backtrace_limit = Ok bt →
  (let? st := Status_from e in ErrorCode_from_status st) =
  Ok (mkErrorCode (code e) (ec_message e) None (if bool_decide (bt = "") then None else Some (BtSerialized bt))).
Proof.
  intros Hbt. unfold Status_from. rewrite Hbt. simpl.
  destruct (json_of_serialized_ok (mkSerializedError (code e) (ec_message e) bt)) as (b & Hb & Hne & Hd).
  rewrite Hb. unfold ErrorCode_from_status. simpl. rewrite bool_decide_false by done. rewrite Hd. simpl.
  by case_bool_decide.
Qed.

(** An error sent to another node as a gRPC status arrives with its code and
    message, whenever its backtrace can be cut after 2048 bytes; when the cut falls
    inside a character the conversion panics. *)
Theorem status_roundtrip `{!StatusCodecLaws} e :
  let bt := backtrace_str e in
  if (backtrace_limit <=? String.length bt) && negb (is_char_boundary bt backtrace_limit)
  then Status_from e = Panic
  else ∃ st e', Status_from e = Ok st ∧ ErrorCode_from_status st = Ok e' ∧
         code e' = code e ∧ ec_message e' = ec_message e ∧ ErrorCode_to_string e' = ErrorCode_to_string e.
Proof.
  intros bt.
  assert (∀ s, str_truncate (E:=ErrorCode) bt backtrace_limit = Ok s → ∃ st e', Status_from e = Ok st ∧
    ErrorCode_from_status st = Ok e' ∧ code e' = code e ∧ ec_message e' = ec_message e ∧
    ErrorCode_to_string e' = ErrorCode_to_string e) as Hok.
  { intros s Hs. pose proof (from_status e s Hs) as Hrun. destruct (Status_from e) as [st| |]; [|done..].
    simpl in Hrun. exists st. eexists. by split_and!. }
  unfold str_truncate in Hok. destruct (backtrace_limit <=? String.length bt) eqn:Hlen; [|by eapply Hok].
  destruct (is_char_boundary bt backtrace_limit) eqn:Hb; [by eapply Hok|]. simpl.
  unfold Status_from, str_truncate. fold bt. by rewrite Hlen, Hb.
Qed.
End status.

(** ** The table *)

(** The codes that stand for two exceptions each. *)
Definition shared_codes : list (Exc.exception * Exc.exception) := [
  (Exc.InvalidAuthInfo, Exc.UnexpectedResponseType); (Exc.InvalidTimezone, Exc.UnknownException);
  (Exc.InvalidDate, Exc.TokioError); (Exc.InvalidTimestamp, Exc.PipelineAreadlyStarted)].
(** An exception is found by its code and by whether it is the second of that code. *)
Definition exc_index (e : Exc.exception) : N * bool :=
  (Exc.code_of e,
   match e with
   | Exc.UnexpectedResponseType | Exc.UnknownException | Exc.TokioError | Exc.PipelineAreadlyStarted => true
   | _ => false
   end).
Definition exc_at (i : N * bool) : option Exc.exception :=
  let found := List.filter (λ e, (Exc.code_of e =? i.1)%N) Exc.all_exceptions in
  if i.2 then found !! 1 else found !! 0.
Lemma exc_at_index e : exc_at (exc_index e) = Some e.
Proof. by destruct e; vm_compute. Qed.
#[export] Instance exception_eq_dec : EqDecision Exc.exception.
Proof.
  refine (λ a b, cast_if (decide (exc_index a = exc_index b))).
  - apply (inj Some). by rewrite <-!exc_at_index, e.
  - by intros ->.
Defined.
Lemma all_exceptions_complete e : e ∈ Exc.all_exceptions.
Proof.
  assert (∃ i, List.filter (λ e', (Exc.code_of e' =? Exc.code_of e)%N) Exc.all_exceptions !! i = Some e) as (i & Hi).
  { pose proof (exc_at_index e) as He. unfold exc_at in He. destruct (exc_index e).2; by eexists. }
  apply list_elem_of_lookup_2, list_elem_of_In, List.filter_In in Hi as [Hi _]. by apply list_elem_of_In.
Qed.
Definition codes_check : bool :=
  forallb (λ e1, (Exc.code_of e1 <? 6000)%N && forallb (λ e2,
    negb (Exc.code_of e1 =? Exc.code_of e2)%N || bool_decide (e1 = e2) ||
    bool_decide ((e1, e2) ∈ shared_codes ∨ (e2, e1) ∈ shared_codes)) Exc.all_exceptions) Exc.all_exceptions.

(** Every error code is below 6000, so it fits the [u16] that carries it, and a code
    determines its exception but for the four codes that were assigned twice. *)
Theorem exception_codes e1 e2 :
  (Exc.code_of e1 < 6000)%N ∧
  (Exc.code_of e1 = Exc.code_of e2 ↔
   e1 = e2 ∨ (e1, e2) ∈ shared_codes ∨ (e2, e1) ∈ shared_codes).
Proof.
  assert (codes_check = true) as Hc by by vm_compute. unfold codes_check in Hc. rewrite forallb_forall in Hc.
  destruct (andb_prop _ _ (Hc e1 (proj1 (list_elem_of_In _ _) (all_exceptions_complete e1)))) as [Hlt Hc2].
  nbool. split; [done|]. rewrite forallb_forall in Hc2.
  specialize (Hc2 e2 (proj1 (list_elem_of_In _ _) (all_exceptions_complete e2))).
  rewrite !orb_true_iff, !bool_decide_eq_true in Hc2. nbool. split; [tauto|].
  assert (∀ a b, (a, b) ∈ shared_codes → Exc.code_of a = Exc.code_of b) as Hs.
  { intros a b Hab. repeat (apply elem_of_cons in Hab as [[= -> ->]|Hab]; [done|]). by apply elem_of_nil in Hab. }
  intros [->|[?|?]]; [done|by apply Hs|symmetry; by apply Hs].
Qed.

(** ** Examples *)
Section examples.
#[local] Instance no_backtrace : Capture := λ _ _, "disabled".
#[local] Instance demo_status_codec : StatusCodec := {|
  json_of_serialized se := Ok (plain_encode (se_code se, se_message se, se_backtrace se));
  serialized_of_json b :=
    match plain_decode b with Some (c, m, t) => Ok (mkSerializedError c m t) | None => Err "not an error" end;
  status_to_string := st_message |}.
#[local] Instance demo_status_codec_laws : StatusCodecLaws.
Proof.
  intros [c m t]. eexists. split; [done|]. split; [done|]. simpl. by rewrite plain_decode_encode.
Qed.
Lemma status_roundtrip_example :
  ∃ st e', Status_from (exc Exc.UnknownUser "unknown user u") = Ok st ∧ ErrorCode_from_status st = Ok e' ∧
    code e' = 2201%N ∧ ec_message e' = "unknown user u" ∧
    ErrorCode_to_string e' = "Code: 2201, displayText = unknown user u.".
Proof. exact (status_roundtrip (exc Exc.UnknownUser "unknown user u")). Defined.
End examples.
