(* ===== verification/UserTypes.v ===== *)
(** * Users, roles and what they own (src/common/meta/types/src/user_auth.rs,
    user_info.rs, user_identity.rs, user_quota.rs, role_info.rs, principal_identity.rs,
    user_defined_function.rs, user_stage.rs).

    The records that the managers store, with authentication by password.  The hash
    functions are parameters. *)
From S2P Require Import Prelude MetaTypes UserGrant Exception.

(** ** Authentication: user_auth.rs *)
Inductive AuthType := NoPassword | PlaintextPassword | Sha256Password | DoubleSha1Password | AT_JWT.
Inductive PasswordHashMethod := PlainText | DoubleSha1 | Sha256.
Inductive AuthInfo := AI_None | AI_Password (hash_value : bytes) (hash_method : PasswordHashMethod) | AI_JWT.
#[export] Instance AuthType_eq_dec : EqDecision AuthType.
Proof. solve_decision. Defined.
#[export] Instance PasswordHashMethod_eq_dec : EqDecision PasswordHashMethod.
Proof. solve_decision. Defined.
#[export] Instance AuthInfo_eq_dec : EqDecision AuthInfo.
Proof. solve_decision. Defined.

Definition AuthType_to_str (self : AuthType) : string :=
  match self with
  | NoPassword => "no_password"
  | PlaintextPassword => "plaintext_password"
  | Sha256Password => "sha256_password"
  | DoubleSha1Password => "double_sha1_password"
  | AT_JWT => "jwt"
  end.
Definition bad_auth_types (s : string) : string :=
  let all := ["no_password"; "plaintext_password"; "sha256_password"; "double_sha1_password"; "jwt"] in
  let all := String.concat "|" ((λ s, "'" +:+ s +:+ "'") <$> all) in
  "Expected auth type " +:+ all +:+ ", found: " +:+ s.
Definition get_password_type (self : AuthType) : option PasswordHashMethod :=
  match self with
  | PlaintextPassword => Some PlainText
  | Sha256Password => Some Sha256
  | DoubleSha1Password => Some DoubleSha1
  | _ => None
  end.
Definition get_type (self : AuthInfo) : AuthType :=
  match self with
  | AI_None => NoPassword
  | AI_JWT => AT_JWT
  | AI_Password _ PlainText => PlaintextPassword
  | AI_Password _ Sha256 => Sha256Password
  | AI_Password _ DoubleSha1 => DoubleSha1Password
  end.
Definition get_password (self : AuthInfo) : option bytes :=
  match self with AI_Password p _ => Some p | _ => None end.

(** SHA-1 and SHA-256. *)
Class Hashes := { calc_sha1 : bytes → bytes; sha256 : bytes → bytes }.
Class HashesLaws `{Hashes} := sha1_length v : String.length (calc_sha1 v) = 20.

(** [a[i] ^ b[i]] for every index of [b]. *)
Definition byte_xor (a b : Ascii.ascii) : Ascii.ascii := Ascii.ascii_of_N (N.lxor (byte_of a) (byte_of b)).
Fixpoint bytes_xor (a b : bytes) : bytes :=
  match a, b with
  | String x a, String y b => String (byte_xor x y) (bytes_xor a b)
  | _, _ => ""
  end.

Section auth.
Context `{Capture, Hashes}.

Definition AuthType_from_str (s : string) : res ErrorCode AuthType :=
  if bool_decide (s = "plaintext_password") then Ok PlaintextPassword
  else if bool_decide (s = "sha256_password") then Ok Sha256Password
  else if bool_decide (s = "double_sha1_password") then Ok DoubleSha1Password
  else if bool_decide (s = "no_password") then Ok NoPassword
  else if bool_decide (s = "jwt") then Ok AT_JWT
  else Err (exc Exc.InvalidAuthInfo (bad_auth_types s)).

Definition double_sha1 (v : bytes) : bytes := calc_sha1 (calc_sha1 v).
Definition password_hash (self : PasswordHashMethod) (user_input : bytes) : bytes :=
  match self with
  | PlainText => user_input
  | DoubleSha1 => double_sha1 user_input
  | Sha256 => sha256 user_input
  end.

Definition AuthInfo_new (auth_type : AuthType) (auth_string : option string) : res ErrorCode AuthInfo :=
  match auth_type with
  | NoPassword => Ok AI_None
  | AT_JWT => Ok AI_JWT
  | PlaintextPassword | Sha256Password | DoubleSha1Password =>
      match auth_string with
      | Some p =>
          let? method := unwrap (get_password_type auth_type) in
          Ok (AI_Password (password_hash method p) method)
      | None => Err (exc Exc.InvalidAuthInfo "need password")
      end
  end.
(** [auth_type.map(from_str).transpose()?.unwrap_or(default)]. *)
Definition auth_type_or (auth_type : option string) (dflt : AuthType) : res ErrorCode AuthType :=
  match auth_type with Some s => AuthType_from_str s | None => Ok dflt end.
Definition AuthInfo_create (auth_type auth_string : option string) : res ErrorCode AuthInfo :=
  let? auth_type := auth_type_or auth_type DoubleSha1Password in AuthInfo_new auth_type auth_string.
Definition AuthInfo_alter (self : AuthInfo) (auth_type auth_string : option string) : res ErrorCode AuthInfo :=
  let? new_auth_type := auth_type_or auth_type (get_type self) in AuthInfo_new new_auth_type auth_string.

Definition restore_sha1_mysql (salt input user_password_hash : bytes) : res ErrorCode bytes :=
  let result := calc_sha1 (salt +:+ user_password_hash) in
  if negb (Nat.eqb (String.length input) (String.length result)) then Err (exc Exc.SHA1CheckFailed "SHA1 check failed")
  else Ok (bytes_xor input result).
Definition auth_mysql (self : AuthInfo) (password_input salt : bytes) : res ErrorCode bool :=
  match self with
  | AI_None => Ok true
  | AI_Password p PlainText => Ok (bool_decide (p = password_input))
  | AI_Password p DoubleSha1 =>
      let? password_sha1 := restore_sha1_mysql salt password_input p in
      Ok (bool_decide (p = calc_sha1 password_sha1))
  | AI_Password _ Sha256 =>
      Err (exc Exc.AuthenticateFailure "login with sha256_password user for mysql protocol not supported yet.")
  | AI_JWT => Err (exc Exc.AuthenticateFailure ("user require auth type " +:+ AuthType_to_str (get_type self)))
  end.
End auth.

(** ** Users: user_identity.rs, user_quota.rs, user_info.rs *)
Record UserIdentity := mkUserIdentity { username : string; hostname : string }.
#[export] Instance UserIdentity_eq_dec : EqDecision UserIdentity.
Proof. solve_decision. Defined.

(** [to_lowercase] on the letters of ASCII: no other character has a lower case among the
    letters the result is compared with. *)
Definition lower (c : Ascii.ascii) : Ascii.ascii :=
  if in_bytes 65 90 c then Ascii.ascii_of_N (byte_of c + 32) else c.
Fixpoint to_lowercase (s : string) : string :=
  match s with EmptyString => "" | String c s => String (lower c) (to_lowercase s) end.
Definition is_localhost (self : UserIdentity) : bool :=
  bool_decide (to_lowercase (hostname self) = "localhost") || bool_decide (hostname self = "127.0.0.1").
Definition UserIdentity_to_string (self : UserIdentity) : string :=
  "'" +:+ username self +:+ "'@'" +:+ hostname self +:+ "'".

Record UserQuota := mkUserQuota { max_cpu : N; max_memory_in_bytes : N; max_storage_in_bytes : N }.
Definition no_limit : UserQuota := mkUserQuota 0 0 0.

Inductive UserOptionFlag := TenantSetting | ConfigReload.
Definition option_flag (f : UserOptionFlag) : BitFlags :=
  match f with TenantSetting => N.shiftl 1 0 | ConfigReload => N.shiftl 1 1 end.
Record UserOption := mkUserOption { uo_flags : BitFlags }.
Definition UserOption_default : UserOption := mkUserOption 0.
Definition set_all_flag (self : UserOption) : UserOption :=
  mkUserOption (N.lor (option_flag TenantSetting) (option_flag ConfigReload)).
Definition set_option_flag (self : UserOption) (f : UserOptionFlag) : UserOption :=
  mkUserOption (N.lor (uo_flags self) (option_flag f)).
Definition unset_option_flag (self : UserOption) (f : UserOptionFlag) : UserOption :=
  mkUserOption (N.ldiff (uo_flags self) (option_flag f)).
Definition has_option_flag (self : UserOption) (f : UserOptionFlag) : bool :=
  flags_contains (uo_flags self) (option_flag f).

Record UserInfo := mkUserInfo {
  ui_name : string; ui_hostname : string; ui_auth_info : AuthInfo; ui_grants : UserGrantSet;
  ui_quota : UserQuota; ui_option : UserOption }.
Definition UserInfo_new (name hostname : string) (auth_info : AuthInfo) : UserInfo :=
  mkUserInfo name hostname auth_info ugs_empty no_limit UserOption_default.
Definition new_no_auth (name hostname : string) : UserInfo := UserInfo_new name hostname AI_None.
Definition ui_identity (self : UserInfo) : UserIdentity := mkUserIdentity (ui_name self) (ui_hostname self).
Definition set_ui_grants (self : UserInfo) (g : UserGrantSet) : UserInfo :=
  mkUserInfo (ui_name self) (ui_hostname self) (ui_auth_info self) g (ui_quota self) (ui_option self).
Definition set_ui_auth (self : UserInfo) (a : AuthInfo) : UserInfo :=
  mkUserInfo (ui_name self) (ui_hostname self) a (ui_grants self) (ui_quota self) (ui_option self).
Definition set_ui_option (self : UserInfo) (o : UserOption) : UserInfo :=
  mkUserInfo (ui_name self) (ui_hostname self) (ui_auth_info self) (ui_grants self) (ui_quota self) o.

(** ** Roles and principals: role_info.rs, principal_identity.rs *)
Record RoleInfo := mkRoleInfo { ri_name : string; ri_grants : UserGrantSet }.
Definition RoleInfo_new (name : string) : RoleInfo := mkRoleInfo name ugs_empty.
Definition ri_identity (self : RoleInfo) : string := ri_name self.
Definition set_ri_grants (self : RoleInfo) (g : UserGrantSet) : RoleInfo := mkRoleInfo (ri_name self) g.
Inductive PrincipalIdentity := PI_User (u : UserIdentity) | PI_Role (r : string).

(** ** User defined functions and stages: user_defined_function.rs, user_stage.rs *)
Record UserDefinedFunction := mkUserDefinedFunction {
  udf_name : string; udf_parameters : list string; udf_description : string; udf_definition : string }.

Inductive StageType := Internal | External.
Inductive StageFileCompression := Auto | Gzip | Bz2 | Brotli | Zstd | Deflate | RawDeflate | Lzo | Snappy | NoCompression.
Inductive StageFileFormatType := Csv | Json | Avro | Orc | Parquet | Xml.
Record FileFormatOptions := mkFileFormatOptions {
  ff_format : StageFileFormatType; skip_header : N; field_delimiter : string; record_delimiter : string;
  compression : StageFileCompression }.
Inductive OnErrorMode := OE_None | OE_Continue | OE_SkipFile | OE_SkipFileNum (n : N) | OE_AbortStatement.
Record CopyOptions := mkCopyOptions { on_error : OnErrorMode; size_limit : N }.
Record S3StorageConfig := mkS3StorageConfig {
  s3_region : string; s3_endpoint_url : string; s3_access_key_id : string; s3_secret_access_key : string;
  s3_bucket : string; s3_root : string; s3_master_key : string }.
Inductive StageStorage := S3 (c : S3StorageConfig).
Record StageParams := mkStageParams { storage : StageStorage }.
Record UserStageInfo := mkUserStageInfo {
  stage_name : string; stage_type : StageType; stage_params : StageParams;
  file_format_options : FileFormatOptions; copy_options : CopyOptions; stage_comment : string }.

(** ** Properties of authentication *)
Lemma byte_xor_cancel a b : byte_xor (byte_xor a b) b = a.
Proof.
  unfold byte_xor, byte_of. rewrite Ascii.N_ascii_embedding.
  - by rewrite N.lxor_assoc, N.lxor_nilpotent, N.lxor_0_r, Ascii.ascii_N_embedding.
  - apply (N_lxor_below _ _ 8); apply Ascii.N_ascii_bounded.
Qed.
Lemma bytes_xor_cancel a b : String.length a = String.length b → bytes_xor (bytes_xor a b) b = a.
Proof.
  revert b. induction a as [|x a IH]; intros [|y b] Hl; try done. simpl in *. by rewrite byte_xor_cancel, IH by lia.
Qed.
Lemma bytes_xor_length a b : String.length a = String.length b → String.length (bytes_xor a b) = String.length a.
Proof. revert b. induction a as [|x a IH]; intros [|y b] Hl; try done. simpl in *. by rewrite IH by lia. Qed.

Section auth_props.
Context `{Capture, HashesLaws}.

(** MySQL native authentication: a user created with a password is let in with the
    scramble of that password for the salt of the session; whatever is let in has the
    length of a hash and unscrambles to a preimage of the stored hash, and any other
    input is an error or is refused. *)
Theorem auth_mysql_correct pw salt :
  ∃ stored, AuthInfo_create None (Some pw) = Ok (AI_Password stored DoubleSha1) ∧
    let mask := calc_sha1 (salt +:+ stored) in
    auth_mysql (AI_Password stored DoubleSha1) (bytes_xor (calc_sha1 pw) mask) salt = Ok true ∧
    ∀ input,
      match auth_mysql (AI_Password stored DoubleSha1) input salt with
      | Ok true => ∃ x, input = bytes_xor x mask ∧ String.length x = 20 ∧ calc_sha1 x = calc_sha1 (calc_sha1 pw)
      | Ok false => String.length input = 20 ∧ calc_sha1 (bytes_xor input mask) ≠ stored
      | Err e => code e = 1057%N ∧ String.length input ≠ 20
      | Panic => False
      end.
Proof.
  exists (double_sha1 pw). split; [done|]. simpl. unfold restore_sha1_mysql.
  set (mask := calc_sha1 (salt +:+ double_sha1 pw)). assert (String.length mask = 20) as Hm by apply sha1_length.
  rewrite Hm. split.
  - assert (String.length (calc_sha1 pw) = String.length mask) as Hl by by rewrite Hm, sha1_length.
    rewrite bytes_xor_length, Hl, Hm by done. simpl. rewrite bytes_xor_cancel by done. by rewrite bool_decide_true.
  - intros input. destruct (Nat.eqb _ _) eqn:Hl; simpl.
    + apply Nat.eqb_eq in Hl. case_bool_decide as Hp; [|split; [done|congruence]].
      exists (bytes_xor input mask). rewrite bytes_xor_cancel, bytes_xor_length by by rewrite Hm. done.
    + split; [done|]. by apply Nat.eqb_neq.
Qed.
End auth_props.

(** ** Examples *)
Section examples.
#[local] Instance no_capture : Capture := λ _ _, "".
(** A function with results of the length of a SHA-1 hash. *)
Definition toy_sha1 (v : bytes) : bytes := String.substring 0 20 (v +:+ "01234567890123456789").
#[local] Instance toy_hashes : Hashes := {| calc_sha1 := toy_sha1; sha256 v := v |}.
#[local] Instance toy_hashes_laws : HashesLaws.
Proof.
  intros v. simpl. unfold toy_sha1. assert (∀ n s, n ≤ String.length s → String.length (String.substring 0 n s) = n) as Hs.
  { induction n as [|n IH]; intros [|c s] Hn; simpl in *; [done|done|lia|]. by rewrite IH by lia. }
  apply Hs. rewrite string_app_length. simpl. lia.
Qed.
Lemma auth_mysql_correct_example :
  ∃ stored, AuthInfo_create None (Some "secret") = Ok (AI_Password stored DoubleSha1) ∧
    auth_mysql (AI_Password stored DoubleSha1) (bytes_xor (calc_sha1 "secret") (calc_sha1 ("salt" +:+ stored))) "salt"
      = Ok true.
Proof. destruct (auth_mysql_correct "secret" "salt") as (stored & Hc & Ha & _). by exists stored. Defined.
End examples.
