(* ===== verification/Management.v ===== *)
(** * Managers of users, roles, functions, stages and cluster nodes
    (src/common/management/src, src/common/base/src/base/string_func.rs).

    Each manager keeps the records of one tenant under its own key prefix of the
    key-value interface, in a serialized form.  The code is generic in the
    implementation of [KVApi]. *)
From S2P Require Import Prelude ByteOrder MetaTypes KvApi KeyCodec SchemaApi UserGrant Exception UserTypes.

(** ** Keys: string_func.rs *)

(** The text of a [FromUtf8Error] on the given bytes. *)
Class Utf8ErrorText := utf8_text : bytes → string.

(** The loops are those of [escape] and [unescape]; the results differ. *)
Definition escape_for_key (key : string) : res bytes string :=
  match escape_bytes key with Some new_key => from_utf8 new_key | None => Panic end.
Definition unescape_for_key (key : string) : res bytes string :=
  match unescape_bytes key with Some new_key => from_utf8 new_key | None => Panic end.
(** Slicing off the first [n] bytes, which panics inside a character or past the end. *)
Definition str_from {E} (s : string) (n : nat) : res E string :=
  if is_char_boundary s n then Ok (String.substring n (String.length s - n) s) else Panic.
Definition mask_string {E} (s : string) (unmask_len : nat) : res E string :=
  if String.length s <=? unmask_len then Ok s
  else let? tail := str_from s (String.length s - unmask_len) in Ok ("******" +:+ tail).

(** ** Codecs *)

(** serde_json on a type. *)
Class Json (T : Type) := { to_json : T → res any_error bytes; of_json : bytes → res any_error T }.

Section mgmt.
Context {W : Type} `{KVApi W, Capture, Utf8ErrorText}.
Abbreviation MC A := (M W ErrorCode A).

(** pb_serde.rs *)
Definition pb_serialize_struct {PB T} `{Message PB, FromToProto PB T} (value : T) (err_code : string → ErrorCode)
    (context : string) : res ErrorCode bytes :=
  let? p := map_err_to_code err_code context (to_pb value) in
  map_err_to_code err_code context (msg_encode p).
Definition pb_deserialize_struct {PB T} `{Message PB, FromToProto PB T} (buf : bytes) (err_code : string → ErrorCode)
    (context : string) : res ErrorCode T :=
  let? p := map_err_to_code err_code context (msg_decode buf) in
  map_err_to_code err_code context (from_pb p).

(** The conversions of [?]. *)
Definition kvM {A} (m : M W MetaError A) : MC A := mapErrM ErrorCode_from_meta m.
Definition key_of (s : string) : res ErrorCode string :=
  map_err (λ b, ErrorCode_from_utf8_error (utf8_text b)) (escape_for_key s).
Definition jsonR {A} (r : res any_error A) : res ErrorCode A := map_err ErrorCode_from_serde_json r.

(** ** Users: user_mgr.rs *)
Definition USER_API_KEY_PREFIX : string := "__fd_users".
Record UserMgr := mkUserMgr { user_prefix : string }.
Definition UserMgr_create (tenant : string) : res ErrorCode UserMgr :=
  if bool_decide (tenant = "") then Err (exc Exc.TenantIsEmpty "Tenant can not empty(while user mgr create)")
  else let? t := key_of tenant in Ok (mkUserMgr (USER_API_KEY_PREFIX +:+ "/" +:+ t)).

Definition format_user_key (username hostname : string) : string := "'" +:+ username +:+ "'@'" +:+ hostname +:+ "'".

Section users.
Context {PB : Type} `{Message PB, FromToProto PB UserInfo} (self : UserMgr).

(** [MatchSeq] of an update: any existing record, or the given version. *)
Definition update_seq (seq : option N) : MatchSeq := match seq with None => GE 1 | Some s => Exact s end.

Definition user_record_key (username hostname : string) : res ErrorCode string :=
  let? k := key_of (format_user_key username hostname) in Ok (user_prefix self +:+ "/" +:+ k).
Definition upsert_user_info (user_info : UserInfo) (sq : option N) : MC N :=
  let! key := lift (user_record_key (ui_name user_info) (ui_hostname user_info)) in
  let! value := lift (pb_serialize_struct (PB:=PB) user_info (exc Exc.IllegalUserInfoFormat) "") in
  let! res := kvM (upsert_kv (mkUpsertKVAction key (update_seq sq) (OpUpdate value) None)) in
  match result res with
  | Some v => ret (seq v)
  | None => throw (exc Exc.UnknownUser ("unknown user, or seq not match " +:+ ui_name user_info))
  end.
Definition add_user (user_info : UserInfo) : MC N :=
  let! key := lift (user_record_key (ui_name user_info) (ui_hostname user_info)) in
  let! value := lift (pb_serialize_struct (PB:=PB) user_info (exc Exc.IllegalUserInfoFormat) "") in
  let! reply := kvM (upsert_kv (mkUpsertKVAction key (Exact 0) (OpUpdate value) None)) in
  let! res := lift (map_err ErrorCode_from_result (into_add_result reply)) in
  match ar_res res with
  | OkNew v => ret (seq v)
  | Exists v => throw (exc Exc.UserAlreadyExists ("User already exists, seq [" +:+ pretty (seq v) +:+ "]"))
  end.
Definition get_user (user : UserIdentity) (sq : option N) : MC (SeqV UserInfo) :=
  let user_key := format_user_key (username user) (hostname user) in
  let! key := lift (user_record_key (username user) (hostname user)) in
  let! res := kvM (get_kv key) in
  let! seq_value := lift (ok_or res (exc Exc.UnknownUser ("unknown user " +:+ user_key))) in
  match match_seq_v (MatchSeq_from sq) seq_value with
  | Ok _ =>
      let! u := lift (pb_deserialize_struct (PB:=PB) (data seq_value) (exc Exc.IllegalUserInfoFormat) "") in
      ret (SeqV_new (seq seq_value) u)
  | Err _ => throw (exc Exc.UnknownUser ("unknown user " +:+ user_key))
  | Panic => lift Panic
  end.
Definition get_users : MC (list (SeqV UserInfo)) :=
  let! values := kvM (prefix_list_kv (user_prefix self)) in
  collectM (λ '(_, val),
    let! u := lift (pb_deserialize_struct (PB:=PB) (data val) (exc Exc.IllegalUserInfoFormat) "") in
    ret (SeqV_new (seq val) u)) values.

(** The body shared by the functions that change a user. *)
Definition change_user (user : UserIdentity) (f : UserInfo → UserInfo) (sq : option N) : MC (option N) :=
  let! v := get_user user sq in
  let user_info := f (data v) in
  let! s := upsert_user_info user_info sq in
  ret (Some s).
Definition update_user (user : UserIdentity) (new_auth_info : option AuthInfo) (new_user_option : option UserOption)
    (sq : option N) : MC (option N) :=
  change_user user (λ user_info,
    let user_info := match new_auth_info with Some a => set_ui_auth user_info a | None => user_info end in
    match new_user_option with Some o => set_ui_option user_info o | None => user_info end) sq.
Definition grant_privileges (user : UserIdentity) (object : GrantObject) (privileges : UserPrivilegeSet)
    (sq : option N) : MC (option N) :=
  change_user user (λ u, set_ui_grants u (ugs_grant_privileges (ui_grants u) object privileges)) sq.
Definition revoke_privileges (user : UserIdentity) (object : GrantObject) (privileges : UserPrivilegeSet)
    (sq : option N) : MC (option N) :=
  change_user user (λ u, set_ui_grants u (ugs_revoke_privileges (ui_grants u) object privileges)) sq.
Definition grant_role (user : UserIdentity) (role : string) (sq : option N) : MC (option N) :=
  change_user user (λ u, set_ui_grants u (ugs_grant_role (ui_grants u) role)) sq.
Definition revoke_role (user : UserIdentity) (role : string) (sq : option N) : MC (option N) :=
  change_user user (λ u, set_ui_grants u (ugs_revoke_role (ui_grants u) role)) sq.

Definition drop_user (user : UserIdentity) (sq : option N) : MC unit :=
  let user_key := format_user_key (username user) (hostname user) in
  let! key := lift (user_record_key (username user) (hostname user)) in
  let! res := kvM (upsert_kv (mkUpsertKVAction key (MatchSeq_from sq) OpDelete None)) in
  if opt_is_some (prev res) && negb (opt_is_some (result res)) then ret tt
  else throw (exc Exc.UnknownUser ("unknown user " +:+ user_key)).
End users.

(** ** Roles: role_mgr.rs *)
Definition ROLE_API_KEY_PREFIX : string := "__fd_roles".
Record RoleMgr := mkRoleMgr { role_prefix : string }.
Definition RoleMgr_create (tenant : string) : res ErrorCode RoleMgr :=
  if bool_decide (tenant = "") then Err (exc Exc.TenantIsEmpty "Tenant can not empty(while role mgr create)")
  else Ok (mkRoleMgr (ROLE_API_KEY_PREFIX +:+ "/" +:+ tenant)).

Section roles.
Context `{Json RoleInfo} (self : RoleMgr).

Definition make_role_key (role : string) : string := role_prefix self +:+ "/" +:+ role.
(** [TryFrom<Vec<u8>> for RoleInfo], role_info.rs. *)
Definition RoleInfo_try_from (value : bytes) : res MetaError RoleInfo :=
  map_err (λ serialize_error,
    IllegalRoleInfoFormat ("Cannot deserialize role info from bytes. cause " +:+ serialize_error)) (of_json value).

Definition upsert_role_info (role_info : RoleInfo) (sq : option N) : MC N :=
  let key := make_role_key (ri_identity role_info) in
  let! value := lift (jsonR (to_json role_info)) in
  let! res := kvM (upsert_kv (mkUpsertKVAction key (update_seq sq) (OpUpdate value) None)) in
  match result res with
  | Some v => ret (seq v)
  | None => throw (exc Exc.UnknownRole ("unknown role, or seq not match " +:+ ri_name role_info))
  end.
Definition add_role (role_info : RoleInfo) : MC N :=
  let key := make_role_key (ri_identity role_info) in
  let! value := lift (jsonR (to_json role_info)) in
  let! reply := kvM (upsert_kv (mkUpsertKVAction key (Exact 0) (OpUpdate value) None)) in
  let! res := lift (map_err ErrorCode_from_result (into_add_result reply)) in
  match ar_res res with
  | OkNew v => ret (seq v)
  | Exists v => throw (exc Exc.UserAlreadyExists ("Role already exists, seq [" +:+ pretty (seq v) +:+ "]"))
  end.
Definition get_role (role : string) (sq : option N) : MC (SeqV RoleInfo) :=
  let! res := kvM (get_kv (make_role_key role)) in
  let! seq_value := lift (ok_or res (exc Exc.UnknownRole ("unknown role " +:+ role))) in
  match match_seq_v (MatchSeq_from sq) seq_value with
  | Ok _ => lift (map_err ErrorCode_from_meta (into_seqv RoleInfo_try_from seq_value))
  | Err _ => throw (exc Exc.UnknownRole ("unknown role " +:+ role))
  | Panic => lift Panic
  end.
Definition get_roles : MC (list (SeqV RoleInfo)) :=
  let! values := kvM (prefix_list_kv (role_prefix self)) in
  collectM (λ '(_, val),
    let! u := lift (map_err_to_code (exc Exc.IllegalUserInfoFormat) "" (of_json (data val))) in
    ret (SeqV_new (seq val) u)) values.

Definition change_role (role : string) (f : UserGrantSet → UserGrantSet) (sq : option N) : MC (option N) :=
  let! v := get_role role sq in
  let role_info := set_ri_grants (data v) (f (ri_grants (data v))) in
  let! s := upsert_role_info role_info sq in
  ret (Some s).
Definition role_grant_privileges (role : string) (object : GrantObject) (privileges : UserPrivilegeSet)
    (sq : option N) : MC (option N) := change_role role (λ g, ugs_grant_privileges g object privileges) sq.
Definition role_revoke_privileges (role : string) (object : GrantObject) (privileges : UserPrivilegeSet)
    (sq : option N) : MC (option N) := change_role role (λ g, ugs_revoke_privileges g object privileges) sq.
Definition role_grant_role (role grant_role : string) (sq : option N) : MC (option N) :=
  change_role role (λ g, ugs_grant_role g grant_role) sq.
Definition role_revoke_role (role revoke_role : string) (sq : option N) : MC (option N) :=
  change_role role (λ g, ugs_revoke_role g revoke_role) sq.
Definition drop_role (role : string) (sq : option N) : MC unit :=
  let! res := kvM (upsert_kv (mkUpsertKVAction (make_role_key role) (MatchSeq_from sq) OpDelete None)) in
  if opt_is_some (prev res) && negb (opt_is_some (result res)) then ret tt
  else throw (exc Exc.UnknownRole ("unknown role " +:+ role)).
End roles.

(** ** User defined functions: udf_mgr.rs *)

(** The check of a definition by [UDFParser], and the names of the function factories. *)
Class UdfRules := {
  udf_parse : string → list string → string → res ErrorCode unit;
  is_builtin_function : string → bool;
}.
Definition UDF_API_KEY_PREFIX : string := "__fd_udfs".
Record UdfMgr := mkUdfMgr { udf_prefix : string }.
Definition UdfMgr_create (tenant : string) : res ErrorCode UdfMgr :=
  if bool_decide (tenant = "") then Err (exc Exc.TenantIsEmpty "Tenant can not empty(while udf mgr create)")
  else let? t := key_of tenant in Ok (mkUdfMgr (UDF_API_KEY_PREFIX +:+ "/" +:+ t)).

Section udfs.
Context `{Json UserDefinedFunction, UdfRules} (self : UdfMgr).

Definition udf_record_key (name : string) : res ErrorCode string :=
  let? k := key_of name in Ok (udf_prefix self +:+ "/" +:+ k).
(** [TryFrom<Vec<u8>> for UserDefinedFunction], user_defined_function.rs. *)
Definition UserDefinedFunction_try_from (value : bytes) : res ErrorCode UserDefinedFunction :=
  map_err (λ serialize_error, exc Exc.IllegalUDFFormat
    ("Cannot deserialize user defined function from bytes. cause " +:+ serialize_error)) (of_json value).

Definition add_udf (info : UserDefinedFunction) : MC N :=
  if is_builtin_function (udf_name info) then
    throw (exc Exc.UdfAlreadyExists ("It's a builtin function: " +:+ udf_name info))
  else
    let! _ := lift (udf_parse (udf_name info) (udf_parameters info) (udf_definition info)) in
    let! val := lift (jsonR (to_json info)) in
    let! key := lift (udf_record_key (udf_name info)) in
    let! reply := kvM (upsert_kv (mkUpsertKVAction key (Exact 0) (OpUpdate val) None)) in
    let! res := lift (map_err ErrorCode_from_result (into_add_result reply)) in
    match ar_res res with
    | OkNew v => ret (seq v)
    | Exists v => throw (exc Exc.UdfAlreadyExists ("UDF already exists, seq [" +:+ pretty (seq v) +:+ "]"))
    end.
Definition get_udf (name : string) (sq : option N) : MC (SeqV UserDefinedFunction) :=
  let! key := lift (udf_record_key name) in
  let! res := kvM (get_kv key) in
  let! seq_value := lift (ok_or res (exc Exc.UnknownUDF ("Unknown Function " +:+ name))) in
  match match_seq_v (MatchSeq_from sq) seq_value with
  | Ok _ => lift (into_seqv UserDefinedFunction_try_from seq_value)
  | Err _ => throw (exc Exc.UnknownUDF ("Unknown Function " +:+ name))
  | Panic => lift Panic
  end.
Definition update_udf (info : UserDefinedFunction) (sq : option N) : MC N :=
  if is_builtin_function (udf_name info) then
    throw (exc Exc.UdfAlreadyExists ("Builtin function can not be updated: " +:+ udf_name info))
  else
    let! _ := get_udf (udf_name info) sq in
    let! val := lift (jsonR (to_json info)) in
    let! key := lift (udf_record_key (udf_name info)) in
    let! res := kvM (upsert_kv (mkUpsertKVAction key (MatchSeq_from sq) (OpUpdate val) None)) in
    match result res with
    | Some v => ret (seq v)
    | None => throw (exc Exc.UnknownUDF ("Unknown Function, or seq not match " +:+ udf_name info))
    end.
Definition get_udfs : MC (list UserDefinedFunction) :=
  let! values := kvM (prefix_list_kv (udf_prefix self)) in
  collectM (λ '(_, value), lift (jsonR (of_json (data value)))) values.
Definition drop_udf (name : string) (sq : option N) : MC unit :=
  let! key := lift (udf_record_key name) in
  let! res := kvM (upsert_kv (mkUpsertKVAction key (MatchSeq_from sq) OpDelete None)) in
  if opt_is_some (prev res) && negb (opt_is_some (result res)) then ret tt
  else throw (exc Exc.UnknownUDF ("Unknown Function " +:+ name)).
End udfs.

(** ** Stages: stage_mgr.rs *)
Definition USER_STAGE_API_KEY_PREFIX : string := "__fd_stages".
Record StageMgr := mkStageMgr { stage_prefix : string }.
Definition StageMgr_create (tenant : string) : res ErrorCode StageMgr :=
  if bool_decide (tenant = "") then Err (exc Exc.TenantIsEmpty "Tenant can not empty(while role mgr create)")
  else let? t := key_of tenant in Ok (mkStageMgr (USER_STAGE_API_KEY_PREFIX +:+ "/" +:+ t)).

Section stages.
Context {PB : Type} `{Message PB, FromToProto PB UserStageInfo} (self : StageMgr).

Definition stage_record_key (name : string) : res ErrorCode string :=
  let? k := key_of name in Ok (stage_prefix self +:+ "/" +:+ k).
Definition add_stage (info : UserStageInfo) : MC N :=
  let! val := lift (pb_serialize_struct (PB:=PB) info (exc Exc.IllegalUserStageFormat) "") in
  let! key := lift (stage_record_key (stage_name info)) in
  let! reply := kvM (upsert_kv (mkUpsertKVAction key (Exact 0) (OpUpdate val) None)) in
  let! res := lift (map_err ErrorCode_from_result (into_add_result reply)) in
  match ar_res res with
  | OkNew v => ret (seq v)
  | Exists v => throw (exc Exc.StageAlreadyExists ("Stage already exists, seq [" +:+ pretty (seq v) +:+ "]"))
  end.
Definition get_stage (name : string) (sq : option N) : MC (SeqV UserStageInfo) :=
  let! key := lift (stage_record_key name) in
  let! res := kvM (get_kv key) in
  let! seq_value := lift (ok_or res (exc Exc.UnknownStage ("Unknown stage " +:+ name))) in
  match match_seq_v (MatchSeq_from sq) seq_value with
  | Ok _ =>
      let! i := lift (pb_deserialize_struct (PB:=PB) (data seq_value) (exc Exc.IllegalUserStageFormat) "") in
      ret (SeqV_new (seq seq_value) i)
  | Err _ => throw (exc Exc.UnknownStage ("Unknown stage " +:+ name))
  | Panic => lift Panic
  end.
Definition get_stages : MC (list UserStageInfo) :=
  let! values := kvM (prefix_list_kv (stage_prefix self)) in
  collectM (λ '(_, value),
    lift (pb_deserialize_struct (PB:=PB) (data value) (exc Exc.IllegalUserStageFormat) "")) values.
Definition drop_stage (name : string) (sq : option N) : MC unit :=
  let! key := lift (stage_record_key name) in
  let! res := kvM (upsert_kv (mkUpsertKVAction key (MatchSeq_from sq) OpDelete None)) in
  if opt_is_some (prev res) && negb (opt_is_some (result res)) then ret tt
  else throw (exc Exc.UnknownStage ("Unknown stage " +:+ name)).
End stages.

(** ** Cluster nodes: cluster_mgr.rs *)
Definition CLUSTER_API_KEY_PREFIX : string := "__fd_clusters".
(** The life time of a node, in nanoseconds. *)
Record ClusterMgr := mkClusterMgr { lift_time : N; cluster_prefix : string }.
Definition ClusterMgr_create (tenant cluster_id : string) (lift_time : N) : res ErrorCode ClusterMgr :=
  if bool_decide (tenant = "") then Err (exc Exc.TenantIsEmpty "Tenant can not empty(while cluster mgr create)")
  else
    let? t := key_of tenant in
    let? c := key_of cluster_id in
    Ok (mkClusterMgr lift_time (CLUSTER_API_KEY_PREFIX +:+ "/" +:+ t +:+ "/" +:+ c +:+ "/databend_query")).

Section cluster.
Context `{Json NodeInfo} (self : ClusterMgr).

(** [now] is the time since the epoch in nanoseconds. *)
Definition new_lift_time (now : N) : KVMeta := mkKVMeta (Some ((now + lift_time self) / 10 ^ 9)%N).
Definition node_record_key (id : string) : res ErrorCode string :=
  let? k := key_of id in Ok (cluster_prefix self +:+ "/" +:+ k).
Definition add_node (now : N) (node : NodeInfo) : MC N :=
  let meta := Some (new_lift_time now) in
  let! value := lift (jsonR (to_json node)) in
  let! node_key := lift (node_record_key (ni_id node)) in
  let! reply := kvM (upsert_kv (mkUpsertKVAction node_key (Exact 0) (OpUpdate value) meta)) in
  let! res := lift (map_err ErrorCode_from_result (into_add_result reply)) in
  match ar_res res with
  | OkNew v => ret (seq v)
  | Exists v =>
      throw (exc Exc.ClusterNodeAlreadyExists ("Cluster ID already exists, seq [" +:+ pretty (seq v) +:+ "]"))
  end.
(** The body of the loop of [get_nodes]: the id is taken from the unescaped key, after
    as many bytes as the escaped prefix has. *)
Definition node_of_record (node_key : string) (value : SeqV bytes) : res ErrorCode NodeInfo :=
  let? node_info := jsonR (of_json (data value)) in
  let? node_key := map_err (λ b, ErrorCode_from_utf8_error (utf8_text b)) (unescape_for_key node_key) in
  let? id := str_from node_key (String.length (cluster_prefix self) + 1) in
  Ok (mkNodeInfo id (cpu_nums node_info) (version node_info) (flight_address node_info)).
Definition get_nodes : MC (list NodeInfo) :=
  let! values := kvM (prefix_list_kv (cluster_prefix self)) in
  collectM (λ '(node_key, value), lift (node_of_record node_key value)) values.
(** [str_debug] is [{:?}] of a string. *)
Definition cluster_drop_node (str_debug : string → string) (node_id : string) (sq : option N) : MC unit :=
  let! node_key := lift (node_record_key node_id) in
  let! reply := kvM (upsert_kv (mkUpsertKVAction node_key (MatchSeq_from sq) OpDelete None)) in
  match ident reply, prev reply, result reply with
  | None, Some _, None => ret tt
  | _, _, _ => throw (exc Exc.ClusterUnknownNode ("unknown node " +:+ str_debug node_id))
  end.
(** [now] and [now_add] are the readings of the clock here and in [add_node]. *)
Definition heartbeat (now now_add : N) (node : NodeInfo) (sq : option N) : MC N :=
  let meta := Some (new_lift_time now) in
  let! node_key := lift (node_record_key (ni_id node)) in
  let! reply := kvM (upsert_kv (mkUpsertKVAction node_key (update_seq sq) OpAsIs meta)) in
  match ident reply, prev reply, result reply with
  | None, Some _, Some v => ret (seq v)
  | _, _, _ => add_node now_add node
  end.
End cluster.
End mgmt.
