(* ===== verification/Dir.v ===== *)
(** * Directories: records kept under computed keys of a key-value store.

    A client of the key-value interface that keeps one value under the key of each name
    works on a directory, a finite map from names to versioned values.  The lemmas run
    reads and conditional writes of single records on directories; they are shared by the
    managers of users, roles, functions and stages. *)
From S2P Require Import Prelude ByteOrder MetaTypes KvApi Exception Management.

Record dir (K V : Type) `{Countable K} := mkDir { d_recs : gmap K (N * V); d_seq : N }.
Arguments mkDir {K V _ _} d_recs d_seq.
Arguments d_recs {K V _ _} d.
Arguments d_seq {K V _ _} d.

Section spec.
Context {K V : Type} `{Countable K}.
Implicit Types (d : dir K V) (k : K) (v : V).

Definition dir_put d k v : dir K V := mkDir (<[k:=((d_seq d + 1)%N, v)]> (d_recs d)) (d_seq d + 1).
Definition dir_del d k : dir K V := mkDir (base.delete k (d_recs d)) (d_seq d).
(** The record of a name, if it has the wanted version. *)
Definition dir_get d k (sq : option N) : option (N * V) :=
  match d_recs d !! k with
  | Some (n, v) => if seq_matches (MatchSeq_from sq) n then Some (n, v) else None
  | None => None
  end.

Lemma dir_del_absent d k : d_recs d !! k = None → dir_del d k = d.
Proof. intros Hk. unfold dir_del. rewrite delete_id by done. by destruct d. Qed.

(** [add]: fails with the version of the record that is there. *)
Definition spec_add d k v (exists_err : N → ErrorCode) : res ErrorCode N * dir K V :=
  match d_recs d !! k with
  | Some (n, _) => (Err (exists_err n), d)
  | None => (Ok (d_seq d + 1)%N, dir_put d k v)
  end.
(** [get]. *)
Definition spec_get {A} d k sq (f : N → V → A) (unknown : ErrorCode) : res ErrorCode A :=
  match dir_get d k sq with Some (n, v) => Ok (f n v) | None => Err unknown end.
(** An update of an existing record. *)
Definition spec_change d k sq (f : V → V) (unknown : ErrorCode) : res ErrorCode (option N) * dir K V :=
  match dir_get d k sq with
  | Some (_, v) => (Ok (Some (d_seq d + 1)%N), dir_put d k (f v))
  | None => (Err unknown, d)
  end.
Definition spec_drop d k sq (unknown : ErrorCode) : res ErrorCode unit * dir K V :=
  match dir_get d k sq with
  | Some _ => (Ok tt, dir_del d k)
  | None => (Err unknown, d)
  end.
End spec.

(** ** Representation *)
Section repr.
Context {K V : Type} `{Countable K} (kkey : K → string) (k_ok : K → Prop) (stands : K → V → bytes → Prop).
Context (listed : string → Prop).
Context (kkey_inj : ∀ k1 k2, k_ok k1 → k_ok k2 → kkey k1 = kkey k2 → k1 = k2).
Context (kkey_utf8 : ∀ k, k_ok k → utf8_valid (kkey k) = true).
Implicit Types (d : dir K V) (k : K) (v : V).

(** Every record of the directory, and no other of its keys, is in the store. *)
Record dir_repr (st : kv_store) d : Prop := {
  dr_seq : last_seq st = d_seq d;
  dr_rec k : k_ok k →
    match d_recs d !! k with
    | Some (n, v) => ∃ b, kv st !! kkey k = Some (mkSeqV n None b) ∧ (0 < n)%N ∧ stands k v b
    | None => kv st !! kkey k = None
    end;
  dr_ok k r : d_recs d !! k = Some r → k_ok k;
  dr_listed s sv : kv st !! s = Some sv → listed s → ∃ k, k_ok k ∧ s = kkey k;
}.

Lemma dir_repr_same st st' d : dir_repr st d → kv st' = kv st → last_seq st' = last_seq st → dir_repr st' d.
Proof. intros [Hs Hr Hk Hli] Hkv Hl. split; rewrite ?Hkv, ?Hl; auto. Qed.
Lemma dir_repr_put st st' d k v b :
  dir_repr st d → k_ok k → stands k v b →
  kv st' = <[kkey k:=mkSeqV (d_seq d + 1)%N None b]> (kv st) → last_seq st' = (d_seq d + 1)%N →
  dir_repr st' (dir_put d k v).
Proof.
  intros [Hs Hr Hk Hli] Hok Hst Hkv Hl. split; [done|..].
  - intros k' Hok'. simpl. rewrite Hkv. destruct (decide (k = k')) as [<-|Hne].
    + rewrite !lookup_insert_eq. exists b. split_and!; [done|lia|done].
    + rewrite !lookup_insert_ne; [by apply Hr|by intros ?%kkey_inj|done].
  - intros k' r. simpl. rewrite lookup_insert_Some. intros [[<- _]|[_ Hr']]; eauto.
  - intros s sv. rewrite Hkv, lookup_insert_Some. intros [[<- _]|[_ Hsv]]; eauto.
Qed.
Lemma dir_repr_del st st' d k :
  dir_repr st d → k_ok k → kv st' = base.delete (kkey k) (kv st) → last_seq st' = last_seq st →
  dir_repr st' (dir_del d k).
Proof.
  intros [Hs Hr Hk Hli] Hok Hkv Hl. split; [simpl; congruence|..].
  - intros k' Hok'. simpl. rewrite Hkv. destruct (decide (k = k')) as [<-|Hne].
    + by rewrite !lookup_delete_eq.
    + rewrite !lookup_delete_ne; [by apply Hr|by intros ?%kkey_inj|done].
  - intros k' r. simpl. rewrite lookup_delete_Some. intros [_ Hr']; eauto.
  - intros s sv. rewrite Hkv, lookup_delete_Some. intros [_ Hsv]; eauto.
Qed.

(** ** Running code on directories *)
Context {W : Type} `{!KVApi W, !Clock, !ClockLaws} (R : W → kv_store → Prop) `{!KVApiLaws W R} `{!Capture}.

Definition dirR (w : W) d : Prop := ∃ st, R w st ∧ dir_repr st d.

Lemma dir_kv_get st d k :
  dir_repr st d → k_ok k →
  (kv_get st (kkey k)).1 = kv st !! kkey k ∧ dir_repr (kv_get st (kkey k)).2 d ∧
  kv (kv_get st (kkey k)).2 = kv st ∧ last_seq (kv_get st (kkey k)).2 = last_seq st.
Proof.
  intros Hr Hok. unfold kv_get. pose proof (dr_rec _ _ Hr k Hok) as Hk.
  destruct (d_recs d !! k) as [[n v]|]; [destruct Hk as (b & -> & _)|rewrite Hk]; simpl.
  - split_and!; [by apply live_immortal|by apply (dir_repr_same st)|done|done].
  - done.
Qed.

(** A read, followed by code that depends on the meaning of the record only. *)
Lemma runs_dir_get {A} k d (f : option (SeqV bytes) → M W ErrorCode A) r :
  k_ok k →
  match d_recs d !! k with
  | Some (n, v) => ∀ b, (0 < n)%N → stands k v b → runs dirR (f (Some (mkSeqV n None b))) d r d
  | None => runs dirR (f None) d r d
  end →
  runs dirR (let! o := kvM (get_kv (kkey k)) in f o) d r d.
Proof.
  intros Hok Hf w (st & Hw & Hr).
  destruct (runs_map_err _ ErrorCode_from_meta _ _ _ _ (get_kv_ok (kkey k) st (kkey_utf8 k Hok)) w Hw) as (w1 & Hget & Hw1).
  destruct (dir_kv_get st d k Hr Hok) as (Hv & Hr1 & _). rewrite Hv in Hget.
  unfold kvM. rewrite (bind_ok _ _ _ _ _ Hget). pose proof (dr_rec _ _ Hr k Hok) as Hk.
  destruct (d_recs d !! k) as [[n v]|]; [destruct Hk as (b & -> & Hpos & Hst)|rewrite Hk].
  - apply (Hf b); [done..|]. by eexists.
  - apply Hf. by eexists.
Qed.

(** What a write does once its condition holds. *)
Definition written d k (op : Operation bytes) (v : option V) : option (SeqV bytes) * dir K V :=
  match op, v with
  | OpUpdate b, Some v => (Some (mkSeqV (d_seq d + 1)%N None b), dir_put d k v)
  | _, _ => (None, dir_del d k)
  end.
Definition op_stands k (op : Operation bytes) (v : option V) : Prop :=
  match op, v with
  | OpUpdate b, Some v => stands k v b
  | OpDelete, None => True
  | _, _ => False
  end.

Lemma dir_kv_upsert st d k ms op (v : option V) :
  dir_repr st d → k_ok k → op_stands k op v → (d_seq d + 1 < u64_modulus)%N →
  let prev := kv st !! kkey k in
  if seq_matches ms (opt_seq prev)
  then ∃ st', kv_upsert st (kkey k) ms op None = (prev, (written d k op v).1, st') ∧ dir_repr st' (written d k op v).2
  else ∃ st', kv_upsert st (kkey k) ms op None = (prev, prev, st') ∧ dir_repr st' d.
Proof.
  intros Hr Hok Hop Hroom prev. destruct (dir_kv_get st d k Hr Hok) as (Hv & Hr1 & Hkv & Hl).
  unfold kv_upsert. destruct (kv_get st (kkey k)) as [o st1]. simpl in *. subst o. fold prev.
  destruct (seq_matches ms (opt_seq prev)); [|by exists st1].
  pose proof (dr_seq _ _ Hr1) as Hseq. destruct op as [b| |], v as [v|]; try done; simpl.
  - eexists. unfold last_seq in Hseq. split; [by rewrite Hseq, u64_add_small|].
    apply (dir_repr_put st1 _ d k v b); [done|done|done|by rewrite <-(u64_add_small (d_seq d) 1), <-Hseq by done|].
    rewrite <-(u64_add_small (d_seq d) 1) by done. rewrite <-Hseq. apply (kv_put_last st1 (kkey k) None b).
  - eexists. split; [done|]. by apply (dir_repr_del st1).
Qed.

Lemma runs_dir_upsert {A} k d ms op (v : option V) (f : Change bytes N → M W ErrorCode A) r d' :
  k_ok k → op_stands k op v → (d_seq d + 1 < u64_modulus)%N →
  match d_recs d !! k with
  | Some (n, _) => ∀ b, (0 < n)%N →
      let p := Some (mkSeqV n None b) in
      if seq_matches ms n then runs dirR (f (Change_new p (written d k op v).1)) (written d k op v).2 r d'
      else runs dirR (f (Change_new p p)) d r d'
  | None =>
      if seq_matches ms 0 then runs dirR (f (Change_new None (written d k op v).1)) (written d k op v).2 r d'
      else runs dirR (f (Change_new None None)) d r d'
  end →
  runs dirR (let! o := kvM (upsert_kv (mkUpsertKVAction (kkey k) ms op None)) in f o) d r d'.
Proof.
  intros Hok Hop Hroom Hf w (st & Hw & Hr).
  pose proof (upsert_kv_ok (mkUpsertKVAction (kkey k) ms op None) st (kkey_utf8 k Hok)) as Hrun. simpl in Hrun.
  pose proof (dir_kv_upsert st d k ms op v Hr Hok Hop Hroom) as Hup. simpl in Hup.
  pose proof (dr_rec _ _ Hr k Hok) as Hk. unfold kvM.
  destruct (d_recs d !! k) as [[n v0]|]; [destruct Hk as (b & Hkv & Hpos & _); specialize (Hf b Hpos)|rename Hk into Hkv];
    rewrite Hkv in Hup; simpl in Hup; destruct (seq_matches ms _); destruct Hup as (st' & Heq & Hr'); rewrite Heq in Hrun;
    destruct (runs_map_err _ ErrorCode_from_meta _ _ _ _ Hrun w Hw) as (w1 & Hw1 & HR); rewrite (bind_ok _ _ _ _ _ Hw1);
    apply Hf; by eexists.
Qed.

(** ** Listings *)

(** The records by their string keys, and those under a prefix in key order. *)
Definition dir_strings d : gmap string (K * (N * V)) :=
  list_to_map ((λ '(k, r), (kkey k, (k, r))) <$> map_to_list (d_recs d)).
Definition dir_list d (p : string) : list (K * (N * V)) := (list_prefix (dir_strings d) p).*2.

Lemma lookup_dir_strings d s k r :
  (∀ k r, d_recs d !! k = Some r → k_ok k) →
  dir_strings d !! s = Some (k, r) ↔ s = kkey k ∧ d_recs d !! k = Some r.
Proof.
  intros Hok. unfold dir_strings. rewrite <-elem_of_list_to_map.
  - rewrite list_elem_of_fmap. split.
    + intros ([k' r'] & [= -> -> ->] & Hin%elem_of_map_to_list). done.
    + intros [-> Hr]. exists (k, r). split; [done|]. by apply elem_of_map_to_list.
  - rewrite <-list_fmap_compose.
    assert ((fst ∘ (λ '(k, r), (kkey k, (k, r)))) <$> map_to_list (d_recs d) = kkey <$> (map_to_list (d_recs d)).*1) as ->.
    { rewrite <-list_fmap_compose. apply list_fmap_ext. by intros ? [? ?]. }
    apply NoDup_fmap_2_strong; [|apply NoDup_fst_map_to_list].
    intros k1 k2 ([? r1] & -> & E1%elem_of_map_to_list)%list_elem_of_fmap ([? r2] & -> & E2%elem_of_map_to_list)%list_elem_of_fmap.
    simpl. apply kkey_inj; eauto.
Qed.

Lemma elem_of_dir_list d p k r :
  (∀ k r, d_recs d !! k = Some r → k_ok k) →
  (k, r) ∈ dir_list d p ↔ d_recs d !! k = Some r ∧ String.prefix p (kkey k) = true.
Proof.
  intros Hok. unfold dir_list. rewrite list_elem_of_fmap. split.
  - intros ([s [k' r']] & [= <- <-] & [Hs Hp]%elem_of_list_prefix). simpl in Hp.
    by apply lookup_dir_strings in Hs as [-> Hs].
  - intros [Hr Hp]. exists (kkey k, (k, r)). split; [done|]. apply elem_of_list_prefix. split; [|done].
    by apply lookup_dir_strings.
Qed.

(** A stored record next to the record of the directory it stands for. *)
Definition listed_as (a : string * SeqV bytes) (b : K * (N * V)) : Prop :=
  a.1 = kkey b.1 ∧ seq a.2 = b.2.1 ∧ meta a.2 = None ∧ stands b.1 b.2.2 (data a.2).

Lemma dir_repr_list st d p :
  dir_repr st d → (∀ s, String.prefix p s = true → listed s) →
  Forall2 listed_as (list_prefix (kv st) p) (dir_list d p).
Proof.
  intros Hr Hp. unfold dir_list. rewrite <-(list_fmap_id (list_prefix (kv st) p)). apply Forall2_fmap.
  eapply Forall2_impl; [apply (list_prefix_rel (λ s sv b, listed_as (s, sv) b))|].
  - intros s Hs. destruct (kv st !! s) as [sv|] eqn:Hv.
    + destruct (dr_listed _ _ Hr s sv Hv (Hp s Hs)) as (k & Hk & ->).
      pose proof (dr_rec _ _ Hr k Hk) as Hrec. destruct (d_recs d !! k) as [[n v]|] eqn:Hd; [|congruence].
      destruct Hrec as (b & Hb & _ & Hst). rewrite Hb in Hv. injection Hv as <-.
      rewrite (proj2 (lookup_dir_strings d (kkey k) k (n, v) (dr_ok _ _ Hr))) by done. by constructor.
    + destruct (dir_strings d !! s) as [[k [n v]]|] eqn:Hd; [|constructor].
      apply lookup_dir_strings in Hd as [-> Hd]; [|apply (dr_ok _ _ Hr)].
      pose proof (dr_rec _ _ Hr k (dr_ok _ _ Hr _ _ Hd)) as Hrec. rewrite Hd in Hrec.
      destruct Hrec as (b & Hb & _). congruence.
  - by intros [s sv] [s' b] [_ Hl].
Qed.

Lemma runs_dir_list {A} p d (f : list (string * SeqV bytes) → M W ErrorCode A) r :
  (∀ s, String.prefix p s = true → listed s) →
  (∀ l, Forall2 listed_as l (dir_list d p) → runs dirR (f l) d r d) →
  runs dirR (let! l := kvM (prefix_list_kv p) in f l) d r d.
Proof.
  intros Hp Hf w (st & Hw & Hr).
  destruct (runs_map_err _ ErrorCode_from_meta _ _ _ _ (prefix_list_kv_ok p st) w Hw) as (w1 & Hl & Hw1).
  unfold kvM. rewrite (bind_ok _ _ _ _ _ Hl). pose proof (dir_repr_list st d p Hr Hp) as Hall. unfold kv_list in *.
  destruct (kv_live_list_immortal st (list_prefix (kv st) p)) as (Heq & Hkv & Hls).
  { apply Forall_forall. intros [s sv] (i & Hi)%list_elem_of_lookup.
    destruct (Forall2_lookup_l _ _ _ _ _ Hall Hi) as (b & _ & _ & _ & Hm & _). unfold immortal, get_expire_at.
    simpl in *. by rewrite Hm. }
  rewrite Heq in *. apply Hf; [done|]. eexists. split; [done|]. by eapply dir_repr_same.
Qed.
End repr.
