(* ===== verification/MgmtSpec.v ===== *)
(** * Specification of the managers.

    The records of users, roles, functions and stages of all tenants form one directory
    (Dir.v).  Each operation of a manager is shown to act on the single record it names, so
    that records of other kinds and of other tenants are left alone. *)
From S2P Require Import Prelude ByteOrder MetaTypes KvApi KeyCodec SchemaApi SchemaSpec UserGrant Exception UserTypes.
From S2P Require Import Management Dir.

(** ** Codec laws *)
Class JsonLaws (T : Type) `{Json T} := json_roundtrip (v : T) : ∃ b, to_json v = Ok b ∧ of_json b = Ok v.
Class AllStorable (PB T : Type) `{StructLaws PB T} := all_storable (v : T) : storable (PB:=PB) v.

Lemma pb_roundtrip {PB T} `{AllStorable PB T} (v : T) :
  ∃ b, (∀ f c, pb_serialize_struct (PB:=PB) v f c = Ok b) ∧
       (∀ f c, pb_deserialize_struct (PB:=PB) (T:=T) b f c = Ok v).
Proof.
  destruct (struct_roundtrip v (all_storable v)) as (b & Hs & Hd). exists b.
  unfold serialize_struct, deserialize_struct in *. unfold pb_serialize_struct, pb_deserialize_struct, map_err_to_code.
  split; intros f c.
  - destruct (to_pb v) as [p| |]; try done. simpl in *. by destruct (msg_encode p); simplify_eq/=.
  - destruct (msg_decode b) as [p| |]; try done. simpl in *. by destruct (from_pb p); simplify_eq/=.
Qed.

(** ** Keys *)
Inductive mgmt_key := MUser (t k : string) | MRole (t k : string) | MUdf (t k : string) | MStage (t k : string).
#[export] Instance mgmt_key_eq_dec : EqDecision mgmt_key.
Proof. solve_decision. Defined.
#[export] Instance mgmt_key_countable : Countable mgmt_key.
Proof.
  refine (inj_countable'
    (λ k, match k with MUser t k => (0, t, k) | MRole t k => (1, t, k) | MUdf t k => (2, t, k)
          | MStage t k => (3, t, k) end)%N
    (λ '(n, t, k), match n with 0 => MUser t k | 1 => MRole t k | 2 => MUdf t k | _ => MStage t k end)%N _).
  by intros [].
Defined.

Definition user_pfx (t : string) : string := USER_API_KEY_PREFIX +:+ "/" +:+ escape t.
Definition role_pfx (t : string) : string := ROLE_API_KEY_PREFIX +:+ "/" +:+ t.
Definition udf_pfx (t : string) : string := UDF_API_KEY_PREFIX +:+ "/" +:+ escape t.
Definition stage_pfx (t : string) : string := USER_STAGE_API_KEY_PREFIX +:+ "/" +:+ escape t.
Definition mgmt_to_key (k : mgmt_key) : string :=
  match k with
  | MUser t k => user_pfx t +:+ "/" +:+ escape k
  | MRole t k => role_pfx t +:+ "/" +:+ k
  | MUdf t k => udf_pfx t +:+ "/" +:+ escape k
  | MStage t k => stage_pfx t +:+ "/" +:+ escape k
  end.
(** Names of tenants and roles are not escaped in the keys of roles. *)
Definition mgmt_key_ok (k : mgmt_key) : Prop :=
  match k with
  | MRole t k =>
      utf8_valid t = true ∧ utf8_valid k = true ∧ str_all (λ x, negb (bool_decide (x = slash))) t = true
  | _ => True
  end.
Definition mgmt_segments (k : mgmt_key) : list string :=
  match k with
  | MUser t k => [USER_API_KEY_PREFIX; escape t; escape k]
  | MRole t k => ROLE_API_KEY_PREFIX :: t :: split_on slash k
  | MUdf t k => [UDF_API_KEY_PREFIX; escape t; escape k]
  | MStage t k => [USER_STAGE_API_KEY_PREFIX; escape t; escape k]
  end.

Lemma mgmt_key_segments k : mgmt_key_ok k → split_on slash (mgmt_to_key k) = mgmt_segments k.
Proof.
  intros Hok. destruct k as [t k|t k|t k|t k]; cbn [mgmt_to_key mgmt_segments];
    unfold user_pfx, role_pfx, udf_pfx, stage_pfx; rewrite !string_app_assoc.
  2: { destruct Hok as (_ & _ & Hs). by rewrite !split_on_segments. }
  all: rewrite !split_on_segments by eauto with segments; by rewrite split_on_no_sep by eauto with segments.
Qed.
Lemma mgmt_to_key_inj k1 k2 : mgmt_key_ok k1 → mgmt_key_ok k2 → mgmt_to_key k1 = mgmt_to_key k2 → k1 = k2.
Proof.
  intros H1 H2 Heq. apply (f_equal (split_on slash)) in Heq. rewrite !mgmt_key_segments in Heq by done.
  destruct k1 as [t1 k1|t1 k1|t1 k1|t1 k1], k2 as [t2 k2|t2 k2|t2 k2|t2 k2]; simpl in Heq; try done.
  2: { injection Heq as -> Hk%split_on_inj. by subst. }
  all: injection Heq as Ht%escape_inj Hk%escape_inj; by subst.
Qed.
Lemma mgmt_to_key_utf8 k : mgmt_key_ok k → utf8_valid (mgmt_to_key k) = true.
Proof.
  destruct k as [t k|t k|t k|t k]; simpl.
  2: { intros (Ht & Hk & _). unfold role_pfx. by repeat (apply utf8_valid_app; [try done|]). }
  all: intros _; apply utf8_valid_ascii; unfold user_pfx, udf_pfx, stage_pfx;
    match goal with |- str_all _ ?s = true => change (ascii_str s = true) end; eauto 10 with segments.
Qed.

(** *** Prefixes of keys *)
Definition key_kind (k : mgmt_key) : string :=
  match k with
  | MUser _ _ => USER_API_KEY_PREFIX | MRole _ _ => ROLE_API_KEY_PREFIX
  | MUdf _ _ => UDF_API_KEY_PREFIX | MStage _ _ => USER_STAGE_API_KEY_PREFIX
  end.
Definition key_tenant (k : mgmt_key) : string :=
  match k with MUser t _ | MUdf t _ | MStage t _ => escape t | MRole t _ => t end.

Lemma no_slash_prefix a b r :
  str_all (λ x, negb (bool_decide (x = slash))) a = true →
  String.prefix a (b +:+ "/" +:+ r) = String.prefix a b.
Proof.
  revert b. induction a as [|x a IH]; intros b Ha; [by destruct b|].
  simpl in Ha. apply andb_true_iff in Ha as [Hx Ha]. destruct b as [|y b].
  - change ("" +:+ "/" +:+ r) with (String slash r). simpl.
    destruct (Ascii.ascii_dec x slash) as [->|]; [by rewrite bool_decide_true in Hx|done].
  - rewrite string_app_cons. simpl. destruct (Ascii.ascii_dec x y); [by apply IH|done].
Qed.
Lemma app_prefix_cancel a b c : String.prefix (a +:+ b) (a +:+ c) = String.prefix b c.
Proof.
  induction a as [|x a IH]; [done|]. rewrite !string_app_cons. simpl. by destruct (Ascii.ascii_dec x x).
Qed.
Lemma mgmt_key_shape k : ∃ n, mgmt_to_key k = key_kind k +:+ "/" +:+ key_tenant k +:+ "/" +:+ n.
Proof.
  destruct k as [t n|t n|t n|t n]; cbn [mgmt_to_key key_kind key_tenant]; unfold user_pfx, role_pfx, udf_pfx, stage_pfx;
    rewrite !string_app_assoc; by eexists.
Qed.
(** The keys that start with the prefix of a tenant [t]. *)
Lemma tenant_prefix p t k :
  p ∈ [USER_API_KEY_PREFIX; ROLE_API_KEY_PREFIX; UDF_API_KEY_PREFIX; USER_STAGE_API_KEY_PREFIX] →
  str_all (λ x, negb (bool_decide (x = slash))) t = true →
  String.prefix (p +:+ "/" +:+ t) (mgmt_to_key k) = true ↔ key_kind k = p ∧ String.prefix t (key_tenant k) = true.
Proof.
  intros Hp Ht. destruct (mgmt_key_shape k) as (n & ->). destruct (decide (key_kind k = p)) as [->|Hne].
  - rewrite app_prefix_cancel. change ("/" +:+ t) with (String slash t).
    change ("/" +:+ key_tenant k +:+ "/" +:+ n) with (String slash (key_tenant k +:+ "/" +:+ n)). simpl.
    rewrite no_slash_prefix by done. tauto.
  - split; [|by intros [? _]]. intros (r & Hr)%prefix_app. exfalso. apply Hne.
    assert (str_all (λ x, negb (bool_decide (x = slash))) p = true ∧
      str_all (λ x, negb (bool_decide (x = slash))) (key_kind k) = true) as [Hp' Hk'].
    { split; [|by destruct k]. repeat (apply elem_of_cons in Hp as [->|Hp]; [done|]). by apply elem_of_nil in Hp. }
    apply (f_equal (split_on slash)) in Hr. rewrite !string_app_assoc in Hr.
    rewrite (split_on_segments (key_kind k)), (split_on_segments p) in Hr by done. by injection Hr.
Qed.

(** ** Records *)
Inductive mgmt_val := VUser (u : UserInfo) | VRole (r : RoleInfo) | VUdf (f : UserDefinedFunction) | VStage (s : UserStageInfo).
Abbreviation mgmt_dir := (dir mgmt_key mgmt_val).

(** The record of a manager under one of its own keys. *)
Definition as_user (v : mgmt_val) : UserInfo := match v with VUser u => u | _ => new_no_auth "" "" end.
Definition as_role (v : mgmt_val) : RoleInfo := match v with VRole r => r | _ => RoleInfo_new "" end.
Definition on_user (f : UserInfo → UserInfo) (v : mgmt_val) : mgmt_val := VUser (f (as_user v)).
Definition as_udf (v : mgmt_val) : UserDefinedFunction :=
  match v with VUdf f => f | _ => mkUserDefinedFunction "" [] "" "" end.
Definition on_grants (f : UserGrantSet → UserGrantSet) (v : mgmt_val) : mgmt_val :=
  VRole (set_ri_grants (as_role v) (f (ri_grants (as_role v)))).

Section refinement.
Context {W : Type} `{!KVApi W, !Clock, !ClockLaws} (R : W → kv_store → Prop) `{!KVApiLaws W R}.
Context `{!Capture, !Utf8ErrorText} {PBU PBS : Type}.
Context `{AllStorable PBU UserInfo, AllStorable PBS UserStageInfo, JsonLaws RoleInfo, JsonLaws UserDefinedFunction}.
Implicit Types (d : mgmt_dir).

(** A record decodes to its value, which carries the name the record is kept under. *)
Definition mgmt_stands (k : mgmt_key) (v : mgmt_val) (b : bytes) : Prop :=
  match k, v with
  | MUser _ n, VUser u =>
      format_user_key (ui_name u) (ui_hostname u) = n ∧ ∀ f c, pb_deserialize_struct (PB:=PBU) b f c = Ok u
  | MRole _ n, VRole r => ri_name r = n ∧ of_json b = Ok r
  | MUdf _ n, VUdf u => udf_name u = n ∧ of_json b = Ok u
  | MStage _ n, VStage s => stage_name s = n ∧ ∀ f c, pb_deserialize_struct (PB:=PBS) b f c = Ok s
  | _, _ => False
  end.
(** The prefixes under which the managers list. *)
Definition mgmt_listed (s : string) : Prop :=
  ∃ p, p ∈ [USER_API_KEY_PREFIX; ROLE_API_KEY_PREFIX; UDF_API_KEY_PREFIX; USER_STAGE_API_KEY_PREFIX] ∧
       String.prefix (p +:+ "/") s = true.
(** The directory that a state of the implementation stands for. *)
Definition mgmtR : W → mgmt_dir → Prop := dirR mgmt_to_key mgmt_key_ok mgmt_stands mgmt_listed R.

Lemma key_of_escape s : key_of s = Ok (escape s).
Proof.
  unfold key_of, escape_for_key. rewrite escape_bytes_escaped. unfold from_utf8.
  rewrite safe_utf8 by apply escaped_safe. by rewrite escape_escaped.
Qed.

(** *** Managers of a tenant *)
Lemma create_user_mgr t : t ≠ "" → UserMgr_create t = Ok (mkUserMgr (user_pfx t)).
Proof. intros Ht. unfold UserMgr_create. by rewrite bool_decide_false, key_of_escape. Qed.
Lemma create_role_mgr t : t ≠ "" → RoleMgr_create t = Ok (mkRoleMgr (role_pfx t)).
Proof. intros Ht. unfold RoleMgr_create. by rewrite bool_decide_false. Qed.

(** *** Generic steps *)
Lemma runs_mgmt_get {A} k d (f : option (SeqV bytes) → M W ErrorCode A) r :
  mgmt_key_ok k →
  match d_recs d !! k with
  | Some (n, v) => ∀ b, (0 < n)%N → mgmt_stands k v b → runs mgmtR (f (Some (mkSeqV n None b))) d r d
  | None => runs mgmtR (f None) d r d
  end →
  runs mgmtR (let! o := kvM (get_kv (mgmt_to_key k)) in f o) d r d.
Proof. exact (runs_dir_get mgmt_to_key mgmt_key_ok mgmt_stands mgmt_listed mgmt_to_key_utf8 R k d f r). Qed.

(** The records of the directory have meaningful bytes in the store. *)
Lemma runs_keyed {E A} k (m : M W E A) d r d' :
  ((∀ n v, d_recs d !! k = Some (n, v) → ∃ b, mgmt_stands k v b) → runs mgmtR m d r d') → runs mgmtR m d r d'.
Proof.
  intros Hm w Hw. apply Hm; [|done]. destruct Hw as (st & _ & Hr). intros n v Hv.
  pose proof (dr_rec _ _ _ _ _ _ Hr k (dr_ok _ _ _ _ _ _ Hr _ _ Hv)) as Hk. rewrite Hv in Hk.
  destruct Hk as (b & _ & _ & Hst). by exists b.
Qed.

Lemma runs_known {E A} (m : M W E A) d r d' :
  ((∀ k x, d_recs d !! k = Some x → mgmt_key_ok k) → runs mgmtR m d r d') → runs mgmtR m d r d'.
Proof. intros Hm w Hw. apply Hm; [|done]. destruct Hw as (st & _ & Hr). apply (dr_ok _ _ _ _ _ _ Hr). Qed.

(** [add]: a write on condition that there is no record. *)
Lemma runs_mgmt_add k d v b (exists_err : N → ErrorCode) :
  mgmt_key_ok k → mgmt_stands k v b → (d_seq d + 1 < u64_modulus)%N →
  runs mgmtR
    (let! reply := kvM (upsert_kv (mkUpsertKVAction (mgmt_to_key k) (Exact 0) (OpUpdate b) None)) in
     let! res := lift (map_err ErrorCode_from_result (into_add_result reply)) in
     match ar_res res with OkNew v => ret (seq v) | Exists v => throw (exists_err (seq v)) end)
    d (spec_add d k v exists_err).1 (spec_add d k v exists_err).2.
Proof.
  intros Hk Hst Hroom. apply (runs_dir_upsert _ _ mgmt_stands mgmt_listed mgmt_to_key_inj mgmt_to_key_utf8 R k d _ _ (Some v) _ _ _);
    [done..|]. unfold spec_add. destruct (d_recs d !! k) as [[n v0]|]; simpl.
  - intros b0 Hn. rewrite (proj2 (N.eqb_neq n 0)) by lia. eapply runs_bind; [apply runs_lift|]. apply runs_throw.
  - eapply runs_bind; [apply runs_lift|]. apply runs_ret.
Qed.

(** [drop]. *)
Lemma runs_mgmt_drop k d sq (unknown : ErrorCode) :
  mgmt_key_ok k → (d_seq d + 1 < u64_modulus)%N →
  runs mgmtR
    (let! res := kvM (upsert_kv (mkUpsertKVAction (mgmt_to_key k) (MatchSeq_from sq) OpDelete None)) in
     if opt_is_some (prev res) && negb (opt_is_some (result res)) then ret tt else throw unknown)
    d (spec_drop d k sq unknown).1 (spec_drop d k sq unknown).2.
Proof.
  intros Hk Hroom. apply (runs_dir_upsert _ _ mgmt_stands mgmt_listed mgmt_to_key_inj mgmt_to_key_utf8 R k d _ _ None _ _ _);
    [done..|]. unfold spec_drop, dir_get. destruct (d_recs d !! k) as [[n v0]|] eqn:Hd; simpl.
  - intros b0 Hn. destruct (seq_matches _ n); [apply runs_ret|apply runs_throw].
  - rewrite dir_del_absent by done. destruct (seq_matches _ 0); apply runs_throw.
Qed.
(** The write of an update, after the record was read. *)
Lemma runs_mgmt_update k d ms n v v' b (unknown : ErrorCode) :
  mgmt_key_ok k → d_recs d !! k = Some (n, v) → ((0 < n)%N → seq_matches ms n = true) → mgmt_stands k v' b →
  (d_seq d + 1 < u64_modulus)%N →
  runs mgmtR
    (let! res := kvM (upsert_kv (mkUpsertKVAction (mgmt_to_key k) ms (OpUpdate b) None)) in
     match result res with Some v => ret (seq v) | None => throw unknown end)
    d (Ok (d_seq d + 1)%N) (dir_put d k v').
Proof.
  intros Hk Hget Hms Hst Hroom.
  apply (runs_dir_upsert _ _ mgmt_stands mgmt_listed mgmt_to_key_inj mgmt_to_key_utf8 R k d _ _ (Some v') _ _ _); [done..|].
  rewrite Hget. intros b0 Hn. rewrite Hms by done. simpl. apply runs_ret.
Qed.
Lemma dir_get_lookup d k sq n v : dir_get d k sq = Some (n, v) → d_recs d !! k = Some (n, v) ∧ seq_matches (MatchSeq_from sq) n = true.
Proof.
  unfold dir_get. destruct (d_recs d !! k) as [[n' v']|]; [|done]. destruct (seq_matches _ _) eqn:Hm; [|done].
  intros [= -> ->]. done.
Qed.
Lemma update_seq_matches sq n : seq_matches (MatchSeq_from sq) n = true → (0 < n)%N → seq_matches (update_seq sq) n = true.
Proof. destruct sq; simpl; [done|]. intros _ Hn. nbool. lia. Qed.

(** The version check of [get]. *)
Lemma runs_match_seq {A} sq n b (m : M W ErrorCode A) (unknown : ErrorCode) d r :
  (seq_matches (MatchSeq_from sq) n = true → runs mgmtR m d r d) →
  (seq_matches (MatchSeq_from sq) n = false → r = Err unknown) →
  runs mgmtR
    match match_seq_v (MatchSeq_from sq) (mkSeqV n None b : SeqV bytes) with
    | Ok _ => m | Err _ => throw unknown | Panic => lift Panic end d r d.
Proof.
  unfold match_seq_v. simpl. rewrite <-match_seq_ok. intros Hm Hu.
  destruct (match_seq _ n) eqn:Hs; simpl in *; [by apply Hm|rewrite Hu by done; apply runs_throw|].
  by destruct sq; simpl in Hs; repeat case_decide.
Qed.

(** A listing under the prefix of a tenant. *)
Lemma runs_mgmt_list {B} p t d (body : string * SeqV bytes → M W ErrorCode B) (h : N → mgmt_val → B) :
  p ∈ [USER_API_KEY_PREFIX; ROLE_API_KEY_PREFIX; UDF_API_KEY_PREFIX; USER_STAGE_API_KEY_PREFIX] →
  str_all (λ x, negb (bool_decide (x = slash))) t = true →
  (∀ s k n v b, key_kind k = p → mgmt_stands k v b → runs mgmtR (body (s, mkSeqV n None b)) d (Ok (h n v)) d) →
  runs mgmtR (let! values := kvM (prefix_list_kv (p +:+ "/" +:+ t)) in collectM body values)
    d (Ok ((λ '(_, (n, v)), h n v) <$> dir_list mgmt_to_key d (p +:+ "/" +:+ t))) d.
Proof.
  intros Hp Ht Hbody. apply runs_known. intros Hok.
  apply (runs_dir_list _ _ mgmt_stands mgmt_listed mgmt_to_key_inj R (p +:+ "/" +:+ t) d).
  { intros s (r & ->)%prefix_app. exists p. split; [done|]. rewrite !string_app_assoc, <-string_app_assoc. apply app_prefix. }
  assert (∀ x, x ∈ dir_list mgmt_to_key d (p +:+ "/" +:+ t) → key_kind x.1 = p) as Hkind.
  { intros [k r] [_ Hk]%(elem_of_dir_list _ _ mgmt_to_key_inj); [|done]. by apply tenant_prefix in Hk as [? _]. }
  intros l Hl. induction Hl as [|[s sv] [k [n v]] l l' (Hs & Hn & Hm & Hst) Hl IH]; simpl; [apply runs_ret|].
  simpl in *. destruct sv as [n' m b]. simpl in *. subst n' m.
  eapply runs_bind; [apply (Hbody _ k n v b); [by apply (Hkind (k, (n, v))); left|done]|].
  eapply runs_bind; [apply IH; intros; apply Hkind; by right|]. apply runs_ret.
Qed.

(** *** Users *)
Section users.
Context (t : string).
Abbreviation self := (mkUserMgr (user_pfx t)).
Implicit Types (u : UserInfo) (i : UserIdentity).
Definition user_key i : mgmt_key := MUser t (format_user_key (username i) (hostname i)).
Definition unknown_user i : ErrorCode :=
  exc Exc.UnknownUser ("unknown user " +:+ format_user_key (username i) (hostname i)).
Definition user_exists (n : N) : ErrorCode :=
  exc Exc.UserAlreadyExists ("User already exists, seq [" +:+ pretty n +:+ "]").

Lemma user_record_key_ok a b : user_record_key self a b = Ok (mgmt_to_key (MUser t (format_user_key a b))).
Proof. unfold user_record_key. by rewrite key_of_escape. Qed.

Lemma runs_add_user u d :
  (d_seq d + 1 < u64_modulus)%N →
  runs mgmtR (add_user (PB:=PBU) self u) d (spec_add d (user_key (ui_identity u)) (VUser u) user_exists).1
    (spec_add d (user_key (ui_identity u)) (VUser u) user_exists).2.
Proof.
  intros Hroom. unfold add_user. rewrite user_record_key_ok. destruct (pb_roundtrip (PB:=PBU) u) as (b & Hs & Hd).
  rewrite Hs. eapply runs_bind; [apply runs_lift|]. eapply runs_bind; [apply runs_lift|].
  by apply (runs_mgmt_add (user_key (ui_identity u)) d (VUser u) b user_exists).
Qed.
Lemma runs_get_user i sq d :
  runs mgmtR (get_user (PB:=PBU) self i sq) d
    (spec_get d (user_key i) sq (λ n v, SeqV_new n (as_user v)) (unknown_user i)) d.
Proof.
  unfold get_user. rewrite user_record_key_ok. eapply runs_bind; [apply runs_lift|].
  apply (runs_mgmt_get (user_key i)); [done|]. unfold spec_get, dir_get.
  destruct (d_recs d !! user_key i) as [[n v]|]; [|apply runs_bind_err, runs_lift].
  intros b Hn Hst. eapply runs_bind; [apply runs_lift|]. destruct v as [u| | |]; try done. destruct Hst as [_ Hd].
  apply runs_match_seq; intros Hm; rewrite Hm; [|done]. simpl. rewrite Hd.
  eapply runs_bind; [apply runs_lift|apply runs_ret].
Qed.
Lemma runs_get_users d :
  runs mgmtR (get_users (PB:=PBU) self) d
    (Ok ((λ '(_, (n, v)), SeqV_new n (as_user v)) <$> dir_list mgmt_to_key d (user_pfx t))) d.
Proof.
  apply (runs_mgmt_list USER_API_KEY_PREFIX (escape t) d _ (λ n v, SeqV_new n (as_user v)));
    [by left|apply escape_no_slash|]. intros s k n v b Hk Hst.
  destruct k, v; try done. destruct Hst as [_ Hd]. simpl. rewrite Hd. eapply runs_bind; [apply runs_lift|apply runs_ret].
Qed.
Lemma runs_change_user i f sq d :
  (∀ u, ui_identity (f u) = ui_identity u) → (d_seq d + 1 < u64_modulus)%N →
  runs mgmtR (change_user (PB:=PBU) self i f sq) d (spec_change d (user_key i) sq (on_user f) (unknown_user i)).1
    (spec_change d (user_key i) sq (on_user f) (unknown_user i)).2.
Proof.
  intros Hf Hroom. apply (runs_keyed (user_key i)). intros Hkey.
  pose proof (runs_get_user i sq d) as Hget. unfold change_user, spec_get, spec_change in *.
  destruct (dir_get d (user_key i) sq) as [[n v]|] eqn:Hd; [|by apply runs_bind_err].
  apply dir_get_lookup in Hd as [Hd Hm].
  eapply runs_bind; [done|]. unfold upsert_user_info. simpl. destruct (Hkey n v Hd) as (b0 & Hst).
  destruct v as [u| | |]; try done. destruct Hst as [Hn _]. simpl. rewrite user_record_key_ok.
  assert (MUser t (format_user_key (ui_name (f u)) (ui_hostname (f u))) = user_key i) as ->.
  { specialize (Hf u). injection Hf as -> ->. unfold user_key. by rewrite Hn. }
  destruct (pb_roundtrip (PB:=PBU) (f u)) as (b & Hs & Hb). rewrite Hs.
  eapply runs_bind; [|apply runs_ret]. eapply runs_bind; [apply runs_lift|]. eapply runs_bind; [apply runs_lift|].
  eapply runs_mgmt_update; [done|done|by apply update_seq_matches| |done].
  simpl. split; [|done]. specialize (Hf u). by injection Hf as -> ->.
Qed.
Lemma runs_drop_user i sq d :
  (d_seq d + 1 < u64_modulus)%N →
  runs mgmtR (drop_user self i sq) d (spec_drop d (user_key i) sq (unknown_user i)).1
    (spec_drop d (user_key i) sq (unknown_user i)).2.
Proof.
  intros Hroom. unfold drop_user. rewrite user_record_key_ok. eapply runs_bind; [apply runs_lift|].
  by apply (runs_mgmt_drop (user_key i)).
Qed.
End users.

(** *** Roles *)
Section roles.
Context (t : string) (Ht : utf8_valid t = true) (Hs : str_all (λ x, negb (bool_decide (x = slash))) t = true).
Abbreviation self := (mkRoleMgr (role_pfx t)).
Implicit Types (r : string).
Definition unknown_role r : ErrorCode := exc Exc.UnknownRole ("unknown role " +:+ r).
Definition role_exists (n : N) : ErrorCode :=
  exc Exc.UserAlreadyExists ("Role already exists, seq [" +:+ pretty n +:+ "]").
Lemma role_key_ok r : utf8_valid r = true → mgmt_key_ok (MRole t r).
Proof. by intros. Qed.

Lemma runs_add_role (ri : RoleInfo) d :
  utf8_valid (ri_name ri) = true → (d_seq d + 1 < u64_modulus)%N →
  runs mgmtR (add_role self ri) d (spec_add d (MRole t (ri_name ri)) (VRole ri) role_exists).1
    (spec_add d (MRole t (ri_name ri)) (VRole ri) role_exists).2.
Proof.
  intros Hr Hroom. unfold add_role. destruct (json_roundtrip ri) as (b & Hj & Hd). rewrite Hj.
  eapply runs_bind; [apply runs_lift|]. by apply (runs_mgmt_add (MRole t (ri_name ri)) d (VRole ri) b role_exists).
Qed.
Lemma runs_get_role r sq d :
  utf8_valid r = true →
  runs mgmtR (get_role self r sq) d (spec_get d (MRole t r) sq (λ n v, mkSeqV n None (as_role v)) (unknown_role r)) d.
Proof.
  intros Hr. unfold get_role. apply (runs_mgmt_get (MRole t r)); [done|]. unfold spec_get, dir_get.
  destruct (d_recs d !! MRole t r) as [[n v]|]; [|apply runs_bind_err, runs_lift].
  intros b Hn Hst. eapply runs_bind; [apply runs_lift|]. destruct v as [|ri| |]; try done. destruct Hst as [_ Hd].
  apply runs_match_seq; intros Hm; rewrite Hm; [|done].
  unfold into_seqv, RoleInfo_try_from. simpl. rewrite Hd. apply runs_lift.
Qed.
Lemma runs_get_roles d :
  runs mgmtR (get_roles self) d
    (Ok ((λ '(_, (n, v)), SeqV_new n (as_role v)) <$> dir_list mgmt_to_key d (role_pfx t))) d.
Proof.
  apply (runs_mgmt_list ROLE_API_KEY_PREFIX t d _ (λ n v, SeqV_new n (as_role v))); [by right; left|done|].
  intros s k n v b Hk Hst. destruct k, v; try done. destruct Hst as [_ Hd]. simpl. rewrite Hd.
  eapply runs_bind; [apply runs_lift|apply runs_ret].
Qed.
Lemma runs_change_role r f sq d :
  utf8_valid r = true → (d_seq d + 1 < u64_modulus)%N →
  runs mgmtR (change_role self r f sq) d (spec_change d (MRole t r) sq (on_grants f) (unknown_role r)).1
    (spec_change d (MRole t r) sq (on_grants f) (unknown_role r)).2.
Proof.
  intros Hr Hroom. apply (runs_keyed (MRole t r)). intros Hkey.
  pose proof (runs_get_role r sq d Hr) as Hget. unfold change_role, spec_get, spec_change in *.
  destruct (dir_get d (MRole t r) sq) as [[n v]|] eqn:Hd; [|by apply runs_bind_err].
  apply dir_get_lookup in Hd as [Hd Hm]. eapply runs_bind; [done|].
  destruct (Hkey n v Hd) as (b0 & Hst). destruct v as [|ri| |]; try done. destruct Hst as [Hn _]. simpl.
  destruct (json_roundtrip (set_ri_grants ri (f (ri_grants ri)))) as (b & Hj & Hb).
  eapply runs_bind; [|apply runs_ret]. unfold upsert_role_info. rewrite Hj. eapply runs_bind; [apply runs_lift|].
  replace (make_role_key self (ri_identity (set_ri_grants ri (f (ri_grants ri))))) with (mgmt_to_key (MRole t r));
    [|by simpl; rewrite <-Hn].
  eapply runs_mgmt_update; [done|done|by apply update_seq_matches| |done]. done.
Qed.
Lemma runs_drop_role r sq d :
  utf8_valid r = true → (d_seq d + 1 < u64_modulus)%N →
  runs mgmtR (drop_role self r sq) d (spec_drop d (MRole t r) sq (unknown_role r)).1
    (spec_drop d (MRole t r) sq (unknown_role r)).2.
Proof. intros Hr Hroom. by apply (runs_mgmt_drop (MRole t r)). Qed.
End roles.

(** *** Functions and stages *)
Section udfs.
Context `{!UdfRules} (t : string).
Abbreviation self := (mkUdfMgr (udf_pfx t)).
Definition unknown_udf (n : string) : ErrorCode := exc Exc.UnknownUDF ("Unknown Function " +:+ n).
Definition udf_exists (n : N) : ErrorCode :=
  exc Exc.UdfAlreadyExists ("UDF already exists, seq [" +:+ pretty n +:+ "]").

Lemma udf_record_key_ok n : udf_record_key self n = Ok (mgmt_to_key (MUdf t n)).
Proof. unfold udf_record_key. by rewrite key_of_escape. Qed.
Lemma runs_add_udf (info : UserDefinedFunction) d :
  is_builtin_function (udf_name info) = false →
  udf_parse (udf_name info) (udf_parameters info) (udf_definition info) = Ok tt → (d_seq d + 1 < u64_modulus)%N →
  runs mgmtR (add_udf self info) d (spec_add d (MUdf t (udf_name info)) (VUdf info) udf_exists).1
    (spec_add d (MUdf t (udf_name info)) (VUdf info) udf_exists).2.
Proof.
  intros Hb Hp Hroom. unfold add_udf. rewrite Hb, Hp, udf_record_key_ok. eapply runs_bind; [apply runs_lift|].
  destruct (json_roundtrip info) as (b & Hj & Hd). rewrite Hj.
  eapply runs_bind; [apply runs_lift|]. eapply runs_bind; [apply runs_lift|].
  by apply (runs_mgmt_add (MUdf t (udf_name info)) d (VUdf info) b udf_exists).
Qed.
Lemma runs_get_udf n sq d :
  runs mgmtR (get_udf self n sq) d (spec_get d (MUdf t n) sq (λ s v, mkSeqV s None (as_udf v)) (unknown_udf n)) d.
Proof.
  unfold get_udf. rewrite udf_record_key_ok. eapply runs_bind; [apply runs_lift|].
  apply (runs_mgmt_get (MUdf t n)); [done|]. unfold spec_get, dir_get.
  destruct (d_recs d !! MUdf t n) as [[s v]|]; [|apply runs_bind_err, runs_lift].
  intros b Hs Hst. eapply runs_bind; [apply runs_lift|]. destruct v as [| |f|]; try done. destruct Hst as [_ Hd].
  apply runs_match_seq; intros Hm; rewrite Hm; [|done].
  unfold into_seqv, UserDefinedFunction_try_from. simpl. rewrite Hd. apply runs_lift.
Qed.
Lemma runs_get_udfs d :
  runs mgmtR (get_udfs self) d (Ok ((λ '(_, (_, v)), as_udf v) <$> dir_list mgmt_to_key d (udf_pfx t))) d.
Proof.
  apply (runs_mgmt_list UDF_API_KEY_PREFIX (escape t) d _ (λ _ v, as_udf v));
    [by right; right; left|apply escape_no_slash|]. intros s k n v b Hk Hst.
  destruct k, v; try done. destruct Hst as [_ Hd]. simpl. rewrite Hd. apply runs_lift.
Qed.
(** An update replaces the whole function. *)
Definition spec_update_udf d (info : UserDefinedFunction) sq : res ErrorCode N * mgmt_dir :=
  match dir_get d (MUdf t (udf_name info)) sq with
  | Some _ => (Ok (d_seq d + 1)%N, dir_put d (MUdf t (udf_name info)) (VUdf info))
  | None => (Err (unknown_udf (udf_name info)), d)
  end.
Lemma runs_update_udf info sq d :
  is_builtin_function (udf_name info) = false → (d_seq d + 1 < u64_modulus)%N →
  runs mgmtR (update_udf self info sq) d (spec_update_udf d info sq).1 (spec_update_udf d info sq).2.
Proof.
  intros Hbu Hroom. unfold update_udf, spec_update_udf. rewrite Hbu, udf_record_key_ok.
  pose proof (runs_get_udf (udf_name info) sq d) as Hget. unfold spec_get in Hget.
  destruct (dir_get d (MUdf t (udf_name info)) sq) as [[n v]|] eqn:Hd; [|by apply runs_bind_err].
  apply dir_get_lookup in Hd as [Hd Hm]. eapply runs_bind; [done|].
  destruct (json_roundtrip info) as (b & Hj & Hb). rewrite Hj.
  eapply runs_bind; [apply runs_lift|]. eapply runs_bind; [apply runs_lift|].
  by eapply runs_mgmt_update.
Qed.
Lemma runs_drop_udf n sq d :
  (d_seq d + 1 < u64_modulus)%N →
  runs mgmtR (drop_udf self n sq) d (spec_drop d (MUdf t n) sq (unknown_udf n)).1
    (spec_drop d (MUdf t n) sq (unknown_udf n)).2.
Proof.
  intros Hroom. unfold drop_udf. rewrite udf_record_key_ok. eapply runs_bind; [apply runs_lift|].
  by apply (runs_mgmt_drop (MUdf t n)).
Qed.
End udfs.

Section stages.
Context (t : string).
Abbreviation self := (mkStageMgr (stage_pfx t)).
Definition unknown_stage (n : string) : ErrorCode := exc Exc.UnknownStage ("Unknown stage " +:+ n).
Definition stage_exists (n : N) : ErrorCode :=
  exc Exc.StageAlreadyExists ("Stage already exists, seq [" +:+ pretty n +:+ "]").

Lemma stage_record_key_ok n : stage_record_key self n = Ok (mgmt_to_key (MStage t n)).
Proof. unfold stage_record_key. by rewrite key_of_escape. Qed.
Lemma runs_add_stage (info : UserStageInfo) d :
  (d_seq d + 1 < u64_modulus)%N →
  runs mgmtR (add_stage (PB:=PBS) self info) d (spec_add d (MStage t (stage_name info)) (VStage info) stage_exists).1
    (spec_add d (MStage t (stage_name info)) (VStage info) stage_exists).2.
Proof.
  intros Hroom. unfold add_stage. rewrite stage_record_key_ok. destruct (pb_roundtrip (PB:=PBS) info) as (b & Hs & Hd).
  rewrite Hs. eapply runs_bind; [apply runs_lift|]. eapply runs_bind; [apply runs_lift|].
  by apply (runs_mgmt_add (MStage t (stage_name info)) d (VStage info) b stage_exists).
Qed.
Lemma runs_get_stage n sq d :
  runs mgmtR (get_stage (PB:=PBS) self n sq) d
    match dir_get d (MStage t n) sq with
    | Some (s, VStage i) => Ok (SeqV_new s i)
    | _ => Err (unknown_stage n)
    end d.
Proof.
  unfold get_stage. rewrite stage_record_key_ok. eapply runs_bind; [apply runs_lift|].
  apply (runs_mgmt_get (MStage t n)); [done|]. unfold dir_get.
  destruct (d_recs d !! MStage t n) as [[s v]|]; [|apply runs_bind_err, runs_lift].
  intros b Hs Hst. eapply runs_bind; [apply runs_lift|]. destruct v as [| | |i]; try done. destruct Hst as [_ Hd].
  apply runs_match_seq; intros Hm; rewrite Hm; [|done]. simpl. rewrite Hd.
  eapply runs_bind; [apply runs_lift|apply runs_ret].
Qed.
Lemma runs_drop_stage n sq d :
  (d_seq d + 1 < u64_modulus)%N →
  runs mgmtR (drop_stage self n sq) d (spec_drop d (MStage t n) sq (unknown_stage n)).1
    (spec_drop d (MStage t n) sq (unknown_stage n)).2.
Proof.
  intros Hroom. unfold drop_stage. rewrite stage_record_key_ok. eapply runs_bind; [apply runs_lift|].
  by apply (runs_mgmt_drop (MStage t n)).
Qed.
End stages.
End refinement.
