(* ===== verification/MgmtModel.v ===== *)
(** * Concrete codecs for the managers.

    The laws assumed of prost and serde_json hold together for an injective encoding of
    users, roles, functions and stages.  With the concrete state machine of SmModel.v this
    is a complete meta service for the examples. *)
From S2P Require Import Prelude ByteOrder MetaTypes KvApi SledStore SledView StateMachine StateMachineSpec SmKvApi.
From S2P Require Import SmModel KeyCodec SchemaApi SchemaSpec SchemaInv SchemaModel.
From S2P Require Import UserGrant Exception UserTypes Management Dir MgmtSpec.

(** ** Encodings *)
Definition object_code (o : GrantObject) : N * string * string * string :=
  match o with Global => (0, "", "", "") | Database a b => (1, a, b, "") | Table a b c => (2, a, b, c) end%N.
Definition object_decode (x : N * string * string * string) : GrantObject :=
  match x with (0, _, _, _) => Global | (1, a, b, _) => Database a b | (_, a, b, c) => Table a b c end%N.
#[export] Instance GrantObject_countable : Countable GrantObject.
Proof. refine (inj_countable' object_code object_decode _). by intros []. Defined.
#[export] Instance GrantEntry_eq_dec : EqDecision GrantEntry.
Proof. solve_decision. Defined.
#[export] Instance GrantEntry_countable : Countable GrantEntry.
Proof. refine (inj_countable' (λ e, (ge_object e, ge_privileges e)) (λ '(a, b), mkGrantEntry a b) _). by intros []. Defined.
#[export] Instance UserGrantSet_eq_dec : EqDecision UserGrantSet.
Proof. solve_decision. Defined.
#[export] Instance UserGrantSet_countable : Countable UserGrantSet.
Proof. refine (inj_countable' (λ g, (ug_entries g, ug_roles g)) (λ '(a, b), mkUserGrantSet a b) _). by intros []. Defined.

Definition method_code (m : PasswordHashMethod) : N := match m with PlainText => 0 | DoubleSha1 => 1 | Sha256 => 2 end.
Definition method_decode (n : N) : PasswordHashMethod :=
  match n with 0 => PlainText | 1 => DoubleSha1 | _ => Sha256 end%N.
#[export] Instance PasswordHashMethod_countable : Countable PasswordHashMethod.
Proof. refine (inj_countable' method_code method_decode _). by intros []. Defined.
#[export] Instance AuthInfo_countable : Countable AuthInfo.
Proof.
  refine (inj_countable'
    (λ a, match a with AI_None => (0, None) | AI_Password h m => (1, Some (h, m)) | AI_JWT => (2, None) end)%N
    (λ '(n, x), match n, x with 1, Some (h, m) => AI_Password h m | 0, _ => AI_None | _, _ => AI_JWT end)%N _).
  by intros [].
Defined.
#[export] Instance UserQuota_eq_dec : EqDecision UserQuota.
Proof. solve_decision. Defined.
#[export] Instance UserOption_eq_dec : EqDecision UserOption.
Proof. solve_decision. Defined.
#[export] Instance UserInfo_eq_dec : EqDecision UserInfo.
Proof. solve_decision. Defined.
#[export] Instance UserInfo_countable : Countable UserInfo.
Proof.
  refine (inj_countable'
    (λ u, (ui_name u, ui_hostname u, ui_auth_info u, ui_grants u,
           (max_cpu (ui_quota u), max_memory_in_bytes (ui_quota u), max_storage_in_bytes (ui_quota u)), uo_flags (ui_option u)))
    (λ '(a, b, c, d, (x, y, z), f), mkUserInfo a b c d (mkUserQuota x y z) (mkUserOption f)) _).
  by intros [? ? ? ? [] []].
Defined.
#[export] Instance RoleInfo_eq_dec : EqDecision RoleInfo.
Proof. solve_decision. Defined.
#[export] Instance RoleInfo_countable : Countable RoleInfo.
Proof. refine (inj_countable' (λ r, (ri_name r, ri_grants r)) (λ '(a, b), mkRoleInfo a b) _). by intros []. Defined.
#[export] Instance UserDefinedFunction_eq_dec : EqDecision UserDefinedFunction.
Proof. solve_decision. Defined.
#[export] Instance UserDefinedFunction_countable : Countable UserDefinedFunction.
Proof.
  refine (inj_countable' (λ f, (udf_name f, udf_parameters f, udf_description f, udf_definition f))
    (λ '(a, b, c, d), mkUserDefinedFunction a b c d) _). by intros [].
Defined.

Definition all_compressions : list StageFileCompression :=
  [Auto; Gzip; Bz2; Brotli; Zstd; Deflate; RawDeflate; Lzo; Snappy; NoCompression].
Definition all_formats : list StageFileFormatType := [Csv; UserTypes.Json; Avro; Orc; Parquet; Xml].
#[export] Instance StageFileCompression_eq_dec : EqDecision StageFileCompression.
Proof. solve_decision. Defined.
#[export] Instance StageFileFormatType_eq_dec : EqDecision StageFileFormatType.
Proof. solve_decision. Defined.
Definition position {A} `{EqDecision A} (x : A) (l : list A) : nat := default 0 (fst <$> list_find (x =.) l).
#[export] Instance StageFileCompression_countable : Countable StageFileCompression.
Proof. refine (inj_countable' (λ c, position c all_compressions) (λ n, default Auto (all_compressions !! n)) _). by intros []. Defined.
#[export] Instance StageFileFormatType_countable : Countable StageFileFormatType.
Proof. refine (inj_countable' (λ c, position c all_formats) (λ n, default Csv (all_formats !! n)) _). by intros []. Defined.
#[export] Instance OnErrorMode_eq_dec : EqDecision OnErrorMode.
Proof. solve_decision. Defined.
#[export] Instance OnErrorMode_countable : Countable OnErrorMode.
Proof.
  refine (inj_countable'
    (λ m, match m with OE_None => (0, 0) | OE_Continue => (1, 0) | OE_SkipFile => (2, 0) | OE_SkipFileNum n => (3, n)
          | OE_AbortStatement => (4, 0) end)%N
    (λ '(c, n), match c with 0 => OE_None | 1 => OE_Continue | 2 => OE_SkipFile | 3 => OE_SkipFileNum n
          | _ => OE_AbortStatement end)%N _).
  by intros [].
Defined.
#[export] Instance S3StorageConfig_eq_dec : EqDecision S3StorageConfig.
Proof. solve_decision. Defined.
#[export] Instance StageStorage_eq_dec : EqDecision StageStorage.
Proof. solve_decision. Defined.
#[export] Instance StageStorage_countable : Countable StageStorage.
Proof.
  refine (inj_countable'
    (λ '(S3 c), (s3_region c, s3_endpoint_url c, s3_access_key_id c, s3_secret_access_key c, s3_bucket c, s3_root c, s3_master_key c))
    (λ '(a, b, c, d, e, f, g), S3 (mkS3StorageConfig a b c d e f g)) _).
  by intros [[]].
Defined.
#[export] Instance StageType_eq_dec : EqDecision StageType.
Proof. solve_decision. Defined.
#[export] Instance StageParams_eq_dec : EqDecision StageParams.
Proof. solve_decision. Defined.
#[export] Instance FileFormatOptions_eq_dec : EqDecision FileFormatOptions.
Proof. solve_decision. Defined.
#[export] Instance CopyOptions_eq_dec : EqDecision CopyOptions.
Proof. solve_decision. Defined.
#[export] Instance UserStageInfo_eq_dec : EqDecision UserStageInfo.
Proof. solve_decision. Defined.
#[export] Instance UserStageInfo_countable : Countable UserStageInfo.
Proof.
  refine (inj_countable'
    (λ s, (stage_name s, bool_decide (stage_type s = Internal), storage (stage_params s),
           (let o := file_format_options s in
            (ff_format o, skip_header o, field_delimiter o, record_delimiter o, compression o)),
           (on_error (copy_options s), size_limit (copy_options s)), stage_comment s))
    (λ '(a, b, c, (f1, f2, f3, f4, f5), (e, l), m),
       mkUserStageInfo a (if b : bool then Internal else External) (mkStageParams c) (mkFileFormatOptions f1 f2 f3 f4 f5)
         (mkCopyOptions e l) m) _).
  by intros [? [] [] [] [] ?].
Defined.

#[export] Instance NodeInfo_eq_dec : EqDecision NodeInfo.
Proof. solve_decision. Defined.
#[export] Instance NodeInfo_countable : Countable NodeInfo.
Proof.
  refine (inj_countable' (λ n, (ni_id n, cpu_nums n, version n, flight_address n))
    (λ '(a, b, c, d), mkNodeInfo a b c d) _). by intros [].
Defined.

(** JSON texts are the encodings. *)
Definition demo_json (T : Type) `{Countable T} : Json T := {|
  to_json v := Ok (plain_encode v);
  of_json b := match plain_decode b with Some v => Ok v | None => Err "expected a value" end |}.
Lemma demo_json_laws (T : Type) `{Countable T} : @JsonLaws T (demo_json T).
Proof. intros v. exists (plain_encode v). split; [done|]. simpl. by rewrite plain_decode_encode. Qed.

(** ** The empty meta service *)
Definition demo_capture : Capture := λ _ _, "".
Definition demo_utf8_text : Utf8ErrorText := λ _, "invalid utf-8".
Definition no_records : mgmt_dir := mkDir ∅ 0.
Section demo.
#[local] Existing Instances quiet_env quiet_no_faults mem_serde mem_serde_laws small_clock small_clock_laws
  demo_message demo_proto demo_struct_laws demo_json demo_json_laws.
#[local] Existing Instance demo_capture.
Definition demo_kv_api : KVApi (world mem_tree sm_env) := sm_kv_api (Membership:=list N) demo_sm.
Lemma demo_kv_api_laws : @KVApiLaws (world mem_tree sm_env) demo_kv_api small_clock (sm_store (Membership:=list N)).
Proof. exact (sm_kv_api_laws demo_sm). Qed.
Lemma demo_storable V `{Countable V} : AllStorable bytes V.
Proof. by intros v. Qed.
Lemma demo_mgmt_empty :
  mgmtR (sm_store (Membership:=list N)) (PBU:=bytes) (PBS:=bytes) empty_world no_records.
Proof.
  exists empty_store. split; [by exists empty_spec; split; [apply empty_repr|]|].
  split; [done|..]; [|done|done]. intros k _. unfold no_records, empty_store. cbn [d_recs kv].
  by rewrite !lookup_empty.
Qed.
End demo.
