(* ===== verification/MgmtProps.v ===== *)
(** * Properties of the managers.

    Every operation of the managers of users, roles, functions and stages acts on the
    directory of records as its specification says, on every branch.  The examples run on
    the concrete meta service of MgmtModel.v.

    The node ids of the cluster manager (cluster_mgr.rs): [get_nodes] takes the id of a node
    from its unescaped key, skipping as many bytes as the escaped prefix has, so the right id
    comes out if the names need no escaping, and a shortened one or a panic otherwise. *)
From S2P Require Import Prelude ByteOrder MetaTypes KvApi SledStore SledView StateMachine StateMachineSpec SmKvApi.
From S2P Require Import SmModel KeyCodec SchemaApi SchemaSpec SchemaInv SchemaModel.
From S2P Require Import UserGrant Exception UserTypes Management Dir MgmtSpec MgmtModel.

Section props.
Context {W : Type} `{!KVApi W, !Clock, !ClockLaws} (R : W → kv_store → Prop) `{!KVApiLaws W R}.
Context `{!Capture, !Utf8ErrorText} {PBU PBS : Type}.
Context `{AllStorable PBU UserInfo, AllStorable PBS UserStageInfo, JsonLaws RoleInfo, JsonLaws UserDefinedFunction}.
Abbreviation metaR := (mgmtR R (PBU:=PBU) (PBS:=PBS)).
Implicit Types (d : mgmt_dir).

(** [m] acts on [d] as the specified result and next directory say. *)
Definition acts {A} (m : M W ErrorCode A) d (spec : res ErrorCode A * mgmt_dir) : Prop := runs metaR m d spec.1 spec.2.

(** The keys of users: those of names without a quote are different. *)
Definition quote : Ascii.ascii := Ascii.ascii_of_nat 39.
Definition no_quote (i : UserIdentity) : bool := str_all (λ x, negb (bool_decide (x = quote))) (username i).
Lemma quote_split a b r s :
  str_all (λ x, negb (bool_decide (x = quote))) a = true → str_all (λ x, negb (bool_decide (x = quote))) b = true →
  a +:+ String quote r = b +:+ String quote s → a = b ∧ r = s.
Proof.
  revert b. induction a as [|x a IH]; intros [|y b]; rewrite ?string_app_cons; simpl.
  - by intros _ _ [= ->].
  - intros _ Hy [= <- _]. by rewrite bool_decide_true in Hy.
  - intros Hx _ [= -> _]. by rewrite bool_decide_true in Hx.
  - rewrite !andb_true_iff. intros [_ Ha] [_ Hb] [= -> Heq]. destruct (IH b Ha Hb Heq) as [-> ->]. done.
Qed.
Lemma append_inj_r a b q : a +:+ q = b +:+ q → a = b.
Proof.
  revert b. induction a as [|x a IH]; intros [|y b]; rewrite ?string_app_cons; [done|..].
  - intros Heq. apply (f_equal String.length) in Heq. simpl in Heq. rewrite !string_app_length in Heq. simpl in Heq. lia.
  - intros Heq. apply (f_equal String.length) in Heq. simpl in Heq. rewrite !string_app_length in Heq. simpl in Heq. lia.
  - intros [= -> Heq%IH]. by subst.
Qed.
Lemma user_key_inj t i i' : no_quote i = true → no_quote i' = true → user_key t i = user_key t i' → i = i'.
Proof.
  destruct i as [n h], i' as [n' h']. unfold no_quote, user_key, format_user_key. simpl. intros Hn Hn' [= Heq].
  destruct (quote_split n n' _ _ Hn Hn' Heq) as [-> [= Hh%append_inj_r]]. by subst.
Qed.

(** The users that are listed. *)
Lemma elem_of_users t d (w : W) (sv : SeqV UserInfo) :
  metaR w d →
  sv ∈ (λ '(_, (n, v)), SeqV_new n (as_user v)) <$> dir_list mgmt_to_key d (user_pfx t) ↔
  ∃ t' k n v, d_recs d !! MUser t' k = Some (n, VUser v) ∧ String.prefix (escape t) (escape t') = true ∧ sv = SeqV_new n v.
Proof.
  intros (st & _ & Hr). pose proof (dr_ok _ _ _ _ _ _ Hr) as Hok. rewrite list_elem_of_fmap.
  assert (∀ k, String.prefix (user_pfx t) (mgmt_to_key k) = true ↔ key_kind k = USER_API_KEY_PREFIX ∧ String.prefix (escape t) (key_tenant k) = true) as Hpfx.
  { intros k. apply (tenant_prefix USER_API_KEY_PREFIX); [by left|apply escape_no_slash]. }
  split.
  - intros ([k [n v]] & -> & [Hk [Hkind Hp]%Hpfx]%(elem_of_dir_list _ _ mgmt_to_key_inj)); [|done].
    pose proof (dr_rec _ _ _ _ _ _ Hr k (Hok _ _ Hk)) as Hrec. rewrite Hk in Hrec. destruct Hrec as (b & _ & _ & Hst).
    destruct k as [t' u| | |], v as [v| | |]; try done. by exists t', u, n, v.
  - intros (t' & k & n & v & Hk & Hp & ->). exists (MUser t' k, (n, VUser v)). split; [done|].
    apply (elem_of_dir_list _ _ mgmt_to_key_inj); [done|]. split; [done|]. by apply Hpfx.
Qed.

(** C27: The user manager of a tenant refines its specification: each operation but the listing reads or
    changes the one record kept under the name and host of the user, a user is added only once, and an update
    or removal conditioned on a version succeeds exactly when the record has it.  Records under other keys, of this and
    other tenants and managers, stay as they are; users have different keys if their names have no quote.  The listing
    gives the users of every tenant whose escaped name starts with that of the tenant. *)
Theorem user_mgr_refines t d u i sq o ps role a op :
  t ≠ "" → (d_seq d + 1 < u64_modulus)%N →
  let changed f := spec_change d (user_key t i) sq (on_user f) (unknown_user i) in
  let on_grant f := λ u, set_ui_grants u (f (ui_grants u)) in
  ∃ m, UserMgr_create t = Ok m ∧
    acts (add_user (PB:=PBU) m u) d (spec_add d (user_key t (ui_identity u)) (VUser u) user_exists) ∧
    acts (get_user (PB:=PBU) m i sq) d
      (spec_get d (user_key t i) sq (λ n v, SeqV_new n (as_user v)) (unknown_user i), d) ∧
    acts (update_user (PB:=PBU) m i a op sq) d
      (changed (λ u, let u := match a with Some a => set_ui_auth u a | None => u end in
                     match op with Some o => set_ui_option u o | None => u end)) ∧
    acts (grant_privileges (PB:=PBU) m i o ps sq) d (changed (on_grant (λ g, ugs_grant_privileges g o ps))) ∧
    acts (revoke_privileges (PB:=PBU) m i o ps sq) d (changed (on_grant (λ g, ugs_revoke_privileges g o ps))) ∧
    acts (grant_role (PB:=PBU) m i role sq) d (changed (on_grant (λ g, ugs_grant_role g role))) ∧
    acts (revoke_role (PB:=PBU) m i role sq) d (changed (on_grant (λ g, ugs_revoke_role g role))) ∧
    acts (drop_user m i sq) d (spec_drop d (user_key t i) sq (unknown_user i)) ∧
    (∀ i', no_quote i = true → no_quote i' = true → user_key t i = user_key t i' → i = i') ∧
    ∃ l, acts (get_users (PB:=PBU) m) d (Ok l, d) ∧
      ∀ w sv, metaR w d →
        sv ∈ l ↔ ∃ t' k n v, d_recs d !! MUser t' k = Some (n, VUser v) ∧ String.prefix (escape t) (escape t') = true ∧ sv = SeqV_new n v.
Proof.
  intros Ht Hroom changed on_grant. exists (mkUserMgr (user_pfx t)). split; [by apply create_user_mgr|].
  assert (∀ f, (∀ u, ui_identity (f u) = ui_identity u) →
    acts (change_user (PB:=PBU) (mkUserMgr (user_pfx t)) i f sq) d (changed f)) as Hchange.
  { intros f Hf. exact (runs_change_user R t i f sq d Hf Hroom). }
  split_and!; [exact (runs_add_user R t u d Hroom)|exact (runs_get_user R t i sq d)|..|exact (runs_drop_user R t i sq d Hroom)
    |intros i'; apply user_key_inj|eexists; split; [exact (runs_get_users R t d)|by apply elem_of_users]];
    apply Hchange; intros v; [by destruct a, op|done..].
Qed.

(** The role manager of a tenant refines its specification, for tenants whose name has
    no slash. *)
Theorem role_mgr_refines t d ri r sq o ps role :
  t ≠ "" → utf8_valid t = true → str_all (λ x, negb (bool_decide (x = slash))) t = true →
  utf8_valid (ri_name ri) = true → utf8_valid r = true → (d_seq d + 1 < u64_modulus)%N →
  let changed f := spec_change d (MRole t r) sq (on_grants f) (unknown_role r) in
  ∃ m, RoleMgr_create t = Ok m ∧
    acts (add_role m ri) d (spec_add d (MRole t (ri_name ri)) (VRole ri) role_exists) ∧
    acts (get_role m r sq) d (spec_get d (MRole t r) sq (λ n v, mkSeqV n None (as_role v)) (unknown_role r), d) ∧
    acts (role_grant_privileges m r o ps sq) d (changed (λ g, ugs_grant_privileges g o ps)) ∧
    acts (role_revoke_privileges m r o ps sq) d (changed (λ g, ugs_revoke_privileges g o ps)) ∧
    acts (role_grant_role m r role sq) d (changed (λ g, ugs_grant_role g role)) ∧
    acts (role_revoke_role m r role sq) d (changed (λ g, ugs_revoke_role g role)) ∧
    acts (drop_role m r sq) d (spec_drop d (MRole t r) sq (unknown_role r)).
Proof.
  intros Ht Hu Hs Hri Hr Hroom changed. exists (mkRoleMgr (role_pfx t)). split; [by apply create_role_mgr|].
  assert (∀ f, acts (change_role (mkRoleMgr (role_pfx t)) r f sq) d (changed f)) as Hchange.
  { intros f. exact (runs_change_role R t Hu Hs r f sq d Hr Hroom). }
  split_and!; [exact (runs_add_role R t Hu Hs ri d Hri Hroom)|exact (runs_get_role R t Hu Hs r sq d Hr)|apply Hchange..|].
  exact (runs_drop_role R t Hu Hs r sq d Hr Hroom).
Qed.
End props.

(** ** Examples *)
Section examples.
#[local] Existing Instances quiet_env quiet_no_faults mem_serde mem_serde_laws small_clock small_clock_laws
  demo_message demo_proto demo_struct_laws demo_json demo_json_laws demo_kv_api demo_kv_api_laws demo_storable
  demo_capture demo_utf8_text.
Abbreviation demo_R := (sm_store (Membership:=list N)).

Definition user1 : UserInfo := UserInfo_new "u1" "%" AI_None.
Definition id1 : UserIdentity := ui_identity user1.
(** The directory with the user. *)
Definition dir1 : mgmt_dir := dir_put no_records (user_key "t" id1) (VUser user1).

Lemma user_mgr_refines_example :
  ∃ m, UserMgr_create "t" = Ok m ∧
    acts demo_R (PBU:=bytes) (PBS:=bytes) (add_user (PB:=bytes) m user1) no_records (Ok 1%N, dir1) ∧
    acts demo_R (PBU:=bytes) (PBS:=bytes) (add_user (PB:=bytes) m user1) dir1 (Err (user_exists 1), dir1) ∧
    acts demo_R (PBU:=bytes) (PBS:=bytes) (get_user (PB:=bytes) m id1 None) dir1 (Ok (SeqV_new 1 user1), dir1) ∧
    acts demo_R (PBU:=bytes) (PBS:=bytes) (drop_user m id1 (Some 7%N)) dir1 (Err (unknown_user id1), dir1) ∧
    ∃ l, acts demo_R (PBU:=bytes) (PBS:=bytes) (get_users (PB:=bytes) m) dir1 (Ok l, dir1).
Proof.
  destruct (user_mgr_refines demo_R (PBU:=bytes) (PBS:=bytes) "t" no_records user1 id1 None Global ups_empty "r" None None)
    as (m & Hm & Ha & _); [done|vm_compute; reflexivity|].
  destruct (user_mgr_refines demo_R (PBU:=bytes) (PBS:=bytes) "t" dir1 user1 id1 None Global ups_empty "r" None None)
    as (m' & Hm' & Ha' & Hg & _ & _ & _ & _ & _ & _ & _ & l & Hl & _); [done|vm_compute; reflexivity|].
  destruct (user_mgr_refines demo_R (PBU:=bytes) (PBS:=bytes) "t" dir1 user1 id1 (Some 7%N) Global ups_empty "r" None None)
    as (m'' & Hm'' & _ & _ & _ & _ & _ & _ & _ & Hd & _); [done|vm_compute; reflexivity|].
  rewrite Hm in Hm', Hm''. injection Hm' as <-. injection Hm'' as <-. exists m. split_and!; [done..|by exists l].
Defined.

(** Two users with the same key. *)
Example user_key_collision : user_key "t" (mkUserIdentity "a" "b'@'c") = user_key "t" (mkUserIdentity "a'@'b" "c").
Proof. vm_compute. reflexivity. Qed.

Definition role1 : RoleInfo := RoleInfo_new "r1".
Definition dir2 : mgmt_dir := dir_put no_records (MRole "t" "r1") (VRole role1).
Lemma role_mgr_refines_example :
  ∃ m, RoleMgr_create "t" = Ok m ∧
    acts demo_R (PBU:=bytes) (PBS:=bytes) (add_role m role1) no_records (Ok 1%N, dir2) ∧
    acts demo_R (PBU:=bytes) (PBS:=bytes) (role_grant_role m "r1" "r2" (Some 1%N)) dir2
      (Ok (Some 2%N), dir_put dir2 (MRole "t" "r1") (VRole (mkRoleInfo "r1" (ugs_grant_role ugs_empty "r2")))).
Proof.
  destruct (role_mgr_refines demo_R (PBU:=bytes) (PBS:=bytes) "t" no_records role1 "r1" None Global ups_empty "r2")
    as (m & Hm & Ha & _); [done..|vm_compute; reflexivity|].
  destruct (role_mgr_refines demo_R (PBU:=bytes) (PBS:=bytes) "t" dir2 role1 "r1" (Some 1%N) Global ups_empty "r2")
    as (m' & Hm' & _ & _ & _ & _ & Hg & _); [done..|vm_compute; reflexivity|].
  rewrite Hm in Hm'. injection Hm' as <-. exists m. by split_and!.
Defined.
End examples.

(** ** Unescaping keys piece by piece *)
Lemma unescape_escaped_app s r u : unescape_bytes r = Some u → unescape_bytes (escaped s +:+ r) = Some (s +:+ u).
Proof.
  intros Hr. induction s as [|c s IH]; [done|]. cbn [escaped]. rewrite string_app_assoc, string_app_cons.
  by apply unescape_bytes_char.
Qed.
Lemma unescape_plain_app s r u :
  str_all (λ c, negb (bool_decide (c = percent))) s = true → unescape_bytes r = Some u →
  unescape_bytes (s +:+ r) = Some (s +:+ u).
Proof.
  intros Hs Hr. induction s as [|c s IH]; [done|]. simpl in Hs. apply andb_true_iff in Hs as [Hc Hs].
  rewrite !string_app_cons. cbn [unescape_bytes]. rewrite decide_False, IH; [done|done|].
  intros ->. by rewrite bool_decide_true in Hc.
Qed.

(** The number of bytes that are escaped, each by three bytes. *)
Fixpoint specials (s : string) : nat :=
  match s with EmptyString => 0 | String c s => (if is_plain c then 0 else 1) + specials s end.
Lemma escaped_length s : String.length (escaped s) = String.length s + 2 * specials s.
Proof.
  induction s as [|c s IH]; [done|]. cbn [escaped specials]. rewrite string_app_length, IH. unfold escape_char.
  destruct (is_plain c) eqn:Hc; [simpl; lia|]. pose proof (special_char c Hc) as Hs.
  destruct (hex _); [|done]. destruct (hex _); [|done]. simpl. lia.
Qed.

(** ** Slicing *)
Lemma get_app a b n : String.get (String.length a + n) (a +:+ b) = String.get n b.
Proof. induction a as [|c a IH]; [done|]. rewrite string_app_cons. simpl. apply IH. Qed.
Lemma substring_app a b n m : String.substring (String.length a + n) m (a +:+ b) = String.substring n m b.
Proof. induction a as [|c a IH]; [done|]. rewrite string_app_cons. simpl. apply IH. Qed.
Lemma str_from_app {E} a b n : str_from (E:=E) (a +:+ b) (String.length a + n) = str_from b n.
Proof.
  unfold str_from, is_char_boundary. rewrite get_app, substring_app, string_app_length.
  replace (String.length a + String.length b - (String.length a + n)) with (String.length b - n) by lia.
  destruct (String.get n b); [done|]. by rewrite (bool_decide_ext (String.length a + n = _) (n = String.length b)) by lia.
Qed.

Section cluster.
Context `{!Capture, !Utf8ErrorText, !Json NodeInfo, !JsonLaws NodeInfo}.

(** The node that [get_nodes] returns for the record that [add_node] wrote has the id
    of the node without its first bytes: two for every byte of the names of the tenant and
    of the cluster that is escaped.  For names of letters, digits and underscores that is
    the node itself; for other names the id is wrong, or the call panics. *)
Theorem get_nodes_id t c lt node sv :
  t ≠ "" → utf8_valid t = true → utf8_valid c = true → utf8_valid (ni_id node) = true →
  to_json node = Ok (data sv) →
  ∃ m key, ClusterMgr_create t c lt = Ok m ∧ node_record_key m (ni_id node) = Ok key ∧
    node_of_record m key sv =
    (let? id := str_from (ni_id node) (2 * (specials t + specials c)) in
     Ok (mkNodeInfo id (cpu_nums node) (version node) (flight_address node))).
Proof.
  intros Ht Hut Huc Hun Hj. unfold ClusterMgr_create. rewrite bool_decide_false by done. rewrite !key_of_escape. simpl.
  eexists _, _. split; [done|]. unfold node_record_key. rewrite key_of_escape. split; [done|].
  unfold node_of_record. destruct (json_roundtrip node) as (b & Hb & Hd). rewrite Hj in Hb. injection Hb as ->.
  rewrite Hd. cbn [jsonR map_err res_bind cluster_prefix]. unfold unescape_for_key. rewrite !escape_escaped.
  set (pre := CLUSTER_API_KEY_PREFIX +:+ "/" +:+ t +:+ "/" +:+ c +:+ "/databend_query" +:+ "/").
  assert (unescape_bytes ((CLUSTER_API_KEY_PREFIX +:+ "/" +:+ escaped t +:+ "/" +:+ escaped c +:+ "/databend_query") +:+
    "/" +:+ escaped (ni_id node)) = Some (pre +:+ ni_id node)) as ->.
  { unfold pre. rewrite !string_app_assoc. repeat first [apply unescape_escaped_app | apply unescape_plain_app; [done|]].
    apply unescape_bytes_escaped. }
  unfold from_utf8. rewrite utf8_valid_app; [|by unfold pre; repeat (apply utf8_valid_app; [done|])|done].
  cbn [map_err res_bind].
  assert (String.length (CLUSTER_API_KEY_PREFIX +:+ "/" +:+ escaped t +:+ "/" +:+ escaped c +:+ "/databend_query") + 1 =
    String.length pre + 2 * (specials t + specials c)) as ->.
  { unfold pre. rewrite !string_app_length, !escaped_length. simpl. lia. }
  by rewrite str_from_app.
Qed.
End cluster.

(** ** Examples *)
Section examples.
#[local] Existing Instances demo_json demo_json_laws demo_capture demo_utf8_text.
Definition demo_node : NodeInfo := NodeInfo_create "node1" 8 "127.0.0.1:9090".
Lemma get_nodes_id_example :
  ∃ m key, ClusterMgr_create "my-tenant" "c1" 60 = Ok m ∧ node_record_key m "node1" = Ok key ∧
    node_of_record m key (mkSeqV 1 None (plain_encode demo_node)) = Ok (NodeInfo_create "de1" 8 "127.0.0.1:9090").
Proof.
  apply (get_nodes_id "my-tenant" "c1" 60 demo_node (mkSeqV 1 None (plain_encode demo_node))); done.
Defined.
End examples.
