(* ===== verification/AccessControl.v ===== *)
(** * Access control of the query node (src/query/src/users, the privilege check of
    src/query/src/sessions/session.rs, and the GRANT, REVOKE and SHOW GRANTS statements of
    src/query/src/interpreters).

    Users and roles are read through the managers (Management.v); the roles of a tenant
    are cached.  A statement is allowed if the user, or a role reachable from the roles of
    the user, has the privilege. *)
From S2P Require Import Prelude ByteOrder MetaTypes KvApi SchemaApi UserGrant Exception UserTypes Management.

Section users.
Context {W : Type} `{KVApi W, Capture, Utf8ErrorText} {PBU : Type} `{Message PBU, FromToProto PBU UserInfo}.
Context `{Json RoleInfo}.
Abbreviation MC A := (M W ErrorCode A).

(** [match call.await { Ok(r) => Ok(r), Err(e) => handler }]. *)
Definition orElse {A} (m : MC A) (handler : ErrorCode → MC A) : MC A :=
  let! r := tryM m in match r with inr a => ret a | inl e => handler e end.
Definition back {A} (msg : string) (m : MC A) : MC A := mapErrM (λ e, add_message_back e msg) m.

(** ** Users: users/user_mgr.rs *)
Definition api_get_user (tenant : string) (user : UserIdentity) : MC UserInfo :=
  if bool_decide (username user ∈ ["default"; ""; "root"]) then
    let user_info := new_no_auth (username user) (hostname user) in
    ret (if is_localhost user then
           let user_info := set_ui_grants user_info
             (ugs_grant_privileges (ui_grants user_info) Global available_privileges_on_global) in
           set_ui_option user_info (set_all_flag (ui_option user_info))
         else user_info)
  else
    let! client := lift (UserMgr_create tenant) in
    let! v := get_user (PB:=PBU) client user None in
    ret (data v).
Definition api_get_user_with_client_ip (tenant username client_ip : string) : MC UserInfo :=
  let! user := orElse (let! u := api_get_user tenant (mkUserIdentity username client_ip) in ret (Some u))
                 (λ e, if (code e =? Exc.code_of Exc.UnknownUser)%N then ret None else throw e) in
  match user with
  | Some user => ret user
  | None => api_get_user tenant (mkUserIdentity username "%")
  end.
Definition api_get_users (tenant : string) : MC (list UserInfo) :=
  let! client := lift (UserMgr_create tenant) in
  let! l := back "(while get users)." (get_users (PB:=PBU) client) in
  ret (data <$> l).
Definition api_add_user (tenant : string) (user_info : UserInfo) (if_not_exists : bool) : MC N :=
  let! client := lift (UserMgr_create tenant) in
  orElse (add_user (PB:=PBU) client user_info) (λ e,
    if if_not_exists && (code e =? Exc.code_of Exc.UserAlreadyExists)%N then ret 0%N
    else throw (add_message_back e "(while add user)")).
Definition grant_privileges_to_user (tenant : string) (user : UserIdentity) (object : GrantObject)
    (privileges : UserPrivilegeSet) : MC (option N) :=
  let! client := lift (UserMgr_create tenant) in
  back "(while set user privileges)" (grant_privileges (PB:=PBU) client user object privileges None).
Definition revoke_privileges_from_user (tenant : string) (user : UserIdentity) (object : GrantObject)
    (privileges : UserPrivilegeSet) : MC (option N) :=
  let! client := lift (UserMgr_create tenant) in
  back "(while revoke user privileges)" (revoke_privileges (PB:=PBU) client user object privileges None).
Definition grant_role_to_user (tenant : string) (user : UserIdentity) (role : string) : MC (option N) :=
  let! client := lift (UserMgr_create tenant) in
  back "(while grant role to user)" (grant_role (PB:=PBU) client user role None).
Definition revoke_role_from_user (tenant : string) (user : UserIdentity) (role : string) : MC (option N) :=
  let! client := lift (UserMgr_create tenant) in
  back "(while revoke role from user)" (revoke_role (PB:=PBU) client user role None).
Definition api_drop_user (tenant : string) (user : UserIdentity) (if_exists : bool) : MC unit :=
  let! client := lift (UserMgr_create tenant) in
  orElse (drop_user client user None) (λ e,
    if if_exists && (code e =? Exc.code_of Exc.UnknownUser)%N then ret tt
    else throw (add_message_back e "(while set drop user)")).
Definition api_update_user (tenant : string) (user : UserIdentity) (auth_info : option AuthInfo)
    (user_option : option UserOption) : MC (option N) :=
  let! client := lift (UserMgr_create tenant) in
  back "(while alter user)." (update_user (PB:=PBU) client user auth_info user_option None).

(** ** Roles: users/role_mgr.rs *)
Definition api_get_role (tenant role : string) : MC RoleInfo :=
  let! client := lift (RoleMgr_create tenant) in
  let! v := get_role client role None in
  ret (data v).
Definition api_get_roles (tenant : string) : MC (list RoleInfo) :=
  let! client := lift (RoleMgr_create tenant) in
  let! l := back "(while get roles)." (get_roles client) in
  ret (data <$> l).
Definition api_add_role (tenant : string) (role_info : RoleInfo) (if_not_exists : bool) : MC N :=
  let! client := lift (RoleMgr_create tenant) in
  orElse (add_role client role_info) (λ e,
    if if_not_exists && (code e =? Exc.code_of Exc.UserAlreadyExists)%N then ret 0%N
    else throw (add_message_back e "(while add role)")).
Definition grant_privileges_to_role (tenant role : string) (object : GrantObject) (privileges : UserPrivilegeSet)
    : MC (option N) :=
  let! client := lift (RoleMgr_create tenant) in
  back "(while set role privileges)" (role_grant_privileges client role object privileges None).
Definition revoke_privileges_from_role (tenant role : string) (object : GrantObject) (privileges : UserPrivilegeSet)
    : MC (option N) :=
  let! client := lift (RoleMgr_create tenant) in
  back "(while revoke role privileges)" (role_revoke_privileges client role object privileges None).
Definition grant_role_to_role (tenant role grant_role : string) : MC (option N) :=
  let! client := lift (RoleMgr_create tenant) in
  back "(while grant role to role)" (role_grant_role client role grant_role None).
Definition revoke_role_from_role (tenant role revoke_role : string) : MC (option N) :=
  let! client := lift (RoleMgr_create tenant) in
  back "(while revoke role from role)" (role_revoke_role client role revoke_role None).
Definition api_drop_role (tenant role : string) (if_exists : bool) : MC unit :=
  let! client := lift (RoleMgr_create tenant) in
  orElse (drop_role client role None) (λ e,
    if if_exists && (code e =? Exc.code_of Exc.UnknownRole)%N then ret tt
    else throw (add_message_back e "(while set drop role)")).

(** ** Functions and stages: users/user_udf.rs, users/user_stage.rs *)
Section others.
Context `{Json UserDefinedFunction, UdfRules} {PBS : Type} `{Message PBS, FromToProto PBS UserStageInfo}.
Definition api_add_udf (tenant : string) (info : UserDefinedFunction) (if_not_exists : bool) : MC N :=
  let! client := lift (UdfMgr_create tenant) in
  orElse (add_udf client info) (λ e,
    if if_not_exists && (code e =? Exc.code_of Exc.UdfAlreadyExists)%N then ret 0%N else throw e).
Definition api_update_udf (tenant : string) (info : UserDefinedFunction) : MC N :=
  let! client := lift (UdfMgr_create tenant) in
  back "(while update UDF)." (update_udf client info None).
Definition api_get_udf (tenant udf_name : string) : MC UserDefinedFunction :=
  let! client := lift (UdfMgr_create tenant) in
  let! v := get_udf client udf_name None in ret (data v).
Definition api_get_udfs (tenant : string) : MC (list UserDefinedFunction) :=
  let! client := lift (UdfMgr_create tenant) in
  back "(while get UDFs)." (get_udfs client).
(** With [if_exists] every error is dropped. *)
Definition api_drop_udf (tenant udf_name : string) (if_exists : bool) : MC unit :=
  let! client := lift (UdfMgr_create tenant) in
  orElse (drop_udf client udf_name None) (λ e,
    if if_exists : bool then ret tt else throw (add_message_back e "(while drop UDF)")).
Definition api_add_stage (tenant : string) (info : UserStageInfo) (if_not_exists : bool) : MC N :=
  let! client := lift (StageMgr_create tenant) in
  orElse (add_stage (PB:=PBS) client info) (λ e,
    if if_not_exists && (code e =? Exc.code_of Exc.StageAlreadyExists)%N then ret 0%N else throw e).
Definition api_get_stage (tenant stage_name : string) : MC UserStageInfo :=
  let! client := lift (StageMgr_create tenant) in
  let! v := get_stage (PB:=PBS) client stage_name None in ret (data v).
Definition api_get_stages (tenant : string) : MC (list UserStageInfo) :=
  let! client := lift (StageMgr_create tenant) in
  back "(while get stages)." (get_stages (PB:=PBS) client).
Definition api_drop_stage (tenant name : string) (if_exists : bool) : MC unit :=
  let! client := lift (StageMgr_create tenant) in
  orElse (drop_stage client name None) (λ e,
    if if_exists && (code e =? Exc.code_of Exc.UnknownStage)%N then ret tt
    else throw (add_message_back e "(while drop stage)")).
End others.

(** ** Authentication: users/auth/auth_mgr.rs, users/auth/jwt/authenticator.rs *)
Inductive Credential :=
  | CredJwt (token : string)
  | CredPassword (name : string) (password : option bytes) (hostname : option string).
(** The fields of a token that are used; [ensure_user] carries its optional roles. *)
Record Claims := mkClaims {
  claim_sub : option string; claim_tenant_id : option string; claim_ensure_user : option (option (list string)) }.
(** Verification of a token against the configured keys. *)
Class JwtVerifier := verify_token : string → res any_error Claims.
Record AuthMgr := mkAuthMgr { am_tenant : string; am_jwt : bool }.

Section auth.
Context `{Hashes, JwtVerifier} (self : AuthMgr).
Definition parse_jwt (token : string) : res ErrorCode Claims :=
  let? c := map_err (λ e, exc Exc.AuthenticateFailure e) (verify_token token) in
  match claim_sub c with
  | None => Err (exc Exc.AuthenticateFailure "missing field `subject` in jwt")
  | Some _ => Ok c
  end.
Definition check_password (user : UserInfo) (p : option bytes) : res ErrorCode UserInfo :=
  match ui_auth_info user with
  | AI_None => Ok user
  | AI_Password h t =>
      match p with
      | None => Err (exc Exc.AuthenticateFailure "password required")
      | Some p => if bool_decide (h = password_hash t p) then Ok user else Err (exc Exc.AuthenticateFailure "wrong password")
      end
  | AI_JWT => Err (exc Exc.AuthenticateFailure "wrong auth type")
  end.
Definition auth (credential : Credential) : MC (option string * UserInfo) :=
  match credential with
  | CredJwt t =>
      let! claims := lift (if am_jwt self then parse_jwt t
                           else Err (exc Exc.AuthenticateFailure "jwt auth not configured.")) in
      let! user_name := lift (unwrap (claim_sub claims)) in
      let tenant := default (am_tenant self) (claim_tenant_id claims) in
      let! _ :=
        match claim_ensure_user claims with
        | Some roles =>
            let user_info := UserInfo_new user_name "%" AI_JWT in
            let grants := foldl ugs_grant_role (ui_grants user_info) (default [] roles) in
            let! _ := api_add_user tenant (set_ui_grants user_info grants) true in ret tt
        | None => ret tt
        end in
      let! u := api_get_user tenant (mkUserIdentity user_name "%") in
      ret (Some tenant, u)
  | CredPassword n p h =>
      let! user := api_get_user_with_client_ip (am_tenant self) n (default "%" h) in
      let! user_info := lift (check_password user p) in
      ret (None, user_info)
  end.
End auth.
End users.

(** ** Cached roles: users/role_cache_mgr.rs *)
Record CachedRoles := mkCachedRoles { cr_roles : gmap string RoleInfo; cached_at : N }.
(** The state of a query node: the metadata, the cache, and the readings of the monotonic
    clock made so far. *)
Record query_world (W : Type) := mkQueryWorld { q_meta : W; q_cache : gmap string CachedRoles; q_reads : nat }.
Arguments mkQueryWorld {W} q_meta q_cache q_reads.
Arguments q_meta {W} q.
Arguments q_cache {W} q.
Arguments q_reads {W} q.
(** The monotonic clock in nanoseconds, at each reading. *)
Class Instants := instant : nat → N.

(** The loop of [find_all_related_roles]; [None] when the rounds are used up. *)
Section related.
Context `{HashSetIter}.
Fixpoint related_loop (fuel : nat) (cache : gmap string RoleInfo) (visited : gset string) (result : list RoleInfo)
    (q : list string) : option (list RoleInfo) :=
  match fuel with
  | O => None
  | S fuel =>
      match q with
      | [] => Some result
      | role_identity :: q =>
          if decide (role_identity ∈ visited) then related_loop fuel cache visited result q
          else
            let visited := {[role_identity]} ∪ visited in
            match cache !! role_identity with
            | None => related_loop fuel cache visited result q
            | Some role => related_loop fuel cache visited (result ++ [role]) (q ++ ugs_roles (ri_grants role))
            end
      end
  end.
(** One round for each role in the queue at the start, one for each role granted to a
    cached role, and the last. *)
Definition related_fuel (cache : gmap string RoleInfo) (role_identities : list string) : nat :=
  S (length role_identities + sum_list ((λ kr, length (ugs_roles (ri_grants kr.2))) <$> map_to_list cache)).
Definition find_all_related_roles (cache : gmap string RoleInfo) (role_identities : list string)
    : option (list RoleInfo) :=
  related_loop (related_fuel cache role_identities) cache ∅ [] role_identities.
End related.

(** [MetaClientProvider::try_get_kv_client]: opening the embedded store or connecting to the meta service. *)
Class MetaClients (W : Type) := try_get_kv_client : M W ErrorCode unit.

Section query.
Context {W : Type} `{KVApi W, Capture, Utf8ErrorText} {PBU : Type} `{Message PBU, FromToProto PBU UserInfo}.
Context `{Json RoleInfo, Instants, HashSetIter}.
Abbreviation MQ A := (M (query_world W) ErrorCode A).

Definition metaM {A} (m : M W ErrorCode A) : MQ A := λ w,
  let '(r, m) := m (q_meta w) in (r, mkQueryWorld m (q_cache w) (q_reads w)).
Definition now : MQ N := λ w, (Ok (instant (q_reads w)), mkQueryWorld (q_meta w) (q_cache w) (S (q_reads w))).
Definition get_cache : MQ (gmap string CachedRoles) := λ w, (Ok (q_cache w), w).
Definition set_cache (c : gmap string CachedRoles) : MQ unit := λ w, (Ok tt, mkQueryWorld (q_meta w) c (q_reads w)).

(** Fifteen seconds. *)
Definition polling_interval : N := 15 * 10 ^ 9.
(** [collect] into a [HashMap]: a later role replaces an earlier one of the same name. *)
Definition roles_map (roles : list RoleInfo) : gmap string RoleInfo :=
  foldl (λ m r, <[ri_identity r:=r]> m) ∅ roles.
Definition load_roles_data (tenant : string) : MQ CachedRoles :=
  let! roles := metaM (api_get_roles tenant) in
  let! t := now in
  ret (mkCachedRoles (roles_map roles) t).
Definition reload (tenant : string) : MQ unit :=
  let! data := load_roles_data tenant in
  let! cached := get_cache in
  set_cache (<[tenant:=data]> cached).
Definition maybe_reload (tenant : string) : MQ unit :=
  let! cached := get_cache in
  let! need_reload :=
    match cached !! tenant with
    | None => ret true
    | Some cached_roles =>
        let! t := now in
        ret (2 * polling_interval <=? t - cached_at cached_roles)%N
    end in
  if need_reload : bool then reload tenant else ret tt.
Definition invalidate_cache (tenant : string) : MQ unit :=
  let! cached := get_cache in set_cache (base.delete tenant cached).
Definition find_related_roles (tenant : string) (roles : list string) : MQ (list RoleInfo) :=
  let! _ := maybe_reload tenant in
  let! cached := get_cache in
  match cached !! tenant with
  | None => ret []
  | Some cached_roles => lift (unwrap (find_all_related_roles (cr_roles cached_roles) roles))
  end.
(** One round of the background task: a tenant that fails to load keeps its old data. *)
Definition polling_round : MQ unit :=
  let! cached := get_cache in
  forM (map_to_list cached).*1 (λ tenant, let! _ := tryM (E:=ErrorCode) (reload tenant) in ret tt).

(** ** The shared context of a session: sessions/session.rs, sessions/query_ctx_shared.rs, clusters/cluster.rs *)
Section context.
Context `{Json NodeInfo, !MetaClients W}.
Definition discover (discovery : ClusterMgr) : MQ (list NodeInfo) :=
  metaM (mapErrM (λ e, add_message_back e "(while cluster api get_nodes).") (get_nodes discovery)).
(** A new context is made at every call: from the nodes of the cluster and a client of the meta service. *)
Definition get_shared_query_context (discovery : ClusterMgr) : MQ unit :=
  let! _ := discover discovery in
  metaM try_get_kv_client.
(** It has a role cache of its own, which is empty; that of the running query is left alone. *)
Definition with_new_role_cache {A} (m : MQ A) : MQ A := λ w,
  let '(r, w') := m (mkQueryWorld (q_meta w) ∅ (q_reads w)) in (r, mkQueryWorld (q_meta w') (q_cache w) (q_reads w')).
End context.

(** ** The privilege check: sessions/session.rs *)
Record Session := mkSession { s_current_user : option UserInfo; s_current_tenant : string; s_discovery : ClusterMgr }.
Definition get_current_user (self : Session) : res ErrorCode UserInfo :=
  ok_or (s_current_user self) (exc Exc.AuthenticateFailure "unauthenticated").
Definition permission_denied (u : UserInfo) (object : GrantObject) (privilege : UserPrivilegeType) : ErrorCode :=
  exc Exc.PermissionDenied ("Permission denied, user " +:+ UserIdentity_to_string (ui_identity u) +:+ " requires " +:+
    UserPrivilegeType_to_string privilege +:+ " privilege on " +:+ GrantObject_to_string object).
Definition validate_privilege `{Json NodeInfo, !MetaClients W} (self : Session) (object : GrantObject) (privilege : UserPrivilegeType) : MQ unit :=
  let! current_user := lift (get_current_user self) in
  if verify_privilege (ui_grants current_user) object privilege then ret tt
  else
    let! _ := get_shared_query_context (s_discovery self) in
    let! roles := with_new_role_cache (find_related_roles (s_current_tenant self) (ugs_roles (ui_grants current_user))) in
    if existsb (λ r, verify_privilege (ri_grants r) object privilege) roles then ret tt
    else throw (permission_denied current_user object privilege).

(** [SHOW GRANTS]: the entries of the principal merged with those of its roles. *)
Definition execute_show_grants (self : Session) (principal : option PrincipalIdentity) : MQ (list string) :=
  let tenant := s_current_tenant self in
  let! '(identity, grant_set) :=
    match principal with
    | None =>
        let! user := lift (get_current_user self) in
        ret (UserIdentity_to_string (ui_identity user), ui_grants user)
    | Some (PI_User user) =>
        let! user := metaM (api_get_user (PBU:=PBU) tenant user) in
        ret (UserIdentity_to_string (ui_identity user), ui_grants user)
    | Some (PI_Role role) =>
        let! role := metaM (api_get_role tenant role) in
        ret ("'" +:+ ri_identity role +:+ "'", ri_grants role)
    end in
  let! roles := find_related_roles tenant (ugs_roles grant_set) in
  let merged := foldl ugs_bitor grant_set (ri_grants <$> roles) in
  ret ((λ e, GrantEntry_to_string e +:+ " TO " +:+ identity) <$> ug_entries merged).

(** ** Statements: interpreters/interpreter_privilege_grant.rs, interpreter_privilege_revoke.rs,
    interpreter_common.rs, interpreter_show_grants.rs *)

(** Whether a catalog has a database or a table. *)
Class Catalogs := {
  exists_database : string → string → string → MQ bool;
  exists_table : string → string → string → string → MQ bool;
}.
Context `{Catalogs}.
Definition validate_grant_object_exists (tenant : string) (object : GrantObject) : MQ unit :=
  match object with
  | Table catalog database_name table_name =>
      let! b := exists_table catalog tenant database_name table_name in
      if b : bool then ret tt
      else throw (exc Exc.UnknownTable ("table " +:+ database_name +:+ "." +:+ table_name +:+ " not exists"))
  | Database catalog database_name =>
      let! b := exists_database catalog tenant database_name in
      if b : bool then ret tt
      else throw (exc Exc.UnknownDatabase ("database " +:+ database_name +:+ " not exists"))
  | Global => ret tt
  end.
Definition validate_grant_privileges (object : GrantObject) (privileges : UserPrivilegeSet) : res ErrorCode unit :=
  let available_privileges := available_privileges object in
  let ok := forallb (has_privilege available_privileges) (ups_iter privileges) in
  if negb ok then
    Err (exc Exc.IllegalGrant
      "Illegal GRANT/REVOKE command; please consult the manual to see which privileges can be used")
  else Ok tt.
Definition execute_grant (tenant : string) (principal : PrincipalIdentity) (on : GrantObject)
    (priv_types : UserPrivilegeSet) : MQ unit :=
  let! _ := lift (validate_grant_privileges on priv_types) in
  let! _ := validate_grant_object_exists tenant on in
  match principal with
  | PI_User user => let! _ := metaM (grant_privileges_to_user (PBU:=PBU) tenant user on priv_types) in ret tt
  | PI_Role role => let! _ := metaM (grant_privileges_to_role tenant role on priv_types) in ret tt
  end.
Definition execute_revoke (tenant : string) (principal : PrincipalIdentity) (on : GrantObject)
    (priv_types : UserPrivilegeSet) : MQ unit :=
  let! _ := validate_grant_object_exists tenant on in
  match principal with
  | PI_User user => let! _ := metaM (revoke_privileges_from_user (PBU:=PBU) tenant user on priv_types) in ret tt
  | PI_Role role => let! _ := metaM (revoke_privileges_from_role tenant role on priv_types) in ret tt
  end.
End query.
