(* ===== verification/RoleGraph.v ===== *)
(** * The roles reachable from a set of roles.

    [find_all_related_roles] (src/query/src/users/role_cache_mgr.rs) walks the graph of
    roles granted to roles.  The walk ends on every graph, cyclic ones included, and
    returns each cached role that can be reached, once. *)
From S2P Require Import Prelude UserGrant UserTypes AccessControl.

Section graph.
Context `{HashSetIterLaws} (cache : gmap string RoleInfo).
Implicit Types (visited : gset string) (q ids : list string) (r : string).

(** The roles reachable from [ids]: a role leads to the roles granted to it. *)
Inductive reachable ids : string → Prop :=
  | reach_start r : r ∈ ids → reachable ids r
  | reach_step r ri r' :
      reachable ids r → cache !! r = Some ri → r' ∈ ug_roles (ri_grants ri) → reachable ids r'.

Lemma elem_of_roles g r : r ∈ ugs_roles g ↔ r ∈ ug_roles g.
Proof. unfold ugs_roles. by rewrite hash_iter_elements, elem_of_elements. Qed.

(** ** Termination *)

(** The roles that cached roles outside of [visited] can still put into the queue. *)
Definition pending visited (m : gmap string RoleInfo) : nat :=
  sum_list ((λ kr, if decide (kr.1 ∈ visited) then 0 else length (ugs_roles (ri_grants kr.2))) <$> map_to_list m).

Lemma pending_insert visited m k ri :
  m !! k = None →
  pending visited (<[k:=ri]> m) = (if decide (k ∈ visited) then 0 else length (ugs_roles (ri_grants ri))) + pending visited m.
Proof. intros Hk. unfold pending. by rewrite (map_to_list_insert m k ri Hk). Qed.
Lemma pending_mono visited k m : pending ({[k]} ∪ visited) m ≤ pending visited m.
Proof.
  unfold pending. induction (map_to_list m) as [|[k' ri] l IH]; csimpl; [done|].
  destruct (decide (k' ∈ visited)) as [Hv|Hv]; [|case_decide; lia].
  rewrite decide_True by (apply elem_of_union; by right). lia.
Qed.
Lemma pending_visit visited k ri :
  cache !! k = Some ri → k ∉ visited →
  length (ugs_roles (ri_grants ri)) + pending ({[k]} ∪ visited) cache ≤ pending visited cache.
Proof.
  intros Hk Hv. rewrite <-(insert_delete_id cache k ri Hk).
  rewrite !pending_insert by apply lookup_delete_eq. rewrite decide_True by (by apply elem_of_union; left; apply elem_of_singleton).
  rewrite decide_False by done.
  pose proof (pending_mono visited k (base.delete k cache)). lia.
Qed.
Lemma pending_start m : pending ∅ m = sum_list ((λ kr, length (ugs_roles (ri_grants kr.2))) <$> map_to_list m).
Proof. unfold pending. induction (map_to_list m) as [|[k ri] l IH]; [done|]. csimpl. by rewrite IH. Qed.

Lemma loop_ends fuel visited result q :
  length q + pending visited cache < fuel → ∃ l, related_loop fuel cache visited result q = Some l.
Proof.
  revert visited result q. induction fuel as [|fuel IH]; intros visited result q Hf; [lia|].
  destruct q as [|r q]; simpl in *; [by eexists|]. destruct (decide (r ∈ visited)); [apply IH; lia|].
  destruct (cache !! r) as [ri|] eqn:Hr.
  - apply IH. rewrite length_app. pose proof (pending_visit visited r ri Hr n). lia.
  - apply IH. pose proof (pending_mono visited r cache). lia.
Qed.
Lemma loop_more fuel visited result q l n :
  related_loop fuel cache visited result q = Some l → related_loop (fuel + n) cache visited result q = Some l.
Proof.
  revert visited result q. induction fuel as [|fuel IH]; intros visited result q; [done|]. simpl.
  destruct q as [|r q]; [done|]. destruct (decide _); [apply IH|]. destruct (cache !! r); apply IH.
Qed.

(** ** The result *)
Record walk ids visited (result : list RoleInfo) q : Prop := {
  walk_reach r : r ∈ visited ∨ r ∈ q → reachable ids r;
  walk_start r : r ∈ ids → r ∈ visited ∨ r ∈ q;
  walk_step r ri r' : r ∈ visited → cache !! r = Some ri → r' ∈ ug_roles (ri_grants ri) → r' ∈ visited ∨ r' ∈ q;
  walk_result : ∃ names, NoDup names ∧ (∀ r, r ∈ names ↔ r ∈ visited ∧ is_Some (cache !! r)) ∧
                         Forall2 (λ r ri, cache !! r = Some ri) names result;
}.
(** The reachable roles of the cache, each once. *)
Definition closure_of ids (result : list RoleInfo) : Prop :=
  ∃ names, NoDup names ∧ (∀ r, r ∈ names ↔ reachable ids r ∧ is_Some (cache !! r)) ∧
           Forall2 (λ r ri, cache !! r = Some ri) names result.

Lemma walk_skip ids visited result r q : walk ids visited result (r :: q) → r ∈ visited → walk ids visited result q.
Proof.
  intros [Hr Hs Hst Hres] Hin. split; [|..|done].
  - intros x [?|?]; apply Hr; [by left|right; by right].
  - intros x Hx. destruct (Hs x Hx) as [?|[->|?]%elem_of_cons]; auto.
  - intros x ri y Hx Hri Hy. destruct (Hst x ri y Hx Hri Hy) as [?|[->|?]%elem_of_cons]; auto.
Qed.
Lemma walk_unknown ids visited result r q :
  walk ids visited result (r :: q) → cache !! r = None → walk ids ({[r]} ∪ visited) result q.
Proof.
  intros [Hr Hs Hst (names & Hn & Hnames & Hres)] Hc. split.
  - intros x [[->%elem_of_singleton|?]%elem_of_union|?]; apply Hr; [right; by left|by left|right; by right].
  - intros x Hx. rewrite elem_of_union, elem_of_singleton. destruct (Hs x Hx) as [?|[->|?]%elem_of_cons]; auto.
  - intros x ri y [->%elem_of_singleton|Hx]%elem_of_union Hri Hy; [congruence|].
    rewrite elem_of_union, elem_of_singleton. destruct (Hst x ri y Hx Hri Hy) as [?|[->|?]%elem_of_cons]; auto.
  - exists names. split_and!; [done| |done]. intros x. rewrite Hnames, elem_of_union, elem_of_singleton.
    split; [tauto|]. intros [[->|?] [ri ?]]; [congruence|]. split; [done|by eexists].
Qed.
Lemma walk_visit ids visited result r ri q :
  walk ids visited result (r :: q) → cache !! r = Some ri → r ∉ visited →
  walk ids ({[r]} ∪ visited) (result ++ [ri]) (q ++ ugs_roles (ri_grants ri)).
Proof.
  intros [Hr Hs Hst (names & Hn & Hnames & Hres)] Hc Hv. split.
  - intros x. rewrite elem_of_union, elem_of_singleton, elem_of_app, elem_of_roles.
    intros [[->|?]|[?|?]]; [apply Hr; right; by left|apply Hr; by left|apply Hr; right; by right|].
    apply (reach_step ids r ri); [apply Hr; right; by left|done|done].
  - intros x Hx. rewrite elem_of_union, elem_of_singleton, elem_of_app.
    destruct (Hs x Hx) as [?|[->|?]%elem_of_cons]; auto.
  - intros x ri' y [->%elem_of_singleton|Hx]%elem_of_union Hri Hy;
      rewrite elem_of_union, elem_of_singleton, elem_of_app, elem_of_roles.
    + replace ri' with ri in * by congruence. auto.
    + destruct (Hst x ri' y Hx Hri Hy) as [?|[->|?]%elem_of_cons]; auto.
  - exists (names ++ [r]). split_and!.
    + apply NoDup_app. split_and!; [done| |apply NoDup_singleton].
      intros x [Hx _]%Hnames ->%list_elem_of_singleton. done.
    + intros x. rewrite elem_of_app, list_elem_of_singleton, Hnames, elem_of_union, elem_of_singleton.
      split; [intros [[? ?]| -> ]; [tauto|split; [by left|by eexists]]|tauto].
    + apply Forall2_app; [done|]. by constructor.
Qed.
Lemma walk_end ids visited result : walk ids visited result [] → closure_of ids result.
Proof.
  intros [Hr Hs Hst (names & Hn & Hnames & Hres)]. exists names. split_and!; [done| |done].
  intros r. rewrite Hnames. split; intros [Hx Hc]; (split; [|done]); [apply Hr; by left|].
  clear Hc. induction Hx as [r Hx|r ri r' _ IH Hri Hr'].
  - by destruct (Hs r Hx) as [?|?%elem_of_nil].
  - by destruct (Hst r ri r' IH Hri Hr') as [?|?%elem_of_nil].
Qed.
Lemma loop_closure fuel ids visited result q l :
  walk ids visited result q → related_loop fuel cache visited result q = Some l → closure_of ids l.
Proof.
  revert visited result q. induction fuel as [|fuel IH]; intros visited result q Hw; [done|]. simpl.
  destruct q as [|r q]; [intros [= <-]; by eapply walk_end|].
  destruct (decide (r ∈ visited)); [apply IH; by eapply walk_skip|].
  destruct (cache !! r) as [ri|] eqn:Hc; apply IH; [by apply walk_visit|by apply walk_unknown].
Qed.
Lemma related_closure ids l : find_all_related_roles cache ids = Some l → closure_of ids l.
Proof.
  apply loop_closure. split.
  - intros r [?%elem_of_empty|?]; [done|by constructor].
  - by right.
  - by intros r ri r' ?%elem_of_empty.
  - exists []. split_and!; [constructor| |constructor]. intros r. rewrite elem_of_nil. split; [done|by intros [?%elem_of_empty _]].
Qed.
Lemma related_total ids : ∃ l, find_all_related_roles cache ids = Some l.
Proof. apply loop_ends. rewrite pending_start. unfold related_fuel. lia. Qed.

(** The walk over the roles granted to roles terminates on every role graph, cycles
    included: one round for each role in the queue at the start, each role granted to a
    cached role, and the last is enough, and more rounds give the same result. *)
Theorem related_roles_terminates ids n :
  ∃ l, find_all_related_roles cache ids = Some l ∧
       related_loop (related_fuel cache ids + n) cache ∅ [] ids = Some l.
Proof. destruct (related_total ids) as (l & Hl). exists l. split; [done|]. by apply loop_more. Qed.

(** C35: The walk computes the reachability relation: it returns the cached roles that can
    be reached from the given ones, each once, whatever the order of the hash sets. *)
Theorem related_roles_closure ids :
  ∃ l names, find_all_related_roles cache ids = Some l ∧ NoDup names ∧
    (∀ r, r ∈ names ↔ reachable ids r ∧ is_Some (cache !! r)) ∧ Forall2 (λ r ri, cache !! r = Some ri) names l.
Proof.
  destruct (related_total ids) as (l & Hl). destruct (related_closure ids l Hl) as (names & Hn & Hr & Hf).
  by exists l, names.
Qed.
End graph.

(** ** Examples *)
Section examples.
#[local] Instance list_iter : HashSetIter := elements.
#[local] Instance list_iter_laws : HashSetIterLaws.
Proof. by intros s. Qed.
Definition role_with (name : string) (roles : gset string) : RoleInfo := mkRoleInfo name (mkUserGrantSet [] roles).
(** A cycle of two roles, and a role that is not cached. *)
Definition demo_roles : gmap string RoleInfo :=
  {["r1" := role_with "r1" {["r2"]}; "r2" := role_with "r2" {["r1"; "gone"]}]}.
Lemma related_roles_terminates_example :
  ∃ l, find_all_related_roles demo_roles ["r1"] = Some l ∧
       related_loop (related_fuel demo_roles ["r1"] + 7) demo_roles ∅ [] ["r1"] = Some l.
Proof. apply related_roles_terminates. Defined.
Lemma related_roles_closure_example :
  find_all_related_roles demo_roles ["r1"] = Some [role_with "r1" {["r2"]}; role_with "r2" {["r1"; "gone"]}] ∧
  ∃ l names, find_all_related_roles demo_roles ["r1"] = Some l ∧ NoDup names ∧
    (∀ r, r ∈ names ↔ reachable demo_roles ["r1"] r ∧ is_Some (demo_roles !! r)) ∧
    Forall2 (λ r ri, demo_roles !! r = Some ri) names l.
Proof. split; [by vm_compute|]. apply related_roles_closure. Defined.
End examples.
