(* ===== verification/AccessProps.v ===== *)
(** * Properties of access control.

    The privilege check of a session on the records of users and roles: what it allows is
    exactly what the user and the reachable roles are granted.  The last theorem shows that
    the roles of a tenant are mixed with those of other tenants. *)
From S2P Require Import Prelude ByteOrder MetaTypes KvApi KeyCodec SchemaApi SchemaSpec UserGrant Exception UserTypes.
From S2P Require Import SledStore SledView StateMachine StateMachineSpec SmKvApi SmModel SchemaInv SchemaModel.
From S2P Require Import UserGrant Exception UserTypes Management Dir MgmtSpec MgmtModel AccessControl RoleGraph.

Section access.
Context {W : Type} `{!KVApi W, !Clock, !ClockLaws} (R : W → kv_store → Prop) `{!KVApiLaws W R}.
Context `{!Capture, !Utf8ErrorText} {PBU PBS : Type}.
Context `{AllStorable PBU UserInfo, AllStorable PBS UserStageInfo, JsonLaws RoleInfo, JsonLaws UserDefinedFunction}.
Context `{!Instants, !HashSetIter, !HashSetIterLaws}.
Abbreviation metaR := (mgmtR R (PBU:=PBU) (PBS:=PBS)).
Implicit Types (d : mgmt_dir) (w : query_world W).

(** ** Loading the roles of a tenant *)

(** The roles listed for a tenant, by name. *)
Definition roles_in d (t : string) : gmap string RoleInfo :=
  roles_map ((λ '(_, (_, v)), as_role v) <$> dir_list mgmt_to_key d (role_pfx t)).
Definition tenant_ok (t : string) : Prop :=
  t ≠ "" ∧ utf8_valid t = true ∧ str_all (λ x, negb (bool_decide (x = slash))) t = true.

Lemma run_get_roles t d :
  tenant_ok t → runs metaR (api_get_roles t) d
    (Ok ((λ '(_, (_, v)), as_role v) <$> dir_list mgmt_to_key d (role_pfx t))) d.
Proof.
  intros (Hne & Hu & Hs). unfold api_get_roles. rewrite create_role_mgr by done.
  eapply runs_bind; [apply runs_lift|]. eapply runs_bind.
  { unfold back. eapply (runs_map_err _ _ _ _ (Ok _)). by apply runs_get_roles. }
  simpl. rewrite <-list_fmap_compose.
  assert ((data ∘ (λ '(_, (n, v)), SeqV_new n (as_role v))) <$> dir_list mgmt_to_key d (role_pfx t) =
          (λ '(_, (_, v)), as_role v) <$> dir_list mgmt_to_key d (role_pfx t)) as ->; [|apply runs_ret].
  apply list_fmap_ext. by intros ? [? [? ?]].
Qed.

Lemma run_load w d t :
  metaR (q_meta w) d → tenant_ok t →
  ∃ w' c, load_roles_data t w = (Ok c, w') ∧ metaR (q_meta w') d ∧ cr_roles c = roles_in d t.
Proof.
  intros Hw Ht. unfold load_roles_data. destruct (run_get_roles t d Ht (q_meta w) Hw) as (m & Hget & Hm).
  unfold bind, metaM. rewrite Hget. simpl. by eexists _, _.
Qed.
Lemma run_reload w d t :
  metaR (q_meta w) d → tenant_ok t →
  ∃ w' c, reload t w = (Ok tt, w') ∧ metaR (q_meta w') d ∧ q_cache w' !! t = Some c ∧ cr_roles c = roles_in d t.
Proof.
  intros Hw Ht. unfold reload. destruct (run_load w d t Hw Ht) as (w' & c & Hload & Hw' & Hc).
  rewrite (bind_ok _ _ _ _ _ Hload). unfold bind. simpl. eexists _, c. split_and!; [done|done|apply lookup_insert_eq|done].
Qed.

Lemma run_find_related w d t ids :
  metaR (q_meta w) d → tenant_ok t →
  ∃ w' l, with_new_role_cache (find_related_roles t ids) w = (Ok l, w') ∧ metaR (q_meta w') d ∧ q_cache w' = q_cache w ∧
    closure_of (roles_in d t) ids l.
Proof.
  intros Hw Ht. unfold with_new_role_cache, find_related_roles, maybe_reload.
  destruct (run_reload (mkQueryWorld (q_meta w) ∅ (q_reads w)) d t Hw Ht) as (w' & c & Hr & Hw' & Hc & Hs).
  unfold bind. simpl. rewrite lookup_empty. simpl. rewrite Hr, Hc, Hs.
  destruct (related_total (roles_in d t) ids) as (l & Hl). rewrite Hl. eexists _, l. split_and!; [done|done|done|]. by apply related_closure.
Qed.

(** What a user may do by a role that is reachable from the roles of the user. *)
Definition by_role (roles : gmap string RoleInfo) (u : UserInfo) (o : GrantObject) (p : UserPrivilegeType) : Prop :=
  ∃ r ri, reachable roles (ugs_roles (ui_grants u)) r ∧ roles !! r = Some ri ∧ verify_privilege (ri_grants ri) o p = true.

Lemma closure_existsb roles ids l (f : RoleInfo → bool) :
  closure_of roles ids l → existsb f l = true ↔ ∃ r ri, reachable roles ids r ∧ roles !! r = Some ri ∧ f ri = true.
Proof.
  intros (names & _ & Hnames & Hall). rewrite existsb_exists. split.
  - intros (ri & Hin & Hf). apply list_elem_of_In, list_elem_of_lookup in Hin as (i & Hi).
    destruct (Forall2_lookup_r _ _ _ _ _ Hall Hi) as (r & Hr & Hri). exists r, ri.
    split_and!; [|done|done]. apply list_elem_of_lookup_2 in Hr. by apply Hnames in Hr as [? _].
  - intros (r & ri & Hreach & Hri & Hf). assert (r ∈ names) as Hin by (apply Hnames; split; [done|by eexists]).
    apply list_elem_of_lookup in Hin as (i & Hi). destruct (Forall2_lookup_l _ _ _ _ _ Hall Hi) as (ri' & Hl & Hri').
    exists ri. split; [|done]. replace ri with ri' by congruence. apply list_elem_of_In. by eapply list_elem_of_lookup_2.
Qed.

(** *** The tenants whose roles are listed *)
Lemma roles_map_snoc l ri : roles_map (l ++ [ri]) = <[ri_name ri:=ri]> (roles_map l).
Proof. unfold roles_map. by rewrite foldl_app. Qed.
Lemma roles_map_elem l r ri : roles_map l !! r = Some ri → ri ∈ l ∧ ri_name ri = r.
Proof.
  induction l as [|x l IH] using rev_ind; [unfold roles_map; simpl; by rewrite lookup_empty|].
  rewrite roles_map_snoc, lookup_insert_Some, elem_of_app, list_elem_of_singleton.
  intros [[<- <-]|[_ Hl]]; [auto|]. apply IH in Hl as [? ?]. auto.
Qed.
Lemma roles_map_some l ri : ri ∈ l → is_Some (roles_map l !! ri_name ri).
Proof.
  induction l as [|x l IH] using rev_ind; [by intros ?%elem_of_nil|].
  rewrite roles_map_snoc, elem_of_app, list_elem_of_singleton, lookup_insert_is_Some'. intros [Hl| ->]; [auto|by left].
Qed.

Lemma elem_of_roles_in (w : W) d t ri :
  metaR w d → tenant_ok t →
  ri ∈ ((λ '(_, (_, v)), as_role v) <$> dir_list mgmt_to_key d (role_pfx t)) ↔
  ∃ t' n, d_recs d !! MRole t' (ri_name ri) = Some (n, VRole ri) ∧ String.prefix t t' = true.
Proof.
  intros (st & _ & Hr) (_ & _ & Hs). pose proof (dr_ok _ _ _ _ _ _ Hr) as Hok. rewrite list_elem_of_fmap. split.
  - intros ([k [n v]] & -> & [Hk Hp]%(elem_of_dir_list _ _ mgmt_to_key_inj)); [|done].
    apply tenant_prefix in Hp as [Hkind Hp]; [|by right; left|done].
    pose proof (dr_rec _ _ _ _ _ _ Hr k (Hok _ _ Hk)) as Hrec. rewrite Hk in Hrec. destruct Hrec as (b & _ & _ & Hst).
    destruct k as [|t' r| |], v as [|ri| |]; try done. destruct Hst as [<- _]. by exists t', n.
  - intros (t' & n & Hk & Hp). exists (MRole t' (ri_name ri), (n, VRole ri)). split; [done|].
    apply (elem_of_dir_list _ _ mgmt_to_key_inj); [done|]. split; [done|].
    apply tenant_prefix; [by right; left|done|]. by split.
Qed.

Lemma roles_in_some (m : W) d t r ri :
  metaR m d → tenant_ok t → roles_in d t !! r = Some ri →
  ∃ t' n, d_recs d !! MRole t' r = Some (n, VRole ri) ∧ String.prefix t t' = true.
Proof. intros Hm Ht [Hin <-]%roles_map_elem. by apply (elem_of_roles_in m). Qed.
Lemma roles_in_is_some (m : W) d t r t' n v :
  metaR m d → tenant_ok t → d_recs d !! MRole t' r = Some (n, v) → String.prefix t t' = true → is_Some (roles_in d t !! r).
Proof.
  intros Hm Ht Hk Hp. pose proof Hm as (st & _ & Hr). pose proof (dr_ok _ _ _ _ _ _ Hr _ _ Hk) as Hok.
  pose proof (dr_rec _ _ _ _ _ _ Hr _ Hok) as Hrec. rewrite Hk in Hrec. destruct Hrec as (b & _ & _ & Hst).
  destruct v as [|ri| |]; try done. destruct Hst as [<- _]. apply roles_map_some.
  apply (elem_of_roles_in m); [done|done|]. by exists t', n.
Qed.

(** The roles listed for a tenant: those of the tenants whose name starts with its name.  If no other tenant has such a name
    these are the roles of the tenant. *)
Definition role_listing d (t : string) (roles : gmap string RoleInfo) : Prop :=
  (∀ r ri, roles !! r = Some ri → ∃ t' n, d_recs d !! MRole t' r = Some (n, VRole ri) ∧ String.prefix t t' = true) ∧
  (∀ t' r n v, d_recs d !! MRole t' r = Some (n, v) → String.prefix t t' = true → is_Some (roles !! r)) ∧
  ((∀ t' r n v, d_recs d !! MRole t' r = Some (n, v) → String.prefix t t' = true → t' = t) →
   ∀ r ri, roles !! r = Some ri ↔ ∃ n, d_recs d !! MRole t r = Some (n, VRole ri)).
Lemma prefix_refl t : String.prefix t t = true.
Proof. rewrite <-(string_app_nil t) at 2. apply app_prefix. Qed.
Lemma roles_in_listing (m : W) d t : metaR m d → tenant_ok t → role_listing d t (roles_in d t).
Proof.
  intros Hm Ht. split_and!; [intros r ri; by apply (roles_in_some m)|intros t' r n v; by apply (roles_in_is_some m)|].
  intros Halone r ri. split.
  - intros (t' & n & Hk & Hp)%(roles_in_some m _ _ _ _ Hm Ht). rewrite (Halone _ _ _ _ Hk Hp) in Hk. by exists n.
  - intros (n & Hk). destruct (roles_in_is_some m _ _ _ _ _ _ Hm Ht Hk (prefix_refl t)) as (ri' & Hri). rewrite Hri. f_equal.
    destruct (roles_in_some m _ _ _ _ Hm Ht Hri) as (t' & n' & Hk' & Hp). rewrite (Halone _ _ _ _ Hk' Hp) in Hk'. congruence.
Qed.

(** *** The check *)
Section check.
Context `{Json NodeInfo, !MetaClients W}.
(** Connecting to the meta service does not change the records. *)
Class MetaClientsLaws : Prop := client_keeps (m : W) d : metaR m d → metaR (try_get_kv_client m).2 d.
Context `{!MetaClientsLaws}.
Lemma live_list_keeps st (l : list (string * SeqV bytes)) : kv (kv_live_list st l).2 = kv st ∧ last_seq (kv_live_list st l).2 = last_seq st.
Proof.
  revert st. induction l as [|[k v] l IH]; intros st; [done|]. cbn -[live]. specialize (IH (set_reads (S (reads st)) st)).
  destruct (kv_live_list _ l) as [l' st']. simpl in *. destruct IH as [-> ->]. done.
Qed.
Lemma get_nodes_keeps c (m : W) d : metaR m d → metaR (get_nodes c m).2 d.
Proof.
  intros (st & Hw & Hr). unfold get_nodes. destruct (runs_map_err _ ErrorCode_from_meta _ _ _ _ (prefix_list_kv_ok (cluster_prefix c) st) m Hw) as (m1 & Hl & Hw1).
  unfold kvM. rewrite (bind_ok _ _ _ _ _ Hl). destruct (live_list_keeps st (list_prefix (kv st) (cluster_prefix c))) as [Hkv Hls].
  assert (metaR m1 d) as Hm1 by (eexists; split; [exact Hw1|]; by eapply dir_repr_same). clear -Hm1. generalize (kv_list st (cluster_prefix c)).1. intros l.
  assert ((collectM (λ '(node_key, value), lift (node_of_record c node_key value)) l m1).2 = m1) as ->; [|done]. clear.
  induction l as [|[k v] l IH]; [done|]. cbn [collectM]. unfold bind at 1, lift. destruct (node_of_record c k v); [|done..]. unfold bind. destruct (collectM _ l m1) as [[]]; done.
Qed.
Lemma context_keeps c w d :
  metaR (q_meta w) d → metaR (q_meta (get_shared_query_context c w).2) d ∧ q_cache (get_shared_query_context c w).2 = q_cache w.
Proof.
  intros Hw. unfold get_shared_query_context, discover, metaM, mapErrM, bind. pose proof (get_nodes_keeps c _ _ Hw) as Hn.
  destruct (get_nodes c (q_meta w)) as [[nodes| |] m1]; simpl in *; [|done..].
  pose proof (client_keeps m1 d Hn) as Hc. by destruct (try_get_kv_client m1).
Qed.

(** C26: The privilege check.  Without a user it fails.  A user that has been granted the privilege on an object
    that contains the given one passes.  Otherwise a context is made, whose errors are those of the check, and the roles
    of the tenant are loaded: the check passes exactly when a role that can be reached from the roles of the user has been
    granted the privilege, and else is denied with the error that says so.  The roles are those listed under the name of
    the tenant: its own, and those of tenants whose name starts with its name. *)
Theorem privilege_check w d s o p :
  metaR (q_meta w) d → tenant_ok (s_current_tenant s) →
  ∃ r w', validate_privilege s o p w = (r, w') ∧ metaR (q_meta w') d ∧ q_cache w' = q_cache w ∧
    match s_current_user s with
    | None => r = Err (exc Exc.AuthenticateFailure "unauthenticated")
    | Some u =>
        if verify_privilege (ui_grants u) o p then r = Ok tt
        else
          match (get_shared_query_context (s_discovery s) w).1 with
          | Ok _ => ∃ roles, role_listing d (s_current_tenant s) roles ∧
              (r = Ok tt ∧ by_role roles u o p ∨ r = Err (permission_denied u o p) ∧ ¬ by_role roles u o p)
          | Err e => r = Err e
          | Panic => r = Panic
          end
    end.
Proof.
  intros Hw Ht. unfold validate_privilege, get_current_user. destruct (s_current_user s) as [u|]; [|by eexists _, w].
  unfold bind at 1. simpl. destruct (verify_privilege (ui_grants u) o p); [by eexists _, w|].
  destruct (context_keeps (s_discovery s) w d Hw) as [Hw1 Hc1]. unfold bind at 1.
  destruct (get_shared_query_context (s_discovery s) w) as [[[]|e|] w1]; simpl in *; [|by eexists _, w1..].
  destruct (run_find_related w1 d (s_current_tenant s) (ugs_roles (ui_grants u)) Hw1 Ht) as (w' & l & Hl & Hw' & Hc & Hcl).
  rewrite (bind_ok _ _ _ _ _ Hl). pose proof (closure_existsb _ _ _ (λ r, verify_privilege (ri_grants r) o p) Hcl) as Hex.
  pose proof (roles_in_listing _ _ _ Hw Ht) as Hroles.
  destruct (existsb _ l); eexists _, w'; (split_and!; [done|done|congruence|]); exists (roles_in d (s_current_tenant s)); (split; [done|]).
  - left. split; [done|]. by apply Hex.
  - right. split; [done|]. by intros Hr%Hex.
Qed.
End check.

(** ** The GRANT statement *)
Lemma grantable o ps :
  forallb (λ p, implb (has_privilege ps p) (has_privilege (available_privileges o) p)) privileges_by_bit =
  forallb (has_privilege (available_privileges o)) (ups_iter ps).
Proof.
  unfold ups_iter, flags_iter, has_privilege at 1. induction privileges_by_bit as [|p l IH]; [done|]. simpl. rewrite IH.
  by destruct (flags_contains _ (priv_flag p)).
Qed.

Section statement.
Context `{!Catalogs (W:=W)}.
(** Looking up an object does not change the records of users and roles. *)
Class CatalogsLaws : Prop := {
  database_keeps c t n w d : metaR (q_meta w) d → metaR (q_meta (exists_database c t n w).2) d;
  table_keeps c t n m w d : metaR (q_meta w) d → metaR (q_meta (exists_table c t n m w).2) d;
}.
Context `{!CatalogsLaws}.
(** Whether the object of a grant exists, and the error when it does not. *)
Definition object_exists (t : string) (o : GrantObject) w : res ErrorCode bool * query_world W :=
  match o with
  | Global => (Ok true, w)
  | Database c n => exists_database c t n w
  | Table c n m => exists_table c t n m w
  end.
Definition unknown_object (o : GrantObject) : ErrorCode :=
  match o with
  | Table _ n m => exc Exc.UnknownTable ("table " +:+ n +:+ "." +:+ m +:+ " not exists")
  | Database _ n => exc Exc.UnknownDatabase ("database " +:+ n +:+ " not exists")
  | Global => exc Exc.UnknownDatabase ""
  end.
Lemma validate_object t o w d :
  metaR (q_meta w) d →
  ∃ w1, (object_exists t o w).2 = w1 ∧ metaR (q_meta w1) d ∧
    validate_grant_object_exists t o w =
      (match (object_exists t o w).1 with Ok true => Ok tt | Ok false => Err (unknown_object o) | Err e => Err e | Panic => Panic end, w1).
Proof.
  intros Hw. unfold validate_grant_object_exists, object_exists, bind. destruct o as [|c n|c n m].
  - by exists w.
  - pose proof (database_keeps c t n w d Hw) as Hk. destruct (exists_database c t n w) as [[[]|e|] w1]; by exists w1.
  - pose proof (table_keeps c t n m w d Hw) as Hk. destruct (exists_table c t n m w) as [[[]|e|] w1]; by exists w1.
Qed.
(** The grants of a principal: the key of its record, the grants in it, the record with other grants, and the error when it
    is unknown. *)
Definition principal_key (t : string) (who : PrincipalIdentity) : mgmt_key :=
  match who with PI_User i => user_key t i | PI_Role r => MRole t r end.
Definition principal_grants (who : PrincipalIdentity) (v : mgmt_val) : UserGrantSet :=
  match who with PI_User _ => ui_grants (as_user v) | PI_Role _ => ri_grants (as_role v) end.
Definition with_grants (who : PrincipalIdentity) (g : UserGrantSet) (v : mgmt_val) : mgmt_val :=
  match who with PI_User _ => on_user (λ u, set_ui_grants u g) v | PI_Role _ => on_grants (λ _, g) v end.
Definition unknown_principal (who : PrincipalIdentity) : ErrorCode :=
  match who with
  | PI_User i => add_message_back (unknown_user i) "(while set user privileges)"
  | PI_Role r => add_message_back (unknown_role r) "(while set role privileges)"
  end.
Definition principal_ok (t : string) (who : PrincipalIdentity) : Prop :=
  match who with PI_User _ => t ≠ "" | PI_Role r => tenant_ok t ∧ utf8_valid r = true end.
Definition grant_to (t : string) (who : PrincipalIdentity) (o : GrantObject) (ps : UserPrivilegeSet) : M W ErrorCode (option N) :=
  match who with
  | PI_User i => grant_privileges_to_user (PBU:=PBU) t i o ps
  | PI_Role r => grant_privileges_to_role t r o ps
  end.
Lemma run_grant_to t who o ps d (m : W) :
  metaR m d → principal_ok t who → (d_seq d + 1 < u64_modulus)%N →
  ∃ r m', grant_to t who o ps m = (r, m') ∧
    match d_recs d !! principal_key t who with
    | None => metaR m' d ∧ r = Err (unknown_principal who)
    | Some (_, v) => (∃ n, r = Ok n) ∧ metaR m' (dir_put d (principal_key t who) (with_grants who (ugs_grant_privileges (principal_grants who v) o ps) v))
    end.
Proof.
  intros Hm Hwho Hroom. destruct who as [i|rl]; simpl in *.
  - unfold grant_privileges_to_user. rewrite create_user_mgr by done.
    pose proof (runs_map_err _ (λ e, add_message_back e "(while set user privileges)") _ _ _ _
      (runs_change_user R t i (λ u, set_ui_grants u (ugs_grant_privileges (ui_grants u) o ps)) None d (λ _, eq_refl) Hroom)) as Hrun.
    destruct (Hrun m Hm) as (m' & Hr & Hm'). unfold bind, lift, back, grant_privileges. rewrite Hr. eexists _, m'. split; [done|].
    unfold spec_change, dir_get in *. destruct (d_recs d !! user_key t i) as [[n v]|]; simpl in *; [|done]. split; [by eexists|]. exact Hm'.
  - destruct Hwho as [(Hne & Hu & Hs) Hrl]. unfold grant_privileges_to_role. rewrite create_role_mgr by done.
    pose proof (runs_map_err _ (λ e, add_message_back e "(while set role privileges)") _ _ _ _
      (runs_change_role R t Hu Hs rl (λ g, ugs_grant_privileges g o ps) None d Hrl Hroom)) as Hrun.
    destruct (Hrun m Hm) as (m' & Hr & Hm'). unfold bind, lift, back, role_grant_privileges. rewrite Hr. eexists _, m'. split; [done|].
    unfold spec_change, dir_get in *. destruct (d_recs d !! MRole t rl) as [[n v]|]; simpl in *; [|done]. split; [by eexists|]. exact Hm'.
Qed.

(** C37: [GRANT] of privileges to a user or a role.  Privileges that the object does not have are refused before anything is
    done; then the object is looked up, an error of which is returned, and an object that does not exist is an error; an
    unknown user or role is an error that changes nothing.  Otherwise the record of the user or role is stored with all else
    as it was, the privileges it had and exactly those granted, on the object and on the objects inside it. *)
Theorem grant_statement w d t who o ps :
  metaR (q_meta w) d → principal_ok t who → (d_seq d + 1 < u64_modulus)%N →
  ∃ r w', execute_grant (PBU:=PBU) t who o ps w = (r, w') ∧
    if forallb (λ p, implb (has_privilege ps p) (has_privilege (available_privileges o) p)) privileges_by_bit then
      match (object_exists t o w).1 with
      | Ok true =>
          match d_recs d !! principal_key t who with
          | None => r = Err (unknown_principal who) ∧ metaR (q_meta w') d
          | Some (_, v) => r = Ok tt ∧ ∃ g, metaR (q_meta w') (dir_put d (principal_key t who) (with_grants who g v)) ∧
              ug_roles g = ug_roles (principal_grants who v) ∧
              ∀ o' p, verify_privilege g o' p =
                verify_privilege (principal_grants who v) o' p || (object_contains o o' && has_privilege ps p)
          end
      | Ok false => r = Err (unknown_object o) ∧ metaR (q_meta w') d
      | Err e => r = Err e ∧ metaR (q_meta w') d
      | Panic => r = Panic ∧ metaR (q_meta w') d
      end
    else w' = w ∧ r = Err (exc Exc.IllegalGrant
       "Illegal GRANT/REVOKE command; please consult the manual to see which privileges can be used").
Proof.
  intros Hw Hwho Hroom. unfold execute_grant, validate_grant_privileges. rewrite grantable.
  destruct (forallb _ (ups_iter ps)); simpl; [|by eexists _, w].
  unfold bind at 1. simpl. destruct (validate_object t o w d Hw) as (w1 & _ & Hw1 & Hobj). unfold bind at 1. rewrite Hobj.
  destruct (object_exists t o w).1 as [[]|e|]; simpl; [|by eexists _, w1..].
  destruct (run_grant_to t who o ps d (q_meta w1) Hw1 Hwho Hroom) as (r & m' & Hrun & Hres).
  assert (match who with PI_User user => let! _ := metaM (grant_privileges_to_user (PBU:=PBU) t user o ps) in ret tt
    | PI_Role role => let! _ := metaM (grant_privileges_to_role t role o ps) in ret tt end w1 = (let! _ := metaM (grant_to t who o ps) in ret tt) w1) as -> by by destruct who.
  unfold bind, metaM. rewrite Hrun. destruct (d_recs d !! principal_key t who) as [[n v]|].
  - destruct Hres as [[n' ->] Hm']. eexists _, _. split; [done|]. split; [done|]. eexists. split; [exact Hm'|]. split; [apply granted_roles|]. intros o' p. apply verify_granted.
  - destruct Hres as [Hm' ->]. by eexists _, _.
Qed.
End statement.

(** ** Tenants *)

(** The roles loaded for a tenant are those of every tenant whose name starts with its
    name: a role is found under a name exactly when some such tenant has one, and it may be
    that of another tenant. *)
Theorem role_cache_mixes_tenants w d t :
  metaR (q_meta w) d → tenant_ok t →
  ∃ c w', load_roles_data t w = (Ok c, w') ∧
    (∀ r, is_Some (cr_roles c !! r) ↔
       ∃ t' n v, d_recs d !! MRole t' r = Some (n, v) ∧ String.prefix t t' = true) ∧
    ∀ r ri, cr_roles c !! r = Some ri →
      ∃ t' n, d_recs d !! MRole t' r = Some (n, VRole ri) ∧ String.prefix t t' = true.
Proof.
  intros Hw Ht. destruct (run_load w d t Hw Ht) as (w' & c & Hload & _ & Hc). exists c, w'. rewrite Hc.
  split_and!; [done| |intros r ri; by apply (roles_in_some _ _ _ _ _ Hw)]. intros r. split.
  - intros (ri & (t' & n & ?)%(roles_in_some _ _ _ _ _ Hw Ht)). by exists t', n, (VRole ri).
  - intros (t' & n & v & Hk & Hp). by apply (roles_in_is_some _ _ _ _ _ _ _ Hw Ht Hk).
Qed.
End access.

(** ** Examples *)
Section examples.
#[local] Existing Instances quiet_env quiet_no_faults mem_serde mem_serde_laws small_clock small_clock_laws
  demo_message demo_proto demo_struct_laws demo_json demo_json_laws demo_kv_api demo_kv_api_laws demo_storable
  demo_capture demo_utf8_text.
#[local] Instance set_iter : HashSetIter := elements.
#[local] Instance set_iter_laws : HashSetIterLaws.
Proof. by intros s. Qed.
#[local] Instance demo_instants : Instants := λ n, N.of_nat n.
Abbreviation demo_R := (sm_store (Membership:=list N)).
Abbreviation demo_metaR := (mgmtR demo_R (PBU:=bytes) (PBS:=bytes)).
#[local] Instance demo_catalogs : Catalogs (W:=world mem_tree sm_env) := {|
  exists_database _ _ _ := ret true; exists_table _ _ _ _ := ret true |}.

Definition reader : UserInfo :=
  set_ui_grants (UserInfo_new "u" "%" AI_None) (ugs_grant_role ugs_empty "r").

#[local] Instance demo_clients : MetaClients (world mem_tree sm_env) := ret tt.
#[local] Instance demo_clients_laws : MetaClientsLaws demo_R (PBU:=bytes) (PBS:=bytes).
Proof. by intros m d. Qed.
#[local] Instance demo_catalogs_laws : CatalogsLaws demo_R (PBU:=bytes) (PBS:=bytes).
Proof. by split. Qed.
Definition demo_discovery : ClusterMgr := mkClusterMgr 60 "__fd_clusters/t/c/databend_query".
(** Tenant [t] has a role that may do everything. *)
Definition all_role : RoleInfo := mkRoleInfo "r" (ugs_grant_privileges ugs_empty Global available_privileges_on_global).
Definition role_dir : mgmt_dir := dir_put no_records (MRole "t" "r") (VRole all_role).
Definition role_world : world mem_tree sm_env := (add_role (mkRoleMgr (role_pfx "t")) all_role empty_world).2.
Abbreviation role_query := (mkQueryWorld role_world ∅ 0).
Lemma role_world_ok : demo_metaR role_world role_dir.
Proof.
  destruct (runs_add_role demo_R (PBU:=bytes) (PBS:=bytes) "t" eq_refl eq_refl all_role no_records eq_refl
    ltac:(vm_compute; reflexivity) empty_world demo_mgmt_empty) as (m & Hrun & Hm). unfold role_world. by rewrite Hrun.
Qed.
Lemma role_dir_alone t' r n v : d_recs role_dir !! MRole t' r = Some (n, v) → t' = "t" ∧ r = "r" ∧ v = VRole all_role.
Proof. simpl. rewrite lookup_insert_Some, lookup_empty. intros [[[= <- <-] [= <- <-]]|[_ ?]]; done. Qed.

(** A user with the role passes, one without it is denied. *)
Lemma privilege_check_example :
  (∃ w', validate_privilege (mkSession (Some reader) "t" demo_discovery) Global Select role_query = (Ok tt, w')) ∧
  (let u := UserInfo_new "u" "%" AI_None in
   ∃ w', validate_privilege (mkSession (Some u) "t" demo_discovery) Global Select role_query = (Err (permission_denied u Global Select), w')).
Proof.
  assert ((get_shared_query_context demo_discovery role_query).1 = Ok tt) as Hcontext by (vm_compute; reflexivity).
  split; [set (u := reader)|intros u];
    (destruct (privilege_check demo_R (PBU:=bytes) (PBS:=bytes) role_query role_dir (mkSession (Some u) "t" demo_discovery) Global Select role_world_ok)
      as (r & w' & Hrun & _ & _ & Hr); [by split_and!|]); exists w'; rewrite Hrun; cbn [s_current_user s_discovery s_current_tenant] in Hr;
    assert (verify_privilege (ui_grants u) Global Select = false) as Hown_grants by (vm_compute; reflexivity); rewrite Hown_grants, Hcontext in Hr;
    destruct Hr as (roles & (_ & _ & Hown) & [[-> Hr]|[-> Hr]]); try reflexivity; exfalso.
  - apply Hr. exists "r", all_role. split_and!; [|apply Hown; [|by exists 1%N]; by intros ????[-> _]%role_dir_alone|by vm_compute].
    constructor. by left.
  - destruct Hr as (r & ri & Hreach & _). assert (ugs_roles (ui_grants u) = []) as Hnil by (vm_compute; reflexivity). rewrite Hnil in Hreach.
    induction Hreach as [r Hin|]; [by apply elem_of_nil in Hin|done].
Defined.

(** Granting to the role succeeds, to an unknown user it fails, and a privilege that databases do not have is refused. *)
Lemma grant_statement_example :
  (∃ w', execute_grant (PBU:=bytes) "t" (PI_Role "r") Global (mkUserPrivilegeSet (priv_flag Select)) role_query = (Ok tt, w')) ∧
  (∃ w', execute_grant (PBU:=bytes) "t" (PI_User (ui_identity reader)) Global (mkUserPrivilegeSet (priv_flag Select)) role_query
    = (Err (add_message_back (unknown_user (ui_identity reader)) "(while set user privileges)"), w')) ∧
  (∃ e, execute_grant (PBU:=bytes) "t" (PI_Role "r") (Database "default" "d") (mkUserPrivilegeSet (priv_flag CreateUser)) role_query = (Err e, role_query)).
Proof.
  split_and!.
  - destruct (grant_statement demo_R (PBU:=bytes) (PBS:=bytes) role_query role_dir "t" (PI_Role "r") Global
      (mkUserPrivilegeSet (priv_flag Select)) role_world_ok) as (r & w' & Hrun & Hr); [by split_and!|vm_compute; reflexivity|].
    exists w'. rewrite Hrun. by destruct Hr as [-> _].
  - destruct (grant_statement demo_R (PBU:=bytes) (PBS:=bytes) role_query role_dir "t" (PI_User (ui_identity reader)) Global
      (mkUserPrivilegeSet (priv_flag Select)) role_world_ok) as (r & w' & Hrun & Hr); [done|vm_compute; reflexivity|].
    exists w'. rewrite Hrun. by destruct Hr as [-> _].
  - destruct (grant_statement demo_R (PBU:=bytes) (PBS:=bytes) role_query role_dir "t" (PI_Role "r") (Database "default" "d")
      (mkUserPrivilegeSet (priv_flag CreateUser)) role_world_ok) as (r & w' & Hrun & Hr); [by split_and!|vm_compute; reflexivity|].
    destruct Hr as [-> ->]. eexists. exact Hrun.
Defined.

(** Tenant [ab] has a role that may do everything; tenant [a] has no role. *)
Definition other_role : RoleInfo :=
  mkRoleInfo "r" (ugs_grant_privileges ugs_empty Global available_privileges_on_global).
Definition other_dir : mgmt_dir := dir_put no_records (MRole "ab" "r") (VRole other_role).
Lemma role_cache_mixes_tenants_example :
  d_recs other_dir !! MRole "a" "r" = None ∧
  ∃ w c w', demo_metaR (q_meta w) other_dir ∧ load_roles_data "a" w = (Ok c, w') ∧ is_Some (cr_roles c !! "r").
Proof.
  destruct (runs_add_role demo_R (PBU:=bytes) (PBS:=bytes) "ab" eq_refl eq_refl other_role no_records eq_refl
    ltac:(vm_compute; reflexivity) empty_world demo_mgmt_empty) as (m & _ & Hm).
  split; [by vm_compute|]. exists (mkQueryWorld m ∅ 0).
  destruct (role_cache_mixes_tenants demo_R (PBU:=bytes) (PBS:=bytes) (mkQueryWorld m ∅ 0) other_dir "a" Hm)
    as (c & w' & Hload & Hiff & _); [by split_and!|].
  exists c, w'. split_and!; [done|done|]. apply Hiff. exists "ab", 1%N, (VRole other_role). by vm_compute.
Defined.
End examples.
