(* ===== verification/Lru.v ===== *)
(** * The cache with least-recently-used eviction (src/common/cache/src: cache/lru.rs and
    meter).

    A cache is a linked hash map, a measure of its contents and a capacity.  The linked
    hash map of the crate ritelinked is a parameter ([LinkedHashMap]); its laws describe
    the operations on the list of entries, oldest first. *)
From S2P Require Import Prelude.

(** ** The linked hash map *)
Class LinkedHashMap (T K V : Type) := {
  lhm_new : T;
  lhm_get : T → K → option V;
  lhm_insert : T → K → V → option V * T;
  lhm_get_refresh : T → K → option V * T;
  lhm_modify : T → K → (V → V) → T;
  lhm_remove : T → K → option V * T;
  lhm_pop_front : T → option (K * V) * T;
  lhm_front : T → option (K * V);
  lhm_len : T → N;
  lhm_iter : T → list (K * V);
}.
#[global] Hint Mode LinkedHashMap ! - - : typeclass_instances.

Section entries.
Context {K V : Type} `{EqDecision K}.
Implicit Types (l : list (K * V)) (k : K).

Fixpoint assoc l k : option V :=
  match l with
  | [] => None
  | (k', v) :: l => if bool_decide (k' = k) then Some v else assoc l k
  end.
Definition without l k : list (K * V) := base.filter (λ p, p.1 ≠ k) l.
(** An entry that is used becomes the youngest. *)
Definition touch l k : list (K * V) :=
  match assoc l k with Some v => without l k ++ [(k, v)] | None => l end.
Definition change l k (f : V → V) : list (K * V) :=
  (λ p, if bool_decide (p.1 = k) then (p.1, f p.2) else p) <$> l.
End entries.

(** The documented behaviour of the map: entries are kept in the order of insertion, and
    inserting under a present key, like [get_refresh], moves the entry to the back. *)
Class LinkedHashMapLaws (T K V : Type) `{LinkedHashMap T K V, EqDecision K} : Prop := {
  iter_new : lhm_iter (lhm_new : T) = [];
  get_iter (m : T) k : lhm_get m k = assoc (lhm_iter m) k;
  insert_iter (m : T) k v :
    (lhm_insert m k v).1 = assoc (lhm_iter m) k ∧
    lhm_iter (lhm_insert m k v).2 = without (lhm_iter m) k ++ [(k, v)];
  refresh_iter (m : T) k :
    (lhm_get_refresh m k).1 = assoc (lhm_iter m) k ∧ lhm_iter (lhm_get_refresh m k).2 = touch (lhm_iter m) k;
  modify_iter (m : T) k f : lhm_iter (lhm_modify m k f) = change (lhm_iter m) k f;
  remove_iter (m : T) k :
    (lhm_remove m k).1 = assoc (lhm_iter m) k ∧ lhm_iter (lhm_remove m k).2 = without (lhm_iter m) k;
  pop_iter (m : T) :
    (lhm_pop_front m).1 = head (lhm_iter m) ∧ lhm_iter (lhm_pop_front m).2 = tail (lhm_iter m);
  front_iter (m : T) : lhm_front m = head (lhm_iter m);
  len_iter (m : T) : lhm_len m = N.of_nat (length (lhm_iter m));
}.

(** ** Meters *)
Class Meter (K V : Type) := {
  Measure : Type;
  measure_default : Measure;
  measure : K → V → Measure;
  meter_add : Measure → Measure → Measure;
  meter_sub : Measure → Measure → Measure;
  meter_size : Measure → option N;
}.
(** [Count] measures nothing: the size is the number of entries. *)
Definition Count {K V} : Meter K V := {|
  Measure := unit; measure_default := tt; measure _ _ := tt;
  meter_add _ _ := tt; meter_sub _ _ := tt; meter_size _ := None |}.
(** A meter whose measure is a [usize]. *)
Definition usize_meter {K V} (f : K → V → N) : Meter K V := {|
  Measure := N; measure_default := 0%N; measure := f;
  meter_add := u64_add; meter_sub := u64_sub; meter_size m := Some m |}.
Definition BytesMeter {K} : Meter K string := usize_meter (λ _ v, N.of_nat (String.length v)).
Definition FileSize {K} : Meter K N := usize_meter (λ _ v, v).

(** ** The cache *)
Section lru.
Context {T K V : Type} `{!LinkedHashMap T K V, !Meter K V}.

Record LruCache := mkLruCache { lc_map : T; current_measure : Measure; max_capacity : N }.
Implicit Types self : LruCache.

Definition with_meter (capacity : N) : LruCache := mkLruCache lhm_new measure_default capacity.
Definition lru_get self (k : K) : option V * LruCache :=
  let '(o, m) := lhm_get_refresh (lc_map self) k in (o, mkLruCache m (current_measure self) (max_capacity self)).
(** The caller changes the value in place by [f]. *)
Definition lru_get_mut self (k : K) (f : V → V) : option V * LruCache :=
  let '(o, m) := lhm_get_refresh (lc_map self) k in
  (o, mkLruCache (lhm_modify m k f) (current_measure self) (max_capacity self)).
Definition lru_peek self (k : K) : option V := lhm_get (lc_map self) k.
Definition lru_peek_mut self (k : K) (f : V → V) : option V * LruCache :=
  (lhm_get (lc_map self) k, mkLruCache (lhm_modify (lc_map self) k f) (current_measure self) (max_capacity self)).
Definition peek_by_policy self : option (K * V) := lhm_front (lc_map self).
Definition lru_contains self (k : K) : bool := bool_decide (is_Some (lhm_get (lc_map self) k)).
Definition lru_len self : N := lhm_len (lc_map self).
Definition lru_is_empty self : bool := (lhm_len (lc_map self) =? 0)%N.
Definition lru_size self : N :=
  match meter_size (current_measure self) with Some s => s | None => lhm_len (lc_map self) end.
Definition lru_capacity self : N := max_capacity self.

Definition pop_by_policy self : option (K * V) * LruCache :=
  match lhm_pop_front (lc_map self) with
  | (Some (k, v), m) =>
      (Some (k, v), mkLruCache m (meter_sub (current_measure self) (measure k v)) (max_capacity self))
  | (None, m) => (None, mkLruCache m (current_measure self) (max_capacity self))
  end.
(** [while self.size() > capacity { self.pop_by_policy(); }]; [None] when the fuel is used up. *)
Fixpoint evict (fuel : nat) (capacity : N) self : option LruCache :=
  match fuel with
  | O => None
  | S fuel => if (capacity <? lru_size self)%N then evict fuel capacity (pop_by_policy self).2 else Some self
  end.
Definition evict_fuel self : nat := S (N.to_nat (lru_len self)).

Definition lru_put self (k : K) (v : V) : option (option V * LruCache) :=
  let new_size := measure k v in
  let current := meter_add (current_measure self) new_size in
  let current :=
    match lhm_get (lc_map self) k with
    | Some old => meter_sub current (measure k old)
    | None => current
    end in
  let '(old_val, m) := lhm_insert (lc_map self) k v in
  let self := mkLruCache m current (max_capacity self) in
  self ← evict (evict_fuel self) (lru_capacity self) self;
  Some (old_val, self).
Definition lru_pop self (k : K) : option V * LruCache :=
  match lhm_remove (lc_map self) k with
  | (Some v, m) => (Some v, mkLruCache m (meter_sub (current_measure self) (measure k v)) (max_capacity self))
  | (None, m) => (None, mkLruCache m (current_measure self) (max_capacity self))
  end.
Definition set_capacity self (capacity : N) : option LruCache :=
  self ← evict (evict_fuel self) capacity self;
  Some (mkLruCache (lc_map self) (current_measure self) capacity).
Definition lru_clear self : LruCache := mkLruCache lhm_new measure_default (max_capacity self).
(** [extend] puts the entries one after the other. *)
Fixpoint lru_extend self (l : list (K * V)) : option LruCache :=
  match l with
  | [] => Some self
  | (k, v) :: l => '(_, self) ← lru_put self k v; lru_extend self l
  end.
Definition lru_iter self : list (K * V) := lhm_iter (lc_map self).
End lru.
Arguments LruCache T K V {_}.

(** ** Correctness *)

(** The weight of an entry and the measures that stand for a total weight. *)
Class MeterLaws (K V : Type) `{Meter K V} := {
  weight : K → V → N;
  stands_for : N → Measure → Prop;
  stands_default : stands_for 0 measure_default;
  stands_add n m k v :
    stands_for n m → (n + weight k v < u64_modulus)%N → stands_for (n + weight k v) (meter_add m (measure k v));
  stands_sub n m k v :
    stands_for n m → (weight k v ≤ n)%N → stands_for (n - weight k v) (meter_sub m (measure k v));
  stands_size n m :
    stands_for n m → match meter_size m with Some s => s = n | None => ∀ k v, weight k v = 1%N end;
}.
#[export] Program Instance count_laws {K V} : @MeterLaws K V Count := {|
  weight _ _ := 1%N; stands_for _ _ := True |}.
Solve All Obligations with done.

Lemma u64_sub_small a b : (b ≤ a → a < u64_modulus → u64_sub a b = a - b)%N.
Proof.
  intros Hb Ha. unfold u64_sub. rewrite (N.mod_small b) by lia.
  replace (a + (u64_modulus - b))%N with (a - b + 1 * u64_modulus)%N by lia.
  rewrite N.Div0.mod_add. apply N.mod_small. lia.
Qed.
#[export] Program Instance usize_meter_laws {K V} (f : K → V → N) : @MeterLaws K V (usize_meter f) := {|
  weight := f; stands_for n m := (n < u64_modulus)%N ∧ m = n |}.
Next Obligation. done. Qed.
Next Obligation. simpl. intros K V f n m k v [Hn ->] Hadd. by rewrite u64_add_small. Qed.
Next Obligation. simpl. intros K V f n m k v [Hn ->] Hle. rewrite u64_sub_small by done. split; [lia|done]. Qed.
Next Obligation. simpl. by intros K V f n m [_ ->]. Qed.
#[export] Instance file_size_laws {K} : @MeterLaws K N FileSize := usize_meter_laws (λ _ v, v).
#[export] Instance bytes_meter_laws {K} : @MeterLaws K string BytesMeter :=
  usize_meter_laws (λ _ v, N.of_nat (String.length v)).

Section entries_lemmas.
Context {K V : Type} `{EqDecision K, MeterLaws K V}.
Implicit Types (l : list (K * V)) (k : K).

Fixpoint total l : N := match l with [] => 0 | (k, v) :: l => weight k v + total l end.
(** The oldest entries are dropped until the rest fits. *)
Fixpoint trim (capacity : N) l : list (K * V) :=
  match l with
  | [] => []
  | p :: l' => if (capacity <? total l)%N then trim capacity l' else l
  end.

Lemma total_app l1 l2 : total (l1 ++ l2) = (total l1 + total l2)%N.
Proof. induction l1 as [|[k v] l1 IH]; simpl; [done|]. rewrite IH. lia. Qed.

Lemma assoc_None l k : assoc l k = None ↔ k ∉ l.*1.
Proof.
  induction l as [|[k' v] l IH]; csimpl; [set_solver|]. rewrite not_elem_of_cons.
  case_bool_decide as Hk; [by split; [|intros []]|]. rewrite IH. split; [by split|by intros []].
Qed.
Lemma assoc_Some l k v : NoDup l.*1 → assoc l k = Some v ↔ (k, v) ∈ l.
Proof.
  induction l as [|[k' v'] l IH]; csimpl; [by rewrite elem_of_nil|]. intros [Hno Hnd]%NoDup_cons.
  rewrite elem_of_cons. case_bool_decide as Hk.
  - subst k'. split; [intros [= ->]; by left|]. intros [[= ->]|Hin]; [done|].
    destruct Hno. apply list_elem_of_fmap. by exists (k, v).
  - rewrite IH by done. split; [by right|]. intros [[= -> ->]|]; done.
Qed.

Lemma without_cons k' v l k :
  without ((k', v) :: l) k = if bool_decide (k' = k) then without l k else (k', v) :: without l k.
Proof.
  unfold without. rewrite filter_cons. simpl. destruct (decide (k' ≠ k)) as [Hk|Hk].
  - by rewrite bool_decide_false.
  - rewrite bool_decide_true; [done|]. by destruct (decide (k' = k)).
Qed.
Lemma without_absent l k : k ∉ l.*1 → without l k = l.
Proof.
  induction l as [|[k' v] l IH]; csimpl; [done|]. rewrite not_elem_of_cons. intros [Hk Hl].
  rewrite without_cons, bool_decide_false by done. by rewrite IH.
Qed.
Lemma elem_of_without l k p : p ∈ without l k ↔ p ∈ l ∧ p.1 ≠ k.
Proof. unfold without. rewrite list_elem_of_filter. tauto. Qed.
Lemma without_key l k : k ∉ (without l k).*1.
Proof. intros (p & -> & [_ Hp]%elem_of_without)%list_elem_of_fmap. done. Qed.
Lemma NoDup_without l k : NoDup l.*1 → NoDup (without l k).*1.
Proof.
  induction l as [|[k' v] l IH]; csimpl; [done|]. intros [Hno Hnd]%NoDup_cons.
  rewrite without_cons. case_bool_decide; [by apply IH|]. csimpl. apply NoDup_cons. split; [|by apply IH].
  intros (p & Hp & [Hin _]%elem_of_without)%list_elem_of_fmap. destruct Hno. rewrite Hp. by apply list_elem_of_fmap_2.
Qed.
Lemma total_without l k :
  NoDup l.*1 → (total (without l k) + match assoc l k with Some v => weight k v | None => 0 end)%N = total l.
Proof.
  induction l as [|[k' v] l IH]; csimpl; [done|]. intros [Hno Hnd]%NoDup_cons. rewrite without_cons.
  case_bool_decide as Hk.
  - subst k'. rewrite without_absent by done. lia.
  - simpl. rewrite <-(IH Hnd). destruct (assoc l k); lia.
Qed.
Lemma NoDup_moved l k v : NoDup l.*1 → NoDup (without l k ++ [(k, v)]).*1.
Proof.
  intros Hl. rewrite fmap_app. apply NoDup_app. split_and!; [by apply NoDup_without| |apply NoDup_singleton].
  intros x Hx Hk%list_elem_of_singleton. subst x. by apply without_key in Hx.
Qed.
Lemma total_touch l k : NoDup l.*1 → total (touch l k) = total l.
Proof.
  intros Hl. unfold touch. pose proof (total_without l k Hl) as Ht. destruct (assoc l k); [|done].
  rewrite total_app. simpl. lia.
Qed.
Lemma NoDup_touch l k : NoDup l.*1 → NoDup (touch l k).*1.
Proof. intros Hl. unfold touch. destruct (assoc l k); [by apply NoDup_moved|done]. Qed.

(** Trimming keeps the longest suffix that fits. *)
Lemma trim_suffix c l :
  ∃ old, l = old ++ trim c l ∧ (total (trim c l) ≤ c)%N ∧
    ∀ o p, old = o ++ [p] → (c < total (p :: trim c l))%N.
Proof.
  induction l as [|[k v] l IH].
  - exists []. split_and!; [done|simpl; lia|]. intros o p Ho. by destruct o.
  - cbn [trim]. destruct (c <? total ((k, v) :: l))%N eqn:Hc.
    + nbool. destruct IH as (old & Hl & Hfit & Hmin). exists ((k, v) :: old).
      split_and!; [by rewrite Hl at 1|done|]. intros o p Ho. destruct o as [|p' o].
      * injection Ho as <- ->. simpl in Hl. by rewrite <-Hl.
      * injection Ho as _ ->. by apply (Hmin o).
    + nbool. exists []. split_and!; [done|lia|]. intros o p Ho. by destruct o.
Qed.
Lemma NoDup_trim c l : NoDup l.*1 → NoDup (trim c l).*1.
Proof.
  destruct (trim_suffix c l) as (old & Hl & _). rewrite Hl at 1. rewrite fmap_app. by intros (_ & _ & ?)%NoDup_app.
Qed.
End entries_lemmas.

Section lru_lemmas.
Context {T K V : Type} `{!LinkedHashMap T K V, !EqDecision K, !LinkedHashMapLaws T K V, !Meter K V, !MeterLaws K V}.
Implicit Types (c : LruCache T K V) (l : list (K * V)).

(** The cache holds the entries [l], and its measure is theirs. *)
Definition holds c l : Prop :=
  lru_iter c = l ∧ NoDup l.*1 ∧ stands_for (total l) (current_measure c).
(** Between operations the entries fit the capacity. *)
Definition lru_ok c l : Prop := holds c l ∧ (total l ≤ max_capacity c)%N ∧ (max_capacity c < u64_modulus)%N.

Lemma total_units l : (∀ k v, weight k v = 1%N) → total l = N.of_nat (length l).
Proof. intros Hw. induction l as [|[k v] l IH]; simpl; [done|]. rewrite Hw, IH. lia. Qed.
Lemma holds_size c l : holds c l → lru_size c = total l.
Proof.
  intros (Hi & _ & Hm). unfold lru_size. pose proof (stands_size _ _ Hm) as Hs.
  destruct (meter_size _); [done|]. by rewrite len_iter, (total_units l Hs), <-Hi.
Qed.

Lemma holds_pop c k v l :
  holds c ((k, v) :: l) →
  holds (pop_by_policy c).2 l ∧ max_capacity (pop_by_policy c).2 = max_capacity c ∧ (pop_by_policy c).1 = Some (k, v).
Proof.
  intros (Hi & Hnd & Hm). unfold lru_iter in Hi. destruct (pop_iter (lc_map c)) as [Hp Ht]. rewrite Hi in Hp, Ht.
  unfold pop_by_policy. destruct (lhm_pop_front (lc_map c)) as [o m]. simpl in Hp, Ht. subst o. simpl.
  split_and!; [|done|done]. csimpl in Hnd. apply NoDup_cons in Hnd as [_ Hnd]. split_and!; [done|done|].
  simpl. replace (total l) with (total ((k, v) :: l) - weight k v)%N by (simpl; lia).
  apply stands_sub; [done|simpl; lia].
Qed.

Lemma evict_trim fuel cap c l :
  holds c l → length l < fuel →
  ∃ c', evict fuel cap c = Some c' ∧ holds c' (trim cap l) ∧ max_capacity c' = max_capacity c.
Proof.
  revert c l. induction fuel as [|fuel IH]; intros c l Hc Hf; [lia|].
  cbn [evict]. rewrite (holds_size c l Hc). destruct l as [|[k v] l].
  - rewrite (proj2 (N.ltb_ge _ _)) by apply N.le_0_l. by exists c.
  - cbn [trim]. destruct (cap <? total ((k, v) :: l))%N.
    + destruct (holds_pop c k v l Hc) as (Hc' & Hmax & _). simpl in Hf.
      destruct (IH _ _ Hc') as (c' & He & Hh & Hm); [lia|]. exists c'. split_and!; [done|done|congruence].
    + by exists c.
Qed.
Lemma evict_enough cap c l :
  holds c l →
  ∃ c', evict (evict_fuel c) cap c = Some c' ∧ holds c' (trim cap l) ∧ max_capacity c' = max_capacity c.
Proof.
  intros Hc. apply evict_trim; [done|]. unfold evict_fuel, lru_len. rewrite len_iter.
  destruct Hc as (Hi & _). unfold lru_iter in Hi. rewrite Hi. lia.
Qed.

Lemma new_ok capacity : (capacity < u64_modulus)%N → lru_ok (with_meter capacity) [].
Proof.
  intros Hc. split; [split_and!; [apply iter_new|apply NoDup_nil_2|apply stands_default]|]. simpl. lia.
Qed.
Lemma get_ok c l k : lru_ok c l → (lru_get c k).1 = assoc l k ∧ lru_ok (lru_get c k).2 (touch l k).
Proof.
  intros ((Hi & Hnd & Hm) & Hfit & Hcap). unfold lru_iter in Hi. destruct (refresh_iter (lc_map c) k) as [Ho Ht].
  rewrite Hi in Ho, Ht. unfold lru_get. destruct (lhm_get_refresh _ k) as [o m]. simpl in *.
  split; [done|]. split; [|by rewrite total_touch]. split_and!; simpl; [done|by apply NoDup_touch|by rewrite total_touch].
Qed.
Lemma peek_ok c l k : lru_ok c l → lru_peek c k = assoc l k.
Proof. intros ((<- & _) & _). apply get_iter. Qed.
Lemma pop_ok c l k : lru_ok c l → (lru_pop c k).1 = assoc l k ∧ lru_ok (lru_pop c k).2 (without l k).
Proof.
  intros ((Hi & Hnd & Hm) & Hfit & Hcap). unfold lru_iter in Hi. destruct (remove_iter (lc_map c) k) as [Ho Ht].
  rewrite Hi in Ho, Ht. unfold lru_pop. destruct (lhm_remove _ k) as [o m]. simpl in *. subst o.
  pose proof (total_without l k Hnd) as Htot. destruct (assoc l k) as [v|]; simpl; (split; [done|]).
  - split; [|simpl; lia]. split_and!; simpl; [done|by apply NoDup_without|].
    replace (total (without l k)) with (total l - weight k v)%N by lia. apply stands_sub; [done|lia].
  - rewrite N.add_0_r in Htot. split; [|by rewrite Htot]. split_and!; simpl; [done|by apply NoDup_without|by rewrite Htot].
Qed.
Lemma put_ok c l k v :
  lru_ok c l → (max_capacity c + weight k v < u64_modulus)%N →
  ∃ c', lru_put c k v = Some (assoc l k, c') ∧ lru_ok c' (trim (max_capacity c) (without l k ++ [(k, v)])) ∧
    max_capacity c' = max_capacity c.
Proof.
  intros ((Hi & Hnd & Hm) & Hfit & Hcap) Hroom. unfold lru_put. rewrite get_iter.
  unfold lru_iter in Hi. destruct (insert_iter (lc_map c) k v) as [Ho Ht]. rewrite Hi in *.
  destruct (lhm_insert (lc_map c) k v) as [o m]. simpl in Ho, Ht. subst o.
  set (cur := match assoc l k with Some old => meter_sub _ _ | None => _ end).
  assert (holds (mkLruCache m cur (max_capacity c)) (without l k ++ [(k, v)])) as Hh.
  { split_and!; [done|by apply NoDup_moved|]. simpl. pose proof (total_without l k Hnd) as Htot.
    rewrite total_app. simpl. rewrite N.add_0_r. subst cur. assert (stands_for (total l + weight k v) (meter_add
      (current_measure c) (measure k v))) as Hadd by (apply stands_add; [done|lia]).
    destruct (assoc l k) as [old|].
    - replace (total (without l k) + weight k v)%N with (total l + weight k v - weight k old)%N by lia.
      apply stands_sub; [done|lia].
    - by rewrite <-Htot, N.add_0_r in Hadd. }
  destruct (evict_enough (max_capacity c) _ _ Hh) as (c' & He & Hh' & Hmax). unfold lru_capacity. cbn [max_capacity].
  rewrite He. simpl. exists c'. split_and!; [done| |done]. split_and!; [done| |by rewrite Hmax].
  rewrite Hmax. simpl. by destruct (trim_suffix (max_capacity c) (without l k ++ [(k, v)])) as (_ & _ & ? & _).
Qed.
Lemma capacity_ok c l cap :
  lru_ok c l → (cap < u64_modulus)%N →
  ∃ c', set_capacity c cap = Some c' ∧ lru_ok c' (trim cap l) ∧ max_capacity c' = cap.
Proof.
  intros (Hh & _) Hcap. unfold set_capacity. destruct (evict_enough cap c l Hh) as (c' & He & Hh' & _). rewrite He.
  simpl. eexists. split_and!; [done| |done]. split_and!; [done| |done].
  by destruct (trim_suffix cap l) as (_ & _ & ? & _).
Qed.

(** C20: The cache keeps its entries in the order of their last use.  [get] finds an entry
    and makes it the youngest; [put] replaces or adds an entry as the youngest, never runs
    on, and evicts the oldest entries, as few as needed for the rest to fit the capacity;
    changing the capacity does the same.  The size, counted or measured, is always that of
    the entries held. *)
Theorem lru_refines c l k v cap :
  lru_ok c l → (max_capacity c + weight k v < u64_modulus)%N → (cap < u64_modulus)%N →
  lru_size c = total l ∧
  (∃ c', lru_get c k = (assoc l k, c') ∧ lru_ok c' (touch l k)) ∧
  (∃ c', lru_pop c k = (assoc l k, c') ∧ lru_ok c' (without l k)) ∧
  (∃ c' old kept, lru_put c k v = Some (assoc l k, c') ∧ lru_ok c' kept ∧
     without l k ++ [(k, v)] = old ++ kept ∧
     ∀ o p, old = o ++ [p] → (max_capacity c < total (p :: kept))%N) ∧
  (∃ c' old kept, set_capacity c cap = Some c' ∧ lru_ok c' kept ∧ l = old ++ kept ∧
     ∀ o p, old = o ++ [p] → (cap < total (p :: kept))%N).
Proof.
  intros Hc Hroom Hcap. split_and!.
  - by apply holds_size, Hc.
  - destruct (get_ok c l k Hc). exists (lru_get c k).2. split; [|done]. by apply injective_projections.
  - destruct (pop_ok c l k Hc). exists (lru_pop c k).2. split; [|done]. by apply injective_projections.
  - destruct (put_ok c l k v Hc Hroom) as (c' & Hput & Hok & _).
    destruct (trim_suffix (max_capacity c) (without l k ++ [(k, v)])) as (old & Hl & _ & Hmin). by eexists c', old, _.
  - destruct (capacity_ok c l cap Hc Hcap) as (c' & Hset & Hok & _).
    destruct (trim_suffix cap l) as (old & Hl & _ & Hmin). by eexists c', old, _.
Qed.
End lru_lemmas.

(** ** A linked hash map as a list, and an example *)
Definition list_lhm {K V} `{EqDecision K} : LinkedHashMap (list (K * V)) K V := {|
  lhm_new := []; lhm_get := assoc; lhm_insert l k v := (assoc l k, without l k ++ [(k, v)]);
  lhm_get_refresh l k := (assoc l k, touch l k); lhm_modify := change;
  lhm_remove l k := (assoc l k, without l k); lhm_pop_front l := (head l, tail l); lhm_front := head;
  lhm_len l := N.of_nat (length l); lhm_iter l := l |}.
Lemma list_lhm_laws {K V} `{EqDecision K} : @LinkedHashMapLaws (list (K * V)) K V list_lhm _.
Proof. by split. Qed.

Section examples.
#[local] Existing Instances list_lhm list_lhm_laws.
#[local] Instance demo_meter : Meter string N := FileSize.
(** Three files in a cache of ten bytes: a fourth one drives out the two oldest. *)
Definition demo_lru : LruCache (list (string * N)) string N := mkLruCache [("a", 3%N); ("b", 4%N); ("c", 2%N)] 9%N 10.
Lemma lru_refines_example :
  lru_put demo_lru "d" 5%N = Some (None, mkLruCache [("c", 2%N); ("d", 5%N)] 7%N 10) ∧
  ∃ c' old kept, lru_put demo_lru "d" 5%N = Some (None, c') ∧ lru_ok c' kept ∧
    [("a", 3%N); ("b", 4%N); ("c", 2%N); ("d", 5%N)] = old ++ kept ∧
    ∀ o p, old = o ++ [p] → (10 < total (p :: kept))%N.
Proof.
  split; [by vm_compute|].
  destruct (lru_refines demo_lru [("a", 3%N); ("b", 4%N); ("c", 2%N)] "d" 5%N 0) as (_ & _ & _ & Hput & _);
    [|vm_compute; reflexivity..|exact Hput].
  split; [split_and!; [done|by apply (bool_decide_unpack _); vm_compute|done]|done].
Defined.
End examples.
