(* ===== verification/DiskCache.v ===== *)
(** * The cache of files on disk (src/common/cache/src/disk_cache.rs).

    An LRU cache of file sizes, and the files themselves under a root directory.  The file
    system is a map from paths to files; a fault oracle says which call fails.  The theorems
    are about names whose components are not empty, ["."] or [".."], so that different
    strings are different paths.  Directories are not represented: creating one either
    succeeds or fails, as does any call that meets a directory in the place of a file. *)
From S2P Require Import Prelude Lru Exception.

(** What the environment decides: which call fails and with what message, how much of a
    failing write reaches the disk, and the time. *)
Class IoEnv := {
  io_fault : nat → option string;
  io_partial : nat → nat;
  not_found : string;
  file_time_now : nat → N;
}.
Record file := mkFile { f_data : string; f_mtime : N }.
(** The files found by walking a directory, in the order of the walk. *)
Class WalkDir := walk_dir : gmap string file → string → list string.

Inductive DiskError := FileTooLarge | FileNotInCache | IoError (e : string).
Inductive AddFile := AbsPath (p : string) | RelPath (p : string).

(** ** Paths *)
Definition is_slash (c : Ascii.ascii) : bool := (byte_of c =? 47)%N.
Fixpoint ends_with_slash (s : string) : bool :=
  match s with
  | EmptyString => false
  | String c EmptyString => is_slash c
  | String _ s => ends_with_slash s
  end.
(** [Path::join]: an absolute path replaces the base. *)
Definition join (root rel : string) : string :=
  if String.prefix "/" rel then rel
  else if bool_decide (root = "") || ends_with_slash root then root +:+ rel else root +:+ "/" +:+ rel.
Definition has_parent (p : string) : bool := negb (str_all is_slash p).
(** [Path::strip_prefix], for a root without a closing slash. *)
Fixpoint strip (p s : string) : option string :=
  match p, s with
  | EmptyString, s => Some s
  | String c p, String d s => if bool_decide (c = d) then strip p s else None
  | String _ _, EmptyString => None
  end.
Definition strip_prefix (root p : string) : option string :=
  rest ← strip root p;
  match rest with
  | EmptyString => Some EmptyString
  | String c rel => if is_slash c then Some rel else None
  end.

Fixpoint components (s : string) : list string :=
  match s with
  | EmptyString => [""]
  | String c s => if is_slash c then "" :: components s else match components s with x :: l => String c x :: l | [] => [String c ""] end
  end.
(** A relative path that is written in one way only. *)
Definition normal_path (s : string) : bool := forallb (λ c, negb (bool_decide (c ∈ [""; "."; ".."]))) (components s).

(** ** The file system *)
Section disk.
Context {T : Type} `{!LinkedHashMap T string N, !IoEnv, !WalkDir} (root : string).
#[local] Instance size_meter : Meter string N := FileSize.

Record disk := mkDisk { dc_cache : LruCache T string N; dc_files : gmap string file; dc_calls : nat }.
Abbreviation MD A := (M disk DiskError A).

(** One system call. *)
Definition fs_call {A} (f : gmap string file → res DiskError (A * gmap string file)) : MD A := λ w,
  let n := dc_calls w in
  match io_fault n with
  | Some e => (Err (IoError e), mkDisk (dc_cache w) (dc_files w) (S n))
  | None =>
      match f (dc_files w) with
      | Ok (a, fs) => (Ok a, mkDisk (dc_cache w) fs (S n))
      | Err e => (Err e, mkDisk (dc_cache w) (dc_files w) (S n))
      | Panic => (Panic, mkDisk (dc_cache w) (dc_files w) (S n))
      end
  end.
Definition found {A} (o : option A) : res DiskError A := ok_or o (IoError not_found).
Definition create_dir_all : MD unit := fs_call (λ fs, Ok (tt, fs)).
Definition remove_file (p : string) : MD unit :=
  fs_call (λ fs, let? _ := found (fs !! p) in Ok (tt, base.delete p fs)).
Definition file_len (p : string) : MD N :=
  fs_call (λ fs, let? f := found (fs !! p) in Ok (N.of_nat (String.length (f_data f)), fs)).
Definition file_create (p : string) : MD unit := λ w,
  fs_call (λ fs, Ok (tt, <[p:=mkFile "" (file_time_now (dc_calls w))]> fs)) w.
(** A failing write leaves a part of the data. *)
Definition write_all (p : string) (b : string) : MD unit := λ w,
  let n := dc_calls w in
  let put d := mkDisk (dc_cache w) (<[p:=mkFile d (file_time_now n)]> (dc_files w)) (S n) in
  match io_fault n with
  | Some e => (Err (IoError e), put (String.substring 0 (io_partial n) b))
  | None => (Ok tt, put b)
  end.
Definition rename (p q : string) : MD unit :=
  fs_call (λ fs, let? f := found (fs !! p) in Ok (tt, <[q:=f]> (base.delete p fs))).
Definition copy (p q : string) : MD unit := λ w,
  fs_call (λ fs, let? f := found (fs !! p) in Ok (tt, <[q:=mkFile (f_data f) (file_time_now (dc_calls w))]> fs)) w.
Definition set_file_times (p : string) : MD unit := λ w,
  fs_call (λ fs, let? f := found (fs !! p) in Ok (tt, <[p:=mkFile (f_data f) (file_time_now (dc_calls w))]> fs)) w.
Definition file_open (p : string) : MD string :=
  fs_call (λ fs, let? f := found (fs !! p) in Ok (f_data f, fs)).

Definition get_lru : MD (LruCache T string N) := λ w, (Ok (dc_cache w), w).
Definition set_lru (c : LruCache T string N) : MD unit := λ w, (Ok tt, mkDisk c (dc_files w) (dc_calls w)).
(** [unwrap_or_else(|e| panic!(...))] and [expect]. *)
Definition expectM {A} (m : MD A) : MD A := λ w,
  match m w with
  | (Err _, w) => (Panic, w)
  | r => r
  end.

(** ** The operations *)
Definition can_store (size : N) : MD bool := let! c := get_lru in ret (size <=? lru_capacity c)%N.

(** The loop that makes room; the last outcome is running out of fuel. *)
Fixpoint make_room (fuel : nat) (size : N) : MD (option unit) :=
  match fuel with
  | O => ret None
  | S fuel =>
      let! c := get_lru in
      if (lru_capacity c <? u64_add (lru_size c) size)%N then
        let '(popped, c) := pop_by_policy c in
        let! _ := set_lru c in
        let! '(rel_path, _) := lift (unwrap popped) in
        let! _ := expectM (remove_file (join root rel_path)) in
        make_room fuel size
      else ret (Some tt)
  end.

Definition add_file (addfile_path : AddFile) (size : N) : MD unit :=
  let! ok := can_store size in
  if negb ok then throw FileTooLarge
  else
    let! rel_path := lift (match addfile_path with
                           | AbsPath p => unwrap (strip_prefix root p)
                           | RelPath p => Ok p
                           end) in
    let! c := get_lru in
    let! room := make_room (evict_fuel c) size in
    let! _ := lift (unwrap room) in
    let! c := get_lru in
    let! '(_, c) := lift (unwrap (lru_put c rel_path size)) in
    set_lru c.

Definition insert_by (key : string) (size : option N) (by_ : string → MD unit) : MD unit :=
  let! ok := match size with Some size => can_store size | None => ret true end in
  if negb ok then throw FileTooLarge
  else
    let path := join root key in
    let! _ := lift (if has_parent path then Ok tt else Panic) in
    let! _ := create_dir_all in
    let! _ := by_ path in
    let! len := file_len path in
    let size := default len size in
    let! r := tryM (add_file (RelPath key) size) in
    match r with
    | inr _ => ret tt
    | inl e => let! _ := expectM (remove_file (join root key)) in throw e
    end.

(** What the caller of [insert_with] does with the open file: write [inl] data, or write
    some data and fail. *)
Definition insert_with (key : string) (with_ : string + string * string) : MD unit :=
  insert_by key None (λ path,
    let! _ := file_create path in
    match with_ with
    | inl b => write_all path b
    | inr (b, e) => let! _ := write_all path b in throw (IoError e)
    end).
Definition insert_bytes (key : string) (b : string) : MD unit :=
  insert_by key (Some (N.of_nat (String.length b))) (λ path,
    let! _ := file_create path in
    let! _ := write_all path b in
    ret tt).
Definition insert_file (key path : string) : MD unit :=
  let! size := file_len path in
  insert_by key (Some size) (λ new_path,
    let! r := tryM (rename path new_path) in
    match r with
    | inr _ => ret tt
    | inl _ =>
        let! _ := copy path new_path in
        let! _ := tryM (E:=DiskError) (remove_file path) in
        ret tt
    end).

Definition contains_key (key : string) : MD bool := let! c := get_lru in ret (lru_contains c key).
Definition get_file (key : string) : MD string :=
  let! c := get_lru in
  let '(o, c) := lru_get c key in
  let! _ := set_lru c in
  match o with
  | None => throw FileNotInCache
  | Some _ => let! _ := set_file_times (join root key) in file_open (join root key)
  end.
Definition remove (key : string) : MD unit :=
  let! c := get_lru in
  let '(o, c) := lru_pop c key in
  let! _ := set_lru c in
  match o with
  | Some _ => remove_file (join root key)
  | None => ret tt
  end.

(** [sort_by_key] on the time of modification, which is stable. *)
Fixpoint insert_by_time (x : N * string * N) (l : list (N * string * N)) : list (N * string * N) :=
  match l with
  | [] => [x]
  | y :: l => if (x.1.1 <? y.1.1)%N then x :: y :: l else y :: insert_by_time x l
  end.
Definition sort_by_time (l : list (N * string * N)) : list (N * string * N) := foldl (λ l x, insert_by_time x l) [] l.
Definition get_all_files (fs : gmap string file) : list (string * N) :=
  let files := omap (λ p, f ← fs !! p; Some (f_mtime f, p, N.of_nat (String.length (f_data f)))) (walk_dir fs root) in
  (λ x, (x.1.2, x.2)) <$> sort_by_time files.

(** Errors while adding or removing a file are logged. *)
Definition init_file (x : string * N) : MD unit :=
  let '(file, size) := x in
  let! ok := can_store size in
  if negb ok then let! _ := tryM (E:=DiskError) (remove_file file) in ret tt
  else let! _ := tryM (E:=DiskError) (add_file (AbsPath file) size) in ret tt.
Definition init : MD unit :=
  let! _ := create_dir_all in
  let! files := (λ w, (Ok (get_all_files (dc_files w)), w)) in
  forM files init_file.
End disk.
Arguments disk T : clear implicits.

(** [From<Error> for ErrorCode]. *)
Definition ErrorCode_from_disk `{Capture} (e : DiskError) : ErrorCode :=
  match e with
  | FileNotInCache => exc Exc.DiskCacheFileNotInCache "disk cache error: file not in cache"
  | FileTooLarge => exc Exc.DiskCacheFileTooLarge "disk cache error: file too large"
  | IoError err => exc Exc.DiskCacheIOError ("disk cache io error, cause: " +:+ err)
  end.

(** ** Correctness, when no call fails *)
Class IoQuiet `{IoEnv} : Prop := io_quiet n : io_fault n = None.

Section disk_lemmas.
Context {T : Type} `{!LinkedHashMap T string N, !LinkedHashMapLaws T string N, !IoEnv, !IoQuiet, !WalkDir}.
Context (root : string) (root_ok : root ≠ "" ∧ ends_with_slash root = false).
#[local] Existing Instance size_meter.
#[local] Instance size_meter_laws : MeterLaws string N := file_size_laws.
Implicit Types (w : disk T) (l : list (string * N)) (rel : string).

Definition relative rel : Prop := normal_path rel = true.
Lemma relative_prefix rel : relative rel → String.prefix "/" rel = false.
Proof.
  destruct rel as [|c rel]; [done|]. unfold relative, normal_path. cbn [components String.prefix]. destruct (is_slash c) eqn:Hc; [done|].
  intros _. destruct (Ascii.ascii_dec _ _) as [<-|]; [|done]. done.
Qed.
Lemma join_relative rel : relative rel → join root rel = root +:+ "/" +:+ rel.
Proof.
  intros Hr%relative_prefix. unfold join. rewrite Hr. destruct root_ok as [Hne He]. by rewrite bool_decide_false, He.
Qed.
Lemma join_inj r1 r2 : relative r1 → relative r2 → join root r1 = join root r2 → r1 = r2.
Proof. intros ? ?. rewrite !join_relative by done. intros Heq. by do 2 apply (inj (String.append _)) in Heq. Qed.

(** Each entry has a file. *)
Definition backed w l : Prop := ∀ rel n, (rel, n) ∈ l → relative rel ∧ is_Some (dc_files w !! join root rel).
(** The files [p] that the names stand for. *)
Definition paths_of (names : list string) : list string := join root <$> names.

Lemma run_remove_file p w :
  is_Some (dc_files w !! p) →
  remove_file p w = (Ok tt, mkDisk (dc_cache w) (base.delete p (dc_files w)) (S (dc_calls w))).
Proof. intros [f Hf]. unfold remove_file, fs_call. rewrite io_quiet, Hf. done. Qed.

Lemma lookup_dropped (fs : gmap string file) k v (dropped : list (string * N)) p :
  (if decide (p ∈ paths_of dropped.*1) then None else base.delete (join root k) fs !! p) =
  if decide (p ∈ paths_of ((k, v) :: dropped).*1) then None else fs !! p.
Proof.
  unfold paths_of. csimpl. destruct (decide (p = join root k)) as [->|Hne].
  - rewrite lookup_delete_eq. rewrite (decide_True (P:=_ ∈ _ :: _)) by by left. by case_decide.
  - rewrite lookup_delete_ne by done. destruct (decide (p ∈ join root <$> dropped.*1)) as [Hin|Hin].
    + by rewrite decide_True by by right.
    + rewrite decide_False; [done|]. by intros [?|?]%elem_of_cons.
Qed.

Lemma run_make_room fuel size w l :
  lru_ok (dc_cache w) l → backed w l → length l < fuel →
  (size ≤ max_capacity (dc_cache w))%N → (max_capacity (dc_cache w) + size < u64_modulus)%N →
  ∃ w' dropped, make_room root fuel size w = (Ok (Some tt), w') ∧
    l = dropped ++ trim (max_capacity (dc_cache w) - size) l ∧
    lru_ok (dc_cache w') (trim (max_capacity (dc_cache w) - size) l) ∧
    max_capacity (dc_cache w') = max_capacity (dc_cache w) ∧
    ∀ p, dc_files w' !! p = if decide (p ∈ paths_of dropped.*1) then None else dc_files w !! p.
Proof.
  revert w l. induction fuel as [|fuel IH]; intros w l Hok Hb Hf Hs Hroom; [lia|].
  cbn [make_room]. unfold bind at 1, get_lru. pose proof Hok as (Hh & Hfit & _).
  rewrite (holds_size _ _ Hh), u64_add_small by lia. unfold lru_capacity. destruct l as [|[k v] l].
  - rewrite (proj2 (N.ltb_ge _ _)) by (simpl; lia). exists w, []. by split_and!.
  - cbn [trim]. set (tot := total ((k, v) :: l)) in *.
    destruct (max_capacity (dc_cache w) <? tot + size)%N eqn:Hc; nbool; last first.
    { rewrite (proj2 (N.ltb_ge _ _)) by lia. exists w, []. by split_and!. }
    rewrite (proj2 (N.ltb_lt _ _)) by lia. destruct (holds_pop _ k v l Hh) as (Hh' & Hmax & Hp).
    destruct (pop_by_policy (dc_cache w)) as [o c]. simpl in Hh', Hmax, Hp. subst o.
    destruct (Hb k v) as (Hrel & Hfile); [by left|].
    unfold bind at 1, set_lru, bind at 1. simpl. unfold bind at 1, expectM. rewrite run_remove_file by done.
    cbn [dc_cache dc_files dc_calls]. set (w1 := mkDisk c _ _). pose proof Hh as (_ & Hnd & _). csimpl in Hnd.
    apply NoDup_cons in Hnd as [Hno Hnd].
    destruct (IH w1 l) as (w' & dropped & Hrun & Hl & Hok' & Hmax' & Hfiles); simpl.
    + split; [done|]. rewrite Hmax. destruct Hok as (_ & _ & ?). split; [|done]. simpl in *. subst tot. lia.
    + intros rel n Hin. destruct (Hb rel n) as (Hr & Hf'); [by right|]. split; [done|].
      simpl. rewrite lookup_delete_ne; [done|]. intros Heq%join_inj; [|done..]. subst rel.
      destruct Hno. by apply (list_elem_of_fmap_2' fst l (k, n)).
    + simpl in Hf. lia.
    + by rewrite Hmax.
    + by rewrite Hmax.
    + change (dc_cache w1) with c in *. rewrite Hmax in Hl, Hok', Hmax'. exists w', ((k, v) :: dropped). split_and!; [done|by rewrite Hl at 1|done|done|].
      intros p. rewrite Hfiles. apply lookup_dropped.
Qed.

(** An entry that fits beside the others is put without a further eviction. *)
Lemma trim_fits c l : (total l ≤ c)%N → trim c l = l.
Proof. destruct l as [|p l]; [done|]. intros Hl. cbn [trim]. by rewrite (proj2 (N.ltb_ge _ _)). Qed.
Lemma total_without_le l rel : NoDup l.*1 → (total (without l rel) ≤ total l)%N.
Proof. intros Hl. pose proof (total_without l rel Hl). lia. Qed.

Lemma run_add_file rel size w l :
  lru_ok (dc_cache w) l → backed w l → (size ≤ max_capacity (dc_cache w))%N →
  (max_capacity (dc_cache w) + size < u64_modulus)%N →
  let kept := trim (max_capacity (dc_cache w) - size) l in
  ∃ w' dropped, add_file root (RelPath rel) size w = (Ok tt, w') ∧ l = dropped ++ kept ∧
    lru_ok (dc_cache w') (without kept rel ++ [(rel, size)]) ∧
    max_capacity (dc_cache w') = max_capacity (dc_cache w) ∧
    ∀ p, dc_files w' !! p = if decide (p ∈ paths_of dropped.*1) then None else dc_files w !! p.
Proof.
  intros Hok Hb Hs Hroom kept. unfold add_file.
  assert (can_store size w = (Ok true, w)) as Hcan.
  { unfold can_store, get_lru, bind, ret, lru_capacity. by rewrite (proj2 (N.leb_le _ _)). }
  rewrite (bind_ok _ _ _ _ _ Hcan). cbn [negb]. rewrite (bind_ok (lift _) _ w rel w) by done.
  rewrite (bind_ok get_lru _ w (dc_cache w) w) by done.
  destruct (run_make_room (evict_fuel (dc_cache w)) size w l) as (w1 & dropped & Hrun & Hl & Hok1 & Hmax & Hfiles);
    [done|done| |done|done|].
  { unfold evict_fuel, lru_len. rewrite len_iter. destruct Hok as ((Hi & _) & _). unfold lru_iter in Hi. rewrite Hi. lia. }
  rewrite (bind_ok _ _ _ _ _ Hrun). unfold bind. simpl. destruct (put_ok (dc_cache w1) kept rel size) as (c & Hput & Hc & Hmax'); [done|simpl; lia|].
  rewrite Hput. simpl. exists (mkDisk c (dc_files w1) (dc_calls w1)), dropped. split_and!; [done|done| |simpl; congruence|done].
  simpl. rewrite trim_fits in Hc; [done|]. rewrite total_app, Hmax. simpl.
  destruct Hok1 as ((_ & Hnd & _) & _). pose proof (total_without_le kept rel Hnd).
  destruct (trim_suffix (max_capacity (dc_cache w) - size) l) as (_ & _ & Hfit & _). fold kept in Hfit. lia.
Qed.

(** ** Inserting *)
Lemma has_parent_join rel : relative rel → has_parent (join root rel) = true.
Proof.
  intros Hr. rewrite join_relative by done. unfold has_parent. rewrite negb_true_iff, str_all_app.
  apply andb_false_iff. left. destruct root_ok as [Hne He]. clear -Hne He.
  induction root as [|c s IH]; [done|]. simpl in *. destruct s as [|d s]; [by rewrite He|].
  rewrite IH by done. by rewrite andb_false_r.
Qed.
Lemma run_file_len p w f :
  dc_files w !! p = Some f →
  file_len p w = (Ok (N.of_nat (String.length (f_data f))), mkDisk (dc_cache w) (dc_files w) (S (dc_calls w))).
Proof. intros Hf. unfold file_len, fs_call. by rewrite io_quiet, Hf. Qed.

Definition with_files w (fs : gmap string file) : disk T := mkDisk (dc_cache w) fs (S (dc_calls w)).
Lemma run_create_dir w : create_dir_all w = (Ok tt, with_files w (dc_files w)).
Proof. unfold create_dir_all, fs_call. by rewrite io_quiet. Qed.
Lemma run_write_file p b w :
  ∃ w' t, (let! _ := file_create p in let! _ := write_all p b in ret tt) w = (Ok tt, w') ∧
    dc_cache w' = dc_cache w ∧ dc_files w' = <[p:=mkFile b t]> (dc_files w).
Proof.
  unfold bind, file_create, write_all, fs_call. rewrite io_quiet. simpl. rewrite io_quiet. eexists _, _.
  split_and!; [done|done|]. simpl. apply insert_insert_eq.
Qed.

(** The new file is written first; then room is made for it, which may hit the file itself. *)
Lemma run_insert_bytes key b w l :
  let n := N.of_nat (String.length b) in
  let kept := trim (max_capacity (dc_cache w) - n) l in
  lru_ok (dc_cache w) l → backed w l → relative key → (n ≤ max_capacity (dc_cache w))%N →
  (max_capacity (dc_cache w) + n < u64_modulus)%N →
  ∃ w' dropped t, insert_bytes root key b w = (Ok tt, w') ∧ l = dropped ++ kept ∧
    lru_ok (dc_cache w') (without kept key ++ [(key, n)]) ∧
    ∀ p, dc_files w' !! p =
      if decide (p ∈ paths_of dropped.*1) then None else <[join root key:=mkFile b t]> (dc_files w) !! p.
Proof.
  intros n kept Hok Hb Hrel Hn Hroom. unfold insert_bytes, insert_by.
  assert (can_store n w = (Ok true, w)) as Hcan.
  { unfold can_store, get_lru, bind, ret, lru_capacity. by rewrite (proj2 (N.leb_le _ _)). }
  fold n. rewrite (bind_ok _ _ _ _ _ Hcan). cbn [negb]. rewrite has_parent_join by done.
  rewrite (bind_ok (lift _) _ w tt w) by done. rewrite (bind_ok _ _ _ _ _ (run_create_dir w)).
  destruct (run_write_file (join root key) b (with_files w (dc_files w))) as (w1 & t & Hw & Hc1 & Hf1).
  rewrite (bind_ok _ _ _ _ _ Hw). cbn [with_files dc_cache dc_files] in Hc1, Hf1.
  rewrite (bind_ok _ _ _ _ _ (run_file_len _ w1 (mkFile b t) ltac:(by rewrite Hf1, lookup_insert_eq))).
  change (default (N.of_nat (String.length (f_data (mkFile b t)))) (Some n)) with n.
  set (w2 := mkDisk (dc_cache w1) (dc_files w1) (S (dc_calls w1))).
  destruct (run_add_file key n w2 l) as (w' & dropped & Hadd & Hl & Hok' & _ & Hfiles).
  { by simpl; rewrite Hc1. }
  { intros rel m Hin. destruct (Hb rel m Hin) as [Hr Hf]. split; [done|]. simpl. rewrite Hf1.
    destruct (decide (join root rel = join root key)) as [->|]; [by rewrite lookup_insert_eq|by rewrite lookup_insert_ne]. }
  { by simpl; rewrite Hc1. }
  { by simpl; rewrite Hc1. }
  unfold bind, tryM. rewrite Hadd. exists w', dropped, t. simpl in Hl, Hok'. rewrite Hc1 in Hl, Hok'.
  split_and!; [done|done|done|]. intros p. by rewrite Hfiles, <-Hf1.
Qed.

(** The entries of the cache are the files under the root, with their sizes. *)
Definition disk_ok w l : Prop :=
  lru_ok (dc_cache w) l ∧ Forall relative l.*1 ∧
  ∀ rel, relative rel → assoc l rel = (λ f, N.of_nat (String.length (f_data f))) <$> dc_files w !! join root rel.
Lemma disk_ok_backed w l : disk_ok w l → backed w l.
Proof.
  intros (((_ & Hnd & _) & _) & Hrel & Hfiles) rel n Hin.
  assert (relative rel) as Hr by (eapply (Forall_forall _ _); [exact Hrel|]; by apply (list_elem_of_fmap_2' fst l (rel, n))).
  split; [done|]. apply (assoc_Some l rel n Hnd) in Hin. rewrite Hfiles in Hin by done. by destruct (dc_files w !! _).
Qed.
Lemma elem_of_paths rel names : relative rel → Forall relative names → join root rel ∈ paths_of names ↔ rel ∈ names.
Proof.
  intros Hr Hall. unfold paths_of. rewrite list_elem_of_fmap. split; [|by eauto].
  intros (r & Heq & Hin). rewrite Forall_forall in Hall. apply join_inj in Heq; [by subst|done|by apply Hall].
Qed.

Lemma run_get_file key w f :
  lru_contains (dc_cache w) key = true → dc_files w !! join root key = f →
  (get_file root key w).1 = match f with Some f => Ok (f_data f) | None => Err (IoError not_found) end.
Proof.
  unfold lru_contains. rewrite bool_decide_eq_true, get_iter. intros [v Hv] Hf. unfold get_file, bind, get_lru.
  destruct (refresh_iter (lc_map (dc_cache w)) key) as [Ho _]. unfold lru_get.
  destruct (lhm_get_refresh _ key) as [o m]. simpl in Ho. rewrite Hv in Ho. subst o. simpl.
  unfold set_file_times, file_open, fs_call. rewrite io_quiet. simpl. rewrite Hf. destruct f as [f|]; simpl; [|done].
  by rewrite io_quiet, lookup_insert_eq.
Qed.
Lemma contains_last w l key n : lru_ok (dc_cache w) (without l key ++ [(key, n)]) → lru_contains (dc_cache w) key = true.
Proof.
  intros ((Hi & Hnd & _) & _). unfold lru_contains. rewrite bool_decide_eq_true, get_iter. unfold lru_iter in Hi.
  rewrite Hi. exists n. apply assoc_Some; [done|]. apply elem_of_app. right. by apply list_elem_of_singleton.
Qed.

Lemma NoDup_split {A} (l1 l2 : list (string * A)) rel : NoDup (l1 ++ l2).*1 → rel ∈ l1.*1 → rel ∉ l2.*1.
Proof. rewrite fmap_app. intros (_ & Hd & _)%NoDup_app Hin. by apply Hd. Qed.
Lemma assoc_app {A} (l1 l2 : list (string * A)) rel : rel ∉ l1.*1 → assoc (l1 ++ l2) rel = assoc l2 rel.
Proof.
  induction l1 as [|[k v] l1 IH]; csimpl; [done|]. rewrite not_elem_of_cons. intros [Hk Hl].
  rewrite bool_decide_false by done. by apply IH.
Qed.
Lemma assoc_snoc {A} (l : list (string * A)) key v rel :
  key ∉ l.*1 → assoc (l ++ [(key, v)]) rel = if bool_decide (rel = key) then Some v else assoc l rel.
Proof.
  induction l as [|[k u] l IH]; csimpl.
  - intros _. case_bool_decide as Hk; case_bool_decide; congruence.
  - rewrite not_elem_of_cons. intros [Hk Hl]. rewrite IH by done. case_bool_decide; [|done].
    rewrite bool_decide_false; [done|congruence].
Qed.

Lemma assoc_without {A} (l : list (string * A)) key rel : rel ≠ key → assoc (without l key) rel = assoc l rel.
Proof.
  intros Hne. induction l as [|[k v] l IH]; [done|]. rewrite without_cons. csimpl. destruct (bool_decide_reflect (k = key)) as [->|Hk].
  - by rewrite IH, bool_decide_false.
  - csimpl. by rewrite IH.
Qed.
Lemma without_relative l key : Forall relative l.*1 → Forall relative (without l key).*1.
Proof. rewrite !Forall_forall. intros Hl r (p & -> & [Hp _]%elem_of_without)%list_elem_of_fmap. by apply Hl, list_elem_of_fmap_2. Qed.

(** C21: Inserting a file, when no call to the file system fails.  A file larger than the
    capacity is refused without an effect.  Otherwise the least recently used files are
    deleted to make room, as few as needed, after the new one is written.  Unless its own
    name is among these, the cache and the directory are then in step: the entries are
    exactly the files under the root, with their sizes, together they fit the capacity, and
    the file that was inserted is read back.  If its name is among them, the file that was
    just written is deleted: the operation succeeds and the cache lists the file, but
    it cannot be read. *)
Theorem disk_insert key b w l :
  let n := N.of_nat (String.length b) in
  disk_ok w l → relative key → (max_capacity (dc_cache w) + n < u64_modulus)%N →
  if (n <=? max_capacity (dc_cache w))%N then
    ∃ w' dropped kept, insert_bytes root key b w = (Ok tt, w') ∧ l = dropped ++ kept ∧
      (∀ o p, dropped = o ++ [p] → (max_capacity (dc_cache w) < total (p :: kept) + n)%N) ∧
      contains_key key w' = (Ok true, w') ∧
      if bool_decide (key ∈ dropped.*1) then (get_file root key w').1 = Err (IoError not_found)
      else disk_ok w' (without kept key ++ [(key, n)]) ∧ (get_file root key w').1 = Ok b
  else insert_bytes root key b w = (Err FileTooLarge, w).
Proof.
  intros n Hok Hrel Hroom. destruct (n <=? _)%N eqn:Hn; nbool; last first.
  { unfold insert_bytes, insert_by, can_store, get_lru, bind, ret, lru_capacity. fold n. by rewrite (proj2 (N.leb_gt _ _)). }
  set (cap := max_capacity (dc_cache w)) in *. destruct (trim_suffix (cap - n) l) as (old & Hold & _ & Hmin).
  pose proof Hok as (Hlru & Hall & Hfiles). pose proof (disk_ok_backed w l Hok) as Hb.
  destruct (run_insert_bytes key b w l Hlru Hb Hrel Hn Hroom) as (w' & dropped & t & Hrun & Hl & Hlru' & Hf').
  fold n cap in Hl, Hlru'. set (kept := trim (cap - n) l) in *.
  assert (old = dropped) as -> by by apply (app_inv_tail kept); rewrite <-Hold.
  assert (NoDup l.*1) as Hnd by apply Hlru. rewrite Hl, fmap_app in Hall. apply Forall_app in Hall as [Hall1 Hall2].
  pose proof (contains_last _ _ _ _ Hlru') as Hcont. exists w', dropped, kept. split_and!; [done|done| | |].
  { intros o p Ho. specialize (Hmin o p Ho). lia. }
  { unfold contains_key, get_lru, bind, ret. by rewrite Hcont. }
  case_bool_decide as Hd.
  { rewrite (run_get_file _ _ None); [done|done|]. rewrite Hf', decide_True; [done|]. by rewrite elem_of_paths. }
  split; last first.
  { rewrite (run_get_file _ _ (Some (mkFile b t))); [done|done|]. rewrite Hf', decide_False, lookup_insert_eq; [done|]. by rewrite elem_of_paths. }
  split_and!; [done|rewrite fmap_app; apply Forall_app_2; [by apply without_relative|by constructor]|]. intros rel Hr.
  rewrite Hf', assoc_snoc by apply without_key. case_bool_decide as Hk.
  - subst rel. rewrite decide_False, lookup_insert_eq; [done|]. by rewrite elem_of_paths.
  - rewrite lookup_insert_ne by by intros Heq%join_inj. rewrite assoc_without by done. case_decide as Hp; rewrite elem_of_paths in Hp by done.
    + rewrite Hl in Hnd. apply (assoc_None kept). by eapply NoDup_split.
    + rewrite <-Hfiles, Hl by done. symmetry. by apply assoc_app.
Qed.

(** ** Opening a directory *)
Lemma insert_by_time_perm x (fs : list (N * string * N)) : insert_by_time x fs ≡ₚ x :: fs.
Proof.
  induction fs as [|y fs IH]; simpl; [done|]. destruct (_ <? _)%N; [done|]. rewrite IH. apply Permutation_swap.
Qed.
Lemma sort_by_time_perm (fs : list (N * string * N)) : sort_by_time fs ≡ₚ fs.
Proof.
  unfold sort_by_time. enough (∀ acc, foldl (λ ys x, insert_by_time x ys) acc fs ≡ₚ acc ++ fs) as Hgen by apply (Hgen []).
  induction fs as [|x fs IH]; intros acc; simpl; [by rewrite app_nil_r|].
  rewrite IH, insert_by_time_perm. apply Permutation_middle.
Qed.

Lemma strip_app p s : strip p (p +:+ s) = Some s.
Proof. induction p as [|c p IH]; [done|]. rewrite string_app_cons. simpl. by rewrite bool_decide_true. Qed.
Lemma strip_join rel : relative rel → strip_prefix root (join root rel) = Some rel.
Proof. intros Hr. rewrite join_relative by done. unfold strip_prefix. by rewrite strip_app. Qed.

Definition file_size (f : file) : N := N.of_nat (String.length (f_data f)).
(** The part of the directory that has not been visited, as names and sizes. *)
Definition pending w l (todo : list (string * N)) : Prop :=
  lru_ok (dc_cache w) l ∧ Forall relative l.*1 ∧ Forall relative todo.*1 ∧ NoDup todo.*1 ∧
  ∀ rel, relative rel →
    match assoc todo rel with
    | Some n => file_size <$> dc_files w !! join root rel = Some n ∧ assoc l rel = None
    | None => assoc l rel = file_size <$> dc_files w !! join root rel
    end.

Lemma run_too_large w l rel n todo :
  pending w l ((rel, n) :: todo) →
  ∃ w', remove_file (join root rel) w = (Ok tt, w') ∧ dc_cache w' = dc_cache w ∧ dc_files w' ⊆ dc_files w ∧
    pending w' l todo.
Proof.
  intros (Hlru & Hall & Htodo & Hnd & Hdir). csimpl in *. apply Forall_cons in Htodo as [Hrel Htodo].
  apply NoDup_cons in Hnd as [Hnot Hnd]. pose proof (Hdir rel Hrel) as Hr. rewrite bool_decide_true in Hr by done.
  destruct Hr as [Hf Hl]. rewrite run_remove_file; last first.
  { by destruct (dc_files w !! _). }
  eexists. split_and!; [done|done|apply delete_subseteq|]. split_and!; [done|done|done|done|]. intros r Hr. simpl.
  specialize (Hdir r Hr). destruct (decide (r = rel)) as [->|Hne].
  - rewrite lookup_delete_eq. apply assoc_None in Hnot. by rewrite Hnot.
  - rewrite bool_decide_false in Hdir by done. rewrite lookup_delete_ne; [done|]. by intros Heq%join_inj.
Qed.
Lemma run_track w l rel n todo :
  pending w l ((rel, n) :: todo) → (n ≤ max_capacity (dc_cache w))%N →
  (max_capacity (dc_cache w) + max_capacity (dc_cache w) < u64_modulus)%N →
  ∃ w' l', add_file root (AbsPath (join root rel)) n w = (Ok tt, w') ∧
    max_capacity (dc_cache w') = max_capacity (dc_cache w) ∧ dc_files w' ⊆ dc_files w ∧ pending w' l' todo.
Proof.
  intros (Hlru & Hall & Htodo & Hnd & Hdir) Hn Hroom. csimpl in *. apply Forall_cons in Htodo as [Hrel Htodo].
  apply NoDup_cons in Hnd as [Hnot Hnd].
  assert (backed w l) as Hb.
  { intros r m Hin. assert (relative r) as Hr.
    { rewrite Forall_forall in Hall. apply Hall. by apply (list_elem_of_fmap_2' fst l (r, m)). }
    split; [done|]. apply (assoc_Some l r m) in Hin; [|apply Hlru]. specialize (Hdir r Hr).
    destruct (if bool_decide _ then _ else _); [destruct Hdir; congruence|]. rewrite Hin in Hdir. by destruct (dc_files w !! _). }
  assert (add_file root (AbsPath (join root rel)) n w = add_file root (RelPath rel) n w) as ->.
  { unfold add_file. by rewrite strip_join. }
  destruct (run_add_file rel n w l Hlru Hb Hn) as (w' & dropped & Hrun & Hl & Hlru' & Hmax & Hfiles); [lia|].
  set (kept := trim _ l) in *. exists w', (without kept rel ++ [(rel, n)]). split_and!; [done|done| |].
  { apply map_subseteq_spec. intros p f. rewrite Hfiles. by case_decide. }
  pose proof (Hdir rel Hrel) as Hcur. rewrite bool_decide_true in Hcur by done. destruct Hcur as [Hf Hnew].
  assert (rel ∉ l.*1) as Hnew' by by apply assoc_None. assert (NoDup l.*1) as Hndl by apply Hlru.
  rewrite Hl, fmap_app in Hnew', Hall. apply not_elem_of_app in Hnew' as [Hn1 Hn2]. apply Forall_app in Hall as [Ha1 Ha2].
  rewrite without_absent in * by done.
  split_and!; [done|rewrite fmap_app; by apply Forall_app_2; [|constructor]|done|done|].
  intros r Hr. rewrite Hfiles, assoc_snoc by done. specialize (Hdir r Hr). destruct (decide (r = rel)) as [->|Hk].
  - apply assoc_None in Hnot. rewrite bool_decide_true, Hnot, decide_False by (done || by rewrite elem_of_paths). done.
  - rewrite bool_decide_false in Hdir |- * by congruence. destruct (decide (join root r ∈ _)) as [Hd|Hd];
      rewrite elem_of_paths in Hd by done.
    + rewrite Hl in Hndl. assert (assoc kept r = None) as -> by by apply assoc_None; eapply NoDup_split.
      destruct (assoc todo r); [|done]. destruct Hdir as [_ Hno%assoc_None]. destruct Hno. rewrite Hl, fmap_app.
      by apply elem_of_app; left.
    + rewrite Hl, assoc_app in Hdir by done. exact Hdir.
Qed.

(** The walk finds every file under the root, once. *)
Class WalkDirLaws : Prop :=
  walk_all fs : ∃ rels, walk_dir fs root = join root <$> rels ∧ NoDup rels ∧
    ∀ rel, rel ∈ rels ↔ relative rel ∧ is_Some (fs !! join root rel).

Lemma all_files `{!WalkDirLaws} fs :
  ∃ todo, get_all_files root fs = prod_map (join root) id <$> todo ∧ Forall relative todo.*1 ∧ NoDup todo.*1 ∧
    ∀ rel, relative rel → assoc todo rel = file_size <$> fs !! join root rel.
Proof.
  destruct (walk_all fs) as (rels & Hwalk & Hnd & Hrels). unfold get_all_files. rewrite Hwalk.
  set (g rel := match fs !! join root rel with
                | Some f => (f_mtime f, join root rel, file_size f) | None => (0%N, join root rel, 0%N) end).
  assert (omap (λ p, f ← fs !! p; Some (f_mtime f, p, N.of_nat (String.length (f_data f)))) (join root <$> rels) =
    g <$> rels) as ->.
  { assert (Forall (λ rel, is_Some (fs !! join root rel)) rels) as Hall by (apply Forall_forall; intros r Hr; by apply Hrels).
    clear -Hall. induction Hall as [|rel rels [f Hf] _ IH]; csimpl; [done|]. unfold g at 1. by rewrite Hf, IH. }
  pose proof (sort_by_time_perm (g <$> rels)) as Hperm. apply Permutation_map_inv in Hperm as (rels' & -> & Hperm).
  exists ((λ rel, (rel, (g rel).2)) <$> rels'). assert (((λ rel, (rel, (g rel).2)) <$> rels').*1 = rels') as Hfst.
  { rewrite <-list_fmap_compose. apply list_fmap_id. }
  assert (NoDup ((λ rel, (rel, (g rel).2)) <$> rels').*1) as Hnd' by by rewrite Hfst, <-Hperm. split_and!.
  - rewrite <-!list_fmap_compose. apply list_fmap_ext. intros ? rel _. simpl. unfold g. by destruct (fs !! _).
  - rewrite Hfst. apply Forall_forall. intros r Hr. apply Hrels. by rewrite Hperm.
  - done.
  - intros rel Hr. destruct (fs !! join root rel) as [f|] eqn:Hf; simpl.
    + apply assoc_Some; [done|]. apply list_elem_of_fmap. exists rel. split; [unfold g; by rewrite Hf|].
      rewrite <-Hperm. apply Hrels. split; [done|]. by eexists.
    + apply assoc_None. rewrite Hfst, <-Hperm, Hrels. intros [_ [f ?]]. congruence.
Qed.

Lemma run_init_files todo w l :
  pending w l todo → (max_capacity (dc_cache w) + max_capacity (dc_cache w) < u64_modulus)%N →
  ∃ w' l', forM (prod_map (join root) id <$> todo) (init_file root) w = (Ok tt, w') ∧
    max_capacity (dc_cache w') = max_capacity (dc_cache w) ∧ dc_files w' ⊆ dc_files w ∧ pending w' l' [].
Proof.
  revert w l. induction todo as [|[rel n] todo IH]; intros w l Hp Hroom; [by exists w, l|].
  change (forM (prod_map (join root) id <$> (rel, n) :: todo) (init_file (T:=T) root)) with
    (bind (init_file (T:=T) root (join root rel, n)) (λ _, forM (prod_map (join root) id <$> todo) (init_file (T:=T) root))).
  assert (∃ w1 l1, init_file root (join root rel, n) w = (Ok tt, w1) ∧
    max_capacity (dc_cache w1) = max_capacity (dc_cache w) ∧ dc_files w1 ⊆ dc_files w ∧ pending w1 l1 todo)
    as (w1 & l1 & Hrun & Hmax & Hsub & Hp1).
  { unfold init_file. rewrite (bind_ok (can_store n) _ w (n <=? max_capacity (dc_cache w))%N w) by done.
    destruct (n <=? max_capacity (dc_cache w))%N eqn:Hn; nbool; cbn [negb]; unfold bind, tryM.
    - destruct (run_track w l rel n todo Hp Hn Hroom) as (w1 & l1 & Hrun & ?). rewrite Hrun. by exists w1, l1.
    - destruct (run_too_large w l rel n todo Hp) as (w1 & Hrun & Hc & ?). rewrite Hrun. exists w1, l. by rewrite Hc. }
  rewrite (bind_ok _ _ _ _ _ Hrun). destruct (IH w1 l1 Hp1) as (w' & l' & Hrun' & Hmax' & Hsub' & Hp'); [by rewrite Hmax|].
  exists w', l'. split_and!; [done|congruence|by etrans|done].
Qed.

(** Opening a cache on a directory: every file under the root is tracked with its size
    or deleted, because it is too large or for lack of room; what is left fits. *)
Theorem disk_init `{!WalkDirLaws} size fs n :
  (size + size < u64_modulus)%N →
  ∃ w' l, init root (mkDisk (with_meter size) fs n) = (Ok tt, w') ∧ disk_ok w' l ∧ (total l ≤ size)%N ∧
    dc_files w' ⊆ fs.
Proof.
  intros Hsize. unfold init. rewrite (bind_ok _ _ _ _ _ (run_create_dir _)). unfold bind at 1. cbn [with_files dc_files].
  destruct (all_files fs) as (todo & -> & Htodo & Hnd & Hdir).
  destruct (run_init_files todo (with_files (mkDisk (with_meter size) fs n) fs) []) as (w' & l & Hrun & Hmax & Hsub & Hp).
  - split_and!; [apply new_ok; lia|constructor|done|done|]. intros rel Hr. simpl. rewrite Hdir by done.
    by destruct (fs !! _).
  - done.
  - destruct Hp as (Hlru & Hall & _ & _ & Hfiles). exists w', l. split_and!; [done|by split_and!| |done].
    destruct Hlru as (_ & Hfit & _). by rewrite Hmax in Hfit.
Qed.
End disk_lemmas.

(** ** Examples *)
Section examples.
#[local] Existing Instances list_lhm list_lhm_laws size_meter size_meter_laws.
#[local] Instance quiet_io : IoEnv := {|
  io_fault _ := None; io_partial _ := 0; not_found := "No such file or directory"; file_time_now := N.of_nat |}.
#[local] Instance quiet_io_ok : IoQuiet.
Proof. done. Qed.
(** The walk goes over the files in the order of the map. *)
Definition rel_of (root p : string) : option string :=
  rel ← strip_prefix root p;
  if decide (normal_path rel = true ∧ p = join root rel) then Some rel else None.
#[local] Instance demo_walk : WalkDir := λ fs root, join root <$> remove_dups (omap (rel_of root) (map_to_list fs).*1).
#[local] Instance demo_walk_laws : WalkDirLaws "/c".
Proof.
  intros fs. eexists. split_and!; [done|apply NoDup_remove_dups|]. intros rel. rewrite elem_of_remove_dups, list_elem_of_omap.
  assert ("/c" ≠ "" ∧ ends_with_slash "/c" = false) as Hroot by done. split.
  - intros (p & ([? f] & -> & Hp%elem_of_map_to_list)%list_elem_of_fmap & Hrel). simpl in *. unfold rel_of in Hrel.
    destruct (strip_prefix _ _); [|done]. simpl in Hrel. destruct (decide _) as [[Hr Heq]|]; [|done].
    injection Hrel as ->. rewrite <-Heq. split; [done|]. by eexists.
  - intros [Hr [f Hf]]. exists (join "/c" rel). split.
    + apply list_elem_of_fmap. exists (join "/c" rel, f). split; [done|]. by apply elem_of_map_to_list.
    + unfold rel_of. rewrite (strip_join "/c" Hroot) by done. simpl. by rewrite decide_True.
Qed.

Abbreviation entries := (list (string * N)).
(** A cache of ten bytes with one file of six. *)
Definition demo_disk : disk entries :=
  mkDisk (mkLruCache [("k", 6%N)] 6%N 10) {["/c/k" := mkFile "abcdef" 0]} 0.
Lemma demo_disk_ok : disk_ok "/c" demo_disk [("k", 6%N)].
Proof.
  split_and!; [split; [split_and!; [done|apply NoDup_singleton|done]|done]|by repeat constructor|].
  intros rel Hr. simpl. rewrite (join_relative "/c") by done. case_bool_decide as Hk; [by subst rel|].
  rewrite lookup_singleton_ne; [done|]. intros Heq. destruct Hk.
  change "/c/k" with ("/c" +:+ "/" +:+ "k") in Heq. by do 2 apply (inj (String.append _)) in Heq.
Qed.

Lemma disk_insert_example :
  (∃ w' dropped kept, insert_bytes "/c" "new" "12345" demo_disk = (Ok tt, w') ∧ [("k", 6%N)] = dropped ++ kept ∧
    (∀ o p, dropped = o ++ [p] → (10 < total (p :: kept) + 5)%N) ∧ contains_key "new" w' = (Ok true, w') ∧
    if bool_decide ("new" ∈ dropped.*1) then (get_file "/c" "new" w').1 = Err (IoError "No such file or directory")
    else disk_ok "/c" w' (without kept "new" ++ [("new", 5%N)]) ∧ (get_file "/c" "new" w').1 = Ok "12345") ∧
  insert_bytes "/c" "new" "12345678901" demo_disk = (Err FileTooLarge, demo_disk).
Proof.
  split; [refine (disk_insert "/c" _ "new" "12345" demo_disk [("k", 6%N)] demo_disk_ok _ _)
    |refine (disk_insert "/c" _ "new" "12345678901" demo_disk [("k", 6%N)] demo_disk_ok _ _)]; done.
Defined.
(** A file that is inserted again under its name and is deleted for its own sake. *)
Example disk_reinsert :
  let w' := (insert_bytes "/c" "k" "uvwxyz" demo_disk).2 in
  (insert_bytes "/c" "k" "uvwxyz" demo_disk).1 = Ok tt ∧ (contains_key "k" w').1 = Ok true ∧
    (get_file "/c" "k" w').1 = Err (IoError "No such file or directory").
Proof. by vm_compute. Qed.
Lemma disk_init_example :
  ∃ w' l, init "/c" (mkDisk (T:=entries) (with_meter 3) {["/c/k" := mkFile "abcdef" 0; "/c/l" := mkFile "ab" 1]} 0) = (Ok tt, w') ∧
    disk_ok "/c" w' l ∧ (total l ≤ 3)%N ∧ dc_files w' ⊆ {["/c/k" := mkFile "abcdef" 0; "/c/l" := mkFile "ab" 1]}.
Proof. apply (disk_init "/c"); [done|apply demo_walk_laws|done]. Defined.
End examples.
