(* ===== verification/DataValue.v ===== *)
(** * Values of columns (src/common/datavalues/src/data_value.rs) and their order.

    [DataValue] derives [PartialOrd]: values of different kinds are ordered by kind,
    floating-point numbers are not ordered when one is not a number, and containers are
    compared element by element.  A JSON value is a parameter with its total order. *)
From Stdlib Require Import Floats.SpecFloat.
From S2P Require Import Prelude ByteOrder.

(** The order of [VariantValue]. *)
Class VariantOrd (VV : Type) := variant_cmp : VV → VV → comparison.
#[global] Hint Mode VariantOrd ! : typeclass_instances.

#[warnings="-register-all"]
Inductive DataValue (VV : Type) : Type :=
  | DV_Null
  | DV_Boolean (b : bool)
  | DV_Int64 (n : Z)
  | DV_UInt64 (n : N)
  | DV_Float64 (f : spec_float)
  | DV_String (s : string)
  | DV_Array (l : list (DataValue VV))
  | DV_Struct (l : list (DataValue VV))
  | DV_Variant (v : VV).
Arguments DV_Null {VV}.
Arguments DV_Boolean {VV} b.
Arguments DV_Int64 {VV} n.
Arguments DV_UInt64 {VV} n.
Arguments DV_Float64 {VV} f.
Arguments DV_String {VV} s.
Arguments DV_Array {VV} l.
Arguments DV_Struct {VV} l.
Arguments DV_Variant {VV} v.

Section values.
Context {VV : Type} `{!VariantOrd VV}.
Implicit Types x y : DataValue VV.

Definition is_null x : bool := match x with DV_Null => true | _ => false end.
(** The position of the variant in the enumeration. *)
Definition rank x : N :=
  match x with
  | DV_Null => 0 | DV_Boolean _ => 1 | DV_Int64 _ => 2 | DV_UInt64 _ => 3 | DV_Float64 _ => 4
  | DV_String _ => 5 | DV_Array _ => 6 | DV_Struct _ => 7 | DV_Variant _ => 8
  end.

Definition bool_cmp (a b : bool) : comparison :=
  match a, b with false, true => Lt | true, false => Gt | _, _ => Eq end.
Fixpoint partial_cmp x y {struct x} : option comparison :=
  let fix lex (l m : list (DataValue VV)) : option comparison :=
    match l, m with
    | [], [] => Some Eq
    | [], _ :: _ => Some Lt
    | _ :: _, [] => Some Gt
    | a :: l, b :: m => match partial_cmp a b with Some Eq => lex l m | r => r end
    end in
  match x, y with
  | DV_Null, DV_Null => Some Eq
  | DV_Boolean a, DV_Boolean b => Some (bool_cmp a b)
  | DV_Int64 a, DV_Int64 b => Some (a ?= b)%Z
  | DV_UInt64 a, DV_UInt64 b => Some (a ?= b)%N
  | DV_Float64 a, DV_Float64 b => SFcompare a b
  | DV_String a, DV_String b => Some (String.compare a b)
  | DV_Array l, DV_Array m => lex l m
  | DV_Struct l, DV_Struct m => lex l m
  | DV_Variant a, DV_Variant b => Some (variant_cmp a b)
  | _, _ => Some (rank x ?= rank y)%N
  end.
End values.

(** ** The order of scalars *)
Section order.
Context {VV : Type} `{!VariantOrd VV}.
Implicit Types x y z : DataValue VV.

Definition not_nan (f : spec_float) : bool := match f with S754_nan => false | _ => true end.
(** A scalar that is not NaN. *)
Definition scalar x : bool :=
  match x with
  | DV_Array _ | DV_Struct _ | DV_Variant _ => false
  | DV_Float64 f => not_nan f
  | _ => true
  end.
Definition dv_le x y : Prop := partial_cmp x y = Some Lt ∨ partial_cmp x y = Some Eq.

(** A scalar as a sequence of numbers, compared from the left: first its kind; a
    floating-point number by sign, exponent and mantissa. *)
Definition float_key (f : spec_float) : list Z :=
  match f with
  | S754_zero _ => [0; 0; 0]
  | S754_infinity s => [if s then -2 else 2; 0; 0]
  | S754_nan => [3; 0; 0]
  | S754_finite s m e => if s then [-1; - e; Zneg m] else [1; e; Zpos m]
  end%Z.
Fixpoint string_key (s : string) : list Z :=
  match s with EmptyString => [] | String c s => Z.of_N (byte_of c) :: string_key s end.
Definition scalar_key x : list Z :=
  Z.of_N (rank x) ::
    match x with
    | DV_Boolean b => [if b then 1 else 0]
    | DV_Int64 n => [n]
    | DV_UInt64 n => [Z.of_N n]
    | DV_Float64 f => float_key f
    | DV_String s => string_key s
    | _ => []
    end%Z.
Fixpoint lex (a b : list Z) : comparison :=
  match a, b with
  | [], [] => Eq
  | [], _ :: _ => Lt
  | _ :: _, [] => Gt
  | x :: a, y :: b => match (x ?= y)%Z with Eq => lex a b | r => r end
  end.

Lemma lex_refl a : lex a a = Eq.
Proof. induction a as [|x a IH]; simpl; [done|]. by rewrite Z.compare_refl. Qed.
Lemma lex_antisym a b : lex b a = CompOpp (lex a b).
Proof.
  revert b. induction a as [|x a IH]; intros [|y b]; simpl; try done.
  rewrite (Z.compare_antisym x y). destruct (x ?= y)%Z; simpl; [apply IH|done|done].
Qed.
Lemma lex_trans a b c : lex a b ≠ Gt → lex b c ≠ Gt → lex a c ≠ Gt.
Proof.
  revert b c. induction a as [|x a IH]; intros [|y b] [|z c]; simpl; try done.
  destruct (Z.compare_spec x y), (Z.compare_spec y z), (Z.compare_spec x z); try done; try lia. apply IH.
Qed.

Lemma SFcompare_key f g : not_nan f = true → not_nan g = true → SFcompare f g = Some (lex (float_key f) (float_key g)).
Proof.
  destruct f as [|s1| |s1 m1 e1], g as [|s2| |s2 m2 e2]; simpl; intros Hf Hg; try done; try destruct s1; try destruct s2; try done; simpl.
  - rewrite Z.compare_opp, (Z.compare_antisym e1 e2). destruct (e1 ?= e2)%Z; simpl; [|done|done]. change (Pos.compare_cont Eq m1 m2) with (m1 ?= m2)%positive; by destruct (m1 ?= m2)%positive.
  - destruct (e1 ?= e2)%Z; simpl; [|done|done]. change (Pos.compare_cont Eq m1 m2) with (m1 ?= m2)%positive; by destruct (m1 ?= m2)%positive.
Qed.
Lemma string_compare_key a b : String.compare a b = lex (string_key a) (string_key b).
Proof.
  revert b. induction a as [|c a IH]; intros [|d b]; simpl; try done. unfold Ascii.compare, byte_of.
  rewrite N2Z.inj_compare. destruct (_ ?= _)%N; [apply IH|done|done].
Qed.
Lemma partial_cmp_key x y :
  scalar x = true → scalar y = true → partial_cmp x y = Some (lex (scalar_key x) (scalar_key y)).
Proof.
  destruct x as [|a|a|a|a|a| | |], y as [|b|b|b|b|b| | |]; simpl; try done; intros Hx Hy.
  - by destruct a, b.
  - by destruct (a ?= b)%Z.
  - rewrite N2Z.inj_compare. by destruct (a ?= b)%N.
  - by rewrite SFcompare_key.
  - by rewrite string_compare_key.
Qed.

Lemma dv_le_key x y : scalar x = true → scalar y = true → dv_le x y ↔ lex (scalar_key x) (scalar_key y) ≠ Gt.
Proof.
  intros Hx Hy. unfold dv_le. rewrite partial_cmp_key by done. destruct (lex _ _); split; auto; try done.
  by intros [|].
Qed.
Lemma dv_le_refl x : scalar x = true → dv_le x x.
Proof. intros Hx. by rewrite dv_le_key, lex_refl. Qed.
Lemma dv_le_trans x y z :
  scalar x = true → scalar y = true → scalar z = true → dv_le x y → dv_le y z → dv_le x z.
Proof. intros Hx Hy Hz. rewrite !dv_le_key by done. apply lex_trans. Qed.
Lemma dv_gt_le x y : scalar x = true → scalar y = true → partial_cmp x y = Some Gt → dv_le y x.
Proof.
  intros Hx Hy. rewrite partial_cmp_key by done. intros Hgt. rewrite dv_le_key, lex_antisym by done. by destruct (lex _ _).
Qed.
Lemma dv_not_gt_le x y :
  scalar x = true → scalar y = true → partial_cmp x y ≠ Some Gt → dv_le x y.
Proof. intros Hx Hy. rewrite partial_cmp_key, dv_le_key by done. congruence. Qed.
End order.
