(* ===== verification/FuseMeta.v ===== *)
(** * The metadata of fuse tables (src/query/src/storages/fuse/meta, io/locations.rs, and
    the statistics of src/query/src/storages/index/range_filter.rs).

    The data of a table are blocks; a segment lists blocks, a snapshot lists segments.
    Segments and snapshots exist in two format versions; what is read in the old one is
    converted.  [DataSchema] and [VV] (JSON values in statistics) are parameters. *)
From S2P Require Import Prelude Exception DataValue.

(** ** Statistics *)
Record ColumnStatistics (VV : Type) := mkColumnStatistics {
  cs_min : DataValue VV; cs_max : DataValue VV; cs_null_count : N; cs_in_memory_size : N }.
Arguments mkColumnStatistics {VV} _ _ _ _.
Arguments cs_min {VV} _.
Arguments cs_max {VV} _.
Arguments cs_null_count {VV} _.
Arguments cs_in_memory_size {VV} _.
Record ClusterStatistics (VV : Type) := mkClusterStatistics { cl_min : list (DataValue VV); cl_max : list (DataValue VV) }.
Arguments mkClusterStatistics {VV} _ _.
Arguments cl_min {VV} _.
Arguments cl_max {VV} _.
Abbreviation ColumnsStatistics VV := (gmap N (ColumnStatistics VV)).

Record Statistics (VV : Type) := mkStatistics {
  row_count : N; block_count : N; uncompressed_byte_size : N; compressed_byte_size : N;
  col_stats : ColumnsStatistics VV; cluster_stats : option (ClusterStatistics VV) }.
Arguments mkStatistics {VV} _ _ _ _ _ _.
Arguments row_count {VV} _.
Arguments block_count {VV} _.
Arguments uncompressed_byte_size {VV} _.
Arguments compressed_byte_size {VV} _.
Arguments col_stats {VV} _.
Arguments cluster_stats {VV} _.
Definition Statistics_default {VV} : Statistics VV := mkStatistics 0 0 0 0 ∅ None.

(** ** Segments and snapshots *)
Abbreviation FormatVersion := N (only parsing).
Abbreviation SnapshotId := N (only parsing).
Definition Location : Type := string * N.
Inductive Compression := Lz4 | Lz4Raw.
Definition Compression_legacy : Compression := Lz4.
Record ColumnMeta := mkColumnMeta { cm_offset : N; cm_len : N; cm_num_values : N }.

(** The version constants of the trait [Versioned]. *)
Definition SegmentInfo_VERSION : N := 1.
Definition TableSnapshot_VERSION : N := 1.
Definition DataBlock_VERSION : N := 0.

Section meta.
Context {VV DataSchema : Type}.

Record BlockMeta := mkBlockMeta {
  bm_row_count : N; bm_block_size : N; bm_file_size : N;
  bm_col_stats : ColumnsStatistics VV; bm_col_metas : gmap N ColumnMeta;
  bm_cluster_stats : option (ClusterStatistics VV);
  bm_location : Location; bm_compression : Compression }.
Record SegmentInfo := mkSegmentInfo { si_format_version : N; si_blocks : list BlockMeta; si_summary : Statistics VV }.
Definition SegmentInfo_new (blocks : list BlockMeta) (summary : Statistics VV) : SegmentInfo :=
  mkSegmentInfo SegmentInfo_VERSION blocks summary.
Record TableSnapshot := mkTableSnapshot {
  ts_format_version : N; ts_snapshot_id : N; ts_prev_snapshot_id : option (N * N);
  ts_schema : DataSchema; ts_summary : Statistics VV; ts_segments : list Location }.
Definition TableSnapshot_new (snapshot_id : N) (prev : option (N * N)) (schema : DataSchema)
    (summary : Statistics VV) (segments : list Location) : TableSnapshot :=
  mkTableSnapshot TableSnapshot_VERSION snapshot_id prev schema summary segments.

(** *** Version 0 *)
Record BlockLocation := mkBlockLocation { bl_path : string; bl_meta_size : N }.
Record BlockMetaV0 := mkBlockMetaV0 {
  b0_row_count : N; b0_block_size : N; b0_file_size : N;
  b0_col_stats : ColumnsStatistics VV; b0_col_metas : gmap N ColumnMeta; b0_location : BlockLocation }.
Record SegmentInfoV0 := mkSegmentInfoV0 { s0_blocks : list BlockMetaV0; s0_summary : Statistics VV }.
Record TableSnapshotV0 := mkTableSnapshotV0 {
  t0_snapshot_id : N; t0_prev_snapshot_id : option N; t0_schema : DataSchema;
  t0_summary : Statistics VV; t0_segments : list string }.
Definition append_segment (self : TableSnapshotV0) (location : string) : TableSnapshotV0 :=
  mkTableSnapshotV0 (t0_snapshot_id self) (t0_prev_snapshot_id self) (t0_schema self) (t0_summary self)
    (t0_segments self ++ [location]).

(** What is converted from version 0 carries the current version. *)
Definition BlockMeta_from_v0 (s : BlockMetaV0) : BlockMeta :=
  mkBlockMeta (b0_row_count s) (b0_block_size s) (b0_file_size s) (b0_col_stats s) (b0_col_metas s) None
    (bl_path (b0_location s), DataBlock_VERSION) Lz4.
Definition SegmentInfo_from_v0 (s : SegmentInfoV0) : SegmentInfo :=
  mkSegmentInfo SegmentInfo_VERSION (BlockMeta_from_v0 <$> s0_blocks s) (s0_summary s).
Definition TableSnapshot_from_v0 (s : TableSnapshotV0) : TableSnapshot :=
  mkTableSnapshot TableSnapshot_VERSION (t0_snapshot_id s) ((λ id, (id, 0%N)) <$> t0_prev_snapshot_id s)
    (t0_schema s) (t0_summary s) ((λ l, (l, 0%N)) <$> t0_segments s).

(** The log of an append: operation_log.rs. *)
Record AppendOperationLogEntry := mkAppendOperationLogEntry { segment_location : string; segment_info : SegmentInfo }.
End meta.
Arguments BlockMeta VV : clear implicits.
Arguments SegmentInfo VV : clear implicits.
Arguments TableSnapshot VV DataSchema : clear implicits.
Arguments BlockMetaV0 VV : clear implicits.
Arguments SegmentInfoV0 VV : clear implicits.
Arguments TableSnapshotV0 VV DataSchema : clear implicits.
Arguments AppendOperationLogEntry VV : clear implicits.

(** ** Versions: meta/versions.rs *)
Inductive SnapshotVersion := SnV0 | SnV1.
Inductive SegmentInfoVersion := SgV0 | SgV1.
Definition SnapshotVersion_version (self : SnapshotVersion) : N := match self with SnV0 => 0 | SnV1 => 1 end.
Section versions.
Context `{Capture}.
Definition SegmentInfoVersion_try_from (value : N) : res ErrorCode SegmentInfoVersion :=
  if (value =? 0)%N then Ok SgV0
  else if (value =? 1)%N then Ok SgV1
  else Err (exc Exc.LogicalError ("unknown segment version " +:+ pretty value +:+ ", versions supported: 0, 1")).
Definition SnapshotVersion_try_from (value : N) : res ErrorCode SnapshotVersion :=
  if (value =? 0)%N then Ok SnV0
  else if (value =? 1)%N then Ok SnV1
  else Err (exc Exc.LogicalError
    ("unknown snapshot segment version " +:+ pretty value +:+ ", versions supported: 0, 1")).
End versions.

(** ** Locations: io/locations.rs *)
Definition FUSE_TBL_BLOCK_PREFIX : string := "_b".
Definition FUSE_TBL_SEGMENT_PREFIX : string := "_sg".
Definition FUSE_TBL_SNAPSHOT_PREFIX : string := "_ss".

(** The crate uuid: fresh identifiers and their text without hyphens. *)
Class Uuids := { new_v4 : nat → N; to_simple : N → string }.

Definition SnapshotVersion_suffix (self : SnapshotVersion) : string :=
  match self with SnV0 => "" | SnV1 => "_v1.json" end.
(** [str::ends_with]. *)
Definition ends_with (s suffix : string) : bool :=
  let n := String.length s - String.length suffix in
  bool_decide (String.substring n (String.length suffix) s = suffix) && (String.length suffix <=? String.length s).
(** The version of a snapshot, told from its location. *)
Definition snaphost_version (location : string) : N :=
  if ends_with location (SnapshotVersion_suffix SnV1) then SnapshotVersion_version SnV1
  else SnapshotVersion_version SnV0.

Section locations.
Context `{Capture, Uuids} (prefix : string).
Definition snapshot_location (self : SnapshotVersion) (id : N) : string :=
  prefix +:+ "/" +:+ FUSE_TBL_SNAPSHOT_PREFIX +:+ "/" +:+ to_simple id +:+ SnapshotVersion_suffix self.
Definition snapshot_location_from_uuid (id : N) (version : N) : res ErrorCode string :=
  let? snaphost_version := SnapshotVersion_try_from version in
  Ok (snapshot_location snaphost_version id).
Definition gen_block_location (part_uuid : N) : string :=
  prefix +:+ "/" +:+ FUSE_TBL_BLOCK_PREFIX +:+ "/" +:+ to_simple part_uuid +:+ "_v" +:+ pretty DataBlock_VERSION +:+ ".parquet".
Definition gen_segment_info_location (segment_uuid : N) : string :=
  prefix +:+ "/" +:+ FUSE_TBL_SEGMENT_PREFIX +:+ "/" +:+ to_simple segment_uuid +:+ "_v" +:+ pretty SegmentInfo_VERSION +:+ ".json".
End locations.
