(* ===== verification/FuseStats.v ===== *)
(** * Merging the statistics of blocks and segments
    (src/query/src/storages/fuse/statistics/reducers.rs and the merging of append logs in
    operations/commit.rs). *)
From S2P Require Import Prelude DataValue FuseMeta.

Section reducers.
Context {VV : Type} `{!VariantOrd VV}.
Implicit Types x y : DataValue VV.

(** [x.partial_cmp(y).unwrap_or(Ordering::Equal)]. *)
Definition cmp_or_eq x y : comparison := default Eq (partial_cmp x y).
(** [Iterator::min_by] returns the first of several minima, [max_by] the last of several maxima. *)
Definition min_by (l : list (DataValue VV)) : option (DataValue VV) :=
  match l with
  | [] => None
  | x :: l => Some (foldl (λ x y, match cmp_or_eq x y with Gt => y | _ => x end) x l)
  end.
Definition max_by (l : list (DataValue VV)) : option (DataValue VV) :=
  match l with
  | [] => None
  | x :: l => Some (foldl (λ x y, match cmp_or_eq x y with Gt => x | _ => y end) x l)
  end.

(** The statistics of each column, in the order of the maps. *)
Definition transpose (stats : list (ColumnsStatistics VV)) : gmap N (list (ColumnStatistics VV)) :=
  foldl (λ acc item,
    merge (λ o next, match next with
                  | Some s => Some (match o with Some v => v ++ [s] | None => [s] end)
                  | None => o
                  end) acc item) ∅ stats.
Definition non_null (l : list (DataValue VV)) : list (DataValue VV) := List.filter (λ x, negb (is_null x)) l.
Definition reduce_column (stats : list (ColumnStatistics VV)) : ColumnStatistics VV :=
  let min_stats := cs_min <$> stats in
  let max_stats := cs_max <$> stats in
  let null_count := foldl (λ n s, u64_add n (cs_null_count s)) 0%N stats in
  let in_memory_size := foldl (λ n s, u64_add n (cs_in_memory_size s)) 0%N stats in
  let min := default DV_Null (min_by (non_null min_stats)) in
  let max := default DV_Null (max_by (non_null max_stats)) in
  mkColumnStatistics min max null_count in_memory_size.
Definition reduce_block_stats (stats : list (ColumnsStatistics VV)) : ColumnsStatistics VV :=
  reduce_column <$> transpose stats.

(** Whether the next key replaces the least key so far, and the greatest. *)
Fixpoint replaces_min (l r : list (DataValue VV)) : bool :=
  match l, r with
  | x :: l, y :: r =>
      if is_null x then true else if is_null y then false
      else match partial_cmp x y with
           | Some Lt => false
           | Some Gt => true
           | Some Eq | None => replaces_min l r
           end
  | _, _ => false
  end.
Fixpoint replaces_max (l r : list (DataValue VV)) : bool :=
  match l, r with
  | x :: l, y :: r =>
      if is_null x then true else if is_null y then false
      else match partial_cmp x y with
           | Some Lt => true
           | Some Gt => false
           | Some Eq | None => replaces_max l r
           end
  | _, _ => false
  end.
(** [stats[0]] panics on an empty slice; the callers pass two. *)
Definition reduce_cluster_stats {E} (stats : list (option (ClusterStatistics VV))) : res E (option (ClusterStatistics VV)) :=
  if forallb (λ s, bool_decide (is_Some s)) stats then
    match omap id stats with
    | [] => Panic
    | stat :: rest =>
        Ok (Some (foldl (λ acc stat,
          mkClusterStatistics (if replaces_min (cl_min acc) (cl_min stat) then cl_min stat else cl_min acc)
                              (if replaces_max (cl_max acc) (cl_max stat) then cl_max stat else cl_max acc)) stat rest))
    end
  else Ok None.

Definition merge_statistics {E} (l r : Statistics VV) : res E (Statistics VV) :=
  let? cluster := reduce_cluster_stats [cluster_stats l; cluster_stats r] in
  Ok (mkStatistics (u64_add (row_count l) (row_count r)) (u64_add (block_count l) (block_count r))
    (u64_add (uncompressed_byte_size l) (uncompressed_byte_size r))
    (u64_add (compressed_byte_size l) (compressed_byte_size r))
    (reduce_block_stats [col_stats l; col_stats r]) cluster).

(** [FuseTable::merge_append_operations]. *)
Definition merge_append_step {E} (acc : Statistics VV) (stats : Statistics VV) : res E (Statistics VV) :=
  let? '(cols, clusters) :=
    (if Nat.eqb (size (col_stats acc)) 0 then Ok (col_stats stats, cluster_stats stats)
     else
       let? clusters := reduce_cluster_stats [cluster_stats acc; cluster_stats stats] in
       Ok (reduce_block_stats [col_stats acc; col_stats stats], clusters)) in
  Ok (mkStatistics (u64_add (row_count acc) (row_count stats)) (u64_add (block_count acc) (block_count stats))
    (u64_add (uncompressed_byte_size acc) (uncompressed_byte_size stats))
    (u64_add (compressed_byte_size acc) (compressed_byte_size stats)) cols clusters).
Fixpoint merge_append_loop {E} (acc : Statistics VV) (seg_acc : list string) (l : list (AppendOperationLogEntry VV))
    : res E (list string * Statistics VV) :=
  match l with
  | [] => Ok (seg_acc, acc)
  | log_entry :: l =>
      let? acc := merge_append_step acc (si_summary (segment_info log_entry)) in
      merge_append_loop acc (seg_acc ++ [segment_location log_entry]) l
  end.
Definition merge_append_operations {E} (l : list (AppendOperationLogEntry VV)) : res E (list string * Statistics VV) :=
  merge_append_loop Statistics_default [] l.
End reducers.

(** ** What the merged statistics say *)
Section lemmas.
Context {VV : Type} `{!VariantOrd VV}.
Implicit Types (x y : DataValue VV) (m : ColumnsStatistics VV).

Definition scalars m : Prop := map_Forall (λ _ s, scalar (cs_min s) = true ∧ scalar (cs_max s) = true) m.
(** The range of [r] includes that of [s]; a null bound stands for a column without values. *)
Definition covers (r s : ColumnStatistics VV) : Prop :=
  (is_null (cs_min s) = false → is_null (cs_min r) = false ∧ dv_le (cs_min r) (cs_min s)) ∧
  (is_null (cs_max s) = false → is_null (cs_max r) = false ∧ dv_le (cs_max s) (cs_max r)).
Definition covers_all m m' : Prop :=
  ∀ id s, m' !! id = Some s → ∃ r, m !! id = Some r ∧ covers r s.

Lemma elem_of_non_null l x : x ∈ non_null l ↔ x ∈ l ∧ is_null x = false.
Proof. unfold non_null. by rewrite !list_elem_of_In, List.filter_In, negb_true_iff. Qed.

(** The best of a list, by a choice between two values. *)
Section best.
Context (R : DataValue VV → DataValue VV → Prop) (pick : DataValue VV → DataValue VV → DataValue VV).
Hypothesis R_refl : ∀ x, scalar x = true → R x x.
Hypothesis R_trans : ∀ x y z, scalar x = true → scalar y = true → scalar z = true → R x y → R y z → R x z.
Hypothesis pick_ok : ∀ x y, scalar x = true → scalar y = true →
  (pick x y = x ∨ pick x y = y) ∧ R (pick x y) x ∧ R (pick x y) y.

Lemma foldl_best l x :
  scalar x = true → Forall (λ y, scalar y = true) l → foldl pick x l ∈ x :: l ∧ Forall (R (foldl pick x l)) (x :: l).
Proof.
  revert x. induction l as [|y l IH]; intros x Hx Hl; simpl.
  { split; [by left|]. constructor; [by apply R_refl|done]. }
  apply Forall_cons in Hl as [Hy Hl]. destruct (pick_ok x y Hx Hy) as (Hpick & Hpx & Hpy).
  assert (scalar (pick x y) = true) as Hp by by destruct Hpick as [->| ->].
  destruct (IH (pick x y) Hp Hl) as (Hin & [Hle Hall]%Forall_cons). set (m := foldl pick _ l) in *.
  assert (scalar m = true) as Hm.
  { apply elem_of_cons in Hin as [->|Hin]; [done|]. rewrite Forall_forall in Hl. by apply Hl. }
  split.
  - apply elem_of_cons in Hin as [->|Hin]; [|by right; right]. destruct Hpick as [->| ->]; [by left|by right; left].
  - by constructor; [|constructor]; [eapply (R_trans m (pick x y) x)|eapply (R_trans m (pick x y) y)|].
Qed.
Lemma best_of l :
  Forall (λ y, scalar y = true) l →
  let m := default DV_Null (match non_null l with [] => None | x :: l => Some (foldl pick x l) end) in
  scalar m = true ∧ (m ∈ l ∨ m = DV_Null) ∧ ∀ x, x ∈ l → is_null x = false → is_null m = false ∧ R m x.
Proof.
  intros Hl. rewrite Forall_forall in Hl. pose proof (elem_of_non_null l) as Hn. destruct (non_null l) as [|x ls]; simpl.
  - split_and!; [done|by right|]. intros x Hx Hnull. exfalso. by apply (elem_of_nil x), Hn.
  - destruct (foldl_best ls x) as (Hin & Hall).
    { apply Hl, Hn. by left. }
    { apply Forall_forall. intros y Hy. apply Hl, Hn. by right. }
    apply Hn in Hin as [Hin Hnn]. split_and!; [by apply Hl|by left|].
    intros y Hy Hnull. split; [done|]. rewrite Forall_forall in Hall. apply Hall, Hn. done.
Qed.
End best.

Lemma min_of l :
  Forall (λ y, scalar y = true) l →
  let m := default DV_Null (min_by (non_null l)) in
  scalar m = true ∧ (m ∈ l ∨ m = DV_Null) ∧ ∀ x, x ∈ l → is_null x = false → is_null m = false ∧ dv_le m x.
Proof.
  apply best_of; [apply dv_le_refl|apply dv_le_trans|]. intros x y Hx Hy. unfold cmp_or_eq.
  destruct (partial_cmp x y) as [[]|] eqn:Hc; simpl; [..|by rewrite partial_cmp_key in Hc].
  - split_and!; [by left|by apply dv_le_refl|by right].
  - split_and!; [by left|by apply dv_le_refl|by left].
  - split_and!; [by right|by apply dv_gt_le|by apply dv_le_refl].
Qed.
Lemma max_of l :
  Forall (λ y, scalar y = true) l →
  let m := default DV_Null (max_by (non_null l)) in
  scalar m = true ∧ (m ∈ l ∨ m = DV_Null) ∧ ∀ x, x ∈ l → is_null x = false → is_null m = false ∧ dv_le x m.
Proof.
  apply (best_of (flip dv_le)); [apply dv_le_refl|intros x y z ?????; by eapply (dv_le_trans z y x)|].
  intros x y Hx Hy. unfold cmp_or_eq, flip.
  destruct (partial_cmp x y) as [[]|] eqn:Hc; simpl; [..|by rewrite partial_cmp_key in Hc].
  - split_and!; [by right|by right|by apply dv_le_refl].
  - split_and!; [by right|by left|by apply dv_le_refl].
  - split_and!; [by left|by apply dv_le_refl|by apply dv_gt_le].
Qed.

(** ** Columns *)
Lemma lookup_transpose (stats : list (ColumnsStatistics VV)) id :
  transpose stats !! id = match omap (λ m, m !! id) stats with [] => None | l => Some l end.
Proof.
  unfold transpose. enough (∀ acc : gmap N (list (ColumnStatistics VV)),
    (∀ l, acc !! id = Some l → l ≠ []) →
    foldl (λ acc item, merge (λ o next, match next with
      | Some s => Some (match o with Some v => v ++ [s] | None => [s] end) | None => o end) acc item) acc stats !! id =
    match default [] (acc !! id) ++ omap (λ m, m !! id) stats with [] => None | l => Some l end) as Hgen.
  { rewrite Hgen by (intros l; by rewrite lookup_empty). by rewrite lookup_empty. }
  induction stats as [|m stats IH]; intros acc Hacc; csimpl.
  - rewrite app_nil_r. destruct (acc !! id) as [l|]; simpl; [|done]. specialize (Hacc l eq_refl). by destruct l.
  - rewrite IH; clear IH; rewrite lookup_merge; destruct (acc !! id) as [l|] eqn:Hid, (m !! id) as [s|]; simpl.
    + by rewrite <-app_assoc.
    + done.
    + done.
    + done.
    + intros l' [= <-]. by destruct l.
    + intros l' [= <-]. by apply Hacc.
    + by intros l' [= <-].
    + done.
Qed.

Lemma reduce_column_covers stats :
  Forall (λ s, scalar (cs_min s) = true ∧ scalar (cs_max s) = true) stats →
  let r := reduce_column stats in
  scalar (cs_min r) = true ∧ scalar (cs_max r) = true ∧ Forall (covers r) stats.
Proof.
  intros Hs. destruct (min_of (cs_min <$> stats)) as (Hm & _ & Hmin).
  { apply Forall_fmap. eapply Forall_impl; [exact Hs|]. by intros s [? _]. }
  destruct (max_of (cs_max <$> stats)) as (HM & _ & Hmax).
  { apply Forall_fmap. eapply Forall_impl; [exact Hs|]. by intros s [_ ?]. }
  split_and!; [done|done|]. apply Forall_forall. intros s Hin. split; intros Hnull.
  - by apply Hmin; [apply list_elem_of_fmap_2|].
  - by apply Hmax; [apply list_elem_of_fmap_2|].
Qed.
Lemma reduce_covers stats m :
  Forall scalars stats → m ∈ stats → scalars (reduce_block_stats stats) ∧ covers_all (reduce_block_stats stats) m.
Proof.
  intros Hs Hin. assert (∀ id, Forall (λ s, scalar (cs_min s) = true ∧ scalar (cs_max s) = true)
    (omap (λ m, m !! id) stats)) as Hid.
  { intros id. apply Forall_forall. intros s (m' & Hm' & Hl)%list_elem_of_omap. rewrite Forall_forall in Hs.
    exact (Hs m' Hm' id s Hl). }
  split.
  - intros id r. unfold reduce_block_stats. rewrite lookup_fmap, lookup_transpose.
    intros (l & Hl & ->)%fmap_Some. destruct (omap _ stats) eqn:Ho; [done|]. injection Hl as <-. rewrite <-Ho.
    destruct (reduce_column_covers _ (Hid id)) as (? & ? & _). by split.
  - intros id s Hl. unfold reduce_block_stats. rewrite lookup_fmap, lookup_transpose.
    assert (s ∈ omap (λ m, m !! id) stats) as Hel by (apply list_elem_of_omap; by exists m).
    destruct (reduce_column_covers _ (Hid id)) as (_ & _ & Hc). rewrite Forall_forall in Hc. specialize (Hc s Hel).
    destruct (omap _ stats) eqn:Ho; [by apply elem_of_nil in Hel|]. by eexists.
Qed.

Lemma covers_trans (r s u : ColumnStatistics VV) :
  scalar (cs_min r) = true → scalar (cs_max r) = true → scalar (cs_min s) = true → scalar (cs_max s) = true →
  scalar (cs_min u) = true → scalar (cs_max u) = true → covers r s → covers s u → covers r u.
Proof.
  intros ?????? [Hmin Hmax] [Hmin' Hmax']. split; intros Hnull.
  - destruct (Hmin' Hnull) as [Hs ?], (Hmin Hs) as [Hr ?]. split; [done|]. by eapply (dv_le_trans _ (cs_min s)).
  - destruct (Hmax' Hnull) as [Hs ?], (Hmax Hs) as [Hr ?]. split; [done|]. by eapply (dv_le_trans _ (cs_max s)).
Qed.
Lemma covers_all_trans m m' m'' :
  scalars m → scalars m' → scalars m'' → covers_all m m' → covers_all m' m'' → covers_all m m''.
Proof.
  intros Hm Hm' Hm'' Hc Hc' id u Hu. destruct (Hc' id u Hu) as (s & Hs & Hsu). destruct (Hc id s Hs) as (r & Hr & Hrs).
  exists r. split; [done|]. destruct (Hm id r Hr), (Hm' id s Hs), (Hm'' id u Hu). by eapply (covers_trans r s u).
Qed.
Lemma covers_refl (s : ColumnStatistics VV) : scalar (cs_min s) = true → scalar (cs_max s) = true → covers s s.
Proof. intros. split; intros; (split; [done|by apply dv_le_refl]). Qed.
Lemma covers_all_refl m : scalars m → covers_all m m.
Proof. intros Hm id s Hs. exists s. split; [done|]. destruct (Hm id s Hs). by apply covers_refl. Qed.

(** ** Summaries *)
Definition summary_ok (s : Statistics VV) : Prop := scalars (col_stats s).
Lemma cluster_two {E} (a b : option (ClusterStatistics VV)) : ∃ c, reduce_cluster_stats (E:=E) [a; b] = Ok c.
Proof. destruct a, b; simpl; by eexists. Qed.
Lemma reduce_two (m1 m2 : ColumnsStatistics VV) :
  scalars m1 → scalars m2 →
  let m := reduce_block_stats [m1; m2] in scalars m ∧ covers_all m m1 ∧ covers_all m m2.
Proof.
  intros H1 H2 m. assert (Forall scalars [m1; m2]) as Hs by (do 2 (apply Forall_cons; split; [done|]); apply Forall_nil; done).
  destruct (reduce_covers [m1; m2] m1 Hs) as [? ?]; [by left|].
  destruct (reduce_covers [m1; m2] m2 Hs) as [_ ?]; [by right; left|]. by split_and!.
Qed.
(** Merging keeps what both sides say. *)
Definition merged (a b s : Statistics VV) : Prop :=
  row_count s = u64_add (row_count a) (row_count b) ∧ block_count s = u64_add (block_count a) (block_count b) ∧
  summary_ok s ∧ covers_all (col_stats s) (col_stats a) ∧ covers_all (col_stats s) (col_stats b).
Lemma merge_statistics_ok {E} a b :
  summary_ok a → summary_ok b → ∃ s, merge_statistics (E:=E) a b = Ok s ∧ merged a b s.
Proof.
  intros Ha Hb. unfold merge_statistics. destruct (cluster_two (E:=E) (cluster_stats a) (cluster_stats b)) as (c & ->).
  destruct (reduce_two _ _ Ha Hb) as (? & ? & ?). eexists. split; [done|]. by split_and!.
Qed.
Lemma merge_step_ok {E} a b :
  summary_ok a → summary_ok b → ∃ s, merge_append_step (E:=E) a b = Ok s ∧ merged a b s.
Proof.
  intros Ha Hb. unfold merge_append_step. destruct (Nat.eqb _ 0) eqn:Hsize; simpl.
  - eexists. split; [done|]. split_and!; [done|done|done| |by apply covers_all_refl].
    apply Nat.eqb_eq, map_size_empty_inv in Hsize. intros id s. simpl. by rewrite Hsize, lookup_empty.
  - destruct (cluster_two (E:=E) (cluster_stats a) (cluster_stats b)) as (c & ->).
    destruct (reduce_two _ _ Ha Hb) as (? & ? & ?). eexists. split; [done|]. by split_and!.
Qed.

Definition entry_summary (e : AppendOperationLogEntry VV) : Statistics VV := si_summary (segment_info e).
Lemma merge_loop_ok {E} (log : list (AppendOperationLogEntry VV)) acc locs :
  Forall (λ e, summary_ok (entry_summary e)) log → summary_ok acc →
  ∃ s, merge_append_loop (E:=E) acc locs log = Ok (locs ++ (segment_location <$> log), s) ∧
    row_count s = foldl (λ n e, u64_add n (row_count (entry_summary e))) (row_count acc) log ∧
    summary_ok s ∧ covers_all (col_stats s) (col_stats acc) ∧
    Forall (λ e, covers_all (col_stats s) (col_stats (entry_summary e))) log.
Proof.
  revert acc locs. induction log as [|e log IH]; intros acc locs Hlog Hacc; csimpl.
  { exists acc. rewrite app_nil_r. split_and!; [done|done|done|by apply covers_all_refl|done]. }
  apply Forall_cons in Hlog as [He Hlog].
  destruct (merge_step_ok (E:=E) acc (entry_summary e) Hacc He) as (s1 & Hs1 & Hrows & _ & Hok1 & Hc1 & Hc2).
  unfold entry_summary in Hs1. rewrite Hs1. simpl.
  destruct (IH s1 (locs ++ [segment_location e]) Hlog Hok1) as (s & Hrun & Hr & Hok & Hc & Hall).
  exists s. rewrite Hrun, <-app_assoc, Hr, Hrows. split_and!; [done|done|done|by eapply (covers_all_trans _ (col_stats s1))|].
  constructor; [by eapply (covers_all_trans _ (col_stats s1))|done].
Qed.
Lemma merge_append_ok {E} (log : list (AppendOperationLogEntry VV)) :
  Forall (λ e, summary_ok (entry_summary e)) log →
  ∃ s, merge_append_operations (E:=E) log = Ok (segment_location <$> log, s) ∧
    row_count s = foldl (λ n e, u64_add n (row_count (entry_summary e))) 0%N log ∧ summary_ok s ∧
    Forall (λ e, covers_all (col_stats s) (col_stats (entry_summary e))) log.
Proof.
  intros Hlog. destruct (merge_loop_ok (E:=E) log Statistics_default [] Hlog) as (s & Hrun & Hr & Hok & _ & Hall);
    [by apply map_Forall_empty|]. by exists s.
Qed.
End lemmas.
