(* ===== verification/FuseIo.v ===== *)
(** * Reading the metadata of fuse tables (src/query/src/storages/fuse/io/read).

    Objects live in a store that is reached through the crate opendal ([Operator]).  Each
    node keeps recently used snapshots and segments in memory, in the caches of Lru.v; a
    node whose cache is switched off has none. *)
From S2P Require Import Prelude MetaTypes Lru Exception DataValue FuseMeta Management.

(** opendal: the length of an object, its first bytes, writing and deleting. *)
Class Operator (Obj : Type) := {
  dal_metadata : string → M Obj IoErr N;
  dal_read : string → N → M Obj IoErr bytes;
  dal_write : string → bytes → M Obj IoErr unit;
  dal_delete : string → M Obj IoErr unit;
}.
#[global] Hint Mode Operator ! : typeclass_instances.

(** What opendal promises.  An operation may fail at any time; then only the object it is
    about can have changed.  [IoNotFound] is reported for absent objects only, and deleting
    an absent object succeeds or fails like any other. *)
Class OperatorLaws (Obj : Type) `{Operator Obj} (objects : Obj → gmap string bytes) : Prop := {
  metadata_ok p o :
    let '(r, o') := dal_metadata p o in
    objects o' = objects o ∧
    match r with
    | Ok n => ∃ b, objects o !! p = Some b ∧ n = N.of_nat (String.length b)
    | Err e => io_kind e = IoNotFound → objects o !! p = None
    | Panic => False
    end;
  read_ok p n o :
    let '(r, o') := dal_read p n o in
    objects o' = objects o ∧
    match r with
    | Ok c => ∃ b, objects o !! p = Some b ∧ c = String.substring 0 (N.to_nat n) b
    | Err e => io_kind e = IoNotFound → objects o !! p = None
    | Panic => False
    end;
  write_ok p b o :
    let '(r, o') := dal_write p b o in
    (∀ q, q ≠ p → objects o' !! q = objects o !! q) ∧
    match r with
    | Ok _ => objects o' !! p = Some b
    | Err _ => True
    | Panic => False
    end;
  delete_ok p o :
    let '(r, o') := dal_delete p o in
    (∀ q, q ≠ p → objects o' !! q = objects o !! q) ∧
    match r with
    | Ok _ => objects o' !! p = None
    | Err _ => objects o' !! p = objects o !! p ∨ objects o' !! p = None
    | Panic => False
    end;
}.
(** Nothing fails that need not. *)
Class OperatorQuiet (Obj : Type) `{Operator Obj} (objects : Obj → gmap string bytes) : Prop := {
  metadata_quiet p o : is_Some (objects o !! p) → is_ok (dal_metadata p o).1 = true;
  metadata_absent p o : objects o !! p = None → ∃ e, (dal_metadata p o).1 = Err e ∧ io_kind e = IoNotFound;
  read_quiet p n o : is_Some (objects o !! p) → is_ok (dal_read p n o).1 = true;
  write_quiet p b (o : Obj) : is_ok (dal_write p b o).1 = true;
  delete_quiet p (o : Obj) : is_ok (dal_delete p o).1 = true;
}.

Section world.
Context {VV DataSchema : Type}.
Abbreviation Snapshot := (TableSnapshot VV DataSchema).
Abbreviation Segment := (SegmentInfo VV).
#[local] Instance count_meter {A} : Meter string A := Count.

(** The state that table operations work on: the metadata service, the object store, the
    caches of the nodes, the number of identifiers drawn so far, and the rows and bytes
    that each node reports as written. *)
Record fuse_world (W Obj TS TG : Type) := mkFuse {
  fw_meta : W;
  fw_objs : Obj;
  fw_snapshots : gmap N (LruCache TS string Snapshot);
  fw_segments : gmap N (LruCache TG string Segment);
  fw_uuids : nat;
  fw_progress : gmap N (N * N);
}.
End world.
Arguments fuse_world VV DataSchema W Obj TS TG : clear implicits.
Arguments mkFuse {VV DataSchema W Obj TS TG} _ _ _ _ _ _.
Arguments fw_meta {VV DataSchema W Obj TS TG} _.
Arguments fw_objs {VV DataSchema W Obj TS TG} _.
Arguments fw_snapshots {VV DataSchema W Obj TS TG} _.
Arguments fw_segments {VV DataSchema W Obj TS TG} _.
Arguments fw_uuids {VV DataSchema W Obj TS TG} _.
Arguments fw_progress {VV DataSchema W Obj TS TG} _.

Section readers.
Context {VV DataSchema W Obj TS TG : Type} `{!Operator Obj, !Capture, !Uuids}.
Context `{!LinkedHashMap TS string (TableSnapshot VV DataSchema), !LinkedHashMap TG string (SegmentInfo VV)}.
Context `{!Json (TableSnapshot VV DataSchema), !Json (TableSnapshotV0 VV DataSchema)}.
Context `{!Json (SegmentInfo VV), !Json (SegmentInfoV0 VV)}.
#[local] Existing Instance count_meter.
Abbreviation world := (fuse_world VV DataSchema W Obj TS TG).
Abbreviation MF A := (M world ErrorCode A).

Definition objM {A} (m : M Obj IoErr A) : MF A := λ w,
  let '(r, o) := m (fw_objs w) in
  (map_err ErrorCode_from_io r, mkFuse (fw_meta w) o (fw_snapshots w) (fw_segments w) (fw_uuids w) (fw_progress w)).
Definition stateM {A} (f : world → A * world) : MF A := λ w, let '(a, w) := f w in (Ok a, w).
(** [Uuid::new_v4()]. *)
Definition fresh_uuid : MF N := stateM (λ w,
  (new_v4 (fw_uuids w),
   mkFuse (fw_meta w) (fw_objs w) (fw_snapshots w) (fw_segments w) (S (fw_uuids w)) (fw_progress w))).
(** The cache of a node, a parameter to the operations that use it. *)
Definition get_snapshot_cache (node : N) : MF (option (LruCache TS string (TableSnapshot VV DataSchema))) :=
  stateM (λ w, (fw_snapshots w !! node, w)).
Definition set_snapshot_cache (node : N) (c : LruCache TS string (TableSnapshot VV DataSchema)) : MF unit :=
  stateM (λ w, (tt, mkFuse (fw_meta w) (fw_objs w) (<[node:=c]> (fw_snapshots w)) (fw_segments w) (fw_uuids w) (fw_progress w))).
Definition get_segment_cache (node : N) : MF (option (LruCache TG string (SegmentInfo VV))) :=
  stateM (λ w, (fw_segments w !! node, w)).
Definition set_segment_cache (node : N) (c : LruCache TG string (SegmentInfo VV)) : MF unit :=
  stateM (λ w, (tt, mkFuse (fw_meta w) (fw_objs w) (fw_snapshots w) (<[node:=c]> (fw_segments w)) (fw_uuids w) (fw_progress w))).

(** ** Loading: meta_readers.rs, versioned_reader.rs *)
Definition buf_reader (path : string) (len : option N) : MF bytes :=
  let! len := match len with Some l => ret l | None => objM (dal_metadata path) end in
  objM (dal_read path len).
Definition read_snapshot_version (v : SnapshotVersion) (b : bytes) : res ErrorCode (TableSnapshot VV DataSchema) :=
  match v with
  | SnV1 => jsonR (of_json b)
  | SnV0 => res_map TableSnapshot_from_v0 (jsonR (of_json (T:=TableSnapshotV0 VV DataSchema) b))
  end.
Definition read_segment_version (v : SegmentInfoVersion) (b : bytes) : res ErrorCode (SegmentInfo VV) :=
  match v with
  | SgV1 => jsonR (of_json b)
  | SgV0 => res_map SegmentInfo_from_v0 (jsonR (of_json (T:=SegmentInfoV0 VV) b))
  end.
Definition load_snapshot (key : string) (length_hint : option N) (version : N) : MF (TableSnapshot VV DataSchema) :=
  let! version := lift (SnapshotVersion_try_from version) in
  let! reader := buf_reader key length_hint in
  lift (read_snapshot_version version reader).
Definition load_segment (key : string) (length_hint : option N) (version : N) : MF (SegmentInfo VV) :=
  let! version := lift (SegmentInfoVersion_try_from version) in
  let! reader := buf_reader key length_hint in
  lift (read_segment_version version reader).

(** ** The cached reader: cached_reader.rs *)
Definition cached_read {T A} `{!LinkedHashMap T string A} (get : MF (option (LruCache T string A)))
    (set : LruCache T string A → MF unit) (load : MF A) (location : string) : MF A :=
  let! cache := get in
  match cache with
  | None => load
  | Some cache =>
      let '(o, cache) := lru_get cache location in
      let! _ := set cache in
      match o with
      | Some item => ret item
      | None =>
          let! item := load in
          let! '(_, cache) := lift (unwrap (lru_put cache location item)) in
          let! _ := set cache in
          ret item
      end
  end.
Definition read_snapshot (node : N) (location : string) (version : N) : MF (TableSnapshot VV DataSchema) :=
  cached_read (get_snapshot_cache node) (set_snapshot_cache node) (load_snapshot location None version) location.
Definition read_segment (node : N) (location : string) (version : N) : MF (SegmentInfo VV) :=
  cached_read (get_segment_cache node) (set_segment_cache node) (load_segment location None version) location.

(** The snapshots from the latest one back; [None] when the fuel is used up. *)
Fixpoint history_loop (fuel : nat) (node : N) (prefix loc : string) (ver : N) (snapshots : list (TableSnapshot VV DataSchema))
    : MF (option (list (TableSnapshot VV DataSchema))) :=
  match fuel with
  | O => ret None
  | S fuel =>
      let! r := tryM (E:=ErrorCode) (read_snapshot node loc ver) in
      match r with
      | inl e => if (code e =? Exc.code_of Exc.StorageNotFound)%N then ret (Some snapshots) else throw e
      | inr snapshot =>
          match ts_prev_snapshot_id snapshot with
          | Some (id, v) =>
              let! loc := lift (snapshot_location_from_uuid prefix id v) in
              history_loop fuel node prefix loc v (snapshots ++ [snapshot])
          | None => ret (Some (snapshots ++ [snapshot]))
          end
      end
  end.
Definition read_snapshot_history (fuel : nat) (node : N) (latest_snapshot_location : option string) (format_version : N)
    (prefix : string) : MF (option (list (TableSnapshot VV DataSchema))) :=
  match latest_snapshot_location with
  | Some loc => history_loop fuel node prefix loc format_version []
  | None => ret (Some [])
  end.
End readers.
