(* ===== verification/FuseReads.v ===== *)
(** * What reading the metadata of fuse tables returns.

    Reads go through the caches of the nodes.  If every cached entry and every object has a
    property, then so has everything that is read, and it still holds afterwards. *)
From S2P Require Import Prelude MetaTypes Exception Management Lru DataValue FuseMeta FuseIo.

(** serde_json fails with an error, not by panicking. *)
Class JsonTotal (T : Type) `{Json T} : Prop := {
  to_json_total (a : T) : to_json a ≠ Panic;
  of_json_total b : of_json (T:=T) b ≠ Panic;
}.

Lemma substring_all s : String.substring 0 (String.length s) s = s.
Proof. induction s as [|a s IH]; simpl; [done|]. by rewrite IH. Qed.
Lemma substring_skip a b n : String.substring (String.length a) n (a +:+ b) = String.substring 0 n b.
Proof. induction a as [|x a IH]; [done|]. rewrite string_app_cons. apply IH. Qed.

(** ** Caches *)
Section cached.
Context {T A : Type} `{!LinkedHashMap T string A, !LinkedHashMapLaws T string A}.
#[local] Existing Instance count_meter.
#[local] Instance count_meter_laws : @MeterLaws string A count_meter := count_laws.
Implicit Types (P : string → A → Prop) (cache : LruCache T string A).

Definition cached P cache : Prop :=
  ∃ l, lru_ok cache l ∧ (max_capacity cache + 1 < u64_modulus)%N ∧ ∀ loc a, (loc, a) ∈ l → P loc a.

Lemma cached_mono P Q cache : cached P cache → (∀ loc a, P loc a → Q loc a) → cached Q cache.
Proof. intros (l & Hok & Hcap & Hl) HPQ. exists l. split_and!; [done..|]. eauto. Qed.
Lemma cached_get P cache loc :
  cached P cache → cached P (lru_get cache loc).2 ∧ (∀ a, (lru_get cache loc).1 = Some a → P loc a).
Proof.
  intros (l & Hok & Hcap & Hl). destruct (get_ok cache l loc Hok) as [Hget Hok'].
  assert (Hok0 := Hok). destruct Hok0 as ((_ & Hnd & _) & _).
  assert (∀ a, assoc l loc = Some a → (loc, a) ∈ l) as Hin by (intros a; by rewrite assoc_Some).
  split.
  - exists (touch l loc). split_and!; [done| |].
    + unfold lru_get in *. by destruct (lhm_get_refresh _ _).
    + intros loc' a. unfold touch. destruct (assoc l loc) as [a'|] eqn:Ha; [|apply Hl].
      rewrite elem_of_app, elem_of_without, list_elem_of_singleton. intros [[Hin' _]|[= -> ->]]; eauto.
  - intros a. rewrite Hget. eauto.
Qed.
Lemma elem_of_trim n (l : list (string * A)) x : x ∈ trim n l → x ∈ l.
Proof. destruct (trim_suffix n l) as (old & Hl & _). rewrite Hl at 2. rewrite elem_of_app. auto. Qed.
Lemma cached_put P cache loc a :
  cached P cache → P loc a → ∃ o cache', lru_put cache loc a = Some (o, cache') ∧ cached P cache'.
Proof.
  intros (l & Hok & Hcap & Hl) Ha. destruct (put_ok cache l loc a Hok) as (cache' & Hput & Hok' & Hmax); [done|].
  eexists _, cache'. split; [done|]. eexists. split_and!; [done|by rewrite Hmax|].
  intros loc' a' Hin%elem_of_trim. rewrite elem_of_app, elem_of_without, list_elem_of_singleton in Hin.
  destruct Hin as [[Hin _]|[= -> ->]]; eauto.
Qed.
Lemma cached_pop P cache loc : cached P cache → cached P (lru_pop cache loc).2.
Proof.
  intros (l & Hok & Hcap & Hl). destruct (pop_ok cache l loc Hok) as [_ Hok']. eexists. split_and!; [done| |].
  - unfold lru_pop. destruct (lhm_remove _ _) as [[?|] ?]; exact Hcap.
  - intros loc' a [Hin _]%elem_of_without. eauto.
Qed.
End cached.

(** ** Objects *)
Section reads.
Context {VV DataSchema W Obj TS TG : Type} `{!Operator Obj, !Capture}.
Context (objects : Obj → gmap string bytes) `{!OperatorLaws Obj objects}.
Context `{!LinkedHashMap TS string (TableSnapshot VV DataSchema), !LinkedHashMapLaws TS string (TableSnapshot VV DataSchema)}.
Context `{!LinkedHashMap TG string (SegmentInfo VV), !LinkedHashMapLaws TG string (SegmentInfo VV)}.
Context `{!Json (TableSnapshot VV DataSchema), !Json (TableSnapshotV0 VV DataSchema)}.
Context `{!Json (SegmentInfo VV), !Json (SegmentInfoV0 VV)}.
#[local] Existing Instance count_meter.
Abbreviation world := (fuse_world VV DataSchema W Obj TS TG).
Abbreviation Snapshot := (TableSnapshot VV DataSchema).
Abbreviation Segment := (SegmentInfo VV).
Implicit Types w : world.

(** What an operation leaves alone, caches of snapshots aside. *)
Definition untouched w w' : Prop :=
  fw_meta w' = fw_meta w ∧ fw_uuids w' = fw_uuids w ∧ objects (fw_objs w') = objects (fw_objs w) ∧
  fw_segments w' = fw_segments w.
Lemma untouched_trans w1 w2 w3 : untouched w1 w2 → untouched w2 w3 → untouched w1 w3.
Proof. unfold untouched. intuition congruence. Qed.

(** The error that says that an object is not there is true. *)
Definition missing (e : ErrorCode) : bool := (code e =? Exc.code_of Exc.StorageNotFound)%N.
Lemma missing_io e : missing (ErrorCode_from_io e) = true → io_kind e = IoNotFound.
Proof. unfold ErrorCode_from_io. by destruct (io_kind e). Qed.

(** Reading a whole object. *)
Lemma buf_reader_ok path w :
  wp (buf_reader path None) (λ r w', untouched w w' ∧ fw_snapshots w' = fw_snapshots w ∧ fw_progress w' = fw_progress w ∧
    match r with
    | Ok b => objects (fw_objs w) !! path = Some b
    | Err e => missing e = true → objects (fw_objs w) !! path = None
    | Panic => False
    end) w.
Proof.
  unfold buf_reader. apply wp_bind. unfold wp at 1, objM at 1. simpl.
  pose proof (metadata_ok path (fw_objs w)) as Hm. destruct (dal_metadata path (fw_objs w)) as [r o] eqn:Hmeta.
  destruct Hm as [Ho Hr]. destruct r as [n|e|]; simpl; [|split_and!; [done..|intros; by apply Hr, missing_io]|done].
  destruct Hr as (b & Hb & ->).
  unfold wp, objM. simpl fw_objs. pose proof (read_ok path (N.of_nat (String.length b)) o) as Hrd.
  destruct (dal_read path _ o) as [r o']. destruct Hrd as [Ho' Hr]. simpl.
  split_and!; [by split_and!; simpl; try congruence|done..|].
  destruct r as [c|e|]; simpl; [|intros; rewrite <-Ho; by apply Hr, missing_io|done].
  destruct Hr as (b' & Hb' & ->). rewrite Ho in Hb'.
  rewrite Nat2N.id. replace b' with b by congruence. by rewrite substring_all.
Qed.

Section snapshots.
Context `{!JsonTotal Snapshot, !JsonTotal (TableSnapshotV0 VV DataSchema)} (P : string → Snapshot → Prop).
Definition snapshots_cached w : Prop := ∀ node cache, fw_snapshots w !! node = Some cache → cached P cache.

Lemma read_version_total v b : read_snapshot_version (VV:=VV) (DataSchema:=DataSchema) v b ≠ Panic.
Proof.
  destruct v; simpl.
  - pose proof (of_json_total (T:=TableSnapshotV0 VV DataSchema) b). by destruct (of_json b).
  - pose proof (of_json_total (T:=Snapshot) b). by destruct (of_json b).
Qed.
Lemma load_snapshot_ok loc version w :
  wp (load_snapshot loc None version) (λ r w', untouched w w' ∧ fw_snapshots w' = fw_snapshots w ∧
    match r with
    | Ok s => ∃ b v, objects (fw_objs w) !! loc = Some b ∧ SnapshotVersion_try_from version = Ok v ∧
        read_snapshot_version v b = Ok s
    | Err e => missing e = true → objects (fw_objs w) !! loc = None
    | Panic => False
    end) w.
Proof.
  unfold load_snapshot. apply wp_bind. unfold wp at 1, lift at 1.
  destruct (SnapshotVersion_try_from _) as [v|e|] eqn:Hv; simpl.
  2, 3: unfold SnapshotVersion_try_from in Hv; repeat destruct (_ =? _)%N; simplify_eq; by split_and!.
  apply wp_bind. eapply wp_mono; [apply buf_reader_ok|]. simpl. intros [b|e|] w' (Hu & Hs & _ & Hb); [|by split_and!|done].
  unfold wp, lift. simpl. split_and!; [done..|].
  destruct (read_snapshot_version v b) as [s|e|] eqn:Hd; [by exists b, v| |by apply read_version_total in Hd].
  unfold read_snapshot_version, jsonR in Hd. by destruct v, (of_json b); simplify_eq/=.
Qed.
Lemma put_snapshots_cached w node cache :
  snapshots_cached w → cached P cache →
  snapshots_cached (mkFuse (fw_meta w) (fw_objs w) (<[node:=cache]> (fw_snapshots w)) (fw_segments w) (fw_uuids w) (fw_progress w)).
Proof. intros Hc Hcache n c. simpl. rewrite lookup_insert_Some. intros [[<- <-]|[_ Hl]]; eauto. Qed.
Lemma read_snapshot_cached node loc version w :
  snapshots_cached w →
  (∀ b v s, objects (fw_objs w) !! loc = Some b → SnapshotVersion_try_from version = Ok v →
    read_snapshot_version v b = Ok s → P loc s) →
  wp (read_snapshot node loc version) (λ r w', untouched w w' ∧ snapshots_cached w' ∧
    match r with
    | Ok s => P loc s
    | Err e => missing e = true → objects (fw_objs w) !! loc = None
    | Panic => False
    end) w.
Proof.
  intros Hc Hobj. unfold read_snapshot, cached_read. apply wp_bind. unfold wp at 1, get_snapshot_cache, stateM.
  assert (∀ w1, untouched w w1 → snapshots_cached w1 →
    wp (load_snapshot loc None version) (λ r w', untouched w w' ∧ snapshots_cached w' ∧
      match r with
      | Ok s => P loc s
      | Err e => missing e = true → objects (fw_objs w) !! loc = None
      | Panic => False
      end) w1) as Hload.
  { intros w1 Hu1 Hc1. eapply wp_mono; [apply load_snapshot_ok|]. simpl. intros r w2 (Hu2 & Hs2 & Hr).
    split_and!; [by eapply untouched_trans| |].
    - intros n c. rewrite Hs2. apply Hc1.
    - destruct Hu1 as (_ & _ & Ho1 & _). rewrite Ho1 in Hr. destruct r as [s|e|]; [|done..].
      destruct Hr as (b & v & Hb & Hv & Hd). by eapply Hobj. }
  destruct (fw_snapshots w !! node) as [cache|] eqn:Hcache; simpl; [|by apply Hload].
  destruct (cached_get P cache loc (Hc _ _ Hcache)) as [Hc' Hget].
  destruct (lru_get cache loc) as [o cache']. simpl in *.
  apply wp_bind. unfold wp at 1, set_snapshot_cache, stateM. simpl.
  pose proof (put_snapshots_cached w node cache' Hc Hc') as Hw'.
  destruct o as [s|]; [unfold wp, ret; split_and!; [done..|]; by apply Hget|].
  apply wp_bind. eapply wp_mono; [by apply Hload|]. simpl. intros [s|e|] w2 (Hu2 & Hc2 & Hs); [|done..].
  apply wp_bind. unfold wp at 1, lift. destruct (cached_put P cache' loc s Hc' Hs) as (o & c2 & -> & Hcc).
  simpl. split_and!; [by eapply untouched_trans|by apply put_snapshots_cached|done].
Qed.
End snapshots.

Section segments.
Context `{!JsonTotal Segment, !JsonTotal (SegmentInfoV0 VV)} (P : string → Segment → Prop).
Definition segments_cached w : Prop := ∀ node cache, fw_segments w !! node = Some cache → cached P cache.
(** What reading a segment leaves alone. *)
Definition seg_untouched w w' : Prop :=
  fw_meta w' = fw_meta w ∧ fw_uuids w' = fw_uuids w ∧ objects (fw_objs w') = objects (fw_objs w) ∧
  fw_snapshots w' = fw_snapshots w.
Lemma seg_untouched_trans w1 w2 w3 : seg_untouched w1 w2 → seg_untouched w2 w3 → seg_untouched w1 w3.
Proof. unfold seg_untouched. intuition congruence. Qed.

Lemma load_segment_ok loc version w :
  wp (load_segment loc None version) (λ r w', seg_untouched w w' ∧ fw_segments w' = fw_segments w ∧
    match r with
    | Ok g => ∃ b v, objects (fw_objs w) !! loc = Some b ∧ read_segment_version v b = Ok g
    | Err _ => True
    | Panic => False
    end) w.
Proof.
  unfold load_segment. apply wp_bind. unfold wp at 1, lift at 1.
  destruct (SegmentInfoVersion_try_from _) as [v|e|] eqn:Hv; simpl.
  2, 3: unfold SegmentInfoVersion_try_from in Hv; repeat destruct (_ =? _)%N; simplify_eq; by split_and!.
  apply wp_bind. eapply wp_mono; [apply buf_reader_ok|]. simpl.
  intros [b|e|] w' ((Hm & Hid & Ho & Hg) & Hs & _ & Hb); [|by split_and!|done].
  unfold wp, lift. simpl. split_and!; [done..|].
  destruct (read_segment_version v b) as [g|e|] eqn:Hd; [by exists b, v|done|].
  pose proof (of_json_total (T:=SegmentInfoV0 VV) b). pose proof (of_json_total (T:=Segment) b).
  unfold read_segment_version, jsonR in Hd. by destruct v, (of_json b); simplify_eq/=.
Qed.
Lemma put_segments_cached w node cache :
  segments_cached w → cached P cache →
  segments_cached (mkFuse (fw_meta w) (fw_objs w) (fw_snapshots w) (<[node:=cache]> (fw_segments w)) (fw_uuids w) (fw_progress w)).
Proof. intros Hc Hcache n c. simpl. rewrite lookup_insert_Some. intros [[<- <-]|[_ Hl]]; eauto. Qed.
Lemma read_segment_cached node loc version w :
  segments_cached w →
  (∀ b v g, objects (fw_objs w) !! loc = Some b → read_segment_version v b = Ok g → P loc g) →
  wp (read_segment node loc version) (λ r w', seg_untouched w w' ∧ segments_cached w' ∧
    match r with Ok g => P loc g | Err _ => True | Panic => False end) w.
Proof.
  intros Hc Hobj. unfold read_segment, cached_read. apply wp_bind. unfold wp at 1, get_segment_cache, stateM.
  assert (∀ w1, seg_untouched w w1 → segments_cached w1 →
    wp (load_segment loc None version) (λ r w', seg_untouched w w' ∧ segments_cached w' ∧
      match r with Ok g => P loc g | Err _ => True | Panic => False end) w1) as Hload.
  { intros w1 Hu1 Hc1. eapply wp_mono; [apply load_segment_ok|]. simpl. intros r w2 (Hu2 & Hs2 & Hr).
    split_and!; [by eapply seg_untouched_trans| |].
    - intros n c. rewrite Hs2. apply Hc1.
    - destruct r as [g|e|]; [|done..]. destruct Hr as (b & v & Hb & Hd).
      destruct Hu1 as (_ & _ & Ho1 & _). rewrite Ho1 in Hb. by eapply Hobj. }
  destruct (fw_segments w !! node) as [cache|] eqn:Hcache; simpl; [|by apply Hload].
  destruct (cached_get P cache loc (Hc _ _ Hcache)) as [Hc' Hget].
  destruct (lru_get cache loc) as [o cache']. simpl in *.
  apply wp_bind. unfold wp at 1, set_segment_cache, stateM. simpl.
  pose proof (put_segments_cached w node cache' Hc Hc') as Hw'.
  destruct o as [g|]; [unfold wp, ret; split_and!; [done..|]; by apply Hget|].
  apply wp_bind. eapply wp_mono; [by apply Hload|]. simpl. intros [g|e|] w2 (Hu2 & Hc2 & Hs); [|done..].
  apply wp_bind. unfold wp at 1, lift. destruct (cached_put P cache' loc g Hc' Hs) as (o & c2 & -> & Hcc).
  simpl. split_and!; [by eapply seg_untouched_trans|by apply put_segments_cached|done].
Qed.
End segments.
End reads.
