(* ===== verification/Catalog.v ===== *)
(** * The catalogs of a query node (src/query/src/catalogs, databases/database_factory.rs,
    storages/storage_factory.rs).

    The default catalog has two layers: the system databases, whose tables live in memory,
    and below them the databases of the meta service.  [SchemaTrait] is the interface that
    the lower layer uses; SchemaApi.v implements it. *)
From S2P Require Import Prelude MetaTypes KvApi KeyCodec SchemaApi Exception.

(** [str::to_uppercase], which maps some letters outside ASCII as well. *)
Class ToUppercase := to_uppercase : string → string.
Definition ascii_upper_char (c : Ascii.ascii) : Ascii.ascii :=
  if in_bytes 97 122 c then Ascii.ascii_of_N (byte_of c - 32) else c.
Fixpoint ascii_upper (s : string) : string :=
  match s with EmptyString => EmptyString | String c s => String (ascii_upper_char c) (ascii_upper s) end.
Definition is_ascii (s : string) : bool := forallb (in_bytes 0 127) (String.list_ascii_of_string s).
Class ToUppercaseLaws `{ToUppercase} : Prop := upper_ascii s : is_ascii s = true → to_uppercase s = ascii_upper s.

(** ** The trait [SchemaApi] *)
Class SchemaTrait (W DateTime DataSchema : Type) := {
  api_create_database : CreateDatabaseReq DateTime → M W MetaError CreateDatabaseReply;
  api_drop_database : DropDatabaseReq → M W MetaError DropDatabaseReply;
  api_rename_database : RenameDatabaseReq → M W MetaError RenameDatabaseReply;
  api_get_database : GetDatabaseReq → M W MetaError (DatabaseInfo DateTime);
  api_list_databases : ListDatabaseReq → M W MetaError (list (DatabaseInfo DateTime));
  api_create_table : CreateTableReq DateTime DataSchema → M W MetaError CreateTableReply;
  api_drop_table : DropTableReq → M W MetaError DropTableReply;
  api_rename_table : RenameTableReq → M W MetaError RenameTableReply;
  api_get_table : GetTableReq → M W MetaError (TableInfo DateTime DataSchema);
  api_list_tables : ListTableReq → M W MetaError (list (TableInfo DateTime DataSchema));
  api_get_table_by_id : N → M W MetaError (TableIdent * TableMeta DateTime DataSchema);
  api_upsert_table_option : UpsertTableOptionReq → M W MetaError UpsertTableOptionReply;
}.

(** The operations of SchemaApi.v, with fuel for their loops. *)
Section implementation.
Context {W : Type} `{!KVApi W, !MetaCodec} {DateTime DataSchema PbDb PbTb : Type}.
Context `{!Message PbDb, !FromToProto PbDb (DatabaseMeta DateTime)}.
Context `{!Message PbTb, !FromToProto PbTb (TableMeta DateTime DataSchema)}.
Definition looped {A} (m : M W MetaError (option A)) : M W MetaError A := let! o := m in lift (unwrap o).
Definition schema_api (fuel : nat) : SchemaTrait W DateTime DataSchema := {|
  api_create_database req := looped (create_database (PbDb:=PbDb) fuel req);
  api_drop_database req := looped (drop_database (PbDb:=PbDb) fuel req);
  api_rename_database req := looped (rename_database fuel req);
  api_get_database := get_database (PbDb:=PbDb);
  api_list_databases := list_databases (PbDb:=PbDb);
  api_create_table req := looped (create_table (PbDb:=PbDb) (PbTb:=PbTb) fuel req);
  api_drop_table req := looped (drop_table (PbDb:=PbDb) (PbTb:=PbTb) fuel req);
  api_rename_table req := looped (rename_table (PbDb:=PbDb) fuel req);
  api_get_table := get_table (PbTb:=PbTb);
  api_list_tables := list_tables (PbTb:=PbTb);
  api_get_table_by_id := get_table_by_id (PbTb:=PbTb);
  api_upsert_table_option req := looped (upsert_table_option (PbTb:=PbTb) fuel req) |}.
End implementation.

(** ** Metas in memory: table_memory_meta.rs *)
Definition SYS_DB_ID_BEGIN : N := 2 ^ 62.
Definition SYS_TBL_ID_BEGIN : N := 2 ^ 62.
Section memory.
Context {T : Type} (name_of : T → string) (id_of_table : T → N).
Record DbTables := mkDbTables { name_to_table : gmap string T; id_to_table : gmap N T }.
Record InMemoryMetas := mkInMemoryMetas { im_next_table_id : N; im_next_db_id : N; im_db_tables : gmap string DbTables }.
Definition InMemoryMetas_create (next_db_id next_table_id : N) : InMemoryMetas :=
  mkInMemoryMetas next_table_id next_db_id ∅.
Definition init_db (self : InMemoryMetas) (db : string) : InMemoryMetas :=
  mkInMemoryMetas (im_next_table_id self) (im_next_db_id self) (<[db:=mkDbTables ∅ ∅]> (im_db_tables self)).
(** The counter is raised, then read. *)
Definition next_db_id (self : InMemoryMetas) : N * InMemoryMetas :=
  let n := u64_add (im_next_db_id self) 1 in (n, mkInMemoryMetas (im_next_table_id self) n (im_db_tables self)).
Definition next_table_id (self : InMemoryMetas) : N * InMemoryMetas :=
  let n := u64_add (im_next_table_id self) 1 in (n, mkInMemoryMetas n (im_next_db_id self) (im_db_tables self)).
Definition im_insert {E} (self : InMemoryMetas) (db : string) (tbl : T) : res E InMemoryMetas :=
  match im_db_tables self !! db with
  | Some t =>
      Ok (mkInMemoryMetas (im_next_table_id self) (im_next_db_id self)
        (<[db:=mkDbTables (<[name_of tbl:=tbl]> (name_to_table t)) (<[id_of_table tbl:=tbl]> (id_to_table t))]>
          (im_db_tables self)))
  | None => Panic
  end.
Definition get_by_name `{Capture} (self : InMemoryMetas) (db name : string) : res ErrorCode T :=
  match im_db_tables self !! db with
  | Some t => ok_or (name_to_table t !! name) (exc Exc.UnknownTable ("`" +:+ db +:+ "." +:+ name +:+ "` table is unknown"))
  | None => Err (exc Exc.UnknownDatabase ("`" +:+ db +:+ "` database is unknown"))
  end.
(** The databases are visited in the order of the map. *)
Definition get_by_id (self : InMemoryMetas) (id : N) : option T :=
  head (omap (λ p, id_to_table p.2 !! id) (map_to_list (im_db_tables self))).
Definition get_all_tables `{Capture} (self : InMemoryMetas) (db : string) : res ErrorCode (list T) :=
  match im_db_tables self !! db with
  | Some t => Ok (map_to_list (name_to_table t)).*2
  | None => Err (exc Exc.UnknownDatabase (db +:+ " database is unknown"))
  end.
End memory.
Arguments DbTables T : clear implicits.
Arguments InMemoryMetas T : clear implicits.

(** ** Databases *)
Inductive Database (DateTime : Type) :=
  | SystemDatabase (db_info : DatabaseInfo DateTime)
  | InformationSchemaDatabase (db_info : DatabaseInfo DateTime)
  | DefaultDatabase (db_info : DatabaseInfo DateTime)
  | GithubDatabase (db_info : DatabaseInfo DateTime).
Arguments SystemDatabase {DateTime} _.
Arguments InformationSchemaDatabase {DateTime} _.
Arguments DefaultDatabase {DateTime} _.
Arguments GithubDatabase {DateTime} _.
Definition get_db_info {DateTime} (self : Database DateTime) : DatabaseInfo DateTime :=
  match self with
  | SystemDatabase i | InformationSchemaDatabase i | DefaultDatabase i | GithubDatabase i => i
  end.
Definition Database_name {DateTime} (self : Database DateTime) : string :=
  match self with
  | SystemDatabase _ => "system"
  | InformationSchemaDatabase _ => "INFORMATION_SCHEMA"
  | DefaultDatabase i | GithubDatabase i => db_name (dbinfo_name_ident _ i)
  end.

(** The settings that the factories look at. *)
Record EngineConfig := mkEngineConfig { table_engine_memory_enabled : bool; database_engine_github_enabled : bool }.

(** ** The trait [Catalog] *)
Record Catalog (W DateTime DataSchema T : Type) := mkCatalog {
  c_get_database : string → string → M W ErrorCode (Database DateTime);
  c_list_databases : string → M W ErrorCode (list (Database DateTime));
  c_create_database : CreateDatabaseReq DateTime → M W ErrorCode CreateDatabaseReply;
  c_drop_database : DropDatabaseReq → M W ErrorCode unit;
  c_rename_database : RenameDatabaseReq → M W ErrorCode RenameDatabaseReply;
  c_get_table_by_info : TableInfo DateTime DataSchema → res ErrorCode T;
  c_get_table_meta_by_id : N → M W ErrorCode (TableIdent * TableMeta DateTime DataSchema);
  c_get_table : string → string → string → M W ErrorCode T;
  c_list_tables : string → string → M W ErrorCode (list T);
  c_create_table : CreateTableReq DateTime DataSchema → M W ErrorCode unit;
  c_drop_table : DropTableReq → M W ErrorCode DropTableReply;
  c_rename_table : RenameTableReq → M W ErrorCode RenameTableReply;
  c_upsert_table_option : UpsertTableOptionReq → M W ErrorCode UpsertTableOptionReply;
}.
Arguments mkCatalog {W DateTime DataSchema T} _ _ _ _ _ _ _ _ _ _ _ _ _.
Arguments c_get_database {W DateTime DataSchema T} _ _ _.
Arguments c_list_databases {W DateTime DataSchema T} _ _.
Arguments c_create_database {W DateTime DataSchema T} _ _.
Arguments c_drop_database {W DateTime DataSchema T} _ _.
Arguments c_rename_database {W DateTime DataSchema T} _ _.
Arguments c_get_table_by_info {W DateTime DataSchema T} _ _.
Arguments c_get_table_meta_by_id {W DateTime DataSchema T} _ _.
Arguments c_get_table {W DateTime DataSchema T} _ _ _ _.
Arguments c_list_tables {W DateTime DataSchema T} _ _ _.
Arguments c_create_table {W DateTime DataSchema T} _ _.
Arguments c_drop_table {W DateTime DataSchema T} _ _.
Arguments c_rename_table {W DateTime DataSchema T} _ _.
Arguments c_upsert_table_option {W DateTime DataSchema T} _ _.

Definition has_code (e : ErrorCode) (k : Exc.exception) : bool := (code e =? Exc.code_of k)%N.

Section catalogs.
Context {W DateTime DataSchema T : Type} `{!SchemaTrait W DateTime DataSchema, !Capture, !ToUppercase}.
Context (name_of : T → string) (id_of_table : T → N) (info_of : T → TableInfo DateTime DataSchema).
Abbreviation MC A := (M W ErrorCode A).
Abbreviation catalog := (Catalog W DateTime DataSchema T).

(** The default methods of the trait. *)
Definition exists_database (self : catalog) (tenant db_name : string) : MC bool :=
  let! r := tryM (F:=ErrorCode) (c_get_database self tenant db_name) in
  match r with
  | inr _ => ret true
  | inl err => if has_code err Exc.UnknownDatabase then ret false else throw err
  end.
Definition exists_table (self : catalog) (tenant db_name table_name : string) : MC bool :=
  let! r := tryM (F:=ErrorCode) (c_get_table self tenant db_name table_name) in
  match r with
  | inr _ => ret true
  | inl err => if has_code err Exc.UnknownTable then ret false else throw err
  end.

(** ** The system databases: immutable_catalog.rs *)
Record ImmutableCatalog := mkImmutableCatalog {
  info_schema_db : DatabaseInfo DateTime; sys_db : DatabaseInfo DateTime; sys_db_meta : InMemoryMetas T }.

(** The constructors of the tables get their ids in order; then the tables are inserted. *)
Fixpoint create_tables (tables : list (N → T)) (m : InMemoryMetas T) : list T * InMemoryMetas T :=
  match tables with
  | [] => ([], m)
  | t :: tables =>
      let '(id, m) := next_table_id m in
      let '(l, m) := create_tables tables m in (t id :: l, m)
  end.
Fixpoint insert_tables {E} (db : string) (l : list T) (m : InMemoryMetas T) : res E (InMemoryMetas T) :=
  match l with
  | [] => Ok m
  | t :: l => let? m := im_insert name_of id_of_table m db t in insert_tables db l m
  end.
(** [SystemDatabase::create] and [InformationSchemaDatabase::create]; [meta] is the default
    meta of a database with the engine SYSTEM. *)
Definition create_system_db {E} (db : string) (tables : list (N → T)) (meta : DatabaseMeta DateTime)
    (m : InMemoryMetas T) : res E (DatabaseInfo DateTime * InMemoryMetas T) :=
  let '(l, m) := create_tables tables m in
  let? m := insert_tables db l m in
  let '(id, m) := next_db_id m in
  Ok (mkDatabaseInfo (mkDatabaseIdent id 0) (mkDatabaseNameIdent "" db) meta, m).
Definition ImmutableCatalog_create {E} (meta : DatabaseMeta DateTime) (sys_tables info_tables : list (N → T))
    : res E ImmutableCatalog :=
  let m := InMemoryMetas_create SYS_DB_ID_BEGIN SYS_TBL_ID_BEGIN in
  let m := init_db m "system" in
  let m := init_db m "INFORMATION_SCHEMA" in
  let? '(sys, m) := create_system_db "system" sys_tables meta m in
  let? '(info, m) := create_system_db "INFORMATION_SCHEMA" info_tables meta m in
  Ok (mkImmutableCatalog info sys m).

Definition unimplemented (msg : string) : ErrorCode := exc Exc.UnImplement msg.
Definition im_get_database (self : ImmutableCatalog) (db_name : string) : MC (Database DateTime) :=
  if bool_decide (db_name = "system") then ret (SystemDatabase (sys_db self))
  else if bool_decide (db_name = "INFORMATION_SCHEMA") then ret (InformationSchemaDatabase (info_schema_db self))
  else throw (exc Exc.UnknownDatabase ("Unknown database " +:+ db_name)).
Definition unknown_table_id (table_id : N) : ErrorCode :=
  exc Exc.UnknownTable ("Unknown table id: '" +:+ pretty table_id +:+ "'").
(** The text of a request in debug form is not modelled; it is an argument. *)
Definition immutable_catalog (debug_req : UpsertTableOptionReq → string) (self : ImmutableCatalog) : catalog := {|
  c_get_database _ db_name := im_get_database self db_name;
  c_list_databases _ := ret [SystemDatabase (sys_db self); InformationSchemaDatabase (info_schema_db self)];
  c_create_database _ := throw (unimplemented "Cannot create system database");
  c_drop_database _ := throw (unimplemented "Cannot drop system database");
  c_rename_database _ := throw (unimplemented "Cannot rename system database");
  c_get_table_by_info table_info :=
    let table_id := ti_table_id (tinfo_ident _ _ table_info) in
    ok_or (get_by_id (sys_db_meta self) table_id) (unknown_table_id table_id);
  c_get_table_meta_by_id table_id :=
    let! table := lift (ok_or (get_by_id (sys_db_meta self) table_id) (unknown_table_id table_id)) in
    let ti := info_of table in
    ret (tinfo_ident _ _ ti, tinfo_meta _ _ ti);
  c_get_table _ db_name table_name :=
    let! _ := im_get_database self db_name in
    lift (get_by_name (sys_db_meta self) db_name table_name);
  c_list_tables _ db_name := lift (get_all_tables (sys_db_meta self) db_name);
  c_create_table _ := throw (unimplemented "Cannot create table in system database");
  c_drop_table _ := throw (unimplemented "Cannot drop table in system database");
  c_rename_table _ := throw (unimplemented "Cannot rename table in system database");
  c_upsert_table_option req :=
    throw (unimplemented ("Commit table not allowed for system database " +:+ debug_req req)) |}.

(** ** Factories *)
Definition StorageFactory : Type := gmap string (TableInfo DateTime DataSchema → res ErrorCode T).
(** The constructors of the engines, by name; those of NULL, FUSE and VIEW are always there. *)
Definition StorageFactory_create (conf : EngineConfig)
    (memory github null fuse view : TableInfo DateTime DataSchema → res ErrorCode T) : StorageFactory :=
  let creators := ∅ in
  let creators := if table_engine_memory_enabled conf then <["MEMORY":=memory]> creators else creators in
  let creators := if database_engine_github_enabled conf then <["GITHUB":=github]> creators else creators in
  let creators := <["NULL":=null]> creators in
  let creators := <["FUSE":=fuse]> creators in
  <["VIEW":=view]> creators.
Definition sf_get_table (self : StorageFactory) (table_info : TableInfo DateTime DataSchema) : res ErrorCode T :=
  let engine := to_uppercase (engine (tinfo_meta _ _ table_info)) in
  let? factory := ok_or (self !! engine) (exc Exc.UnknownTableEngine ("Unknown table engine " +:+ engine)) in
  factory table_info.

Definition DatabaseFactory : Type := gmap string (DatabaseInfo DateTime → res ErrorCode (Database DateTime)).
Definition DatabaseFactory_create (conf : EngineConfig) : DatabaseFactory :=
  let creators := <["DEFAULT":=λ db_info, Ok (DefaultDatabase db_info)]> ∅ in
  if database_engine_github_enabled conf then <["GITHUB":=λ db_info, Ok (GithubDatabase db_info)]> creators else creators.
Definition df_get_database (self : DatabaseFactory) (db_info : DatabaseInfo DateTime) : res ErrorCode (Database DateTime) :=
  let db_engine := db_engine (dbinfo_meta _ db_info) in
  let engine := if bool_decide (db_engine = "") then "DEFAULT" else to_uppercase db_engine in
  let? factory := ok_or (self !! engine) (exc Exc.UnknownDatabaseEngine ("Unknown database engine " +:+ engine)) in
  factory db_info.

(** ** The databases of the meta service: mutable_catalog.rs *)
Definition metaM {A} (m : M W MetaError A) : MC A := mapErrM ErrorCode_from_meta m.
(** [init_github] fills a database of the engine GITHUB over the network. *)
Record MutableCatalog := mkMutableCatalog {
  storage_factory : StorageFactory; database_factory : DatabaseFactory;
  init_github : DatabaseInfo DateTime → string → MC unit }.
Definition build_db_instance (self : MutableCatalog) (db_info : DatabaseInfo DateTime) : res ErrorCode (Database DateTime) :=
  df_get_database (database_factory self) db_info.
Definition init_database (self : MutableCatalog) (db : Database DateTime) (tenant : string) : MC unit :=
  match db with GithubDatabase i => init_github self i tenant | _ => ret tt end.
Definition mc_create_database (self : MutableCatalog) (req : CreateDatabaseReq DateTime) : MC CreateDatabaseReply :=
  let! res := metaM (api_create_database req) in
  let db_info := mkDatabaseInfo (mkDatabaseIdent (cdr_db_id res) 0) (cd_name_ident req) (cd_meta req) in
  let! database := lift (build_db_instance self db_info) in
  let! _ := init_database self database (tenant (cd_name_ident req)) in
  ret (mkCreateDatabaseReply (cdr_db_id res)).
Definition mutable_catalog (self : MutableCatalog) : catalog := {|
  c_get_database tenant db_name :=
    let! db_info := metaM (api_get_database (mkGetDatabaseReq (mkDatabaseNameIdent tenant db_name))) in
    lift (build_db_instance self db_info);
  c_list_databases tenant :=
    let! dbs := metaM (api_list_databases (mkListDatabaseReq tenant)) in
    lift (res_mapM (build_db_instance self) dbs);
  c_create_database := mc_create_database self;
  c_drop_database req := let! _ := metaM (api_drop_database req) in ret tt;
  c_rename_database req := metaM (api_rename_database req);
  c_get_table_by_info table_info := sf_get_table (storage_factory self) table_info;
  c_get_table_meta_by_id table_id := metaM (api_get_table_by_id table_id);
  c_get_table tenant db_name table_name :=
    let! table_info := metaM (api_get_table (mkGetTableReq (mkTableNameIdent tenant db_name table_name))) in
    lift (sf_get_table (storage_factory self) table_info);
  c_list_tables tenant db_name :=
    let! table_infos := metaM (api_list_tables (mkListTableReq (mkDatabaseNameIdent tenant db_name))) in
    lift (res_mapM (sf_get_table (storage_factory self)) table_infos);
  c_create_table req := let! _ := metaM (api_create_table req) in ret tt;
  c_drop_table req := metaM (api_drop_table req);
  c_rename_table req := metaM (api_rename_table req);
  c_upsert_table_option req := metaM (api_upsert_table_option req) |}.
(** [MutableCatalog::try_create_with_config]: the database "default" is created if missing. *)
Definition MutableCatalog_try_create (conf : EngineConfig) (tenant : string) (default_meta : DatabaseMeta DateTime)
    (storages : StorageFactory) (github : DatabaseInfo DateTime → string → MC unit) : MC MutableCatalog :=
  let! _ := metaM (api_create_database (mkCreateDatabaseReq true (mkDatabaseNameIdent tenant "default") default_meta)) in
  ret (mkMutableCatalog storages (DatabaseFactory_create conf) github).

(** ** The two layers: database_catalog.rs *)
Definition is_case_insensitive_db (db : string) : bool := bool_decide (to_uppercase db = "INFORMATION_SCHEMA").
Definition db_name_of (db_name : string) : string :=
  if is_case_insensitive_db db_name then to_uppercase db_name else db_name.
Definition tenant_is_empty (what : string) : ErrorCode :=
  exc Exc.TenantIsEmpty ("Tenant can not empty(while " +:+ what +:+ ")").
Definition with_tenant {A} (tenant what : string) (m : MC A) : MC A :=
  if bool_decide (tenant = "") then throw (tenant_is_empty what) else m.
(** Ask the upper layer, and the lower one when the error says that it is not there. *)
Definition layered {A} (k : Exc.exception) (upper lower : MC A) : MC A :=
  let! r := tryM (F:=ErrorCode) upper in
  match r with
  | inr x => ret x
  | inl e => if has_code e k then lower else throw e
  end.
Definition database_catalog (upper lower : catalog) : catalog := {|
  c_get_database tenant db_name := with_tenant tenant "get database" (
    let db_name := db_name_of db_name in
    layered Exc.UnknownDatabase (c_get_database upper tenant db_name) (c_get_database lower tenant db_name));
  c_list_databases tenant := with_tenant tenant "list databases" (
    let! dbs := c_list_databases upper tenant in
    let! other := c_list_databases lower tenant in
    ret (dbs ++ other));
  c_create_database req := with_tenant (tenant (cd_name_ident req)) "create database" (
    let! found := exists_database upper (tenant (cd_name_ident req)) (db_name (cd_name_ident req)) in
    if (found : bool) then
      throw (exc Exc.DatabaseAlreadyExists (db_name (cd_name_ident req) +:+ " database exists"))
    else c_create_database lower req);
  c_drop_database req := with_tenant (tenant (dd_name_ident req)) "drop database" (
    let! found := exists_database upper (tenant (dd_name_ident req)) (db_name (dd_name_ident req)) in
    if (found : bool) then c_drop_database upper req else c_drop_database lower req);
  c_rename_database req := with_tenant (tenant (rd_name_ident req)) "rename database" (
    let! found := exists_database upper (tenant (rd_name_ident req)) (db_name (rd_name_ident req)) in
    let! found := if (found : bool) then ret true
                  else exists_database upper (tenant (rd_name_ident req)) (rd_new_db_name req) in
    if (found : bool) then c_rename_database upper req else c_rename_database lower req);
  c_get_table_by_info table_info :=
    match c_get_table_by_info upper table_info with
    | Err e => if has_code e Exc.UnknownTable then c_get_table_by_info lower table_info else Err e
    | r => r
    end;
  c_get_table_meta_by_id table_id :=
    let! r := tryM (F:=ErrorCode) (c_get_table_meta_by_id upper table_id) in
    match r with inr x => ret x | inl _ => c_get_table_meta_by_id lower table_id end;
  c_get_table tenant db_name table_name := with_tenant tenant "get table" (
    let '(db_name, table_name) :=
      if is_case_insensitive_db db_name then (to_uppercase db_name, to_uppercase table_name) else (db_name, table_name) in
    layered Exc.UnknownDatabase (c_get_table upper tenant db_name table_name) (c_get_table lower tenant db_name table_name));
  c_list_tables tenant db_name := with_tenant tenant "list tables" (
    let db_name := db_name_of db_name in
    layered Exc.UnknownDatabase (c_list_tables upper tenant db_name) (c_list_tables lower tenant db_name));
  c_create_table req :=
    let t := ct_name_ident req in
    with_tenant (tn_tenant t) "create table" (
    let! found := exists_database upper (tn_tenant t) (tn_db_name t) in
    if (found : bool) then c_create_table upper req else c_create_table lower req);
  c_drop_table req :=
    let t := dt_name_ident req in
    with_tenant (tn_tenant t) "drop table" (
    let! found := exists_database upper (tn_tenant t) (tn_db_name t) in
    if (found : bool) then c_drop_table upper req else c_drop_table lower req);
  c_rename_table req :=
    let t := rt_name_ident req in
    with_tenant (tn_tenant t) "rename table" (
    let! found := exists_database upper (tn_tenant t) (tn_db_name t) in
    let! found := if (found : bool) then ret true else exists_database upper (tn_tenant t) (rt_new_db_name req) in
    if (found : bool) then throw (unimplemented "Cannot rename table from(to) system databases")
    else c_rename_table lower req);
  c_upsert_table_option req := c_upsert_table_option lower req |}.

(** ** catalog_manager.rs *)
Definition CATALOG_DEFAULT : string := "default".
Definition get_catalog (catalogs : gmap string catalog) (catalog_name : string) : res ErrorCode catalog :=
  ok_or (catalogs !! catalog_name) (exc Exc.BadArguments ("not such catalog " +:+ catalog_name)).
End catalogs.
Arguments ImmutableCatalog DateTime T : clear implicits.
Arguments MutableCatalog W DateTime DataSchema T : clear implicits.
