(* ===== verification/FuseTable.v ===== *)
(** * Fuse tables: snapshots, commits, truncation and purging
    (src/query/src/storages/fuse/fuse_table.rs, operations/commit.rs, truncate.rs,
    optimize.rs).

    A table points to its current snapshot by an option of its record in the meta service.
    A commit writes a new snapshot and then moves the pointer, on condition that the record
    has not changed since the table was looked up. *)
From S2P Require Import Prelude MetaTypes SchemaApi Exception Management Lru DataValue FuseMeta FuseStats FuseIo Catalog.

Definition OPT_KEY_DATABASE_ID : string := "database_id".
Definition OPT_KEY_SNAPSHOT_LOCATION : string := "snapshot_location".
Definition OPT_KEY_LEGACY_SNAPSHOT_LOC : string := "snapshot_loc".

(** The parser of order keys. *)
Class PlanParser (Expr : Type) := parse_exprs : string → res ErrorCode (list Expr).
(** The crate backoff: the delay before the n-th retry, in milliseconds, or none when the
    time is up; and the time passed by then. *)
Class Backoff := { next_backoff : nat → option N; elapsed_ms : nat → N }.

Section table.
Context {DateTime DataSchema Expr : Type}.
Abbreviation Info := (TableInfo DateTime DataSchema).

Record FuseTable := mkFuseTable { table_info : Info; location_prefix : string; ft_order_keys : list Expr }.
(** A table of any engine; those that are not modelled are told by their engine. *)
Inductive Table := TFuse (t : FuseTable) | TOther (engine : string) (info : Info).
Definition get_table_info (t : Table) : Info := match t with TFuse t => table_info t | TOther _ i => i end.
Definition table_name_of (t : Table) : string := tinfo_name _ _ (get_table_info t).
Definition table_id_of (t : Table) : N := ti_table_id (tinfo_ident _ _ (get_table_info t)).
Definition info_options (i : Info) : gmap string string := options (tinfo_meta _ _ i).

Section create.
Context `{!Capture, !PlanParser Expr}.
Definition parse_storage_prefix (i : Info) : res ErrorCode string :=
  let table_id := ti_table_id (tinfo_ident _ _ i) in
  let? db_id := ok_or (info_options i !! OPT_KEY_DATABASE_ID)
    (exc Exc.LogicalError ("Invalid fuse table, table option " +:+ OPT_KEY_DATABASE_ID +:+ " not found")) in
  Ok (db_id +:+ "/" +:+ pretty table_id).
Definition FuseTable_try_create (i : Info) : res ErrorCode FuseTable :=
  let? storage_prefix := parse_storage_prefix i in
  let? keys := match order_keys (tinfo_meta _ _ i) with Some order => parse_exprs order | None => Ok [] end in
  Ok (mkFuseTable i storage_prefix keys).
Definition try_from_table (tbl : Table) : res ErrorCode FuseTable :=
  match tbl with
  | TFuse t => Ok t
  | TOther engine _ => Err (exc Exc.LogicalError ("expects table of engine FUSE, but got " +:+ engine))
  end.
End create.

Definition snapshot_loc (self : FuseTable) : option string :=
  let options := info_options (table_info self) in
  match options !! OPT_KEY_SNAPSHOT_LOCATION with
  | Some loc => Some loc
  | None => options !! OPT_KEY_LEGACY_SNAPSHOT_LOC
  end.
Definition snapshot_format_version (self : FuseTable) : N :=
  match snapshot_loc self with Some loc => snaphost_version loc | None => TableSnapshot_VERSION end.
End table.
Arguments FuseTable DateTime DataSchema Expr : clear implicits.
Arguments Table DateTime DataSchema Expr : clear implicits.

(** The query that runs, the node it runs on. *)
Record QueryContext := mkQueryContext { qc_id : N; qc_node : N }.

Section operations.
Context {VV DateTime DataSchema Expr W Obj TS TG : Type}.
Context `{!VariantOrd VV, !Operator Obj, !Capture, !Uuids, !PlanParser Expr, !Backoff}.
Context `{!LinkedHashMap TS string (TableSnapshot VV DataSchema), !LinkedHashMap TG string (SegmentInfo VV)}.
Context `{!Json (TableSnapshot VV DataSchema), !Json (TableSnapshotV0 VV DataSchema)}.
Context `{!Json (SegmentInfo VV), !Json (SegmentInfoV0 VV)}.
#[local] Existing Instance count_meter.
Abbreviation world := (fuse_world VV DataSchema W Obj TS TG).
Abbreviation MF A := (M world ErrorCode A).
Abbreviation Snapshot := (TableSnapshot VV DataSchema).
Abbreviation Log := (list (AppendOperationLogEntry VV)).
Abbreviation Tbl := (FuseTable DateTime DataSchema Expr).
Context (catalogs : gmap string (Catalog W DateTime DataSchema (Table DateTime DataSchema Expr))).
Implicit Types (ctx : QueryContext) (self : Tbl).

Definition catM {A} (m : M W ErrorCode A) : MF A := λ w,
  let '(r, m) := m (fw_meta w) in
  (r, mkFuse m (fw_objs w) (fw_snapshots w) (fw_segments w) (fw_uuids w) (fw_progress w)).
(** [Progress::incr] on the progress of the query. *)
Definition incr_progress ctx (rows bytes : N) : MF unit := stateM (λ w,
  let '(r, b) := default (0%N, 0%N) (fw_progress w !! qc_id ctx) in
  (tt, mkFuse (fw_meta w) (fw_objs w) (fw_snapshots w) (fw_segments w) (fw_uuids w)
         (<[qc_id ctx:=(u64_add r rows, u64_add b bytes)]> (fw_progress w)))).
(** [let _ = ...]: errors are dropped. *)
Definition ignore {A} (m : MF A) : MF unit := let! _ := tryM (F:=ErrorCode) m in ret tt.

Definition read_table_snapshot ctx self : MF (option Snapshot) :=
  match snapshot_loc self with
  | Some loc =>
      let ver := snapshot_format_version self in
      let! s := read_snapshot (qc_node ctx) loc ver in ret (Some s)
  | None => ret None
  end.

(** ** Committing: commit.rs *)
Definition merge_table_operations (schema : DataSchema) (previous : option Snapshot) (prev_version : N)
    (new_segments : list Location) (statistics : Statistics VV) : MF Snapshot :=
  let! stats := match previous with
                | Some snapshot => lift (merge_statistics statistics (ts_summary snapshot))
                | None => ret statistics
                end in
  let prev_snapshot_id := (λ v, (ts_snapshot_id v, prev_version)) <$> previous in
  let new_segments := match previous with Some snapshot => new_segments ++ ts_segments snapshot | None => new_segments end in
  let! id := fresh_uuid in
  ret (TableSnapshot_new id prev_snapshot_id schema stats new_segments).
(** The part of [try_commit] before the meta service is asked: the new snapshot is written. *)
Definition prepare_commit ctx self (operation_log : Log) (overwrite : bool) : MF (string * Snapshot) :=
  let! prev := read_table_snapshot ctx self in
  let prev_version := snapshot_format_version self in
  let schema := schema (tinfo_meta _ _ (table_info self)) in
  let! '(segments, summary) := lift (merge_append_operations operation_log) in
  let! _ := incr_progress ctx (row_count summary) (uncompressed_byte_size summary) in
  let segments := (λ loc, (loc, SegmentInfo_VERSION)) <$> segments in
  let! new_snapshot :=
    if overwrite then
      let! id := fresh_uuid in
      ret (TableSnapshot_new id ((λ v, (ts_snapshot_id v, prev_version)) <$> prev) schema summary segments)
    else merge_table_operations schema prev prev_version segments summary in
  let uuid := ts_snapshot_id new_snapshot in
  let! snapshot_loc := lift (snapshot_location_from_uuid (location_prefix self) uuid TableSnapshot_VERSION) in
  let! bytes := lift (jsonR (to_json new_snapshot)) in
  let! _ := objM (dal_write snapshot_loc bytes) in
  ret (snapshot_loc, new_snapshot).

Definition gather_legacy_options (i : TableInfo DateTime DataSchema) (opts : gmap string (option string))
    : gmap string (option string) :=
  if bool_decide (is_Some (info_options i !! OPT_KEY_LEGACY_SNAPSHOT_LOC)) then
    <[OPT_KEY_LEGACY_SNAPSHOT_LOC:=None]> opts
  else opts.
Definition commit_req (i : TableInfo DateTime DataSchema) (new_snapshot_location : string) : UpsertTableOptionReq :=
  let options := gather_legacy_options i {[OPT_KEY_SNAPSHOT_LOCATION := Some new_snapshot_location]} in
  mkUpsertTableOptionReq (ti_table_id (tinfo_ident _ _ i)) (Exact (ti_seq (tinfo_ident _ _ i))) options.
Definition commit_to_meta_server (catalog_name : string) (i : TableInfo DateTime DataSchema)
    (new_snapshot_location : string) : MF UpsertTableOptionReply :=
  let! catalog := lift (get_catalog catalogs catalog_name) in
  catM (c_upsert_table_option catalog (commit_req i new_snapshot_location)).

(** What [try_commit] does with the answer. *)
Definition finish_commit ctx (snapshot_loc : string) (new_snapshot : Snapshot)
    (result : ErrorCode + UpsertTableOptionReply) : MF unit :=
  match result with
  | inr _ =>
      let! cache := get_snapshot_cache (qc_node ctx) in
      match cache with
      | Some cache =>
          let! '(_, cache) := lift (unwrap (lru_put cache snapshot_loc new_snapshot)) in
          set_snapshot_cache (qc_node ctx) cache
      | None => ret tt
      end
  | inl e => let! _ := ignore (objM (dal_delete snapshot_loc)) in throw e
  end.
Definition try_commit ctx (catalog_name : string) self (operation_log : Log) (overwrite : bool) : MF unit :=
  let! '(snapshot_loc, new_snapshot) := prepare_commit ctx self operation_log overwrite in
  let! result := tryM (F:=ErrorCode) (commit_to_meta_server catalog_name (table_info self) snapshot_loc) in
  finish_commit ctx snapshot_loc new_snapshot result.

Fixpoint delete_all (locs : list string) : MF unit :=
  match locs with
  | [] => ret tt
  | l :: locs => let! _ := ignore (objM (dal_delete l)) in delete_all locs
  end.
(** The blocks of a segment, then the segment. *)
Definition abort_locs (operation_log : Log) : list string :=
  mjoin ((λ entry, ((λ b, (bm_location b).1) <$> si_blocks (segment_info entry)) ++ [segment_location entry]) <$> operation_log).
Definition abort_operations (operation_log : Log) : MF unit := delete_all (abort_locs operation_log).
Definition is_error_recoverable (e : ErrorCode) : bool := has_code e Exc.TableVersionMismatched.

Definition TableIdent_to_string (i : TableIdent) : string :=
  "table_id:" +:+ pretty (ti_table_id i) +:+ ", ver:" +:+ pretty (ti_seq i).
(** Looking the table up again before a retry. *)
Definition refresh_table (catalog_name : string) (tid : N) (name : string) : MF Tbl :=
  let! catalog := lift (get_catalog catalogs catalog_name) in
  let! '(ident, meta) := catM (c_get_table_meta_by_id catalog tid) in
  let! latest := lift (c_get_table_by_info catalog (mkTableInfo ident "" name meta)) in
  lift (try_from_table latest).
(** [None] when the fuel is used up. *)
Fixpoint commit_loop (fuel : nat) ctx (catalog_name : string) (tid : N) (tbl : Tbl) (operation_log : Log)
    (overwrite : bool) (retry_times : nat) : MF (option unit) :=
  match fuel with
  | O => ret None
  | S fuel =>
      let! r := tryM (F:=ErrorCode) (try_commit ctx catalog_name tbl operation_log overwrite) in
      match r with
      | inr _ => ret (Some tt)
      | inl e =>
          if is_error_recoverable e then
            let name := tinfo_name _ _ (table_info tbl) in
            match next_backoff retry_times with
            | Some _ =>
                let! tbl := refresh_table catalog_name tid name in
                commit_loop fuel ctx catalog_name tid tbl operation_log overwrite (S retry_times)
            | None =>
                let! _ := ignore (abort_operations operation_log) in
                throw (exc Exc.OCCRetryFailure
                  ("can not fulfill the tx after retries(" +:+ pretty (N.of_nat retry_times) +:+ " times, " +:+
                   pretty (elapsed_ms retry_times) +:+ " ms), aborted. table name " +:+ name +:+ ", identity " +:+
                   TableIdent_to_string (tinfo_ident _ _ (table_info tbl))))
            end
          else throw e
      end
  end.
Definition do_commit (fuel : nat) ctx (catalog_name : string) self (operation_log : Log) (overwrite : bool) : MF (option unit) :=
  commit_loop fuel ctx catalog_name (ti_table_id (tinfo_ident _ _ (table_info self))) self operation_log overwrite 0.

(** ** Purging: optimize.rs *)

(** The blocks of the segments; a [HashSet] is a set here, visited in some fixed order. *)
Fixpoint blocks_of (node : N) (locations : list Location) (result : gset string) : MF (gset string) :=
  match locations with
  | [] => ret result
  | (x, ver) :: locations =>
      let! res := read_segment node x ver in
      blocks_of node locations (result ∪ list_to_set ((λ b, (bm_location b).1) <$> si_blocks res))
  end.
Definition remove_location (location : string) : MF unit := objM (dal_delete location).
Fixpoint remove_blocks (l : list string) : MF unit :=
  match l with [] => ret tt | x :: l => let! _ := remove_location x in remove_blocks l end.
Definition pop_segment (node : N) (x : string) : MF unit :=
  let! c := get_segment_cache node in
  match c with Some cache => set_segment_cache node (lru_pop cache x).2 | None => ret tt end.
Definition pop_snapshot (node : N) (x : string) : MF unit :=
  let! c := get_snapshot_cache node in
  match c with Some cache => set_snapshot_cache node (lru_pop cache x).2 | None => ret tt end.
Fixpoint remove_segments (node : N) (l : list Location) : MF unit :=
  match l with
  | [] => ret tt
  | (x, _) :: l =>
      let! _ := remove_location x in
      let! _ := pop_segment node x in
      remove_segments node l
  end.
Fixpoint remove_snapshots (node : N) (prefix : string) (l : list Snapshot) : MF unit :=
  match l with
  | [] => ret tt
  | s :: l =>
      let! loc := lift (snapshot_location_from_uuid prefix (ts_snapshot_id s) (ts_format_version s)) in
      let! _ := remove_location loc in
      let! _ := pop_snapshot node loc in
      remove_snapshots node prefix l
  end.
(** The segments of the kept snapshot, and what is left of the history. *)
Definition gc_root (keep_last_snapshot : bool) (snapshots : list Snapshot) : gset Location * list Snapshot :=
  if keep_last_snapshot then
    match snapshots with
    | [] => (∅, [])
    | current_snapshot :: snapshots => (list_to_set (ts_segments current_snapshot), snapshots)
    end
  else (∅, snapshots).
Definition purge ctx self (current_segments : gset Location) (snapshots : list Snapshot) : MF unit :=
  let node := qc_node ctx in
  let prevs : gset Location := list_to_set (mjoin (ts_segments <$> snapshots)) in
  let seg_delta := elements (prevs ∖ current_segments) in
  let! prev_blocks := blocks_of node seg_delta ∅ in
  let! current_blocks := blocks_of node (elements current_segments) ∅ in
  let block_delta := elements (prev_blocks ∖ current_blocks) in
  let! _ := remove_blocks block_delta in
  let! _ := remove_segments node seg_delta in
  remove_snapshots node (location_prefix self) (reverse snapshots).
Definition do_optimize (fuel : nat) ctx self (keep_last_snapshot : bool) : MF (option unit) :=
  let snapshot_loc := info_options (table_info self) !! OPT_KEY_SNAPSHOT_LOCATION in
  let format_version := snapshot_format_version self in
  let! history := read_snapshot_history fuel (qc_node ctx) snapshot_loc format_version (location_prefix self) in
  match history with
  | None => ret None
  | Some snapshots =>
      let min_history_len := if keep_last_snapshot then 1 else 0 in
      if length snapshots <=? min_history_len then ret (Some tt)
      else
        let '(current_segments, snapshots) := gc_root keep_last_snapshot snapshots in
        let! _ := purge ctx self current_segments snapshots in
        ret (Some tt)
  end.

(** ** Truncating: truncate.rs *)
Record TruncateTablePlan := mkTruncateTablePlan {
  tt_catalog : string; tt_db : string; tt_table : string; tt_purge : bool }.
Definition do_truncate (fuel : nat) ctx self (plan : TruncateTablePlan) : MF (option unit) :=
  let! prev := read_table_snapshot ctx self in
  match prev with
  | None => ret (Some tt)
  | Some prev_snapshot =>
      let! id := fresh_uuid in
      let new_snapshot := TableSnapshot_new id (Some (ts_snapshot_id prev_snapshot, ts_format_version prev_snapshot))
        (ts_schema prev_snapshot) Statistics_default [] in
      let! new_snapshot_loc :=
        lift (snapshot_location_from_uuid (location_prefix self) (ts_snapshot_id new_snapshot) TableSnapshot_VERSION) in
      let! bytes := lift (jsonR (to_json new_snapshot)) in
      let! _ := objM (dal_write new_snapshot_loc bytes) in
      let! purged := if tt_purge plan then do_optimize fuel ctx self false else ret (Some tt) in
      match purged with
      | None => ret None
      | Some _ =>
          let! catalog := lift (get_catalog catalogs (tt_catalog plan)) in
          let! _ := catM (c_upsert_table_option catalog
            (UpsertTableOptionReq_new (tinfo_ident _ _ (table_info self)) OPT_KEY_SNAPSHOT_LOCATION new_snapshot_loc)) in
          ret (Some tt)
      end
  end.

(** The statistics of a table. *)
Record TableStatistics := mkTableStatistics {
  num_rows : option N; data_size : option N; data_size_compressed : option N; index_length : option N }.
Definition table_statistics ctx self : MF (option TableStatistics) :=
  let! snapshot := read_table_snapshot ctx self in
  ret ((λ s, mkTableStatistics (Some (row_count (ts_summary s))) (Some (uncompressed_byte_size (ts_summary s)))
               (Some (compressed_byte_size (ts_summary s))) None) <$> snapshot).
End operations.
