(* ===== verification/FuseCommit.v ===== *)
(** * Concurrent commits to a fuse table.

    [do_commit] of FuseTable.v is cut at the points where other queries may run in between:
    reading the table and writing the new snapshot, moving the pointer in the meta service,
    the work after the answer, and looking the table up again.  Several writers take these
    steps in any order, on any nodes, with storage that may fail and a meta service whose
    answer may be lost. *)
From S2P Require Import Prelude MetaTypes KvApi KeyCodec SchemaApi SchemaSpec SchemaOps Exception Management.
From S2P Require Import Lru DataValue FuseMeta FuseStats FuseIo Catalog FuseTable.

(** ** A writer *)
Section machine.
Context {VV DateTime DataSchema Expr W Obj TS TG : Type}.
Context `{!VariantOrd VV, !Operator Obj, !Capture, !Uuids, !PlanParser Expr, !Backoff}.
Context `{!LinkedHashMap TS string (TableSnapshot VV DataSchema), !LinkedHashMap TG string (SegmentInfo VV)}.
Context `{!Json (TableSnapshot VV DataSchema), !Json (TableSnapshotV0 VV DataSchema)}.
Context `{!Json (SegmentInfo VV), !Json (SegmentInfoV0 VV)}.
#[local] Existing Instance count_meter.
Abbreviation world := (fuse_world VV DataSchema W Obj TS TG).
Abbreviation MF A := (M world ErrorCode A).
Abbreviation Snapshot := (TableSnapshot VV DataSchema).
Abbreviation Log := (list (AppendOperationLogEntry VV)).
Abbreviation Tbl := (FuseTable DateTime DataSchema Expr).
Context (catalogs : gmap string (Catalog W DateTime DataSchema (Table DateTime DataSchema Expr))).
Context (catalog_name : string) (tid : N).

(** Where a writer is, the number of its retries included. *)
Inductive phase :=
  | Ready (t : Tbl) (n : nat)
  | Written (t : Tbl) (n : nat) (loc : string) (s : Snapshot)
  | Answered (t : Tbl) (n : nat) (loc : string) (s : Snapshot) (result : ErrorCode + UpsertTableOptionReply)
  | Retry (t : Tbl) (n : nat)
  | Aborting (t : Tbl) (n : nat)
  | Done
  | Failed (e : ErrorCode).
Record writer := mkWriter { wr_ctx : QueryContext; wr_log : Log; wr_phase : phase }.

Definition after_error (t : Tbl) (n : nat) (e : ErrorCode) : phase :=
  if is_error_recoverable e then
    match next_backoff n with Some _ => Retry t n | None => Aborting t n end
  else Failed e.
Definition retry_failure (t : Tbl) (n : nat) : ErrorCode :=
  exc Exc.OCCRetryFailure
    ("can not fulfill the tx after retries(" +:+ pretty (N.of_nat n) +:+ " times, " +:+
     pretty (elapsed_ms n) +:+ " ms), aborted. table name " +:+ tinfo_name _ _ (table_info t) +:+ ", identity " +:+
     TableIdent_to_string (tinfo_ident _ _ (table_info t))).
Definition writer_step (ctx : QueryContext) (log : Log) (p : phase) : MF phase :=
  match p with
  | Ready t n =>
      let! r := tryM (F:=ErrorCode) (prepare_commit ctx t log false) in
      ret (match r with inl e => after_error t n e | inr (loc, s) => Written t n loc s end)
  | Written t n loc s =>
      let! result := tryM (F:=ErrorCode) (commit_to_meta_server catalogs catalog_name (table_info t) loc) in
      ret (Answered t n loc s result)
  | Answered t n loc s result =>
      let! r := tryM (F:=ErrorCode) (finish_commit ctx loc s result) in
      ret (match r with inl e => after_error t n e | inr _ => Done end)
  | Retry t n =>
      let! r := tryM (F:=ErrorCode) (refresh_table catalogs catalog_name tid (tinfo_name _ _ (table_info t))) in
      ret (match r with inl e => Failed e | inr t => Ready t (S n) end)
  | Aborting t n =>
      let! _ := ignore (abort_operations log) in ret (Failed (retry_failure t n))
  | Done => ret Done
  | Failed e => ret (Failed e)
  end.

(** Running one writer alone is [do_commit]. *)
Fixpoint run_writer (k : nat) (ctx : QueryContext) (log : Log) (p : phase) : MF phase :=
  match k with
  | O => ret p
  | S k => let! p := writer_step ctx log p in run_writer k ctx log p
  end.
Definition outcome (p : phase) : res ErrorCode (option unit) :=
  match p with Done => Ok (Some tt) | Failed e => Err e | _ => Ok None end.

Lemma run_writer_final k ctx log p w :
  match p with Done | Failed _ => True | _ => False end → run_writer k ctx log p w = (Ok p, w).
Proof. intros Hp. induction k as [|k IH]; [done|]. simpl. destruct p; try done; apply IH. Qed.

Lemma run_writer_step k ctx log p q w w1 :
  writer_step ctx log p w = (Ok q, w1) → run_writer (S k) ctx log p w = run_writer k ctx log q w1.
Proof. intros Hstep. simpl. by rewrite (bind_ok _ _ _ _ _ Hstep). Qed.

(** The three steps of an attempt. *)
Lemma run_attempt k ctx log t n w r w1 :
  try_commit catalogs ctx catalog_name t log false w = (r, w1) → r ≠ Panic →
  ∃ j, k ≤ j ≤ S (S k) ∧
    run_writer (S (S (S k))) ctx log (Ready t n) w =
      run_writer j ctx log (match r with Ok _ => Done | Err e => after_error t n e | Panic => Done end) w1.
Proof.
  unfold try_commit. intros Hr Hp.
  unfold bind at 1 in Hr. destruct (prepare_commit ctx t log false w) as [[[loc s]|e|] w'] eqn:Hprep; simplify_eq.
  2: { exists (S (S k)). split; [lia|]. apply run_writer_step. simpl. unfold bind, tryM. by rewrite Hprep. }
  rewrite (run_writer_step _ _ _ _ (Written t n loc s) _ w') by (simpl; unfold bind, tryM; by rewrite Hprep).
  unfold bind at 1 in Hr. destruct (tryM _ w') as [[result|e|] w''] eqn:Hmeta; simplify_eq.
  2: { unfold tryM in Hmeta. by destruct (commit_to_meta_server _ _ _ _ w') as [[]]. }
  rewrite (run_writer_step _ _ _ _ (Answered t n loc s result) _ w'') by (simpl; by rewrite (bind_ok _ _ _ _ _ Hmeta)).
  exists k. split; [lia|]. apply run_writer_step. simpl. unfold bind, tryM. rewrite Hr. by destruct r.
Qed.

Lemma run_writer_more k j ctx log p q w w1 :
  run_writer k ctx log p w = (Ok q, w1) → match q with Done | Failed _ => True | _ => False end → k ≤ j →
  run_writer j ctx log p w = (Ok q, w1).
Proof.
  revert j p w. induction k as [|k IH]; intros j p w Hrun Hq Hj.
  - simpl in Hrun. injection Hrun as -> ->. by apply run_writer_final.
  - destruct j as [|j]; [lia|]. simpl in Hrun |- *. unfold bind in Hrun |- *.
    destruct (writer_step ctx log p w) as [[p'|e|] w']; [|done..]. apply IH; [done..|lia].
Qed.
Lemma commit_machine fuel ctx log t n w r w1 :
  commit_loop catalogs fuel ctx catalog_name tid t log false n w = (r, w1) → r ≠ Panic → r ≠ Ok None →
  ∃ p, run_writer (5 * fuel) ctx log (Ready t n) w = (Ok p, w1) ∧ outcome p = r.
Proof.
  revert t n w. induction fuel as [|fuel IH]; intros t n w Hrun Hp Hn.
  { simpl in Hrun. unfold ret in Hrun. congruence. }
  simpl commit_loop in Hrun. unfold bind at 1, tryM in Hrun.
  destruct (try_commit catalogs ctx catalog_name t log false w) as [r0 w'] eqn:Htry.
  destruct r0 as [[]|e|]; [..|congruence];
    destruct (run_attempt (S (S (5 * fuel))) ctx log t n w _ w' Htry) as (j & Hj & Hw); [done| |done|];
    replace (S (S (S (S (S (5 * fuel)))))) with (5 * S fuel) in Hw by lia; rewrite Hw.
  { injection Hrun as <- <-. exists Done. split; [by apply run_writer_final|done]. }
  destruct j as [|j]; [lia|]. unfold after_error. destruct (is_error_recoverable e).
  2: { injection Hrun as <- <-. exists (Failed e). split; [by apply run_writer_final|done]. }
  destruct (next_backoff n) as [d|].
  - unfold bind at 1 in Hrun. destruct (refresh_table _ _ _ _ w') as [[t'|e'|] w''] eqn:Href; [..|congruence].
    + rewrite (run_writer_step _ _ _ _ (Ready t' (S n)) _ w'') by (simpl; unfold bind, tryM; by rewrite Href).
      destruct (IH _ _ _ Hrun Hp Hn) as (p & Hrunp & Hout). exists p. split; [|done].
      eapply run_writer_more; [done| |lia]. by destruct p; simplify_eq/=.
    + injection Hrun as <- <-. exists (Failed e'). split; [|done].
      rewrite (run_writer_step _ _ _ _ (Failed e') _ w'') by (simpl; unfold bind, tryM; by rewrite Href).
      by apply run_writer_final.
  - unfold bind at 1 in Hrun. destruct (ignore _ w') as [[[]|e'|] w''] eqn:Hab; [|..].
    + injection Hrun as <- <-. eexists (Failed _). split; [|done].
      rewrite (run_writer_step _ _ _ _ (Failed (retry_failure t n)) _ w'') by (simpl; by rewrite (bind_ok _ _ _ _ _ Hab)).
      by apply run_writer_final.
    + unfold ignore, bind, tryM in Hab. by destruct (abort_operations log w') as [[]].
    + congruence.
Qed.

Lemma commit_loop_ends k fuel ctx id t log overwrite n (w : world) :
  next_backoff k = None → n ≤ k → k < n + fuel →
  (commit_loop catalogs fuel ctx catalog_name id t log overwrite n w).1 ≠ Ok None.
Proof.
  intros Hk. revert n t w. induction fuel as [|fuel IH]; intros n t w Hn Hfuel; [lia|]. simpl.
  unfold bind at 1, tryM. destruct (try_commit _ _ _ _ _ _ w) as [[[]|e|] w1]; [done| |done].
  destruct (is_error_recoverable e); [|done]. destruct (next_backoff n) as [d|] eqn:Hb.
  - unfold bind. destruct (refresh_table _ _ _ _ w1) as [[t'|e'|] w2]; [|done..]. apply IH; [|lia].
    destruct (decide (n = k)) as [->|]; [congruence|lia].
  - unfold bind. by destruct (ignore _ w1) as [[[]|e'|] w2].
Qed.
(** C36: A commit comes to an end: once the backoff gives up after [k] retries, [k + 1]
    attempts are enough for an answer, whatever the other queries, the storage and the
    meta service do. *)
Theorem commit_terminates k fuel ctx t log overwrite (w : world) :
  next_backoff k = None → k < fuel →
  (do_commit catalogs fuel ctx catalog_name t log overwrite w).1 ≠ Ok None.
Proof.
  intros Hk Hfuel. apply (commit_loop_ends k); [done|lia|lia].
Qed.

(** ** Several writers *)
Inductive sys_step : world * list writer → world * list writer → Prop :=
  | sys_step_writer w ws i wr p w' :
      ws !! i = Some wr → writer_step (wr_ctx wr) (wr_log wr) (wr_phase wr) w = (Ok p, w') →
      sys_step (w, ws) (w', <[i:=mkWriter (wr_ctx wr) (wr_log wr) p]> ws).
Inductive sys_steps : nat → world * list writer → world * list writer → Prop :=
  | sys_steps_refl x : sys_steps 0 x x
  | sys_steps_step n x y z : sys_steps n x y → sys_step y z → sys_steps (S n) x z.
End machine.
Arguments phase VV DateTime DataSchema Expr : clear implicits.
Arguments writer VV DateTime DataSchema Expr : clear implicits.
