(* ===== verification/FuseCommitProps.v ===== *)
(** * Commits to a fuse table do not lose each other's data.

    The invariant behind it: what was written as a snapshot is never changed, so that the
    caches of all nodes agree with it, and the version of the table's record determines the
    snapshot that a commit builds on. *)
From S2P Require Import Prelude MetaTypes KvApi KeyCodec SchemaApi SchemaSpec SchemaOps Exception Management.
From S2P Require Import Lru DataValue FuseMeta FuseStats FuseIo FuseReads Catalog FuseTable FuseCommit.

(** ** Laws *)

(** Identifiers are unique. *)
Class UuidsLaws `{Uuids} : Prop := simple_inj m n : to_simple (new_v4 m) = to_simple (new_v4 n) → m = n.
(** What a snapshot contributes to the contents of a table; the statistics of the columns,
    in which floating point numbers may be rounded by their text form, are left aside. *)
Definition core {VV DataSchema} (s : TableSnapshot VV DataSchema) : list Location * N :=
  (ts_segments s, row_count (ts_summary s)).
Class SnapshotJsonLaws (VV DataSchema : Type) `{!Json (TableSnapshot VV DataSchema)} : Prop :=
  snapshot_json (s s' : TableSnapshot VV DataSchema) b : to_json s = Ok b → of_json b = Ok s' → core s' = core s.
(** The catalog as the commits to one table see it: the record is changed as specified, or
    not at all when the answer is an error; an error other than a version mismatch may also
    stand for a lost answer.  Reading gives the current record. *)
Class TableCatalogLaws {W DateTime DataSchema Expr : Type} `{!Capture, !PlanParser Expr}
    (cat : Catalog W DateTime DataSchema (Table DateTime DataSchema Expr))
    (R : W → SchemaSpec.cat DateTime DataSchema → Prop) (tid : N) : Prop := {
  tc_upsert req w c :
    R w c → (c_seq c + 4 < u64_modulus)%N → uto_table_id req = tid →
    wp (c_upsert_table_option cat req) (λ r w',
      match r with
      | Ok _ => (spec_upsert_table_option c req).1 = Ok mkUpsertTableOptionReply ∧ R w' (spec_upsert_table_option c req).2
      | Err e =>
          R w' c ∨ is_error_recoverable e = false ∧
            (spec_upsert_table_option c req).1 = Ok mkUpsertTableOptionReply ∧ R w' (spec_upsert_table_option c req).2
      | Panic => False
      end) w;
  tc_get w c :
    R w c →
    wp (c_get_table_meta_by_id cat tid) (λ r w', R w' c ∧
      match r with
      | Ok (ident, m) => ti_table_id ident = tid ∧ tb_meta_of c tid = Some (ti_seq ident, m)
      | Err _ => True
      | Panic => False
      end) w;
  tc_table i :
    ti_table_id (tinfo_ident _ _ i) = tid →
    match c_get_table_by_info cat i with
    | Ok (TFuse t) => FuseTable_try_create i = Ok t
    | Ok (TOther _ _) | Err _ => True
    | Panic => False
    end;
}.

Lemma app_inj_r a b c : a +:+ c = b +:+ c → a = b.
Proof.
  intros Heq. assert (String.length a = String.length b) as Hlen.
  { apply (f_equal String.length) in Heq. rewrite !string_app_length in Heq. lia. }
  revert b Heq Hlen. induction a as [|x a IH]; intros [|y b] Heq Hlen; try done.
  rewrite !string_app_cons in Heq. injection Heq as -> Heq. injection Hlen as Hlen. by rewrite (IH b).
Qed.
Lemma ends_with_app a b : ends_with (a +:+ b) b = true.
Proof.
  unfold ends_with. rewrite string_app_length.
  replace (String.length a + String.length b - String.length b) with (String.length a) by lia.
  rewrite substring_skip, substring_all, bool_decide_true by done. apply Nat.leb_le. lia.
Qed.

(** ** Appending to a snapshot *)
Section logs.
Context {VV : Type} `{!VariantOrd VV}.
Abbreviation Log := (list (AppendOperationLogEntry VV)).
Definition log_segments (log : Log) : list Location := (λ e, (segment_location e, SegmentInfo_VERSION)) <$> log.
Definition log_rows (log : Log) : N :=
  foldl (λ r e, u64_add r (row_count (si_summary (segment_info e)))) 0%N log.
(** The contents of a table after an append; [None] for a table without a snapshot. *)
Definition append_log (log : Log) (prev : option (list Location * N)) : list Location * N :=
  match prev with
  | Some (segs, rows) => (log_segments log ++ segs, u64_add (log_rows log) rows)
  | None => (log_segments log, log_rows log)
  end.

Lemma reduce_pair {E} (a b : option (ClusterStatistics VV)) : ∃ o, reduce_cluster_stats (E:=E) [a; b] = Ok o.
Proof. unfold reduce_cluster_stats. destruct a, b; simpl; eauto. Qed.
Lemma merge_rows {E} (l r : Statistics VV) :
  ∃ st, merge_statistics (E:=E) l r = Ok st ∧ row_count st = u64_add (row_count l) (row_count r).
Proof.
  unfold merge_statistics. destruct (reduce_pair (E:=E) (cluster_stats l) (cluster_stats r)) as [o ->]. simpl. eauto.
Qed.
Lemma merge_append_rows {E} (log : Log) acc segs :
  ∃ st, merge_append_loop (E:=E) acc segs log = Ok (segs ++ (segment_location <$> log), st) ∧
    row_count st = foldl (λ r e, u64_add r (row_count (si_summary (segment_info e)))) (row_count acc) log.
Proof.
  revert acc segs. induction log as [|e log IH]; intros acc segs; simpl.
  { exists acc. by rewrite app_nil_r. }
  assert (∃ st, merge_append_step (E:=E) acc (si_summary (segment_info e)) = Ok st ∧
    row_count st = u64_add (row_count acc) (row_count (si_summary (segment_info e)))) as (st & -> & Hst).
  { unfold merge_append_step. destruct (Nat.eqb _ _); simpl; [eauto|].
    destruct (reduce_pair (E:=E) (cluster_stats acc) (cluster_stats (si_summary (segment_info e)))) as [o ->].
    simpl. eauto. }
  simpl. destruct (IH st (segs ++ [segment_location e])) as (st' & Heq & Hrows). exists st'.
  rewrite Heq, Hrows, Hst, <-app_assoc. done.
Qed.
End logs.

(** ** Snapshots in the object store and in the caches *)
Section store.
Context {VV DataSchema W Obj TS TG : Type} `{!VariantOrd VV, !Operator Obj, !Capture, !Uuids, !UuidsLaws}.
Context (objects : Obj → gmap string bytes) `{!OperatorLaws Obj objects}.
Context `{!LinkedHashMap TS string (TableSnapshot VV DataSchema), !LinkedHashMapLaws TS string (TableSnapshot VV DataSchema)}.
Context `{!LinkedHashMap TG string (SegmentInfo VV)}.
Context `{!Json (TableSnapshot VV DataSchema), !Json (TableSnapshotV0 VV DataSchema)}.
Context `{!JsonTotal (TableSnapshot VV DataSchema), !JsonTotal (TableSnapshotV0 VV DataSchema), !SnapshotJsonLaws VV DataSchema}.
Context `{!Json (SegmentInfo VV), !Json (SegmentInfoV0 VV)}.
#[local] Existing Instance count_meter.
Abbreviation world := (fuse_world VV DataSchema W Obj TS TG).
Abbreviation Snapshot := (TableSnapshot VV DataSchema).
Abbreviation contents := (list Location * N)%type.
Context (prefix : string).
Implicit Types (w : world) (hist : gmap string contents) (s : Snapshot).

(** The snapshot in an object, by the version that its location tells. *)
Definition decode_snapshot (loc : string) (b : bytes) : res ErrorCode Snapshot :=
  let? v := SnapshotVersion_try_from (snaphost_version loc) in read_snapshot_version v b.

(** [hist] has every snapshot that was ever written; objects that are still there and cached
    snapshots agree with it, and the locations to come are unused. *)
Abbreviation cached_in hist := (cached (λ loc (s : Snapshot), hist !! loc = Some (core s))).
Record store_ok hist w : Prop := {
  so_objs loc k b s :
    hist !! loc = Some k → objects (fw_objs w) !! loc = Some b → decode_snapshot loc b = Ok s → core s = k;
  so_caches node cache : fw_snapshots w !! node = Some cache → cached_in hist cache;
  so_fresh k : fw_uuids w ≤ k → hist !! snapshot_location prefix SnV1 (new_v4 k) = None;
}.

Lemma store_ok_same hist w w' :
  store_ok hist w → objects (fw_objs w') = objects (fw_objs w) → fw_snapshots w' = fw_snapshots w →
  fw_uuids w ≤ fw_uuids w' → store_ok hist w'.
Proof.
  intros [Ho Hc Hf] Hobjs Hsnap Hid. split.
  - intros loc k b s. rewrite Hobjs. apply Ho.
  - intros node cache. rewrite Hsnap. apply Hc.
  - intros k Hk. apply Hf. lia.
Qed.
Lemma store_ok_cache hist w node cache :
  store_ok hist w → cached_in hist cache →
  store_ok hist (mkFuse (fw_meta w) (fw_objs w) (<[node:=cache]> (fw_snapshots w)) (fw_segments w) (fw_uuids w) (fw_progress w)).
Proof.
  intros [Ho Hc Hf] Hcache. split; [done| |done].
  intros n c. simpl. rewrite lookup_insert_Some. intros [[<- <-]|[_ Hl]]; eauto.
Qed.
Lemma read_snapshot_ok hist node loc k w :
  store_ok hist w → hist !! loc = Some k →
  wp (read_snapshot node loc (snaphost_version loc)) (λ r w', untouched objects w w' ∧ store_ok hist w' ∧
    match r with Ok s => core s = k | Err e => missing e = true → objects (fw_objs w) !! loc = None | Panic => False end) w.
Proof.
  intros Hst Hk. eapply wp_mono.
  - apply (read_snapshot_cached objects (λ loc s, hist !! loc = Some (core s))); [exact (so_caches _ _ Hst)|].
    intros b v s Hb Hv Hd. rewrite Hk. f_equal. symmetry. apply (so_objs _ _ Hst loc k b s); [done..|].
    unfold decode_snapshot. by rewrite Hv.
  - simpl. intros r w' (Hu & Hc & Hr). split_and!; [done| |].
    + destruct Hst as [Ho _ Hf]. destruct Hu as (_ & Hid & Hob & _). split; [by rewrite Hob|done|by rewrite Hid].
    + destruct r as [s|e|]; [congruence|done..].
Qed.

(** ** Writing a new snapshot *)
Context {DateTime Expr : Type}.
Abbreviation Tbl := (FuseTable DateTime DataSchema Expr).
Abbreviation TbMeta := (TableMeta DateTime DataSchema).
Abbreviation Log := (list (AppendOperationLogEntry VV)).
Implicit Types (m : TbMeta) (t : Tbl) (log : Log).

Definition meta_loc m : option string :=
  match options m !! OPT_KEY_SNAPSHOT_LOCATION with
  | Some loc => Some loc
  | None => options m !! OPT_KEY_LEGACY_SNAPSHOT_LOC
  end.
(** The contents that a record of the table stands for. *)
Definition state_of hist m : option contents := meta_loc m ≫= (hist !!.).
Definition known hist m : Prop := ∀ loc, meta_loc m = Some loc → is_Some (hist !! loc).
Abbreviation meta_of t := (tinfo_meta _ _ (table_info t)).

Lemma read_table_ok hist ctx t w :
  store_ok hist w → known hist (meta_of t) →
  wp (read_table_snapshot ctx t) (λ r w', untouched objects w w' ∧ store_ok hist w' ∧
    match r with
    | Ok o => core <$> o = state_of hist (meta_of t)
    | Err e => missing e = true → ∃ loc, meta_loc (meta_of t) = Some loc ∧ objects (fw_objs w) !! loc = None
    | Panic => False
    end) w.
Proof.
  intros Hst Hkn. unfold read_table_snapshot, snapshot_format_version, state_of.
  replace (snapshot_loc t) with (meta_loc (meta_of t)) by done.
  destruct (meta_loc (meta_of t)) as [loc|] eqn:Hloc; [|by split_and!].
  destruct (Hkn loc Hloc) as [k Hk]. apply wp_bind. eapply wp_mono; [by apply (read_snapshot_ok hist _ loc k)|].
  simpl. intros [s|e|] w' (Hu & Hst' & Hs); [|split_and!; [done..|]; intros Hm; by exists loc; split; [|apply Hs]|done].
  split_and!; [done..|]. simpl. congruence.
Qed.

Lemma snapshot_location_inj k j :
  snapshot_location prefix SnV1 (new_v4 k) = snapshot_location prefix SnV1 (new_v4 j) → k = j.
Proof.
  unfold snapshot_location. intros Heq. do 4 apply (inj (String.append _)) in Heq.
  apply app_inj_r in Heq. by apply simple_inj.
Qed.
Lemma snapshot_location_version id : snaphost_version (snapshot_location prefix SnV1 id) = 1%N.
Proof.
  unfold snapshot_location. rewrite <-!string_app_assoc. unfold snaphost_version. by rewrite ends_with_app.
Qed.

(** What the world looks like when a snapshot was written under a fresh name. *)
Lemma store_ok_write hist w w' k loc s b :
  store_ok hist w → loc = snapshot_location prefix SnV1 (new_v4 k) → fw_uuids w ≤ k → fw_uuids w' = S k →
  fw_snapshots w' = fw_snapshots w → to_json s = Ok b → objects (fw_objs w') !! loc = Some b →
  (∀ q, q ≠ loc → objects (fw_objs w') !! q = objects (fw_objs w) !! q) →
  store_ok (<[loc:=core s]> hist) w'.
Proof.
  intros [Ho Hc Hf] -> Hk Hid Hsnap Hj Hobj Hother. set (loc := snapshot_location _ _ _) in *.
  assert (hist !! loc = None) as Hnew by by apply Hf. split.
  - intros l k' b' s'. rewrite lookup_insert_Some. intros [[<- <-]|[Hne Hl]].
    + rewrite Hobj. intros [= <-]. unfold decode_snapshot, loc. rewrite snapshot_location_version. simpl.
      unfold jsonR. destruct (of_json b) as [s1|e|] eqn:Hs1; simpl; intros [= <-]. by apply (snapshot_json s s1 b).
    + rewrite Hother by done. by apply Ho.
  - intros node cache. rewrite Hsnap. intros Hca. destruct (Hc node cache Hca) as (l & Hok & Hcap & Hl).
    exists l. split_and!; [done..|]. intros loc' s' Hin. rewrite lookup_insert_ne; [by apply Hl|].
    intros <-. specialize (Hl _ _ Hin). congruence.
  - intros j Hj'. rewrite lookup_insert_ne; [apply Hf; lia|]. intros Heq%snapshot_location_inj. lia.
Qed.
(** A snapshot that could not be written: the name is not used again. *)
Lemma store_ok_other hist w w' loc :
  store_ok hist w → hist !! loc = None → fw_uuids w ≤ fw_uuids w' → fw_snapshots w' = fw_snapshots w →
  (∀ q, q ≠ loc → objects (fw_objs w') !! q = objects (fw_objs w) !! q) → store_ok hist w'.
Proof.
  intros [Ho Hc Hf] Hnew Hid Hsnap Hother. split.
  - intros l k b s Hl. rewrite Hother by congruence. by apply Ho.
  - rewrite Hsnap. apply Hc.
  - intros k Hk. apply Hf. lia.
Qed.

Lemma merge_table_ok schema prev pv log (summary : Statistics VV) w :
  row_count summary = log_rows log →
  ∃ s, merge_table_operations schema prev pv (log_segments log) summary w =
      (Ok s, mkFuse (fw_meta w) (fw_objs w) (fw_snapshots w) (fw_segments w) (S (fw_uuids w)) (fw_progress w)) ∧
    ts_snapshot_id s = new_v4 (fw_uuids w) ∧ core s = append_log log (core <$> prev).
Proof.
  intros Hrows. unfold merge_table_operations, bind, lift, ret, fresh_uuid, stateM.
  destruct prev as [p|]; simpl.
  - destruct (merge_rows (E:=ErrorCode) summary (ts_summary p)) as (st & -> & Hst). eexists. split_and!; [done..|].
    unfold core. simpl. by rewrite Hst, Hrows.
  - eexists. split_and!; [done..|]. unfold core. simpl. by rewrite Hrows.
Qed.

Definition is_inl {A B} (x : A + B) : bool := match x with inl _ => true | inr _ => false end.
(** Where the next snapshot goes; objects outside of [P] are as before; an object holds a snapshot. *)
Definition new_loc w : string := snapshot_location prefix SnV1 (new_v4 (fw_uuids w)).
Definition off (P : string → Prop) w w' : Prop := ∀ q, ¬ P q → objects (fw_objs w') !! q = objects (fw_objs w) !! q.
Definition holds w (loc : string) s : Prop := ∃ b, to_json s = Ok b ∧ objects (fw_objs w) !! loc = Some b.

Lemma prepare_ok hist ctx t log w :
  store_ok hist w → known hist (meta_of t) → location_prefix t = prefix →
  wp (prepare_commit ctx t log false) (λ r w',
    fw_meta w' = fw_meta w ∧ off (.= new_loc w) w w' ∧ fw_uuids w ≤ fw_uuids w' ∧
    match r with
    | Ok (loc, s) =>
        loc = new_loc w ∧ fw_uuids w < fw_uuids w' ∧ holds w' loc s ∧
        hist !! loc = None ∧ store_ok (<[loc:=core s]> hist) w' ∧
        core s = append_log log (state_of hist (meta_of t))
    | Err _ => store_ok hist w'
    | Panic => False
    end) w.
Proof.
  intros Hst Hkn Hpre. unfold prepare_commit. apply wp_bind. eapply wp_mono; [by apply (read_table_ok hist)|].
  simpl. intros [prev|e|] w1 ((Hm1 & Hu1 & Ho1 & Hg1) & Hst1 & Hprev); [|by split_and!; [|intros q _; by rewrite Ho1|rewrite Hu1|]|done].
  apply wp_bind. unfold wp at 1, lift at 1, merge_append_operations.
  destruct (merge_append_rows (E:=ErrorCode) log Statistics_default []) as (summary & -> & Hrows).
  apply wp_bind. unfold wp at 1, incr_progress, stateM. destruct (default _ _) as [pr pb]. simpl.
  set (w2 := mkFuse _ _ _ _ _ _). rewrite <-list_fmap_compose.
  change (_ <$> log) with (log_segments log).
  apply wp_bind. unfold wp at 1.
  destruct (merge_table_ok (schema (meta_of t)) prev (snapshot_format_version t) log summary w2 Hrows)
    as (s & -> & Hid & Hcore). rewrite Hprev in Hcore.
  apply wp_bind. unfold wp at 1, lift at 1, snapshot_location_from_uuid. simpl.
  rewrite Hid, Hpre. simpl fw_uuids. set (loc := snapshot_location _ _ _).
  assert (hist !! loc = None) as Hnew by by apply (so_fresh _ _ Hst1).
  apply wp_bind. unfold wp at 1, lift at 1. pose proof (to_json_total s) as Htot.
  destruct (to_json s) as [b|e|] eqn:Hb; simpl; [| |done].
  2: { split_and!; [done|intros q _; simpl; by rewrite Ho1|simpl; lia|]. apply (store_ok_same hist w1); simpl; [done..|lia]. }
  apply wp_bind. unfold wp at 1, objM. simpl. pose proof (write_ok loc b (fw_objs w1)) as Hw.
  destruct (dal_write loc b (fw_objs w1)) as [[[]|e|] o]; destruct Hw as [Hother Hb']; [| |done]; simpl.
  - assert (loc = new_loc w) as Hl by (unfold new_loc; by rewrite <- Hu1). split_and!; [done| |simpl; lia|done|simpl; lia|by exists b|done| |done].
    + intros q Hq. rewrite <- Ho1. apply Hother. by rewrite Hl.
    + by apply (store_ok_write hist w1 _ (fw_uuids w1) loc s b).
  - assert (loc = new_loc w) as Hl by (unfold new_loc; by rewrite <- Hu1). split_and!; [done| |simpl; lia|].
    + intros q Hq. rewrite <- Ho1. apply Hother. by rewrite Hl.
    + apply (store_ok_other hist w1 _ loc); simpl; [done..|lia|done|done].
Qed.

(** Deleting objects. *)
Lemma store_ok_shrink hist w w' :
  store_ok hist w → fw_uuids w' = fw_uuids w → fw_snapshots w' = fw_snapshots w →
  (∀ q, objects (fw_objs w') !! q = objects (fw_objs w) !! q ∨ objects (fw_objs w') !! q = None) → store_ok hist w'.
Proof.
  intros [Ho Hc Hf] Hid Hsnap Hsub. split.
  - intros l k b s Hl Hb. destruct (Hsub l) as [Heq|Heq]; [|congruence]. rewrite Heq in Hb. by apply (Ho l k b).
  - rewrite Hsnap. apply Hc.
  - rewrite Hid. apply Hf.
Qed.
Lemma ignore_delete_ok hist loc w :
  store_ok hist w →
  wp (ignore (objM (dal_delete loc))) (λ r w', r = Ok tt ∧ fw_meta w' = fw_meta w ∧ fw_uuids w' = fw_uuids w ∧
    off (.= loc) w w' ∧ store_ok hist w') w.
Proof.
  intros Hst. unfold ignore, wp, bind, tryM, objM. pose proof (delete_ok loc (fw_objs w)) as Hd.
  destruct (dal_delete loc (fw_objs w)) as [r o]. destruct Hd as [Hother Hr].
  assert (∀ q, objects o !! q = objects (fw_objs w) !! q ∨ objects o !! q = None) as Hsub.
  { intros q. destruct (decide (q = loc)) as [->|Hq]; [|left; by apply Hother]. destruct r as [[]|e|]; [by right|done..]. }
  destruct r as [[]|e|]; [| |done]; simpl; (split_and!; [done..|]); by apply (store_ok_shrink hist w).
Qed.
Lemma delete_all_ok hist locs w :
  store_ok hist w →
  wp (delete_all locs) (λ r w', r = Ok tt ∧ fw_meta w' = fw_meta w ∧ fw_uuids w' = fw_uuids w ∧
    off (.∈ locs) w w' ∧ store_ok hist w') w.
Proof.
  revert w. induction locs as [|l locs IH]; intros w Hst; [done|]. simpl. apply wp_bind.
  eapply wp_mono; [by apply (ignore_delete_ok hist)|]. simpl. intros r w1 (-> & Hm & Hu & Ho & Hst1).
  eapply wp_mono; [by apply IH|]. simpl. intros r w2 (-> & Hm2 & Hu2 & Ho2 & Hst2). split_and!; [done|congruence|congruence| |done].
  intros q [Hq Hqs]%not_elem_of_cons. by rewrite Ho2, Ho.
Qed.

Lemma finish_ok hist ctx loc s result w :
  store_ok hist w → hist !! loc = Some (core s) →
  wp (finish_commit ctx loc s result) (λ r w', fw_meta w' = fw_meta w ∧ fw_uuids w' = fw_uuids w ∧
    off (λ q, is_inl result = true ∧ q = loc) w w' ∧ store_ok hist w' ∧
    r = match result with inr _ => Ok tt | inl e => Err e end) w.
Proof.
  intros Hst Hloc. destruct result as [e|[]]; simpl.
  - apply wp_bind. eapply wp_mono; [by apply (ignore_delete_ok hist)|]. simpl. intros r w1 (-> & Hm & Hu & Ho & Hst1).
    split_and!; [done..| |done|done]. intros q Hq. apply Ho. by intros ->; apply Hq.
  - apply wp_bind. unfold wp at 1, get_snapshot_cache, stateM.
    destruct (fw_snapshots w !! qc_node ctx) as [cache|] eqn:Hcache; [|done].
    destruct (cached_put (λ loc s, hist !! loc = Some (core s)) cache loc s) as (o & c2 & Hput & Hc2); [by apply (so_caches _ _ Hst _ _ Hcache)|done|].
    apply wp_bind. unfold wp at 1, lift. rewrite Hput. simpl. unfold wp, set_snapshot_cache, stateM. simpl.
    split_and!; [done..| |done]. by apply store_ok_cache.
Qed.

(** ** Writers at work *)
Context `{!PlanParser Expr, !Backoff}.
Context (catalogs : gmap string (Catalog W DateTime DataSchema (Table DateTime DataSchema Expr))).
Context (catalog_name : string) (tid : N) (cat : Catalog W DateTime DataSchema (Table DateTime DataSchema Expr)).
Hypothesis catalog_there : catalogs !! catalog_name = Some cat.
Context (R : W → SchemaSpec.cat DateTime DataSchema → Prop) `{!TableCatalogLaws cat R tid}.
Context (db_id : string).
Hypothesis prefix_is : prefix = db_id +:+ "/" +:+ pretty tid.
Abbreviation Writer := (writer VV DateTime DataSchema Expr).
Implicit Types (c : SchemaSpec.cat DateTime DataSchema) (metas : gmap N TbMeta) (order : list nat).
Abbreviation seq_of t := (ti_seq (tinfo_ident _ _ (table_info t))).

(** The contents after appends, the latest first. *)
Definition committed (init : option contents) (logs : list Log) : option contents :=
  foldr (λ log st, Some (append_log log st)) init logs.

(** [metas] has every record that the table ever had, by version. *)
Definition tbl_ok hist metas t : Prop :=
  ti_table_id (tinfo_ident _ _ (table_info t)) = tid ∧ location_prefix t = prefix ∧
  metas !! seq_of t = Some (meta_of t) ∧ known hist (meta_of t).
Definition phase_ok hist metas order (i : nat) (wr : Writer) : Prop :=
  match wr_phase wr with
  | Ready t _ | Retry t _ | Aborting t _ => tbl_ok hist metas t ∧ i ∉ order
  | Written t _ loc s =>
      tbl_ok hist metas t ∧ (i ∉ order) ∧ hist !! loc = Some (core s) ∧
      core s = append_log (wr_log wr) (state_of hist (meta_of t))
  | Answered t _ loc s (inr _) => i ∈ order ∧ hist !! loc = Some (core s)
  | Answered t _ loc s (inl e) =>
      tbl_ok hist metas t ∧ hist !! loc = Some (core s) ∧ (i ∈ order → is_error_recoverable e = false)
  | Done => i ∈ order
  | Failed _ => True
  end.
(** The snapshot file that a writer has written and may yet remove. *)
Definition own_loc (wr : Writer) : option string :=
  match wr_phase wr with Written _ _ loc _ | Answered _ _ loc _ _ => Some loc | _ => None end.
Definition snap_file (q : string) : Prop := ∃ k, q = snapshot_location prefix SnV1 (new_v4 k).
(** The answer to a query that was committed is lost, or was an error for another reason. *)
Definition in_error (wr : Writer) : Prop := match wr_phase wr with Answered _ _ _ _ (inl _) | Failed _ => True | _ => False end.
Definition answer_lost order (ws : list Writer) : Prop := ∃ i wr, ws !! i = Some wr ∧ i ∈ order ∧ in_error wr.
#[global] Instance in_error_dec wr : Decision (in_error wr).
Proof. unfold in_error. destruct (wr_phase wr) as [| |? ? ? ? []| | | |]; apply _. Defined.
#[local] Instance answer_lost_dec order ws : Decision (answer_lost order ws).
Proof.
  assert (∀ i, Decision (from_option in_error False (ws !! i))) as Hd by (intros i; destruct (ws !! i); apply _).
  destruct (decide (List.Exists (λ i, from_option in_error False (ws !! i)) order)) as [He|He].
  - left. apply Exists_exists in He as (i & Hi & He). destruct (ws !! i) as [wr|] eqn:Hw; [|done]. by exists i, wr.
  - right. intros (i & wr & Hw & Hi & Hx). apply He, Exists_exists. exists i. by rewrite Hw.
Defined.
(** The query has failed for good and was not committed, so that its files are removed. *)
Definition given_up order i (wr : Writer) : Prop := (i ∉ order) ∧ match wr_phase wr with Failed _ => True | _ => False end.
(** What is in the object store, from [objs0] on: [cur0] is the current snapshot at the start. *)
Record files_ok (objs0 : gmap string bytes) (cur0 : option string) (logs : list Log) c hist order (x : world * list Writer) : Prop := {
  fo_logs i log q : logs !! i = Some log → q ∈ abort_locs log → ¬ snap_file q ∧ cur0 ≠ Some q;
  fo_own i wr loc : x.2 !! i = Some wr → own_loc wr = Some loc →
    ∃ k, k < fw_uuids x.1 ∧ loc = snapshot_location prefix SnV1 (new_v4 k);
  fo_apart i j wr wr' loc : x.2 !! i = Some wr → x.2 !! j = Some wr' → own_loc wr = Some loc → own_loc wr' = Some loc → i = j;
  fo_written i wr t n loc s : x.2 !! i = Some wr → wr_phase wr = Written t n loc s → holds x.1 loc s;
  fo_first q m : order = [] → tb_meta_of c tid = Some (q, m) → meta_loc m = cur0;
  fo_current q m loc : ¬ answer_lost order x.2 → tb_meta_of c tid = Some (q, m) → meta_loc m = Some loc →
    (∀ j wr, x.2 !! j = Some wr → own_loc wr = Some loc → j ∈ order) ∧
    ((order = [] ∧ objects (fw_objs x.1) !! loc = objs0 !! loc) ∨
     (snap_file loc ∧ ∃ s, holds x.1 loc s ∧ hist !! loc = Some (core s)));
  fo_files q : ¬ snap_file q → (∀ i wr, x.2 !! i = Some wr → q ∈ abort_locs (wr_log wr) → ¬ given_up order i wr) →
    objects (fw_objs x.1) !! q = objs0 !! q;
}.
Record sys_ok (init : option contents) (logs : list Log) c hist metas order (x : world * list Writer) : Prop := {
  ok_repr : R (fw_meta x.1) c;
  ok_store : store_ok hist x.1;
  ok_metas q m : metas !! q = Some m →
    (q ≤ c_seq c)%N ∧ known hist m ∧ options m !! OPT_KEY_DATABASE_ID = Some db_id;
  ok_cur : ∃ q m, tb_meta_of c tid = Some (q, m) ∧ metas !! q = Some m ∧
    state_of hist m = committed init (omap (logs !!.) order);
  ok_phase i wr : x.2 !! i = Some wr → phase_ok hist metas order i wr ∧ logs !! i = Some (wr_log wr);
  ok_order : NoDup order;
  ok_range i : i ∈ order → is_Some (logs !! i);
}.

Lemma known_mono hist hist' m : hist ⊆ hist' → known hist m → known hist' m.
Proof. intros Hsub Hkn loc Hloc. destruct (Hkn loc Hloc) as [k Hk]. exists k. by eapply lookup_weaken. Qed.
Lemma state_of_mono hist hist' m : hist ⊆ hist' → known hist m → state_of hist' m = state_of hist m.
Proof.
  intros Hsub Hkn. unfold state_of. destruct (meta_loc m) as [loc|] eqn:Hloc; [|done]. simpl.
  destruct (Hkn loc Hloc) as [k Hk]. rewrite Hk. by eapply lookup_weaken.
Qed.
Lemma tbl_ok_mono hist hist' metas metas' t :
  hist ⊆ hist' → metas ⊆ metas' → tbl_ok hist metas t → tbl_ok hist' metas' t.
Proof.
  intros Hh Hm (Hid & Hp & Hmt & Hkn). split_and!; [done..|by eapply lookup_weaken|by eapply known_mono].
Qed.
Lemma phase_ok_mono hist hist' metas metas' order order' i wr :
  hist ⊆ hist' → metas ⊆ metas' → (i ∈ order ↔ i ∈ order') →
  phase_ok hist metas order i wr → phase_ok hist' metas' order' i wr.
Proof.
  intros Hh Hm Hi. pose proof (tbl_ok_mono hist hist' metas metas') as Ht. unfold phase_ok.
  destruct (wr_phase wr) as [t n|t n loc s|t n loc s [e|r]|t n|t n| |e]; rewrite ?Hi; try tauto.
  - intros [? ?]. split; [by apply Ht|done].
  - intros (Htb & Hn & Hl & Hc). split_and!; [by apply Ht|done|by eapply lookup_weaken|].
    rewrite (state_of_mono hist hist'); [done|done|]. by destruct Htb as (_ & _ & _ & ?).
  - intros (? & Hl & ?). split_and!; [by apply Ht|by eapply lookup_weaken|done].
  - intros (? & Hl). split; [done|by eapply lookup_weaken].
  - intros [? ?]. split; [by apply Ht|done].
  - intros [? ?]. split; [by apply Ht|done].
Qed.

(** The record after a successful commit. *)
Lemma upsert_commit c t loc q m :
  tb_meta_of c tid = Some (q, m) → ti_table_id (tinfo_ident _ _ (table_info t)) = tid →
  (spec_upsert_table_option c (commit_req (table_info t) loc)).1 = Ok mkUpsertTableOptionReply →
  q = seq_of t ∧ ∃ m', tb_meta_of (spec_upsert_table_option c (commit_req (table_info t) loc)).2 tid = Some ((c_seq c + 1)%N, m') ∧
    c_seq (spec_upsert_table_option c (commit_req (table_info t) loc)).2 = (c_seq c + 1)%N ∧
    meta_loc m' = Some loc ∧ options m' !! OPT_KEY_DATABASE_ID = options m !! OPT_KEY_DATABASE_ID.
Proof.
  intros Hcur Hid. unfold spec_upsert_table_option. simpl. rewrite Hid, Hcur.
  destruct (q =? seq_of t)%N eqn:Hq; [|done]. intros _. split; [by apply N.eqb_eq|].
  eexists. split_and!.
  - unfold tb_meta_of, cat_put. simpl. by rewrite lookup_insert_eq.
  - done.
  - unfold meta_loc. simpl. rewrite lookup_update_options. unfold gather_legacy_options.
    case_bool_decide; [rewrite lookup_insert_ne by done|]; by rewrite lookup_singleton_eq.
  - simpl. rewrite lookup_update_options. unfold gather_legacy_options.
    case_bool_decide; [rewrite lookup_insert_ne by done|]; by rewrite lookup_singleton_ne.
Qed.

(** A step of a writer that leaves the record of the table alone. *)
Lemma sys_ok_move init logs c hist metas order w ws i wr p w' hist' :
  sys_ok init logs c hist metas order (w, ws) → ws !! i = Some wr → R (fw_meta w') c → store_ok hist' w' →
  hist ⊆ hist' → phase_ok hist' metas order i (mkWriter (wr_ctx wr) (wr_log wr) p) →
  sys_ok init logs c hist' metas order (w', <[i:=mkWriter (wr_ctx wr) (wr_log wr) p]> ws).
Proof.
  intros [HR Hst Hmt (q & m & Hcur & Hq & Hstate) Hph Hnd Hrg] Hi HR' Hst' Hsub Hp. split; [done|done| | | |done|done].
  - intros q' m' Hm'. destruct (Hmt q' m' Hm') as (? & ? & ?). split_and!; [done|by eapply known_mono|done].
  - exists q, m. split_and!; [done..|]. rewrite (state_of_mono hist hist'); [done..|]. by destruct (Hmt q m Hq) as (_ & ? & _).
  - intros j wj. simpl. rewrite list_lookup_insert_Some. destruct (Hph i wr Hi) as [_ Hlog].
    intros [(<- & <- & _)|[Hne Hj]]; [done|]. destruct (Hph j wj Hj) as [Hpj Hlogj]. split; [|done].
    by eapply phase_ok_mono.
Qed.
(** A step that moves the table to the snapshot of the writer. *)
Lemma sys_ok_commit init logs c hist metas order w ws i wr t n loc s p w' :
  sys_ok init logs c hist metas order (w, ws) → ws !! i = Some wr → wr_phase wr = Written t n loc s →
  (spec_upsert_table_option c (commit_req (table_info t) loc)).1 = Ok mkUpsertTableOptionReply →
  R (fw_meta w') (spec_upsert_table_option c (commit_req (table_info t) loc)).2 → store_ok hist w' →
  (∀ metas', metas ⊆ metas' → phase_ok hist metas' (i :: order) i (mkWriter (wr_ctx wr) (wr_log wr) p)) →
  let c' := (spec_upsert_table_option c (commit_req (table_info t) loc)).2 in
  ∃ metas', sys_ok init logs c' hist metas' (i :: order) (w', <[i:=mkWriter (wr_ctx wr) (wr_log wr) p]> ws) ∧
    (c_seq c' ≤ c_seq c + 1)%N.
Proof.
  intros [HR Hst Hmt (q & m & Hcur & Hq & Hstate) Hph Hnd Hrg] Hi Hphase Hspec HR' Hst' Hp.
  destruct (Hph i wr Hi) as [Hpi Hlog]. unfold phase_ok in Hpi. rewrite Hphase in Hpi.
  destruct Hpi as ((Hid & _ & Hmeta & Hkn) & Hni & Hloc & Hcore).
  destruct (upsert_commit c t loc q m Hcur Hid Hspec) as (-> & m' & Hcur' & Hseq' & Hloc' & Hdb').
  assert (m = meta_of t) as -> by (simpl in Hq; congruence).
  assert (metas !! (c_seq c + 1)%N = None) as Hfresh.
  { apply eq_None_not_Some. intros [mm Hmm]. destruct (Hmt _ _ Hmm) as (Hle & _). lia. }
  exists (<[(c_seq c + 1)%N:=m']> metas). split; [|by rewrite Hseq'].
  assert (metas ⊆ <[(c_seq c + 1)%N:=m']> metas) as Hsub by by apply insert_subseteq.
  split; [done|done| | | |by apply NoDup_cons|].
  - intros q' m0. rewrite Hseq', lookup_insert_Some. intros [[<- <-]|[_ Hm0]].
    + split_and!; [lia| |].
      * intros l. rewrite Hloc'. intros [= <-]. eauto.
      * rewrite Hdb'. by destruct (Hmt _ _ Hmeta) as (_ & _ & ?).
    + destruct (Hmt _ _ Hm0) as (? & ? & ?). split_and!; [lia|done..].
  - eexists _, m'. split_and!; [done|apply lookup_insert_eq|]. csimpl. rewrite Hlog. simpl. rewrite <-Hstate.
    unfold state_of at 1. rewrite Hloc'. simpl. by rewrite Hloc, Hcore.
  - intros j wj. simpl. rewrite list_lookup_insert_Some. intros [(<- & <- & _)|[Hne Hj]].
    + split; [by apply Hp|done].
    + destruct (Hph j wj Hj) as [Hpj Hlogj]. split; [|done]. eapply phase_ok_mono; [done|done| |done].
      rewrite elem_of_cons. split; [by right|]. intros [->|?]; done.
  - intros j [->|Hj]%elem_of_cons; [by rewrite Hlog|by apply Hrg].
Qed.
(** The files after a step that leaves the record of the table alone: only a new snapshot, the snapshot of a
    query whose commit failed, or the files of a query that gives up are touched. *)
Lemma files_ok_move objs0 cur0 logs c hist hist' order w ws i wr wr' w' (P : string → Prop) :
  files_ok objs0 cur0 logs c hist order (w, ws) → ws !! i = Some wr → logs !! i = Some (wr_log wr) → wr_log wr' = wr_log wr → hist ⊆ hist' →
  (∀ q m, tb_meta_of c tid = Some (q, m) → known hist m) → off P w w' → fw_uuids w ≤ fw_uuids w' →
  (∀ loc, own_loc wr' = Some loc → own_loc wr = Some loc ∨ loc = new_loc w ∧ fw_uuids w < fw_uuids w' ∧ hist !! loc = None) →
  (∀ t n loc s, wr_phase wr' = Written t n loc s → holds w' loc s) →
  (∀ q, P q → q = new_loc w ∧ hist !! q = None ∨ own_loc wr = Some q ∧ (i ∈ order → answer_lost order (<[i:=wr']> ws)) ∨
    q ∈ abort_locs (wr_log wr) ∧ given_up order i wr') →
  (answer_lost order ws → answer_lost order (<[i:=wr']> ws)) → (given_up order i wr → given_up order i wr') →
  files_ok objs0 cur0 logs c hist' order (w', <[i:=wr']> ws).
Proof.
  intros [Hlogs Hown Hapart Hwrit Hfirst Hcur Hfiles] Hi Hlog Hwl Hsub Hkn Hoff Hu Hown' Hwrit' HP Hlost Hgive. simpl in *.
  assert (∀ j wj loc, ws !! j = Some wj → own_loc wj = Some loc → loc ≠ new_loc w) as Hold.
  { intros j wj loc Hj Hl ->. destruct (Hown j wj _ Hj Hl) as (k & Hk & Heq%snapshot_location_inj). lia. }
  assert (∀ q, P q → snap_file q ∨ q ∈ abort_locs (wr_log wr) ∧ given_up order i wr') as Hkind.
  { intros q [[-> _]|[[Hq _]|Hq]]%HP; [left; by eexists| |by right]. destruct (Hown i wr q Hi Hq) as (k & _ & ->). left. by eexists. }
  split; simpl.
  - done.
  - intros j wj loc [(<- & <- & _)|[_ Hj]]%list_lookup_insert_Some Hl.
    + destruct (Hown' loc Hl) as [Hl'|(-> & Hlt & _)]; [|by eexists]. destruct (Hown i wr loc Hi Hl') as (k & ? & ->). exists k. split; [lia|done].
    + destruct (Hown j wj loc Hj Hl) as (k & ? & ->). exists k. split; [lia|done].
  - intros j k wj wk loc [(<- & <- & _)|[Hne Hj]]%list_lookup_insert_Some [(<- & <- & _)|[Hne' Hk]]%list_lookup_insert_Some Hlj Hlk; [done|..].
    + destruct (Hown' loc Hlj) as [Hl'|(-> & _)]; [by eapply Hapart|]. by destruct (Hold k wk _ Hk Hlk).
    + destruct (Hown' loc Hlk) as [Hl'|(-> & _)]; [by eapply Hapart|]. by destruct (Hold j wj _ Hj Hlj).
    + by eapply Hapart.
  - intros j wj t n loc s [(<- & <- & _)|[Hne Hj]]%list_lookup_insert_Some Hp; [by eapply Hwrit'|].
    destruct (Hwrit j wj t n loc s Hj Hp) as (b & Hb & Ho). exists b. split; [done|]. assert (own_loc wj = Some loc) as Hl by (unfold own_loc; by rewrite Hp).
    rewrite Hoff; [done|]. intros [[-> _]|[[Hq _]|[Hq _]]]%HP; [by destruct (Hold j wj _ Hj Hl)|by destruct Hne; eapply Hapart|].
    destruct (Hlogs i _ loc Hlog Hq) as [Hns _]. destruct (Hown j wj loc Hj Hl) as (k & _ & ->). apply Hns. by eexists.
  - done.
  - intros q m loc Hnl Hm Hloc. destruct (Hcur q m loc) as [Hj Hobj]; [by intros ?; apply Hnl, Hlost|done|done|]. destruct (Hkn q m Hm loc Hloc) as [kk Hkk].
    assert (¬ P loc) as HnP.
    { intros [[-> Hn]|[[Hq Hin]|[Hq _]]]%HP; [congruence|by apply Hnl, Hin, (Hj i wr)|]. destruct (Hlogs i _ loc Hlog Hq) as [Hns Hc0].
      destruct Hobj as [[Ho _]|[Hs _]]; [|done]. specialize (Hfirst q m Ho Hm). congruence. }
    split.
    + intros j wj [(<- & <- & _)|[_ Hj']]%list_lookup_insert_Some Hl; [|by eapply Hj]. destruct (Hown' loc Hl) as [Hl'|(_ & _ & Hn)]; [by eapply Hj|congruence].
    + unfold holds in *. rewrite Hoff by done. destruct Hobj as [?|(Hs & s & Hh & Hc)]; [by left|right]. split; [done|]. exists s. split; [done|]. by eapply lookup_weaken.
  - intros q Hns Hq. rewrite Hoff.
    + apply Hfiles; [done|]. intros j wj Hj Hin Hg. destruct (decide (i = j)) as [<-|Hne].
      * simplify_eq. apply (Hq i wr'); [by apply list_lookup_insert_eq; eapply lookup_lt_Some|by rewrite Hwl|by apply Hgive].
      * apply (Hq j wj); [by rewrite list_lookup_insert_ne|done..].
    + intros [Hs|[Hin Hg]]%Hkind; [done|]. apply (Hq i wr'); [by apply list_lookup_insert_eq; eapply lookup_lt_Some|by rewrite Hwl|done].
Qed.
(** The files when the record moves to the snapshot of a writer. *)
Lemma files_ok_commit objs0 cur0 logs c c' hist order w ws i wr t n loc s result w' q' m' :
  files_ok objs0 cur0 logs c hist order (w, ws) → ws !! i = Some wr → wr_phase wr = Written t n loc s → hist !! loc = Some (core s) →
  fw_objs w' = fw_objs w → fw_uuids w' = fw_uuids w → tb_meta_of c' tid = Some (q', m') → meta_loc m' = Some loc →
  files_ok objs0 cur0 logs c' hist (i :: order) (w', <[i:=mkWriter (wr_ctx wr) (wr_log wr) (Answered t n loc s result)]> ws).
Proof.
  intros [Hlogs Hown Hapart Hwrit Hfirst Hcur Hfiles] Hi Hph Hh Ho Hu Hm' Hloc'. simpl in *. set (wr' := mkWriter _ _ _).
  assert (own_loc wr = Some loc) as Hl by (unfold own_loc; by rewrite Hph). assert (own_loc wr' = Some loc) as Hl' by done.
  assert (∀ j wj, <[i:=wr']> ws !! j = Some wj → ∃ wj', ws !! j = Some wj' ∧ own_loc wj' = own_loc wj) as Hback.
  { intros j wj [(<- & <- & _)|[_ Hj]]%list_lookup_insert_Some; [by exists wr; rewrite Hl|by exists wj]. }
  split; simpl.
  - done.
  - intros j wj l (wj' & Hj & <-)%Hback Hlj. rewrite Hu. by eapply Hown.
  - intros j k wj wk l (wj' & Hj & <-)%Hback (wk' & Hk & <-)%Hback. by eapply Hapart.
  - intros j wj t' n' l s' [(<- & <- & _)|[_ Hj]]%list_lookup_insert_Some Hp; [done|]. unfold holds. simpl. rewrite Ho. by eapply Hwrit.
  - done.
  - intros q m l _ Hm Hlm. assert (l = loc) as -> by congruence. split.
    + intros j wj (wj' & Hj & Hle)%Hback Hlj. assert (j = i) as -> by (apply (Hapart j i wj' wr loc); congruence). by left.
    + right. destruct (Hown i wr loc Hi Hl) as (k & _ & Hk). split; [by exists k|]. exists s. split; [|done]. unfold holds. simpl. rewrite Ho. by eapply Hwrit.
  - intros q Hns Hq. rewrite Ho. apply Hfiles; [done|]. intros j wj Hj Hin [Hni Hg]. destruct (decide (i = j)) as [<-|Hne]; [simplify_eq; by rewrite Hph in Hg|].
    apply (Hq j wj); [by rewrite list_lookup_insert_ne|done|]. split; [|done]. by intros [?|?]%elem_of_cons.
Qed.
Lemma after_error_ok hist metas order i (wr : Writer) t n e :
  tbl_ok hist metas t → (is_error_recoverable e = true → i ∉ order) →
  phase_ok hist metas order i (mkWriter (wr_ctx wr) (wr_log wr) (after_error t n e)).
Proof.
  intros Ht Hi. unfold phase_ok, after_error. simpl. destruct (is_error_recoverable e); [|done].
  destruct (next_backoff n); split; auto.
Qed.
Lemma try_create_ok i t :
  FuseTable_try_create i = Ok t → options (tinfo_meta _ _ i) !! OPT_KEY_DATABASE_ID = Some db_id →
  ti_table_id (tinfo_ident _ _ i) = tid → table_info t = i ∧ location_prefix t = prefix.
Proof.
  unfold FuseTable_try_create, parse_storage_prefix, info_options. intros Ht Hdb Hid. rewrite Hdb in Ht. simpl in Ht.
  rewrite Hid in Ht. destruct (match order_keys _ with Some _ => _ | None => _ end); simplify_eq/=. done.
Qed.
Lemma refresh_ok init logs c hist metas order w ws name :
  sys_ok init logs c hist metas order (w, ws) →
  wp (refresh_table catalogs catalog_name tid name) (λ r w', R (fw_meta w') c ∧ store_ok hist w' ∧
    fw_objs w' = fw_objs w ∧ fw_uuids w' = fw_uuids w ∧
    match r with Ok t => tbl_ok hist metas t | Err _ => True | Panic => False end) w.
Proof.
  intros [HR Hst Hmt (q & m & Hcur & Hq & _) _ _ _]. unfold refresh_table, get_catalog. rewrite catalog_there.
  apply wp_bind. unfold wp at 1, lift at 1. simpl. apply wp_bind. unfold wp at 1, catM.
  pose proof (tc_get (fw_meta w) c HR) as Hget. unfold wp in Hget. simpl in HR.
  destruct (c_get_table_meta_by_id cat tid (fw_meta w)) as [r mw]. destruct Hget as [HR' Hr].
  set (w1 := mkFuse mw _ _ _ _ _). assert (store_ok hist w1) as Hst1 by by apply (store_ok_same hist w).
  destruct r as [[ident mm]|e|]; [|by split_and!|done]. destruct Hr as [Hid Htb].
  rewrite Hcur in Htb. injection Htb as -> ->. set (info := mkTableInfo ident "" name mm).
  pose proof (tc_table (cat:=cat) (R:=R) (tid:=tid) info Hid) as Htab.
  unfold wp, bind, lift. destruct (c_get_table_by_info cat info) as [[t|eng i]|e|]; simpl; [..|done]; [|by split_and!..].
  destruct (Hmt _ _ Hq) as (_ & Hkn & Hdb).
  destruct (try_create_ok info t Htab Hdb Hid) as [Hinfo Hpre].
  split_and!; [done..|]. unfold tbl_ok. rewrite Hinfo. by split_and!.
Qed.

(** The writers and the files together, and what a step establishes. *)
Definition all_ok objs0 cur0 init logs c hist metas order (x : world * list Writer) : Prop :=
  sys_ok init logs c hist metas order x ∧ files_ok objs0 cur0 logs c hist order x.
Definition stepped objs0 cur0 init logs c ws i (wr : Writer) (r : res ErrorCode (phase VV DateTime DataSchema Expr)) w' : Prop :=
  match r with
  | Ok p => ∃ c' hist' metas' order',
      all_ok objs0 cur0 init logs c' hist' metas' order' (w', <[i:=mkWriter (wr_ctx wr) (wr_log wr) p]> ws) ∧
      (c_seq c' ≤ c_seq c + 1)%N
  | _ => False
  end.
(** The objects outside of [P], and what the step of a writer may do inside. *)
Definition file_step hist order w i (wr wr' : Writer) w' (P : string → Prop) : Prop :=
  off P w w' ∧ fw_uuids w ≤ fw_uuids w' ∧
  (∀ loc, own_loc wr' = Some loc → own_loc wr = Some loc ∨ loc = new_loc w ∧ fw_uuids w < fw_uuids w' ∧ hist !! loc = None) ∧
  (∀ t n loc s, wr_phase wr' = Written t n loc s → holds w' loc s) ∧
  (∀ q, P q → q = new_loc w ∧ hist !! q = None ∨ own_loc wr = Some q ∧ (i ∈ order → in_error wr') ∨
    q ∈ abort_locs (wr_log wr) ∧ given_up order i wr') ∧
  (i ∈ order → in_error wr → in_error wr') ∧ (given_up order i wr → given_up order i wr').
Lemma stepped_move objs0 cur0 init logs c hist metas order w ws i wr p w' hist' P :
  all_ok objs0 cur0 init logs c hist metas order (w, ws) → ws !! i = Some wr → R (fw_meta w') c → store_ok hist' w' →
  hist ⊆ hist' → phase_ok hist' metas order i (mkWriter (wr_ctx wr) (wr_log wr) p) →
  file_step hist order w i wr (mkWriter (wr_ctx wr) (wr_log wr) p) w' P →
  stepped objs0 cur0 init logs c ws i wr (Ok p) w'.
Proof.
  intros [Hsys Hf] Hi HR Hst Hsub Hp (Hoff & Hu & Hown & Hwrit & HP & Hlost & Hgive). exists c, hist', metas, order. split; [|lia]. split; [by eapply sys_ok_move|].
  assert (<[i:=mkWriter (wr_ctx wr) (wr_log wr) p]> ws !! i = Some (mkWriter (wr_ctx wr) (wr_log wr) p)) as Hnew by (apply list_lookup_insert_eq; by eapply lookup_lt_Some).
  eapply (files_ok_move _ _ _ _ hist); [exact Hf|done|by apply (ok_phase _ _ _ _ _ _ _ Hsys)|done|done| |exact Hoff|done|done|done| | |done].
  - intros q m Hm. destruct (ok_cur _ _ _ _ _ _ _ Hsys) as (q' & m' & Hcur & Hq & _). rewrite Hcur in Hm. injection Hm as <- <-. by apply (ok_metas _ _ _ _ _ _ _ Hsys q' m').
  - intros q [?|[[? He]|?]]%HP; [by left| |by right; right]. right. left. split; [done|]. intros Hin. eexists i, _. split_and!; [exact Hnew|done|by apply He].
  - intros (j & wj & Hj & Hin & He). destruct (decide (i = j)) as [<-|Hne].
    + eexists i, _. simplify_eq. split_and!; [exact Hnew|done|by apply Hlost].
    + exists j, wj. split_and!; [by rewrite list_lookup_insert_ne|done..].
Qed.
(** A step that leaves all objects alone. *)
Lemma file_step_none hist order w i wr p w' :
  fw_objs w' = fw_objs w → fw_uuids w' = fw_uuids w → let wr' := mkWriter (wr_ctx wr) (wr_log wr) p in
  (∀ loc, own_loc wr' = Some loc → own_loc wr = Some loc) → (∀ t n loc s, p ≠ Written t n loc s) →
  (i ∈ order → in_error wr → in_error wr') → (given_up order i wr → given_up order i wr') →
  file_step hist order w i wr wr' w' (λ _, False).
Proof. intros Ho Hu wr' Hown Hp Hl Hg. split_and!; try done; [intros q _; by rewrite Ho|lia|intros loc Hlo; left; by apply Hown|intros t n loc s Hw; by destruct (Hp t n loc s)]. Qed.

(** Asking the meta service. *)
Lemma meta_step_ok objs0 cur0 init logs c hist metas order w ws i wr t n loc s :
  all_ok objs0 cur0 init logs c hist metas order (w, ws) → ws !! i = Some wr → (c_seq c + 4 < u64_modulus)%N →
  wr_phase wr = Written t n loc s →
  wp (writer_step catalogs catalog_name tid (wr_ctx wr) (wr_log wr) (wr_phase wr)) (stepped objs0 cur0 init logs c ws i wr) w.
Proof.
  intros Hall Hi Hroom Hphase. pose proof Hall as [Hsys Hfo]. pose proof (ok_repr _ _ _ _ _ _ _ Hsys) as HR. pose proof (ok_store _ _ _ _ _ _ _ Hsys) as Hst.
  destruct (ok_phase _ _ _ _ _ _ _ Hsys i wr Hi) as [Hp _]. simpl in HR, Hst. destruct (ok_cur _ _ _ _ _ _ _ Hsys) as (q & m & Hcur & _).
  unfold phase_ok in Hp. rewrite Hphase in *. destruct Hp as (Ht & Hni & Hloc & Hcore). pose proof Ht as (Hid & _).
  simpl. apply wp_bind, wp_try. unfold commit_to_meta_server, get_catalog. rewrite catalog_there.
  apply wp_bind. unfold wp at 1, lift at 1. simpl. unfold wp at 1, catM.
  pose proof (tc_upsert (commit_req (table_info t) loc) (fw_meta w) c HR Hroom Hid) as Hup. unfold wp in Hup.
  destruct (c_upsert_table_option cat _ (fw_meta w)) as [r mw]. unfold wp, ret.
  set (w1 := mkFuse mw _ _ _ _ _). assert (store_ok hist w1) as Hst1 by by apply (store_ok_same hist w).
  assert (∀ res, (spec_upsert_table_option c (commit_req (table_info t) loc)).1 = Ok mkUpsertTableOptionReply →
    R mw (spec_upsert_table_option c (commit_req (table_info t) loc)).2 →
    (∀ metas', metas ⊆ metas' → phase_ok hist metas' (i :: order) i (mkWriter (wr_ctx wr) (wr_log wr) (Answered t n loc s res))) →
    stepped objs0 cur0 init logs c ws i wr (Ok (Answered t n loc s res)) w1) as Hcommit.
  { intros res Hok HR' Hph. destruct (sys_ok_commit init logs c hist metas order w ws i wr t n loc s (Answered t n loc s res) w1)
      as (metas' & Hsys' & Hseq); [done..|]. eexists _, hist, metas', (i :: order). split; [split; [exact Hsys'|]|done].
    destruct (upsert_commit c t loc q m Hcur Hid Hok) as (_ & m' & Hcur' & _ & Hloc' & _). by eapply files_ok_commit. }
  destruct r as [rep|e|]; [| |done].
  - destruct Hup as [Hok HR']. apply Hcommit; [done..|]. intros metas' _. split; [by left|done].
  - destruct Hup as [HR'|(Hrec & Hok & HR')].
    + eapply (stepped_move _ _ _ _ _ hist); [done..| |].
      * unfold phase_ok. simpl. split_and!; [done..|]. by intros ?.
      * apply file_step_none; [done|done| |done|done|]; unfold own_loc, given_up; rewrite Hphase; [done|by intros []].
    + apply Hcommit; [done..|]. intros metas' Hsub. unfold phase_ok. simpl. split_and!; [by eapply tbl_ok_mono|done..].
Qed.

Lemma in_error_after_error (wr : Writer) t n e : is_error_recoverable e = false → in_error (mkWriter (wr_ctx wr) (wr_log wr) (after_error t n e)).
Proof. intros He. unfold in_error, after_error. by rewrite He. Qed.
Lemma own_after_error (wr : Writer) t n e : own_loc (mkWriter (wr_ctx wr) (wr_log wr) (after_error t n e)) = None.
Proof. unfold own_loc, after_error. simpl. destruct (is_error_recoverable e); [|done]. by destruct (next_backoff n). Qed.
Lemma after_error_not_written (t : Tbl) n e t' n' loc (s : Snapshot) : after_error t n e ≠ Written t' n' loc s.
Proof. unfold after_error. destruct (is_error_recoverable e); [|done]. by destruct (next_backoff n). Qed.
Lemma writer_step_ok objs0 cur0 init logs c hist metas order w ws i wr :
  all_ok objs0 cur0 init logs c hist metas order (w, ws) → ws !! i = Some wr → (c_seq c + 4 < u64_modulus)%N →
  wp (writer_step catalogs catalog_name tid (wr_ctx wr) (wr_log wr) (wr_phase wr)) (stepped objs0 cur0 init logs c ws i wr) w.
Proof.
  intros Hall Hi Hroom. pose proof Hall as [Hsys Hfo]. pose proof (ok_repr _ _ _ _ _ _ _ Hsys) as HR. pose proof (ok_store _ _ _ _ _ _ _ Hsys) as Hst.
  destruct (ok_phase _ _ _ _ _ _ _ Hsys i wr Hi) as [Hp _]. simpl in HR, Hst.
  assert (∀ p w' hist' P, R (fw_meta w') c → store_ok hist' w' → hist ⊆ hist' →
    phase_ok hist' metas order i (mkWriter (wr_ctx wr) (wr_log wr) p) → file_step hist order w i wr (mkWriter (wr_ctx wr) (wr_log wr) p) w' P →
    stepped objs0 cur0 init logs c ws i wr (Ok p) w') as Hmove by (intros; by eapply stepped_move).
  unfold phase_ok in Hp. destruct (wr_phase wr) as [t n|t n loc s|t n loc s result|t n|t n| |e] eqn:Hphase.
  2: { rewrite <-Hphase. by eapply meta_step_ok. }
  all: simpl.
  - destruct Hp as [Ht Hni]. pose proof Ht as (Hid & Hpre & Hmeta & Hkn).
    apply wp_bind, wp_try. eapply wp_mono; [by apply (prepare_ok hist)|]. simpl.
    intros r w' (Hm & Hoff & Hu & Hr). assert (hist !! new_loc w = None) as Hnl by by apply (so_fresh _ _ Hst).
    assert (given_up order i wr → False) as Hng by (unfold given_up; rewrite Hphase; by intros []).
    destruct r as [[loc s]|e|]; [| |done]; unfold wp, ret.
    + destruct Hr as (Hloc & Hlt & Hh & Hnew & Hst' & Hcore). apply (Hmove _ _ (<[loc:=core s]> hist) (.= new_loc w)); [congruence|done|by apply insert_subseteq| |].
      * unfold phase_ok. simpl. assert (hist ⊆ <[loc:=core s]> hist) as Hsub by by apply insert_subseteq.
        split_and!; [by eapply tbl_ok_mono|done|by rewrite lookup_insert_eq|by rewrite (state_of_mono hist)].
      * split_and!; try done; [|intros t' n' l s' [= <- <- <- <-]; done|by intros q ->; left]. intros l [= <-]. by right.
    + apply (Hmove _ _ hist (.= new_loc w)); [congruence|done|done|by apply after_error_ok|].
      split_and!; try done; [by rewrite own_after_error|intros t' n' l s' Hq; by apply after_error_not_written in Hq|by intros q ->; left].
  - apply wp_bind, wp_try. assert (hist !! loc = Some (core s)) as Hloc.
    { destruct result; [by destruct Hp as (_ & ? & _)|by destruct Hp]. }
    assert (own_loc wr = Some loc) as Hown by (unfold own_loc; by rewrite Hphase). assert (given_up order i wr → False) as Hng by (unfold given_up; rewrite Hphase; by intros []).
    eapply wp_mono; [by apply (finish_ok hist)|]. simpl. intros r w' (Hm & Hu & Hoff & Hst' & ->). unfold wp, ret.
    destruct result as [e|rep]; (eapply (Hmove _ _ hist _); [congruence|done|done| |]).
    + destruct Hp as (Ht & _ & Hrec). apply after_error_ok; [done|]. intros He Hin. by rewrite Hrec in He.
    + destruct Hp as (Ht & _ & Hrec). split_and!; [exact Hoff|lia|by rewrite own_after_error|intros t' n' l s' Hq; by apply after_error_not_written in Hq| | |done].
      * intros q [_ ->]. right. left. split; [done|]. intros Hin. by apply in_error_after_error, Hrec.
      * intros Hin _. by apply in_error_after_error, Hrec.
    + by destruct Hp.
    + split_and!; [exact Hoff|lia|done|done|by intros q []| |done]. intros _. unfold in_error. by rewrite Hphase.
  - destruct Hp as [Ht Hni]. apply wp_bind, wp_try. eapply wp_mono; [by eapply refresh_ok|]. simpl.
    intros r w' (HR' & Hst' & Ho & Hu & Hr). assert (given_up order i wr → False) as Hng by (unfold given_up; rewrite Hphase; by intros []).
    destruct r as [t'|e|]; [| |done]; unfold wp, ret; (eapply (Hmove _ _ hist); [done..|by apply file_step_none]).
  - destruct Hp as [Ht Hni]. apply wp_bind. unfold ignore. apply wp_bind, wp_try.
    eapply wp_mono; [by apply (delete_all_ok hist)|]. simpl. intros r w' (-> & Hm & Hu & Hoff & Hst'). unfold wp, ret.
    apply (Hmove _ _ hist (.∈ abort_locs (wr_log wr))); [congruence|done|done|done|]. split_and!; try done; [lia|]. by right; right.
  - apply (Hmove _ _ hist (λ _, False)); [done..|]. apply file_step_none; try done; unfold in_error, given_up; by rewrite Hphase.
  - apply (Hmove _ _ hist (λ _, False)); [done..|]. apply file_step_none; try done. unfold given_up. by rewrite Hphase.
Qed.

(** ** Nothing is lost *)

(** The contents of the table as its files have them. *)
Definition file_state w m : option contents :=
  loc ← meta_loc m; b ← objects (fw_objs w) !! loc; match decode_snapshot loc b with Ok s => Some (core s) | _ => None end.
(** The current snapshot of the table can be read. *)
Definition can_read w m : Prop :=
  ∀ loc, meta_loc m = Some loc → ∃ b s, objects (fw_objs w) !! loc = Some b ∧ decode_snapshot loc b = Ok s.
Lemma can_read_state hist w m : store_ok hist w → known hist m → can_read w m → state_of hist m = file_state w m.
Proof.
  intros Hst Hkn Hrd. unfold state_of, file_state. destruct (meta_loc m) as [loc|] eqn:Hloc; [|done]. simpl.
  destruct (Hrd loc Hloc) as (b & s & Hb & Hd). destruct (Hkn loc Hloc) as [k Hk]. rewrite Hk, Hb. simpl. rewrite Hd. f_equal. symmetry. by eapply (so_objs _ _ Hst).
Qed.
(** Writers that start from the current record of the table; their files are named otherwise than snapshots. *)
Definition started c hist (q : N) m (x : world * list Writer) : Prop :=
  R (fw_meta x.1) c ∧ tb_meta_of c tid = Some (q, m) ∧ (q ≤ c_seq c)%N ∧ store_ok hist x.1 ∧ known hist m ∧ can_read x.1 m ∧
  options m !! OPT_KEY_DATABASE_ID = Some db_id ∧
  ∀ i wr, x.2 !! i = Some wr → (∃ t n, wr_phase wr = Ready t n ∧
    tinfo_ident _ _ (table_info t) = mkTableIdent tid q ∧ meta_of t = m ∧ location_prefix t = prefix) ∧
    ∀ f, f ∈ abort_locs (wr_log wr) → ¬ snap_file f ∧ meta_loc m ≠ Some f.
Lemma started_ok c hist q m w ws :
  started c hist q m (w, ws) → all_ok (objects (fw_objs w)) (meta_loc m) (state_of hist m) (wr_log <$> ws) c hist {[q := m]} [] (w, ws).
Proof.
  intros (HR & Hcur & Hq & Hst & Hkn & _ & Hdb & Hws). split; split; simpl in *.
  - done.
  - done.
  - intros q' m' [<- <-]%lookup_singleton_Some. by split_and!.
  - exists q, m. split_and!; [done|apply lookup_singleton_eq|done].
  - intros i wr Hi. split; [|by rewrite list_lookup_fmap, Hi].
    destruct (Hws i wr Hi) as [(t & n & Hph & Hid & Hm & Hp) _]. unfold phase_ok. rewrite Hph.
    split; [|by apply not_elem_of_nil]. unfold tbl_ok. rewrite Hid, Hm. simpl. split_and!; [done..|apply lookup_singleton_eq|done].
  - by apply NoDup_nil.
  - by intros i ?%elem_of_nil.
  - intros i log f Hi. rewrite list_lookup_fmap in Hi. apply fmap_Some in Hi as (wr & Hi & ->). apply (Hws i wr Hi).
  - intros i wr loc Hi Hl. destruct (Hws i wr Hi) as [(t & n & Hph & _) _]. unfold own_loc in Hl. by rewrite Hph in Hl.
  - intros i j wr wr' loc Hi _ Hl. destruct (Hws i wr Hi) as [(t & n & Hph & _) _]. unfold own_loc in Hl. by rewrite Hph in Hl.
  - intros i wr t n loc s Hi Hp. destruct (Hws i wr Hi) as [(t' & n' & Hph & _) _]. congruence.
  - intros q' m' _ Hm. congruence.
  - intros q' m' loc _ _ _. split; [|by left]. intros j wr Hj Hl. destruct (Hws j wr Hj) as [(t & n & Hph & _) _]. unfold own_loc in Hl. by rewrite Hph in Hl.
  - done.
Qed.
Lemma steps_ok objs0 cur0 init logs c hist metas order n x y :
  all_ok objs0 cur0 init logs c hist metas order x → (c_seq c + N.of_nat n + 4 < u64_modulus)%N → sys_steps catalogs catalog_name tid n x y →
  ∃ c' hist' metas' order', all_ok objs0 cur0 init logs c' hist' metas' order' y ∧ (c_seq c' ≤ c_seq c + N.of_nat n)%N.
Proof.
  intros Hsys Hroom Hsteps. induction Hsteps as [x|n x y z Hsteps IH Hstep].
  { exists c, hist, metas, order. split; [done|lia]. }
  destruct IH as (c1 & h1 & m1 & o1 & Hsys1 & Hseq1); [done|lia|].
  destruct Hstep as [w ws i wr p w' Hi Hw]. pose proof (writer_step_ok objs0 cur0 init logs c1 h1 m1 o1 w ws i wr Hsys1 Hi) as Hok.
  unfold wp in Hok. rewrite Hw in Hok. destruct Hok as (c2 & h2 & m2 & o2 & Hsys2 & Hseq2); [lia|].
  exists c2, h2, m2, o2. split; [done|lia].
Qed.

(** The contents after appends, spelled out. *)
Lemma log_rows_lt log : (log_rows log < u64_modulus)%N.
Proof.
  unfold log_rows. assert (0 < u64_modulus)%N as Hpos by done. revert Hpos. generalize 0%N.
  induction log as [|e log IH]; intros r Hr; simpl; [done|]. apply IH. unfold u64_add. by apply N.mod_lt.
Qed.
Lemma committed_contents init logs :
  match committed init logs with
  | Some (segs, rows) =>
      segs = mjoin (log_segments <$> logs) ++ default [] (fst <$> init) ∧
      rows = foldr (λ log r, u64_add (log_rows log) r) (default 0%N (snd <$> init)) logs
  | None => logs = [] ∧ init = None
  end.
Proof.
  induction logs as [|log logs IH]; simpl.
  - by destruct init as [[]|].
  - destruct (committed init logs) as [[segs rows]|]; simpl.
    + destruct IH as [-> ->]. csimpl. by rewrite app_assoc.
    + destruct IH as [-> ->]. simpl. rewrite !app_nil_r. split; [done|].
      unfold u64_add. rewrite N.add_0_r. symmetry. apply N.mod_small, log_rows_lt.
Qed.

(** The contents [k] are those of [init] after appends, the latest first. *)
Definition appended (init : option contents) (logs : list Log) (k : contents) : Prop :=
  k.1 = mjoin (log_segments <$> logs) ++ default [] (fst <$> init) ∧
  k.2 = foldr (λ log r, u64_add (log_rows log) r) (default 0%N (snd <$> init)) logs.
Lemma committed_appended init logs k : committed init logs = Some k → appended init logs k.
Proof. intros Hk. pose proof (committed_contents init logs) as Hc. rewrite Hk in Hc. by destruct k. Qed.
Lemma committed_none init (ws : list Writer) order :
  committed init (omap (λ i, wr_log <$> ws !! i) order) = None → (∀ i, i ∈ order → is_Some ((wr_log <$> ws) !! i)) → order = [] ∧ init = None.
Proof.
  intros Hk Hin. pose proof (committed_contents init (omap (λ i, wr_log <$> ws !! i) order)) as Hc. rewrite Hk in Hc. destruct Hc as [Hnil ->].
  destruct order as [|i order]; [done|]. destruct (Hin i) as [log Hlog]; [by left|]. rewrite list_lookup_fmap in Hlog. csimpl in Hnil. by rewrite Hlog in Hnil.
Qed.

(** C8: Queries on any nodes append to a table at the same time, in steps that interleave in
    any order, while storage may fail and answers of the meta service may be lost; at the
    start the table can be read.  Then no step panics, and the queries that the meta service
    has committed form one sequence, [order], with all that report success.  The record of
    the table names a snapshot of its contents at the start with the segments of these
    queries in front, the latest first, and their rows.  The file of this snapshot is in the
    store as it was written, unless a committed query was answered with an error
    ([answer_lost]; it then removes the file, see [lost_answer_breaks_table]).  Files that are not snapshots
    are as at the start, but for those of queries that have failed and are not committed.  Whoever reads the
    table, from any node and its cache, gets these contents or an error, which says that
    the snapshot is missing only in the case of [answer_lost]. *)
Theorem commits_are_serial c hist q m n w ws w' ws' :
  started c hist q m (w, ws) → (c_seq c + N.of_nat n + 4 < u64_modulus)%N →
  sys_steps catalogs catalog_name tid n (w, ws) (w', ws') →
  (∀ i wr, ws' !! i = Some wr →
    is_ok (writer_step catalogs catalog_name tid (wr_ctx wr) (wr_log wr) (wr_phase wr) w').1 = true) ∧
  ∃ order c' q' m', let logs := omap (λ i, wr_log <$> ws !! i) order in NoDup order ∧
    (∀ i wr, ws' !! i = Some wr → wr_phase wr = Done → i ∈ order) ∧
    (∀ i wr, ws' !! i = Some wr → i ∈ order → match wr_phase wr with Answered _ _ _ _ _ | Done | Failed _ => True | _ => False end) ∧
    R (fw_meta w') c' ∧ tb_meta_of c' tid = Some (q', m') ∧
    (¬ answer_lost order ws' →
      match meta_loc m' with
      | Some loc =>
          order = [] ∧ meta_loc m = Some loc ∧ objects (fw_objs w') !! loc = objects (fw_objs w) !! loc ∨
          ∃ s, holds w' loc s ∧ appended (file_state w m) logs (core s)
      | None => order = [] ∧ meta_loc m = None
      end) ∧
    (∀ f, ¬ snap_file f → (∀ i wr, ws' !! i = Some wr → f ∈ abort_locs (wr_log wr) → ¬ given_up order i wr) →
      objects (fw_objs w') !! f = objects (fw_objs w) !! f) ∧
    ∀ ctx t, meta_of t = m' →
      wp (read_table_snapshot ctx t) (λ r _,
        match r with
        | Ok (Some s) => appended (file_state w m) logs (core s)
        | Ok None => order = [] ∧ file_state w m = None
        | Err e => missing e = true → answer_lost order ws'
        | Panic => False
        end) w'.
Proof.
  intros Hst Hroom Hsteps. pose proof Hst as (_ & Hcur0 & _ & Hs0 & Hkn0 & Hrd0 & _). simpl in Hs0, Hrd0.
  pose proof (can_read_state hist w m Hs0 Hkn0 Hrd0) as Hfs. apply started_ok in Hst. rewrite Hfs in Hst.
  destruct (steps_ok _ _ _ _ _ _ _ _ n _ (w', ws') Hst) as (c' & hist' & metas' & order & Hall & Hseq); [lia|exact Hsteps|]. split.
  { intros i wr Hi. pose proof (writer_step_ok _ _ _ _ _ _ _ _ _ _ i wr Hall Hi) as Hok. unfold wp in Hok.
    destruct (writer_step _ _ _ _ _ _ w') as [[p|e|] w2]; [done|..]; destruct Hok; lia. }
  destruct Hall as [[HR Hs Hmt (q' & m' & Hcur & Hq' & Hstate) Hph Hnd Hrg] [_ _ _ _ Hfirst Hfile Hfiles]]. simpl in *.
  assert (omap ((wr_log <$> ws) !!.) order = omap (λ i, wr_log <$> ws !! i) order) as Heq.
  { clear. induction order as [|i order IH]; csimpl; [done|]. by rewrite list_lookup_fmap, IH. }
  rewrite Heq in Hstate. exists order, c', q', m'. split_and!; [done| | |done|done| |done|].
  - intros i wr Hi Hd. destruct (Hph i wr Hi) as [Hp _]. unfold phase_ok in Hp. by rewrite Hd in Hp.
  - intros i wr Hi Hin. destruct (Hph i wr Hi) as [Hp _]. unfold phase_ok in Hp. by destruct (wr_phase wr); try tauto.
  - intros Hnl. destruct (meta_loc m') as [loc|] eqn:Hloc.
    + destruct (Hfile q' m' loc Hnl Hcur Hloc) as [_ [[Ho Hb]|(_ & s & Hh & Hc)]]; [left|right].
      * split_and!; [done| |done]. by rewrite <-(Hfirst q' m' Ho Hcur).
      * exists s. split; [done|]. apply committed_appended. rewrite <-Hstate. unfold state_of. by rewrite Hloc.
    + destruct (committed_none (file_state w m) ws order) as [Ho _]; [|done|split; [done|by rewrite <-(Hfirst q' m' Ho Hcur)]].
      rewrite <-Hstate. unfold state_of. by rewrite Hloc.
  - intros ctx t <-. eapply wp_mono; [apply (read_table_ok hist'); [done|by destruct (Hmt _ _ Hq') as (_ & ? & _)]|].
    simpl. intros [o|e|] w2 (_ & _ & Ho); [|..|done].
    + rewrite Hstate in Ho. destruct o as [s|]; simpl in Ho; [by apply committed_appended|]. by apply (committed_none (file_state w m) ws).
    + intros He. destruct (Ho He) as (loc & Hloc & Hnone). destruct (decide (answer_lost order ws')) as [|Hnl]; [done|].
      destruct (Hfile q' _ loc Hnl Hcur Hloc) as [_ [[Hnil Hb]|(_ & s & (b & _ & Hb) & _)]]; [|congruence].
      destruct (Hrd0 loc) as (b & s & Hb0 & _); [by rewrite <-(Hfirst q' _ Hnil Hcur)|congruence].
Qed.

(** ** A lost answer *)
Section lost.
Context `{!OperatorQuiet Obj objects}.

Lemma delete_gone loc w :
  ∃ o, objM (dal_delete loc) w = (Ok tt, mkFuse (fw_meta w) o (fw_snapshots w) (fw_segments w) (fw_uuids w) (fw_progress w)) ∧
    objects o !! loc = None.
Proof.
  unfold objM. pose proof (delete_ok loc (fw_objs w)) as Hd. pose proof (delete_quiet loc (fw_objs w)) as Hq.
  destruct (dal_delete loc (fw_objs w)) as [[[]|e|] o]; try done. exists o. by destruct Hd.
Qed.
(** Reading a snapshot that is gone, on a node without a cache. *)
Lemma read_gone ctx t loc w :
  meta_loc (meta_of t) = Some loc → objects (fw_objs w) !! loc = None → fw_snapshots w !! qc_node ctx = None →
  ∃ e, (read_table_snapshot ctx t w).1 = Err e ∧ has_code e Exc.StorageNotFound = true.
Proof.
  intros Hloc Hgone Hcache. unfold read_table_snapshot, snapshot_format_version.
  replace (snapshot_loc t) with (meta_loc (meta_of t)) by done. rewrite Hloc.
  unfold read_snapshot, cached_read, get_snapshot_cache, stateM, bind. rewrite Hcache.
  unfold load_snapshot, bind, lift. assert (∃ v, SnapshotVersion_try_from (snaphost_version loc) = Ok v) as [v ->].
  { unfold snaphost_version. destruct (ends_with _ _); eauto. }
  unfold buf_reader, bind, objM. destruct (metadata_absent loc (fw_objs w) Hgone) as (e & He & Hk).
  destruct (dal_metadata loc (fw_objs w)) as [r o]. simpl in He. subst r. eexists. split; [done|].
  unfold ErrorCode_from_io. rewrite Hk. done.
Qed.

(** C40: When the meta service has moved the table to the new snapshot but its answer is
    lost, the query removes that snapshot again: it reports the error, and from then on the
    table cannot be read, although nothing failed in the storage and all its data are
    still there. *)
Theorem lost_answer_breaks_table ctx t log w loc s w1 c e mw :
  prepare_commit ctx t log false w = (Ok (loc, s), w1) →
  ti_table_id (tinfo_ident _ _ (table_info t)) = tid → tb_meta_of c tid = Some (seq_of t, meta_of t) →
  c_upsert_table_option cat (commit_req (table_info t) loc) (fw_meta w1) = (Err e, mw) →
  R mw (spec_upsert_table_option c (commit_req (table_info t) loc)).2 →
  ∃ w' q' m', try_commit catalogs ctx catalog_name t log false w = (Err e, w') ∧
    R (fw_meta w') (spec_upsert_table_option c (commit_req (table_info t) loc)).2 ∧
    tb_meta_of (spec_upsert_table_option c (commit_req (table_info t) loc)).2 tid = Some (q', m') ∧
    ∀ ctx' t', meta_of t' = m' → fw_snapshots w1 !! qc_node ctx' = None →
      ∃ e', (read_table_snapshot ctx' t' w').1 = Err e' ∧ has_code e' Exc.StorageNotFound = true.
Proof.
  intros Hprep Hid Hcur Hup HR. assert ((spec_upsert_table_option c (commit_req (table_info t) loc)).1 = Ok mkUpsertTableOptionReply) as Hok.
  { unfold spec_upsert_table_option. simpl. by rewrite Hid, Hcur, N.eqb_refl. }
  destruct (upsert_commit c t loc _ _ Hcur Hid Hok) as (_ & m' & Hm' & _ & Hloc & _).
  set (w2 := mkFuse mw (fw_objs w1) (fw_snapshots w1) (fw_segments w1) (fw_uuids w1) (fw_progress w1)).
  destruct (delete_gone loc w2) as (o & Hdel & Hgone).
  exists (mkFuse mw o (fw_snapshots w1) (fw_segments w1) (fw_uuids w1) (fw_progress w1)), (c_seq c + 1)%N, m'.
  split_and!; [|done|done|].
  - unfold try_commit. rewrite (bind_ok _ _ _ _ _ Hprep).
    assert (tryM (F:=ErrorCode) (commit_to_meta_server catalogs catalog_name (table_info t) loc) w1 = (Ok (inl e), w2)) as Hmeta.
    { unfold tryM, commit_to_meta_server, get_catalog, bind, lift. rewrite catalog_there. simpl. unfold catM. by rewrite Hup. }
    rewrite (bind_ok _ _ _ _ _ Hmeta). unfold finish_commit, ignore, bind, tryM. rewrite Hdel. done.
  - intros ctx' t' Ht Hcache. apply (read_gone ctx' t' loc); [by rewrite Ht|done..].
Qed.

(** ** Nothing in the way *)

(** The meta service answers as specified, and knows the table as a fuse table. *)
Class TableCatalogQuiet : Prop := {
  tq_upsert req (mw : W) c :
    R mw c → (c_seq c + 4 < u64_modulus)%N → uto_table_id req = tid →
    (c_upsert_table_option cat req mw).1 = map_err ErrorCode_from_meta (spec_upsert_table_option c req).1;
}.
Context `{!TableCatalogQuiet} (to_json_ok : ∀ s, is_ok (to_json s) = true).

Lemma buf_reader_quiet path b w :
  objects (fw_objs w) !! path = Some b → (buf_reader path None w).1 = Ok b.
Proof.
  intros Hb. pose proof (buf_reader_ok objects path w) as Hok. unfold wp in Hok. unfold buf_reader, bind, objM in *.
  pose proof (metadata_ok path (fw_objs w)) as Hm. pose proof (metadata_quiet path (fw_objs w)) as Hq.
  destruct (dal_metadata path (fw_objs w)) as [[n|e|] o]; simpl in *; [|by rewrite Hb in Hq; discriminate Hq..].
  destruct Hm as [Ho _]. pose proof (read_quiet path n o) as Hr. rewrite Ho, Hb in Hr.
  destruct (dal_read path n o) as [[x|e|] o']; simpl in *; [|by discriminate Hr..].
  destruct Hok as (_ & _ & _ & Hx). congruence.
Qed.
Lemma read_snapshot_quiet node loc b s w :
  objects (fw_objs w) !! loc = Some b → decode_snapshot loc b = Ok s → snapshots_cached (λ _ _, True) w →
  is_ok (read_snapshot node loc (snaphost_version loc) w).1 = true.
Proof.
  intros Hb Hd Hc.
  assert (∀ w1, objects (fw_objs w1) = objects (fw_objs w) → ∃ w2, load_snapshot loc None (snaphost_version loc) w1 = (Ok s, w2)) as Hload.
  { intros w1 Hw1. unfold load_snapshot, bind, lift. unfold decode_snapshot in Hd.
    destruct (SnapshotVersion_try_from _) as [v|e|]; [|done..]. simpl in Hd.
    pose proof (buf_reader_quiet loc b w1) as Hr. rewrite Hw1 in Hr. specialize (Hr Hb).
    destruct (buf_reader loc None w1) as [r w2]. simpl in Hr. subst r. rewrite Hd. eauto. }
  unfold read_snapshot, cached_read, bind, get_snapshot_cache, stateM.
  destruct (fw_snapshots w !! node) as [cache|] eqn:Hcache; [|by destruct (Hload w eq_refl) as [w2 ->]].
  destruct (cached_get (λ _ _, True) cache loc (Hc _ _ Hcache)) as [Hc' _].
  destruct (lru_get cache loc) as [[s'|] cache']; [done|]. unfold set_snapshot_cache at 1, stateM.
  edestruct Hload as [w2 Hw2]; [|rewrite Hw2]; [done|]. unfold lift.
  destruct (cached_put (λ _ _, True) cache' loc s Hc' I) as (o & c2 & -> & _). done.
Qed.
Lemma read_table_quiet hist ctx t w : store_ok hist w → can_read w (meta_of t) → is_ok (read_table_snapshot ctx t w).1 = true.
Proof.
  intros Hst Hrd. unfold read_table_snapshot, snapshot_format_version. replace (snapshot_loc t) with (meta_loc (meta_of t)) by done.
  destruct (meta_loc (meta_of t)) as [loc|] eqn:Hloc; [|done]. destruct (Hrd loc Hloc) as (b & s & Hb & Hd).
  assert (snapshots_cached (λ _ _, True) w) as Hc.
  { intros node cache Hca. eapply cached_mono; [apply (so_caches _ _ Hst _ _ Hca)|done]. }
  pose proof (read_snapshot_quiet (qc_node ctx) loc b s w Hb Hd Hc) as Hq. unfold bind.
  by destruct (read_snapshot _ _ _ w) as [[]].
Qed.
Lemma prepare_quiet hist ctx t log w :
  store_ok hist w → known hist (meta_of t) → location_prefix t = prefix → can_read w (meta_of t) →
  is_ok (prepare_commit ctx t log false w).1 = true.
Proof.
  intros Hst Hkn Hpre Hrd. unfold prepare_commit.
  pose proof (read_table_ok hist ctx t w Hst Hkn) as Hr. unfold wp in Hr. pose proof (read_table_quiet hist ctx t w Hst Hrd) as Hok.
  destruct (read_table_snapshot ctx t w) as [[prev|e|] w1] eqn:Hread; [|done..]. rewrite (bind_ok _ _ _ _ _ Hread).
  unfold bind at 1, lift at 1, merge_append_operations.
  destruct (merge_append_rows (E:=ErrorCode) log Statistics_default []) as (summary & -> & Hrows).
  unfold bind at 1, incr_progress, stateM. destruct (default _ _) as [pr pb]. simpl. set (w2 := mkFuse _ _ _ _ _ _).
  rewrite <-list_fmap_compose. change (_ <$> log) with (log_segments log).
  destruct (merge_table_ok (schema (meta_of t)) prev (snapshot_format_version t) log summary w2 Hrows) as (s & Hs & _ & _).
  rewrite (bind_ok _ _ _ _ _ Hs). unfold snapshot_location_from_uuid, bind, lift. simpl.
  specialize (to_json_ok s). destruct (to_json s) as [b|e|]; [|done..]. simpl. unfold objM. simpl.
  set (loc := snapshot_location _ _ _). pose proof (write_quiet loc b (fw_objs w1)) as Hw.
  by destruct (dal_write loc b (fw_objs w1)) as [[]].
Qed.

(** C10: A query that appends to a table whose record it knows, with nothing else going on,
    succeeds at the first attempt.  The record of the table then has the next version and
    names a file that holds the new snapshot, with the new segments in front of the old
    contents; no other file has changed.  If serde_json reads what it wrote there, then whoever reads
    the table, from any node and its cache, gets these contents. *)
Theorem commit_alone c hist fuel ctx t log w :
  R (fw_meta w) c → (c_seq c + 4 < u64_modulus)%N → store_ok hist w →
  ti_table_id (tinfo_ident _ _ (table_info t)) = tid → tb_meta_of c tid = Some (seq_of t, meta_of t) →
  known hist (meta_of t) → location_prefix t = prefix → can_read w (meta_of t) →
  ∃ w' c' m' loc s b, do_commit catalogs (S fuel) ctx catalog_name t log false w = (Ok (Some tt), w') ∧
    R (fw_meta w') c' ∧ tb_meta_of c' tid = Some ((c_seq c + 1)%N, m') ∧ meta_loc m' = Some loc ∧
    to_json s = Ok b ∧ objects (fw_objs w') !! loc = Some b ∧ core s = append_log log (file_state w (meta_of t)) ∧
    (∀ q, q ≠ loc → objects (fw_objs w') !! q = objects (fw_objs w) !! q) ∧
    (is_ok (of_json (T:=Snapshot) b) = true → ∀ ctx' t', meta_of t' = m' →
      ∃ s', (read_table_snapshot ctx' t' w').1 = Ok (Some s') ∧ core s' = core s).
Proof.
  intros HR Hroom Hst Hid Hcur Hkn Hpre Hrd.
  pose proof (prepare_ok hist ctx t log w Hst Hkn Hpre) as Hprep. pose proof (prepare_quiet hist ctx t log w Hst Hkn Hpre Hrd) as Hq.
  unfold wp in Hprep. destruct (prepare_commit ctx t log false w) as [[[loc s]|e|] w1] eqn:Hrun; [|done..].
  destruct Hprep as (Hm1 & Hoff1 & _ & Hnl & _ & (b & Hb & Hobj) & _ & Hst1 & Hcore). rewrite (can_read_state hist w) in Hcore by done.
  set (req := commit_req (table_info t) loc). rewrite <-Hm1 in HR.
  assert ((spec_upsert_table_option c req).1 = Ok mkUpsertTableOptionReply) as Hok.
  { unfold spec_upsert_table_option. simpl. by rewrite Hid, Hcur, N.eqb_refl. }
  destruct (upsert_commit c t loc _ _ Hcur Hid Hok) as (_ & m' & Hm' & _ & Hloc & _).
  pose proof (tc_upsert req (fw_meta w1) c HR Hroom Hid) as Hup. pose proof (tq_upsert req (fw_meta w1) c HR Hroom Hid) as Hans.
  unfold wp in Hup. rewrite Hok in Hans. destruct (c_upsert_table_option cat req (fw_meta w1)) as [r mw] eqn:Hcall.
  simpl in Hans. subst r. destruct Hup as [_ HR']. set (w2 := mkFuse mw (fw_objs w1) (fw_snapshots w1) (fw_segments w1) (fw_uuids w1) (fw_progress w1)).
  assert (tryM (F:=ErrorCode) (commit_to_meta_server catalogs catalog_name (table_info t) loc) w1 = (Ok (inr mkUpsertTableOptionReply), w2)) as Hmeta.
  { unfold tryM, commit_to_meta_server, get_catalog, bind, lift. rewrite catalog_there. simpl. unfold catM. fold req. by rewrite Hcall. }
  pose proof (finish_ok (<[loc:=core s]> hist) ctx loc s (inr mkUpsertTableOptionReply) w2) as Hfin. unfold wp in Hfin.
  destruct (finish_commit ctx loc s (inr mkUpsertTableOptionReply) w2) as [r w3] eqn:Hf.
  destruct Hfin as (Hm3 & _ & Hoff3 & Hst3 & ->); [by apply (store_ok_same _ w1)|by rewrite lookup_insert_eq|].
  assert (∀ q, objects (fw_objs w3) !! q = objects (fw_objs w1) !! q) as Hobjs3 by (intros q; apply Hoff3; by intros []).
  exists w3, (spec_upsert_table_option c req).2, m', loc, s, b. split_and!; [|by rewrite Hm3|done|done|done|by rewrite Hobjs3|done|..].
  - unfold do_commit. simpl. unfold bind at 1, tryM, try_commit. rewrite (bind_ok _ _ _ _ _ Hrun), (bind_ok _ _ _ _ _ Hmeta), Hf. done.
  - intros q Hne. rewrite Hobjs3. apply Hoff1. congruence.
  - intros Hjs ctx' t' Ht'.
    assert (known (<[loc:=core s]> hist) (meta_of t')) as Hkn' by (intros l; rewrite Ht', Hloc; intros [= <-]; by rewrite lookup_insert_eq).
    assert (can_read w3 (meta_of t')) as Hrd'.
    { intros l. rewrite Ht', Hloc. intros [= <-]. destruct (of_json (T:=Snapshot) b) as [s'|e|] eqn:Hs'; [|done..]. exists b, s'. split; [by rewrite Hobjs3|].
      unfold decode_snapshot. rewrite Hnl. unfold new_loc. rewrite snapshot_location_version. simpl. by rewrite Hs'. }
    pose proof (read_table_ok _ ctx' t' w3 Hst3 Hkn') as Hr. pose proof (read_table_quiet _ ctx' t' w3 Hst3 Hrd') as Hq'. unfold wp in Hr.
    destruct (read_table_snapshot ctx' t' w3) as [[o|e|] w4]; [|done..]. destruct Hr as (_ & _ & Ho).
    unfold state_of in Ho. rewrite Ht', Hloc in Ho. simpl in Ho. rewrite lookup_insert_eq in Ho. destruct o as [s'|]; [|done]. apply (inj Some) in Ho. by exists s'.
Qed.
End lost.
End store.
