(* ===== verification/CatalogProps.v ===== *)
(** * The catalogs of a query node: what they show and what they hide.

    The lower layer is proved against the contract [SchemaTraitLaws] of the schema API, and
    SchemaApi.v is shown to fulfil it. *)
From S2P Require Import Prelude MetaTypes KvApi KeyCodec SchemaApi SchemaSpec SchemaOps SchemaList SchemaInv SchemaProps.
From S2P Require Import Exception Catalog.

(** ** The contract of the schema API *)
Section contract.
Context {W DateTime DataSchema : Type}.
Abbreviation catalog := (cat DateTime DataSchema).

(** The operations that write, with tagged answers. *)
Definition api_run `{!SchemaTrait W DateTime DataSchema} (o : SchemaOp DateTime DataSchema) : M W MetaError SchemaReply :=
  match o with
  | OpCreateDatabase req => let! r := api_create_database req in ret (ReCreateDatabase r)
  | OpDropDatabase req => let! r := api_drop_database req in ret (ReDropDatabase r)
  | OpRenameDatabase req => let! r := api_rename_database req in ret (ReRenameDatabase r)
  | OpCreateTable req => let! r := api_create_table req in ret (ReCreateTable r)
  | OpDropTable req => let! r := api_drop_table req in ret (ReDropTable r)
  | OpRenameTable req => let! r := api_rename_table req in ret (ReRenameTable r)
  | OpUpsertTableOption req => let! r := api_upsert_table_option req in ret (ReUpsertTableOption r)
  end.

Class SchemaTraitLaws `{!SchemaTrait W DateTime DataSchema} (R : W → catalog → Prop)
    (accepts : SchemaOp DateTime DataSchema → Prop) : Prop := {
  sl_run o c : accepts o → (c_seq c + 4 < u64_modulus)%N → runs R (api_run o) c (spec_run c o).1 (spec_run c o).2;
  sl_get_database req c : runs R (api_get_database req) c (spec_get_database c req) c;
  sl_list_databases req c : runs R (api_list_databases req) c (Ok (spec_list_databases c req)) c;
  sl_get_table req c : runs R (api_get_table req) c (spec_get_table c req) c;
  sl_list_tables req c : runs R (api_list_tables req) c (spec_list_tables c req) c;
  sl_get_table_by_id i c : runs R (api_get_table_by_id i) c (spec_get_table_by_id c i) c;
}.
End contract.

(** SchemaApi.v fulfils it, on every key-value store with the contract of the interface. *)
Section implementation.
Context {W : Type} `{!KVApi W, !Clock, !ClockLaws} (R : W → kv_store → Prop) `{!KVApiLaws W R}.
Context `{!MetaCodec, !MetaCodecLaws} {DateTime DataSchema PbDb PbTb : Type}.
Context `{StructLaws PbDb (DatabaseMeta DateTime), StructLaws PbTb (TableMeta DateTime DataSchema)}.
Abbreviation catR := (cat_of R (PbDb:=PbDb) (PbTb:=PbTb)).
Hypothesis storable_options : ∀ m opts, storable (PB:=PbTb) m → storable (PB:=PbTb) (set_options m opts).

Lemma schema_api_laws fuel :
  @SchemaTraitLaws W DateTime DataSchema (schema_api (PbDb:=PbDb) (PbTb:=PbTb) (S fuel)) catR
    (op_wf (PbDb:=PbDb) (PbTb:=PbTb)).
Proof.
  split.
  - intros o c Ho Hroom w Hw.
    destruct (runs_run_op R (PbDb:=PbDb) (PbTb:=PbTb) storable_options fuel o c Ho Hroom w Hw) as (w' & Hrun & Hw').
    exists w'. split; [|done]. destruct o; simpl in *; unfold tag, looped, bind, ret, lift in *;
      match type of Hrun with context [match ?m with _ => _ end] => destruct m as [[[a|]|e|] w1] end;
      match type of Hrun with context [res_map Some (res_map _ ?x)] => destruct x end; simplify_eq/=; congruence.
  - intros req c. apply (runs_get_database R (PbTb:=PbTb)).
  - intros req c. apply (runs_list_databases R (PbTb:=PbTb)).
  - intros req c. apply (runs_get_table R (PbDb:=PbDb)).
  - intros req c. apply (runs_list_tables R (PbDb:=PbDb)).
  - intros req c. apply (runs_get_table_by_id R (PbDb:=PbDb)).
Qed.
End implementation.

(** ** The default catalog *)
Section catalogs.
Context {W DateTime DataSchema T : Type} `{!SchemaTrait W DateTime DataSchema, !Capture, !ToUppercase, !ToUppercaseLaws}.
Context (info_of : T → TableInfo DateTime DataSchema) (debug_req : UpsertTableOptionReq → string).
Context (R : W → cat DateTime DataSchema → Prop) (accepts : SchemaOp DateTime DataSchema → Prop).
Context `{!SchemaTraitLaws R accepts}.
Context (im : ImmutableCatalog DateTime T) (mc : MutableCatalog W DateTime DataSchema T).
Abbreviation catalog := (cat DateTime DataSchema).
Abbreviation upper := (immutable_catalog (W:=W) info_of debug_req im).
Abbreviation lower := (mutable_catalog mc).
Abbreviation dc := (database_catalog upper lower).
Implicit Types c : catalog.

Lemma has_code_exc k msg : has_code (exc k msg) k = true.
Proof. unfold has_code. apply N.eqb_refl. Qed.
Lemma runs_try_catch {E F A} (m : M W E A) c r c' :
  runs R m c r c' →
  runs R (tryM (F:=F) m) c (match r with Ok a => Ok (inr a) | Err e => Ok (inl e) | Panic => Panic end) c'.
Proof.
  intros Hm w Hw. destruct (Hm w Hw) as (w' & Heq & Hw'). exists w'. split; [|done]. unfold tryM. rewrite Heq. by destruct r.
Qed.
Lemma runs_layered_up {A} k (up lo : M W ErrorCode A) c a :
  runs R up c (Ok a) c → runs R (layered k up lo) c (Ok a) c.
Proof. intros Hup. eapply runs_bind; [by apply (runs_try_catch _ _ _ _ Hup)|]. apply runs_ret. Qed.
Lemma runs_layered_down {A} k (up lo : M W ErrorCode A) c e r c' :
  runs R up c (Err e) c → has_code e k = true → runs R lo c r c' → runs R (layered k up lo) c r c'.
Proof.
  intros Hup He Hlo. eapply runs_bind; [by apply (runs_try_catch _ _ _ _ Hup)|]. simpl. by rewrite He.
Qed.
Lemma runs_with_tenant {A} tenant what (m : M W ErrorCode A) c r c' :
  tenant ≠ "" → runs R m c r c' → runs R (with_tenant tenant what m) c r c'.
Proof. intros Ht. unfold with_tenant. by rewrite bool_decide_false. Qed.
Lemma runs_metaM {A} (m : M W MetaError A) c r c' :
  runs R m c r c' → runs R (metaM m) c (map_err ErrorCode_from_meta r) c'.
Proof. apply runs_map_err. Qed.

(** Names that the system databases answer to. *)
Definition reserved (name : string) : bool := bool_decide (name = "system") || is_case_insensitive_db name.
Lemma upper_info : to_uppercase "INFORMATION_SCHEMA" = "INFORMATION_SCHEMA".
Proof. by rewrite upper_ascii. Qed.
Lemma reserved_exact name : reserved name = false → name ≠ "system" ∧ name ≠ "INFORMATION_SCHEMA".
Proof.
  unfold reserved, is_case_insensitive_db. intros [Hs Hi]%orb_false_iff. apply bool_decide_eq_false in Hs, Hi.
  split; [done|]. intros ->. by rewrite upper_info in Hi.
Qed.
Lemma exists_upper tenant name c :
  runs R (exists_database upper tenant name) c
    (Ok (bool_decide (name = "system") || bool_decide (name = "INFORMATION_SCHEMA"))) c.
Proof.
  unfold exists_database. simpl. unfold im_get_database.
  case_bool_decide; [eapply runs_bind; [apply (runs_try_catch _ _ _ _ (runs_ret R _ _))|apply runs_ret]|].
  case_bool_decide; [eapply runs_bind; [apply (runs_try_catch _ _ _ _ (runs_ret R _ _))|apply runs_ret]|].
  eapply runs_bind; [apply (runs_try_catch _ _ _ _ (runs_throw R _ _))|]. apply runs_ret.
Qed.

(** The database that a name stands for. *)
Definition spec_database c (tenant name : string) : res ErrorCode (Database DateTime) :=
  if bool_decide (name = "system") then Ok (SystemDatabase (sys_db im))
  else if is_case_insensitive_db name then Ok (InformationSchemaDatabase (info_schema_db im))
  else
    let? db_info := map_err ErrorCode_from_meta (spec_get_database c (mkGetDatabaseReq (mkDatabaseNameIdent tenant name))) in
    build_db_instance mc db_info.
Lemma lower_get_database tenant name c :
  runs R (c_get_database lower tenant name) c
    (let? db_info := map_err ErrorCode_from_meta (spec_get_database c (mkGetDatabaseReq (mkDatabaseNameIdent tenant name))) in
     build_db_instance mc db_info) c.
Proof.
  simpl. pose proof (runs_metaM _ _ _ _ (sl_get_database (mkGetDatabaseReq (mkDatabaseNameIdent tenant name)) c)) as Hget.
  destruct (spec_get_database c _) as [i|e|] eqn:Hs; simpl in *.
  - eapply runs_bind; [done|apply runs_lift].
  - by eapply runs_bind_err.
  - unfold spec_get_database in Hs. by destruct (db_of c _) as [[[]]|].
Qed.
Lemma get_database_runs tenant name c :
  tenant ≠ "" → runs R (c_get_database dc tenant name) c (spec_database c tenant name) c.
Proof.
  intros Ht. apply runs_with_tenant; [done|]. unfold spec_database, db_name_of. simpl.
  destruct (is_case_insensitive_db name) eqn:Hci.
  - pose proof Hci as Hup. unfold is_case_insensitive_db in Hup. apply bool_decide_eq_true in Hup. rewrite Hup.
    rewrite (bool_decide_false (name = "system")).
    2: { intros ->. by rewrite upper_ascii in Hup. }
    apply runs_layered_up. unfold im_get_database. rewrite bool_decide_false, bool_decide_true by done. apply runs_ret.
  - case_bool_decide as Hs; [subst; apply runs_layered_up; apply runs_ret|].
    eapply runs_layered_down; [|apply has_code_exc|apply lower_get_database].
    destruct (reserved_exact name) as [_ Hi]; [unfold reserved; by rewrite bool_decide_false, Hci|].
    unfold im_get_database. rewrite !bool_decide_false by done. apply runs_throw.
Qed.

(** ** Creating databases *)
Lemma runs_untag {A B} (f : A → B) (m : M W MetaError A) c x c' :
  (∀ a b, f a = f b → a = b) → runs R (let! r := m in ret (f r)) c (res_map f x) c' → runs R m c x c'.
Proof.
  intros Hf Hm w Hw. destruct (Hm w Hw) as (w' & Heq & Hw'). exists w'. split; [|done]. unfold bind, ret in Heq.
  destruct (m w) as [[a|e|] w1], x; simplify_eq/=; try done. do 2 f_equal. apply Hf. congruence.
Qed.
Lemma runs_api_create req c :
  accepts (OpCreateDatabase req) → (c_seq c + 4 < u64_modulus)%N →
  runs R (api_create_database req) c (spec_create_database c req).1 (spec_create_database c req).2.
Proof.
  intros Ha Hroom. apply (runs_untag ReCreateDatabase); [congruence|].
  exact (sl_run (OpCreateDatabase req) c Ha Hroom).
Qed.
Abbreviation new_info c req := (mkDatabaseInfo (mkDatabaseIdent (c_seq c + 1) 0) (cd_name_ident req) (cd_meta req)).

Lemma create_database_runs req c :
  tenant (cd_name_ident req) ≠ "" → db_name (cd_name_ident req) ≠ "system" →
  db_name (cd_name_ident req) ≠ "INFORMATION_SCHEMA" → accepts (OpCreateDatabase req) →
  (c_seq c + 4 < u64_modulus)%N → id_of c (KDatabase (cd_name_ident req)) = None →
  (∀ i, build_db_instance mc (new_info c req) ≠ Ok (GithubDatabase i)) →
  runs R (c_create_database dc req) c
    (res_map (λ _, mkCreateDatabaseReply (c_seq c + 1)) (build_db_instance mc (new_info c req)))
    (spec_create_database c req).2.
Proof.
  intros Ht Hn1 Hn2 Ha Hroom Hnew Hgh. apply runs_with_tenant; [done|].
  eapply runs_bind; [apply exists_upper|]. rewrite !bool_decide_false by done. simpl. unfold mc_create_database.
  pose proof (runs_metaM _ _ _ _ (runs_api_create req c Ha Hroom)) as Hcreate.
  assert ((spec_create_database c req).1 = Ok (mkCreateDatabaseReply (c_seq c + 1))) as Hok.
  { unfold spec_create_database. by rewrite Hnew. }
  rewrite Hok in Hcreate. eapply runs_bind; [exact Hcreate|]. simpl cdr_db_id.
  destruct (build_db_instance mc (new_info c req)) as [db|e|] eqn:Hb; simpl.
  - eapply runs_bind; [apply runs_lift|]. eapply runs_bind; [|apply runs_ret].
    destruct db; try apply runs_ret. by destruct (Hgh db_info).
  - apply runs_bind_err, runs_lift.
  - intros w Hw. by exists w.
Qed.
Lemma created_db req c :
  id_of c (KDatabase (cd_name_ident req)) = None →
  db_of (spec_create_database c req).2 (cd_name_ident req) = Some ((c_seq c + 1)%N, (c_seq c + 3)%N, cd_meta req).
Proof.
  intros Hnew. unfold spec_create_database. rewrite Hnew. unfold db_of, id_of, db_meta_of, cat_put. simpl.
  rewrite lookup_insert_ne, lookup_insert_eq by done. rewrite lookup_insert_eq. do 3 f_equal. lia.
Qed.

(** The factory by engine name. *)
Definition known_engine (e : string) : Prop :=
  is_Some (database_factory mc !! (if bool_decide (e = "") then "DEFAULT" else to_uppercase e)).
Lemma unknown_engine_error i :
  ¬ known_engine (db_engine (dbinfo_meta _ i)) →
  ∃ e, build_db_instance mc i = Err e ∧ has_code e Exc.UnknownDatabaseEngine = true.
Proof.
  unfold known_engine, build_db_instance, df_get_database. intros Hne.
  destruct (database_factory mc !! _); [by destruct Hne|]. eexists. split; [done|apply has_code_exc].
Qed.
Lemma res_mapM_err {E A B} (f : A → res E B) (P : E → Prop) l x :
  (∀ y, match f y with Ok _ => True | Err e => P e | Panic => False end) → x ∈ l → is_ok (f x) = false →
  ∃ e, res_mapM f l = Err e ∧ P e.
Proof.
  intros Hf Hx Hbad. induction l as [|y l IH]; [by apply elem_of_nil in Hx|]. simpl. pose proof (Hf y) as Hy.
  destruct (f y) as [b|e|] eqn:Hfy; simpl; [|eauto|done]. apply elem_of_cons in Hx as [->|Hx]; [by rewrite Hfy in Hbad|].
  destruct (IH Hx) as (e & -> & He). simpl. eauto.
Qed.

(** A database with an engine that the node does not know is created all the same: the
    statement fails with an error, but the database is there, and from then on listing the
    databases of the tenant fails for everyone. *)
Theorem unknown_engine_breaks_list req c :
  tenant (cd_name_ident req) ≠ "" → reserved (db_name (cd_name_ident req)) = false →
  accepts (OpCreateDatabase req) → (c_seq c + 4 < u64_modulus)%N → id_of c (KDatabase (cd_name_ident req)) = None →
  (∀ k f i, database_factory mc !! k = Some f → is_ok (f i) = true) → ¬ known_engine (db_engine (cd_meta req)) →
  ∃ c' e e', runs R (c_create_database dc req) c (Err e) c' ∧ has_code e Exc.UnknownDatabaseEngine = true ∧
    db_of c' (cd_name_ident req) = Some ((c_seq c + 1)%N, (c_seq c + 3)%N, cd_meta req) ∧
    runs R (c_list_databases dc (tenant (cd_name_ident req))) c' (Err e') c' ∧ has_code e' Exc.UnknownDatabaseEngine = true.
Proof.
  intros Ht Hres Ha Hroom Hnew Hfac Hne. destruct (reserved_exact _ Hres) as [Hn1 Hn2].
  destruct (unknown_engine_error (new_info c req) Hne) as (e & He & Hcode).
  set (c' := (spec_create_database c req).2). set (d := cd_name_ident req) in *.
  set (info := mkDatabaseInfo (mkDatabaseIdent (c_seq c + 1) (c_seq c + 3)) d (cd_meta req)).
  destruct (res_mapM_err (build_db_instance mc) (λ e, has_code e Exc.UnknownDatabaseEngine = true)
    (spec_list_databases c' (mkListDatabaseReq (tenant d))) info) as (e' & He' & Hcode').
  { intros i. unfold build_db_instance, df_get_database. destruct (database_factory mc !! _) as [f|] eqn:Hf; simpl.
    - specialize (Hfac _ _ i Hf). by destruct (f i).
    - apply has_code_exc. }
  { apply elem_of_list_databases. exists (db_name d). unfold spec_get_database, c'. simpl.
    replace (mkDatabaseNameIdent (tenant d) (db_name d)) with d by (by destruct d). unfold d. by rewrite (created_db req c Hnew). }
  { destruct (unknown_engine_error info Hne) as (e' & -> & _). done. }
  exists c', e, e'. split_and!; [|done|by apply created_db| |done].
  - pose proof (create_database_runs req c Ht Hn1 Hn2 Ha Hroom Hnew) as Hrun. fold d in Hrun.
    rewrite He in Hrun. by apply Hrun.
  - apply runs_with_tenant; [done|]. eapply runs_bind; [apply runs_ret|]. apply runs_bind_err. simpl.
    eapply runs_bind; [apply (runs_metaM _ _ _ _ (sl_list_databases (mkListDatabaseReq (tenant d)) c'))|].
    rewrite He'. apply runs_lift.
Qed.

Definition default_engine (e : string) : Prop :=
  database_factory mc !! (if bool_decide (e = "") then "DEFAULT" else to_uppercase e) = Some (λ i, Ok (DefaultDatabase i)).
Lemma build_default i : default_engine (db_engine (dbinfo_meta _ i)) → build_db_instance mc i = Ok (DefaultDatabase i).
Proof. unfold default_engine, build_db_instance, df_get_database. by intros ->. Qed.

(** Creating a database and looking it up by the same name, with the default engine:
    under an ordinary name the database is found with its id, version and meta.  Under a
    name that differs from INFORMATION_SCHEMA in the case of its letters only it is
    created as well, but nobody finds it: the lookup returns the system database, and
    whatever tables it gets, a lookup of a table searches those of the system database. *)
Theorem created_database_lookup req c :
  let d := cd_name_ident req in
  tenant d ≠ "" → db_name d ≠ "system" → db_name d ≠ "INFORMATION_SCHEMA" →
  is_Some (im_db_tables (sys_db_meta im) !! "INFORMATION_SCHEMA") →
  accepts (OpCreateDatabase req) → (c_seq c + 4 < u64_modulus)%N → id_of c (KDatabase d) = None →
  default_engine (db_engine (cd_meta req)) →
  ∃ c', runs R (c_create_database dc req) c (Ok (mkCreateDatabaseReply (c_seq c + 1))) c' ∧
    db_of c' d = Some ((c_seq c + 1)%N, (c_seq c + 3)%N, cd_meta req) ∧
    if is_case_insensitive_db (db_name d) then
      runs R (c_get_database dc (tenant d) (db_name d)) c' (Ok (InformationSchemaDatabase (info_schema_db im))) c' ∧
      ∀ c'' tb, runs R (c_get_table dc (tenant d) (db_name d) tb) c''
        (get_by_name (sys_db_meta im) "INFORMATION_SCHEMA" (to_uppercase tb)) c''
    else
      runs R (c_get_database dc (tenant d) (db_name d)) c'
        (Ok (DefaultDatabase (mkDatabaseInfo (mkDatabaseIdent (c_seq c + 1) (c_seq c + 3)) d (cd_meta req)))) c'.
Proof.
  intros d Ht Hn1 Hn2 [t Hsys] Ha Hroom Hnew Heng. exists (spec_create_database c req).2. split_and!.
  - pose proof (create_database_runs req c Ht Hn1 Hn2 Ha Hroom Hnew) as Hrun.
    rewrite build_default in Hrun by done. by apply Hrun.
  - by apply created_db.
  - pose proof (λ c0, get_database_runs (tenant d) (db_name d) c0 Ht) as Hget. unfold spec_database in Hget.
    rewrite bool_decide_false in Hget by done. destruct (is_case_insensitive_db (db_name d)) eqn:Hci.
    + split; [apply Hget|]. intros c'' tb. apply runs_with_tenant; [done|]. rewrite Hci.
      pose proof Hci as Hup. unfold is_case_insensitive_db in Hup. apply bool_decide_eq_true in Hup. rewrite Hup.
      unfold get_by_name. rewrite Hsys. simpl. unfold im_get_database. rewrite bool_decide_false, bool_decide_true by done.
      unfold get_by_name. rewrite Hsys. intros w Hw. exists w. split; [|done].
      unfold layered, tryM, bind, ret, lift. by destruct (name_to_table t !! to_uppercase tb).
    + specialize (Hget (spec_create_database c req).2).
      replace (mkDatabaseNameIdent (tenant d) (db_name d)) with d in Hget by (by destruct d).
      unfold spec_get_database in Hget. simpl gd_inner in Hget.
      change (db_of _ d) with (db_of (spec_create_database c req).2 (cd_name_ident req)) in Hget.
      rewrite (created_db req c Hnew) in Hget. simpl in Hget. by rewrite build_default in Hget.
Qed.
End catalogs.
