(* ===== verification/FuseCatalog.v ===== *)
(** * The default catalog serves commits to fuse tables.

    The catalog of Catalog.v, on any implementation of the schema API with its contract,
    has the properties that FuseCommitProps.v relies on. *)
From S2P Require Import Prelude MetaTypes KvApi KeyCodec SchemaApi SchemaSpec SchemaOps SchemaList SchemaInv SchemaProps.
From S2P Require Import Exception Management Lru DataValue FuseMeta FuseIo FuseReads Catalog FuseTable CatalogProps FuseCommit FuseCommitProps.

Section default.
Context {W DateTime DataSchema Expr : Type} `{!SchemaTrait W DateTime DataSchema, !Capture, !ToUppercase, !PlanParser Expr}.
Abbreviation table := (Table DateTime DataSchema Expr).
Abbreviation Info := (TableInfo DateTime DataSchema).
Context (debug_req : UpsertTableOptionReq → string).
Context (R : W → cat DateTime DataSchema → Prop) (accepts : SchemaOp DateTime DataSchema → Prop).
Context `{!SchemaTraitLaws R accepts}.
Context (conf : EngineConfig) (memory github null view : Info → res ErrorCode table).
Context (im : ImmutableCatalog DateTime table) (mc : MutableCatalog W DateTime DataSchema table) (tid : N).

(** The engine FUSE makes fuse tables, the other engines do not, and none panics. *)
Definition make_fuse (i : Info) : res ErrorCode table := res_map TFuse (FuseTable_try_create i).
Definition other_engine (f : Info → res ErrorCode table) : Prop :=
  ∀ i, match f i with Ok (TOther _ _) | Err _ => True | _ => False end.
Hypothesis engines : storage_factory mc = StorageFactory_create conf memory github null make_fuse view.
Hypothesis others : other_engine memory ∧ other_engine github ∧ other_engine null ∧ other_engine view.
Hypothesis parse_total : ∀ s, parse_exprs (Expr:=Expr) s ≠ Panic.
Hypothesis accepts_options : ∀ req, accepts (OpUpsertTableOption req).
Hypothesis not_system : get_by_id (sys_db_meta im) tid = None.
Abbreviation dc := (database_catalog (immutable_catalog get_table_info debug_req im) (mutable_catalog mc)).

Lemma runs_api_upsert req c :
  (c_seq c + 4 < u64_modulus)%N →
  runs R (api_upsert_table_option req) c (spec_upsert_table_option c req).1 (spec_upsert_table_option c req).2.
Proof.
  intros Hroom. apply (runs_untag R ReUpsertTableOption); [congruence|].
  exact (sl_run (OpUpsertTableOption req) c (accepts_options req) Hroom).
Qed.
Lemma spec_upsert_total c req : (spec_upsert_table_option (DateTime:=DateTime) (DataSchema:=DataSchema) c req).1 ≠ Panic.
Proof. unfold spec_upsert_table_option. destruct (tb_meta_of _ _) as [[]|]; [|done]. by destruct (seq_matches _ _). Qed.
Lemma spec_upsert_err c req e :
  (spec_upsert_table_option (DateTime:=DateTime) (DataSchema:=DataSchema) c req).1 = Err e →
  (spec_upsert_table_option c req).2 = c.
Proof. unfold spec_upsert_table_option. destruct (tb_meta_of _ _) as [[]|]; [|done]. by destruct (seq_matches _ _). Qed.
Lemma engine_table i :
  match sf_get_table (storage_factory mc) i with
  | Ok (TFuse t) => FuseTable_try_create i = Ok t
  | Ok (TOther _ _) | Err _ => True
  | Panic => False
  end.
Proof.
  destruct others as (Hm & Hg & Hn & Hv). unfold sf_get_table. rewrite engines. unfold StorageFactory_create.
  destruct (_ !! _) as [f|] eqn:Hf; [|done]. simpl.
  assert (f = make_fuse ∨ other_engine f) as [->|Ho].
  { unfold StorageFactory in Hf. repeat (apply lookup_insert_Some in Hf as [[_ <-]|[_ Hf]]; [by auto|]).
    destruct (database_engine_github_enabled conf); [apply lookup_insert_Some in Hf as [[_ <-]|[_ Hf]]; [by auto|]|];
      (destruct (table_engine_memory_enabled conf); [apply lookup_insert_Some in Hf as [[_ <-]|[_ Hf]]; [by auto|]|]);
      by rewrite lookup_empty in Hf. }
  - unfold make_fuse. destruct (FuseTable_try_create i) as [t|e|] eqn:Ht; [done|done|].
    unfold FuseTable_try_create, parse_storage_prefix in Ht. destruct (info_options i !! _); [|done]. simpl in Ht.
    destruct (order_keys _) as [o|]; [|done]. pose proof (parse_total o). by destruct (parse_exprs o).
  - specialize (Ho i). by destruct (f i) as [[]| |].
Qed.

Lemma default_catalog_laws : TableCatalogLaws dc R tid.
Proof.
  split.
  - intros req w c HR Hroom _. destruct (runs_metaM R _ _ _ _ (runs_api_upsert req c Hroom) w HR) as (w' & Heq & HR').
    unfold wp. simpl. rewrite Heq. pose proof (spec_upsert_total c req) as Htot. pose proof (spec_upsert_err c req) as Herr.
    destruct (spec_upsert_table_option c req).1 as [[]|e|] eqn:Hs; simpl; [done| |done].
    left. by rewrite (Herr e eq_refl) in HR'.
  - intros w c HR. unfold wp. simpl. unfold bind, tryM, lift. rewrite not_system. simpl.
    destruct (runs_metaM R _ _ _ _ (sl_get_table_by_id tid c) w HR) as (w' & Heq & HR'). rewrite Heq.
    unfold spec_get_table_by_id. destruct (tb_meta_of c tid) as [[q m]|]; by simpl.
  - intros i Hi. simpl. rewrite Hi, not_system. simpl. apply engine_table.
Qed.
Lemma default_catalog_quiet : TableCatalogQuiet tid dc R.
Proof.
  split. intros req w c HR Hroom _. destruct (runs_metaM R _ _ _ _ (runs_api_upsert req c Hroom) w HR) as (w' & Heq & _).
  simpl. by rewrite Heq.
Qed.
End default.
