(* ===== verification/FuseGc.v ===== *)
(** * Purging the history of a fuse table.

    [do_optimize] removes older snapshots with what only they use.  Whatever fails on the
    way, the current snapshot, its segments and their blocks stay; and when it succeeds,
    the history is gone, but for snapshot files of the old format. *)
From S2P Require Import Prelude MetaTypes SchemaApi Exception Management Lru DataValue FuseMeta FuseIo FuseReads Catalog FuseTable.

(** What matters of a snapshot here, and of a segment. *)
Record snap_view := mkSnapView { sv_id : N; sv_ver : N; sv_prev : option (N * N); sv_segs : list Location }.
Definition view {VV DataSchema} (s : TableSnapshot VV DataSchema) : snap_view :=
  mkSnapView (ts_snapshot_id s) (ts_format_version s) (ts_prev_snapshot_id s) (ts_segments s).
Definition seg_blocks {VV} (g : SegmentInfo VV) : list string := (λ b, (bm_location b).1) <$> si_blocks g.

(** The simple form of an identifier is hexadecimal digits. *)
Class UuidsText `{Uuids} : Prop := simple_plain id a b : to_simple id ≠ a +:+ "_" +:+ b.

Section gc.
Context {VV DateTime DataSchema Expr W Obj TS TG : Type} `{!Operator Obj, !Capture, !Uuids, !UuidsText}.
Context (objects : Obj → gmap string bytes) `{!OperatorLaws Obj objects}.
Context `{!LinkedHashMap TS string (TableSnapshot VV DataSchema), !LinkedHashMapLaws TS string (TableSnapshot VV DataSchema)}.
Context `{!LinkedHashMap TG string (SegmentInfo VV), !LinkedHashMapLaws TG string (SegmentInfo VV)}.
Context `{!Json (TableSnapshot VV DataSchema), !Json (TableSnapshotV0 VV DataSchema)}.
Context `{!Json (SegmentInfo VV), !Json (SegmentInfoV0 VV)}.
Context `{!JsonTotal (TableSnapshot VV DataSchema), !JsonTotal (TableSnapshotV0 VV DataSchema)}.
Context `{!JsonTotal (SegmentInfo VV), !JsonTotal (SegmentInfoV0 VV)}.
#[local] Existing Instance count_meter.
Abbreviation world := (fuse_world VV DataSchema W Obj TS TG).
Abbreviation Snapshot := (TableSnapshot VV DataSchema).
Abbreviation Tbl := (FuseTable DateTime DataSchema Expr).
Context (prefix : string) (Sn : gmap string snap_view) (Sg : gmap string (list string)) (age : string → nat).
Implicit Types (w : world) (s : Snapshot).

Definition is_block (p : string) : Prop := String.prefix (prefix +:+ "/_b/") p = true.
Definition is_segment (p : string) : Prop := String.prefix (prefix +:+ "/_sg/") p = true.
Definition is_snapshot (p : string) : Prop := String.prefix (prefix +:+ "/_ss/") p = true.

(** Objects and caches agree with [Sn] and [Sg]. *)
Record faithful w : Prop := {
  ff_snapshots : snapshots_cached (λ loc s, Sn !! loc = Some (view s)) w;
  ff_segments : segments_cached (λ x g, Sg !! x = Some (seg_blocks g)) w;
  ff_snapshot_objs loc v b s :
    is_snapshot loc → objects (fw_objs w) !! loc = Some b → read_snapshot_version v b = Ok s → Sn !! loc = Some (view s);
  ff_segment_objs x v b g :
    is_segment x → objects (fw_objs w) !! x = Some b → read_segment_version v b = Ok g → Sg !! x = Some (seg_blocks g);
}.
(** The layout of a table with the current snapshot [loc0]: where things are, that a segment
    has one format, that a snapshot is older than its successor, that the current
    snapshot is nobody's predecessor and shares its identifier with no other, and that a snapshot
    is read with the identifier that its file is named for, and the current version. *)
Definition aging : Prop := ∀ loc sv id v loc',
  Sn !! loc = Some sv → sv_prev sv = Some (id, v) → snapshot_location_from_uuid prefix id v = Ok loc' → age loc' < age loc.
Record layout (loc0 : string) : Prop := {
  ly_current : is_snapshot loc0;
  ly_segments loc sv x v : Sn !! loc = Some sv → (x, v) ∈ sv_segs sv → is_segment x;
  ly_blocks x bs p : Sg !! x = Some bs → p ∈ bs → is_block p;
  ly_formats loc sv loc' sv' x v v' :
    Sn !! loc = Some sv → Sn !! loc' = Some sv' → (x, v) ∈ sv_segs sv → (x, v') ∈ sv_segs sv' → v = v';
  ly_aging : aging;
  ly_newest loc sv id v : Sn !! loc = Some sv → sv_prev sv = Some (id, v) → snapshot_location_from_uuid prefix id v ≠ Ok loc0;
  ly_named loc sv id v : Sn !! loc = Some sv → snapshot_location_from_uuid prefix id v = Ok loc → sv_id sv = id ∧ sv_ver sv = TableSnapshot_VERSION;
  ly_ids loc sv v : Sn !! loc = Some sv → loc ≠ loc0 → snapshot_location_from_uuid prefix (sv_id sv) v ≠ Ok loc0;
}.

(** ** The kinds of locations are told apart *)
Lemma prefix_app_iff a b c : String.prefix (a +:+ b) (a +:+ c) = String.prefix b c.
Proof. induction a as [|x a IH]; [done|]. rewrite !string_app_cons. simpl. by destruct (Ascii.ascii_dec x x). Qed.
Lemma prefix_app_l a b p : String.prefix (a +:+ b) p = true → ∃ c, p = a +:+ c ∧ String.prefix b c = true.
Proof.
  revert p. induction a as [|x a IH]; intros p Hp; [by exists p|]. rewrite string_app_cons in Hp.
  destruct p as [|y p]; [done|]. simpl in Hp. destruct (Ascii.ascii_dec x y) as [->|]; [|done].
  destruct (IH p Hp) as (c & -> & Hc). by exists c.
Qed.
Lemma kinds_differ a b p :
  String.prefix (prefix +:+ a) p = true → String.prefix (prefix +:+ b) p = true →
  ∃ c, String.prefix a c = true ∧ String.prefix b c = true.
Proof.
  intros (c & -> & Hc)%prefix_app_l Hb. rewrite prefix_app_iff in Hb. by exists c.
Qed.
Ltac kinds :=
  intros Hk1 Hk2; destruct (kinds_differ _ _ _ Hk1 Hk2) as (k & Hk & Hk'); clear Hk1 Hk2;
  destruct k as [|x1 [|x2 [|x3 [|x4 k]]]]; cbn [String.prefix] in Hk, Hk'; try discriminate;
  repeat match goal with
  | H : context [Ascii.ascii_dec ?a ?b] |- _ => destruct (Ascii.ascii_dec a b); [|discriminate]
  end; congruence.
Lemma block_segment p : is_block p → is_segment p → False.
Proof. kinds. Qed.
Lemma block_snapshot p : is_block p → is_snapshot p → False.
Proof. kinds. Qed.
Lemma segment_snapshot p : is_segment p → is_snapshot p → False.
Proof. kinds. Qed.
Lemma prefix_self a b : String.prefix a (a +:+ b) = true.
Proof. induction a as [|x a IH]; [by destruct b|]. rewrite string_app_cons. simpl. by destruct (Ascii.ascii_dec x x). Qed.
Lemma location_is_snapshot id v loc : snapshot_location_from_uuid prefix id v = Ok loc → is_snapshot loc.
Proof.
  unfold snapshot_location_from_uuid. destruct (SnapshotVersion_try_from v) as [ver|e|]; [|done..]. simpl. intros [= <-].
  unfold is_snapshot, snapshot_location. change (prefix +:+ "/_ss/") with (prefix +:+ "/" +:+ "_ss" +:+ "/").
  rewrite !prefix_app_iff. apply prefix_self.
Qed.

(** ** Reading the history *)
Lemma faithful_same w w' :
  faithful w → objects (fw_objs w') = objects (fw_objs w) →
  snapshots_cached (λ loc s, Sn !! loc = Some (view s)) w' → segments_cached (λ x g, Sg !! x = Some (seg_blocks g)) w' →
  faithful w'.
Proof. intros [_ _ Ho Hg] Hobj Hs Hg'. split; [done|done|rewrite Hobj; apply Ho|rewrite Hobj; apply Hg]. Qed.
Definition same_objects w w' : Prop := fw_meta w' = fw_meta w ∧ objects (fw_objs w') = objects (fw_objs w).
Lemma same_objects_trans w1 w2 w3 : same_objects w1 w2 → same_objects w2 w3 → same_objects w1 w3.
Proof. unfold same_objects. intuition congruence. Qed.

Lemma read_snapshot_gc node loc ver w :
  faithful w → is_snapshot loc →
  wp (read_snapshot node loc ver) (λ r w', same_objects w w' ∧ faithful w' ∧
    match r with
    | Ok s => Sn !! loc = Some (view s)
    | Err e => missing e = true → objects (fw_objs w) !! loc = None
    | Panic => False
    end) w.
Proof.
  intros Hf Hloc. eapply wp_mono.
  - apply (read_snapshot_cached objects (λ loc s, Sn !! loc = Some (view s))); [apply Hf|].
    intros b v s Hb _ Hd. by apply (ff_snapshot_objs _ Hf loc v b).
  - simpl. intros r w' ((Hm & Hid & Ho & Hg) & Hc & Hr). split_and!; [done| |done].
    apply (faithful_same w); [done..|]. intros n c. rewrite Hg. apply (ff_segments _ Hf).
Qed.

(** The snapshots from a pointer back, each with the pointer to it, until one has no predecessor or it is gone. *)
Inductive linked (objs : gmap string bytes) : option (N * N) → list ((N * N) * Snapshot) → Prop :=
  | linked_first : linked objs None []
  | linked_gone id v loc : snapshot_location_from_uuid prefix id v = Ok loc → objs !! loc = None → linked objs (Some (id, v)) []
  | linked_next id v loc s l : snapshot_location_from_uuid prefix id v = Ok loc → Sn !! loc = Some (view s) →
      linked objs (ts_prev_snapshot_id s) l → linked objs (Some (id, v)) (((id, v), s) :: l).
Lemma history_loop_gc fuel node loc ver acc w :
  aging → faithful w → is_snapshot loc →
  wp (history_loop fuel node prefix loc ver acc) (λ r w', same_objects w w' ∧ faithful w' ∧
    match r with
    | Ok (Some l) =>
        (l = acc ∧ objects (fw_objs w) !! loc = None) ∨
        ∃ s rest, l = acc ++ s :: rest.*2 ∧ Sn !! loc = Some (view s) ∧ linked (objects (fw_objs w)) (ts_prev_snapshot_id s) rest
    | Ok None => fuel ≤ age loc
    | Err _ => True
    | Panic => False
    end) w.
Proof.
  intros Hage. revert loc ver acc w. induction fuel as [|fuel IH]; intros loc ver acc w Hf Hloc.
  { split_and!; [done..|]. simpl. lia. }
  simpl.
  apply wp_bind, wp_try. eapply wp_mono; [by apply read_snapshot_gc|]. simpl. intros [s|e|] w1 (Hsame & Hf1 & Hr); [| |done].
  2: { change (code e =? 3001)%N with (missing e). destruct (missing e); [|by split_and!]. split_and!; [done..|]. left. split; [done|by apply Hr]. }
  destruct (ts_prev_snapshot_id s) as [[id v]|] eqn:Hprev.
  2: { split_and!; [done..|]. right. exists s, []. rewrite Hprev. split_and!; [done..|constructor]. }
  apply wp_bind. unfold wp at 1, lift at 1. destruct (snapshot_location_from_uuid prefix id v) as [loc'|e|] eqn:Hl; simpl.
  2: { by split_and!. }
  2: { unfold snapshot_location_from_uuid, SnapshotVersion_try_from in Hl. by repeat destruct (_ =? _)%N. }
  eapply wp_mono; [apply IH; [done|by eapply location_is_snapshot]|]. simpl. intros r w2 (Hsame2 & Hf2 & Hr2).
  split_and!; [by eapply same_objects_trans|done|]. destruct Hsame as [_ Ho1]. rewrite Ho1 in Hr2.
  destruct r as [[l|]|e|]; [| |done..].
  2: { assert (age loc' < age loc) by by eapply Hage. lia. }
  right. destruct Hr2 as [[-> Hgone]|(s' & rest & -> & Hs' & Hrest)].
  - exists s, []. split_and!; [done..|]. rewrite Hprev. by eapply linked_gone.
  - exists s, (((id, v), s') :: rest). rewrite <-app_assoc, Hprev. split_and!; [done..|]. by eapply linked_next.
Qed.
(** The older snapshots are others than the current one. *)
Lemma linked_older loc0 objs p l :
  layout loc0 → linked objs p l → (∀ id v, p = Some (id, v) → snapshot_location_from_uuid prefix id v ≠ Ok loc0) →
  Forall (λ x, ∃ loc, loc ≠ loc0 ∧ snapshot_location_from_uuid prefix x.1.1 x.1.2 = Ok loc ∧ Sn !! loc = Some (view x.2)) l.
Proof.
  intros Hly Hl. induction Hl as [|id v loc Hloc _|id v loc s l Hloc Hs Hl IH]; intros Hp; constructor.
  - exists loc. split_and!; [|done..]. intros ->. by apply (Hp id v).
  - apply IH. intros id' v' Hprev. by apply (ly_newest _ Hly loc (view s)).
Qed.

(** ** The blocks of segments *)
Lemma blocks_of_gc node locs acc w :
  faithful w → (∀ x v, (x, v) ∈ locs → is_segment x) →
  wp (blocks_of node locs acc) (λ r w', same_objects w w' ∧ faithful w' ∧
    match r with
    | Ok result => (∀ p, p ∈ result ↔ p ∈ acc ∨ ∃ x v bs, (x, v) ∈ locs ∧ Sg !! x = Some bs ∧ p ∈ bs) ∧
        ∀ x v, (x, v) ∈ locs → is_Some (Sg !! x)
    | Err _ => True
    | Panic => False
    end) w.
Proof.
  revert acc w. induction locs as [|[x v] locs IH]; intros acc w Hf Hseg; simpl.
  { split_and!; [done..| |by intros x v ?%elem_of_nil]. intros p. split; [by left|].
    intros [?|(x & v & bs & ?%elem_of_nil & _)]; done. }
  apply wp_bind. eapply wp_mono.
  { apply (read_segment_cached objects (λ x g, Sg !! x = Some (seg_blocks g))); [apply Hf|].
    intros b v' g Hb Hd. apply (ff_segment_objs _ Hf x v' b); [|done..]. apply (Hseg x v). by left. }
  simpl. intros [g|e|] w1 ((Hm & Hid & Ho & Hsn) & Hc & Hg).
  all: assert (faithful w1) as Hf1 by (apply (faithful_same w); [done..| |done]; intros n c; rewrite Hsn; apply (ff_snapshots _ Hf)).
  2, 3: by split_and!.
  eapply wp_mono; [apply IH; [done|]|].
  { intros y u Hy. apply (Hseg y u). by right. }
  simpl. intros r w2 (Hsame & Hf2 & Hr). split_and!; [by eapply (same_objects_trans _ w1)|done|].
  destruct r as [result|e|]; [|done..]. destruct Hr as [Hin Hall]. split.
  - intros p. rewrite Hin, elem_of_union, elem_of_list_to_set. setoid_rewrite elem_of_cons. split.
    + intros [[?|Hp]|(y & u & bs & ? & ? & ?)]; [by left|right; by exists x, v, (seg_blocks g); split_and!; [left| |]|].
      right. exists y, u, bs. split_and!; [by right|done..].
    + intros [?|(y & u & bs & [[= -> ->]|?] & Hbs & ?)]; [by left; left| |right; by exists y, u, bs].
      left. right. by simplify_eq.
  - intros y u [[= -> ->]|Hy]%elem_of_cons; [by rewrite Hg|by eapply Hall].
Qed.

(** ** Removing *)

(** From [w] to [w'] objects of [D] were removed, maybe not all, and nothing else changed. *)
Record removed (D : string → Prop) w w' : Prop := {
  rm_meta : fw_meta w' = fw_meta w;
  rm_other p : ¬ D p → objects (fw_objs w') !! p = objects (fw_objs w) !! p;
  rm_any p : objects (fw_objs w') !! p = objects (fw_objs w) !! p ∨ objects (fw_objs w') !! p = None;
}.
Definition gone (D : string → Prop) w : Prop := ∀ p, D p → objects (fw_objs w) !! p = None.
Lemma removed_same D w w' : same_objects w w' → removed D w w'.
Proof. intros [Hm Ho]. split; [done|intros; by rewrite Ho|intros; left; by rewrite Ho]. Qed.
Lemma removed_trans D1 D2 w1 w2 w3 :
  removed D1 w1 w2 → removed D2 w2 w3 → removed (λ p, D1 p ∨ D2 p) w1 w3.
Proof.
  intros [Hm1 Ho1 Ha1] [Hm2 Ho2 Ha2]. split; [congruence| |].
  - intros p Hp. rewrite Ho2, Ho1; [done|tauto..].
  - intros p. destruct (Ha2 p) as [-> | ->]; [apply Ha1|by right].
Qed.
Lemma removed_mono (D D' : string → Prop) w w' : (∀ p, D p → D' p) → removed D w w' → removed D' w w'.
Proof. intros HD [Hm Ho Ha]. split; [done|auto|done]. Qed.
Lemma gone_later D E w w' : gone D w → removed E w w' → gone D w'.
Proof. intros Hg [_ _ Ha] p Hp. destruct (Ha p) as [->|]; [by apply Hg|done]. Qed.

(** What a removal of [D] does: without an error, all of [D] is gone. *)
Definition removes {A} (D : string → Prop) w (r : res ErrorCode A) w' : Prop :=
  removed D w w' ∧ match r with Ok _ => gone D w' | Err _ => True | Panic => False end.
Lemma removes_bind {A B} (D1 D2 D : string → Prop) (m : M world ErrorCode A) (f : A → M world ErrorCode B) w :
  (∀ p, D p ↔ D1 p ∨ D2 p) → wp m (removes D1 w) w → (∀ a w1, wp (f a) (removes D2 w1) w1) →
  wp (bind m f) (removes D w) w.
Proof.
  intros HD Hm Hf. apply wp_bind. eapply wp_mono; [exact Hm|]. intros [a|e|] w1 [Hr Hg]; [|split; [|done]|done].
  2: { eapply removed_mono; [|exact Hr]. intros. apply HD. by left. }
  eapply wp_mono; [apply Hf|]. intros r w2 [Hr2 Hg2]. split.
  - eapply removed_mono; [|by eapply removed_trans]. intros p. apply HD.
  - destruct r as [b|e|]; [|done..]. intros p [Hp|Hp]%HD; [by eapply (gone_later D1)|by apply Hg2].
Qed.
Lemma remove_location_gc x w : wp (remove_location x) (removes (λ p, p = x) w) w.
Proof.
  unfold remove_location, objM, wp. pose proof (delete_ok x (fw_objs w)) as Hd. destruct (dal_delete x (fw_objs w)) as [r o].
  destruct Hd as [Ho Hr]. split.
  - split; simpl; [done|exact Ho|]. intros p. destruct (decide (p = x)) as [->|Hne]; [|left; by apply Ho].
    destruct r as [[]|e|]; [by right|done|done].
  - destruct r as [[]|e|]; simpl; [|done..]. by intros p ->.
Qed.
Lemma removes_ret D w : (∀ p, ¬ D p) → wp (ret tt) (removes D w) w.
Proof. intros HD. split; [by apply removed_same|]. intros p Hp. by apply HD in Hp. Qed.
Lemma remove_blocks_gc l w : wp (remove_blocks l) (removes (λ p, p ∈ l) w) w.
Proof.
  revert w. induction l as [|x l IH]; intros w; [apply removes_ret; intros p ?%elem_of_nil; done|].
  apply (removes_bind (λ p, p = x) (λ p, p ∈ l)); [intros p; apply elem_of_cons|apply remove_location_gc|by intros _].
Qed.
Lemma pop_segment_gc node x w : wp (pop_segment node x) (removes (λ _, False) w) w.
Proof.
  unfold pop_segment, wp, bind, get_segment_cache, set_segment_cache, stateM.
  destruct (fw_segments w !! node); (split; [by apply removed_same|by intros p]).
Qed.
Lemma pop_snapshot_gc node x w : wp (pop_snapshot node x) (removes (λ _, False) w) w.
Proof.
  unfold pop_snapshot, wp, bind, get_snapshot_cache, set_snapshot_cache, stateM.
  destruct (fw_snapshots w !! node); (split; [by apply removed_same|by intros p]).
Qed.
Lemma remove_segments_gc node l w : wp (remove_segments node l) (removes (λ p, ∃ v, (p, v) ∈ l) w) w.
Proof.
  revert w. induction l as [|[x v] l IH]; intros w; [apply removes_ret; by intros p [v ?%elem_of_nil]|].
  apply (removes_bind (λ p, p = x) (λ p, ∃ v, (p, v) ∈ l)); [|apply remove_location_gc|intros _ w1].
  - intros p. setoid_rewrite elem_of_cons. split; [|intros [-> |[u Hu]]; eauto]. intros [u [[= -> ->]|Hu]]; eauto.
  - apply (removes_bind (λ _, False) (λ p, ∃ v, (p, v) ∈ l)); [tauto|apply pop_segment_gc|by intros _].
Qed.
Lemma location_total id v : snapshot_location_from_uuid prefix id v ≠ Panic.
Proof. unfold snapshot_location_from_uuid, SnapshotVersion_try_from. by repeat destruct (_ =? _)%N. Qed.
(** Where the snapshots of a list are looked for: under the version that they have in memory. *)
Definition located (l : list Snapshot) (p : string) : Prop :=
  ∃ s, s ∈ l ∧ snapshot_location_from_uuid prefix (ts_snapshot_id s) (ts_format_version s) = Ok p.
Lemma remove_snapshots_gc node l w : wp (remove_snapshots node prefix l) (removes (located l) w) w.
Proof.
  revert w. induction l as [|s l IH]; intros w; [apply removes_ret; by intros p (s & ?%elem_of_nil & _)|].
  simpl. apply wp_bind. unfold wp at 1, lift at 1.
  destruct (snapshot_location_from_uuid prefix (ts_snapshot_id s) (ts_format_version s)) as [loc|e|] eqn:Hloc.
  2: { split; [by apply removed_same|done]. }
  2: { by apply location_total in Hloc. }
  apply (removes_bind (λ p, p = loc) (located l)); [|apply remove_location_gc|intros _ w1].
  - intros p. unfold located. setoid_rewrite elem_of_cons. split; [|intros [-> |(t & Ht & Hp)]; eauto].
    intros (t & [-> |Ht] & Hp); [left; congruence|eauto].
  - apply (removes_bind (λ _, False) (located l)); [tauto|apply pop_snapshot_gc|by intros _].
Qed.
Lemma removes_after {A} D w w1 w2 (r : res ErrorCode A) : same_objects w w1 → removes D w1 r w2 → removes D w r w2.
Proof.
  intros [Hm Ho] [[Hm2 Ho2 Ha2] Hr]. split; [|done]. rewrite Ho in Ho2, Ha2. split; [congruence|done..].
Qed.
Lemma removes_iff {A} (D D' : string → Prop) w w' (r : res ErrorCode A) : (∀ p, D p ↔ D' p) → removes D w r w' → removes D' w r w'.
Proof.
  intros HD [Hr Hg]. split; [eapply removed_mono; [|done]; intros; by apply HD|].
  destruct r; [|done..]. intros p Hp. by apply Hg, HD.
Qed.

(** ** What a purge removes *)

(** Segments of older snapshots that the current one does not have; their blocks, unless a
    current segment has them too; and the older snapshots. *)
Definition old_segment (current : gset Location) (older : list Snapshot) (l : Location) : Prop :=
  (l ∉ current) ∧ ∃ s, s ∈ older ∧ l ∈ ts_segments s.
Definition block_in (P : Location → Prop) (p : string) : Prop := ∃ x v bs, P (x, v) ∧ Sg !! x = Some bs ∧ p ∈ bs.
Definition unused (current : gset Location) (older : list Snapshot) (p : string) : Prop :=
  (block_in (old_segment current older) p ∧ ¬ block_in (.∈ current) p) ∨ (∃ v, old_segment current older (p, v)).
Definition dead (current : gset Location) (older : list Snapshot) (p : string) : Prop :=
  (block_in (old_segment current older) p ∧ ¬ block_in (.∈ current) p) ∨
  (∃ v, old_segment current older (p, v)) ∨ located older p.

Lemma elem_of_seg_delta current (older : list Snapshot) l :
  l ∈ elements (list_to_set (mjoin (ts_segments <$> older)) ∖ current) ↔ old_segment current older l.
Proof.
  rewrite elem_of_elements, elem_of_difference, elem_of_list_to_set, list_elem_of_join. unfold old_segment.
  setoid_rewrite list_elem_of_fmap. split.
  - intros [(segs & Hl & s & -> & Hs) Hc]. eauto.
  - intros [Hc (s & Hs & Hl)]. split; [|done]. eauto.
Qed.
Lemma located_reverse l p : located (reverse l) p ↔ located l p.
Proof. unfold located. by setoid_rewrite elem_of_reverse. Qed.

Lemma purge_gc (ctx : QueryContext) (self : Tbl) current older w :
  faithful w → location_prefix self = prefix →
  (∀ x v, (x, v) ∈ current → is_segment x) → (∀ s x v, s ∈ older → (x, v) ∈ ts_segments s → is_segment x) →
  wp (purge ctx self current older) (removes (dead current older) w) w.
Proof.
  intros Hf Hpre Hcur Hold. unfold purge. rewrite Hpre. apply wp_bind. eapply wp_mono.
  { apply blocks_of_gc; [done|]. intros x v [_ (s & Hs & Hx)]%elem_of_seg_delta. by eapply Hold. }
  intros [prev|e|] w1 (Hs1 & Hf1 & Hr1); [|split; [by apply removed_same|done]|done]. destruct Hr1 as [Hprev _].
  apply wp_bind. eapply wp_mono.
  { apply blocks_of_gc; [done|]. intros x v Hx%elem_of_elements. by eapply Hcur. }
  intros [cur|e|] w2 (Hs2 & Hf2 & Hr2).
  2: { split; [by apply removed_same, (same_objects_trans _ w1)|done]. } 2: { done. }
  destruct Hr2 as [Hcurb _].
  eapply wp_mono; [|intros r w'; apply removes_after; by apply (same_objects_trans _ w1)].
  eapply (removes_bind _ (λ p, (∃ v, old_segment current older (p, v)) ∨ located older p)); [|apply remove_blocks_gc|intros _ w3].
  - intros p. unfold dead. rewrite elem_of_elements, elem_of_difference, Hprev, Hcurb. unfold block_in.
    setoid_rewrite elem_of_seg_delta. setoid_rewrite elem_of_elements. rewrite !elem_of_empty. tauto.
  - eapply (removes_bind _ (located older)); [|apply remove_segments_gc|intros _ w4].
    + intros p. by setoid_rewrite elem_of_seg_delta.
    + eapply wp_mono; [apply remove_snapshots_gc|]. intros r w'. apply removes_iff, located_reverse.
Qed.

Lemma dead_nothing current p : ¬ dead current [] p.
Proof. intros [[(x & v & bs & (_ & s & ?%elem_of_nil & _) & _) _]|[(v & _ & s & ?%elem_of_nil & _)|(s & ?%elem_of_nil & _)]]; done. Qed.

(** What a reader of the current snapshot needs. *)
Definition protected (loc0 : string) (sv0 : snap_view) (p : string) : Prop :=
  p = loc0 ∨ (∃ v, (p, v) ∈ sv_segs sv0) ∨ block_in (.∈ sv_segs sv0) p.
Lemma protected_lives loc0 sv0 older p :
  layout loc0 → Sn !! loc0 = Some sv0 →
  Forall (λ s, ∃ loc, loc ≠ loc0 ∧ Sn !! loc = Some (view s)) older →
  protected loc0 sv0 p → ¬ dead (list_to_set (sv_segs sv0)) older p.
Proof.
  intros Hly Hsv Hold Hp. rewrite Forall_forall in Hold.
  assert (∀ l, old_segment (list_to_set (sv_segs sv0)) older l → ∃ loc s, Sn !! loc = Some (view s) ∧ l ∈ ts_segments s) as Hos.
  { intros l (_ & s & (loc & _ & Hs)%Hold & Hl). eauto. }
  assert (∀ x v, (x, v) ∈ sv_segs sv0 → is_segment x) as Hseg by (intros x v; by apply (ly_segments _ Hly loc0)).
  assert (∀ P q, block_in P q → is_block q) as Hblk.
  { intros P q (x & v & bs & _ & Hbs & Hq). by eapply (ly_blocks _ Hly). }
  assert (∀ l q, located l q → is_snapshot q) as Hsnap by (intros l q (s & _ & Hl); by eapply location_is_snapshot).
  intros [[Hb Hnb]|[[v Hv]|Hl]].
  - destruct Hp as [-> |[[v Hv]|Hin]].
    + eapply block_snapshot; [by eapply Hblk|apply Hly].
    + eapply block_segment; [by eapply Hblk|by eapply Hseg].
    + apply Hnb. destruct Hin as (x & v & bs & Hx & ?). exists x, v, bs. by rewrite elem_of_list_to_set.
  - destruct (Hos _ Hv) as (loc & s & Hs & Hx). assert (is_segment p) as Hsg by by eapply (ly_segments _ Hly loc (view s)).
    destruct Hp as [-> |[[u Hu]|Hin]].
    + eapply segment_snapshot; [done|apply Hly].
    + rewrite (ly_formats _ Hly loc (view s) loc0 sv0 p v u Hs Hsv Hx Hu) in Hv. apply Hv. by apply elem_of_list_to_set.
    + eapply block_segment; [by eapply Hblk|done].
  - destruct Hp as [-> |[[u Hu]|Hin]].
    + destruct Hl as (s & (loc & Hne & Hs)%Hold & Hloc). by apply (ly_ids _ Hly loc (view s) (ts_format_version s) Hs Hne).
    + eapply segment_snapshot; [by eapply Hseg|by eapply Hsnap].
    + eapply block_snapshot; [by eapply Hblk|by eapply Hsnap].
Qed.

(** The file of an older snapshot is looked for under its name if it has the current format, and under another name if not. *)
Definition file_named (older : list ((N * N) * Snapshot)) loc0 : Prop :=
  Forall (λ x, ∃ loc, loc ≠ loc0 ∧ snapshot_location_from_uuid prefix x.1.1 x.1.2 = Ok loc ∧ Sn !! loc = Some (view x.2)) older.
Lemma versions_apart id id' : snapshot_location prefix SnV0 id ≠ snapshot_location prefix SnV1 id'.
Proof.
  unfold snapshot_location. intros Heq. do 4 apply (inj (String.append _)) in Heq. simpl in Heq. rewrite string_app_nil in Heq. by apply (simple_plain id (to_simple id') "v1.json").
Qed.
Lemma older_file loc0 older id v s loc :
  layout loc0 → file_named older loc0 → ((id, v), s) ∈ older → snapshot_location_from_uuid prefix id v = Ok loc →
  (v = 1%N → located older.*2 loc) ∧ (v = 0%N → ∀ current, ¬ dead current older.*2 loc).
Proof.
  intros Hly Hold Hin Hloc. unfold file_named in Hold. rewrite Forall_forall in Hold.
  assert (∀ id v s, ((id, v), s) ∈ older → ts_snapshot_id s = id ∧ ts_format_version s = TableSnapshot_VERSION) as Hname.
  { intros id' v' s' Hin'. destruct (Hold _ Hin') as (loc' & _ & Hl' & Hs'). by apply (ly_named _ Hly loc' (view s') id' v'). }
  split; intros ->.
  - exists s. split; [by apply list_elem_of_fmap; eexists; split; [|exact Hin]|]. by destruct (Hname _ _ _ Hin) as [-> ->].
  - intros current Hd. assert (is_snapshot loc) as Hsn by by eapply location_is_snapshot. destruct Hd as [[(x & u & bs & _ & Hbs & Hb) _]|[[u (_ & t & Ht & Hx)]|(t & Ht & Hl)]].
    + eapply block_snapshot; [by eapply (ly_blocks _ Hly)|done].
    + apply list_elem_of_fmap in Ht as ([pt t'] & -> & Ht). destruct (Hold _ Ht) as (loc' & _ & _ & Hs'). eapply segment_snapshot; [by eapply (ly_segments _ Hly loc')|done].
    + apply list_elem_of_fmap in Ht as ([[id' v'] t'] & -> & Ht). destruct (Hname _ _ _ Ht) as [Hid Hv]. simpl in Hl. rewrite Hid, Hv in Hl.
      unfold snapshot_location_from_uuid in Hloc, Hl. simpl in Hloc, Hl. simplify_eq. by eapply versions_apart.
Qed.

(** ** The theorem *)
Lemma gc_root_true (s : Snapshot) l : gc_root true (s :: l) = (list_to_set (sv_segs (view s)), l).
Proof. done. Qed.

(** C9: Purging the history of a table, whatever fails on the way, changes neither the
    metadata service nor any object that the current snapshot needs: the snapshot itself,
    its segments and their blocks.  When it succeeds, then of the older snapshots (those linked
    from the current one) the segments that the current one does not have and the blocks that
    only these have are gone from the store; the files of older snapshots are gone if they have the
    current format, and are left in the store if they have version 0.  It succeeds or fails, given
    more fuel than the history is long. *)
Theorem optimize_safe fuel (ctx : QueryContext) (self : Tbl) w loc0 sv0 :
  faithful w → layout loc0 → location_prefix self = prefix →
  info_options (table_info self) !! OPT_KEY_SNAPSHOT_LOCATION = Some loc0 →
  is_Some (objects (fw_objs w) !! loc0) → Sn !! loc0 = Some sv0 →
  wp (do_optimize fuel ctx self true) (λ r w',
    fw_meta w' = fw_meta w ∧
    (∀ p, protected loc0 sv0 p → objects (fw_objs w') !! p = objects (fw_objs w) !! p) ∧
    match r with
    | Ok (Some _) =>
        ∃ older, linked (objects (fw_objs w)) (sv_prev sv0) older ∧ gone (unused (list_to_set (sv_segs sv0)) older.*2) w' ∧
        ∀ id v s loc, ((id, v), s) ∈ older → snapshot_location_from_uuid prefix id v = Ok loc →
          objects (fw_objs w') !! loc = if (v =? 0)%N then objects (fw_objs w) !! loc else None
    | Ok None => fuel ≤ age loc0
    | Err _ => True
    | Panic => False
    end) w.
Proof.
  intros Hf Hly Hpre Hopt Hobj Hsv. unfold do_optimize. rewrite Hopt, Hpre. apply wp_bind. eapply wp_mono.
  { apply history_loop_gc; [apply Hly|done|apply Hly]. }
  intros r w1 ([Hm1 Ho1] & Hf1 & Hr). destruct r as [[l|]|e|]; [|split_and!; [done|by rewrite Ho1|done]..|done].
  destruct Hr as [[-> Hno]|(s & older & -> & Hs & Hl)]; [destruct Hobj; congruence|].
  replace sv0 with (view s) by congruence. simpl app.
  assert (file_named older loc0) as Hfile by (eapply linked_older; [done..|]; intros id v Hprev; by eapply (ly_newest _ Hly loc0 (view s))).
  assert (Forall (λ s, ∃ loc, loc ≠ loc0 ∧ Sn !! loc = Some (view s)) older.*2) as Hold.
  { apply Forall_fmap. eapply Forall_impl; [exact Hfile|]. intros x (loc & ? & _ & ?). by exists loc. }
  assert (∀ p, protected loc0 (view s) p → ¬ dead (list_to_set (sv_segs (view s))) older.*2 p) as Hlive.
  { intros p. by apply protected_lives. }
  assert (∀ id v t loc, ((id, v), t) ∈ older → snapshot_location_from_uuid prefix id v = Ok loc →
    (v = 0%N ∧ ¬ dead (list_to_set (sv_segs (view s))) older.*2 loc) ∨ (v ≠ 0%N ∧ located older.*2 loc)) as Hfiles.
  { intros id v t loc Hin Hloc. destruct (older_file loc0 older id v t loc) as [Hnew Hold0]; [done..|].
    assert (v = 0%N ∨ v = 1%N) as [-> | ->]; [|by left; split; [|apply Hold0]|by right; split; [|apply Hnew]].
    unfold snapshot_location_from_uuid, SnapshotVersion_try_from in Hloc. destruct (N.eqb_spec v 0); [by left|]. destruct (N.eqb_spec v 1); [by right|done]. }
  destruct older as [|s' older].
  { split_and!; [done|by rewrite Ho1|]. exists []. split_and!; [done| |by intros ???? ?%elem_of_nil].
    intros p [Hp|Hp]; exfalso; eapply (dead_nothing _ p); [left; exact Hp|right; left; exact Hp]. }
  simpl fmap in Hlive, Hfiles, Hold |- *. rewrite gc_root_true. apply wp_bind. eapply wp_mono.
  { apply purge_gc; [done..| |].
    - intros x v Hx%elem_of_list_to_set. by eapply (ly_segments _ Hly loc0).
    - intros t x v Ht Hx. rewrite Forall_forall in Hold. destruct (Hold t Ht) as (loc & _ & Hloc).
      by eapply (ly_segments _ Hly loc). }
  intros r w2 Hr. apply (removes_after _ w) in Hr; [|done]. destruct Hr as [[Hm Ho Ha] Hg].
  destruct r as [[]|e|]; [|by split_and!; [|intros p Hp; apply Ho, Hlive|]|done].
  split_and!; [done|intros p Hp; by apply Ho, Hlive|]. exists (s' :: older). split_and!; [done| |].
  - intros p [Hp|Hp]; apply Hg; [by left|by right; left].
  - intros id v t loc Hin Hloc. destruct (Hfiles id v t loc Hin Hloc) as [[-> Hnd]|[Hv Hlo]]; [by apply Ho|].
    rewrite (proj2 (N.eqb_neq v 0) Hv). apply Hg. by right; right.
Qed.
End gc.
