(* ===== verification/FuseModel.v ===== *)
(** * A small query node to run the fuse engine on.

    The parameters of the fuse files are instantiated: objects in a map, JSON by a plain
    encoding that leaves the statistics of columns out, numbered identifiers, and the
    default catalog over a meta service that does what SchemaSpec.v specifies.  The laws
    hold, and the theorems on commits, catalogs and purging are applied to a table. *)
From Stdlib Require Import Ascii.
From S2P Require Import Prelude MetaTypes KvApi KeyCodec SchemaApi SchemaSpec SchemaOps SchemaList SchemaInv SchemaProps.
From S2P Require Import Exception Management Lru DataValue FuseMeta FuseStats FuseIo FuseReads Catalog FuseTable CatalogProps.
From S2P Require Import FuseCommit FuseCommitProps FuseCatalog FuseGc.

(** ** Parameters *)
#[local] Instance no_capture : Capture := λ _ _, "".
#[local] Instance no_variants : VariantOrd Empty_set := λ _ _, Eq.
#[local] Instance numbers : Uuids := {| new_v4 n := N.of_nat n; to_simple n := pretty n |}.
#[local] Instance numbers_laws : UuidsLaws.
Proof. intros m n Hp. simpl in Hp. apply (inj pretty) in Hp. lia. Qed.
#[local] Instance numbers_text : UuidsText.
Proof. intros id a b Heq. pose proof (pretty_digits id) as Hd. simpl in Heq. by rewrite Heq, str_all_app, andb_false_r in Hd. Qed.
#[local] Instance ascii_uppercase : ToUppercase := ascii_upper.
#[local] Instance ascii_uppercase_laws : ToUppercaseLaws.
Proof. by intros s. Qed.
#[local] Instance no_plans : PlanParser unit := λ _, Ok [].
(** Two retries. *)
#[local] Instance two_retries : Backoff :=
  {| next_backoff n := if n <? 2 then Some 100%N else None; elapsed_ms n := (100 * N.of_nat n)%N |}.
#[local] Existing Instances list_lhm list_lhm_laws count_meter.

Definition not_there : IoErr := mkIoErr IoNotFound "no such object".
#[local] Instance map_operator : Operator (gmap string bytes) := {|
  dal_metadata p o := (match o !! p with Some b => Ok (N.of_nat (String.length b)) | None => Err not_there end, o);
  dal_read p n o := (match o !! p with Some b => Ok (String.substring 0 (N.to_nat n) b) | None => Err not_there end, o);
  dal_write p b o := (Ok tt, <[p:=b]> o);
  dal_delete p o := (Ok tt, base.delete p o) |}.
#[local] Instance map_operator_laws : OperatorLaws (gmap string bytes) id.
Proof.
  split; simpl.
  - intros p o. split; [done|]. destruct (o !! p); eauto.
  - intros p n o. split; [done|]. destruct (o !! p); eauto.
  - intros p b o. split; [intros q Hq; by rewrite lookup_insert_ne|apply lookup_insert_eq].
  - intros p o. split; [intros q Hq; by rewrite lookup_delete_ne|apply lookup_delete_eq].
Qed.
#[local] Instance map_operator_quiet : OperatorQuiet (gmap string bytes) id.
Proof.
  split; simpl; try done.
  - by intros p o [b ->].
  - intros p o ->. eauto.
  - by intros p n o [b ->].
Qed.

(** ** JSON *)
Abbreviation Snapshot := (TableSnapshot Empty_set string).
Abbreviation SnapshotV0 := (TableSnapshotV0 Empty_set string).
Abbreviation Segment := (SegmentInfo Empty_set).
Definition stats_code (s : Statistics Empty_set) : N * N * N * N :=
  (row_count s, block_count s, uncompressed_byte_size s, compressed_byte_size s).
Definition stats_of (c : N * N * N * N) : Statistics Empty_set :=
  let '(r, b, u, k) := c in mkStatistics r b u k ∅ None.
(** The text starts with a tag for the kind of document. *)
Definition json_print {A} `{Countable A} (tag : Ascii.ascii) (a : A) : res any_error bytes := Ok (String tag (plain_encode a)).
Definition json_parse {A B} `{Countable A} (tag : Ascii.ascii) (f : A → B) (b : bytes) : res any_error B :=
  match b with
  | String c b =>
      if Ascii.eqb c tag then match plain_decode b with Some a => Ok (f a) | None => Err "syntax error" end
      else Err "other document"
  | EmptyString => Err "empty document"
  end.
#[local] Instance json_snapshot : Json Snapshot := {|
  to_json s := json_print "S"%char (ts_format_version s, ts_snapshot_id s, ts_prev_snapshot_id s, ts_schema s,
    stats_code (ts_summary s), ts_segments s);
  of_json := json_parse "S"%char (λ '(v, i, p, sch, st, segs), mkTableSnapshot v i p sch (stats_of st) segs) |}.
#[local] Instance json_snapshot_v0 : Json SnapshotV0 := {|
  to_json s := json_print "s"%char (t0_snapshot_id s, t0_prev_snapshot_id s, t0_schema s, stats_code (t0_summary s), t0_segments s);
  of_json := json_parse "s"%char (λ '(i, p, sch, st, segs), mkTableSnapshotV0 i p sch (stats_of st) segs) |}.
Definition block_code (b : BlockMeta Empty_set) : N * N * N * Location :=
  (bm_row_count b, bm_block_size b, bm_file_size b, bm_location b).
Definition block_of (c : N * N * N * Location) : BlockMeta Empty_set :=
  let '(r, s, f, l) := c in mkBlockMeta r s f ∅ ∅ None l Lz4Raw.
#[local] Instance json_segment : Json Segment := {|
  to_json g := json_print "G"%char (si_format_version g, block_code <$> si_blocks g, stats_code (si_summary g));
  of_json := json_parse "G"%char (λ '(v, bs, st), mkSegmentInfo v (block_of <$> bs) (stats_of st)) |}.
Definition block_code_v0 (b : BlockMetaV0 Empty_set) : N * N * N * (string * N) :=
  (b0_row_count b, b0_block_size b, b0_file_size b, (bl_path (b0_location b), bl_meta_size (b0_location b))).
Definition block_of_v0 (c : N * N * N * (string * N)) : BlockMetaV0 Empty_set :=
  let '(r, s, f, l) := c in mkBlockMetaV0 r s f ∅ ∅ (mkBlockLocation l.1 l.2).
#[local] Instance json_segment_v0 : Json (SegmentInfoV0 Empty_set) := {|
  to_json g := json_print "g"%char (block_code_v0 <$> s0_blocks g, stats_code (s0_summary g));
  of_json := json_parse "g"%char (λ '(bs, st), mkSegmentInfoV0 (block_of_v0 <$> bs) (stats_of st)) |}.
Lemma json_parse_total {A B} `{Countable A} tag (f : A → B) b : json_parse tag f b ≠ Panic.
Proof. unfold json_parse. destruct b as [|c b]; [done|]. destruct (Ascii.eqb c tag); [|done]. by destruct (plain_decode b). Qed.
#[local] Instance json_snapshot_total : JsonTotal Snapshot.
Proof. split; [done|apply json_parse_total]. Qed.
#[local] Instance json_snapshot_v0_total : JsonTotal SnapshotV0.
Proof. split; [done|apply json_parse_total]. Qed.
#[local] Instance json_segment_total : JsonTotal Segment.
Proof. split; [done|apply json_parse_total]. Qed.
#[local] Instance json_segment_v0_total : JsonTotal (SegmentInfoV0 Empty_set).
Proof. split; [done|apply json_parse_total]. Qed.
#[local] Instance json_snapshot_laws : SnapshotJsonLaws Empty_set string.
Proof.
  intros s s' b. simpl. unfold json_print. intros [= <-]. simpl. rewrite plain_decode_encode. by intros [= <-].
Qed.
Lemma json_snapshot_ok (s : Snapshot) : is_ok (to_json s) = true.
Proof. done. Qed.

(** ** The meta service and the catalog *)
Abbreviation Cat := (cat N string).
#[local] Instance spec_service : SchemaTrait Cat N string := {|
  api_create_database req c := spec_create_database c req;
  api_drop_database req c := spec_drop_database c req;
  api_rename_database req c := spec_rename_database c req;
  api_get_database req c := (spec_get_database c req, c);
  api_list_databases req c := (Ok (spec_list_databases c req), c);
  api_create_table req c := spec_create_table c req;
  api_drop_table req c := spec_drop_table c req;
  api_rename_table req c := spec_rename_table c req;
  api_get_table req c := (spec_get_table c req, c);
  api_list_tables req c := (spec_list_tables c req, c);
  api_get_table_by_id i c := (spec_get_table_by_id c i, c);
  api_upsert_table_option req c := spec_upsert_table_option c req |}.
#[local] Instance spec_service_laws : SchemaTraitLaws (W:=Cat) eq (λ _, True).
Proof.
  split.
  - intros o c _ _ w ->. exists (spec_run c o).2. split; [|done].
    destruct o; simpl; unfold bind, tagged; simpl;
      match goal with |- context [match ?x with _ => _ end] => by destruct x as [[]] end.
  - intros req c w ->. by exists c.
  - intros req c w ->. by exists c.
  - intros req c w ->. by exists c.
  - intros req c w ->. by exists c.
  - intros req c w ->. by exists c.
Qed.
Abbreviation table := (Table N string unit).
Abbreviation Tbl := (FuseTable N string unit).
Abbreviation Log := (list (AppendOperationLogEntry Empty_set)).
Abbreviation Caches A := (list (string * A)).
Abbreviation World := (fuse_world Empty_set string Cat (gmap string bytes) (Caches Snapshot) (Caches Segment)).

Definition demo_db_meta (engine : string) : DatabaseMeta N := mkDatabaseMeta engine ∅ ∅ 0%N 0%N "".
Definition demo_conf : EngineConfig := mkEngineConfig true false.
Definition other (engine : string) (i : TableInfo N string) : res ErrorCode table := Ok (TOther engine i).
Definition demo_storages : StorageFactory (T:=table) :=
  StorageFactory_create demo_conf (other "MEMORY") (other "GITHUB") (other "NULL") make_fuse (other "VIEW").
Definition demo_mc : MutableCatalog Cat N string table :=
  mkMutableCatalog demo_storages (DatabaseFactory_create demo_conf) (λ _ _, ret tt).
Definition sys_table (name : string) (id : N) : table :=
  TOther "SystemTable" (mkTableInfo (mkTableIdent id 0) "" name (mkTableMeta "" "SystemTable" ∅ ∅ None 0%N 0%N "")).
Definition demo_im : ImmutableCatalog N table :=
  match ImmutableCatalog_create (E:=ErrorCode) table_name_of table_id_of (demo_db_meta "SYSTEM")
    [sys_table "one"; sys_table "tables"] [sys_table "COLUMNS"] with
  | Ok im => im
  | _ => mkImmutableCatalog (mkDatabaseInfo (mkDatabaseIdent 0 0) (mkDatabaseNameIdent "" "") (demo_db_meta ""))
           (mkDatabaseInfo (mkDatabaseIdent 0 0) (mkDatabaseNameIdent "" "") (demo_db_meta "")) (InMemoryMetas_create 0 0)
  end.
Definition demo_catalog : Catalog Cat N string table :=
  database_catalog (immutable_catalog get_table_info (λ _, "request") demo_im) (mutable_catalog demo_mc).

(** ** A table with two appends of one block each *)
Definition demo_db : DatabaseNameIdent := mkDatabaseNameIdent "tenant1" "db1".
Definition demo_meta : TableMeta N string :=
  mkTableMeta "(a Int64)" "FUSE" ∅ {[OPT_KEY_DATABASE_ID := "1"]} None 0%N 0%N "".
Definition demo_cat : Cat :=
  (spec_create_table (spec_create_database (mkCat ∅ 0) (mkCreateDatabaseReq false demo_db (demo_db_meta ""))).2
    (mkCreateTableReq false (mkTableNameIdent "tenant1" "db1" "t") demo_meta)).2.
Abbreviation tid := 4%N.
Definition demo_prefix : string := "1/4".
Definition demo_tbl : Tbl := mkFuseTable (mkTableInfo (mkTableIdent tid 7) "" "t" demo_meta) demo_prefix [].
Definition demo_objects (n : N) : string * string * Segment :=
  let block := gen_block_location demo_prefix (100 + n) in
  (block, gen_segment_info_location demo_prefix (100 + n),
   SegmentInfo_new [mkBlockMeta 10 80 60 ∅ ∅ None (block, 0%N) Lz4Raw] (mkStatistics 10 1 80 60 ∅ None)).
Definition demo_log (n : N) : Log :=
  let '(_, loc, seg) := demo_objects n in [mkAppendOperationLogEntry loc seg].
(** The block and the segment, as an insert writes them before it commits. *)
Definition with_data (n : N) (o : gmap string bytes) : gmap string bytes :=
  let '(block, loc, seg) := demo_objects n in
  match to_json seg with Ok b => <[block:="data"]> (<[loc:=b]> o) | _ => o end.
Definition demo_w0 : World := mkFuse demo_cat (with_data 0 (with_data 1 (with_data 2 ∅))) ∅ ∅ 0 ∅.
Definition demo_catalogs : gmap string (Catalog Cat N string table) := {[CATALOG_DEFAULT := demo_catalog]}.
Definition on_node (n : N) : QueryContext := mkQueryContext 0 n.
#[local] Instance demo_laws : TableCatalogLaws demo_catalog eq tid.
Proof.
  apply (default_catalog_laws _ _ (λ _, True) demo_conf (other "MEMORY") (other "GITHUB") (other "NULL") (other "VIEW"));
    [done| |done|done|by vm_compute].
  by split_and!; intros i.
Qed.
#[local] Instance demo_quiet : TableCatalogQuiet tid demo_catalog eq.
Proof. by apply (default_catalog_quiet _ _ (λ _, True)). Qed.

(** ** Commits *)

(** A schedule says which writer takes the next step. *)
Abbreviation Writer := (writer Empty_set N string unit).
Definition run_step (catalogs : gmap string (Catalog Cat N string table)) (i : nat) (x : World * list Writer) : option (World * list Writer) :=
  wr ← x.2 !! i;
  match writer_step catalogs CATALOG_DEFAULT tid (wr_ctx wr) (wr_log wr) (wr_phase wr) x.1 with
  | (Ok p, w') => Some (w', <[i:=mkWriter (wr_ctx wr) (wr_log wr) p]> x.2)
  | _ => None
  end.
Definition run_schedule catalogs (sched : list nat) (x : World * list Writer) : option (World * list Writer) :=
  foldl (λ o i, o ≫= run_step catalogs i) (Some x) sched.
Lemma run_schedule_steps catalogs sched x y :
  run_schedule catalogs sched x = Some y → sys_steps catalogs CATALOG_DEFAULT tid (length sched) x y.
Proof.
  revert y. induction sched as [|i sched IH] using rev_ind; intros y Hrun.
  { injection Hrun as <-. constructor. }
  unfold run_schedule in Hrun. rewrite foldl_app in Hrun. simpl in Hrun. apply bind_Some in Hrun as ([w ws] & Hx & Hstep).
  rewrite length_app. simpl. rewrite Nat.add_1_r. econstructor; [by apply IH|].
  unfold run_step in Hstep. apply bind_Some in Hstep as (wr & Hwr & Hstep). simpl in Hstep.
  destruct (writer_step _ _ _ _ _ _ w) as [[p|e|] w'] eqn:Hw; simplify_eq. by constructor.
Qed.

(** Three inserts on different nodes.  The second one finds the version of the table changed,
    looks the table up again and commits at its second attempt. *)
Definition demo_writers : list Writer :=
  (λ n, mkWriter (on_node n) (demo_log n) (Ready demo_tbl 0)) <$> [0; 1; 2]%N.
Definition demo_schedule : list nat := [0; 1; 2; 0; 1; 0; 1; 1; 1; 1; 1].
Lemma empty_store_ok n : store_ok id demo_prefix ∅ (mkFuse demo_cat (fw_objs demo_w0) ∅ ∅ n ∅ : World).
Proof. by split. Qed.
Lemma demo_files n f : f ∈ abort_locs (demo_log n) → ¬ snap_file demo_prefix f.
Proof. intros [-> |[-> |[]%elem_of_nil]%elem_of_cons]%elem_of_cons [k Hk]; discriminate Hk. Qed.
Lemma demo_started : started id demo_prefix tid eq "1" demo_cat ∅ 7 demo_meta (demo_w0, demo_writers).
Proof.
  split_and!; [done|by vm_compute|by vm_compute|apply empty_store_ok|by intros loc ?|by intros loc ?|by vm_compute|].
  intros i wr Hi. apply list_elem_of_lookup_2, list_elem_of_fmap in Hi as (n & -> & _). split; [by exists demo_tbl, 0|].
  intros f Hf. split; [by apply (demo_files n)|done].
Qed.
(** A meta service whose answers are lost once the table has version 8. *)
Definition lost : ErrorCode := exc Exc.MetaServiceError "connection reset".
Definition with_upsert f : Catalog Cat N string table :=
  mkCatalog (c_get_database demo_catalog) (c_list_databases demo_catalog) (c_create_database demo_catalog)
    (c_drop_database demo_catalog) (c_rename_database demo_catalog) (c_get_table_by_info demo_catalog)
    (c_get_table_meta_by_id demo_catalog) (c_get_table demo_catalog) (c_list_tables demo_catalog)
    (c_create_table demo_catalog) (c_drop_table demo_catalog) (c_rename_table demo_catalog) f.
Definition flaky_catalog : Catalog Cat N string table := with_upsert (λ req c,
  let r := c_upsert_table_option demo_catalog req c in if is_ok r.1 && (c_seq c =? 8)%N then (Err lost, r.2) else r).
Definition flaky_catalogs : gmap string (Catalog Cat N string table) := {[CATALOG_DEFAULT := flaky_catalog]}.
#[local] Instance flaky_laws : TableCatalogLaws flaky_catalog eq tid.
Proof.
  split; [|exact (tc_get (TableCatalogLaws:=demo_laws))|exact (tc_table (TableCatalogLaws:=demo_laws))].
  intros req w c HR Hroom Hid. pose proof (tc_upsert (TableCatalogLaws:=demo_laws) req w c HR Hroom Hid) as Hup. unfold wp in *. simpl in *.
  destruct (metaM (λ c, spec_upsert_table_option c req) w) as [[[]|e|] w']; simpl; [|done..].
  destruct (c_seq w =? 8)%N; [|done]. right. by split.
Qed.
(** With this service the second insert is committed but sees an error, so that it removes its snapshot; the third finds
    the table broken. *)
Definition flaky_schedule : list nat := [0; 1; 2; 0; 1; 0; 1; 1; 1; 1; 1; 2; 2; 2; 2].
Definition failed_as (p : phase Empty_set N string unit) : option N := match p with Failed e => Some (code e) | _ => None end.
Lemma commits_are_serial_example :
  (∃ w' ws' order m' loc s, sys_steps demo_catalogs CATALOG_DEFAULT tid 11 (demo_w0, demo_writers) (w', ws') ∧ take 2 (wr_phase <$> ws') = [Done; Done] ∧
    0 ∈ order ∧ 1 ∈ order ∧ meta_loc (DateTime:=N) (DataSchema:=string) m' = Some loc ∧
    holds id w' loc s ∧ appended None (omap (λ i, wr_log <$> demo_writers !! i) order) (core s)) ∧
  ∃ w' ws' order m', sys_steps flaky_catalogs CATALOG_DEFAULT tid 15 (demo_w0, demo_writers) (w', ws') ∧
    failed_as <$> (wr_phase <$> ws') = [None; Some (code lost); Some 3001%N] ∧ 0 ∈ order ∧
    ∀ ctx (t : Tbl), tinfo_meta _ _ (table_info t) = m' → wp (read_table_snapshot ctx t) (λ r _, match r with
      | Ok (Some s) => appended None (omap (λ i, wr_log <$> demo_writers !! i) order) (core s)
      | Err e => missing e = true → answer_lost order ws'
      | _ => False end) w'.
Proof.
  assert (∀ i order, i ∈ order → order ≠ ([] : list nat)) as Hsome by (intros i order Hin ->; by apply elem_of_nil in Hin). split.
  - assert ((λ y : World * list Writer, (take 2 (wr_phase <$> y.2), (λ wr, bool_decide (in_error wr)) <$> y.2)) <$>
      run_schedule demo_catalogs demo_schedule (demo_w0, demo_writers) = Some ([Done; Done], [false; false; false])) as Hdone by by vm_compute.
    destruct (run_schedule demo_catalogs demo_schedule (demo_w0, demo_writers)) as [[w' ws']|] eqn:Hrun; [|done].
    simpl in Hdone. injection Hdone as Hdone Herr. apply run_schedule_steps in Hrun.
    destruct (commits_are_serial id demo_prefix demo_catalogs CATALOG_DEFAULT tid demo_catalog eq_refl eq "1" eq_refl
      demo_cat ∅ 7 demo_meta 11 demo_w0 demo_writers w' ws' demo_started) as (_ & order & c' & q' & m' & _ & Hin & _ & _ & _ & Hfile & _); [by vm_compute|done|].
    assert (∀ i, i < 2 → i ∈ order) as Hord.
    { intros i Hi. destruct ws' as [|wr0 [|wr1 ws']]; try done. injection Hdone as H0 H1. destruct i as [|[|i]]; [by apply (Hin 0 wr0)|by apply (Hin 1 wr1)|lia]. }
    assert (¬ answer_lost order ws') as Hnl.
    { intros (i & wr & Hi & _ & He). apply (f_equal (.!! i)) in Herr. rewrite list_lookup_fmap, Hi in Herr. simpl in Herr. rewrite bool_decide_true in Herr by done.
      by destruct i as [|[|[|i]]]. }
    specialize (Hfile Hnl). pose proof (Hsome 0 order (Hord 0 ltac:(lia))) as Hne. destruct (meta_loc m') as [loc|] eqn:Hloc; [|by destruct Hfile].
    destruct Hfile as [[? _]|(s & Hs & Happ)]; [done|]. exists w', ws', order, m', loc, s. split_and!; [exact Hrun|exact Hdone|apply Hord; lia|apply Hord; lia|exact Hloc|exact Hs|exact Happ].
  - assert ((λ y : World * list Writer, (wr_phase <$> y.2 !! 0, failed_as <$> (wr_phase <$> y.2))) <$>
      run_schedule flaky_catalogs flaky_schedule (demo_w0, demo_writers) = Some (Some Done, [None; Some (code lost); Some 3001%N])) as Hdone by by vm_compute.
    destruct (run_schedule flaky_catalogs flaky_schedule (demo_w0, demo_writers)) as [[w' ws']|] eqn:Hrun; [|done].
    simpl in Hdone. injection Hdone as H0 Hfail. apply run_schedule_steps in Hrun.
    destruct (commits_are_serial id demo_prefix flaky_catalogs CATALOG_DEFAULT tid flaky_catalog eq_refl eq "1" eq_refl
      demo_cat ∅ 7 demo_meta 15 demo_w0 demo_writers w' ws' demo_started) as (_ & order & c' & q' & m' & _ & Hin & _ & _ & _ & _ & _ & Hread); [by vm_compute|done|].
    apply fmap_Some in H0 as (wr0 & Hw0 & H0). specialize (Hin 0 wr0 Hw0 (eq_sym H0)). pose proof (Hsome 0 order Hin) as Hne.
    exists w', ws', order, m'. split_and!; [exact Hrun|exact Hfail|exact Hin|]. intros ctx t Ht. eapply wp_mono; [exact (Hread ctx t Ht)|].
    intros [[s|]|e|] w2 Hr; [exact Hr|by destruct Hr|exact Hr|exact Hr].
Defined.
Lemma commit_terminates_example :
  (do_commit demo_catalogs 3 (on_node 0) CATALOG_DEFAULT demo_tbl (demo_log 0) false demo_w0).1 ≠ Ok None.
Proof. apply (commit_terminates demo_catalogs CATALOG_DEFAULT 2); [done|lia]. Defined.

(** The same table after a first commit. *)
Definition demo_w1 : World := (do_commit demo_catalogs 3 (on_node 0) CATALOG_DEFAULT demo_tbl (demo_log 0) false demo_w0).2.
Definition current_table (w : World) : Tbl :=
  match refresh_table demo_catalogs CATALOG_DEFAULT tid "t" w with (Ok t, _) => t | _ => demo_tbl end.
Definition demo_loc (n : N) : string := snapshot_location demo_prefix SnV1 n.
Definition demo_hist : gmap string (list Location * N) := {[demo_loc 0 := (log_segments (demo_log 0), 10%N)]}.
Definition demo_bytes (w : World) (loc : string) : bytes := default "" (fw_objs w !! loc).
Lemma demo_w1_ok : store_ok id demo_prefix demo_hist demo_w1.
Proof.
  unfold demo_hist. split.
  - intros loc k b s [<- <-]%lookup_singleton_Some Hb Hd.
    assert (b = demo_bytes demo_w1 (demo_loc 0)) as -> by (unfold demo_bytes; simpl in Hb; by rewrite Hb).
    vm_compute in Hd. by injection Hd as <-.
  - by intros node cache Hc.
  - intros k Hk. apply lookup_singleton_ne. intros Heq.
    assert (0 = k) as <- by by apply (snapshot_location_inj demo_prefix 0 k). assert (fw_uuids demo_w1 = 1) as Hu by done. lia.
Qed.
Lemma commit_alone_example :
  ∃ w' m' loc s b,
    do_commit demo_catalogs 1 (on_node 1) CATALOG_DEFAULT (current_table demo_w1) (demo_log 1) false demo_w1 = (Ok (Some tt), w') ∧
    tb_meta_of (fw_meta w') tid = Some (9%N, m') ∧ meta_loc m' = Some loc ∧ to_json s = Ok b ∧ fw_objs w' !! loc = Some b ∧
    core s = (log_segments (demo_log 1) ++ log_segments (demo_log 0), 20%N) ∧
    (is_ok (of_json (T:=Snapshot) b) = true → ∀ ctx' (t' : Tbl), tinfo_meta _ _ (table_info t') = m' →
      ∃ s', (read_table_snapshot ctx' t' w').1 = Ok (Some s') ∧ core s' = core s).
Proof.
  destruct (commit_alone id demo_prefix demo_catalogs CATALOG_DEFAULT tid demo_catalog eq_refl eq json_snapshot_ok
    (fw_meta demo_w1) demo_hist 0 (on_node 1) (current_table demo_w1) (demo_log 1) demo_w1)
    as (w' & c' & m' & loc & s & b & Hrun & HR & Hm & Hloc & Hb & Hobj & Hs & _ & Hread).
  - done.
  - by vm_compute.
  - apply demo_w1_ok.
  - by vm_compute.
  - by vm_compute.
  - intros loc Hloc. exists (log_segments (demo_log 0), 10%N). vm_compute in Hloc. injection Hloc as <-. by vm_compute.
  - by vm_compute.
  - intros loc Hloc. exists (demo_bytes demo_w1 loc). vm_compute in Hloc. injection Hloc as <-.
    eexists. split; [by vm_compute|]. vm_compute. reflexivity.
  - exists w', m', loc, s, b. split_and!; [exact Hrun| |exact Hloc|exact Hb|exact Hobj| |exact Hread].
    + rewrite HR, Hm. f_equal.
    + rewrite Hs. by vm_compute.
Defined.

(** The meta service does what it is asked to, but the answer does not arrive. *)
Definition lossy_catalog : Catalog Cat N string table := with_upsert (λ req c, (Err lost, (spec_upsert_table_option c req).2)).
Definition lossy_catalogs : gmap string (Catalog Cat N string table) := {[CATALOG_DEFAULT := lossy_catalog]}.
Definition lost_world : World :=
  (try_commit lossy_catalogs (on_node 0) CATALOG_DEFAULT demo_tbl (demo_log 0) false demo_w0).2.
Definition written_snapshot : Snapshot :=
  match prepare_commit (on_node 0) demo_tbl (demo_log 0) false demo_w0 with
  | (Ok (_, s), _) => s
  | _ => TableSnapshot_new 0 None "" Statistics_default []
  end.
Definition written_world : World := (prepare_commit (on_node 0) demo_tbl (demo_log 0) false demo_w0).2.
Definition lost_req : UpsertTableOptionReq := commit_req (table_info demo_tbl) (demo_loc 0).
Lemma lost_answer_example :
  (try_commit lossy_catalogs (on_node 0) CATALOG_DEFAULT demo_tbl (demo_log 0) false demo_w0).1 = Err lost ∧
  fst <$> tb_meta_of (fw_meta lost_world) tid = Some 8%N ∧ is_Some (fw_objs lost_world !! "1/4/_sg/100_v1.json") ∧
  ∃ e, (read_table_snapshot (on_node 1) (current_table lost_world) lost_world).1 = Err e ∧ has_code e Exc.StorageNotFound = true.
Proof.
  destruct (lost_answer_breaks_table id lossy_catalogs CATALOG_DEFAULT tid lossy_catalog eq_refl eq
    (on_node 0) demo_tbl (demo_log 0) demo_w0 (demo_loc 0) written_snapshot written_world demo_cat lost
    (spec_upsert_table_option demo_cat lost_req).2)
    as (w' & q' & m' & Htry & _ & Hm & Hread).
  { apply injective_projections; [vm_compute; reflexivity|reflexivity]. }
  { reflexivity. }
  { vm_compute; reflexivity. }
  { vm_compute; reflexivity. }
  { reflexivity. }
  assert (w' = lost_world) as -> by (unfold lost_world; by rewrite Htry).
  split_and!; [by rewrite Htry|by vm_compute|eexists; by vm_compute|].
  apply Hread; [|by vm_compute]. apply (inj Some). change (Some m') with (snd <$> Some (q', m')). rewrite <-Hm. by vm_compute.
Defined.

(** ** Purging *)

(** Two appends, then an overwrite. *)
Definition commit_next (n : N) (overwrite : bool) (w : World) : World :=
  (do_commit demo_catalogs 3 (on_node 0) CATALOG_DEFAULT (current_table w) (demo_log n) overwrite w).2.
Definition demo_w3 : World := commit_next 2 true (commit_next 1 false demo_w1).

(** What is in the store, whatever its format. *)
Definition some_view (b : bytes) : option snap_view :=
  match read_snapshot_version SnV1 b, read_snapshot_version SnV0 b with
  | Ok s, _ | _, Ok s => Some (view (s : Snapshot))
  | _, _ => None
  end.
Definition some_blocks (b : bytes) : option (list string) :=
  match read_segment_version SgV1 b, read_segment_version SgV0 b with
  | Ok g, _ | _, Ok g => Some (seg_blocks (g : Segment))
  | _, _ => None
  end.
Lemma parse_one_tag {A B A' B'} `{Countable A, Countable A'} t t' (f : A → B) (g : A' → B') b x y :
  json_parse t f b = Ok x → json_parse t' g b = Ok y → t = t'.
Proof.
  unfold json_parse. destruct b as [|c b]; [done|].
  destruct (Ascii.eqb_spec c t) as [->|]; [|done]. by destruct (Ascii.eqb_spec t t').
Qed.
Lemma one_format {A B C} `{!Json A, !Json B} (f : A → B) (b : bytes) (x y : B) :
  (∀ x y, of_json (T:=A) b = Ok x → of_json (T:=B) b = Ok y → False) →
  res_map f (jsonR (of_json b)) = Ok x → jsonR (of_json b) = Ok y → (C : Prop).
Proof.
  intros Hno Hx Hy. exfalso. unfold jsonR in *. destruct (of_json (T:=A) b) as [a|e|]; [|done..].
  destruct (of_json (T:=B) b) as [a'|e|]; [|done..]. by apply (Hno a a').
Qed.
Lemma demo_faithful (w : World) :
  fw_snapshots w = ∅ → fw_segments w = ∅ →
  faithful id demo_prefix (omap some_view (fw_objs w)) (omap some_blocks (fw_objs w)) w.
Proof.
  intros Hs Hg. split.
  - intros n c. by rewrite Hs, lookup_empty.
  - intros n c. by rewrite Hg, lookup_empty.
  - intros loc v b s _ Hb Hr. simpl in Hb. rewrite lookup_omap, Hb. simpl. unfold some_view.
    destruct v; [|by rewrite Hr]. rewrite Hr. destruct (read_snapshot_version SnV1 b) as [s'|e|] eqn:H1; [|done..].
    apply (one_format TableSnapshot_from_v0 b s s'); [|exact Hr|exact H1]. intros x y Hx Hy. by pose proof (parse_one_tag _ _ _ _ _ _ _ Hx Hy).
  - intros loc v b g _ Hb Hr. simpl in Hb. rewrite lookup_omap, Hb. simpl. unfold some_blocks.
    destruct v; [|by rewrite Hr]. rewrite Hr. destruct (read_segment_version SgV1 b) as [g'|e|] eqn:H1; [|done..].
    apply (one_format SegmentInfo_from_v0 b g g'); [|exact Hr|exact H1]. intros x y Hx Hy. by pose proof (parse_one_tag _ _ _ _ _ _ _ Hx Hy).
Qed.
Abbreviation demo_snapshots := (omap some_view (fw_objs demo_w3)).
Abbreviation demo_segments := (omap some_blocks (fw_objs demo_w3)).
Definition demo_segment (n : N) : Location := (gen_segment_info_location demo_prefix n, 1%N).
Definition demo_view2 : snap_view := mkSnapView 2 1 (Some (1, 1)%N) [demo_segment 102].
Definition demo_views : list (string * snap_view) :=
  [(demo_loc 1, mkSnapView 1 1 (Some (0, 1)%N) [demo_segment 101; demo_segment 100]);
   (demo_loc 2, demo_view2); (demo_loc 0, mkSnapView 0 1 None [demo_segment 100])].
Lemma demo_snapshots_all loc sv : demo_snapshots !! loc = Some sv → (loc, sv) ∈ demo_views.
Proof. intros Hl%elem_of_map_to_list. vm_compute in Hl. exact Hl. Qed.
Lemma demo_segments_all x bs :
  demo_segments !! x = Some bs → (x, bs) ∈ (λ n, ((demo_segment n).1, [gen_block_location demo_prefix n])) <$> [101; 102; 100]%N.
Proof. intros Hl%elem_of_map_to_list. vm_compute in Hl. exact Hl. Qed.
Definition demo_age (loc : string) : nat := if decide (loc = demo_loc 2) then 2 else if decide (loc = demo_loc 1) then 1 else 0.
Ltac cases H := repeat (apply elem_of_cons in H as [H|H]; [injection H as -> ->|]); [..|by apply elem_of_nil in H].
Ltac segments H := repeat (apply elem_of_cons in H as [H|H]; [injection H as -> ->|]); try by apply elem_of_nil in H.
Lemma location_cases id v loc :
  snapshot_location_from_uuid demo_prefix id v = Ok loc → ∃ ver, loc = snapshot_location demo_prefix ver id.
Proof.
  unfold snapshot_location_from_uuid. destruct (SnapshotVersion_try_from v) as [ver|e|]; [|done..]. simpl.
  intros [= <-]. by exists ver.
Qed.
Lemma demo_format loc sv x v : demo_snapshots !! loc = Some sv → (x, v) ∈ sv_segs sv → v = 1%N.
Proof. intros H%demo_snapshots_all Hx. cases H; segments Hx; done. Qed.
Lemma demo_layout : layout demo_prefix demo_snapshots demo_segments demo_age (demo_loc 2).
Proof.
  split.
  - by vm_compute.
  - intros loc sv x v H%demo_snapshots_all Hx. cases H; segments Hx; by vm_compute.
  - intros x bs p H%demo_segments_all Hp. simpl in H. cases H; apply list_elem_of_singleton in Hp as ->; by vm_compute.
  - intros loc sv loc' sv' x v v' H H' Hx Hx'. exact (eq_trans (demo_format loc sv x v H Hx) (eq_sym (demo_format loc' sv' x v' H' Hx'))).
  - intros loc sv id v loc' H%demo_snapshots_all Hp [ver ->]%location_cases.
    cases H; simpl in Hp; simplify_eq; destruct ver; vm_compute; lia.
  - intros loc sv id v H%demo_snapshots_all Hp [ver Hloc]%location_cases. cases H; simpl in Hp; simplify_eq; by destruct ver.
  - intros loc sv id v H%demo_snapshots_all [ver Hloc]%location_cases. cases H.
    all: destruct ver; [by pose proof (versions_apart demo_prefix id _ (eq_sym Hloc))|]; split; [|done]; unfold demo_loc, snapshot_location in Hloc; do 4 apply (inj (String.append _)) in Hloc;
      apply app_inj_r in Hloc; by apply (inj pretty) in Hloc.
  - intros loc sv v H%demo_snapshots_all Hne [ver Hloc]%location_cases. cases H; try done; by destruct ver.
Qed.
Lemma optimize_safe_example :
  let '(r, w') := do_optimize 5 (on_node 0) (current_table demo_w3) true demo_w3 in
  r = Ok (Some tt) ∧
  (map_to_list (fw_objs w')).*1 = ["1/4/_sg/102_v1.json"; "1/4/_ss/2_v1.json"; "1/4/_b/102_v0.parquet"] ∧
  ∃ older : list ((N * N) * Snapshot), linked demo_prefix demo_snapshots (fw_objs demo_w3) (Some (1, 1)%N) older ∧
    gone id (unused demo_segments {[demo_segment 102]} older.*2) w' ∧
    ∀ id v s loc, ((id, v), s) ∈ older → snapshot_location_from_uuid demo_prefix id v = Ok loc →
      fw_objs w' !! loc = if (v =? 0)%N then fw_objs demo_w3 !! loc else None.
Proof.
  pose proof (optimize_safe id demo_prefix demo_snapshots demo_segments demo_age 5 (on_node 0) (current_table demo_w3) demo_w3
    (demo_loc 2) demo_view2) as Hopt.
  assert ((λ x, (x.1, (map_to_list (fw_objs x.2)).*1)) (do_optimize 5 (on_node 0) (current_table demo_w3) true demo_w3) =
    (Ok (Some tt), ["1/4/_sg/102_v1.json"; "1/4/_ss/2_v1.json"; "1/4/_b/102_v0.parquet"])) as Hrun by by vm_compute.
  unfold wp in Hopt. destruct (do_optimize 5 (on_node 0) (current_table demo_w3) true demo_w3) as [r w'].
  injection Hrun as Hr Ho. destruct Hopt as (_ & _ & Hlast); [by apply demo_faithful|apply demo_layout|by vm_compute|by vm_compute|by eexists; vm_compute|by vm_compute|].
  rewrite Hr in Hlast. split_and!; [done..|]. destruct Hlast as (older & Hl & Hg & Hf). exists older. split; [exact Hl|]. split; [|exact Hf].
  change (list_to_set (sv_segs demo_view2)) with ({[demo_segment 102]} ∪ ∅ : gset Location) in Hg. by rewrite union_empty_r_L in Hg.
Defined.

(** A history with a snapshot of version 0: its file is looked for under the name that
    version 1 would give it, so it stays while its segment is removed; the next purge then
    finds the old snapshot, misses the segment and fails, and so will every one after it. *)
Definition old_snapshot : SnapshotV0 := mkTableSnapshotV0 900 None "(a Int64)" (mkStatistics 10 1 80 60 ∅ None) ["1/4/_sg/900"].
Definition old_segment_v0 : SegmentInfoV0 Empty_set :=
  mkSegmentInfoV0 [mkBlockMetaV0 10 80 60 ∅ ∅ (mkBlockLocation "1/4/_b/900.parquet" 4)] (mkStatistics 10 1 80 60 ∅ None).
Definition old_loc : string := snapshot_location demo_prefix SnV0 900.
Definition old_world : World :=
  let o := fw_objs demo_w0 in
  let o := match to_json old_snapshot with Ok b => <[old_loc:=b]> o | _ => o end in
  let o := match to_json old_segment_v0 with Ok b => <["1/4/_sg/900":=b]> o | _ => o end in
  mkFuse (spec_upsert_table_option demo_cat (UpsertTableOptionReq_new (mkTableIdent tid 7) OPT_KEY_SNAPSHOT_LOCATION old_loc)).2
    (<["1/4/_b/900.parquet":="data"]> o) ∅ ∅ 0 ∅.
Definition optimize_now (w : World) : res ErrorCode (option unit) * World :=
  do_optimize 5 (on_node 0) (current_table w) true w.
Lemma old_format_example :
  let w := commit_next 1 true old_world in
  (optimize_now w).1 = Ok (Some tt) ∧ fw_objs (optimize_now w).2 !! "1/4/_sg/900" = None ∧
  is_Some (fw_objs (optimize_now w).2 !! old_loc) ∧
  res_map (λ _, tt) (map_err code (optimize_now (optimize_now w).2).1) = Err (Exc.code_of Exc.StorageNotFound).
Proof. simpl. split_and!; [by vm_compute|by vm_compute|by eexists; vm_compute|by vm_compute]. Qed.

(** Truncating with purge through an outdated handle of the table: the statement fails with
    a version mismatch, but the segments of the current snapshot are gone by then. *)
Definition truncate_stale : res ErrorCode (option unit) * World :=
  do_truncate demo_catalogs 5 (on_node 0) (current_table demo_w1) (mkTruncateTablePlan CATALOG_DEFAULT "db1" "t" true)
    (commit_next 1 false demo_w1).
Lemma truncate_stale_example :
  res_map (λ _, tt) (map_err code truncate_stale.1) = Err (Exc.code_of Exc.TableVersionMismatched) ∧
  (∃ s, (read_table_snapshot (on_node 0) (current_table truncate_stale.2) truncate_stale.2).1 = Ok (Some s) ∧
     demo_segment 100 ∈ ts_segments s) ∧
  fw_objs truncate_stale.2 !! (demo_segment 100).1 = None ∧ fw_objs truncate_stale.2 !! "1/4/_b/100_v0.parquet" = None.
Proof.
  split_and!; [by vm_compute| |by vm_compute|by vm_compute].
  eexists. split; [vm_compute; reflexivity|]. right. left.
Qed.

(** ** Catalogs *)
Definition create_req (name engine : string) : CreateDatabaseReq N :=
  mkCreateDatabaseReq false (mkDatabaseNameIdent "tenant1" name) (demo_db_meta engine).
Lemma unknown_engine_example :
  ∃ c' e e', c_create_database demo_catalog (create_req "db2" "MYSQL") demo_cat = (Err e, c') ∧
    has_code e Exc.UnknownDatabaseEngine = true ∧
    db_of c' (mkDatabaseNameIdent "tenant1" "db2") = Some (8%N, 10%N, demo_db_meta "MYSQL") ∧
    c_list_databases demo_catalog "tenant1" c' = (Err e', c') ∧ has_code e' Exc.UnknownDatabaseEngine = true.
Proof.
  destruct (unknown_engine_breaks_list get_table_info (λ _, "request") eq (λ _, True) demo_im demo_mc
    (create_req "db2" "MYSQL") demo_cat) as (c' & e & e' & Hcreate & He & Hdb & Hlist & He').
  - done.
  - by vm_compute.
  - done.
  - by vm_compute.
  - by vm_compute.
  - intros k f i Hf. unfold demo_mc, database_factory, DatabaseFactory_create, DatabaseFactory in Hf. simpl in Hf.
    apply lookup_insert_Some in Hf as [[_ <-]|[_ Hf]]; [done|].
    by rewrite lookup_empty in Hf.
  - intros [f Hf]. by vm_compute in Hf.
  - destruct (Hcreate demo_cat eq_refl) as (w1 & Hrun & ->). destruct (Hlist c' eq_refl) as (w2 & Hrun2 & ->).
    by exists c', e, e'.
Defined.
Lemma created_database_example :
  ∃ c', c_create_database demo_catalog (create_req "information_schema" "") demo_cat = (Ok (mkCreateDatabaseReply 8), c') ∧
    db_of c' (mkDatabaseNameIdent "tenant1" "information_schema") = Some (8%N, 10%N, demo_db_meta "") ∧
    c_get_database demo_catalog "tenant1" "information_schema" c' = (Ok (InformationSchemaDatabase (info_schema_db demo_im)), c').
Proof.
  destruct (created_database_lookup get_table_info (λ _, "request") eq (λ _, True) demo_im demo_mc
    (create_req "information_schema" "") demo_cat) as (c' & Hcreate & Hdb & Hget & _);
    [done|done|done|by eexists; vm_compute|done|by vm_compute|by vm_compute|done|].
  destruct (Hcreate demo_cat eq_refl) as (w1 & Hrun & ->). destruct (Hget c' eq_refl) as (w2 & Hrun2 & ->).
  exists c'. split_and!; [exact Hrun|exact Hdb|exact Hrun2].
Defined.
