(* ===== verification/HashTable.v ===== *)
(** * The hash table of the aggregations (src/query/src/common/hashtable).

    Open addressing with linear probing in a buffer of 2^d entities; a cell is empty when
    its key is the zero key, and the entry of the zero key itself is kept aside.  The
    buffer grows in place: it is extended and the entities are moved where they belong.

    A pointer to an entity is a place in the buffer or the entity of the zero key.  [None]
    stands for an access outside of the buffer and for a search that never ends; the
    theorems of HashTableProps.v show that neither happens. *)
From S2P Require Import Prelude.

(** ** Machine integers *)
Definition to_isize (z : Z) : Z := ((z + 2 ^ 63) `mod` 2 ^ 64 - 2 ^ 63)%Z.
(** [1_isize << d]; the amount of a shift is taken modulo 64. *)
Definition isize_shl (d : Z) : Z := to_isize (2 ^ (d `mod` 64))%Z.
Definition usize_shl (d : Z) : Z := (2 ^ (d `mod` 64))%Z.
Definition u8_add (a b : Z) : Z := ((a + b) `mod` 256)%Z.

(** ** Keys: hash_table_key.rs *)
Class HashTableKeyable (K : Type) := {
  BEFORE_EQ_HASH : bool;
  key_is_zero : K → bool;
  fast_hash : K → Z;
  set_key : K → K → K;
}.
#[global] Hint Mode HashTableKeyable ! : typeclass_instances.
(** Memory filled with zeros. *)
Class Zeroed (A : Type) := zeroed : A.
#[global] Hint Mode Zeroed ! : typeclass_instances.

(** The integer types; their conversion to [u64] extends the sign. *)
Definition u64_shr_xor (h : Z) (n : Z) : Z := Z.lxor h (Z.shiftr h n).
Definition wrapping_mul (a b : Z) : Z := ((a * b) `mod` 2 ^ 64)%Z.
Definition primitive_hash (x : Z) : Z :=
  let hash_value := (x `mod` 2 ^ 64)%Z in
  let hash_value := u64_shr_xor hash_value 33 in
  let hash_value := wrapping_mul hash_value 0xff51afd7ed558ccd in
  let hash_value := u64_shr_xor hash_value 33 in
  let hash_value := wrapping_mul hash_value 0xc4ceb9fe1a85ec53 in
  u64_shr_xor hash_value 33.
Definition primitive_keyable : HashTableKeyable Z := {|
  BEFORE_EQ_HASH := false;
  key_is_zero x := (x =? 0)%Z;
  fast_hash := primitive_hash;
  set_key _ new_value := new_value |}.
(** A reference to the bytes of a key: keys_ref.rs.  The memory does not change while the
    table is in use, so a reference stands for its bytes; [hash] is the crate ahash. *)
Definition keys_ref_keyable (hash : string → Z) : HashTableKeyable string := {|
  BEFORE_EQ_HASH := true;
  key_is_zero k := String.length k =? 0;
  fast_hash := hash;
  set_key _ new_value := new_value |}.

(** ** Growers: hash_table_grower.rs *)

(** The two growers differ in the degree from which on they double. *)
Definition single_level_limit : Z := 23.
Definition two_level_limit : Z := 15.
Record Grower := mkGrower { size_degree : Z; g_max_size : Z }.
Definition grower_default : Grower := mkGrower 8 (isize_shl 8).
Definition overflow (self : Grower) (size : Z) : bool := (usize_shl (size_degree self - 1) <? size)%Z.
Definition place (self : Grower) (hash_value : Z) : Z := Z.land (to_isize hash_value) (g_max_size self - 1)%Z.
Definition next_place (self : Grower) (old_place : Z) : Z := Z.land (old_place + 1) (g_max_size self - 1)%Z.
Definition increase_size (limit : Z) (self : Grower) : Grower :=
  let d := u8_add (size_degree self) (if (limit <=? size_degree self)%Z then 1 else 2)%Z in
  mkGrower d (isize_shl d).

(** ** Entities: hash_table_entity.rs *)
Record KeyValueEntity (K V : Type) := mkEntity { e_key : K; e_value : V; e_hash : Z }.
Arguments mkEntity {K V} _ _ _.
Arguments e_key {K V} _.
Arguments e_value {K V} _.
Arguments e_hash {K V} _.

Section table.
Context {K V : Type} `{!EqDecision K, !HashTableKeyable K, !Zeroed K, !Zeroed V}.
Abbreviation Entity := (KeyValueEntity K V).
Context (limit : Z).

Definition zero_entity_bytes : Entity := mkEntity zeroed zeroed 0.
Definition is_zero (self : Entity) : bool := key_is_zero (e_key self).
Definition key_equals (self : Entity) (key : K) (hash : Z) : bool :=
  if BEFORE_EQ_HASH (K:=K) && negb (e_hash self =? hash)%Z then false else bool_decide (e_key self = key).
Definition set_key_and_hash (self : Entity) (key : K) (hash : Z) : Entity :=
  mkEntity (set_key (e_key self) key) (e_value self) hash.
Definition set_value (value : V) (self : Entity) : Entity := mkEntity (e_key self) value (e_hash self).

(** ** The table: hash_table.rs *)
Record HashTable := mkHashTable {
  ht_size : Z; grower : Grower; entities : list Entity; zero_entity : option Entity }.
Inductive ptr := PPlace (p : Z) | PZero.

Definition create : HashTable := mkHashTable 0 grower_default (replicate (Z.to_nat (isize_shl 8)) zero_entity_bytes) None.
Definition ht_len (self : HashTable) : Z := ht_size self.
Definition ht_is_empty (self : HashTable) : bool := (ht_size self =? 0)%Z.

(** The cell at a place. *)
Definition cell (l : list Entity) (p : Z) : option Entity := if (0 <=? p)%Z then l !! Z.to_nat p else None.
Definition deref (self : HashTable) (p : ptr) : option Entity :=
  match p with PPlace p => cell (entities self) p | PZero => zero_entity self end.
Definition with_entities (self : HashTable) (l : list Entity) : HashTable :=
  mkHashTable (ht_size self) (grower self) l (zero_entity self).
(** Writing through a pointer. *)
Definition update (f : Entity → Entity) (self : HashTable) (p : ptr) : HashTable :=
  match p with
  | PPlace p => with_entities self (alter f (Z.to_nat p) (entities self))
  | PZero => mkHashTable (ht_size self) (grower self) (entities self) (f <$> zero_entity self)
  end.

Fixpoint find_loop (fuel : nat) (self : HashTable) (key : K) (hash_value place_value : Z) : option Z :=
  match fuel with
  | O => None
  | S fuel =>
      e ← cell (entities self) place_value;
      if is_zero e || key_equals e key hash_value then Some place_value
      else find_loop fuel self key hash_value (next_place (grower self) place_value)
  end.
Definition find_entity (self : HashTable) (key : K) (hash_value : Z) : option Z :=
  find_loop (length (entities self)) self key hash_value (place (grower self) hash_value).
Definition find_key (self : HashTable) (key : K) : option (option ptr) :=
  if negb (key_is_zero key) then
    place_value ← find_entity self key (fast_hash key);
    e ← cell (entities self) place_value;
    Some (if is_zero e then None else Some (PPlace place_value))
  else Some ((λ _, PZero) <$> zero_entity self).

Definition swap (l : list Entity) (i j : Z) : option (list Entity) :=
  a ← cell l i;
  b ← cell l j;
  Some (<[Z.to_nat j:=a]> (<[Z.to_nat i:=b]> l)).
Definition reinsert (self : HashTable) (index hash_value : Z) : option HashTable :=
  if (index =? place (grower self) hash_value)%Z then Some self
  else
    e ← cell (entities self) index;
    p ← find_entity self (e_key e) hash_value;
    new_entity ← cell (entities self) p;
    if is_zero new_entity then with_entities self <$> swap (entities self) index p else Some self.
(** The entities of the old buffer. *)
Fixpoint reinsert_old (count : nat) (index : Z) (self : HashTable) : option HashTable :=
  match count with
  | O => Some self
  | S count =>
      e ← cell (entities self) index;
      self ← (if is_zero e then Some self else reinsert self index (e_hash e));
      reinsert_old count (index + 1)%Z self
  end.
(** Those that were carried over its end, up to the first empty cell. *)
Fixpoint reinsert_tail (count : nat) (index : Z) (self : HashTable) : option HashTable :=
  match count with
  | O => Some self
  | S count =>
      e ← cell (entities self) index;
      if is_zero e then Some self
      else self ← reinsert self index (e_hash e); reinsert_tail count (index + 1)%Z self
  end.
Definition resize (self : HashTable) : option HashTable :=
  let old_size := g_max_size (grower self) in
  let new_grower := increase_size limit (grower self) in
  if (old_size <? g_max_size new_grower)%Z then
    let l := entities self ++ replicate (Z.to_nat (g_max_size new_grower - old_size)) zero_entity_bytes in
    self ← reinsert_old (Z.to_nat old_size) 0 (mkHashTable (ht_size self) new_grower l (zero_entity self));
    reinsert_tail (Z.to_nat (g_max_size new_grower - old_size)) old_size self
  else Some self.

(** Inserting returns the pointer, whether the key is new, and the table. *)
Definition insert_non_zero_key_impl (self : HashTable) (place_value : Z) (key : K) (hash_value : Z)
    : option (ptr * bool * HashTable) :=
  entity ← cell (entities self) place_value;
  if negb (is_zero entity) then Some (PPlace place_value, false, self)
  else
    let self := mkHashTable (ht_size self + 1)%Z (grower self)
      (<[Z.to_nat place_value:=set_key_and_hash entity key hash_value]> (entities self)) (zero_entity self) in
    if overflow (grower self) (ht_size self) then
      self ← resize self;
      new_place ← find_entity self key hash_value;
      Some (PPlace new_place, true, self)
    else Some (PPlace place_value, true, self).
Definition insert_non_zero_key (self : HashTable) (key : K) (hash_value : Z) : option (ptr * bool * HashTable) :=
  place_value ← find_entity self key hash_value;
  insert_non_zero_key_impl self place_value key hash_value.
Definition insert_if_zero_key (self : HashTable) (key : K) (hash_value : Z) : option (ptr * bool * HashTable) :=
  if key_is_zero key then
    match zero_entity self with
    | Some _ => Some (PZero, false, self)
    | None =>
        Some (PZero, true, mkHashTable (ht_size self + 1)%Z (grower self) (entities self)
          (Some (set_key_and_hash zero_entity_bytes key hash_value)))
    end
  else None.
Definition insert_hash_key (self : HashTable) (key : K) (hash : Z) : option (ptr * bool * HashTable) :=
  match insert_if_zero_key self key hash with
  | None => insert_non_zero_key self key hash
  | Some r => Some r
  end.
Definition insert_key (self : HashTable) (key : K) : option (ptr * bool * HashTable) :=
  insert_hash_key self key (fast_hash key).

(** ** Iteration: hash_table_iter.rs *)

(** The position of an iterator starts at -2.  After the end it keeps moving. *)
Fixpoint skip_zero (fuel : nat) (l : list Entity) (capacity idx : Z) : option Z :=
  match fuel with
  | O => None
  | S fuel =>
      if (idx <? capacity)%Z then
        e ← cell l idx;
        if is_zero e then skip_zero fuel l capacity (idx + 1)%Z else Some idx
      else Some idx
  end.
Definition iter_next (self : HashTable) (idx : Z) : option (option ptr * Z) :=
  match (if (idx =? -2)%Z then zero_entity self else None) with
  | Some _ => Some (Some PZero, -1)%Z
  | None =>
      let capacity := g_max_size (grower self) in
      let idx := if (idx =? -2)%Z then (-1)%Z else idx in
      idx ← skip_zero (S (Z.to_nat capacity)) (entities self) capacity (idx + 1)%Z;
      Some (if (idx =? capacity)%Z then None else Some (PPlace idx), idx)
  end.
End table.
Arguments HashTable K V : clear implicits.

(** ** Two levels: two_level_hash_table.rs *)
Section kinds.
Context {K V : Type} `{!EqDecision K, !HashTableKeyable K, !Zeroed K, !Zeroed V}.
Abbreviation table := (HashTable K V).
Definition BITS_FOR_BUCKET : Z := 8.
Definition NUM_BUCKETS : nat := Z.to_nat (usize_shl BITS_FOR_BUCKET).
Definition MAX_BUCKECT : Z := usize_shl BITS_FOR_BUCKET - 1.

(** A pointer tells the table of its entity. *)
Definition two_create : list table := replicate NUM_BUCKETS create.
Definition two_len (self : list table) : Z := foldr (λ t n, (ht_len t + n)%Z) 0%Z self.
Definition get_bucket_from_hash (hash_value : Z) : nat :=
  Z.to_nat (Z.land (Z.shiftr hash_value (64 - BITS_FOR_BUCKET)) MAX_BUCKECT).
Definition two_insert_hash_key (self : list table) (key : K) (hash : Z) : option ((nat * ptr) * bool * list table) :=
  let bucket := get_bucket_from_hash hash in
  t ← self !! bucket;
  '(p, inserted, t) ← insert_hash_key two_level_limit t key hash;
  Some ((bucket, p), inserted, <[bucket:=t]> self).
Definition two_insert_key (self : list table) (key : K) : option ((nat * ptr) * bool * list table) :=
  two_insert_hash_key self key (fast_hash key).
Definition two_find_key (self : list table) (key : K) : option (option (nat * ptr)) :=
  let bucket := get_bucket_from_hash (fast_hash key) in
  t ← (self !! bucket : option table);
  p ← (find_key t key : option (option ptr));
  Some (pair bucket <$> (p : option ptr)).
(** The iterator over the tables from [index] on, each with its own position. *)
Fixpoint two_next (fuel : nat) (self : list table) (idxs : list Z) (index : nat) : option (option (nat * ptr) * list Z * nat) :=
  match fuel with
  | O => None
  | S fuel =>
      t ← self !! index;
      idx ← idxs !! index;
      '(p, idx) ← iter_next t idx;
      let idxs := <[index:=idx]> idxs in
      match p with
      | Some p => Some (Some (index, p), idxs, index)
      | None =>
          if index <? length idxs - 1 then two_next fuel self idxs (S index)
          else Some (None, idxs, index)
      end
  end.

(** A table of either kind. *)
Inductive HashTableKind := OneLevel (t : table) | TwoLevel (ts : list table).
Inductive kind_iter := OneIter (idx : Z) | TwoIter (idxs : list Z) (index : nat).
Definition create_hash_table : HashTableKind := OneLevel create.
Definition create_two_level_hash_table : HashTableKind := TwoLevel two_create.
Definition kind_len (self : HashTableKind) : Z :=
  match self with OneLevel data => ht_len data | TwoLevel data => two_len data end.
Definition kind_is_empty (self : HashTableKind) : bool := (kind_len self =? 0)%Z.
Definition kind_insert_hash_key (self : HashTableKind) (key : K) (hash : Z) : option ((nat * ptr) * bool * HashTableKind) :=
  match self with
  | OneLevel data => '(p, inserted, data) ← insert_hash_key single_level_limit data key hash; Some ((0, p), inserted, OneLevel data)
  | TwoLevel data => '(p, inserted, data) ← two_insert_hash_key data key hash; Some (p, inserted, TwoLevel data)
  end.
Definition kind_insert_key (self : HashTableKind) (key : K) : option ((nat * ptr) * bool * HashTableKind) :=
  match self with
  | OneLevel data => '(p, inserted, data) ← insert_key single_level_limit data key; Some ((0, p), inserted, OneLevel data)
  | TwoLevel data => '(p, inserted, data) ← two_insert_key data key; Some (p, inserted, TwoLevel data)
  end.
Definition kind_deref (self : HashTableKind) (p : nat * ptr) : option (KeyValueEntity K V) :=
  match self with
  | OneLevel data => deref data p.2
  | TwoLevel data => t ← data !! p.1; deref t p.2
  end.
Definition kind_update (f : KeyValueEntity K V → KeyValueEntity K V) (self : HashTableKind) (p : nat * ptr) : HashTableKind :=
  match self with
  | OneLevel data => OneLevel (update f data p.2)
  | TwoLevel data => TwoLevel (alter (λ t, update f t p.2) p.1 data)
  end.
Definition kind_iter_create (self : HashTableKind) : kind_iter :=
  match self with OneLevel _ => OneIter (-2) | TwoLevel ts => TwoIter (replicate (length ts) (-2)%Z) 0 end.
Definition kind_next (self : HashTableKind) (it : kind_iter) : option (option (nat * ptr) * kind_iter) :=
  match self, it with
  | OneLevel data, OneIter idx => '(p, idx) ← iter_next data idx; Some (pair 0 <$> (p : option ptr), OneIter idx)
  | TwoLevel data, TwoIter idxs index =>
      '(p, idxs, index) ← two_next (S (length data)) data idxs index; Some (p, TwoIter idxs index)
  | _, _ => None
  end.

(** Each entity changes places with the new one under its key. *)
Fixpoint convert_loop (fuel : nat) (old new : HashTableKind) (it : kind_iter) : option HashTableKind :=
  match fuel with
  | O => None
  | S fuel =>
      '(p, it) ← kind_next old it;
      match p with
      | None => Some new
      | Some p =>
          old_entity ← kind_deref old p;
          '(q, inserted, new) ← kind_insert_key new (e_key old_entity);
          if (inserted : bool) then
            new_entity ← kind_deref new q;
            convert_loop fuel (kind_update (λ _, new_entity) old p) (kind_update (λ _, old_entity) new q) it
          else convert_loop fuel old new it
      end
  end.
Definition convert_to_two_level (self : HashTableKind) : option HashTableKind :=
  if kind_is_empty self then Some create_two_level_hash_table
  else convert_loop (S (Z.to_nat (kind_len self))) self create_two_level_hash_table (kind_iter_create self).
End kinds.
Arguments HashTableKind K V : clear implicits.
