(* ===== verification/HashTableProps.v ===== *)
(** * The hash table is a map.

    The invariant: every entity is reached from the place of its hash over taken cells, no
    key occurs twice, and at least half of the cells are empty.  It holds again after the
    buffer was extended and its entities were moved in place. *)
From S2P Require Import Prelude HashTable.

(** ** Machine integers *)
#[local] Open Scope Z_scope.
Lemma to_isize_mod h d : 0 ≤ d ≤ 62 → to_isize h `mod` 2 ^ d = h `mod` 2 ^ d.
Proof.
  intros Hd. unfold to_isize. pose proof (Z_div_mod_eq_full (h + 2 ^ 63) (2 ^ 64)) as Hq. set (q := (h + 2 ^ 63) `div` 2 ^ 64) in *.
  assert (2 ^ 64 = 2 ^ (64 - d) * 2 ^ d) as H64 by (rewrite <-Z.pow_add_r by lia; f_equal; lia).
  replace ((h + 2 ^ 63) `mod` 2 ^ 64 - 2 ^ 63) with (h + - (2 ^ (64 - d) * q) * 2 ^ d); [apply Z_mod_plus_full|].
  replace (- (2 ^ (64 - d) * q) * 2 ^ d) with (- (2 ^ (64 - d) * 2 ^ d * q)) by ring. rewrite <-H64. lia.
Qed.
Lemma isize_shl_small d : 0 ≤ d ≤ 62 → isize_shl d = 2 ^ d.
Proof.
  intros Hd. unfold isize_shl, to_isize. rewrite (Z.mod_small d) by lia.
  assert (0 < 2 ^ d) by (apply Z.pow_pos_nonneg; lia). assert (2 ^ d ≤ 2 ^ 62) by (apply Z.pow_le_mono_r; lia).
  rewrite Z.mod_small by lia. lia.
Qed.
Lemma land_mask x d : 0 ≤ d → Z.land x (2 ^ d - 1) = x `mod` 2 ^ d.
Proof. intros Hd. rewrite <-Z.land_ones by done. f_equal. rewrite Z.ones_equiv. lia. Qed.

(** ** Growers *)
Definition grower_ok (g : Grower) (d : Z) : Prop := size_degree g = d ∧ g_max_size g = 2 ^ d ∧ 8 ≤ d ≤ 62.
Lemma default_ok : grower_ok grower_default 8.
Proof. by split_and!. Qed.
Lemma place_ok g d h : grower_ok g d → place g h = h `mod` 2 ^ d.
Proof. intros (_ & Hm & Hd). unfold place. rewrite Hm, land_mask by lia. apply to_isize_mod. lia. Qed.
Lemma next_place_ok g d p : grower_ok g d → 0 ≤ p < 2 ^ d → next_place g p = if p + 1 =? 2 ^ d then 0 else p + 1.
Proof.
  intros (_ & Hm & Hd) Hp. unfold next_place. rewrite Hm, land_mask by lia. destruct (Z.eqb_spec (p + 1) (2 ^ d)) as [->|].
  - apply Z_mod_same_full.
  - apply Z.mod_small. lia.
Qed.
Lemma overflow_ok g d n : grower_ok g d → overflow g n = (2 ^ (d - 1) <? n).
Proof. intros (Hs & _ & Hd). unfold overflow, usize_shl. by rewrite Hs, Z.mod_small by lia. Qed.
(** Growing at least doubles. *)
Lemma increase_ok limit g d : grower_ok g d → d ≤ 60 →
  ∃ d', grower_ok (increase_size limit g) d' ∧ d < d' ≤ d + 2 ∧ 2 * 2 ^ d ≤ 2 ^ d'.
Proof.
  intros (Hs & Hm & Hd) Hroom. unfold increase_size. rewrite Hs.
  set (d' := u8_add d _). assert (d < d' ≤ d + 2) as Hd'.
  { subst d'. unfold u8_add. destruct (limit <=? d); rewrite Z.mod_small; lia. }
  exists d'. split; [split_and!; [done|simpl; apply isize_shl_small; lia|lia..]|split; [done|]].
  replace (2 * 2 ^ d) with (2 ^ (d + 1)) by (rewrite Z.pow_add_r by lia; lia). apply Z.pow_le_mono_r; lia.
Qed.

(** ** Ways round the buffer *)

(** All places from [a] on, before [p] is reached, satisfy [P]. *)
Definition reach (P : Z → Prop) (n a p : Z) : Prop :=
  (a ≤ p ∧ ∀ j, a ≤ j < p → P j) ∨ (p < a ∧ (∀ j, a ≤ j < n → P j) ∧ ∀ j, 0 ≤ j < p → P j).
Lemma reach_refl P n a : reach P n a a.
Proof. left. split; [done|lia]. Qed.
Lemma reach_mono (P Q : Z → Prop) n a p : (∀ j, P j → Q j) → reach P n a p → reach Q n a p.
Proof. intros HPQ [[? ?]|(? & ? & ?)]; [left|right]; split_and!; eauto. Qed.
Lemma reach_next P n a s z :
  0 ≤ a < n → 0 ≤ s < n → reach P n a s → P s → 0 ≤ z < n → ¬ P z → reach P n a (if s + 1 =? n then 0 else s + 1).
Proof.
  intros Ha Hs Hr HP Hz Hnz. destruct (Z.eqb_spec (s + 1) n) as [Heq|Hne].
  - destruct Hr as [[Has Hp]|(Hlt & H1 & H2)].
    + destruct (Z.eq_dec a 0) as [->|]; [left; split; lia|]. right. split_and!; [lia| |lia].
      intros j Hj. destruct (Z.eq_dec j s) as [->|]; [done|apply Hp; lia].
    + lia.
  - destruct Hr as [[Has Hp]|(Hlt & H1 & H2)].
    + left. split; [lia|]. intros j Hj. destruct (Z.eq_dec j s) as [->|]; [done|apply Hp; lia].
    + destruct (Z.eq_dec (s + 1) a) as [Heq|].
      { exfalso. destruct (Z.lt_ge_cases z a); [|by apply Hnz, H1; lia].
        destruct (Z.eq_dec z s) as [->|]; [done|apply Hnz, H2; lia]. }
      right. split_and!; [lia|done|]. intros j Hj. destruct (Z.eq_dec j s) as [->|]; [done|apply H2; lia].
Qed.
(** The number of steps from [s] to [z]. *)
Definition steps_to (n s z : Z) : Z := if s <=? z then z - s else z + n - s.

Section table.
Context {K V : Type} `{!EqDecision K, !HashTableKeyable K, !Zeroed K, !Zeroed V}.
Abbreviation Entity := (KeyValueEntity K V).
Abbreviation table := (HashTable K V).
Implicit Types (l : list Entity) (e f : Entity) (t : table).

(** ** Cells *)
Lemma cell_some l p e : cell l p = Some e → 0 ≤ p < Z.of_nat (length l).
Proof. unfold cell. destruct (Z.leb_spec 0 p); [|done]. intros Hl%lookup_lt_Some. lia. Qed.
Lemma cell_in l p : 0 ≤ p < Z.of_nat (length l) → is_Some (cell l p).
Proof. intros Hp. unfold cell. destruct (Z.leb_spec 0 p); [|lia]. apply lookup_lt_is_Some. lia. Qed.
Lemma cell_insert l p q e :
  0 ≤ p < Z.of_nat (length l) → 0 ≤ q → cell (<[Z.to_nat p:=e]> l) q = if decide (p = q) then Some e else cell l q.
Proof.
  intros Hp Hq. unfold cell. destruct (Z.leb_spec 0 q); [|lia]. destruct (decide (p = q)) as [->|Hne].
  - apply list_lookup_insert_eq. lia.
  - apply list_lookup_insert_ne. lia.
Qed.
Definition taken l (p : Z) : Prop := ∃ e, cell l p = Some e ∧ is_zero e = false.
(** The search for a key passes over these. *)
Definition passing (key : K) (h : Z) l (p : Z) : Prop :=
  ∃ e, cell l p = Some e ∧ is_zero e = false ∧ key_equals e key h = false.
Lemma passing_taken key h l p : passing key h l p → taken l p.
Proof. intros (e & He & Hz & _). by exists e. Qed.

Lemma find_loop_ok t d key h a z fuel s :
  grower_ok (grower t) d → Z.of_nat (length (entities t)) = 2 ^ d → 0 ≤ a < 2 ^ d → 0 ≤ z < 2 ^ d →
  ¬ taken (entities t) z → 0 ≤ s < 2 ^ d → reach (passing key h (entities t)) (2 ^ d) a s →
  steps_to (2 ^ d) s z < Z.of_nat fuel →
  ∃ p e, find_loop fuel t key h s = Some p ∧ cell (entities t) p = Some e ∧ (is_zero e || key_equals e key h) = true ∧
    reach (passing key h (entities t)) (2 ^ d) a p.
Proof.
  intros Hg Hlen Ha Hz Hnz. revert s. induction fuel as [|fuel IH]; intros s Hs Hr Hfuel.
  { unfold steps_to in Hfuel. destruct (Z.leb_spec s z); lia. }
  simpl. destruct (cell_in (entities t) s) as [e He]; [lia|]. rewrite He. simpl.
  destruct (is_zero e || key_equals e key h) eqn:Hstop; [by exists s, e|]. apply orb_false_iff in Hstop as [Hze Hke].
  assert (passing key h (entities t) s) as Hps by by exists e.
  rewrite (next_place_ok _ d) by done. assert (s ≠ z) by (intros ->; by apply Hnz, (passing_taken key h)).
  apply IH.
  - destruct (Z.eqb_spec (s + 1) (2 ^ d)); lia.
  - apply (reach_next _ _ _ _ z); [done..|]. by intros Hp%passing_taken.
  - unfold steps_to in *. destruct (Z.leb_spec s z), (Z.eqb_spec (s + 1) (2 ^ d)); case (Z.leb_spec _ z); lia.
Qed.

(** ** Counting *)
Definition count l : Z := Z.of_nat (length (filter (λ e, is_zero e = false) l)).
Definition weight e : Z := if is_zero e then 0 else 1.
Lemma count_cons e l : count (e :: l) = weight e + count l.
Proof. unfold count, weight. rewrite filter_cons. destruct (is_zero e); simpl; lia. Qed.
Lemma count_app l l' : count (l ++ l') = count l + count l'.
Proof. unfold count. rewrite filter_app, length_app. lia. Qed.
Lemma count_replicate e n : is_zero e = true → count (replicate n e) = 0.
Proof. intros Hz. induction n as [|n IH]; [done|]. simpl. rewrite count_cons, IH. unfold weight. by rewrite Hz. Qed.
Lemma count_insert l p e x :
  cell l p = Some e → count (<[Z.to_nat p:=x]> l) = count l - weight e + weight x.
Proof.
  unfold cell. destruct (Z.leb_spec 0 p); [|done]. intros He.
  rewrite (insert_take_drop l) by (by eapply lookup_lt_Some). rewrite <-(take_drop_middle l (Z.to_nat p) e) at 3 by done.
  rewrite !count_app, !count_cons. lia.
Qed.
Lemma count_all l : (∀ e, e ∈ l → is_zero e = false) → count l = Z.of_nat (length l).
Proof.
  induction l as [|e l IH]; intros Hall; [done|]. rewrite count_cons, IH by (intros f Hf; apply Hall; by right).
  unfold weight. rewrite (Hall e) by left. simpl. lia.
Qed.
Lemma count_nonneg l : 0 ≤ count l.
Proof. unfold count. lia. Qed.
(** Taken cells in a row. *)
Lemma count_interval l x y :
  0 ≤ x → x ≤ y → y ≤ Z.of_nat (length l) → (∀ j, x ≤ j < y → taken l j) → y - x ≤ count l.
Proof.
  intros Hx Hxy Hy Hall. rewrite <-(take_drop (Z.to_nat x) l), <-(take_drop (Z.to_nat (y - x)) (drop (Z.to_nat x) l)).
  rewrite !count_app, (count_all (take (Z.to_nat (y - x)) _)).
  - rewrite length_take, length_drop. pose proof (count_nonneg (take (Z.to_nat x) l)).
    pose proof (count_nonneg (drop (Z.to_nat (y - x)) (drop (Z.to_nat x) l))). lia.
  - intros e (i & Hi)%list_elem_of_lookup. apply lookup_take_Some in Hi as [Hi Hlt]. rewrite lookup_drop in Hi.
    destruct (Hall (x + Z.of_nat i)) as (f & Hf & Hz); [lia|]. unfold cell in Hf. destruct (Z.leb_spec 0 (x + Z.of_nat i)); [|lia].
    replace (Z.to_nat (x + Z.of_nat i)) with (Z.to_nat x + i)%nat in Hf by lia. congruence.
Qed.
Lemma count_zero_cell l : count l < Z.of_nat (length l) → ∃ z, 0 ≤ z < Z.of_nat (length l) ∧ ¬ taken l z.
Proof.
  intros Hlt. destruct (decide (Exists (λ e, is_zero e = true) l)) as [Hex|Hno].
  - apply Exists_exists in Hex as (e & (i & Hi)%list_elem_of_lookup & Hz). exists (Z.of_nat i).
    pose proof (lookup_lt_Some _ _ _ Hi). split; [lia|]. intros (f & Hf & Hzf). unfold cell in Hf.
    rewrite (proj2 (Z.leb_le 0 _)), Nat2Z.id in Hf by lia. congruence.
  - rewrite count_all in Hlt; [lia|]. intros e He. destruct (is_zero e) eqn:Hz; [|done]. destruct Hno. apply Exists_exists. by exists e.
Qed.

(** ** The buffer *)
Record stored l (n : Z) : Prop := {
  st_len : Z.of_nat (length l) = n;
  st_hash p e : cell l p = Some e → is_zero e = false → e_hash e = fast_hash (e_key e);
  st_inj p q e f : cell l p = Some e → cell l q = Some f → is_zero e = false → is_zero f = false → e_key e = e_key f → p = q;
  st_zero p e : cell l p = Some e → is_zero e = true → e = zero_entity_bytes;
}.
Definition home (n : Z) e : Z := fast_hash (e_key e) `mod` n.
Lemma key_equals_ok e key :
  e_hash e = fast_hash (e_key e) → key_equals e key (fast_hash key) = bool_decide (e_key e = key).
Proof.
  intros He. unfold key_equals. destruct (BEFORE_EQ_HASH && _) eqn:Hb; [|done].
  apply andb_prop in Hb as [_ Hb]. apply negb_true_iff, Z.eqb_neq in Hb. rewrite bool_decide_false; [done|congruence].
Qed.
Lemma find_entity_ok t d key :
  grower_ok (grower t) d → stored (entities t) (2 ^ d) → count (entities t) < 2 ^ d →
  ∃ p e, find_entity t key (fast_hash key) = Some p ∧ cell (entities t) p = Some e ∧ (is_zero e = true ∨ is_zero e = false ∧ e_key e = key) ∧
    reach (passing key (fast_hash key) (entities t)) (2 ^ d) (fast_hash key `mod` 2 ^ d) p.
Proof.
  intros Hg Hst Hc. pose proof (st_len _ _ Hst) as Hlen. rewrite <-Hlen in Hc. destruct (count_zero_cell _ Hc) as (z & Hz & Hnz).
  rewrite Hlen in Hz. assert (0 < 2 ^ d) as Hpos by lia. pose proof (Z.mod_pos_bound (fast_hash key) (2 ^ d) Hpos) as Ha.
  unfold find_entity. rewrite (place_ok _ d) by done.
  destruct (find_loop_ok t d key (fast_hash key) (fast_hash key `mod` 2 ^ d) z (length (entities t)) (fast_hash key `mod` 2 ^ d))
    as (p & e & Hfind & He & Hstop & Hr); [done..|apply reach_refl| |].
  { unfold steps_to. case (Z.leb_spec _ z); lia. }
  exists p, e. split_and!; [done..| |done]. destruct (is_zero e) eqn:Hze; [by left|]. right. split; [done|].
  simpl in Hstop. rewrite key_equals_ok in Hstop by by eapply (st_hash _ _ Hst). by apply bool_decide_eq_true in Hstop.
Qed.
(** The entity at [i] moves to the empty place [p]. *)
Definition moved l l' (i p : Z) e : Prop :=
  ∀ q, cell l' q = if decide (q = p) then Some e else if decide (q = i) then Some zero_entity_bytes else cell l q.
Lemma moved_taken l l' i p e :
  moved l l' i p e → is_zero e = false → is_zero (zero_entity_bytes (K:=K) (V:=V)) = true →
  ∀ q, taken l' q ↔ q = p ∨ taken l q ∧ q ≠ i.
Proof.
  intros Hm He Hz q. unfold taken. rewrite Hm. destruct (decide (q = p)) as [->|]; [split; eauto|].
  destruct (decide (q = i)) as [->|].
  - split; [intros (f & [= <-] & Hf); congruence|intros [?|[_ ?]]; done].
  - split; [|intros [?|[? ?]]; done]. intros Ht. by right.
Qed.

Context (zero_is_zero : is_zero (zero_entity_bytes (K:=K) (V:=V)) = true).
Lemma moved_stored l l' n i p e :
  stored l n → cell l i = Some e → is_zero e = false → ¬ taken l p → 0 ≤ p < n → p ≠ i → Z.of_nat (length l') = n →
  moved l l' i p e → stored l' n.
Proof.
  intros Hst Hi He Hp Hpn Hne Hlen Hm. split; [done|..].
  - intros q f. rewrite Hm. destruct (decide (q = p)); [intros [= <-] _; by eapply (st_hash _ _ Hst)|].
    destruct (decide (q = i)); [intros [= <-]; congruence|]. apply (st_hash _ _ Hst).
  - intros q r f g Hq Hr Hzf Hzg Hk. rewrite Hm in Hq, Hr.
    destruct (decide (q = p)) as [->|Hqp]; [|destruct (decide (q = i)) as [->|Hqi]; [injection Hq as <-; congruence|]];
      (destruct (decide (r = p)) as [->|Hrp]; [|destruct (decide (r = i)) as [->|Hri]; [injection Hr as <-; congruence|]]).
    + done.
    + injection Hq as <-. destruct Hri. symmetry. by apply (st_inj _ _ Hst i r e g).
    + injection Hr as <-. destruct Hqi. by apply (st_inj _ _ Hst q i f e).
    + by apply (st_inj _ _ Hst q r f g).
  - intros q f. rewrite Hm. destruct (decide (q = p)); [intros [= <-]; congruence|].
    destruct (decide (q = i)); [by intros [= <-]|]. apply (st_zero _ _ Hst).
Qed.
Lemma reinsert_ok t d i e :
  grower_ok (grower t) d → stored (entities t) (2 ^ d) → count (entities t) < 2 ^ d →
  cell (entities t) i = Some e → is_zero e = false →
  (reinsert t i (e_hash e) = Some t ∧ reach (taken (entities t)) (2 ^ d) (home (2 ^ d) e) i) ∨
  ∃ p l', reinsert t i (e_hash e) = Some (with_entities t l') ∧ 0 ≤ p < 2 ^ d ∧ p ≠ i ∧ ¬ taken (entities t) p ∧ moved (entities t) l' i p e ∧
    stored l' (2 ^ d) ∧ count l' = count (entities t) ∧
    reach (λ j, taken (entities t) j ∧ j ≠ i) (2 ^ d) (home (2 ^ d) e) p.
Proof.
  intros Hg Hst Hc Hi He. unfold reinsert. rewrite (st_hash _ _ Hst _ _ Hi He), (place_ok _ d) by done.
  fold (home (2 ^ d) e). destruct (Z.eqb_spec i (home (2 ^ d) e)) as [->|Hne]; [left; split; [done|apply reach_refl]|].
  rewrite Hi. simpl. destruct (find_entity_ok t d (e_key e) Hg Hst Hc) as (p & f & -> & Hf & Hor & Hr). simpl. rewrite Hf. simpl.
  assert (∀ j, passing (e_key e) (fast_hash (e_key e)) (entities t) j → taken (entities t) j ∧ j ≠ i) as Hpass.
  { intros j Hj. split; [by eapply passing_taken|]. intros ->. destruct Hj as (g & Hg' & _ & Hk). rewrite Hi in Hg'.
    injection Hg' as <-. rewrite key_equals_ok, bool_decide_true in Hk; [done|done|by eapply (st_hash _ _ Hst)]. }
  destruct Hor as [Hz|[Hz Hk]]; rewrite Hz.
  2: { left. split; [done|]. assert (p = i) as -> by by eapply (st_inj _ _ Hst).
       eapply reach_mono; [|exact Hr]. intros j Hj. by apply Hpass. }
  right. assert (f = zero_entity_bytes) as -> by by eapply (st_zero _ _ Hst). unfold swap. rewrite Hi, Hf. simpl.
  pose proof (cell_some _ _ _ Hi) as Hin. pose proof (cell_some _ _ _ Hf) as Hpn. rewrite (st_len _ _ Hst) in Hin, Hpn.
  assert (p ≠ i) as Hpi by (intros ->; congruence).
  set (l' := <[Z.to_nat p:=e]> (<[Z.to_nat i:=zero_entity_bytes]> (entities t))).
  assert (moved (entities t) l' i p e) as Hm.
  { intros q. unfold l'. destruct (Z.lt_ge_cases q 0) as [Hq|Hq].
    - rewrite !decide_False by lia. unfold cell. by rewrite (proj2 (Z.leb_gt 0 q)).
    - rewrite cell_insert by (try rewrite length_insert; rewrite ?(st_len _ _ Hst); lia).
      rewrite (cell_insert (entities t)) by (rewrite ?(st_len _ _ Hst); lia).
      destruct (decide (p = q)), (decide (q = p)); try lia; [done|]. destruct (decide (i = q)), (decide (q = i)); by try lia. }
  assert (¬ taken (entities t) p) as Hnt by (intros (g & Hg' & Hzg); congruence).
  exists p, l'. split_and!; [done|lia|lia|done|done|done| |..].
  - apply (moved_stored (entities t) l' (2 ^ d) i p e); [done..|lia|done| |done].
    unfold l'. rewrite !length_insert. apply Hst.
  - unfold l'. rewrite (count_insert _ _ zero_entity_bytes), (count_insert _ _ e); [lia|done|].
    rewrite cell_insert, decide_False; [done|lia|rewrite (st_len _ _ Hst); lia|lia].
  - eapply reach_mono; [|exact Hr]. exact Hpass.
Qed.

(** ** Growing in place *)
Definition same_elems l l' : Prop := ∀ e, is_zero e = false → (∃ p, cell l p = Some e) ↔ ∃ p, cell l' p = Some e.
Lemma moved_same l l' i p e :
  cell l i = Some e → ¬ taken l p → moved l l' i p e → same_elems l l'.
Proof.
  intros Hi Hp Hm f Hf. split; intros [q Hq].
  - destruct (decide (q = i)) as [->|Hne]; [exists p; rewrite Hm, decide_True; congruence|]. exists q. rewrite Hm.
    rewrite !decide_False; [done|done|]. intros ->. apply Hp. by exists f.
  - rewrite Hm in Hq. destruct (decide (q = p)); [injection Hq as ->; by exists i|].
    destruct (decide (q = i)); [injection Hq as <-; congruence|]. by exists q.
Qed.
Lemma with_entities_same t : with_entities t (entities t) = t.
Proof. by destruct t. Qed.

Section growing.
Context (d : Z) (n c : Z) (l0 : list Entity).
Context (c_lt : c < n) (grown : 2 * n ≤ 2 ^ d).
(** While the entities of the old buffer are visited: those before [idx] are where they
    belong, and those beyond the old end can only have lost cells before that end. *)
Record first_pass (idx : Z) l : Prop := {
  fp_stored : stored l (2 ^ d);
  fp_count : count l = c;
  fp_same : same_elems l0 l;
  fp_low p e : 0 ≤ p < idx → cell l p = Some e → is_zero e = false → reach (taken l) (2 ^ d) (home (2 ^ d) e) p;
  fp_high p e : n ≤ p → cell l p = Some e → is_zero e = false →
    home (2 ^ d) e ≤ p ∧ ∀ j, home (2 ^ d) e ≤ j < p → n ≤ j → taken l j;
}.
Lemma c_nonneg l : count l = c → 0 ≤ c.
Proof. intros <-. apply count_nonneg. Qed.
(** Nothing is taken all the way through the new part, or all the way through the old one. *)
Lemma not_all_new l : stored l (2 ^ d) → count l = c → (∀ j, n ≤ j < 2 ^ d → taken l j) → False.
Proof.
  intros Hst Hc Hall. pose proof (c_nonneg l Hc). pose proof (count_interval l n (2 ^ d)) as Hi. rewrite (st_len _ _ Hst) in Hi. 
  assert (2 ^ d - n ≤ count l) by (apply Hi; [lia..|done]). lia.
Qed.
Lemma not_all_old l : stored l (2 ^ d) → count l = c → (∀ j, 0 ≤ j < n → taken l j) → False.
Proof.
  intros Hst Hc Hall. pose proof (c_nonneg l Hc). pose proof (count_interval l 0 n) as Hi. rewrite (st_len _ _ Hst) in Hi.
  assert (n - 0 ≤ count l) by (apply Hi; [lia..|done]). lia.
Qed.
(** A way round the end starts in the new part. *)
Lemma wrap_new l a p : stored l (2 ^ d) → count l = c → (∀ j, a ≤ j < 2 ^ d → taken l j) → p < a → n ≤ a.
Proof.
  intros Hst Hc Hall Hp. destruct (Z.lt_ge_cases a n) as [Han|]; [|done]. exfalso.
  apply (not_all_new l Hst Hc). intros j Hj. apply Hall. lia.
Qed.
Lemma same_trans l l' : same_elems l0 l → same_elems l l' → same_elems l0 l'.
Proof. intros H1 H2 e He. by rewrite (H1 e He), (H2 e He). Qed.

Lemma first_pass_stay idx l e :
  first_pass idx l → cell l idx = Some e → reach (taken l) (2 ^ d) (home (2 ^ d) e) idx → first_pass (idx + 1) l.
Proof.
  intros [Hst Hc Hs Hl Hh] Hi Hr. split; try done. intros p f Hp Hf Hz.
  destruct (Z.eq_dec p idx) as [->|]; [|by apply Hl; [lia|..]]. by simplify_eq.
Qed.
Lemma first_pass_move idx l l' p e :
  0 ≤ idx < n → first_pass idx l → cell l idx = Some e → is_zero e = false → 0 ≤ p < 2 ^ d → p ≠ idx → ¬ taken l p →
  moved l l' idx p e → stored l' (2 ^ d) → count l' = count l →
  reach (λ j, taken l j ∧ j ≠ idx) (2 ^ d) (home (2 ^ d) e) p → first_pass (idx + 1) l'.
Proof.
  intros Hidx [Hst Hc Hs Hl Hh] Hi He Hp Hne Hnt Hm Hst' Hc' Hr. pose proof (moved_taken _ _ _ _ _ Hm He zero_is_zero) as Ht.
  split; [done|congruence|eapply same_trans; [done|by eapply moved_same]|..].
  - intros q f Hq Hf Hz. rewrite Hm in Hf. destruct (decide (q = p)) as [->|Hqp].
    { injection Hf as <-. eapply reach_mono; [|exact Hr]. intros j [Hj Hji]. apply Ht. by right. }
    destruct (decide (q = idx)) as [->|Hqi]; [injection Hf as <-; congruence|].
    destruct (Hl q f) as [[Ha Hpath]|(Ha & H1 & H2)]; [lia|done..| |].
    + left. split; [done|]. intros j Hj. apply Ht. right. split; [by apply Hpath|lia].
    + pose proof (wrap_new l _ q Hst Hc H1 Ha). right. split_and!; [done|..]; intros j Hj; apply Ht; right; split; auto; lia.
  - intros q f Hq Hf Hz. rewrite Hm in Hf. destruct (decide (q = p)) as [->|Hqp].
    + injection Hf as <-. destruct Hr as [[Ha Hpath]|(Ha & H1 & H2)].
      * split; [done|]. intros j Hj _. apply Ht. right. by apply Hpath.
      * exfalso. apply (not_all_old l Hst Hc). intros j Hj. apply H2. lia.
    + rewrite decide_False in Hf by lia. destruct (Hh q f Hq Hf Hz) as [Ha Hpath]. split; [done|].
      intros j Hj Hnj. apply Ht. right. split; [by apply Hpath|lia].
Qed.
Lemma reinsert_old_ok k idx t :
  grower_ok (grower t) d → first_pass idx (entities t) → 0 ≤ idx → idx + Z.of_nat k = n →
  ∃ l', reinsert_old k idx t = Some (with_entities t l') ∧ first_pass n l'.
Proof.
  revert idx t. induction k as [|k IH]; intros idx t Hg Hfp H0 Hn.
  { exists (entities t). rewrite with_entities_same. replace n with idx by lia. done. }
  simpl. pose proof Hfp as [Hst Hc Hs Hl Hh]. assert (0 ≤ c) by by eapply c_nonneg.
  destruct (cell_in (entities t) idx) as [e He]; [rewrite (st_len _ _ Hst); lia|]. rewrite He. simpl.
  destruct (is_zero e) eqn:Hz.
  { destruct (IH (idx + 1) t) as (l' & Hrun & Hl'); [done| |lia..|by exists l'].
    split; [done..| |done]. intros p f Hp Hf Hzf. destruct (Z.eq_dec p idx) as [->|]; [congruence|]. by apply Hl; [lia|..]. }
  destruct (reinsert_ok t d idx e) as [[-> Hr]|(p & l' & -> & Hp & Hne & Hnt & Hm & Hst' & Hc' & Hr)]; [done|done|lia|done|done|..]; simpl.
  - apply IH; [done| |lia..]. by eapply first_pass_stay.
  - destruct (IH (idx + 1) (with_entities t l')) as (l2 & Hrun & Hl2); [done| |lia..|].
    + by apply (first_pass_move idx (entities t) l' p e); [lia|..].
    + exists l2. by rewrite Hrun.
Qed.

(** While the taken cells after the old end are visited, up to the first empty one at [s]. *)
Record second_pass (s idx : Z) l : Prop := {
  sp_stored : stored l (2 ^ d);
  sp_count : count l = c;
  sp_same : same_elems l0 l;
  sp_gap : n ≤ idx ≤ s ∧ s < 2 ^ d ∧ ¬ taken l s ∧ ∀ j, idx ≤ j < s → taken l j;
  sp_done p e : 0 ≤ p < idx → cell l p = Some e → is_zero e = false → reach (taken l) (2 ^ d) (home (2 ^ d) e) p;
  sp_rest p e : idx ≤ p → cell l p = Some e → is_zero e = false →
    home (2 ^ d) e ≤ p ∧ ∀ j, home (2 ^ d) e ≤ j < p → idx ≤ j → taken l j;
}.
Lemma first_gap l (k : nat) :
  (∀ j, n ≤ j < n + Z.of_nat k → taken l j) ∨
  ∃ s, n ≤ s < n + Z.of_nat k ∧ ¬ taken l s ∧ ∀ j, n ≤ j < s → taken l j.
Proof.
  induction k as [|k [IH|(s & Hs & Hnt & Hall)]]; [left; lia| |right; exists s; split_and!; [lia..|done|done]].
  destruct (cell l (n + Z.of_nat k)) as [e|] eqn:He; [destruct (is_zero e) eqn:Hz|].
  - right. exists (n + Z.of_nat k). split_and!; [lia..| |done]. intros (f & Hf & Hzf). congruence.
  - left. intros j Hj. destruct (Z.eq_dec j (n + Z.of_nat k)) as [->|]; [by exists e|apply IH; lia].
  - right. exists (n + Z.of_nat k). split_and!; [lia..| |done]. intros (f & Hf & _). congruence.
Qed.
Lemma second_pass_start l : first_pass n l → ∃ s, second_pass s n l.
Proof.
  intros [Hst Hc Hs Hl Hh]. pose proof (c_nonneg l Hc). destruct (first_gap l (Z.to_nat (2 ^ d - n))) as [Hall|(s & Hs' & Hnt & Hall)].
  - exfalso. apply (not_all_new l Hst Hc). intros j Hj. apply Hall. lia.
  - exists s. split; try done. split_and!; [lia..|done|done].
Qed.
Lemma second_pass_stay s idx l e :
  idx < s → second_pass s idx l → cell l idx = Some e → reach (taken l) (2 ^ d) (home (2 ^ d) e) idx → second_pass s (idx + 1) l.
Proof.
  intros Hlt [Hst Hc Hs (Hi & Hsd & Hnt & Hall) Hd Hr] He Hre. split; try done.
  - split_and!; [lia..|done|]. intros j Hj. apply Hall. lia.
  - intros p f Hp Hf Hz. destruct (Z.eq_dec p idx) as [->|]; [by simplify_eq|by apply Hd; [lia|..]].
  - intros p f Hp Hf Hz. destruct (Hr p f) as [Ha Hj]; [lia|done..|]. split; [done|]. intros j ? ?. apply Hj; lia.
Qed.
Lemma second_pass_move s idx l l' p e :
  idx < s → second_pass s idx l → cell l idx = Some e → is_zero e = false → 0 ≤ p < 2 ^ d → p ≠ idx → ¬ taken l p →
  moved l l' idx p e → stored l' (2 ^ d) → count l' = count l →
  reach (λ j, taken l j ∧ j ≠ idx) (2 ^ d) (home (2 ^ d) e) p → second_pass s (idx + 1) l'.
Proof.
  intros Hlt [Hst Hc Hs (Hi & Hsd & Hnt & Hall) Hd Hr] He Hz Hp Hne Hnp Hm Hst' Hc' Hre.
  pose proof (moved_taken _ _ _ _ _ Hm Hz zero_is_zero) as Ht. pose proof (c_nonneg l Hc) as H0.
  destruct (Hr idx e) as [Hhome _]; [lia|done..|]. assert (p < idx) as Hpi.
  { destruct Hre as [[Ha Hpath]|(Ha & H1 & H2)].
    - destruct (Z.lt_ge_cases idx p) as [Hip|]; [|lia]. destruct (Hpath idx) as [_ Hx]; [lia|done].
    - destruct (H1 idx) as [_ Hx]; [lia|done]. }
  split; [done|congruence|eapply same_trans; [done|by eapply moved_same]|..].
  - split_and!; [lia..| |].
    + rewrite Ht. intros [->|[? _]]; [lia|done].
    + intros j Hj. apply Ht. right. split; [apply Hall; lia|lia].
  - intros q f Hq Hf Hzf. rewrite Hm in Hf. destruct (decide (q = p)) as [->|Hqp].
    { injection Hf as <-. eapply reach_mono; [|exact Hre]. intros j [Hj Hji]. apply Ht. by right. }
    destruct (decide (q = idx)) as [->|Hqi]; [injection Hf as <-; congruence|].
    destruct (Hd q f) as [[Ha Hpath]|(Ha & H1 & H2)]; [lia|done..| |].
    + left. split; [done|]. intros j Hj. apply Ht. right. split; [by apply Hpath|lia].
    + assert (s < home (2 ^ d) f). { destruct (Z.lt_ge_cases s (home (2 ^ d) f)); [done|]. destruct Hnt. apply H1. lia. }
      right. split_and!; [done|..]; intros j Hj; apply Ht; right; split; auto; lia.
  - intros q f Hq Hf Hzf. rewrite Hm in Hf. rewrite !decide_False in Hf by lia.
    destruct (Hr q f) as [Ha Hpath]; [lia|done..|]. split; [done|].
    intros j Hj Hjn. apply Ht. right. split; [apply Hpath; lia|lia].
Qed.
Definition placed (m : Z) l : Prop := ∀ p e, cell l p = Some e → is_zero e = false → reach (taken l) m (home m e) p.
Lemma second_pass_end s l : second_pass s s l → placed (2 ^ d) l.
Proof.
  intros [Hst Hc Hs (Hi & Hsd & Hnt & Hall) Hd Hr] p e He Hz. pose proof (cell_some _ _ _ He).
  destruct (Z.lt_ge_cases p s); [apply Hd; [lia|done|done]|]. destruct (Hr p e) as [Ha Hpath]; [done..|]. left. split; [done|].
  intros j Hj. apply Hpath; [done|]. destruct (Z.lt_ge_cases s (home (2 ^ d) e)); [lia|].
  destruct (Z.eq_dec p s) as [->|]; [destruct Hnt; by exists e|]. destruct Hnt. apply Hpath; lia.
Qed.
Lemma reinsert_tail_ok k s idx t :
  grower_ok (grower t) d → second_pass s idx (entities t) → idx + Z.of_nat k = 2 ^ d →
  ∃ l', reinsert_tail k idx t = Some (with_entities t l') ∧ stored l' (2 ^ d) ∧ count l' = c ∧ same_elems l0 l' ∧ placed (2 ^ d) l'.
Proof.
  revert idx t. induction k as [|k IH]; intros idx t Hg Hsp Hn; pose proof Hsp as [Hst Hc Hs (Hi & Hsd & Hnt & Hall) Hd Hr].
  { lia. }
  simpl. pose proof (c_nonneg _ Hc). destruct (cell_in (entities t) idx) as [e He]; [rewrite (st_len _ _ Hst); lia|]. rewrite He. simpl.
  destruct (is_zero e) eqn:Hz.
  { exists (entities t). rewrite with_entities_same. split_and!; [done..|]. apply (second_pass_end s).
    destruct (Z.eq_dec idx s) as [->|]; [done|]. destruct (Hall idx) as (f & Hf & Hzf); [lia|]. congruence. }
  assert (idx < s). { destruct (Z.eq_dec idx s) as [->|]; [|lia]. destruct Hnt. by exists e. }
  destruct (reinsert_ok t d idx e) as [[-> Hre]|(p & l' & -> & Hp & Hne & Hnp & Hm & Hst' & Hc' & Hre)]; [done|done|lia|done|done|..]; simpl.
  - apply IH; [done| |lia]. by eapply second_pass_stay.
  - destruct (IH (idx + 1) (with_entities t l')) as (l2 & Hrun & Hl2); [done| |lia|].
    + by apply (second_pass_move s idx (entities t) l' p e).
    + exists l2. by rewrite Hrun.
Qed.
End growing.

(** ** Inserting into the buffer *)
Lemma reach_order (P Q : Z → Prop) n a p q :
  0 ≤ a < n → 0 ≤ p < n → 0 ≤ q < n → p ≠ q → reach P n a p → reach Q n a q → P q ∨ Q p.
Proof.
  intros Ha Hp Hq Hne [[H1 H2]|(H1 & H2 & H3)] [[G1 G2]|(G1 & G2 & G3)].
  - destruct (Z.lt_ge_cases q p); [left; apply H2; lia|right; apply G2; lia].
  - right. apply G2. lia.
  - left. apply H2. lia.
  - destruct (Z.lt_ge_cases q p); [left; apply H3; lia|right; apply G3; lia].
Qed.
(** When the search ends at an empty cell, the key is not there. *)
Lemma find_absent l n key p q e f :
  stored l n → placed n l → 0 < n → cell l p = Some e → is_zero e = true →
  reach (passing key (fast_hash key) l) n (fast_hash key `mod` n) p →
  cell l q = Some f → is_zero f = false → e_key f ≠ key.
Proof.
  intros Hst Hpl Hn Hp Hz Hr Hq Hzf Hk. pose proof (Hpl q f Hq Hzf) as Hrq. unfold home in Hrq. rewrite Hk in Hrq.
  pose proof (cell_some _ _ _ Hp) as Hpr. pose proof (cell_some _ _ _ Hq) as Hqr. rewrite (st_len _ _ Hst) in Hpr, Hqr.
  pose proof (Z.mod_pos_bound (fast_hash key) n Hn) as Ha.
  destruct (reach_order (passing key (fast_hash key) l) (taken l) n _ p q Ha Hpr Hqr) as [(g & Hg & _ & Hkg)|(g & Hg & Hzg)]; [intros ->; congruence|done|done|..].
  - rewrite Hq in Hg. injection Hg as <-. rewrite key_equals_ok, bool_decide_true in Hkg; [done|done|by eapply (st_hash _ _ Hst)].
  - congruence.
Qed.
Lemma insert_stored l n p e x :
  stored l n → placed n l → 0 < n → cell l p = Some e → is_zero e = true → is_zero x = false → e_hash x = fast_hash (e_key x) →
  reach (passing (e_key x) (fast_hash (e_key x)) l) n (home n x) p →
  stored (<[Z.to_nat p:=x]> l) n ∧ placed n (<[Z.to_nat p:=x]> l).
Proof.
  intros Hst Hpl Hn Hp Hz Hzx Hhx Hr. pose proof (cell_some _ _ _ Hp) as Hpr. set (l' := <[Z.to_nat p:=x]> l).
  assert (∀ q f, cell l' q = Some f → q = p ∧ f = x ∨ q ≠ p ∧ cell l q = Some f) as Hc.
  { intros q f Hq. pose proof (cell_some _ _ _ Hq). unfold l' in Hq. rewrite cell_insert in Hq by lia.
    destruct (decide (p = q)) as [<-|]; [left; by simplify_eq|right; done]. }
  assert (∀ q, taken l q → taken l' q) as Ht.
  { intros q (f & Hq & Hzf). exists f. split; [|done]. pose proof (cell_some _ _ _ Hq). unfold l'.
    rewrite cell_insert by lia. rewrite decide_False; [done|]. intros ->. congruence. }
  assert (∀ q f, cell l q = Some f → is_zero f = false → e_key f ≠ e_key x) as Hnew by by (intros q f; apply (find_absent l n _ p q e f)).
  split; [split|].
  - unfold l'. rewrite length_insert. apply Hst.
  - intros q f [[-> ->]|[_ Hq]]%Hc Hzf; [done|by eapply (st_hash _ _ Hst)].
  - intros q r f g Hq Hr' Hzf Hzg Hk. apply Hc in Hq as [[-> ->]|[Hqp Hq]]; apply Hc in Hr' as [[-> ->]|[Hrp Hr']]; [done|..].
    + by destruct (Hnew r g Hr' Hzg).
    + by destruct (Hnew q f Hq Hzf).
    + by eapply (st_inj _ _ Hst).
  - intros q f [[-> ->]|[_ Hq]]%Hc Hzf; [congruence|by eapply (st_zero _ _ Hst)].
  - intros q f [[-> ->]|[_ Hq]]%Hc Hzf.
    + eapply reach_mono; [|exact Hr]. intros j Hj. apply Ht. by eapply passing_taken.
    + eapply reach_mono; [exact Ht|by apply Hpl].
Qed.
Lemma resize_ok limit t d :
  grower_ok (grower t) d → d ≤ 60 → stored (entities t) (2 ^ d) → count (entities t) < 2 ^ d →
  ∃ g l' d', resize limit t = Some (mkHashTable (ht_size t) g l' (zero_entity t)) ∧ grower_ok g d' ∧ d < d' ≤ d + 2 ∧
    stored l' (2 ^ d') ∧ placed (2 ^ d') l' ∧ count l' = count (entities t) ∧ same_elems (entities t) l'.
Proof.
  intros Hg Hd Hst Hc. unfold resize. destruct (increase_ok limit _ d Hg Hd) as (d' & Hg' & Hdd & H2).
  pose proof Hg as (_ & Hm & _). pose proof Hg' as (_ & Hm' & _). rewrite Hm, Hm'. pose proof (count_nonneg (entities t)).
  rewrite (proj2 (Z.ltb_lt _ _)) by lia.
  set (l := entities t ++ replicate _ zero_entity_bytes). set (t1 := mkHashTable _ _ l _).
  assert (∀ p e, cell l p = Some e → cell (entities t) p = Some e ∨ 2 ^ d ≤ p ∧ e = zero_entity_bytes) as Hl.
  { intros p e. unfold cell, l. destruct (Z.leb_spec 0 p); [|done]. rewrite lookup_app_Some.
    intros [?|[Hp [-> _]%lookup_replicate]]; [by left|right]. split; [|done]. rewrite <-(st_len _ _ Hst). lia. }
  assert (same_elems (entities t) l) as Hsame.
  { intros e Hz. split; intros [p Hp].
    - exists p. unfold cell, l in *. destruct (Z.leb_spec 0 p); [|done]. by apply lookup_app_l_Some.
    - destruct (Hl p e Hp) as [?|[_ ->]]; [by exists p|congruence]. }
  assert (first_pass d' (2 ^ d) (count (entities t)) (entities t) 0 l) as Hfp.
  { split; [split| | |lia|].
    - unfold l. rewrite length_app, length_replicate. pose proof (st_len _ _ Hst). lia.
    - intros p e [Hp|[_ ->]]%Hl Hz; [by eapply (st_hash _ _ Hst)|congruence].
    - intros p q e f [Hp|[_ ->]]%Hl [Hq|[_ ->]]%Hl; try congruence. by apply (st_inj _ _ Hst).
    - intros p e [Hp|[_ ->]]%Hl Hz; [by eapply (st_zero _ _ Hst)|done].
    - unfold l. rewrite count_app, count_replicate by done. lia.
    - done.
    - intros p e Hp [Hpe|[_ ->]]%Hl Hz; [|congruence]. pose proof (cell_some _ _ _ Hpe) as Hlt. rewrite (st_len _ _ Hst) in Hlt. lia. }
  destruct (reinsert_old_ok d' (2 ^ d) (count (entities t)) (entities t) Hc H2 (Z.to_nat (2 ^ d)) 0 t1) as (l1 & Hrun1 & Hfp1);
    [done|done|lia|lia|]. rewrite Hrun1. simpl.
  destruct (second_pass_start d' (2 ^ d) (count (entities t)) (entities t) Hc H2 l1 Hfp1) as (s & Hsp).
  destruct (reinsert_tail_ok d' (2 ^ d) (count (entities t)) (entities t) Hc H2 (Z.to_nat (2 ^ d' - 2 ^ d)) s (2 ^ d) (with_entities t1 l1))
    as (l2 & Hrun2 & Hst2 & Hc2 & Hs2 & Hp2); [done|done|lia|]. rewrite Hrun2.
  by eexists _, l2, d'.
Qed.
End table.

(** ** The table as a map *)
Class KeyableLaws (K : Type) `{!HashTableKeyable K, !Zeroed K} : Prop := {
  kl_zeroed : key_is_zero (zeroed : K) = true;
  kl_unique (k k' : K) : key_is_zero k = true → key_is_zero k' = true → k = k';
  kl_set (old new : K) : set_key old new = new;
}.
Section maps.
Context {K V : Type} `{Countable K, !HashTableKeyable K, !Zeroed K, !Zeroed V, !KeyableLaws K}.
Abbreviation Entity := (KeyValueEntity K V).
Abbreviation table := (HashTable K V).
Implicit Types (l : list Entity) (e f : Entity) (t : table) (m : gmap K V).

Definition holds t e : Prop := zero_entity t = Some e ∨ is_zero e = false ∧ ∃ p, cell (entities t) p = Some e.
Record table_ok (d : Z) t m : Prop := {
  to_grower : grower_ok (grower t) d;
  to_stored : stored (entities t) (2 ^ d);
  to_placed : placed (2 ^ d) (entities t);
  to_size : ht_size t = count (entities t) + match zero_entity t with Some _ => 1 | None => 0 end;
  to_load : count (entities t) ≤ 2 ^ (d - 1);
  to_tight : d = 8 ∨ 2 ^ (d - 3) < ht_size t;
  to_zero e : zero_entity t = Some e → is_zero e = true;
  to_map k v : m !! k = Some v ↔ ∃ e, holds t e ∧ e_key e = k ∧ e_value e = v;
}.
Lemma zero_bytes_zero : is_zero (zero_entity_bytes (K:=K) (V:=V)) = true.
Proof. apply kl_zeroed. Qed.
Lemma half d : 8 ≤ d → 2 ^ d = 2 * 2 ^ (d - 1) ∧ 128 ≤ 2 ^ (d - 1).
Proof.
  intros Hd. split; [rewrite <-Z.pow_succ_r by lia; f_equal; lia|].
  change 128 with (2 ^ 7). apply Z.pow_le_mono_r; lia.
Qed.
Lemma table_room d t m : table_ok d t m → count (entities t) + 1 < 2 ^ d ∧ 0 < 2 ^ d.
Proof. intros Hok. pose proof (to_grower _ _ _ Hok) as (_ & _ & Hd). pose proof (to_load _ _ _ Hok). destruct (half d); lia. Qed.

(** What a lookup in the map says of the table. *)
Lemma table_absent d t m k : table_ok d t m → (∀ e, holds t e → e_key e ≠ k) → m !! k = None.
Proof.
  intros Hok Hno. apply eq_None_not_Some. intros [v Hv]. apply (to_map _ _ _ Hok) in Hv as (e & He & Hk & _). by apply (Hno e).
Qed.
Lemma table_present d t m e : table_ok d t m → holds t e → m !! e_key e = Some (e_value e).
Proof. intros Hok He. apply (to_map _ _ _ Hok). by exists e. Qed.
Lemma holds_zero d t m e : table_ok d t m → holds t e → is_zero e = true → zero_entity t = Some e.
Proof. intros Hok [?|[? _]]; [done|congruence]. Qed.

Lemma create_table_ok : table_ok 8 (create : table) ∅.
Proof.
  assert (∀ p e, cell (replicate (Z.to_nat (isize_shl 8)) zero_entity_bytes) p = Some e → e = zero_entity_bytes (K:=K) (V:=V)) as Hall.
  { intros p e. unfold cell. destruct (Z.leb_spec 0 p); [|done]. by intros [-> _]%lookup_replicate. }
  unfold create. split; cbn [entities ht_size zero_entity grower]; [apply default_ok|split|..].
  - by rewrite length_replicate.
  - intros p e ->%Hall Hz. by rewrite zero_bytes_zero in Hz.
  - intros p q e f ->%Hall _ Hz. by rewrite zero_bytes_zero in Hz.
  - by intros p e ->%Hall _.
  - intros p e ->%Hall Hz. by rewrite zero_bytes_zero in Hz.
  - by rewrite count_replicate by apply zero_bytes_zero.
  - by rewrite count_replicate by apply zero_bytes_zero.
  - by left.
  - done.
  - intros k v. rewrite lookup_empty. split; [done|]. intros (e & [Hz|[Hz [p ->%Hall]]] & _); [done|]. by rewrite zero_bytes_zero in Hz.
Qed.

(** ** Inserting *)

(** A pointer to an entry of the table. *)
Definition points t (p : ptr) e : Prop :=
  match p with PPlace q => cell (entities t) q = Some e ∧ is_zero e = false | PZero => zero_entity t = Some e end.
Lemma points_deref t p e : points t p e → deref t p = Some e.
Proof. destruct p; [by intros []|done]. Qed.
Lemma points_holds t p e : points t p e → holds t e.
Proof. destruct p as [q|]; [intros []; right; eauto|by left]. Qed.

(** Afterwards the pointer is at the entry of the key; a new entry has the zero value. *)
Definition after_insert (d : Z) m k (r : option (ptr * bool * table)) : Prop :=
  ∃ p t' d', r = Some (p, bool_decide (m !! k = None), t') ∧ d ≤ d' ≤ d + 2 ∧
    table_ok d' t' (if bool_decide (m !! k = None) then <[k:=zeroed]> m else m) ∧ ∃ e, points t' p e ∧ e_key e = k.
Lemma insert_zero_ok d t m k h r :
  table_ok d t m → key_is_zero k = true → insert_if_zero_key t k h = Some r → after_insert d m k (Some r).
Proof.
  intros Hok Hz. unfold insert_if_zero_key. rewrite Hz. destruct (zero_entity t) as [e|] eqn:He; intros [= <-].
  - assert (e_key e = k) as Hk by (apply kl_unique; [by apply (to_zero _ _ _ Hok)|done]).
    assert (m !! k = Some (e_value e)) as Hmk by (rewrite <-Hk; eapply table_present; [done|by left]).
    exists PZero, t, d. rewrite Hmk. rewrite bool_decide_false by done. split_and!; [done|lia|lia|done|]. by exists e.
  - assert (m !! k = None) as Hmk.
    { eapply table_absent; [done|]. intros f [Hf|[Hzf _]] Hkf; [congruence|]. unfold is_zero in Hzf. congruence. }
    set (x := set_key_and_hash zero_entity_bytes k h). assert (e_key x = k) as Hkx by apply kl_set.
    eexists PZero, _, d. rewrite Hmk. rewrite bool_decide_true by done. split; [done|]. split; [lia|].
    split; [|by exists x]. destruct Hok as [Hg Hst Hpl Hs Hl Ht Hz' Hm]. rewrite He in Hs.
    split; simpl; [done..|lia|done|lia| |].
    + intros f [= <-]. unfold is_zero. by rewrite Hkx.
    + intros k' v. rewrite lookup_insert_Some, Hm. unfold holds. simpl. split.
      * intros [[<- <-]|[Hne (f & [Hf|Hf] & Hkf & Hv)]]; [by exists x; split_and!; [left|..]|congruence|].
        exists f. split_and!; [by right|done..].
      * intros (f & [[= <-]|Hf] & Hkf & Hv); [left; split; [congruence|done]|]. right. split; [|exists f; split_and!; [by right|done..]].
        intros <-. destruct Hf as [Hzf _]. unfold is_zero in Hzf. rewrite Hkf in Hzf. congruence.
Qed.
Lemma holds_same t t' : zero_entity t' = zero_entity t → same_elems (entities t) (entities t') → ∀ e, holds t' e ↔ holds t e.
Proof.
  intros Hz Hs e. unfold holds. rewrite Hz. split; (intros [?|[He Hp]]; [by left|right; split; [done|by apply (Hs e He)]]).
Qed.
Lemma insert_holds t l' p e x :
  l' = <[Z.to_nat p:=x]> (entities t) → cell (entities t) p = Some e → is_zero e = true → is_zero x = false →
  ∀ f s g, holds (mkHashTable s g l' (zero_entity t)) f ↔ f = x ∨ holds t f.
Proof.
  intros -> Hp Hz Hx f s g. pose proof (cell_some _ _ _ Hp). unfold holds. simpl. split.
  - intros [?|[Hzf [q Hq]]]; [by right; left|]. pose proof (cell_some _ _ _ Hq). rewrite cell_insert in Hq by lia.
    destruct (decide (p = q)); [left; congruence|]. right; right. eauto.
  - intros [->|[?|[Hzf [q Hq]]]]; [right; split; [done|]|by left|right; split; [done|]].
    + exists p. by rewrite cell_insert, decide_True by lia.
    + exists q. pose proof (cell_some _ _ _ Hq). rewrite cell_insert, decide_False; [done| |lia..]. intros ->. congruence.
Qed.
Lemma insert_map t t' m x :
  (∀ k v, m !! k = Some v ↔ ∃ e, holds t e ∧ e_key e = k ∧ e_value e = v) → m !! e_key x = None →
  (∀ f, holds t' f ↔ f = x ∨ holds t f) →
  ∀ k v, <[e_key x:=e_value x]> m !! k = Some v ↔ ∃ e, holds t' e ∧ e_key e = k ∧ e_value e = v.
Proof.
  intros Hm Hno Hh k v. rewrite lookup_insert_Some, Hm. setoid_rewrite Hh. split.
  - intros [[<- <-]|[Hne (e & He & Hk)]]; [by exists x; split; [left|]|exists e; split; [by right|done]].
  - intros (e & [->|He] & Hk & Hv); [by left|]. right. split; [|by exists e]. intros Heq.
    assert (m !! e_key e = Some (e_value e)) as Hs by (apply Hm; by exists e). congruence.
Qed.
Lemma find_present d t m k e :
  table_ok d t m → holds t e → e_key e = k → key_is_zero k = false →
  ∃ p, find_entity t k (fast_hash k) = Some p ∧ cell (entities t) p = Some e ∧ is_zero e = false.
Proof.
  intros Hok He Hk Hz. destruct (table_room _ _ _ Hok). pose proof (to_stored _ _ _ Hok) as Hst.
  assert (is_zero e = false) as Hze by (unfold is_zero; by rewrite Hk).
  destruct He as [He|[_ [q Hq]]]; [rewrite (to_zero _ _ _ Hok e He) in Hze; done|].
  destruct (find_entity_ok t d k) as (p & f & Hfind & Hp & Hor & Hr); [apply Hok|done|lia|].
  destruct Hor as [Hzf|[Hzf Hkf]].
  - exfalso. apply (find_absent zero_bytes_zero (entities t) (2 ^ d) k p q f e Hst (to_placed _ _ _ Hok)); done.
  - exists p. assert (p = q) as -> by (apply (st_inj _ _ Hst p q f e); [done..|congruence]). assert (f = e) by congruence. by subst.
Qed.
Lemma find_missing d t m k :
  table_ok d t m → m !! k = None → key_is_zero k = false →
  ∃ p e, find_entity t k (fast_hash k) = Some p ∧ cell (entities t) p = Some e ∧ is_zero e = true ∧
    reach (passing k (fast_hash k) (entities t)) (2 ^ d) (fast_hash k `mod` 2 ^ d) p.
Proof.
  intros Hok Hno Hz. destruct (table_room _ _ _ Hok).
  destruct (find_entity_ok t d k) as (p & f & Hfind & Hp & [Hzf|[Hzf Hkf]] & Hr); [apply Hok|apply Hok|lia|by exists p, f|].
  exfalso. assert (m !! e_key f = Some (e_value f)) by (eapply table_present; [done|right; eauto]). congruence.
Qed.
Lemma insert_nonzero_ok limit d t m k :
  table_ok d t m → d ≤ 60 → key_is_zero k = false → after_insert d m k (insert_non_zero_key limit t k (fast_hash k)).
Proof.
  intros Hok Hd Hz. unfold insert_non_zero_key, after_insert. destruct (m !! k) as [v|] eqn:Hmk.
  { apply (to_map _ _ _ Hok) in Hmk as Hmk'. destruct Hmk' as (e & He & Hk & _).
    destruct (find_present d t m k e Hok He Hk Hz) as (p & -> & Hp & Hze). simpl. unfold insert_non_zero_key_impl. rewrite Hp. simpl. rewrite Hze.
    exists (PPlace p), t, d. split_and!; [done|lia|lia|done|]. by exists e. }
  rewrite bool_decide_true by done. destruct (find_missing d t m k Hok Hmk Hz) as (p & e & -> & Hp & Hze & Hr). simpl.
  unfold insert_non_zero_key_impl. rewrite Hp. simpl. rewrite Hze. simpl. set (x := set_key_and_hash e k (fast_hash k)).
  pose proof Hok as [Hg Hst Hpl Hs Hl Ht Hz' Hm]. destruct (table_room _ _ _ Hok) as [Hc Hpos].
  assert (e = zero_entity_bytes) as He by by eapply (st_zero _ _ Hst).
  assert (e_key x = k) as Hkx by apply kl_set. assert (is_zero x = false) as Hzx by (unfold is_zero; by rewrite Hkx).
  assert (e_value x = zeroed) as Hvx by (unfold x; by rewrite He).
  set (l1 := <[Z.to_nat p:=x]> (entities t)).
  destruct (insert_stored zero_bytes_zero (entities t) (2 ^ d) p e x) as [Hst1 Hpl1];
    [done..|unfold x; simpl; by rewrite kl_set|unfold home; by rewrite Hkx|]. fold l1 in Hst1, Hpl1.
  pose proof (insert_holds t l1 p e x eq_refl Hp Hze Hzx) as Hh.
  assert (count l1 = count (entities t) + 1) as Hc1.
  { unfold l1. rewrite (count_insert _ _ e) by done. unfold weight. rewrite Hze, Hzx. lia. }
  rewrite (overflow_ok _ d) by done. destruct (Z.ltb_spec (2 ^ (d - 1)) (ht_size t + 1)) as [Hov|Hov].
  - set (t1 := mkHashTable (ht_size t + 1) (grower t) l1 (zero_entity t)).
    destruct (resize_ok zero_bytes_zero limit t1 d) as (g & l2 & d' & -> & Hg2 & Hdd & Hst2 & Hpl2 & Hc2 & Hs2);
      [done|done|done|simpl; lia|]. simpl. set (t2 := mkHashTable _ _ l2 _).
    pose proof (holds_same t1 t2 eq_refl Hs2) as Hh2.
    assert (table_ok d' t2 (<[k:=zeroed]> m)) as Hok2.
    { split; [done|done|done|simpl; rewrite Hc2; simpl; lia|..].
      - simpl. rewrite Hc2. simpl. pose proof Hg as (_ & _ & Hd8). destruct (half d); [lia|].
        assert (2 ^ d ≤ 2 ^ (d' - 1)) by (apply Z.pow_le_mono_r; lia). lia.
      - right. simpl. assert (2 ^ (d' - 3) ≤ 2 ^ (d - 1)) by (apply Z.pow_le_mono_r; lia). lia.
      - apply Hz'.
      - rewrite <-Hkx, <-Hvx. apply (insert_map t t2); [done|by rewrite Hkx|]. intros f. rewrite Hh2. apply Hh. }
    assert (holds t2 x) as Hx2 by (apply Hh2, Hh; by left).
    destruct (find_present d' t2 _ k x Hok2 Hx2 Hkx Hz) as (p2 & -> & Hp2 & _). simpl.
    exists (PPlace p2), t2, d'. split_and!; [done|lia|lia|done|]. by exists x.
  - eexists (PPlace p), _, d. split_and!; [done|lia|lia| |].
    + split; [done|done|done|simpl; lia|simpl; rewrite Hc1; destruct (zero_entity t); lia|simpl; lia|done|].
      rewrite <-Hkx, <-Hvx. apply (insert_map t); [done|by rewrite Hkx|]. intros f. apply Hh.
    + exists x. split; [|done]. simpl. pose proof (cell_some _ _ _ Hp). split; [|done].
      unfold l1. by rewrite cell_insert, decide_True by lia.
Qed.

(** ** Contents and size *)
Definition contents t : list (K * V) :=
  (λ e, (e_key e, e_value e)) <$> option_list (zero_entity t) ++ filter (λ e, is_zero e = false) (entities t).
Lemma cell_lookup l (i : nat) : cell l (Z.of_nat i) = l !! i.
Proof. unfold cell. by rewrite (proj2 (Z.leb_le 0 _)), Nat2Z.id by lia. Qed.
Lemma keys_nodup l :
  (∀ i j e f, l !! i = Some e → l !! j = Some f → is_zero e = false → is_zero f = false → e_key e = e_key f → i = j) →
  NoDup (e_key <$> filter (λ e, is_zero e = false) l).
Proof.
  induction l as [|e l IH]; intros Hinj; [by apply NoDup_nil|].
  assert (NoDup (e_key <$> filter (λ e, is_zero e = false) l)) as Hl.
  { apply IH. intros i j f g Hi Hj Hf Hg Hk. assert (S i = S j) by by eapply (Hinj (S i) (S j) f g). lia. }
  rewrite filter_cons. destruct (decide (is_zero e = false)) as [Hz|]; [|done]. rewrite fmap_cons. apply NoDup_cons. split; [|done].
  intros (f & Hk & [Hzf (j & Hj)%list_elem_of_lookup]%list_elem_of_filter)%list_elem_of_fmap.
  assert (0%nat = S j) by by eapply (Hinj 0%nat (S j) e f). lia.
Qed.
Lemma elem_of_contents t k v : (k, v) ∈ contents t ↔ ∃ e, holds t e ∧ e_key e = k ∧ e_value e = v.
Proof.
  unfold contents. rewrite list_elem_of_fmap. setoid_rewrite elem_of_app. setoid_rewrite list_elem_of_filter.
  unfold holds. split.
  - intros (e & [= -> ->] & Hor). exists e. split; [|done]. destruct Hor as [Ho|[Hz (i & Hi)%list_elem_of_lookup]].
    + left. destruct (zero_entity t) as [f|]; [|by apply elem_of_nil in Ho]. by apply list_elem_of_singleton in Ho as ->.
    + right. split; [done|]. exists (Z.of_nat i). by rewrite cell_lookup.
  - intros (e & Hor & <- & <-). exists e. split; [done|]. destruct Hor as [->|[Hz (p & Hp)]]; [left; by left|right].
    split; [done|]. unfold cell in Hp. destruct (Z.leb_spec 0 p); [|done]. by eapply list_elem_of_lookup_2.
Qed.
Lemma contents_map d t m : table_ok d t m → map_to_list m ≡ₚ contents t.
Proof.
  intros Hok. assert (NoDup (contents t).*1) as Hnd.
  { unfold contents. rewrite <-list_fmap_compose, fmap_app. apply NoDup_app. split_and!.
    - destruct (zero_entity t); simpl; [apply NoDup_singleton|apply NoDup_nil_2].
    - intros k (e & -> & He)%list_elem_of_fmap (f & Hk & [Hz _]%list_elem_of_filter)%list_elem_of_fmap.
      destruct (zero_entity t) as [g|] eqn:Hg; [|by apply elem_of_nil in He]. apply list_elem_of_singleton in He as ->.
      pose proof (to_zero _ _ _ Hok g Hg) as Hzg. unfold is_zero in *. simpl in Hk. congruence.
    - apply keys_nodup. intros i j e f Hi Hj Hze Hzf Hk. rewrite <-cell_lookup in Hi, Hj.
      assert (Z.of_nat i = Z.of_nat j) by by eapply (st_inj _ _ (to_stored _ _ _ Hok)). lia. }
  apply NoDup_Permutation; [apply NoDup_map_to_list|by eapply NoDup_fmap_1|].
  intros [k v]. rewrite elem_of_map_to_list, (to_map _ _ _ Hok), elem_of_contents. done.
Qed.
Lemma table_size d t m : table_ok d t m → ht_size t = Z.of_nat (size m).
Proof.
  intros Hok. rewrite <-length_map_to_list, (contents_map _ _ _ Hok), (to_size _ _ _ Hok). unfold contents, count.
  rewrite length_fmap, length_app. destruct (zero_entity t); simpl; lia.
Qed.
(** A table of less than 2^57 entries can grow. *)
Lemma table_degree d t m : table_ok d t m → Z.of_nat (size m) < 2 ^ 57 → d ≤ 60.
Proof.
  intros Hok Hs. rewrite <-(table_size d t m Hok) in Hs. destruct (to_tight _ _ _ Hok) as [->|Ht]; [lia|].
  destruct (Z.lt_ge_cases 60 d); [|lia]. assert (2 ^ 57 ≤ 2 ^ (d - 3)) by (apply Z.pow_le_mono_r; lia). lia.
Qed.

(** ** Writing through a pointer, and finding *)
Lemma holds_inj d t m e f : table_ok d t m → holds t e → holds t f → e_key e = e_key f → e = f.
Proof.
  intros Hok He Hf Hk. destruct (is_zero e) eqn:Hz.
  - assert (is_zero f = true) as Hzf by (unfold is_zero in *; by rewrite <-Hk).
    pose proof (holds_zero _ _ _ _ Hok He Hz). pose proof (holds_zero _ _ _ _ Hok Hf Hzf). congruence.
  - assert (is_zero f = false) as Hzf by (unfold is_zero in *; by rewrite <-Hk).
    destruct He as [He|[_ [p Hp]]]; [rewrite (to_zero _ _ _ Hok e He) in Hz; done|].
    destruct Hf as [Hf|[_ [q Hq]]]; [rewrite (to_zero _ _ _ Hok f Hf) in Hzf; done|].
    assert (p = q) as -> by (by eapply (st_inj _ _ (to_stored _ _ _ Hok))). congruence.
Qed.
Lemma cell_alter l (g : Entity → Entity) p q :
  0 ≤ p → cell (alter g (Z.to_nat p) l) q = if decide (p = q) then g <$> cell l q else cell l q.
Proof.
  intros Hp. unfold cell. destruct (Z.leb_spec 0 q); [|by destruct (decide (p = q))]. destruct (decide (p = q)) as [->|].
  - apply list_lookup_alter_eq.
  - apply list_lookup_alter_ne. lia.
Qed.
Lemma alter_as_insert {A} (g : A → A) (l : list A) i x : l !! i = Some x → alter g i l = <[i:=g x]> l.
Proof.
  intros Hx. apply list_eq. intros j. destruct (decide (j = i)) as [->|].
  - rewrite list_lookup_alter_eq, list_lookup_insert_eq by (by eapply lookup_lt_Some). by rewrite Hx.
  - by rewrite list_lookup_alter_ne, list_lookup_insert_ne.
Qed.
Lemma count_alter l g p e : cell l p = Some e → is_zero (g e) = is_zero e → count (alter g (Z.to_nat p) l) = count l.
Proof.
  intros He Hz. rewrite (alter_as_insert _ _ _ e) by (unfold cell in He; by destruct (0 <=? p)).
  rewrite (count_insert _ _ e) by done. unfold weight. rewrite Hz. lia.
Qed.
Lemma update_map t t' m e x :
  (∀ k v, m !! k = Some v ↔ ∃ f, holds t f ∧ e_key f = k ∧ e_value f = v) → e_key x = e_key e →
  (∀ f, holds t' f ↔ f = x ∨ holds t f ∧ e_key f ≠ e_key e) →
  ∀ k v, <[e_key e:=e_value x]> m !! k = Some v ↔ ∃ f, holds t' f ∧ e_key f = k ∧ e_value f = v.
Proof.
  intros Hm Hk Hh k v. rewrite lookup_insert_Some, Hm. setoid_rewrite Hh. split.
  - intros [[<- <-]|[Hne (f & Hf & Hkf & Hv)]]; [by exists x; split; [left|]|].
    exists f. split; [|done]. right. split; [done|congruence].
  - intros (f & [->|[Hf Hne]] & Hkf & Hv); [left; split; [congruence|done]|]. right. split; [congruence|by exists f].
Qed.
Lemma update_place_ok d t m p e x :
  table_ok d t m → cell (entities t) p = Some e → is_zero e = false → e_key x = e_key e → e_hash x = e_hash e →
  table_ok d (update (λ _, x) t (PPlace p)) (<[e_key e:=e_value x]> m).
Proof.
  intros Hok Hp Hz Hk Hh. pose proof Hok as [Hg Hst Hpl Hs Hl Ht Hz' Hm]. pose proof (cell_some _ _ _ Hp) as Hpr.
  assert (is_zero x = false) as Hzx by (unfold is_zero in *; by rewrite Hk).
  set (l' := alter (λ _, x) (Z.to_nat p) (entities t)).
  assert (∀ q f, cell l' q = Some f → ∃ f', cell (entities t) q = Some f' ∧ e_key f = e_key f' ∧ e_hash f = e_hash f' ∧
    (q ≠ p → f = f')) as Hl'.
  { intros q f. unfold l'. rewrite cell_alter by lia. destruct (decide (p = q)) as [<-|]; [|by exists f].
    rewrite Hp. intros [= <-]. exists e. by split_and!. }
  assert (∀ q, taken (entities t) q → taken l' q) as Htk.
  { intros q (f & Hq & Hzf). unfold taken, l'. rewrite cell_alter by lia. destruct (decide (p = q)) as [<-|]; [|by exists f].
    rewrite Hp. by exists x. }
  assert (∀ f f' : Entity, e_key f = e_key f' → is_zero f = is_zero f') as Hzk by (intros f f' Hf; unfold is_zero; by rewrite Hf).
  split; simpl; fold l'; [done|split| | | |done|done|].
  - unfold l'. rewrite length_alter. apply Hst.
  - intros q f (f' & Hq & Hkf & Hhf & _)%Hl' Hzf. rewrite Hhf, Hkf. eapply (st_hash _ _ Hst); [done|]. by rewrite <-(Hzk _ _ Hkf).
  - intros q r f g (f' & Hq & Hkf & _)%Hl' (g' & Hr & Hkg & _)%Hl' Hzf Hzg Hfg.
    eapply (st_inj _ _ Hst q r f' g'); [done..|by rewrite <-(Hzk _ _ Hkf)|by rewrite <-(Hzk _ _ Hkg)|congruence].
  - intros q f Hq Hzf. destruct (Hl' q f Hq) as (f' & Hq' & Hkf & _ & Hne). rewrite Hne.
    + eapply (st_zero _ _ Hst); [done|]. by rewrite <-(Hzk _ _ Hkf).
    + intros ->. assert (f' = e) as -> by congruence. rewrite (Hzk _ _ Hkf) in Hzf. congruence.
  - intros q f (f' & Hq & Hkf & _)%Hl' Hzf. unfold home. rewrite Hkf. eapply reach_mono; [exact Htk|].
    apply (Hpl q f'); [done|by rewrite <-(Hzk _ _ Hkf)].
  - unfold l'. rewrite (count_alter _ _ _ e); [done|done|congruence].
  - unfold l'. rewrite (count_alter _ _ _ e); [done|done|congruence].
  - apply (update_map t); [done|done|]. intros f. unfold holds. simpl. fold l'. split.
    + intros [Hf|[Hzf [q Hq]]].
      * right. split; [by left|]. intros Hke. pose proof (Hz' f Hf). unfold is_zero in *. congruence.
      * unfold l' in Hq. rewrite cell_alter in Hq by lia. destruct (decide (p = q)) as [<-|Hne]; [rewrite Hp in Hq; left; by injection Hq|].
        right. split; [right; eauto|]. intros Hke. apply Hne. by eapply (st_inj _ _ Hst p q e f).
    + intros [->|[[Hf|[Hzf [q Hq]]] Hke]]; [right; split; [done|]|by left|right; split; [done|]].
      * exists p. unfold l'. rewrite cell_alter, decide_True by lia. by rewrite Hp.
      * exists q. unfold l'. rewrite cell_alter, decide_False; [done| |lia]. intros ->. congruence.
Qed.
Lemma update_zero_ok d t m e x :
  table_ok d t m → zero_entity t = Some e → e_key x = e_key e → table_ok d (update (λ _, x) t PZero) (<[e_key e:=e_value x]> m).
Proof.
  intros Hok He Hk. pose proof Hok as [Hg Hst Hpl Hs Hl Ht Hz' Hm]. pose proof (Hz' e He) as Hze.
  assert (is_zero x = true) as Hzx by (unfold is_zero in *; by rewrite Hk).
  split; simpl; rewrite ?He; simpl; [done..|by rewrite Hs, He|done|done|by intros f [= <-]|].
  apply (update_map t); [done|done|]. intros f. unfold holds. simpl. rewrite He. simpl. split.
  - intros [[= <-]|[Hzf Hf]]; [by left|right]. split; [by right|]. intros Hke. unfold is_zero in *. congruence.
  - intros [->|[[[= <-]|Hf] Hke]]; [by left|done|by right].
Qed.
Lemma update_ext (g h : Entity → Entity) t p e : points t p e → g e = h e → update g t p = update h t p.
Proof.
  intros Hp Hgh. destruct p as [q|]; simpl in *; [|by rewrite Hp; simpl; rewrite Hgh]. destruct Hp as [Hq _]. f_equal.
  apply list_eq. intros i. destruct (decide (i = Z.to_nat q)) as [->|]; [|by rewrite !list_lookup_alter_ne].
  rewrite !list_lookup_alter_eq. unfold cell in Hq. destruct (0 <=? q); [|done]. rewrite Hq. simpl. by rewrite Hgh.
Qed.
Lemma update_ok d t m p e (g : Entity → Entity) :
  table_ok d t m → points t p e → e_key (g e) = e_key e → e_hash (g e) = e_hash e →
  table_ok d (update g t p) (<[e_key e:=e_value (g e)]> m).
Proof.
  intros Hok Hp Hk Hh. rewrite (update_ext g (λ _, g e) t p e) by done.
  destruct p as [q|]; [destruct Hp; by apply (update_place_ok d t m q e)|by apply (update_zero_ok d t m e)].
Qed.
Lemma insert_key_ok limit d t m k :
  table_ok d t m → Z.of_nat (size m) < 2 ^ 57 → after_insert d m k (insert_hash_key limit t k (fast_hash k)).
Proof.
  intros Hok Hs. pose proof (table_degree _ _ _ Hok Hs). unfold insert_hash_key.
  destruct (insert_if_zero_key t k (fast_hash k)) as [r|] eqn:Hr.
  - apply (insert_zero_ok d t m k (fast_hash k)); [done| |done]. unfold insert_if_zero_key in Hr. by destruct (key_is_zero k).
  - apply insert_nonzero_ok; [done..|]. unfold insert_if_zero_key in Hr. destruct (key_is_zero k); [|done]. by destruct (zero_entity t).
Qed.
Lemma find_key_ok d t m k :
  table_ok d t m → ∃ o, find_key t k = Some o ∧
    match m !! k with Some v => ∃ p e, o = Some p ∧ points t p e ∧ e_key e = k ∧ e_value e = v | None => o = None end.
Proof.
  intros Hok. unfold find_key. destruct (m !! k) as [v|] eqn:Hmk.
  - pose proof Hmk as (e & He & Hk & Hv)%(to_map _ _ _ Hok). destruct (key_is_zero k) eqn:Hz; simpl.
    + rewrite (holds_zero _ _ _ _ Hok He) by (unfold is_zero; by rewrite Hk). eexists. split; [done|].
      exists PZero, e. split_and!; [done| |done|done]. apply (holds_zero d t m); [done..|]. unfold is_zero. by rewrite Hk.
    + destruct (find_present d t m k e Hok He Hk Hz) as (p & -> & Hp & Hze). simpl. rewrite Hp. simpl. rewrite Hze.
      eexists. split; [done|]. by exists (PPlace p), e.
  - destruct (key_is_zero k) eqn:Hz; simpl.
    + destruct (zero_entity t) as [e|] eqn:He; [|by eexists]. exfalso.
      assert (e_key e = k) as Hk by (apply kl_unique; [by apply (to_zero _ _ _ Hok)|done]).
      assert (m !! e_key e = Some (e_value e)) by (eapply table_present; [done|by left]). congruence.
    + destruct (find_missing d t m k Hok Hmk Hz) as (p & e & -> & Hp & Hze & _). simpl. rewrite Hp. simpl. rewrite Hze. by eexists.
Qed.
End maps.
