(* ===== verification/HashTableKinds.v ===== *)
(** * Iterating over hash tables, and tables of two levels. *)
From S2P Require Import Prelude HashTable HashTableProps.
#[local] Open Scope Z_scope.

Section kinds.
Context {K V : Type} `{Countable K, !HashTableKeyable K, !Zeroed K, !Zeroed V, !KeyableLaws K}.
Abbreviation Entity := (KeyValueEntity K V).
Abbreviation table := (HashTable K V).
Implicit Types (l : list Entity) (e f : Entity) (t : table) (m : gmap K V).

(** ** Iteration *)

(** The entries an iterator at [idx] has not yet visited, in its order. *)
Definition remaining t (idx : Z) : list Entity :=
  (if idx =? -2 then option_list (zero_entity t) else []) ++ filter (λ e, is_zero e = false) (drop (Z.to_nat (idx + 1)) (entities t)).
Definition entry e : K * V := (e_key e, e_value e).
Lemma drop_cell l p e : cell l p = Some e → drop (Z.to_nat p) l = e :: drop (Z.to_nat (p + 1)) l.
Proof.
  intros He. pose proof (cell_some _ _ _ He). unfold cell in He. destruct (Z.leb_spec 0 p); [|lia].
  replace (Z.to_nat (p + 1)) with (S (Z.to_nat p)) by lia. by apply drop_S.
Qed.
Lemma skip_zero_ok l n idx fuel :
  Z.of_nat (length l) = n → 0 ≤ idx ≤ n → n - idx < Z.of_nat fuel →
  ∃ q, skip_zero fuel l n idx = Some q ∧ idx ≤ q ≤ n ∧ (q < n → taken l q) ∧
    filter (λ e, is_zero e = false) (drop (Z.to_nat idx) l) = filter (λ e, is_zero e = false) (drop (Z.to_nat q) l).
Proof.
  intros Hlen. revert idx. induction fuel as [|fuel IH]; intros idx Hidx Hfuel; [lia|]. simpl.
  destruct (Z.ltb_spec idx n); [|exists idx; split_and!; [done|lia|lia|lia|done]].
  destruct (cell_in l idx) as [e He]; [lia|]. rewrite He. simpl. destruct (is_zero e) eqn:Hz.
  - destruct (IH (idx + 1)) as (q & -> & Hq & Ht & Hc); [lia..|]. exists q. split_and!; [done|lia|lia|done|].
    by rewrite (drop_cell _ _ _ He), filter_cons_False by congruence.
  - exists idx. split_and!; [done|lia|lia| |done]. intros _. by exists e.
Qed.
Lemma remaining_from t i : -1 ≤ i → remaining t i = filter (λ e, is_zero e = false) (drop (Z.to_nat (i + 1)) (entities t)).
Proof. intros Hi. unfold remaining. by rewrite (proj2 (Z.eqb_neq i (-2))) by lia. Qed.
(** One step of the iterator gives the first of the remaining entries. *)
Lemma iter_next_ok d t m idx :
  table_ok d t m → -2 ≤ idx < 2 ^ d →
  ∃ r idx', iter_next t idx = Some (r, idx') ∧
    match r with
    | None => idx' = 2 ^ d ∧ remaining t idx = []
    | Some p => -1 ≤ idx' < 2 ^ d ∧ match p with PPlace q => 0 ≤ q ∧ q = idx' | PZero => True end ∧
        ∃ e, points t p e ∧ remaining t idx = e :: remaining t idx'
    end.
Proof.
  intros Hok Hidx. pose proof (to_grower _ _ _ Hok) as (_ & Hm & Hd). pose proof (st_len _ _ (to_stored _ _ _ Hok)) as Hlen.
  destruct (table_room _ _ _ Hok) as [_ Hpos]. unfold iter_next. rewrite Hm.
  destruct (if idx =? -2 then zero_entity t else None) as [z|] eqn:Hzero.
  { destruct (Z.eqb_spec idx (-2)) as [->|]; [|done]. eexists (Some PZero), (-1). split; [done|]. split_and!; [lia|lia|done|].
    exists z. split; [done|]. unfold remaining. rewrite Z.eqb_refl, Hzero. done. }
  set (i := if idx =? -2 then -1 else idx). assert (-1 ≤ i < 2 ^ d) as Hi.
  { subst i. destruct (Z.eqb_spec idx (-2)); lia. }
  assert (remaining t idx = remaining t i) as ->.
  { subst i. destruct (Z.eqb_spec idx (-2)) as [->|]; [|done]. unfold remaining. by rewrite Z.eqb_refl, Hzero. }
  rewrite remaining_from by lia.
  destruct (skip_zero_ok (entities t) (2 ^ d) (i + 1) (S (Z.to_nat (2 ^ d)))) as (q & -> & Hq & Htk & ->); [done|lia|lia|]. simpl.
  destruct (Z.eqb_spec q (2 ^ d)) as [->|Hne].
  - exists None, (2 ^ d). split_and!; [done..|]. by rewrite drop_ge by lia.
  - destruct (Htk ltac:(lia)) as (e & He & Hze). exists (Some (PPlace q)), q. split; [done|]. split_and!; [lia..|].
    exists e. split; [done|]. by rewrite (drop_cell _ _ _ He), filter_cons_True, remaining_from by (done || lia).
Qed.
(** A loop over the iterator. *)
Fixpoint iter_entries (fuel : nat) t (idx : Z) : option (list Entity) :=
  match fuel with
  | O => None
  | S fuel =>
      '(p, idx) ← iter_next t idx;
      match p with
      | None => Some []
      | Some p => e ← deref t p; es ← iter_entries fuel t idx; Some (e :: es)
      end
  end.
Lemma iter_entries_ok d t m idx fuel :
  table_ok d t m → -2 ≤ idx < 2 ^ d → (length (remaining t idx) < fuel)%nat → iter_entries fuel t idx = Some (remaining t idx).
Proof.
  intros Hok. revert idx. induction fuel as [|fuel IH]; intros idx Hidx Hlen; [lia|]. simpl.
  destruct (iter_next_ok d t m idx Hok Hidx) as (r & idx' & -> & Hr). destruct r as [p|]; simpl.
  - destruct Hr as (Hi & _ & e & Hp & Heq). rewrite Heq in Hlen |- *. simpl in Hlen. rewrite (points_deref _ _ _ Hp). simpl.
    by rewrite IH by lia.
  - by destruct Hr as [_ ->].
Qed.
Lemma remaining_all t : entry <$> remaining t (-2) = contents t.
Proof. done. Qed.
Lemma remaining_size d t m : table_ok d t m → Z.of_nat (length (remaining t (-2))) = ht_len t.
Proof.
  intros Hok. unfold ht_len. rewrite (table_size _ _ _ Hok), <-length_map_to_list, (contents_map _ _ _ Hok), <-remaining_all.
  by rewrite length_fmap.
Qed.
(** After its end an iterator points outside of the buffer. *)
Lemma iter_past_end d t m : table_ok d t m → ∃ q, iter_next t (2 ^ d) = Some (Some (PPlace q), q) ∧ cell (entities t) q = None.
Proof.
  intros Hok. pose proof (to_grower _ _ _ Hok) as (_ & Hm & Hd). destruct (table_room _ _ _ Hok) as [_ Hpos].
  exists (2 ^ d + 1). unfold iter_next. rewrite Hm. rewrite (proj2 (Z.eqb_neq _ (-2))) by lia. simpl.
  rewrite (proj2 (Z.ltb_ge _ _)) by lia. simpl. rewrite (proj2 (Z.eqb_neq _ _)) by lia. split; [done|].
  destruct (cell _ _) as [e|] eqn:He; [|done]. apply cell_some in He. rewrite (st_len _ _ (to_stored _ _ _ Hok)) in He. lia.
Qed.

(** ** Two levels *)

(** The keys of a bucket. *)
Definition bucket_of (k : K) : nat := get_bucket_from_hash (fast_hash k).
Definition bucket_map (i : nat) m : gmap K V := filter (λ kv, bucket_of kv.1 = i) m.
Definition two_ok (ts : list table) m : Prop :=
  length ts = NUM_BUCKETS ∧ ∀ i t, ts !! i = Some t → ∃ d, table_ok d t (bucket_map i m).
Lemma bucket_bound k : (bucket_of k < NUM_BUCKETS)%nat.
Proof.
  unfold bucket_of, get_bucket_from_hash. change MAX_BUCKECT with (Z.ones 8). rewrite Z.land_ones by lia.
  change NUM_BUCKETS with 256%nat. pose proof (Z.mod_pos_bound (Z.shiftr (fast_hash k) (64 - BITS_FOR_BUCKET)) (2 ^ 8)). lia.
Qed.
Lemma bucket_lookup m k : bucket_map (bucket_of k) m !! k = m !! k.
Proof.
  unfold bucket_map. destruct (m !! k) as [v|] eqn:Hk; [by apply map_lookup_filter_Some|].
  apply map_lookup_filter_None. by left.
Qed.
Lemma bucket_insert m k v : bucket_map (bucket_of k) (<[k:=v]> m) = <[k:=v]> (bucket_map (bucket_of k) m).
Proof. unfold bucket_map. by rewrite map_filter_insert_True. Qed.
Lemma bucket_insert_other m i k v : i ≠ bucket_of k → bucket_map i (<[k:=v]> m) = bucket_map i m.
Proof.
  intros Hi. apply map_eq. intros j. apply option_eq. intros x. unfold bucket_map. rewrite !map_lookup_filter_Some, lookup_insert_Some. simpl.
  split; [intros [[[<- _]|[_ ?]] ?]; [congruence|done]|]. intros [? Hj]. split; [|done]. right. split; [congruence|done].
Qed.
Lemma bucket_size i m : (size (bucket_map i m) ≤ size m)%nat.
Proof. apply map_subseteq_size, map_filter_subseteq. Qed.
Lemma two_bucket ts m k : two_ok ts m → ∃ t d, ts !! bucket_of k = Some t ∧ table_ok d t (bucket_map (bucket_of k) m).
Proof.
  intros [Hlen Hall]. destruct (lookup_lt_is_Some_2 ts (bucket_of k)) as [t Ht]; [rewrite Hlen; apply bucket_bound|].
  destruct (Hall _ _ Ht) as [d Hd]. eauto.
Qed.
Lemma two_write ts m k d t v :
  two_ok ts m → table_ok d t (<[k:=v]> (bucket_map (bucket_of k) m)) → two_ok (<[bucket_of k:=t]> ts) (<[k:=v]> m).
Proof.
  intros [Hlen Hall] Ht. split; [by rewrite length_insert|]. intros i t' [(<- & <- & _)|[Hi Ht']]%list_lookup_insert_Some.
  - exists d. by rewrite bucket_insert.
  - rewrite bucket_insert_other by done. by apply Hall.
Qed.
Lemma two_create_ok : two_ok two_create ∅.
Proof.
  split; [apply length_replicate|]. intros i t [-> _]%lookup_replicate. exists 8. unfold bucket_map. rewrite map_filter_empty. apply create_table_ok.
Qed.

(** Pointers into a table of two levels. *)
Definition two_points (ts : list table) (p : nat * ptr) e : Prop := ∃ t, ts !! p.1 = Some t ∧ points t p.2 e.
Lemma two_insert_ok ts m k :
  two_ok ts m → Z.of_nat (size m) < 2 ^ 57 →
  ∃ p ts', two_insert_hash_key ts k (fast_hash k) = Some (p, bool_decide (m !! k = None), ts') ∧
    two_ok ts' (if bool_decide (m !! k = None) then <[k:=zeroed]> m else m) ∧ p.1 = bucket_of k ∧ ∃ e, two_points ts' p e ∧ e_key e = k.
Proof.
  intros Hok Hs. destruct (two_bucket ts m k Hok) as (t & d & Ht & Htok). unfold two_insert_hash_key. fold (bucket_of k). rewrite Ht. cbn [mbind option_bind].
  pose proof (bucket_size (bucket_of k) m). pose proof (lookup_lt_Some _ _ _ Ht) as Hlt.
  destruct (insert_key_ok two_level_limit d t _ k Htok ltac:(lia)) as (p & t' & d' & -> & _ & Hok' & e & Hp & He).
  rewrite bucket_lookup in Hok' |- *. cbn [mbind option_bind]. eexists (_, _), _. split; [done|]. split_and!.
  - case_bool_decide; [by eapply two_write|]. split; [rewrite length_insert; apply Hok|].
    intros i u [(<- & <- & _)|[_ Hu]]%list_lookup_insert_Some; [by exists d'|by apply Hok].
  - done.
  - exists e. split; [|done]. exists t'. split; [|done]. by apply list_lookup_insert_eq.
Qed.
Lemma two_find_ok ts m k :
  two_ok ts m → ∃ o, two_find_key ts k = Some o ∧
    match m !! k with Some v => ∃ p e, o = Some p ∧ two_points ts p e ∧ e_key e = k ∧ e_value e = v | None => o = None end.
Proof.
  intros Hok. destruct (two_bucket ts m k Hok) as (t & d & Ht & Htok). unfold two_find_key. fold (bucket_of k). rewrite Ht. cbn [mbind option_bind].
  destruct (find_key_ok d t _ k Htok) as (o & -> & Ho). rewrite bucket_lookup in Ho. simpl. eexists. split; [done|].
  destruct (m !! k) as [v|]; [|by rewrite Ho]. destruct Ho as (p & e & -> & Hp & He). simpl. eexists _, e. split; [done|].
  split; [by exists t|done].
Qed.
(** Sums of sizes. *)
Lemma map_filter_or_split (P Q R : K * V → Prop) `{!∀ x, Decision (P x), !∀ x, Decision (Q x), !∀ x, Decision (R x)} m :
  (∀ x, R x ↔ P x ∨ Q x) → filter R m = filter P m ∪ filter Q m.
Proof.
  intros HR. apply map_eq. intros k. apply option_eq. intros v. rewrite lookup_union_Some_raw, !map_lookup_filter_Some, map_lookup_filter_None, HR.
  split; [|intros [[? ?]|[_ [? ?]]]; tauto]. intros [Hk HPQ]. destruct (decide (P (k, v))); [by left|]. right. split; [|tauto].
  right. intros x Hx HP. assert (x = v) by congruence. by subst.
Qed.
Lemma map_to_list_disj_union m m' : m ##ₘ m' → map_to_list (m ∪ m') ≡ₚ map_to_list m ++ map_to_list m'.
Proof.
  intros Hd. apply NoDup_Permutation; [apply NoDup_map_to_list| |].
  - apply NoDup_app. split_and!; [apply NoDup_map_to_list| |apply NoDup_map_to_list].
    intros [k v] Hk Hk'. rewrite elem_of_map_to_list in Hk, Hk'. by eapply (proj1 (map_disjoint_spec m m')).
  - intros [k v]. by rewrite elem_of_app, !elem_of_map_to_list, lookup_union_Some.
Qed.
Lemma bucket_contents (ts : list table) m n :
  (∀ i t, ts !! i = Some t → ∃ d, table_ok d t (bucket_map (n + i) m)) →
  map_to_list (filter (λ kv, n ≤ bucket_of kv.1 < n + length ts)%nat m) ≡ₚ concat (contents <$> ts).
Proof.
  revert n. induction ts as [|t ts IH]; intros n Hall; simpl.
  - assert (filter (λ kv, n ≤ bucket_of kv.1 < n + 0)%nat m = ∅) as ->; [|by rewrite map_to_list_empty].
    apply map_eq. intros k. rewrite lookup_empty. apply map_lookup_filter_None. right. intros v _ [? ?]. simpl in *. lia.
  - destruct (Hall 0%nat t eq_refl) as [d Hd]. rewrite Nat.add_0_r in Hd.
    assert (filter (λ kv, n ≤ bucket_of kv.1 < n + S (length ts))%nat m =
      bucket_map n m ∪ filter (λ kv, S n ≤ bucket_of kv.1 < S n + length ts)%nat m) as ->.
    { apply map_filter_or_split. intros [k v]. simpl. lia. }
    rewrite map_to_list_disj_union.
    + rewrite <-(contents_map _ _ _ Hd), <-(IH (S n)); [done|].
      intros i u Hu. destruct (Hall (S i) u Hu) as [d' ?]. exists d'. by replace (S n + i)%nat with (n + S i)%nat by lia.
    + apply map_disjoint_spec. intros k v w [_ Hv]%map_lookup_filter_Some [_ Hw]%map_lookup_filter_Some. simpl in *. lia.
Qed.
Lemma two_contents ts m : two_ok ts m → map_to_list m ≡ₚ concat (contents <$> ts).
Proof.
  intros [Hlen Hall]. rewrite <-(bucket_contents ts m 0 Hall), map_filter_id; [done|].
  intros k v _. simpl. rewrite Hlen. pose proof (bucket_bound k). lia.
Qed.
Lemma two_len_concat (ts : list table) : (∀ t, t ∈ ts → ∃ d m, table_ok d t m) → two_len ts = Z.of_nat (length (concat (contents <$> ts))).
Proof.
  intros Hall. induction ts as [|t ts IH]; [done|]. rewrite fmap_cons. cbn [concat].
  change (two_len (t :: ts)) with (ht_len t + two_len ts). rewrite length_app, Nat2Z.inj_add, <-IH by (intros u Hu; apply Hall; by right).
  destruct (Hall t) as (d & m & Hd); [by left|]. unfold ht_len. by rewrite (table_size _ _ _ Hd), <-(contents_map _ _ _ Hd), length_map_to_list.
Qed.
Lemma two_len_ok ts m : two_ok ts m → two_len ts = Z.of_nat (size m).
Proof.
  intros Hok. rewrite two_len_concat, <-(two_contents ts m Hok), length_map_to_list; [done|].
  intros t (i & Ht)%list_elem_of_lookup. destruct (proj2 Hok _ _ Ht). eauto.
Qed.

(** ** From one level to two *)
Lemma points_hash d t m p e : table_ok d t m → points t p e → is_zero e = false → e_hash e = fast_hash (e_key e).
Proof.
  intros Hok Hp Hz. destruct p as [q|]; [destruct Hp; by eapply (st_hash _ _ (to_stored _ _ _ Hok))|].
  pose proof (to_zero _ _ _ Hok e Hp). congruence.
Qed.
(** An entity may be replaced by one from another table. *)
Lemma replace_ok d t m p e x :
  table_ok d t m → points t p e → e_key x = e_key e → (is_zero x = false → e_hash x = fast_hash (e_key x)) →
  table_ok d (update (λ _, x) t p) (<[e_key e:=e_value x]> m).
Proof.
  intros Hok Hp Hk Hh. pose proof (points_hash d t m p e Hok Hp) as Hhe.
  destruct p as [q|]; [destruct Hp as [Hp Hz]|by apply (update_zero_ok d t m e)]. apply (update_place_ok d t m q e); [done..|].
  rewrite Hh, Hhe, Hk; [done|done|]. unfold is_zero in *. by rewrite Hk.
Qed.
Lemma remaining_update (g : Entity → Entity) t p idx :
  -1 ≤ idx → match p with PPlace q => 0 ≤ q ∧ q = idx | PZero => True end → remaining (update g t p) idx = remaining t idx.
Proof.
  intros Hi Hp. rewrite !remaining_from by done. destruct p as [q|]; [|done]. simpl. f_equal.
  apply list_eq. intros i. rewrite !lookup_drop. apply list_lookup_alter_ne. lia.
Qed.
Lemma two_replace_ok ts m p e x :
  two_ok ts m → two_points ts p e → p.1 = bucket_of (e_key e) → e_key x = e_key e → (is_zero x = false → e_hash x = fast_hash (e_key x)) →
  two_ok (alter (λ t, update (λ _, x) t p.2) p.1 ts) (<[e_key e:=e_value x]> m).
Proof.
  intros Hok (t & Ht & Hp) Hb Hk Hh. rewrite (alter_as_insert _ _ _ _ Ht). rewrite Hb in Ht |- *.
  destruct (proj2 Hok _ _ Ht) as [d Hd]. apply (two_write _ _ _ d); [done|].
  by apply replace_ok.
Qed.
(** The loop moves the remaining entries of [t] to [ts]. *)
Lemma convert_loop_ok fuel d t mo ts mn m idx :
  table_ok d t mo → two_ok ts mn → -2 ≤ idx < 2 ^ d → (length (remaining t idx) < fuel)%nat → Z.of_nat (size m) < 2 ^ 57 →
  map_to_list m ≡ₚ map_to_list mn ++ (entry <$> remaining t idx) →
  ∃ ts', convert_loop fuel (OneLevel t) (TwoLevel ts) (OneIter idx) = Some (TwoLevel ts') ∧ two_ok ts' m.
Proof.
  revert t mo ts mn idx. induction fuel as [|fuel IH]; intros t mo ts mn idx Hok Hts Hidx Hlen Hs Hm; [lia|].
  destruct (iter_next_ok d t mo idx Hok Hidx) as (r & idx' & Hnext & Hr). cbn [convert_loop kind_next]. rewrite Hnext. cbn [mbind option_bind].
  destruct r as [p|]; cbn [fmap option_fmap option_map].
  2:{ destruct Hr as [_ Hrem]. rewrite Hrem in Hm. simpl in Hm. rewrite app_nil_r in Hm. apply map_to_list_inj in Hm. subst. eauto. }
  destruct Hr as (Hi & Hq & e & Hp & Hrem). rewrite Hrem in Hm, Hlen. cbn [kind_deref snd]. rewrite (points_deref _ _ _ Hp). cbn [mbind option_bind].
  rewrite fmap_cons in Hm. simpl in Hlen.
  assert (mn !! e_key e = None) as Hnone.
  { pose proof (NoDup_fst_map_to_list m) as Hnd. rewrite Hm, fmap_app, fmap_cons in Hnd. apply NoDup_app in Hnd as (_ & Hnd & _).
    apply eq_None_not_Some. intros [v Hv]. apply (Hnd (e_key e)); [|by left]. apply list_elem_of_fmap. exists (e_key e, v).
    split; [done|]. by apply elem_of_map_to_list. }
  assert (size mn ≤ size m)%nat as Hsz by (rewrite <-!length_map_to_list, Hm, length_app; lia).
  destruct (two_insert_ok ts mn (e_key e) Hts ltac:(lia)) as (q & ts1 & Hins & Hts1 & Hb & x & (u & Hu & Hx) & Hkx).
  rewrite bool_decide_true in Hins, Hts1 by done. cbn [kind_insert_key]. unfold two_insert_key. rewrite Hins. cbn [mbind option_bind kind_deref].
  rewrite Hu. cbn [mbind option_bind]. rewrite (points_deref _ _ _ Hx). cbn [mbind option_bind kind_update snd].
  destruct (proj2 Hts1 _ _ Hu) as [du Hdu].
  apply (IH _ (<[e_key e:=e_value x]> mo) _ (<[e_key x:=e_value e]> (<[e_key e:=zeroed]> mn))).
  - apply replace_ok; [done..|]. by eapply points_hash.
  - apply two_replace_ok; [done|by exists u|by rewrite Hkx|done|]. by apply (points_hash d t mo p).
  - lia.
  - rewrite remaining_update by (lia || done). lia.
  - done.
  - rewrite remaining_update by (lia || done). rewrite Hkx, insert_insert_eq, Hm, map_to_list_insert by done. by rewrite <-Permutation_middle.
Qed.
Lemma convert_ok d t m :
  table_ok d t m → Z.of_nat (size m) < 2 ^ 57 →
  ∃ ts, convert_to_two_level (OneLevel t) = Some (TwoLevel ts) ∧ two_ok ts m.
Proof.
  intros Hok Hs. unfold convert_to_two_level, kind_is_empty. cbn [kind_len]. pose proof (remaining_size _ _ _ Hok) as Hrem.
  destruct (Z.eqb_spec (ht_len t) 0) as [Hz|_].
  - eexists. split; [done|]. unfold ht_len in Hz. rewrite (table_size _ _ _ Hok) in Hz.
    rewrite (map_size_empty_inv m) by lia. apply two_create_ok.
  - destruct (table_room _ _ _ Hok). apply (convert_loop_ok _ d t m two_create ∅ m (-2)); [done|apply two_create_ok|lia|lia|done|].
    rewrite map_to_list_empty, remaining_all. by eapply contents_map.
Qed.

(** ** Iterating over two levels *)
Definition two_remaining (ts : list table) (idx : Z) (index : nat) : list Entity :=
  match ts !! index with
  | Some t => remaining t idx ++ concat ((λ t, remaining t (-2)) <$> drop (S index) ts)
  | None => []
  end.
(** The iterators from [index] on; those after it are not started. *)
Definition two_iter_ok (ts : list table) (idxs : list Z) (index : nat) (idx : Z) : Prop :=
  length idxs = length ts ∧ idxs !! index = Some idx ∧ (∀ j, (index < j < length ts)%nat → idxs !! j = Some (-2)) ∧
  ∃ t, ts !! index = Some t ∧ -2 ≤ idx < g_max_size (grower t).
Lemma two_remaining_step ts idx index t e idx' :
  ts !! index = Some t → remaining t idx = e :: remaining t idx' → two_remaining ts idx index = e :: two_remaining ts idx' index.
Proof. intros Ht Hr. unfold two_remaining. by rewrite Ht, Hr. Qed.
Lemma two_next_ok fuel ts m idxs index idx :
  two_ok ts m → two_iter_ok ts idxs index idx → (length ts < fuel + index)%nat →
  ∃ r idxs' index', two_next fuel ts idxs index = Some (r, idxs', index') ∧
    match r with
    | None => two_remaining ts idx index = []
    | Some p => ∃ idx' e, two_iter_ok ts idxs' index' idx' ∧ two_points ts p e ∧
        two_remaining ts idx index = e :: two_remaining ts idx' index'
    end.
Proof.
  intros Hok. revert idxs index idx. induction fuel as [|fuel IH]; intros idxs index idx (Hlen & Hidx & Hrest & t & Ht & Hr) Hfuel.
  { apply lookup_lt_Some in Ht. lia. }
  destruct (proj2 Hok _ _ Ht) as [d Hd]. pose proof (to_grower _ _ _ Hd) as (_ & Hm & _). rewrite Hm in Hr.
  pose proof (lookup_lt_Some _ _ _ Ht) as Hlt. cbn [two_next]. rewrite Ht. cbn [mbind option_bind]. rewrite Hidx. cbn [mbind option_bind].
  destruct (iter_next_ok d t _ idx Hd Hr) as (r & idx' & -> & Hres). cbn [mbind option_bind]. destruct r as [p|].
  - destruct Hres as (Hi & _ & e & Hp & Hrem). eexists _, _, _. split; [done|]. exists idx', e. split_and!.
    + split_and!; [by rewrite length_insert|apply list_lookup_insert_eq; lia| |exists t; rewrite Hm; split; [done|lia]].
      intros j Hj. rewrite list_lookup_insert_ne by lia. by apply Hrest.
    + by exists t.
    + by apply two_remaining_step with (t := t).
  - destruct Hres as [_ Hrem]. rewrite length_insert. destruct (Nat.ltb_spec index (length idxs - 1)).
    + destruct (lookup_lt_is_Some_2 ts (S index)) as [t' Ht']; [lia|]. destruct (proj2 Hok _ _ Ht') as [d' Hd'].
      destruct (IH (<[index:=idx']> idxs) (S index) (-2)) as (r & idxs' & index' & -> & Hres); [|lia|].
      * split_and!; [by rewrite length_insert|rewrite list_lookup_insert_ne by lia; apply Hrest; lia| |].
        -- intros j Hj. rewrite list_lookup_insert_ne by lia. apply Hrest. lia.
        -- exists t'. destruct (to_grower _ _ _ Hd') as (_ & -> & _). destruct (table_room _ _ _ Hd'). split; [done|lia].
      * eexists _, _, _. split; [done|]. assert (two_remaining ts idx index = two_remaining ts (-2) (S index)) as ->; [|done].
        unfold two_remaining. rewrite Ht, Ht', Hrem, (drop_S _ _ _ Ht'). done.
    + eexists _, _, _. split; [done|]. unfold two_remaining. rewrite Ht, Hrem, drop_ge by lia. done.
Qed.

(** ** Tables of either kind *)
Definition kind_ok (kd : HashTableKind K V) m : Prop :=
  match kd with OneLevel t => ∃ d, table_ok d t m | TwoLevel ts => two_ok ts m end.
Definition kind_points (kd : HashTableKind K V) (p : nat * ptr) e : Prop :=
  match kd with OneLevel t => points t p.2 e | TwoLevel ts => two_points ts p e end.
Definition kind_iter_ok (kd : HashTableKind K V) (it : kind_iter) (es : list Entity) : Prop :=
  match kd, it with
  | OneLevel t, OneIter idx => -2 ≤ idx < g_max_size (grower t) ∧ es = remaining t idx
  | TwoLevel ts, TwoIter idxs index => ∃ idx, two_iter_ok ts idxs index idx ∧ es = two_remaining ts idx index
  | _, _ => False
  end.
Lemma kind_create_ok : kind_ok create_hash_table ∅ ∧ kind_ok create_two_level_hash_table ∅.
Proof. split; [exists 8; apply create_table_ok|apply two_create_ok]. Qed.
Lemma kind_len_ok kd m : kind_ok kd m → kind_len kd = Z.of_nat (size m).
Proof. destruct kd; [intros [d Hd]; by apply table_size in Hd|apply two_len_ok]. Qed.
Lemma kind_deref_ok kd p e : kind_points kd p e → kind_deref kd p = Some e.
Proof. destruct kd; simpl; [apply points_deref|]. intros (t & -> & Hp). simpl. by apply points_deref. Qed.
Lemma kind_insert_ok kd m k :
  kind_ok kd m → Z.of_nat (size m) < 2 ^ 57 →
  ∃ p kd', kind_insert_key kd k = Some (p, bool_decide (m !! k = None), kd') ∧
    kind_ok kd' (if bool_decide (m !! k = None) then <[k:=zeroed]> m else m) ∧ ∃ e, kind_points kd' p e ∧ e_key e = k.
Proof.
  intros Hok Hs. destruct kd as [t|ts]; cbn [kind_insert_key].
  - destruct Hok as [d Hd]. unfold insert_key.
    destruct (insert_key_ok single_level_limit d t m k Hd Hs) as (p & t' & d' & -> & _ & Hok' & e & Hp & He). cbn [mbind option_bind].
    eexists _, _. split; [done|]. split; [by exists d'|]. by exists e.
  - unfold two_insert_key. destruct (two_insert_ok ts m k Hok Hs) as (p & ts' & -> & Hok' & _ & e & Hp & He). cbn [mbind option_bind].
    eexists _, _. split; [done|]. split; [done|]. by exists e.
Qed.
Lemma two_points_entry ts m p e : two_ok ts m → two_points ts p e → p.1 = bucket_of (e_key e) ∧ m !! e_key e = Some (e_value e).
Proof.
  intros Hok (t & Ht & Hp). destruct (proj2 Hok _ _ Ht) as [d Hd]. apply points_holds in Hp.
  pose proof (table_present d t _ e Hd Hp) as [Hm Hb]%map_lookup_filter_Some. by split.
Qed.
Lemma kind_points_entry kd m p e : kind_ok kd m → kind_points kd p e → m !! e_key e = Some (e_value e).
Proof.
  destruct kd; [intros [d Hd] Hp; eapply table_present; [done|by eapply points_holds]|]. intros Hok Hp. by eapply two_points_entry.
Qed.
(** Writing through a pointer. *)
Lemma kind_update_ok kd m p e (g : Entity → Entity) :
  kind_ok kd m → kind_points kd p e → e_key (g e) = e_key e → e_hash (g e) = e_hash e →
  kind_ok (kind_update g kd p) (<[e_key e:=e_value (g e)]> m).
Proof.
  intros Hok Hp Hk Hh. destruct kd as [t|ts]; simpl.
  - destruct Hok as [d Hd]. exists d. by apply update_ok.
  - destruct (two_points_entry ts m p e Hok Hp) as [Hb _]. destruct Hp as (t & Ht & Hp).
    rewrite (alter_as_insert _ _ _ _ Ht). rewrite Hb in Ht |- *. destruct (proj2 Hok _ _ Ht) as [d Hd].
    apply (two_write _ _ _ d); [done|]. by apply update_ok.
Qed.
Lemma kind_next_ok kd m it es :
  kind_ok kd m → kind_iter_ok kd it es →
  ∃ r it', kind_next kd it = Some (r, it') ∧
    match r with None => es = [] | Some p => ∃ e es', kind_points kd p e ∧ es = e :: es' ∧ kind_iter_ok kd it' es' end.
Proof.
  destruct kd as [t|ts], it as [idx|idxs index]; try done; simpl.
  - intros [d Hd] [Hi ->]. pose proof (to_grower _ _ _ Hd) as (_ & Hm & _). rewrite Hm in Hi.
    destruct (iter_next_ok d t m idx Hd Hi) as (r & idx' & -> & Hr). simpl. eexists _, _. split; [done|]. destruct r as [p|]; simpl; [|by destruct Hr].
    destruct Hr as (Hi' & _ & e & Hp & ->). eexists e, _. split_and!; [done|done|lia|rewrite Hm; lia|done].
  - intros Hok (idx & Hit & ->). assert (index < length ts)%nat by (destruct Hit as (_ & _ & _ & t & Ht & _); by eapply lookup_lt_Some).
    destruct (two_next_ok (S (length ts)) ts m idxs index idx Hok Hit) as (r & idxs' & index' & Hn & Hr); [lia|].
    cbn [two_next] in Hn |- *. rewrite Hn. eexists _, _. split; [done|]. destruct r as [p|]; [|done].
    destruct Hr as (idx' & e & Hit' & Hp & ->). eexists e, _. split_and!; [done..|]. by exists idx'.
Qed.
(** An iterator goes over all entries of the map, each once. *)
Lemma kind_iter_create_ok kd m : kind_ok kd m → ∃ es, kind_iter_ok kd (kind_iter_create kd) es ∧ map_to_list m ≡ₚ entry <$> es.
Proof.
  destruct kd as [t|ts]; simpl.
  - intros [d Hd]. eexists. split; [split; [|done]|by eapply contents_map]. destruct (to_grower _ _ _ Hd) as (_ & -> & _).
    destruct (table_room _ _ _ Hd). lia.
  - intros Hok. pose proof (proj1 Hok) as Hlen. destruct (lookup_lt_is_Some_2 ts 0%nat) as [t Ht]; [rewrite Hlen; change NUM_BUCKETS with 256%nat; lia|].
    destruct (proj2 Hok _ _ Ht) as [d Hd]. eexists. split.
    + exists (-2). split; [|done]. split_and!; [by rewrite length_replicate|by apply lookup_replicate; split; [|eapply lookup_lt_Some]| |].
      * intros j Hj. apply lookup_replicate. split; [done|lia].
      * exists t. destruct (to_grower _ _ _ Hd) as (_ & -> & _). destruct (table_room _ _ _ Hd). split; [done|lia].
    + rewrite (two_contents ts m Hok). unfold two_remaining. rewrite Ht. destruct ts as [|t' ts]; [done|]. injection Ht as ->.
      cbn [drop]. rewrite fmap_cons. cbn [concat]. rewrite drop_0, fmap_app, remaining_all. apply Permutation_app_head.
      clear. induction ts as [|t ts IH]; [done|]. rewrite !fmap_cons. cbn [concat]. by rewrite fmap_app, remaining_all, IH.
Qed.
(** A loop over a table of either kind. *)
Fixpoint kind_entries (fuel : nat) (kd : HashTableKind K V) (it : kind_iter) : option (list Entity) :=
  match fuel with
  | O => None
  | S fuel =>
      '(p, it) ← kind_next kd it;
      match p with
      | None => Some []
      | Some p => e ← kind_deref kd p; es ← kind_entries fuel kd it; Some (e :: es)
      end
  end.
Definition kind_list (kd : HashTableKind K V) : option (list Entity) :=
  kind_entries (S (Z.to_nat (kind_len kd))) kd (kind_iter_create kd).
Lemma kind_entries_ok fuel kd m it es :
  kind_ok kd m → kind_iter_ok kd it es → (length es < fuel)%nat → kind_entries fuel kd it = Some es.
Proof.
  intros Hok. revert it es. induction fuel as [|fuel IH]; intros it es Hit Hlen; [lia|]. cbn [kind_entries].
  destruct (kind_next_ok kd m it es Hok Hit) as (r & it' & -> & Hr). cbn [mbind option_bind]. destruct r as [p|]; [|by rewrite Hr].
  destruct Hr as (e & es' & Hp & -> & Hit'). rewrite (kind_deref_ok _ _ _ Hp). cbn [mbind option_bind]. simpl in Hlen. by rewrite (IH it' es') by (done || lia).
Qed.
Lemma kind_list_ok kd m : kind_ok kd m → ∃ es, kind_list kd = Some es ∧ map_to_list m ≡ₚ entry <$> es.
Proof.
  intros Hok. destruct (kind_iter_create_ok kd m Hok) as (es & Hit & Hes). exists es. split; [|done].
  apply (kind_entries_ok _ _ m); [done..|]. rewrite (kind_len_ok _ _ Hok), Nat2Z.id, <-length_map_to_list, Hes, length_fmap. lia.
Qed.

(** ** The table as a map *)

(** What the aggregations do with a table: take the entry of a key and write its value, go to two levels, ask for its size
    and go over its entries. *)
Inductive table_op := OpEntry (k : K) (g : bool → V → V) | OpConvert | OpLen | OpIter.
Inductive table_answer := AnsEntry (inserted : bool) (v : V) | AnsDone | AnsLen (n : Z) | AnsIter (l : list (K * V)).
Definition table_step (op : table_op) (kd : HashTableKind K V) : option (table_answer * HashTableKind K V) :=
  match op with
  | OpEntry k g =>
      '(p, inserted, kd) ← kind_insert_key kd k;
      e ← kind_deref kd p;
      Some (AnsEntry inserted (e_value e), kind_update (λ e, set_value (g inserted (e_value e)) e) kd p)
  | OpConvert => match kd with OneLevel _ => kd ← convert_to_two_level kd; Some (AnsDone, kd) | TwoLevel _ => Some (AnsDone, kd) end
  | OpLen => Some (AnsLen (kind_len kd), kd)
  | OpIter => es ← kind_list kd; Some (AnsIter (entry <$> es), kd)
  end.
Definition map_step (op : table_op) m : table_answer * gmap K V :=
  match op with
  | OpEntry k g =>
      let inserted := bool_decide (m !! k = None) in
      let v := default zeroed (m !! k) in (AnsEntry inserted v, <[k:=g inserted v]> m)
  | OpConvert => (AnsDone, m)
  | OpLen => (AnsLen (Z.of_nat (size m)), m)
  | OpIter => (AnsIter (map_to_list m), m)
  end.
Fixpoint table_run (ops : list table_op) (kd : HashTableKind K V) : option (list table_answer) :=
  match ops with
  | [] => Some []
  | op :: ops => '(a, kd) ← table_step op kd; l ← table_run ops kd; Some (a :: l)
  end.
Fixpoint map_run (ops : list table_op) m : list table_answer :=
  match ops with [] => [] | op :: ops => (map_step op m).1 :: map_run ops (map_step op m).2 end.
(** Answers up to the order of iteration. *)
Definition same_answer (a b : table_answer) : Prop :=
  match a, b with AnsIter l, AnsIter l' => l ≡ₚ l' | _, _ => a = b end.
Lemma table_step_ok op kd m :
  kind_ok kd m → Z.of_nat (size m) < 2 ^ 57 →
  ∃ a kd', table_step op kd = Some (a, kd') ∧ same_answer a (map_step op m).1 ∧ kind_ok kd' (map_step op m).2.
Proof.
  intros Hok Hs. destruct op as [k g| | |]; simpl.
  - destruct (kind_insert_ok kd m k Hok Hs) as (p & kd' & -> & Hok' & e & Hp & Hk). cbn [mbind option_bind].
    rewrite (kind_deref_ok _ _ _ Hp). cbn [mbind option_bind]. eexists _, _. split; [done|].
    pose proof (kind_points_entry _ _ _ _ Hok' Hp) as He. rewrite Hk in He.
    assert (e_value e = default zeroed (m !! k)) as Hv.
    { destruct (m !! k) as [v|] eqn:Hm; [rewrite bool_decide_false in He by done; rewrite Hm in He|rewrite bool_decide_true, lookup_insert_eq in He by done]; simpl; congruence. }
    split; [by simpl; rewrite Hv|]. rewrite <-Hv.
    pose proof (kind_update_ok kd' _ p e (λ e, set_value (g (bool_decide (m !! k = None)) (e_value e)) e) Hok' Hp eq_refl eq_refl) as Hu.
    rewrite Hk in Hu. simpl in Hu. case_bool_decide; [by rewrite insert_insert_eq in Hu|done].
  - destruct kd as [t|ts]; [|by eexists _, _; split; [done|]]. destruct Hok as [d Hd].
    destruct (convert_ok d t m Hd Hs) as (ts & -> & Hts). by eexists _, _; split; [done|].
  - rewrite (kind_len_ok _ _ Hok). by eexists _, _; split; [done|].
  - destruct (kind_list_ok kd m Hok) as (es & -> & Hes). eexists _, _. split; [done|]. split; [simpl; by symmetry|done].
Qed.
Lemma map_step_size op m : (size (map_step op m).2 ≤ S (size m))%nat.
Proof. destruct op; simpl; try lia. rewrite map_size_insert. destruct (m !! k); simpl; lia. Qed.
Lemma table_run_ok ops kd m :
  kind_ok kd m → Z.of_nat (size m + length ops) < 2 ^ 57 →
  ∃ ans, table_run ops kd = Some ans ∧ Forall2 same_answer ans (map_run ops m).
Proof.
  revert kd m. induction ops as [|op ops IH]; intros kd m Hok Hs; [by exists []|]. cbn [table_run map_run]. simpl length in Hs.
  destruct (table_step_ok op kd m Hok) as (a & kd' & -> & Ha & Hok'); [lia|]. cbn [mbind option_bind].
  pose proof (map_step_size op m). destruct (IH kd' _ Hok') as (l & -> & Hl); [lia|]. cbn [mbind option_bind]. eexists. split; [done|]. by constructor.
Qed.
(** C11: a hash table of the aggregations refines a finite map.  For any sequence of fewer than 2^57 uses (taking the entry of a key and
    writing its value through the returned pointer, going to two levels, asking for the size, iterating) starting from a new table,
    every use succeeds within its bounds, and the answers are those of a map whose absent keys have the zero value; an iteration
    gives each entry exactly once, in some order.  This covers the open addressing, growing and re-placing of entries on a
    resize, the separate entry of the zero key, and the move to 256 buckets. *)
Theorem hash_table_refines (ops : list table_op) :
  Z.of_nat (length ops) < 2 ^ 57 → ∃ ans, table_run ops create_hash_table = Some ans ∧ Forall2 same_answer ans (map_run ops ∅).
Proof. intros Hs. apply table_run_ok; [apply kind_create_ok|]. by rewrite map_size_empty. Qed.
End kinds.

(** ** The keys of the aggregations *)
Section keys.
#[local] Existing Instance primitive_keyable.
#[local] Instance zero_Z : Zeroed Z := 0.
Lemma primitive_laws : KeyableLaws Z.
Proof. split; simpl; [done| |done]. intros k k' ?%Z.eqb_eq ?%Z.eqb_eq. congruence. Qed.
Lemma keys_ref_laws (hash : string → Z) : @KeyableLaws string (keys_ref_keyable hash) EmptyString.
Proof. split; simpl; [done| |done]. by intros [|? ?] [|? ?]. Qed.

(** Some uses of a table of integers, 300 keys with the zero key among them. *)
Definition sample_ops : list (table_op (K:=Z) (V:=Z)) :=
  (λ n, OpEntry (Z.of_nat n) (λ _ v, v + 1)) <$> seq 0 300.
Definition sample_tail : list (table_op (K:=Z) (V:=Z)) := [OpConvert; OpEntry 7 (λ _ v, v + 1); OpEntry 7 (λ _ v, v + 1); OpLen].
Lemma hash_table_refines_example :
  (∃ ans, table_run (sample_ops ++ sample_tail) create_hash_table = Some ans ∧
    Forall2 same_answer ans (map_run (sample_ops ++ sample_tail) ∅)) ∧
  drop 300 (map_run (sample_ops ++ sample_tail) ∅) = [AnsDone; AnsEntry false 1; AnsEntry false 2; AnsLen 300].
Proof.
  split; [apply (@hash_table_refines Z Z _ _ primitive_keyable zero_Z zero_Z primitive_laws); vm_compute; reflexivity|vm_compute; reflexivity].
Defined.
End keys.
