(* ===== verification/Column.v ===== *)
(** * Columns and blocks (src/common/datavalues/src/columns, src/common/datablocks/src/data_block.rs).

    A column of one of the scalar types, a column of such with a bitmap of the rows that
    are not null, a constant column, or a column of nulls.  The width of an integer type is
    that of the function that reads the column, so integers are kept as they are. *)
From Stdlib Require Export Floats.SpecFloat.
From S2P Require Import Prelude.

(** ** Scalars *)

(** A floating-point value: a number or an infinity, or one of the values that are not a number, by its sign and the bits
    of its mantissa. *)
Inductive Float := FNum (f : spec_float) | FNan (sign : bool) (payload : Z).
Definition num (x : Float) : spec_float := match x with FNum f => f | FNan _ _ => S754_nan end.
(** The result of an operation; the language does not say which NaN an operation gives. *)
Definition of_num (f : spec_float) : Float := match f with S754_nan => FNan false 1 | _ => FNum f end.
(** A value of one of the scalar types; [None] for [DataValue::Null] is outside. *)
Inductive Scalar := SBool (b : bool) | SInt (n : Z) | SFloat (f : Float) | SStr (s : string).
#[global] Instance spec_float_eq_dec : EqDecision spec_float.
Proof. solve_decision. Defined.
#[global] Instance Float_eq_dec : EqDecision Float.
Proof. solve_decision. Defined.
#[global] Instance Scalar_eq_dec : EqDecision Scalar.
Proof. solve_decision. Defined.

(** The errors of this part. *)
Inductive agg_error := UnknownColumn | BadArguments | BadBytes | NumberArgumentsNotMatch | UnknownAggregateFunction | BadDataValueType | LayoutError | LogicalError | UnexpectedEof | InvalidDate | InvalidTimestamp | Overflow.
#[global] Instance agg_error_eq_dec : EqDecision agg_error.
Proof. solve_decision. Defined.

(** ** Columns *)
Inductive Column :=
  | PrimitiveColumn (values : list Z)
  | FloatColumn (values : list Float)
  | BooleanColumn (values : list bool)
  | StringColumn (values : list string)
  | NullableColumn (validity : list bool) (column : Column)
  | ConstColumn (column : Column) (length : nat)
  | NullColumn (length : nat).

(** The unset bits of a bitmap. *)
Definition null_count (b : list bool) : nat := length (filter (λ v, v = false) b).
Fixpoint col_len (c : Column) : nat :=
  match c with
  | PrimitiveColumn l => length l
  | FloatColumn l => length l
  | BooleanColumn l => length l
  | StringColumn l => length l
  | NullableColumn _ c => col_len c
  | ConstColumn _ n => n
  | NullColumn n => n
  end.
Definition is_const (c : Column) : bool := match c with ConstColumn _ _ => true | _ => false end.
Fixpoint is_nullable (c : Column) : bool :=
  match c with NullableColumn _ _ => true | ConstColumn c _ => is_nullable c | _ => false end.
(** [get_bit] of a bitmap; it panics outside. *)
Definition get_bit (b : list bool) (i : nat) : bool := default false (b !! i).
Fixpoint null_at (c : Column) (row : nat) : bool :=
  match c with
  | NullableColumn v _ => negb (get_bit v row)
  | ConstColumn c _ => null_at c 0
  | NullColumn _ => true
  | _ => false
  end.
(** Whether all rows are null, and the bitmap if there is one. *)
Definition validity (c : Column) : bool * option (list bool) :=
  match c with
  | NullableColumn v _ => (null_count v =? length v, Some v)
  | ConstColumn c _ => (null_at c 0, None)
  | NullColumn _ => (true, None)
  | _ => (false, None)
  end.
Definition const_new (c : Column) (n : nat) : Column := match c with ConstColumn c _ => ConstColumn c n | _ => ConstColumn c n end.
Fixpoint remove_nullable (c : Column) : Column :=
  match c with
  | ConstColumn inner n => if is_nullable inner then const_new (remove_nullable inner) n else c
  | NullableColumn _ inner => inner
  | _ => c
  end.
(** [replicate(&[n])] of a column of one row, as a constant column asks for. *)
Fixpoint replicate_one (c : Column) (n : nat) : Column :=
  match c with
  | PrimitiveColumn l => PrimitiveColumn (match l with x :: _ => replicate n x | [] => [] end)
  | FloatColumn l => FloatColumn (match l with x :: _ => replicate n x | [] => [] end)
  | BooleanColumn l => BooleanColumn (match l with x :: _ => replicate n x | [] => [] end)
  | StringColumn l => StringColumn (match l with x :: _ => replicate n x | [] => [] end)
  | NullableColumn v c => NullableColumn (replicate n (get_bit v 0)) (replicate_one c n)
  | ConstColumn c _ => ConstColumn c n
  | NullColumn _ => NullColumn n
  end.
Fixpoint convert_full_column (c : Column) : Column :=
  match c with
  | NullableColumn v c => NullableColumn v (convert_full_column c)
  | ConstColumn c n => replicate_one c n
  | _ => c
  end.
(** The value of a row, [None] for null; the row is in the column. *)
Fixpoint col_get (c : Column) (i : nat) : option Scalar :=
  match c with
  | PrimitiveColumn l => SInt <$> l !! i
  | FloatColumn l => SFloat <$> l !! i
  | BooleanColumn l => SBool <$> l !! i
  | StringColumn l => SStr <$> l !! i
  | NullableColumn v c => if get_bit v i then col_get c i else None
  | ConstColumn c _ => col_get c 0
  | NullColumn _ => None
  end.
(** [Column::filter] by a bitmap as long as the column. *)
Definition filter_list {A} (l : list A) (f : list bool) : list A := fst <$> filter (λ x, x.2 = true) (zip l f).
Lemma filter_list_cons {A} (x : A) l b p : filter_list (x :: l) (b :: p) = (if (b : bool) then [x] else []) ++ filter_list l p.
Proof. unfold filter_list. simpl. rewrite filter_cons. by destruct b. Qed.
Fixpoint col_filter (c : Column) (f : list bool) : Column :=
  match c with
  | PrimitiveColumn l => PrimitiveColumn (filter_list l f)
  | FloatColumn l => FloatColumn (filter_list l f)
  | BooleanColumn l => BooleanColumn (filter_list l f)
  | StringColumn l => StringColumn (filter_list l f)
  | NullableColumn v inner => if null_count f =? 0 then c else NullableColumn (filter_list v f) (col_filter inner f)
  | ConstColumn inner n => ConstColumn inner (length f - null_count f)
  | NullColumn _ => NullColumn (length f - null_count f)
  end.
Definition combine_validities (lhs rhs : option (list bool)) : option (list bool) :=
  match lhs, rhs with
  | Some l, None => Some l
  | None, Some r => Some r
  | None, None => None
  | Some l, Some r => Some (zip_with andb l r)
  end.

(** ** Casts of a column to a type *)

(** [Series::check_get] is an error on a column of another type. *)
Definition check_get_string (c : Column) : res agg_error (list string) :=
  match c with StringColumn l => Ok l | _ => Err UnknownColumn end.
Definition check_get_bool (c : Column) : res agg_error (list bool) :=
  match c with BooleanColumn l => Ok l | _ => Err UnknownColumn end.
Definition check_get_int (c : Column) : res agg_error (list Z) :=
  match c with PrimitiveColumn l => Ok l | _ => Err UnknownColumn end.
(** [Series::static_cast] has no defined result on a column of another type. *)
Definition static_cast_int (c : Column) : res agg_error (list Z) := match c with PrimitiveColumn l => Ok l | _ => Panic end.
(** The kinds of scalar types, with the default value of a type. *)
Inductive TypeKind := KInt | KFloat | KBool | KStr.
#[global] Instance TypeKind_eq_dec : EqDecision TypeKind.
Proof. solve_decision. Defined.
Definition scalar_default (t : TypeKind) : Scalar :=
  match t with KInt => SInt 0 | KFloat => SFloat (FNum (S754_zero false)) | KBool => SBool false | KStr => SStr EmptyString end.
(** The values of a column of the given kind. *)
Definition scalars_of (t : TypeKind) (c : Column) : option (list Scalar) :=
  match t, c with
  | KInt, PrimitiveColumn l => Some (SInt <$> l)
  | KFloat, FloatColumn l => Some (SFloat <$> l)
  | KBool, BooleanColumn l => Some (SBool <$> l)
  | KStr, StringColumn l => Some (SStr <$> l)
  | _, _ => None
  end.
Definition scalar_iter (t : TypeKind) (c : Column) : res agg_error (list Scalar) := unwrap (scalars_of t c).
(** [S::try_create_viewer]: the values under the nulls of a column. *)
Definition viewer_items (t : TypeKind) (c : Column) : res agg_error (list Scalar) :=
  match c with
  | ConstColumn (NullableColumn _ c) n | ConstColumn c n =>
      let? l := ok_or (scalars_of t c) UnknownColumn in
      Ok (match l with x :: _ => replicate n x | [] => [] end)
  | NullableColumn _ c => ok_or (scalars_of t c) UnknownColumn
  | c => ok_or (scalars_of t c) UnknownColumn
  end.

(** ** Blocks *)
Definition DataBlock : Type := list (string * Column).
Definition num_rows (b : DataBlock) : nat := match b with [] => 0 | (_, c) :: _ => col_len c end.
Definition block_column (b : DataBlock) (i : nat) : res agg_error Column := unwrap (snd <$> b !! i).
Definition try_column_by_name (b : DataBlock) (name : string) : res agg_error Column :=
  if decide (name = "*") then block_column b 0
  else match list_find (λ f, f.1 = name) b with Some (_, (_, c)) => Ok c | None => Err BadArguments end.
(** [DataBlock::slice] and [Column::slice]; beyond the end of a column is a panic, for strings an access outside of the offsets. *)
Definition slice_list {E A} (l : list A) (offset len : nat) : res E (list A) :=
  if offset + len <=? length l then Ok (take len (drop offset l)) else Panic.
Fixpoint col_slice {E} (c : Column) (offset len : nat) : res E Column :=
  match c with
  | PrimitiveColumn l => let? l := slice_list l offset len in Ok (PrimitiveColumn l)
  | FloatColumn l => let? l := slice_list l offset len in Ok (FloatColumn l)
  | BooleanColumn l => let? l := slice_list l offset len in Ok (BooleanColumn l)
  | StringColumn l => let? l := slice_list l offset len in Ok (StringColumn l)
  | NullableColumn v c => let? c := col_slice c offset len in let? v := slice_list v offset len in Ok (NullableColumn v c)
  | ConstColumn c _ => Ok (ConstColumn c len)
  | NullColumn _ => Ok (NullColumn len)
  end.
Definition block_slice {E} (b : DataBlock) (offset len : nat) : res E DataBlock :=
  if (offset =? 0) && (num_rows b <=? len) then Ok b
  else res_mapM (λ f : string * Column, let? c := col_slice f.2 offset len in Ok (f.1, c)) b.
