(* ===== verification/ColumnFilter.v ===== *)
(** * Filtering a column (filter of PrimitiveColumn, StringColumn and BooleanColumn).

    The filters go over a bitmap in chunks of 64 bits.  A bitmap may start in the middle of
    a byte: it is a slice of bytes, an offset and a length. *)
From S2P Require Import Prelude Column.
#[local] Open Scope Z_scope.

(** ** Bitmaps: the crate arrow2 *)

(** The i-th bit of bytes. *)
Definition bit_at (bytes : list Z) (i : nat) : bool := Z.testbit (default 0 (bytes !! (i / 8)%nat)) (Z.of_nat (i mod 8)).
Class Bitmaps := {
  Bitmap : Type;
  bm_iter : Bitmap → list bool;
  as_slice : Bitmap → list Z * nat * Z;
  (** [BitChunksExact::new]: the chunks and the bits that are left; it asserts that there are enough bytes. *)
  bit_chunks : list Z → Z → res agg_error (list Z * list bool);
}.
Class BitmapsLaws `{!Bitmaps} : Prop := {
  as_slice_ok b bytes offset len : as_slice b = (bytes, offset, len) →
    (offset < 8)%nat ∧ len = Z.of_nat (length (bm_iter b)) ∧ Z.of_nat offset + len ≤ 8 * Z.of_nat (length bytes) ∧ len < 2 ^ 63 ∧
    ∀ i, (i < length (bm_iter b))%nat → bm_iter b !! i = Some (bit_at bytes (offset + i));
  bit_chunks_ok bytes (n : nat) : Z.of_nat n ≤ 8 * Z.of_nat (length bytes) → ∃ chunks rest, bit_chunks bytes (Z.of_nat n) = Ok (chunks, rest) ∧
    length chunks = (n / 64)%nat ∧ length rest = (n mod 64)%nat ∧
    (∀ j m, chunks !! j = Some m → 0 ≤ m < 2 ^ 64 ∧ ∀ i, (i < 64)%nat → Z.testbit m (Z.of_nat i) = bit_at bytes (j * 64 + i)) ∧
    (∀ i b, rest !! i = Some b → b = bit_at bytes (n / 64 * 64 + i));
  bit_chunks_assert bytes len : 8 * Z.of_nat (length bytes) < len → bit_chunks bytes len = Panic;
}.

Section filters.
Context `{!Bitmaps}.
Definition usize_sub (a b : Z) : Z := (a - b) `mod` 2 ^ 64.
(** [trailing_zeros] of a [u64]. *)
Fixpoint zeros_from (k : nat) (i : nat) (mask : Z) : nat :=
  match k with O => i | S k => if Z.testbit mask (Z.of_nat i) then i else zeros_from k (S i) mask end.
Definition trailing_zeros (mask : Z) : nat := zeros_from 64 0 mask.
(** The loop over the set bits of a mask. *)
Fixpoint mask_loop {A} (fuel : nat) (get : nat → res agg_error A) (mask : Z) : res agg_error (list A) :=
  match fuel with
  | O => Panic
  | S fuel =>
      if mask =? 0 then Ok []
      else
        let n := trailing_zeros mask in
        let? x := get n in
        let? xs := mask_loop fuel get (Z.land mask (mask - 1)) in Ok (x :: xs)
  end.
Definition chunks_exact {A} (n : nat) (l : list A) : list (list A) := (λ j, take n (drop (j * n) l)) <$> seq 0 (length l / n).
Definition chunks_remainder {A} (n : nat) (l : list A) : list A := drop (length l / n * n) l.
Definition CHUNK_SIZE : nat := 64.
Definition u64_MAX : Z := 2 ^ 64 - 1.
(** [PrimitiveColumn::filter]. *)
Definition primitive_filter {A} (self : list A) (filter : Bitmap) : res agg_error (list A) :=
  let f := bm_iter filter in
  if negb (length self =? length f)%nat then Panic
  else
    let selected := (length f - null_count f)%nat in
    if (selected =? length self)%nat then Ok self
    else
      let '(slice, offset, len) := as_slice filter in
      let? ' (head, values, slice, len) :=
        (if (0 <? offset)%nat then
           let n := (8 - offset)%nat in
           if (length slice <? 1)%nat || (length self <? n)%nat then Panic
           else Ok (filter_list (take n self) (take n f), drop n self, drop 1 slice, usize_sub len (Z.of_nat n))
         else Ok ([], self, slice, len)) in
      let? ' (masks, rest) := bit_chunks slice len in
      let? body := res_mapM (λ '(chunk, mask),
        if mask =? u64_MAX then Ok chunk else mask_loop 65 (λ n, unwrap (chunk !! n)) mask) (zip (chunks_exact CHUNK_SIZE values) masks) in
      Ok (head ++ concat body ++ filter_list (chunks_remainder CHUNK_SIZE values) rest).
(** [StringColumn::filter], on the strings of the column. *)
Definition string_filter (self : list string) (filter : Bitmap) : res agg_error (list string) :=
  let f := bm_iter filter in
  let selected := (length f - null_count f)%nat in
  if (selected =? length self)%nat then Ok self
  else
    let '(slice, offset, len) := as_slice filter in
    let get i := unwrap (self !! i) in
    let? ' (head, start_index, slice, len) :=
      (if (0 <? offset)%nat then
         let n := (8 - offset)%nat in
         let? head := res_mapM (λ '(i, is_selected), if (is_selected : bool) then res_map (λ x, [x]) (get i) else Ok []) (take n (zip (seq 0 (length f)) f)) in
         if (length slice <? 1)%nat then Panic else Ok (concat head, n, drop 1 slice, usize_sub len (Z.of_nat n))
       else Ok ([], 0%nat, slice, len)) in
    let? ' (masks, rest) := bit_chunks slice len in
    let? body := res_mapM (λ '(mask_index, mask), mask_loop 65 (λ n, get (mask_index * CHUNK_SIZE + n + start_index)%nat) mask)
      (zip (seq 0 (length masks)) masks) in
    let remainder_start := Z.to_nat (len - len `mod` Z.of_nat CHUNK_SIZE) in
    let? tail := res_mapM (λ '(mask_index, is_selected), if (is_selected : bool) then res_map (λ x, [x]) (get (mask_index + remainder_start + start_index)%nat) else Ok [])
      (zip (seq 0 (length rest)) rest) in
    Ok (head ++ concat body ++ concat tail).
(** [BooleanColumn::filter], on the bitmap of the column: the offsets of both bitmaps are not used. *)
Definition boolean_filter (self filter : Bitmap) : res agg_error (list bool) :=
  let f := bm_iter filter in
  let selected := (length f - null_count f)%nat in
  if (selected =? length (bm_iter self))%nat then Ok (bm_iter self)
  else
    let '(value_slice, _, value_length) := as_slice self in
    let '(slice, _, len) := as_slice filter in
    let? ' (chunks, values) := bit_chunks value_slice value_length in
    let? ' (masks, rest) := bit_chunks slice len in
    let? body := res_mapM (λ '(chunk, mask), mask_loop 65 (λ n, Ok (negb (Z.land chunk (Z.shiftl 1 (Z.of_nat n)) =? 0))) mask) (zip chunks masks) in
    Ok (concat body ++ filter_list values rest).
End filters.

(** ** Masks *)
Lemma zeros_from_ok k i j mask :
  (i ≤ j < i + k)%nat → (∀ m, (i ≤ m < j)%nat → Z.testbit mask (Z.of_nat m) = false) → Z.testbit mask (Z.of_nat j) = true → zeros_from k i mask = j.
Proof.
  revert i. induction k as [|k IH]; intros i Hij Hlow Hj; [lia|]. simpl. destruct (decide (i = j)) as [->|Hne]; [by rewrite Hj|].
  rewrite Hlow by lia. apply IH; [lia| |done]. intros m Hm. apply Hlow. lia.
Qed.
Lemma high_bits mask j : 0 ≤ mask < 2 ^ 64 → 64 ≤ j → Z.testbit mask j = false.
Proof. intros Hm Hj. rewrite <-(Z.mod_small mask (2 ^ 64)) by done. by apply Z.mod_pow2_bits_high. Qed.
Lemma land_bound mask x : 0 ≤ mask < 2 ^ 64 → 0 ≤ Z.land mask x < 2 ^ 64.
Proof.
  intros Hm. assert (Z.land mask x = Z.land mask x mod 2 ^ 64) as ->; [|by apply Z.mod_pos_bound].
  apply Z.bits_inj'. intros j Hj. destruct (Z.lt_ge_cases j 64); [by rewrite Z.mod_pow2_bits_low by lia|].
  by rewrite Z.mod_pow2_bits_high, Z.land_spec, high_bits by lia.
Qed.
(** A number whose bits below [i] are not set. *)
Lemma low_zero mask i : 0 ≤ i → (∀ j, 0 ≤ j < i → Z.testbit mask j = false) → mask = 2 ^ i * (mask / 2 ^ i).
Proof.
  intros Hi Hlow. assert (mask mod 2 ^ i = 0) as Hz; [|pose proof (Z.div_mod mask (2 ^ i)); lia].
  apply Z.bits_inj'. intros j Hj. rewrite Z.bits_0. destruct (Z.lt_ge_cases j i); [|by rewrite Z.mod_pow2_bits_high by lia].
  rewrite Z.mod_pow2_bits_low by lia. by apply Hlow.
Qed.
Lemma clear_lowest mask i j :
  0 ≤ i → 0 ≤ j → (∀ m, 0 ≤ m < i → Z.testbit mask m = false) → Z.testbit mask i = true →
  Z.testbit (Z.land mask (mask - 1)) j = if j =? i then false else Z.testbit mask j.
Proof.
  intros Hi Hj Hlow Hbit. rewrite Z.land_spec. set (q := mask / 2 ^ (i + 1)).
  assert (mask = q * 2 ^ (i + 1) + 2 ^ i) as Hm.
  { pose proof (low_zero mask i Hi Hlow) as Hz. rewrite <-Z.shiftr_div_pow2 in Hz by done. set (r := Z.shiftr mask i) in *.
    assert (Z.odd r = true) as Ho by (unfold r; rewrite <-Z.bit0_odd, Z.shiftr_spec by lia; by rewrite Z.add_0_l).
    assert (q = r / 2) as -> by (unfold q, r; rewrite Z.shiftr_div_pow2, Z.pow_add_r, Z.div_div by lia; done).
    rewrite Z.pow_add_r by lia. rewrite Zodd_mod, Z.eqb_eq in Ho. pose proof (Z.div_mod r 2). nia. }
  assert ((mask - 1) / 2 ^ (i + 1) = q) as Hd.
  { symmetry. apply Z.div_unique with (r := 2 ^ i - 1); [left|]; rewrite ?Z.pow_add_r by lia; [pose proof (Z.pow_pos_nonneg 2 i); lia|].
    rewrite Hm at 1. rewrite Z.pow_add_r by lia. ring. }
  destruct (Z.eqb_spec j i) as [->|Hne].
  - rewrite Hbit. simpl. assert (mask - 1 = 2 ^ i * (2 * q) + (2 ^ i - 1)) as -> by (rewrite Hm at 1; rewrite Z.pow_add_r by lia; ring).
    rewrite <-(Z.mod_pow2_bits_low _ (i + 1)) by lia. replace (2 ^ i * (2 * q) + (2 ^ i - 1)) with ((2 ^ i - 1) + q * 2 ^ (i + 1)) by (rewrite Z.pow_add_r by lia; ring).
    rewrite Z_mod_plus_full, Z.mod_small by (rewrite Z.pow_add_r by lia; pose proof (Z.pow_pos_nonneg 2 i); lia).
    change (2 ^ i - 1) with (Z.pred (2 ^ i)). rewrite <-Z.ones_equiv. apply Z.ones_spec_high. lia.
  - destruct (Z.lt_ge_cases j i) as [Hlt|Hge]; [by rewrite Hlow by lia|].
    assert (∀ x, Z.testbit x j = Z.testbit (x / 2 ^ (i + 1)) (j - (i + 1))) as Hshift.
    { intros x. rewrite <-Z.shiftr_div_pow2, Z.shiftr_spec by lia. f_equal. lia. }
    rewrite (Hshift (mask - 1)), Hd. unfold q. rewrite <-Hshift. apply andb_diag.
Qed.
Lemma filter_list_drop {A} (l : list A) i b p : l !! i = Some b → ∀ c, filter_list (drop i l) (c :: p) = (if (c : bool) then [b] else []) ++ filter_list (drop (S i) l) p.
Proof.
  intros Hi c. by rewrite (drop_S _ _ _ Hi), filter_list_cons.
Qed.
Lemma mask_loop_ok {A} (get : nat → res agg_error A) (xs : list A) k i mask fuel :
  (∀ n x, xs !! n = Some x → get n = Ok x) → length xs = 64%nat → (i + k = 64)%nat → 0 ≤ mask < 2 ^ 64 →
  (∀ m, (m < i)%nat → Z.testbit mask (Z.of_nat m) = false) → (k < fuel)%nat →
  mask_loop fuel get mask = Ok (filter_list (drop i xs) ((λ n, Z.testbit mask (Z.of_nat n)) <$> seq i k)).
Proof.
  intros Hget Hlen. revert i mask fuel. induction k as [|k IH]; intros i mask fuel Hik Hmask Hlow Hfuel.
  - assert (mask = 0) as ->; [|by destruct fuel; [lia|]; simpl; rewrite drop_ge by lia].
    apply Z.bits_inj'. intros j Hj. rewrite Z.bits_0. destruct (Z.lt_ge_cases j 64).
    + rewrite <-(Z2Nat.id j) by lia. apply Hlow. lia.
    + by apply high_bits.
  - destruct (lookup_lt_is_Some_2 xs i) as [x Hx]; [lia|]. rewrite <-cons_seq, fmap_cons, (filter_list_drop _ _ _ _ Hx).
    destruct (Z.testbit mask (Z.of_nat i)) eqn:Hbit; simpl.
    + destruct fuel as [|fuel]; [lia|]. simpl. destruct (Z.eqb_spec mask 0) as [->|_]; [by rewrite Z.bits_0 in Hbit|].
      assert (trailing_zeros mask = i) as ->.
      { apply zeros_from_ok; [lia| |done]. intros m Hm. apply Hlow. lia. }
      assert (∀ j, 0 ≤ j → Z.testbit (Z.land mask (mask - 1)) j = if j =? Z.of_nat i then false else Z.testbit mask j) as Hclear.
      { intros j Hj. apply clear_lowest; [lia|done| |done]. intros m Hm. rewrite <-(Z2Nat.id m) by lia. apply Hlow. lia. }
      rewrite (Hget _ _ Hx). simpl. rewrite (IH (S i)); [|lia| | |lia].
      * simpl. do 3 f_equal. apply list_fmap_ext. intros _ n Hn%list_elem_of_lookup_2%elem_of_seq. rewrite Hclear by lia.
        by destruct (Z.eqb_spec (Z.of_nat n) (Z.of_nat i)); [lia|].
      * by apply land_bound.
      * intros m Hm. rewrite Hclear by lia. destruct (Z.eqb_spec (Z.of_nat m) (Z.of_nat i)); [done|]. apply Hlow. lia.
    + rewrite (IH (S i)); [done|lia|done| |lia]. intros m Hm. destruct (decide (m = i)) as [->|]; [done|]. apply Hlow. lia.
Qed.
Lemma mask_chunk {A} (get : nat → res agg_error A) (xs : list A) mask :
  (∀ n x, xs !! n = Some x → get n = Ok x) → length xs = 64%nat → 0 ≤ mask < 2 ^ 64 →
  mask_loop 65 get mask = Ok (filter_list xs ((λ n, Z.testbit mask (Z.of_nat n)) <$> seq 0 64)).
Proof. intros Hget Hlen Hmask. rewrite (mask_loop_ok get xs 64 0); [done|done|done|done|done|lia|lia]. Qed.

(** ** Chunks *)
Lemma filter_list_app {A} (a b : list A) p q : length a = length p → filter_list (a ++ b) (p ++ q) = filter_list a p ++ filter_list b q.
Proof. intros Hl. unfold filter_list. by rewrite zip_with_app, filter_app, fmap_app. Qed.
Lemma filter_list_true {A} (l : list A) n : length l = n → filter_list l (replicate n true) = l.
Proof. intros <-. induction l as [|x l IH]; [done|]. simpl. rewrite filter_list_cons. simpl. by f_equal. Qed.
Lemma all_selected f : (length f - null_count f)%nat = length f → f = replicate (length f) true.
Proof.
  unfold null_count. intros Hn. assert (length (filter (λ v, v = false) f) ≤ length f)%nat as Hle by apply length_filter.
  assert (filter (λ v, v = false) f = []) as Hnil by (apply length_zero_iff_nil; destruct f; simpl in *; lia). clear Hn Hle.
  induction f as [|b f IH]; [done|]. rewrite filter_cons in Hnil. destruct b; simpl in *; [|done]. f_equal. by apply IH.
Qed.
Lemma chunked {A} (values : list A) (B : list bool) c :
  length values = length B → (c * 64 ≤ length B)%nat →
  concat ((λ j, filter_list (take 64 (drop (j * 64) values)) (take 64 (drop (j * 64) B))) <$> seq 0 c) ++ filter_list (drop (c * 64) values) (drop (c * 64) B) = filter_list values B.
Proof.
  intros Hl. induction c as [|c IH]; intros Hc; [by rewrite !drop_0|]. rewrite seq_S, fmap_app, concat_app. simpl concat at 2. rewrite app_nil_r, <-app_assoc.
  rewrite <-IH by lia. f_equal. rewrite <-(take_drop 64 (drop (c * 64) values)) at 2. rewrite <-(take_drop 64 (drop (c * 64) B)) at 2.
  rewrite filter_list_app by (rewrite !length_take, !length_drop; lia). rewrite !drop_drop. do 2 f_equal; f_equal; lia.
Qed.
Lemma bit_at_drop bytes i : bit_at (drop 1 bytes) i = bit_at bytes (8 + i).
Proof.
  unfold bit_at. rewrite lookup_drop. replace ((8 + i) / 8)%nat with (1 + i / 8)%nat; [replace ((8 + i) mod 8)%nat with (i mod 8)%nat; [done|]|].
  - change (8 + i)%nat with (1 * 8 + i)%nat. by rewrite Nat.add_comm, Nat.Div0.mod_add.
  - change (8 + i)%nat with (1 * 8 + i)%nat. by rewrite Nat.div_add_l.
Qed.
Lemma res_mapM_fmap {A B} (f : A → res agg_error B) l (g : nat → B) c :
  length l = c → (∀ j x, l !! j = Some x → f x = Ok (g j)) → res_mapM f l = Ok (g <$> seq 0 c).
Proof.
  intros <-. revert g. induction l as [|x l IH]; intros g Hf; [done|]. simpl. rewrite (Hf 0%nat x eq_refl). simpl.
  rewrite (IH (λ j, g (S j))); [|intros j y Hj; by apply (Hf (S j))]. simpl. do 2 f_equal. rewrite <-fmap_S_seq, <-list_fmap_compose. done.
Qed.

Section correct.
Context `{!Bitmaps, !BitmapsLaws}.
(** The bits of the bitmap from some byte on. *)
Definition bits_of (bytes : list Z) (B : list bool) : Prop := ∀ i, (i < length B)%nat → B !! i = Some (bit_at bytes i).
Lemma mask_bits bytes B j m :
  bits_of bytes B → (j * 64 + 64 ≤ length B)%nat → (∀ i, (i < 64)%nat → Z.testbit m (Z.of_nat i) = bit_at bytes (j * 64 + i)) →
  (λ n, Z.testbit m (Z.of_nat n)) <$> seq 0 64 = take 64 (drop (j * 64) B).
Proof.
  intros HB Hj Hm. apply list_eq. intros i. rewrite list_lookup_fmap. destruct (decide (i < 64)%nat) as [Hi|Hi].
  - rewrite (proj2 (lookup_seq 0 64 i i)) by lia. rewrite lookup_take_lt, lookup_drop, HB by lia. simpl. by rewrite Hm.
  - rewrite lookup_seq_ge, lookup_take_ge by lia. done.
Qed.
(** The bits that a filter consumes byte by byte and those it consumes in chunks. *)
Definition after_offset {A} (offset : nat) (l : list A) : list A := if (0 <? offset)%nat then drop (8 - offset) l else l.
Lemma slice_bits b slice offset len :
  as_slice b = (slice, offset, len) → (offset = 0 ∨ 8 - offset ≤ length (bm_iter b))%nat →
  bits_of (if (0 <? offset)%nat then drop 1 slice else slice) (after_offset offset (bm_iter b)) ∧
  (if (0 <? offset)%nat then usize_sub len (Z.of_nat (8 - offset)) else len) = Z.of_nat (length (after_offset offset (bm_iter b))) ∧
  Z.of_nat (length (after_offset offset (bm_iter b))) ≤ 8 * Z.of_nat (length (if (0 <? offset)%nat then drop 1 slice else slice)) ∧
  ((0 < offset)%nat → (0 < length slice)%nat).
Proof using All.
  intros Hs Hor. destruct (as_slice_ok _ _ _ _ Hs) as (Ho & -> & Hroom & Hsmall & Hbits). unfold after_offset. destruct (Nat.ltb_spec 0 offset) as [Hpos|Hz].
  - rewrite !length_drop. split_and!; [|unfold usize_sub; rewrite Z.mod_small; lia|lia|intros _; lia].
    intros i. rewrite length_drop. intros Hi. rewrite lookup_drop, Hbits by lia. rewrite bit_at_drop. do 2 f_equal. lia.
  - assert (offset = 0%nat) as -> by lia. split_and!; [exact Hbits|done|lia|lia].
Qed.
(** What is left after the chunks. *)
Lemma rest_bits bytes B rest :
  bits_of bytes B → length rest = (length B mod 64)%nat → (∀ i b, rest !! i = Some b → b = bit_at bytes (length B / 64 * 64 + i)) →
  rest = drop (length B / 64 * 64) B.
Proof.
  intros HB Hr Hrest. pose proof (Nat.div_mod (length B) 64 ltac:(lia)) as Hdm. apply list_eq. intros i. rewrite lookup_drop. destruct (rest !! i) as [b|] eqn:Hb.
  - pose proof (lookup_lt_Some _ _ _ Hb). rewrite HB by lia. by rewrite (Hrest i b Hb).
  - symmetry. apply lookup_ge_None. apply lookup_ge_None in Hb. lia.
Qed.
Lemma max_bits : (λ n, Z.testbit u64_MAX (Z.of_nat n)) <$> seq 0 64 = replicate 64 true.
Proof. vm_compute. reflexivity. Qed.
Lemma primitive_chunks {A} (head values : list A) bytes B :
  length values = length B → bits_of bytes B → Z.of_nat (length B) ≤ 8 * Z.of_nat (length bytes) →
  (let? ' (masks, rest) := bit_chunks bytes (Z.of_nat (length B)) in
   let? body := res_mapM (λ '(chunk, mask),
     if mask =? u64_MAX then Ok chunk else mask_loop 65 (λ n, unwrap (chunk !! n)) mask) (zip (chunks_exact CHUNK_SIZE values) masks) in
   Ok (head ++ concat body ++ filter_list (chunks_remainder CHUNK_SIZE values) rest)) = Ok (head ++ filter_list values B).
Proof using All.
  intros Hl HB Hroom. destruct (bit_chunks_ok bytes (length B) Hroom) as (masks & rest & -> & Hml & Hrl & Hm & Hr). cbn [res_bind].
  rewrite (rest_bits _ _ _ HB Hrl Hr). pose proof (Nat.div_mod (length B) 64 ltac:(lia)) as Hdm.
  rewrite (res_mapM_fmap _ _ (λ j, filter_list (take 64 (drop (j * 64) values)) (take 64 (drop (j * 64) B))) (length B / 64)).
  - cbn [res_bind]. do 2 f_equal. unfold chunks_remainder, CHUNK_SIZE. rewrite Hl. apply chunked; [done|lia].
  - rewrite length_zip. unfold chunks_exact, CHUNK_SIZE. rewrite length_fmap, length_seq, Hl, Hml. lia.
  - intros j [chunk mask] Hj. apply lookup_zip_Some in Hj as [Hc Hmask]. unfold chunks_exact, CHUNK_SIZE in Hc.
    apply list_lookup_fmap_Some in Hc as (j' & -> & [-> Hj]%lookup_seq). rewrite Hl in Hj. rewrite Nat.add_0_l. destruct (Hm _ _ Hmask) as [Hrange Hbits].
    assert (j * 64 + 64 ≤ length B)%nat as Hjb by nia. assert (length (take 64 (drop (j * 64) values)) = 64%nat) as H64 by (rewrite length_take, length_drop; lia).
    rewrite <-(mask_bits bytes B j mask HB Hjb Hbits). destruct (Z.eqb_spec mask u64_MAX) as [->|_].
    + by rewrite max_bits, filter_list_true.
    + apply mask_chunk; [|done|done]. intros n x Hx. by rewrite Hx.
Qed.
(** Where a filter can go over the first bits one by one. *)
Definition filterable (f : Bitmap) : bool := let '(_, offset, _) := as_slice f in (offset =? 0)%nat || (8 - offset <=? length (bm_iter f))%nat.
Lemma filterable_offset f slice offset len : filterable f = true → as_slice f = (slice, offset, len) → (offset = 0 ∨ 8 - offset ≤ length (bm_iter f))%nat.
Proof using. unfold filterable. intros Hf Hs. rewrite Hs in Hf. apply orb_true_iff in Hf as [Hf%Nat.eqb_eq|Hf%Nat.leb_le]; [by left|by right]. Qed.
Lemma primitive_filter_ok {A} (self : list A) f :
  length self = length (bm_iter f) → filterable f = true → primitive_filter self f = Ok (filter_list self (bm_iter f)).
Proof using All.
  intros Hl Hf. unfold primitive_filter. rewrite Hl, Nat.eqb_refl. cbn [negb]. destruct (Nat.eqb_spec (length (bm_iter f) - null_count (bm_iter f)) (length (bm_iter f))) as [Hall|_].
  { rewrite (all_selected _ Hall), filter_list_true; congruence. }
  destruct (as_slice f) as [[slice offset] len] eqn:Hs. pose proof (filterable_offset _ _ _ _ Hf Hs) as Hor. destruct (slice_bits f slice offset len Hs Hor) as (HB & Hlen & Hroom & Hne).
  unfold after_offset in *. destruct (Nat.ltb_spec 0 offset) as [Hpos|Hz].
  - rewrite (proj2 (Nat.ltb_ge (length slice) 1)) by lia. rewrite (proj2 (Nat.ltb_ge _ _)) by lia. cbn [orb res_bind]. rewrite Hlen.
    rewrite primitive_chunks; [|by rewrite !length_drop, Hl|done|done]. rewrite <-filter_list_app by (rewrite !length_take; lia). by rewrite !take_drop.
  - cbn [res_bind]. rewrite Hlen. by rewrite primitive_chunks.
Qed.
(** Otherwise it panics. *)
Lemma primitive_filter_panics {A} (self : list A) f slice offset len :
  length self = length (bm_iter f) → as_slice f = (slice, offset, len) → (0 < offset)%nat → (length self < 8 - offset)%nat →
  null_count (bm_iter f) ≠ 0%nat → primitive_filter self f = Panic.
Proof using All.
  intros Hl Hs Hpos Hshort Hn. unfold primitive_filter. rewrite <-Hl, Nat.eqb_refl, Hs. cbn [negb]. assert (null_count (bm_iter f) ≤ length self)%nat by (rewrite Hl; apply length_filter).
  destruct (Nat.eqb_spec (length self - null_count (bm_iter f)) (length self)); [lia|]. rewrite (proj2 (Nat.ltb_lt _ _) Hpos), (proj2 (Nat.ltb_lt _ _) Hshort).
  by rewrite orb_true_r.
Qed.
Lemma filter_list_short {A} (l : list A) p n : (n ≤ length l)%nat → filter_list l (take n p) = filter_list (take n l) (take n p).
Proof.
  revert l p. induction n as [|n IH]; intros [|x l] [|b p] Hn; simpl in *; try (done || lia). rewrite !filter_list_cons, IH by lia. done.
Qed.
(** Strings, selected one by one from some index on. *)
Lemma select_ok (self : list string) (get : nat → nat) k p :
  (∀ i, (i < length p)%nat → get (k + i)%nat = (get k + i)%nat) → (get k + length p ≤ length self)%nat →
  ∃ rs, res_mapM (E:=agg_error) (λ '(i, is_selected), if (is_selected : bool) then res_map (λ x, [x]) (unwrap (self !! get i)) else Ok []) (zip (seq k (length p)) p) = Ok rs ∧
    concat rs = filter_list (drop (get k) self) p.
Proof.
  revert k. induction p as [|b p IH]; intros k Hget Hlen; [exists []; split; [done|by destruct (drop _ _)]|]. simpl in Hlen |- *.
  destruct (lookup_lt_is_Some_2 self (get k)) as [x Hx]; [lia|]. rewrite (filter_list_drop _ _ _ _ Hx).
  destruct p as [|b' p'].
  - destruct b; simpl; rewrite ?Hx; (eexists; split; [done|]); by destruct (drop (S _) _).
  - assert (get (S k) = S (get k)) as Hs by (rewrite <-(Nat.add_1_r k), (Hget 1%nat) by (simpl; lia); lia).
    destruct (IH (S k)) as (rs & Hrs & Hc); [|rewrite Hs; lia|].
    { intros i Hi. rewrite Hs. replace (S k + i)%nat with (k + S i)%nat by lia. rewrite Hget by (simpl in *; lia). lia. }
    rewrite Hs in Hc. rewrite Hrs. destruct b; simpl; rewrite ?Hx; simpl; (eexists; split; [done|]); simpl; by rewrite Hc.
Qed.
Lemma string_chunks head (self : list string) start bytes B :
  (start + length B = length self)%nat → bits_of bytes B → Z.of_nat (length B) ≤ 8 * Z.of_nat (length bytes) →
  (let? ' (masks, rest) := bit_chunks bytes (Z.of_nat (length B)) in
   let? body := res_mapM (λ '(mask_index, mask), mask_loop 65 (λ n, unwrap (self !! (mask_index * CHUNK_SIZE + n + start)%nat)) mask) (zip (seq 0 (length masks)) masks) in
   let remainder_start := Z.to_nat (Z.of_nat (length B) - Z.of_nat (length B) `mod` Z.of_nat CHUNK_SIZE) in
   let? tail := res_mapM (λ '(mask_index, is_selected), if (is_selected : bool) then res_map (λ x, [x]) (unwrap (self !! (mask_index + remainder_start + start)%nat)) else Ok [])
     (zip (seq 0 (length rest)) rest) in
   Ok (head ++ concat body ++ concat tail)) = Ok (head ++ filter_list (drop start self) B).
Proof using All.
  intros Hl HB Hroom. destruct (bit_chunks_ok bytes (length B) Hroom) as (masks & rest & -> & Hml & Hrl & Hm & Hr). cbn [res_bind].
  pose proof (rest_bits _ _ _ HB Hrl Hr) as Hrest. pose proof (Nat.div_mod (length B) 64 ltac:(lia)) as Hdm. set (V := drop start self).
  assert (length V = length B) as HV by (unfold V; rewrite length_drop; lia).
  rewrite (res_mapM_fmap _ _ (λ j, filter_list (take 64 (drop (j * 64) V)) (take 64 (drop (j * 64) B))) (length B / 64)).
  - cbn [res_bind]. assert (Z.to_nat (Z.of_nat (length B) - Z.of_nat (length B) `mod` Z.of_nat CHUNK_SIZE) = length B / 64 * 64)%nat as ->.
    { pose proof (Nat2Z.inj_mod (length B) 64) as Hmod. change (Z.of_nat CHUNK_SIZE) with (Z.of_nat 64). rewrite <-Hmod. lia. }
    destruct (select_ok self (λ i, i + length B / 64 * 64 + start)%nat 0 rest) as (rs & Hrs & Hc); [lia|rewrite Hrl; lia|]. rewrite Hrs. cbn [res_bind]. rewrite Hc.
    do 2 f_equal. rewrite Hrest. rewrite <-(chunked V B (length B / 64)) by (done || lia). do 2 f_equal. unfold V. rewrite drop_drop. f_equal. lia.
  - rewrite length_zip, length_seq. lia.
  - intros j [j' mask] Hj. apply lookup_zip_Some in Hj as [[-> Hj]%lookup_seq Hmask]. rewrite Nat.add_0_l. destruct (Hm _ _ Hmask) as [Hrange Hbits].
    assert (j * 64 + 64 ≤ length B)%nat as Hjb by (rewrite Hml in Hj; nia).
    rewrite <-(mask_bits bytes B j mask HB Hjb Hbits). apply mask_chunk; [|rewrite length_take, length_drop; lia|done].
    intros n x Hx. apply lookup_take_Some in Hx as [Hx _]. unfold V in Hx. rewrite !lookup_drop in Hx. unfold CHUNK_SIZE.
    replace (j * 64 + n + start)%nat with (start + (j * 64 + n))%nat by lia. by rewrite Hx.
Qed.
Lemma string_filter_ok self f : length self = length (bm_iter f) → filterable f = true → string_filter self f = Ok (filter_list self (bm_iter f)).
Proof using All.
  intros Hl Hf. unfold string_filter. rewrite Hl. destruct (Nat.eqb_spec (length (bm_iter f) - null_count (bm_iter f)) (length (bm_iter f))) as [Hall|_].
  { rewrite (all_selected _ Hall), filter_list_true; congruence. }
  destruct (as_slice f) as [[slice offset] len] eqn:Hs. pose proof (filterable_offset _ _ _ _ Hf Hs) as Hor. destruct (slice_bits f slice offset len Hs Hor) as (HB & Hlen & Hroom & Hne).
  unfold after_offset in *. destruct (Nat.ltb_spec 0 offset) as [Hpos|Hz].
  - set (n := (8 - offset)%nat) in *. assert (take n (zip (seq 0 (length (bm_iter f))) (bm_iter f)) = zip (seq 0 (length (take n (bm_iter f)))) (take n (bm_iter f))) as ->.
    { rewrite zip_with_take, take_seq, length_take. done. }
    destruct (select_ok self (λ i, i) 0 (take n (bm_iter f))) as (rs & Hrs & Hc); [done|rewrite length_take; simpl; lia|]. rewrite Hrs. cbn [res_bind].
    rewrite (proj2 (Nat.ltb_ge (length slice) 1)) by lia. cbn [res_bind]. rewrite Hlen.
    rewrite string_chunks; [|rewrite length_drop, Hl; lia|done|done]. rewrite Hc, drop_0. f_equal.
    rewrite <-(take_drop n (bm_iter f)) at 3. rewrite <-(take_drop n self) at 3. rewrite filter_list_app by (rewrite !length_take; lia). f_equal. apply filter_list_short. lia.
  - cbn [res_bind]. rewrite Hlen. rewrite string_chunks by (simpl; done || lia). done.
Qed.
(** Booleans. *)
Definition unsliced (b : Bitmap) : Prop := snd (fst (as_slice b)) = 0%nat.
Lemma unsliced_bits b : unsliced b → ∃ bytes, as_slice b = (bytes, 0%nat, Z.of_nat (length (bm_iter b))) ∧ bits_of bytes (bm_iter b) ∧
  Z.of_nat (length (bm_iter b)) ≤ 8 * Z.of_nat (length bytes).
Proof using All.
  unfold unsliced. destruct (as_slice b) as [[bytes offset] len] eqn:Hs. simpl. intros ->.
  destruct (as_slice_ok _ _ _ _ Hs) as (_ & -> & Hroom & _ & Hbits). exists bytes. split_and!; [done|exact Hbits|lia].
Qed.
Lemma chunk_bit chunk n : negb (Z.land chunk (Z.shiftl 1 (Z.of_nat n)) =? 0) = Z.testbit chunk (Z.of_nat n).
Proof.
  destruct (Z.testbit chunk (Z.of_nat n)) eqn:Hb.
  - apply negb_true_iff, Z.eqb_neq. intros Hz. apply (f_equal (λ z, Z.testbit z (Z.of_nat n))) in Hz.
    rewrite Z.land_spec, Hb, Z.shiftl_spec, Z.sub_diag, Z.bits_0 in Hz by lia. done.
  - apply negb_false_iff, Z.eqb_eq, Z.bits_inj'. intros m Hm. rewrite Z.land_spec, Z.bits_0, Z.shiftl_1_l, Z.pow2_bits_eqb by lia.
    destruct (Z.eqb_spec (Z.of_nat n) m) as [<-|]; [by rewrite Hb|apply andb_false_r].
Qed.
Lemma boolean_filter_ok self f :
  unsliced self → unsliced f → length (bm_iter self) = length (bm_iter f) → boolean_filter self f = Ok (filter_list (bm_iter self) (bm_iter f)).
Proof using All.
  intros (vb & Hvs & HV & Hvr)%unsliced_bits (fb & Hfs & HB & Hr)%unsliced_bits Hl. unfold boolean_filter. rewrite Hvs, Hfs, Hl in *.
  destruct (Nat.eqb_spec (length (bm_iter f) - null_count (bm_iter f)) (length (bm_iter f))) as [Hall|_].
  { rewrite (all_selected _ Hall), filter_list_true; congruence. }
  destruct (bit_chunks_ok vb _ Hvr) as (chunks & values & -> & Hcl & Hvl & Hc & Hv). cbn [res_bind].
  destruct (bit_chunks_ok fb _ Hr) as (masks & rest & -> & Hml & Hrl & Hm & Hre). cbn [res_bind]. rewrite <-Hl in Hv, Hvl, Hcl.
  rewrite (rest_bits _ _ _ HV Hvl Hv), (rest_bits _ _ _ HB Hrl Hre). pose proof (Nat.div_mod (length (bm_iter f)) 64 ltac:(lia)) as Hdm. rewrite Hl in *.
  rewrite (res_mapM_fmap _ _ (λ j, filter_list (take 64 (drop (j * 64) (bm_iter self))) (take 64 (drop (j * 64) (bm_iter f)))) (length (bm_iter f) / 64)).
  - cbn [res_bind]. f_equal. apply chunked; [done|lia].
  - rewrite length_zip. lia.
  - intros j [chunk mask] Hj. apply lookup_zip_Some in Hj as [Hchunk Hmask]. destruct (Hm _ _ Hmask) as [Hrange Hbits]. destruct (Hc _ _ Hchunk) as [_ Hcbits].
    assert (j * 64 + 64 ≤ length (bm_iter f))%nat as Hjb by (pose proof (lookup_lt_Some _ _ _ Hmask); nia).
    rewrite <-(mask_bits fb _ j mask HB Hjb Hbits). rewrite <-(mask_bits vb _ j chunk HV ltac:(lia) Hcbits). apply mask_chunk; [|done|done].
    intros n x Hx. apply list_lookup_fmap_Some in Hx as (n' & -> & [-> _]%lookup_seq). by rewrite chunk_bit.
Qed.
(** C25: the filters of the columns, which take 64 rows at a time and the bits of the mask lowest first, and the definition
    of filtering.  The filter of a primitive column keeps what the definition keeps if the bitmap has all bits of its first
    byte, or selects all rows; otherwise it panics.  The filter of a string column keeps the same under such a bitmap; that
    of a boolean column when neither bitmap is a slice from the middle of a byte. *)
Theorem column_filters_correct {A} (self : list A) (strings : list string) (booleans f : Bitmap) :
  length self = length (bm_iter f) → length strings = length (bm_iter f) → length (bm_iter booleans) = length (bm_iter f) →
  primitive_filter self f = (if filterable f || (null_count (bm_iter f) =? 0)%nat then Ok (filter_list self (bm_iter f)) else Panic) ∧
  (filterable f = true → string_filter strings f = Ok (filter_list strings (bm_iter f))) ∧
  (unsliced booleans → unsliced f → boolean_filter booleans f = Ok (filter_list (bm_iter booleans) (bm_iter f))).
Proof using All.
  intros Hself Hstrings Hbooleans. split_and!; [|by apply string_filter_ok|intros; by apply boolean_filter_ok].
  destruct (filterable f) eqn:Hf; [by apply primitive_filter_ok|]. cbn [orb]. destruct (Nat.eqb_spec (null_count (bm_iter f)) 0) as [Hz|Hz].
  - unfold primitive_filter. rewrite Hself, Hz, Nat.sub_0_r, !Nat.eqb_refl. cbn [negb]. f_equal. symmetry. rewrite (all_selected (bm_iter f)) by lia. by apply filter_list_true.
  - unfold filterable in Hf. destruct (as_slice f) as [[slice offset] len] eqn:Hs. apply orb_false_iff in Hf as [Ho%Nat.eqb_neq Hlen%Nat.leb_gt].
    eapply primitive_filter_panics; [done|done|lia|lia|done].
Qed.
End correct.

(** ** A bitmap over bytes *)
Fixpoint of_bits (bits : list bool) : Z :=
  match bits with [] => 0 | b :: bits => Z.b2z b + 2 * of_bits bits end.
Lemma of_bits_bound bits : 0 ≤ of_bits bits < 2 ^ Z.of_nat (length bits).
Proof.
  induction bits as [|b bits IH]; [done|]. change (length (b :: bits)) with (S (length bits)). rewrite Nat2Z.inj_succ, Z.pow_succ_r by lia. simpl. destruct b; simpl; lia.
Qed.
Lemma of_bits_testbit bits i : (i < length bits)%nat → bits !! i = Some (Z.testbit (of_bits bits) (Z.of_nat i)).
Proof.
  revert i. induction bits as [|b bits IH]; intros i Hi; [simpl in Hi; lia|]. change (of_bits (b :: bits)) with (Z.b2z b + 2 * of_bits bits). rewrite Z.add_comm.
  destruct i as [|i]; [by rewrite Z.testbit_0_r|]. rewrite Nat2Z.inj_succ, Z.testbit_succ_r by lia. apply IH. simpl in Hi. lia.
Qed.
Record byte_bitmap := mkByteBitmap { bb_bytes : list Z; bb_offset : nat; bb_length : nat }.
Definition valid_bitmap (b : byte_bitmap) : bool :=
  (bb_offset b <? 8)%nat && (bb_offset b + bb_length b <=? 8 * length (bb_bytes b))%nat && (Z.of_nat (bb_length b) <? 2 ^ 63).
Definition byte_chunks (bytes : list Z) (len : Z) : res agg_error (list Z * list bool) :=
  if 8 * Z.of_nat (length bytes) <? len then Panic
  else
    let n := Z.to_nat len in
    Ok ((λ j, of_bits (bit_at bytes <$> seq (j * 64) 64)) <$> seq 0 (n / 64), bit_at bytes <$> seq (n / 64 * 64) (n mod 64)).
#[local] Instance byte_bitmaps : Bitmaps := {|
  Bitmap := {b : byte_bitmap | valid_bitmap b = true};
  bm_iter b := bit_at (bb_bytes (`b)) <$> seq (bb_offset (`b)) (bb_length (`b));
  as_slice b := (bb_bytes (`b), bb_offset (`b), Z.of_nat (bb_length (`b)));
  bit_chunks := byte_chunks;
|}.
#[local] Instance byte_bitmaps_laws : BitmapsLaws.
Proof.
  split.
  - intros [b Hb] bytes offset len. simpl. intros [= <- <- <-]. unfold valid_bitmap in Hb. apply andb_true_iff in Hb as [[H1 H2]%andb_true_iff H3].
    apply Nat.ltb_lt in H1. apply Nat.leb_le in H2. apply Z.ltb_lt in H3. rewrite length_fmap, length_seq. split_and!; [done|done|lia|done|].
    intros i Hi. rewrite list_lookup_fmap, (proj2 (lookup_seq _ _ _ _)) by done. done.
  - intros bytes n Hn. simpl. unfold byte_chunks. rewrite (proj2 (Z.ltb_ge _ _)) by lia. rewrite Nat2Z.id. do 2 eexists.
    split; [done|]. rewrite !length_fmap, !length_seq. split_and!; [done|done| |].
    + intros j m (j' & -> & [-> _]%lookup_seq)%list_lookup_fmap_Some. rewrite Nat.add_0_l. split.
      { pose proof (of_bits_bound (bit_at bytes <$> seq (j * 64) 64)) as Hb. by rewrite length_fmap, length_seq in Hb. }
      intros i Hi. pose proof (of_bits_testbit (bit_at bytes <$> seq (j * 64) 64) i) as Ht. rewrite length_fmap, length_seq in Ht. specialize (Ht Hi).
      rewrite list_lookup_fmap, (proj2 (lookup_seq _ _ _ _)) in Ht by done. symmetry. exact (f_equal (default false) Ht).
    + intros i b (i' & -> & [-> _]%lookup_seq)%list_lookup_fmap_Some. done.
  - intros bytes len Hlen. simpl. unfold byte_chunks. by rewrite (proj2 (Z.ltb_lt _ _) Hlen).
Qed.
Definition sample_filter : Bitmap := exist _ (mkByteBitmap (replicate 10 0xA7) 0 75) eq_refl.
Definition sample_bits : Bitmap := exist _ (mkByteBitmap (replicate 10 0x35) 0 75) eq_refl.
Lemma column_filters_example :
  primitive_filter (seq 0 75) sample_filter = Ok (filter_list (seq 0 75) (bm_iter sample_filter)) ∧
  boolean_filter sample_bits sample_filter = Ok (filter_list (bm_iter sample_bits) (bm_iter sample_filter)).
Proof.
  destruct (column_filters_correct (seq 0 75) (replicate 75 EmptyString) sample_bits sample_filter) as (Hp & _ & Hb); [reflexivity|reflexivity|reflexivity|].
  split; [exact Hp|]. apply Hb; reflexivity.
Defined.
(** The boolean column is filtered by bits that are not the filter's, when the filter starts in the middle of a byte. *)
Definition sliced_filter : Bitmap := exist _ (mkByteBitmap [0x02] 1 2) eq_refl.
Definition two_booleans : Bitmap := exist _ (mkByteBitmap [0x01] 0 2) eq_refl.
Example boolean_filter_sliced :
  bm_iter sliced_filter = [true; false] ∧
  boolean_filter two_booleans sliced_filter = Ok [false] ∧
  filter_list (bm_iter two_booleans) (bm_iter sliced_filter) = [true].
Proof. vm_compute. split_and!; reflexivity. Qed.
(** The same filter makes the filter of a primitive column panic. *)
Example primitive_filter_sliced : primitive_filter [10; 20] sliced_filter = Panic.
Proof. vm_compute. reflexivity. Qed.
