(* ===== verification/GroupKeys.v ===== *)
(** * The keys of GROUP BY (src/common/datablocks/src/kernels/data_block_group_by_hash.rs,
    data_block_group_by.rs, src/common/datavalues/src/columns/group_hash.rs, src/common/io/src).

    The columns of a GROUP BY become one key per row: an integer of up to eight bytes where
    all of them are numbers or dates, and bytes otherwise.  The integers are written through
    pointers into the memory of the keys, so the memory is modelled as bytes, and an access
    outside of it panics.  A column of this model does not hold the width of its integers;
    the types of the columns, which the code asks the columns for, stand beside them. *)
From S2P Require Import Prelude Column.
#[local] Open Scope Z_scope.

(** ** Types *)
Inductive TypeID :=
  | T_Null | T_Nullable | T_Boolean | T_UInt8 | T_UInt16 | T_UInt32 | T_UInt64 | T_Int8 | T_Int16 | T_Int32 | T_Int64 | T_Float32 | T_Float64
  | T_String | T_Date | T_Timestamp | T_Interval | T_Array | T_Struct | T_Variant | T_VariantArray | T_VariantObject.
#[global] Instance TypeID_eq_dec : EqDecision TypeID.
Proof. solve_decision. Defined.
(** A type and whether it is inside of [Nullable]; [DateType] and the like hold nothing that matters here. *)
Record DataType := mkType { inner_id : TypeID; type_nullable : bool }.
#[global] Instance DataType_eq_dec : EqDecision DataType.
Proof. solve_decision. Defined.
Definition data_type_id (t : DataType) : TypeID := if type_nullable t then T_Nullable else inner_id t.
Definition remove_nullable_type (t : DataType) : DataType := mkType (inner_id t) false.
Definition is_integer (t : TypeID) : bool :=
  match t with T_Int8 | T_Int16 | T_Int32 | T_Int64 | T_UInt8 | T_UInt16 | T_UInt32 | T_UInt64 => true | _ => false end.
Definition is_floating (t : TypeID) : bool := match t with T_Float32 | T_Float64 => true | _ => false end.
Definition is_date_or_date_time (t : TypeID) : bool := match t with T_Date | T_Timestamp => true | _ => false end.
Definition is_numeric (t : TypeID) : bool := is_integer t || is_floating t.
Definition numeric_byte_size (t : TypeID) : res agg_error nat :=
  match t with
  | T_Int8 | T_UInt8 => Ok 1
  | T_Int16 | T_UInt16 => Ok 2
  | T_Int32 | T_UInt32 | T_Float32 | T_Date => Ok 4
  | T_Int64 | T_UInt64 | T_Float64 | T_Timestamp => Ok 8
  | _ => Err BadArguments
  end%nat.
(** [to_physical_type], as far as columns hold such values. *)
Definition physical_kind (t : TypeID) : option TypeKind :=
  match t with
  | T_Boolean => Some KBool
  | T_String => Some KStr
  | T_Float32 | T_Float64 => Some KFloat
  | T_Interval | T_Date | T_Timestamp => Some KInt
  | _ => if is_integer t then Some KInt else None
  end.

(** ** The method: data_block_group_by.rs *)
Inductive HashMethodKind := HSerializer | HSingleString | HKeysU8 | HKeysU16 | HKeysU32 | HKeysU64.
Fixpoint group_key_len (hash_key_types : list DataType) (len : nat) : res agg_error (option nat) :=
  match hash_key_types with
  | [] => Ok (Some len)
  | typ :: types =>
      let not_null_type := remove_nullable_type typ in
      if is_numeric (data_type_id not_null_type) || is_date_or_date_time (data_type_id not_null_type) then
        let? size := numeric_byte_size (data_type_id not_null_type) in
        group_key_len types (len + size + (if type_nullable typ then 1 else 0))
      else Ok None
  end.
Definition choose_hash_method_with_types (hash_key_types : list DataType) : res agg_error HashMethodKind :=
  if (length hash_key_types =? 1)%nat && forallb (λ typ, bool_decide (data_type_id typ = T_String)) hash_key_types then Ok HSingleString
  else
    let? len := group_key_len hash_key_types 0 in
    Ok match len with
       | None => HSerializer
       | Some 1%nat => HKeysU8
       | Some 2%nat => HKeysU16
       | Some len => if (3 <=? len)%nat && (len <=? 4)%nat then HKeysU32 else if (5 <=? len)%nat && (len <=? 8)%nat then HKeysU64 else HSerializer
       end.

(** ** Values as bytes: marshal.rs, unmarshal.rs, stat_buffer.rs *)

(** [to_le_bytes] and [from_le_bytes]. *)
Fixpoint le_bytes (n : nat) (z : Z) : list Z :=
  match n with O => [] | S n => z `mod` 256 :: le_bytes n (z `div` 256) end.
Definition from_le (l : list Z) : Z := foldr (λ b z, b + 256 * z) 0 l.
Definition from_le_signed (l : list Z) : Z :=
  let z := from_le l in if z <? 2 ^ (8 * Z.of_nat (length l) - 1) then z else z - 2 ^ (8 * Z.of_nat (length l)).
(** [to_bits] and [from_bits] of a floating-point number: sign, exponent and mantissa. *)
Section bits.
Context (prec emax : Z).
Definition float_emin : Z := 3 - emax - prec.
Definition mantissa_weight : Z := 2 ^ (prec - 1).
Definition sign_weight (s : bool) : Z := if s then mantissa_weight * (2 * emax) else 0.
Definition num_bits (f : spec_float) : Z :=
  match f with
  | S754_zero s => sign_weight s
  | S754_infinity s => sign_weight s + (2 * emax - 1) * mantissa_weight
  | S754_nan => (2 * emax - 1) * mantissa_weight + mantissa_weight / 2
  | S754_finite s m e =>
      sign_weight s + (if Z.pos m <? mantissa_weight then Z.pos m else (e - float_emin + 1) * mantissa_weight + (Z.pos m - mantissa_weight))
  end.
Definition to_bits (x : Float) : Z :=
  match x with FNum f => num_bits f | FNan s payload => sign_weight s + ((2 * emax - 1) * mantissa_weight + payload) end.
Definition from_bits (n : Z) : Float :=
  let s := sign_weight true <=? n in
  let r := n `mod` sign_weight true in
  let e := r `div` mantissa_weight in
  let m := r `mod` mantissa_weight in
  if e =? 0 then FNum (if m =? 0 then S754_zero s else S754_finite s (Z.to_pos m) float_emin)
  else if e =? 2 * emax - 1 then if m =? 0 then FNum (S754_infinity s) else FNan s m
  else FNum (S754_finite s (Z.to_pos (m + mantissa_weight)) (e - 1 + float_emin)).
End bits.
(** The size of the buffer of a type. *)
Definition buffer_size (t : TypeID) : nat :=
  match t with T_Boolean => 1 | T_Interval => 8 | _ => match numeric_byte_size t with Ok n => n | _ => 0 end end%nat.
Definition is_unsigned (t : TypeID) : bool := match t with T_UInt8 | T_UInt16 | T_UInt32 | T_UInt64 => true | _ => false end.
Definition marshal (t : TypeID) (v : Scalar) : list Z :=
  match v with
  | SBool b => [Z.b2z b]
  | SInt n => le_bytes (buffer_size t) n
  | SFloat f => if decide (t = T_Float32) then le_bytes 4 (to_bits 24 128 f) else le_bytes 8 (to_bits 53 1024 f)
  | SStr _ => []
  end.
Definition unmarshal (t : TypeID) (scratch : list Z) : Scalar :=
  match t with
  | T_Boolean => SBool (negb (default 0 (head scratch) =? 0))
  | T_Float32 => SFloat (from_bits 24 128 (from_le scratch))
  | T_Float64 => SFloat (from_bits 53 1024 (from_le scratch))
  | _ => SInt (if is_unsigned t then from_le scratch else from_le_signed scratch)
  end.
(** [BinaryRead::read_scalar]: the value and the bytes that are left. *)
Definition read_scalar (t : TypeID) (reader : list Z) : res agg_error (Scalar * list Z) :=
  let n := buffer_size t in
  if (length reader <? n)%nat then Err UnexpectedEof else Ok (unmarshal t (take n reader), drop n reader).
(** [check_date] and [check_timestamp]. *)
Definition DATE_MAX : Z := 2932896.
Definition DATE_MIN : Z := -354285.
Definition TIMESTAMP_MAX : Z := 253402300799999999.
Definition TIMESTAMP_MIN : Z := -30610224000000000.
Definition check_value (t : TypeID) (v : Scalar) : res agg_error unit :=
  match t, v with
  | T_Date, SInt days => if (DATE_MIN <=? days) && (days <=? DATE_MAX) then Ok tt else Err InvalidDate
  | T_Timestamp, SInt micros => if (TIMESTAMP_MIN <=? micros) && (micros <=? TIMESTAMP_MAX) then Ok tt else Err InvalidTimestamp
  | _, _ => Ok tt
  end.

(** ** Fixed keys *)

(** A write through a pointer into the memory. *)
Definition write_bytes (mem : list Z) (ptr : nat) (bytes : list Z) : res agg_error (list Z) :=
  if (ptr + length bytes <=? length mem)%nat then Ok (take ptr mem ++ bytes ++ drop (ptr + length bytes) mem) else Panic.
(** [GroupHash::fixed_hash]. *)
Fixpoint fixed_rows (t : TypeID) (offsize : nat) (rows : list (Scalar * bool)) (ptr step : nat) (mem : list Z) : res agg_error (list Z) :=
  match rows with
  | [] => Ok mem
  | (value, valid) :: rows =>
      let? mem := (if (valid : bool) then write_bytes mem ptr (marshal t value) else write_bytes mem (ptr + offsize) [1]) in
      fixed_rows t offsize rows (ptr + step) step mem
  end.
Definition group_fixed_hash (t : TypeID) (values : list Scalar) (ptr step : nat) (nulls : option (nat * option (list bool))) (mem : list Z) : res agg_error (list Z) :=
  match nulls with
  | Some (offsize, Some bitmap) => fixed_rows t offsize (zip values bitmap) ptr step mem
  | _ => fixed_rows t 0 ((λ v, (v, true)) <$> values) ptr step mem
  end.
(** [Series::fixed_hash], which calls itself once on what is inside of a nullable column. *)
Fixpoint series_fixed_hash (fuel : nat) (t : TypeID) (column : Column) (ptr step : nat) (nulls : option (nat * option (list bool))) (mem : list Z) : res agg_error (list Z) :=
  match fuel with
  | O => Panic
  | S fuel =>
      let column := convert_full_column column in
      if is_nullable column then
        let? ' (null_offset, bitmap) := unwrap nulls in
        let bitmap := combine_validities bitmap (validity column).2 in
        series_fixed_hash fuel t (remove_nullable column) ptr step (Some (null_offset, bitmap)) mem
      else
        let column := remove_nullable column in
        match physical_kind t with
        | Some KStr | None => Err BadDataValueType
        | Some kind => let? values := ok_or (scalars_of kind column) UnknownColumn in group_fixed_hash t values ptr step nulls mem
        end
  end.
Definition build (offsize null_offsize : nat) (col : DataType * Column) (writer step : nat) (mem : list Z) : res agg_error (nat * nat * list Z) :=
  let data_type_nonull := remove_nullable_type col.1 in
  let? size := numeric_byte_size (data_type_id data_type_nonull) in
  let writer := (writer + offsize)%nat in
  let? ' (nulls, null_offsize) :=
    (if is_nullable col.2 then
       if (null_offsize <? offsize)%nat then Panic else Ok (Some ((null_offsize - offsize)%nat, None), (null_offsize + 1)%nat)
     else Ok (None, null_offsize)) in
  let? mem := series_fixed_hash 2 (inner_id col.1) col.2 writer step nulls mem in
  Ok ((offsize + size)%nat, null_offsize, mem).
Fixpoint build_all (offsize null_offsize : nat) (cols : list (DataType * Column)) (step : nat) (mem : list Z) : res agg_error (list Z) :=
  match cols with
  | [] => Ok mem
  | col :: cols =>
      let? ' (offsize, null_offsize, mem) := build offsize null_offsize col 0 step mem in
      build_all offsize null_offsize cols step mem
  end.
Definition sum_sizes (types : list DataType) : res agg_error nat :=
  res_map sum_list (res_mapM (λ t, numeric_byte_size (data_type_id (remove_nullable_type t))) types).
(** [sort_by] is stable; the sizes have been found before. *)
Definition type_size (t : DataType) : nat := match numeric_byte_size (inner_id t) with Ok n => n | _ => 0 end.
Fixpoint insert_desc {A} (size : A → nat) (x : A) (l : list A) : list A :=
  match l with
  | [] => [x]
  | y :: l' => if (size y <=? size x)%nat then x :: l else y :: insert_desc size x l'
  end.
Definition sort_desc {A} (size : A → nat) (l : list A) : list A := foldr (insert_desc size) [] l.
Definition mem_keys (step rows : nat) (mem : list Z) : list Z := (λ r, from_le (take step (drop (r * step) mem))) <$> seq 0 rows.
Definition fixed_build_keys (step : nat) (types : list DataType) (group_columns : list Column) (rows : nat) : res agg_error (list Z) :=
  let? null_offsize := sum_sizes types in
  let? mem := build_all 0 null_offsize (sort_desc (type_size ∘ fst) (zip types group_columns)) step (replicate (rows * step) 0) in
  Ok (mem_keys step rows mem).

(** [de_fixed_binary_batch] of the types; the column that the builder makes. *)
Definition slice_from (l : list Z) (n : nat) : res agg_error (list Z) := if (n <=? length l)%nat then Ok (drop n l) else Panic.
Definition de_scalar (t : TypeID) (reader : list Z) : res agg_error (Scalar * list Z) :=
  let? ' (value, reader) := read_scalar t reader in
  let? _ := check_value t value in Ok (value, reader).
Definition de_fixed_binary_batch (t : TypeID) (reader : list Z) (step rows : nat) : res agg_error (list Scalar) :=
  res_mapM (λ row, let? reader := slice_from reader (step * row) in let? ' (value, _) := de_scalar t reader in Ok value) (seq 0 rows).
Definition finish_to_column (t : TypeID) (l : list Scalar) : Column :=
  match physical_kind t with
  | Some KBool => BooleanColumn (omap (λ s, match s with SBool b => Some b | _ => None end) l)
  | Some KFloat => FloatColumn (omap (λ s, match s with SFloat f => Some f | _ => None end) l)
  | Some KStr => StringColumn (omap (λ s, match s with SStr x => Some x | _ => None end) l)
  | _ => PrimitiveColumn (omap (λ s, match s with SInt n => Some n | _ => None end) l)
  end.
Definition bools_of (l : list Scalar) : list bool := omap (λ s, match s with SBool b => Some b | _ => None end) l.
(** [HashMethodFixedKeys::deserialize_group_columns]: the columns of the fields in the order of their sizes. *)
Fixpoint deserialize_fields (fields : list (string * DataType)) (offsize null_offsize : nat) (mem : list Z) (step rows : nat) : res agg_error (list Column) :=
  match fields with
  | [] => Ok []
  | f :: fields =>
      let data_type := f.2 in
      let id := data_type_id (remove_nullable_type data_type) in
      let? ' (col, null_offsize) :=
        (if negb (type_nullable data_type) then
           let? reader := slice_from mem offsize in
           let? values := de_fixed_binary_batch id reader step rows in
           Ok (finish_to_column id values, null_offsize)
         else
           let? reader := slice_from mem null_offsize in
           let? nulls := de_fixed_binary_batch T_Boolean reader step rows in
           let bitmap := negb <$> bools_of nulls in
           let? reader := slice_from mem offsize in
           let? values := de_fixed_binary_batch id reader step rows in
           Ok (NullableColumn bitmap (finish_to_column id values), (null_offsize + 1)%nat)) in
      let? size := numeric_byte_size id in
      let? cols := deserialize_fields fields (offsize + size) null_offsize mem step rows in
      Ok (col :: cols)
  end.
Definition keys_mem (step : nat) (keys : list Z) : list Z := concat (le_bytes step <$> keys).
Definition deserialize_group_columns (step : nat) (keys : list Z) (group_fields : list (string * DataType)) : res agg_error (list Column) :=
  let vec8 := keys_mem step keys in
  let? null_offsize := sum_sizes group_fields.*2 in
  let sorted_group_fields := sort_desc (type_size ∘ snd) group_fields in
  let? columns := deserialize_fields sorted_group_fields 0 null_offsize vec8 step (length keys) in
  Ok (omap (λ f, snd <$> (snd <$> list_find (λ sc : (string * DataType) * Column, f.2 = sc.1.2 ∧ f.1 = sc.1.1) (zip sorted_group_fields columns))) group_fields).

(** ** Serialized keys: HashMethodSerializer *)

(** [put_uvarint] into the ten bytes of the buffer. *)
Fixpoint put_uvarint (room : nat) (mx : Z) : res agg_error (list Z) :=
  match room with
  | O => Panic
  | S room =>
      if 0x80 <=? mx then let? bytes := put_uvarint room (Z.shiftr mx 7) in Ok (Z.lor (mx `mod` 256) 0x80 :: bytes)
      else Ok [mx `mod` 256]
  end.
Definition MAX_VARINT_LEN64 : nat := 10.
(** [read_uvarint]; a shift by 64 bits or more is an overflow. *)
Fixpoint read_uvarint (x s i : Z) (reader : list Z) : res agg_error (Z * list Z) :=
  match reader with
  | [] => Err UnexpectedEof
  | b :: reader =>
      if b <? 0x80 then
        if (i =? 9) && (1 <? b) then Err Overflow
        else if 64 <=? s then Panic else Ok (Z.lor x (Z.shiftl b s `mod` 2 ^ 64), reader)
      else if 64 <=? s then Panic else read_uvarint (Z.lor x (Z.shiftl (Z.land b 0x7f) s `mod` 2 ^ 64)) (s + 7) (i + 1) reader
  end.
Definition bytes_of_string (s : string) : list Z := (Z.of_N ∘ Ascii.N_of_ascii) <$> String.list_ascii_of_string s.
Definition string_of_bytes (l : list Z) : string := String.string_of_list_ascii ((Ascii.ascii_of_N ∘ Z.to_N) <$> l).
(** [write_scalar] of a value that is not a string, [write_binary] of a string. *)
Definition write_value (t : TypeID) (v : Scalar) : res agg_error (list Z) :=
  match v with
  | SStr x => let? len := put_uvarint MAX_VARINT_LEN64 (Z.of_nat (String.length x)) in Ok (len ++ bytes_of_string x)
  | _ => Ok (marshal t v)
  end.
(** [GroupHash::serialize] of a column to the keys of its rows. *)
Fixpoint serialize_rows (t : TypeID) (rows : list (Scalar * option bool)) (keys : list (list Z)) : res agg_error (list (list Z)) :=
  match rows, keys with
  | (value, valid) :: rows, vec :: keys =>
      let? vec :=
        match valid with
        | Some false => Ok (vec ++ marshal T_Boolean (SBool false))
        | Some true => let? bytes := write_value t value in Ok (vec ++ marshal T_Boolean (SBool true) ++ bytes)
        | None => let? bytes := write_value t value in Ok (vec ++ bytes)
        end in
      let? keys := serialize_rows t rows keys in Ok (vec :: keys)
  | _, keys => Ok keys
  end.
(** The assertion on the lengths is one of debug builds for columns of numbers. *)
Definition group_serialize (t : TypeID) (values : list Scalar) (keys : list (list Z)) (nulls : option (list bool)) : res agg_error (list (list Z)) :=
  if negb (length keys =? length values)%nat then Panic
  else match nulls with
       | Some bitmap => serialize_rows t (zip values (Some <$> bitmap)) keys
       | None => serialize_rows t ((λ v, (v, None)) <$> values) keys
       end.
(** [Series::serialize]. *)
Fixpoint series_serialize (fuel : nat) (t : TypeID) (column : Column) (keys : list (list Z)) (nulls : option (list bool)) : res agg_error (list (list Z)) :=
  match fuel with
  | O => Panic
  | S fuel =>
      let column := convert_full_column column in
      if is_nullable column then series_serialize fuel t (remove_nullable column) keys (combine_validities nulls (validity column).2)
      else
        match physical_kind t with
        | None => Err BadDataValueType
        | Some kind => let? values := ok_or (scalars_of kind (remove_nullable column)) UnknownColumn in group_serialize t values keys nulls
        end
  end.
Fixpoint serialize_all (cols : list (DataType * Column)) (keys : list (list Z)) : res agg_error (list (list Z)) :=
  match cols with
  | [] => Ok keys
  | col :: cols => let? keys := series_serialize 2 (inner_id col.1) col.2 keys None in serialize_all cols keys
  end.
Definition serializer_build_keys (types : list DataType) (group_columns : list Column) (rows : nat) : res agg_error (list (list Z)) :=
  serialize_all (zip types group_columns) (replicate rows []).
(** [de_binary] of a type that is not nullable. *)
Definition de_value (t : TypeID) (reader : list Z) : res agg_error (Scalar * list Z) :=
  match t with
  | T_String =>
      let? ' (offset, reader) := read_uvarint 0 0 0 reader in
      let n := Z.to_nat offset in
      if (length reader <? n)%nat then Err UnexpectedEof else Ok (SStr (string_of_bytes (take n reader)), drop n reader)
  | _ => de_scalar t reader
  end.
(** [NullableDeserializer::de_binary]: whether the value is valid, the value, and the bytes that are left. *)
Definition de_binary (t : DataType) (reader : list Z) : res agg_error (bool * Scalar * list Z) :=
  if type_nullable t then
    let? ' (valid, reader) := read_scalar T_Boolean reader in
    match valid with
    | SBool true => let? ' (value, reader) := de_value (inner_id t) reader in Ok (true, value, reader)
    | _ => Ok (false, default (SInt 0) (scalar_default <$> physical_kind (inner_id t)), reader)
    end
  else let? ' (value, reader) := de_value (inner_id t) reader in Ok (true, value, reader).
(** [SerializedKeysGroupColumnsBuilder::finish]. *)
Fixpoint deserialize_serialized (fields : list DataType) (keys : list (list Z)) : res agg_error (list Column) :=
  match fields with
  | [] => Ok []
  | t :: fields =>
      let? rows := res_mapM (de_binary t) keys in
      let inner := finish_to_column (inner_id t) ((λ r, r.1.2) <$> rows) in
      let? cols := deserialize_serialized fields rows.*2 in
      Ok ((if type_nullable t then NullableColumn ((λ r, r.1.1) <$> rows) inner else inner) :: cols)
  end.
