(* ===== verification/GroupKeysProps.v ===== *)
(** * Keys hold the values of their rows.

    What is written into the key of a row by [HashMethodFixedKeys] and [HashMethodSerializer]
    is read back as the values of the row, and keys are equal exactly for equal values. *)
From S2P Require Import Prelude Column GroupKeys.
#[local] Open Scope Z_scope.

(** ** Bytes *)
Definition is_byte (b : Z) : Prop := 0 ≤ b < 256.
Lemma le_bytes_length n z : length (le_bytes n z) = n.
Proof. revert z. induction n as [|n IH]; intros z; simpl; [done|by rewrite IH]. Qed.
Lemma le_bytes_byte n z : Forall is_byte (le_bytes n z).
Proof. revert z. induction n as [|n IH]; intros z; simpl; constructor; [apply Z.mod_pos_bound; lia|done]. Qed.
Lemma pow_256 n : 2 ^ (8 * Z.of_nat (S n)) = 256 * 2 ^ (8 * Z.of_nat n).
Proof. rewrite Nat2Z.inj_succ, Z.mul_succ_r, Z.add_comm, Z.pow_add_r by lia. done. Qed.
Lemma from_le_le_bytes n z : from_le (le_bytes n z) = z `mod` 2 ^ (8 * Z.of_nat n).
Proof.
  revert z. induction n as [|n IH]; intros z; [by rewrite Z.mod_1_r|]. rewrite pow_256. cbn [le_bytes]. unfold from_le in *. cbn [foldr]. rewrite IH.
  rewrite Z.rem_mul_r by lia. lia.
Qed.
Lemma from_le_bound l : Forall is_byte l → 0 ≤ from_le l < 2 ^ (8 * Z.of_nat (length l)).
Proof.
  induction 1 as [|b l Hb _ IH]; [done|]. change (length (b :: l)) with (S (length l)). rewrite pow_256. unfold from_le in *. cbn [foldr]. unfold is_byte in Hb. lia.
Qed.
Lemma le_bytes_from_le l : Forall is_byte l → le_bytes (length l) (from_le l) = l.
Proof.
  induction 1 as [|b l Hb _ IH]; [done|]. cbn [length le_bytes]. unfold is_byte in Hb. unfold from_le in *. cbn [foldr].
  rewrite (Z.mul_comm 256), Z.mod_add, Z.mod_small, Z.div_add, Z.div_small by lia. by rewrite Z.add_0_l, IH.
Qed.
Lemma from_le_signed_le_bytes n z :
  (0 < n)%nat → - 2 ^ (8 * Z.of_nat n - 1) ≤ z < 2 ^ (8 * Z.of_nat n - 1) → from_le_signed (le_bytes n z) = z.
Proof.
  intros Hn Hz. unfold from_le_signed. rewrite from_le_le_bytes, le_bytes_length.
  assert (2 ^ (8 * Z.of_nat n) = 2 * 2 ^ (8 * Z.of_nat n - 1)) as Hp by (rewrite <-Z.pow_succ_r by lia; f_equal; lia).
  destruct (Z.lt_ge_cases z 0) as [Hneg|Hpos].
  - assert (z `mod` 2 ^ (8 * Z.of_nat n) = z + 2 ^ (8 * Z.of_nat n)) as -> by (symmetry; apply Z.mod_unique with (-1); lia).
    destruct (Z.ltb_spec (z + 2 ^ (8 * Z.of_nat n)) (2 ^ (8 * Z.of_nat n - 1))); lia.
  - rewrite Z.mod_small by lia. destruct (Z.ltb_spec z (2 ^ (8 * Z.of_nat n - 1))); lia.
Qed.

(** ** The bits of a floating-point number *)
Lemma digits_bounds m : 2 ^ (Z.pos (digits2_pos m) - 1) ≤ Z.pos m < 2 ^ Z.pos (digits2_pos m).
Proof.
  induction m as [m IH|m IH|]; cbn [digits2_pos]; [| |done]; rewrite Pos2Z.inj_succ, Z.pow_succ_r by lia;
    replace (Z.succ (Z.pos (digits2_pos m)) - 1) with (Z.succ (Z.pos (digits2_pos m) - 1)) by lia; rewrite Z.pow_succ_r by lia; lia.
Qed.
Section bits.
Context (prec emax : Z) (Hprec : 2 ≤ prec) (Hemax : prec < emax).
Abbreviation mw := (mantissa_weight prec).
Abbreviation emin := (float_emin prec emax).
Lemma weight_half : mw = 2 * (mw / 2) ∧ 0 < mw / 2.
Proof using Hprec.
  unfold mantissa_weight. replace (prec - 1) with (Z.succ (prec - 2)) by lia. rewrite Z.pow_succ_r by lia. rewrite Z.mul_comm, Z.div_mul by lia.
  pose proof (Z.pow_pos_nonneg 2 (prec - 2)). lia.
Qed.
Lemma from_bits_fields s e m : 0 ≤ e < 2 * emax → 0 ≤ m < mw →
  from_bits prec emax (sign_weight prec emax s + (e * mw + m)) =
    if e =? 0 then FNum (if m =? 0 then S754_zero s else S754_finite s (Z.to_pos m) emin)
    else if e =? 2 * emax - 1 then if m =? 0 then FNum (S754_infinity s) else FNan s m
    else FNum (S754_finite s (Z.to_pos (m + mw)) (e - 1 + emin)).
Proof using Hprec Hemax.
  intros He Hm. pose proof weight_half as [_ Hh]. assert (0 ≤ e * mw + m < mw * (2 * emax)) as Hr by nia. unfold from_bits.
  assert ((sign_weight prec emax true <=? sign_weight prec emax s + (e * mw + m)) = s) as ->.
  { unfold sign_weight. destruct s; [apply Z.leb_le|apply Z.leb_gt]; lia. }
  assert ((sign_weight prec emax s + (e * mw + m)) `mod` sign_weight prec emax true = e * mw + m) as ->.
  { unfold sign_weight. destruct s; [|by apply Z.mod_small]. rewrite Z.add_comm, <-Z.add_mod_idemp_r, Z.mod_same, Z.add_0_r by lia. by apply Z.mod_small. }
  rewrite Z.div_add_l, Z.div_small, Z.add_0_r by lia. by rewrite (Z.add_comm (e * mw)), Z.mod_add, Z.mod_small by lia.
Qed.
(** The parts of a number that is given by mantissa and exponent. *)
Lemma finite_fields s m e : valid_binary prec emax (S754_finite s m e) = true →
  ∃ ex mm, to_bits prec emax (FNum (S754_finite s m e)) = sign_weight prec emax s + (ex * mw + mm) ∧ 0 ≤ ex < 2 * emax - 1 ∧ 0 ≤ mm < mw ∧
    if ex =? 0 then mm = Z.pos m ∧ e = emin else mm + mw = Z.pos m ∧ e = ex - 1 + emin.
Proof using Hprec Hemax.
  simpl. unfold bounded, canonical_mantissa, fexp, SpecFloat.emin. rewrite andb_true_iff. intros [Hc%Z.eqb_eq He%Zle_bool_imp_le].
  pose proof (digits_bounds m) as Hd. set (d := Z.pos (digits2_pos m)) in *. unfold float_emin, mantissa_weight in *.
  destruct (Z.ltb_spec (Z.pos m) (2 ^ (prec - 1))) as [Hlt|Hge].
  - exists 0, (Z.pos m). simpl. split_and!; [lia..|]. assert (d - 1 < prec - 1) by (apply (Z.pow_lt_mono_r_iff 2); lia). lia.
  - assert (prec - 1 < d) by (apply (Z.pow_lt_mono_r_iff 2); lia). assert (d = prec) as Hdp by lia.
    assert (2 ^ d = 2 * 2 ^ (prec - 1)) as Hpow by (rewrite Hdp, <-Z.pow_succ_r by lia; f_equal; lia).
    exists (e - (3 - emax - prec) + 1), (Z.pos m - 2 ^ (prec - 1)). split_and!; [lia..|]. destruct (Z.eqb_spec (e - (3 - emax - prec) + 1) 0); lia.
Qed.
(** A value of the format. *)
Definition valid_float (x : Float) : Prop :=
  match x with FNum f => valid_binary prec emax f = true ∧ f ≠ S754_nan | FNan _ payload => 0 < payload < mw end.
Lemma from_bits_to_bits f : valid_float f → from_bits prec emax (to_bits prec emax f) = f ∧ 0 ≤ to_bits prec emax f < mw * (4 * emax).
Proof using Hprec Hemax.
  pose proof weight_half as [Hh Hp]. destruct f as [[s|s| |s m e]|s p]; intros Hv.
  - replace (to_bits prec emax (FNum (S754_zero s))) with (sign_weight prec emax s + (0 * mw + 0)) by (simpl; lia). rewrite from_bits_fields by lia. split; [done|]. unfold sign_weight. destruct s; nia.
  - replace (to_bits prec emax (FNum (S754_infinity s))) with (sign_weight prec emax s + ((2 * emax - 1) * mw + 0)) by (simpl; lia). rewrite from_bits_fields by lia.
    rewrite (Z.eqb_refl (2 * emax - 1)), (proj2 (Z.eqb_neq (2 * emax - 1) 0)) by lia. split; [done|]. unfold sign_weight. destruct s; nia.
  - by destruct Hv.
  - destruct Hv as [Hv _]. destruct (finite_fields s m e Hv) as (ex & mm & -> & Hex & Hmm & Hcase). rewrite from_bits_fields by lia.
    split; [|unfold sign_weight; destruct s; nia]. destruct (Z.eqb_spec ex 0) as [->|Hne].
    + destruct Hcase as [-> ->]. done.
    + rewrite (proj2 (Z.eqb_neq ex _)) by lia. destruct Hcase as [-> ->]. done.
  - cbn [to_bits]. simpl in Hv. rewrite from_bits_fields by lia. rewrite (Z.eqb_refl (2 * emax - 1)), (proj2 (Z.eqb_neq (2 * emax - 1) 0)), (proj2 (Z.eqb_neq p 0)) by lia.
    split; [done|]. unfold sign_weight. destruct s; nia.
Qed.
End bits.

(** ** Values *)

(** A value of a type. *)
Definition int_type (t : TypeID) : bool := is_integer t || is_date_or_date_time t || bool_decide (t = T_Interval).
Definition scalar_ok (t : TypeID) (v : Scalar) : Prop :=
  match v with
  | SBool _ => t = T_Boolean
  | SFloat f => t = T_Float32 ∧ valid_float 24 128 f ∨ t = T_Float64 ∧ valid_float 53 1024 f
  | SStr x => t = T_String ∧ Z.of_nat (String.length x) < 2 ^ 64
  | SInt n => int_type t = true ∧ check_value t v = Ok tt ∧
      let w := 8 * Z.of_nat (buffer_size t) in if is_unsigned t then 0 ≤ n < 2 ^ w else - 2 ^ (w - 1) ≤ n < 2 ^ (w - 1)
  end.
Lemma int_type_size t : int_type t = true → (0 < buffer_size t)%nat ∧ physical_kind t = Some KInt.
Proof. destruct t; simpl; intros [=]; split; (lia || done). Qed.
Lemma marshal_ok t v : scalar_ok t v → t ≠ T_String →
  length (marshal t v) = buffer_size t ∧ Forall is_byte (marshal t v) ∧ unmarshal t (marshal t v) = v ∧ check_value t v = Ok tt.
Proof.
  intros Hv Ht. destruct v as [b|n|f|x]; simpl in Hv.
  - subst t. simpl. split_and!; [done| |by destruct b|done]. constructor; [destruct b; unfold is_byte; simpl; lia|done].
  - destruct Hv as (Hi & Hc & Hr). destruct (int_type_size t Hi) as [Hpos _]. unfold marshal. split_and!; [by rewrite le_bytes_length|apply le_bytes_byte| |done].
    assert (unmarshal t (le_bytes (buffer_size t) n) = SInt (if is_unsigned t then from_le (le_bytes (buffer_size t) n) else from_le_signed (le_bytes (buffer_size t) n))) as ->.
    { destruct t; (done || discriminate Hi). }
    f_equal. destruct (is_unsigned t); [|by apply from_le_signed_le_bytes]. rewrite from_le_le_bytes. by apply Z.mod_small.
  - unfold marshal. destruct Hv as [[-> Hf]|[-> Hf]]; [rewrite decide_True by done|rewrite decide_False by done].
    + destruct (from_bits_to_bits 24 128 ltac:(lia) ltac:(lia) f Hf) as [Hround Hb]. change (mantissa_weight 24 * (4 * 128)) with (2 ^ 32) in Hb.
      split_and!; [by rewrite le_bytes_length|apply le_bytes_byte| |done]. unfold unmarshal. rewrite from_le_le_bytes, Z.mod_small by (change (8 * Z.of_nat 4) with 32; lia). by rewrite Hround.
    + destruct (from_bits_to_bits 53 1024 ltac:(lia) ltac:(lia) f Hf) as [Hround Hb]. change (mantissa_weight 53 * (4 * 1024)) with (2 ^ 64) in Hb.
      split_and!; [by rewrite le_bytes_length|apply le_bytes_byte| |done]. unfold unmarshal. rewrite from_le_le_bytes, Z.mod_small by (change (8 * Z.of_nat 8) with 64; lia). by rewrite Hround.
  - by destruct Hv.
Qed.
Lemma de_scalar_ok t v rest : scalar_ok t v → t ≠ T_String → de_scalar t (marshal t v ++ rest) = Ok (v, rest).
Proof.
  intros Hv Ht. destruct (marshal_ok t v Hv Ht) as (Hl & _ & Hu & Hc). unfold de_scalar, read_scalar. rewrite (proj2 (Nat.ltb_ge _ _)) by (rewrite length_app; lia).
  cbn [res_bind]. rewrite take_app_length', drop_app_length', Hu by done. by rewrite Hc.
Qed.
(** The types of which fixed keys are made. *)
Definition fixed_type (t : TypeID) : bool := is_numeric t || is_date_or_date_time t.
Lemma fixed_type_size t : fixed_type t = true → numeric_byte_size t = Ok (buffer_size t) ∧ (0 < buffer_size t)%nat ∧ t ≠ T_String ∧
  check_value t (unmarshal t (replicate (buffer_size t) 0)) = Ok tt ∧ ∃ k, physical_kind t = Some k ∧ k ≠ KStr.
Proof. destruct t; intros [=]; (split_and!; [done|simpl; lia|done|done|eexists; split; [done|done]]). Qed.

(** ** The rows of a column *)

(** The values of the rows, [None] for null, of a column of the type. *)
Definition values_ok (t : TypeID) (vs : list (option Scalar)) : Prop := Forall (λ o, ∀ s, o = Some s → scalar_ok t s) vs.
Definition opt_value (b : bool) (s : Scalar) : option Scalar := if b then Some s else None.
Definition column_rows (t : DataType) (c : Column) (vs : list (option Scalar)) : Prop :=
  is_nullable c = type_nullable t ∧ values_ok (inner_id t) vs ∧ ∃ k, physical_kind (inner_id t) = Some k ∧
  if type_nullable t then ∃ v inner l, convert_full_column c = NullableColumn v inner ∧ scalars_of k inner = Some l ∧ length v = length l ∧
    vs = zip_with opt_value v l
  else ∃ l, scalars_of k (convert_full_column c) = Some l ∧ vs = Some <$> l.
Lemma scalars_full k c l : scalars_of k c = Some l → convert_full_column c = c ∧ is_nullable c = false ∧ remove_nullable c = c.
Proof. by destruct k, c. Qed.
Lemma zip_with_valid (v : list bool) (l : list Scalar) i o :
  zip_with opt_value v l !! i = Some o → ∃ b s, v !! i = Some b ∧ l !! i = Some s ∧ o = opt_value b s.
Proof. intros (b & s & -> & Hb & Hs)%lookup_zip_with_Some. by exists b, s. Qed.
(** The column gives these values. *)
Lemma column_rows_get t c vs i o : column_rows t c vs → vs !! i = Some o → col_get (convert_full_column c) i = o.
Proof.
  intros (_ & _ & k & _ & Hc) Hi. assert (∀ c l, scalars_of k c = Some l → col_get c i = l !! i) as Hget.
  { intros c' l Hl. destruct k, c'; inversion Hl; subst; simpl; by rewrite list_lookup_fmap. }
  destruct (type_nullable t).
  - destruct Hc as (v & inner & l & -> & Hl & Hlen & ->). destruct (zip_with_valid _ _ _ _ Hi) as (b & s & Hb & Hs & ->). simpl. unfold get_bit. rewrite Hb. simpl.
    destruct b; [|done]. by rewrite (Hget _ _ Hl).
  - destruct Hc as (l & Hl & ->). rewrite list_lookup_fmap in Hi. rewrite (Hget _ _ Hl). destruct (l !! i); by inversion Hi.
Qed.

(** ** The key of one row *)
Definition splice (row : list Z) (o : nat) (bytes : list Z) : list Z := take o row ++ bytes ++ drop (o + length bytes) row.
Lemma splice_length row o bytes : (o + length bytes ≤ length row)%nat → length (splice row o bytes) = length row.
Proof. intros H. unfold splice. rewrite !length_app, length_take, length_drop. lia. Qed.
Lemma splice_lookup row o bytes j : (o + length bytes ≤ length row)%nat →
  splice row o bytes !! j = if decide (o ≤ j < o + length bytes)%nat then bytes !! (j - o)%nat else row !! j.
Proof.
  intros H. unfold splice. destruct (decide (o ≤ j < o + length bytes)%nat) as [[H1 H2]|Hn].
  - rewrite lookup_app_r by (rewrite length_take; lia). rewrite length_take, lookup_app_l by lia. f_equal. lia.
  - destruct (decide (j < o)%nat).
    + rewrite lookup_app_l by (rewrite length_take; lia). by apply lookup_take_lt.
    + rewrite lookup_app_r by (rewrite length_take; lia). rewrite length_take, lookup_app_r by lia. rewrite lookup_drop. f_equal. lia.
Qed.
Lemma splice_byte row o bytes : Forall is_byte row → Forall is_byte bytes → Forall is_byte (splice row o bytes).
Proof. intros Hr Hb. unfold splice. apply Forall_app. split; [by apply Forall_take|]. apply Forall_app. split; [done|by apply Forall_drop]. Qed.
Lemma slice_ext (a b : list Z) o n : length a = length b → (∀ j, (o ≤ j < o + n)%nat → a !! j = b !! j) → take n (drop o a) = take n (drop o b).
Proof.
  intros _ H. apply list_eq. intros i. destruct (decide (i < n)%nat) as [Hi|Hi].
  - rewrite !lookup_take_lt, !lookup_drop by done. apply H. lia.
  - by rewrite !lookup_take_ge by lia.
Qed.
Lemma splice_slice row o bytes : (o + length bytes ≤ length row)%nat → take (length bytes) (drop o (splice row o bytes)) = bytes.
Proof. intros H. unfold splice. rewrite drop_app_length' by (rewrite length_take; lia). by rewrite take_app_length. Qed.

(** What is written for a value, at its own place or at that of its null flag. *)
Definition put_value (t : TypeID) (o n : nat) (v : option Scalar) (row : list Z) : list Z :=
  match v with Some s => splice row o (marshal t s) | None => splice row n [1] end.
Definition next_null (t : DataType) (n : nat) : nat := if type_nullable t then (n + 1)%nat else n.
Fixpoint encode_row (ts : list DataType) (o n : nat) (vals : list (option Scalar)) (row : list Z) : list Z :=
  match ts, vals with
  | t :: ts, v :: vals => encode_row ts (o + type_size t) (next_null t n) vals (put_value (inner_id t) o n v row)
  | _, _ => row
  end.
Definition total (ts : list DataType) : nat := sum_list (type_size <$> ts).
Definition nulls (ts : list DataType) : nat := sum_list ((λ t, if type_nullable t then 1 else 0)%nat <$> ts).
Lemma total_cons t ts : total (t :: ts) = (type_size t + total ts)%nat.
Proof. done. Qed.
Lemma nulls_cons t ts n : (next_null t n + nulls ts = n + nulls (t :: ts))%nat.
Proof. unfold nulls, next_null. rewrite fmap_cons. cbn [sum_list sum_list_with id]. unfold sum_list. simpl. destruct (type_nullable t); lia. Qed.
(** The values that fit the types. *)
Definition vals_ok (ts : list DataType) (vals : list (option Scalar)) : Prop :=
  Forall2 (λ t v, fixed_type (inner_id t) = true ∧ match v with Some s => scalar_ok (inner_id t) s | None => type_nullable t = true end) ts vals.
Lemma type_size_ok t : fixed_type (inner_id t) = true → type_size t = buffer_size (inner_id t).
Proof. intros Ht. unfold type_size. by destruct (fixed_type_size _ Ht) as [-> _]. Qed.
Lemma put_value_lookup t o n v row j :
  fixed_type (inner_id t) = true → match v with Some s => scalar_ok (inner_id t) s | None => type_nullable t = true end →
  (o + type_size t ≤ n)%nat → (next_null t n ≤ length row)%nat →
  length (put_value (inner_id t) o n v row) = length row ∧
  ((j < o ∨ o + type_size t ≤ j < n ∨ next_null t n ≤ j)%nat → put_value (inner_id t) o n v row !! j = row !! j).
Proof.
  intros Hf Hv Hn Hl. rewrite (type_size_ok t Hf) in *. destruct (fixed_type_size _ Hf) as (_ & _ & Hs & _). unfold put_value, next_null in *. destruct v as [s|].
  - destruct (marshal_ok _ _ Hv Hs) as (Hm & _). rewrite splice_length by (rewrite Hm; destruct (type_nullable t); lia). split; [done|]. intros Hj.
    rewrite splice_lookup by (rewrite Hm; destruct (type_nullable t); lia). rewrite Hm, decide_False; [done|]. destruct (type_nullable t); lia.
  - rewrite Hv in *. rewrite splice_length by (simpl; lia). split; [done|]. intros Hj. rewrite splice_lookup by (simpl; lia). simpl. rewrite decide_False; [done|]. lia.
Qed.
Lemma put_value_byte t o n v row : fixed_type t = true → match v with Some s => scalar_ok t s | None => True end → Forall is_byte row → Forall is_byte (put_value t o n v row).
Proof.
  intros Hf Hv Hr. destruct (fixed_type_size _ Hf) as (_ & _ & Hs & _). destruct v as [s|]; apply splice_byte; [done| |done|].
  - by apply marshal_ok.
  - constructor; [unfold is_byte; lia|done].
Qed.
(** Writing the values from some place on changes nothing before it. *)
Lemma encode_row_frame ts o n vals row :
  vals_ok ts vals → (o + total ts ≤ n)%nat → (n + nulls ts ≤ length row)%nat →
  length (encode_row ts o n vals row) = length row ∧
  (∀ j, (j < o ∨ o + total ts ≤ j < n)%nat → encode_row ts o n vals row !! j = row !! j) ∧ (Forall is_byte row → Forall is_byte (encode_row ts o n vals row)).
Proof.
  intros Hv. revert o n row. induction Hv as [|t v ts vals [Hf Hv] _ IH]; intros o n row Ho Hn; [done|]. rewrite total_cons in *. pose proof (nulls_cons t ts n) as Hnn. cbn [encode_row].
  assert (∀ j, length (put_value (inner_id t) o n v row) = length row ∧ ((j < o ∨ o + type_size t ≤ j < n ∨ next_null t n ≤ j)%nat → put_value (inner_id t) o n v row !! j = row !! j)) as Hput
    by (intros j; apply put_value_lookup; [done|done|lia|lia]).
  assert (n ≤ next_null t n)%nat by (unfold next_null; destruct (type_nullable t); lia).
  destruct (IH (o + type_size t)%nat (next_null t n) (put_value (inner_id t) o n v row)) as (Hlen & Hframe & Hbyte); [lia|rewrite (proj1 (Hput 0%nat)); lia|].
  split_and!.
  - rewrite Hlen. apply (Hput 0%nat).
  - intros j Hj. rewrite Hframe by lia. apply Hput. lia.
  - intros Hr. apply Hbyte, put_value_byte; [done|by destruct v|done].
Qed.
Fixpoint row_holds (ts : list DataType) (o n : nat) (vals : list (option Scalar)) (row : list Z) : Prop :=
  match ts, vals with
  | t :: ts, v :: vals =>
      match v with
      | Some s => take (type_size t) (drop o row) = marshal (inner_id t) s ∧ (type_nullable t = true → row !! n = Some 0)
      | None => take (type_size t) (drop o row) = replicate (type_size t) 0 ∧ row !! n = Some 1
      end ∧ row_holds ts (o + type_size t) (next_null t n) vals row
  | _, _ => True
  end.
Definition zero_at (row : list Z) (a b : nat) : Prop := ∀ j, (a ≤ j < b)%nat → row !! j = Some 0.
Lemma zero_slice row a k : zero_at row a (a + k) → take k (drop a row) = replicate k 0.
Proof.
  intros H. apply list_eq. intros i. destruct (decide (i < k)%nat) as [Hi|Hi].
  - rewrite lookup_take_lt, lookup_drop, lookup_replicate_2 by done. apply H. lia.
  - rewrite lookup_take_ge by lia. symmetry. apply lookup_ge_None. rewrite length_replicate. lia.
Qed.
Lemma put_value_holds t o n v row :
  fixed_type (inner_id t) = true → match v with Some s => scalar_ok (inner_id t) s | None => type_nullable t = true end →
  (o + type_size t ≤ n)%nat → (next_null t n ≤ length row)%nat → zero_at row o (o + type_size t) → (type_nullable t = true → row !! n = Some 0) →
  match v with
  | Some s => take (type_size t) (drop o (put_value (inner_id t) o n v row)) = marshal (inner_id t) s ∧ (type_nullable t = true → put_value (inner_id t) o n v row !! n = Some 0)
  | None => take (type_size t) (drop o (put_value (inner_id t) o n v row)) = replicate (type_size t) 0 ∧ put_value (inner_id t) o n v row !! n = Some 1
  end.
Proof.
  intros Hf Hv Hn Hl Hz Hz0. pose proof (type_size_ok t Hf) as Hsize. destruct (fixed_type_size _ Hf) as (_ & Hpos & Hs & _).
  assert (n ≤ next_null t n)%nat by (unfold next_null; destruct (type_nullable t); lia). destruct v as [s|]; unfold put_value.
  - destruct (marshal_ok _ _ Hv Hs) as (Hm & _). rewrite Hsize, <-Hm. split; [apply splice_slice; lia|]. intros Ht.
    rewrite splice_lookup by lia. rewrite decide_False by lia. by apply Hz0.
  - unfold next_null in Hl. rewrite Hv in Hl. split.
    + rewrite <-(zero_slice row o _ Hz). apply slice_ext; [apply splice_length; simpl; lia|]. intros j Hj. rewrite splice_lookup by (simpl; lia). simpl. by rewrite decide_False by lia.
    + rewrite splice_lookup by (simpl; lia). simpl. rewrite decide_True by lia. by rewrite Nat.sub_diag.
Qed.
Lemma encode_holds ts o n vals row :
  vals_ok ts vals → (o + total ts ≤ n)%nat → (n + nulls ts ≤ length row)%nat → zero_at row o (o + total ts) → zero_at row n (length row) →
  row_holds ts o n vals (encode_row ts o n vals row).
Proof.
  intros Hv. revert o n row. induction Hv as [|t v ts vals [Hf Hv] Hvs IH]; intros o n row Ho Hn Hz Hzn; [done|]. rewrite total_cons in *. pose proof (nulls_cons t ts n) as Hnn.
  cbn [encode_row row_holds]. assert (n ≤ next_null t n)%nat by (unfold next_null; destruct (type_nullable t); lia).
  assert (∀ j, length (put_value (inner_id t) o n v row) = length row ∧ ((j < o ∨ o + type_size t ≤ j < n ∨ next_null t n ≤ j)%nat → put_value (inner_id t) o n v row !! j = row !! j)) as Hput
    by (intros j; apply put_value_lookup; [done|done|lia|lia]).
  set (row1 := put_value (inner_id t) o n v row) in *. assert (length row1 = length row) as Hl1 by apply (Hput 0%nat).
  destruct (encode_row_frame ts (o + type_size t) (next_null t n) vals row1 Hvs) as (_ & Hframe & _); [lia|lia|]. split.
  - assert (take (type_size t) (drop o (encode_row ts (o + type_size t) (next_null t n) vals row1)) = take (type_size t) (drop o row1)) as ->
      by (apply slice_ext; [by apply encode_row_frame; [|lia..]|intros j Hj; apply Hframe; lia]).
    assert (type_nullable t = true → encode_row ts (o + type_size t) (next_null t n) vals row1 !! n = row1 !! n) as Hflag
      by (intros Ht; apply Hframe; unfold next_null; rewrite Ht; lia).
    assert (type_nullable t = true → row !! n = Some 0) as Hn0 by (intros Ht; apply Hzn; unfold next_null in *; rewrite Ht in *; lia).
    pose proof (put_value_holds t o n v row Hf Hv ltac:(lia) ltac:(lia) ltac:(intros j Hj; apply Hz; lia) Hn0) as Hh. fold row1 in Hh.
    destruct v as [s|]; destruct Hh as [H1 H2]; (split; [done|]); [intros Ht; rewrite Hflag by done; by apply H2|by rewrite Hflag].
  - apply IH; [lia|lia| |].
    + intros j Hj. rewrite (proj2 (Hput j)) by lia. apply Hz. lia.
    + intros j Hj. rewrite (proj2 (Hput j)) by lia. apply Hzn. lia.
Qed.

(** ** The memory of the keys *)
Definition of_size (step : nat) (rows : list (list Z)) : Prop := Forall (λ r, length r = step) rows.
Lemma concat_size step rows : of_size step rows → length (concat rows) = (length rows * step)%nat.
Proof. induction 1 as [|r rows Hr _ IH]; [done|]. simpl. rewrite length_app, Hr, IH. done. Qed.
Lemma write_row step past row todo o bytes :
  of_size step past → length row = step → (o + length bytes ≤ step)%nat →
  write_bytes (concat (past ++ row :: todo)) (length past * step + o) bytes = Ok (concat (past ++ splice row o bytes :: todo)).
Proof.
  intros Hp Hr Ho. unfold write_bytes. rewrite !concat_app. cbn [concat]. rewrite !length_app, (concat_size _ _ Hp). rewrite (proj2 (Nat.leb_le _ _)) by lia. f_equal.
  rewrite take_app_add', <-Nat.add_assoc, drop_app_add' by (by rewrite (concat_size _ _ Hp)). rewrite <-app_assoc. f_equal. unfold splice.
  rewrite take_app_le, drop_app_le by lia. by rewrite <-!app_assoc.
Qed.
Definition put_pair (t : TypeID) (o n : nat) (row : list Z) (v : Scalar * bool) : list Z := put_value t o n (if v.2 then Some v.1 else None) row.
(** A column is written into all rows. *)
Lemma fixed_rows_ok t offsize o step vals past todo :
  t ≠ T_String → Forall (λ v : Scalar * bool, v.2 = true → scalar_ok t v.1) vals → of_size step past → of_size step todo → length vals = length todo →
  (o + buffer_size t ≤ step)%nat → ((∃ v, v ∈ vals ∧ v.2 = false) → (o + offsize + 1 ≤ step)%nat) →
  fixed_rows t offsize vals (length past * step + o) step (concat (past ++ todo)) = Ok (concat (past ++ zip_with (put_pair t o (o + offsize)) todo vals)).
Proof.
  intros Ht Hv. revert past todo. induction Hv as [|[v valid] vals Hv Hvs IH]; intros past todo Hp Htodo Hl Ho Hoff; destruct todo as [|row todo]; try done.
  apply Forall_cons in Htodo as [Hrow Htodo]. cbn [fixed_rows zip_with].
  assert ((if valid then write_bytes (concat (past ++ row :: todo)) (length past * step + o) (marshal t v) else write_bytes (concat (past ++ row :: todo)) (length past * step + o + offsize) [1])
    = Ok (concat (past ++ put_pair t o (o + offsize) row (v, valid) :: todo))) as ->.
  { unfold put_pair, put_value. simpl. destruct valid.
    - apply write_row; [done|done|]. by rewrite (proj1 (marshal_ok t v (Hv eq_refl) Ht)).
    - rewrite <-Nat.add_assoc. apply write_row; [done|done|]. simpl. apply Hoff. exists (v, false). split; [by left|done]. }
  cbn [res_bind]. assert (length (put_pair t o (o + offsize) row (v, valid)) = step) as Hput.
  { unfold put_pair, put_value. simpl. destruct valid; rewrite splice_length; try done.
    - rewrite (proj1 (marshal_ok t v (Hv eq_refl) Ht)). lia.
    - simpl. rewrite Hrow. apply Hoff. exists (v, false). split; [by left|done]. }
  rewrite (cons_middle _ past), (cons_middle _ past (zip_with _ _ _)), !app_assoc.
  replace (length past * step + o + step)%nat with (length (past ++ [put_pair t o (o + offsize) row (v, valid)]) * step + o)%nat by (rewrite length_app; simpl; lia).
  apply IH; [|done|by injection Hl|done|].
  - apply Forall_app. split; [done|by constructor].
  - intros (v' & Hin & Hf). apply Hoff. exists v'. split; [by right|done].
Qed.
Definition put_rows (t : DataType) (o n : nat) (rows : list (list Z)) (vs : list (option Scalar)) : list (list Z) :=
  zip_with (λ row v, put_value (inner_id t) o n v row) rows vs.
Lemma put_pairs t o n rows l v : length l = length v →
  zip_with (put_pair t o n) rows (zip l v) = zip_with (λ row v, put_value t o n v row) rows (zip_with opt_value v l).
Proof.
  revert rows v. induction l as [|s l IH]; intros [|row rows] [|b v] Hl; try done. simpl. f_equal. apply IH. by injection Hl.
Qed.
Lemma put_pairs_valid t o n n' rows l :
  zip_with (put_pair t o n) rows ((λ s, (s, true)) <$> l) = zip_with (λ row v, put_value t o n' v row) rows (Some <$> l).
Proof. revert rows. induction l as [|s l IH]; intros [|row rows]; try done. simpl. f_equal. apply IH. Qed.
Lemma values_valid t v l : values_ok t (zip_with opt_value v l) → Forall (λ x : Scalar * bool, x.2 = true → scalar_ok t x.1) (zip l v).
Proof.
  intros H. apply Forall_lookup. intros i [s b] [Hs Hb]%lookup_zip_Some Ht. simpl in Ht. subst b.
  apply (Forall_lookup_1 _ _ i (Some s) H); [|done]. by rewrite lookup_zip_with, Hb, Hs.
Qed.
Lemma series_fixed_hash_ok t c vs o n step rows :
  column_rows t c vs → fixed_type (inner_id t) = true → length vs = length rows → of_size step rows → (o + type_size t ≤ n)%nat → (next_null t n ≤ step)%nat →
  series_fixed_hash 2 (inner_id t) c o step (if type_nullable t then Some ((n - o)%nat, None) else None) (concat rows) = Ok (concat (put_rows t o n rows vs)).
Proof.
  intros (Hn & Hok & k & Hk & Hc) Hf Hl Hrows Ho Hnull. rewrite (type_size_ok t Hf) in Ho. destruct (fixed_type_size _ Hf) as (_ & _ & Hs & _ & k' & Hk' & Hstr).
  rewrite Hk in Hk'. injection Hk' as <-. unfold put_rows, next_null in *. set (id := inner_id t) in *. destruct (type_nullable t).
  - destruct Hc as (v & inner & l & Hfull & Hinner & Hlen & ->). cbn [series_fixed_hash]. rewrite Hfull. cbn [is_nullable unwrap res_bind validity snd combine_validities remove_nullable].
    destruct (scalars_full _ _ _ Hinner) as (-> & -> & ->). rewrite Hk, Hinner.
    assert (group_fixed_hash id l o step (Some ((n - o)%nat, Some v)) (concat rows) = Ok (concat (zip_with (λ row v, put_value id o n v row) rows (zip_with opt_value v l)))) as Hg.
    { rewrite <-put_pairs by done. replace n with (o + (n - o))%nat at 2 by lia. rewrite length_zip_with in Hl.
      apply (fixed_rows_ok id (n - o) o step (zip l v) [] rows); [done|by apply values_valid|constructor|done|rewrite length_zip; lia|lia|lia]. }
    destruct k; [exact Hg..|done].
  - destruct Hc as (l & Hfull & ->). rewrite length_fmap in Hl. destruct (scalars_full _ _ _ Hfull) as (Hff & Hfn & Hfr). cbn [series_fixed_hash]. rewrite Hfn, Hfr, Hk, Hfull.
    assert (group_fixed_hash id l o step None (concat rows) = Ok (concat (zip_with (λ row v, put_value id o n v row) rows (Some <$> l)))) as Hg.
    { rewrite <-(put_pairs_valid id o (o + 0)). apply (fixed_rows_ok id 0 o step _ [] rows); [done| |constructor|done|by rewrite length_fmap|lia|].
      - apply Forall_fmap, Forall_lookup. intros i s Hi _. simpl. apply (Forall_lookup_1 _ _ i (Some s) Hok); [|done]. by rewrite list_lookup_fmap, Hi.
      - intros (v & Hin & Hv). apply list_elem_of_fmap in Hin as (s & -> & _). done. }
    destruct k; [exact Hg..|done].
Qed.

(** ** The columns of the groups *)
Record group := mkGroup { g_name : string; g_type : DataType; g_column : Column; g_values : list (option Scalar) }.
Definition row_vals (G : list group) (r : nat) : list (option Scalar) := (λ g, default None (g_values g !! r)) <$> G.
Definition fixed_group (rows : nat) (g : group) : Prop :=
  column_rows (g_type g) (g_column g) (g_values g) ∧ fixed_type (inner_id (g_type g)) = true ∧ length (g_values g) = rows.
Lemma column_rows_valid t c vs i : column_rows t c vs → vs !! i = Some None → type_nullable t = true.
Proof.
  intros (_ & _ & k & _ & Hc) Hi. destruct (type_nullable t); [done|]. destruct Hc as (l & _ & ->). rewrite list_lookup_fmap in Hi. by destruct (l !! i).
Qed.
Lemma row_vals_ok rows G r : Forall (fixed_group rows) G → (r < rows)%nat → vals_ok (g_type <$> G) (row_vals G r).
Proof.
  intros HG Hr. unfold vals_ok, row_vals. apply Forall2_fmap. apply Forall_Forall2_diag. eapply Forall_impl; [exact HG|]. intros g (Hc & Hf & Hl). split; [done|].
  destruct (lookup_lt_is_Some_2 (g_values g) r) as [o Ho]; [lia|]. rewrite Ho. simpl. destruct o as [s|]; [|by eapply column_rows_valid].
  destruct Hc as (_ & Hok & _). by apply (Forall_lookup_1 _ _ r (Some s) Hok).
Qed.
Lemma imap_zip_with {A B C D} (f : nat → C → D) (g : A → B → C) (l : list A) (k : list B) (d : B) :
  length k = length l → imap f (zip_with g l k) = imap (λ i x, f i (g x (default d (k !! i)))) l.
Proof.
  revert f k. induction l as [|x l IH]; intros f [|y k] Hl; try done. simpl. f_equal. rewrite IH by (by injection Hl). apply imap_ext. done.
Qed.
Lemma build_all_ok G o n step rows :
  Forall (fixed_group (length rows)) G → of_size step rows → (o + total (g_type <$> G) ≤ n)%nat → (n + nulls (g_type <$> G) ≤ step)%nat →
  build_all o n ((λ g, (g_type g, g_column g)) <$> G) step (concat rows) =
    Ok (concat (imap (λ r row, encode_row (g_type <$> G) o n (row_vals G r) row) rows)).
Proof.
  revert o n rows. induction G as [|g G IH]; intros o n rows HG Hrows Ho Hn.
  { cbn [fmap list_fmap build_all encode_row]. do 2 f_equal. symmetry. rewrite <-(list_fmap_id rows) at 2. rewrite <-imap_const. by apply imap_ext. }
  apply Forall_cons in HG as [(Hc & Hf & Hl) HG]. rewrite !fmap_cons in *. rewrite total_cons in Ho. pose proof (nulls_cons (g_type g) (g_type <$> G) n) as Hnn.
  cbn [build_all]. unfold build. cbn [fst snd]. destruct (fixed_type_size _ Hf) as (Hsize & _). pose proof (type_size_ok _ Hf) as Hts.
  change (data_type_id (remove_nullable_type (g_type g))) with (inner_id (g_type g)). rewrite Hsize. cbn [res_bind]. destruct Hc as (Hnull & Hrest). rewrite Hnull.
  assert ((if type_nullable (g_type g) then if (n <? o)%nat then Panic else Ok (Some ((n - o)%nat, None), (n + 1)%nat) else Ok (None, n)) =
    Ok (E:=agg_error) (if type_nullable (g_type g) then Some ((n - o)%nat, None (A:=list bool)) else None, next_null (g_type g) n)) as ->.
  { unfold next_null. destruct (type_nullable (g_type g)); [|done]. by rewrite (proj2 (Nat.ltb_ge _ _)) by lia. }
  cbn [res_bind]. rewrite (series_fixed_hash_ok (g_type g) (g_column g) (g_values g)); [|done|done|done|done|lia|lia]. cbn [res_bind].
  rewrite <-Hts. assert (n ≤ next_null (g_type g) n)%nat by (unfold next_null; destruct (type_nullable (g_type g)); lia). rewrite IH; [|unfold put_rows; rewrite length_zip_with, Hl, Nat.min_id; done| |lia|lia].
  - do 2 f_equal. unfold put_rows. rewrite (imap_zip_with _ _ _ _ None) by done. done.
  - apply Forall_lookup. intros r row Hr. unfold put_rows in Hr. apply lookup_zip_with_Some in Hr as (row0 & v & -> & Hr0 & Hv).
    pose proof (row_vals_ok (length rows) [g] r ltac:(constructor; [by split_and!|done]) ltac:(by eapply lookup_lt_Some)) as Hvals.
    unfold row_vals in Hvals. simpl in Hvals. rewrite Hv in Hvals. apply Forall2_cons_1 in Hvals as [[_ Hvv] _].
    pose proof (Forall_lookup_1 _ _ _ _ Hrows Hr0) as Hrow. simpl in Hrow. rewrite <-Hrow. apply (put_value_lookup (g_type g) o n v row0 0); [done|done|lia|lia].
Qed.

(** ** Reading the keys *)
Definition of_kind (k : TypeKind) (s : Scalar) : bool :=
  match k, s with KInt, SInt _ | KFloat, SFloat _ | KBool, SBool _ | KStr, SStr _ => true | _, _ => false end.
Lemma finish_scalars t k l : physical_kind t = Some k → Forall (λ s, of_kind k s = true) l →
  scalars_of k (finish_to_column t l) = Some l ∧ convert_full_column (finish_to_column t l) = finish_to_column t l ∧ is_nullable (finish_to_column t l) = false.
Proof.
  intros Hk Hl. assert (scalars_of k (finish_to_column t l) = Some l) as Hs; [|split; [done|split; by eapply scalars_full]].
  unfold finish_to_column. rewrite Hk. destruct k; simpl; f_equal; induction Hl as [|s l Hs _ IH]; try done; destruct s; try done; simpl; f_equal; exact IH.
Qed.
Lemma unmarshal_kind t k bytes : fixed_type t = true ∨ t = T_Boolean → physical_kind t = Some k → of_kind k (unmarshal t bytes) = true.
Proof. destruct t; intros [[=]|[=]] [=<-]; done. Qed.
Lemma scalar_ok_kind t k s : scalar_ok t s → physical_kind t = Some k → of_kind k s = true.
Proof.
  destruct s as [b|n|f|x]; simpl.
  - intros -> [= <-]. done.
  - intros [Hi _]. destruct (int_type_size t Hi) as [_ ->]. by intros [= <-].
  - intros [[-> _]|[-> _]] [= <-]; done.
  - intros [-> _] [= <-]. done.
Qed.
Lemma drop_concat step rows r : of_size step rows → drop (r * step) (concat rows) = concat (drop r rows).
Proof.
  revert rows. induction r as [|r IH]; intros rows Hr; [by rewrite drop_0|]. destruct Hr as [|row rows Hrow Hrows]; [by cbn [concat]; rewrite !drop_nil|]. cbn [concat drop].
  rewrite Nat.mul_succ_l, Nat.add_comm, drop_app_add' by done. by apply IH.
Qed.
Lemma de_batch_ok t o step rows :
  of_size step rows → (o + buffer_size t ≤ step)%nat → (∀ row, row ∈ rows → check_value t (unmarshal t (take (buffer_size t) (drop o row))) = Ok tt) →
  de_fixed_binary_batch t (drop o (concat rows)) step (length rows) = Ok ((λ row, unmarshal t (take (buffer_size t) (drop o row))) <$> rows).
Proof.
  intros Hrows Ho Hcheck. unfold de_fixed_binary_batch. apply res_mapM_ok, Forall2_same_length_lookup_2; [by rewrite length_seq, length_fmap|].
  intros i r v [-> Hi]%lookup_seq Hv. rewrite Nat.add_0_l in *. apply list_lookup_fmap_Some in Hv as (row & -> & Hrow).
  pose proof (Forall_lookup_1 _ _ _ _ Hrows Hrow) as Hlen. simpl in Hlen. pose proof (concat_size _ _ Hrows) as Hc. unfold slice_from.
  assert (o + step * i ≤ length (concat rows))%nat by (rewrite Hc; nia). rewrite (proj2 (Nat.leb_le _ _)) by (rewrite length_drop; lia). cbn [res_bind].
  rewrite drop_drop. replace (o + step * i)%nat with (i * step + o)%nat by lia. rewrite <-drop_drop, (drop_concat _ _ _ Hrows), (drop_S _ _ _ Hrow). cbn [concat].
  unfold de_scalar, read_scalar. rewrite (proj2 (Nat.ltb_ge _ _)) by (rewrite length_drop, length_app; lia). cbn [res_bind].
  rewrite drop_app_le, take_app_le by (rewrite ?length_drop; lia). rewrite Hcheck; [done|by eapply list_elem_of_lookup_2].
Qed.
(** What is asked of the values of a group, whatever its column. *)
Definition typed_values (rows : nat) (g : group) : Prop :=
  fixed_type (inner_id (g_type g)) = true ∧ length (g_values g) = rows ∧
  Forall (λ v, match v with Some s => scalar_ok (inner_id (g_type g)) s | None => type_nullable (g_type g) = true end) (g_values g).
Lemma flag_at row n : negb (default 0 (head (take 1 (drop n row))) =? 0) = negb (default 0 (row !! n) =? 0).
Proof. do 3 f_equal. rewrite <-(lookup_drop row n 0) || (rewrite <-(Nat.add_0_r n) at 2; rewrite <-lookup_drop). by destruct (drop n row). Qed.
Lemma read_flags n step R :
  of_size step R → (n + 1 ≤ step)%nat →
  ∃ l, de_fixed_binary_batch T_Boolean (drop n (concat R)) step (length R) = Ok l ∧ negb <$> bools_of l = (λ row, default 0 (row !! n) =? 0) <$> R.
Proof.
  intros HR Hn. eexists. split; [apply de_batch_ok; [done|done|intros; done]|]. clear HR. induction R as [|row R IH]; [done|]. rewrite !fmap_cons. cbn [unmarshal buffer_size bools_of omap list_omap fmap list_fmap].
  f_equal; [|exact IH]. by rewrite flag_at, negb_involutive.
Qed.
(** The values at a place of the rows. *)
Definition read_values (t : DataType) (o : nat) (R : list (list Z)) : list Scalar := (λ row, unmarshal (inner_id t) (take (buffer_size (inner_id t)) (drop o row))) <$> R.
Lemma read_values_ok t o n step R (vs : list (option Scalar)) :
  fixed_type (inner_id t) = true → of_size step R → (o + type_size t ≤ step)%nat → length vs = length R →
  Forall (λ v, match v with Some s => scalar_ok (inner_id t) s | None => type_nullable t = true end) vs →
  (∀ i row v, R !! i = Some row → vs !! i = Some v →
    match v with
    | Some s => take (type_size t) (drop o row) = marshal (inner_id t) s ∧ (type_nullable t = true → row !! n = Some 0)
    | None => take (type_size t) (drop o row) = replicate (type_size t) 0 ∧ row !! n = Some 1
    end) →
  de_fixed_binary_batch (inner_id t) (drop o (concat R)) step (length R) = Ok (read_values t o R) ∧
  Forall (λ s, ∀ k, physical_kind (inner_id t) = Some k → of_kind k s = true) (read_values t o R) ∧
  vs = if type_nullable t then zip_with opt_value ((λ row, default 0 (row !! n) =? 0) <$> R) (read_values t o R) else Some <$> read_values t o R.
Proof.
  intros Hf HR Ho Hl Hvs Hh. pose proof (type_size_ok t Hf) as Hts. destruct (fixed_type_size _ Hf) as (_ & _ & Hs & Hzero & _). rewrite Hts in *.
  assert (∀ i row v, R !! i = Some row → vs !! i = Some v → match v with Some s => unmarshal (inner_id t) (take (buffer_size (inner_id t)) (drop o row)) = s ∧ check_value (inner_id t) s = Ok tt
    | None => take (buffer_size (inner_id t)) (drop o row) = replicate (buffer_size (inner_id t)) 0 end) as Hread.
  { intros i row v Hrow Hv. pose proof (Hh i row v Hrow Hv) as H. pose proof (Forall_lookup_1 _ _ _ _ Hvs Hv) as Hok. simpl in Hok. destruct v as [s|]; [|apply H].
    destruct H as [-> _]. by destruct (marshal_ok _ _ Hok Hs) as (_ & _ & ? & ?). }
  split_and!.
  - apply de_batch_ok; [done|done|]. intros row Hin. apply list_elem_of_lookup in Hin as [i Hi]. destruct (lookup_lt_is_Some_2 vs i) as [v Hv]; [rewrite Hl; by eapply lookup_lt_Some|].
    specialize (Hread i row v Hi Hv). destruct v as [s|]; [destruct Hread as [-> ?]; done|by rewrite Hread].
  - unfold read_values. apply Forall_fmap, Forall_true. intros row k Hk. apply unmarshal_kind; [by left|done].
  - apply list_eq. intros i. destruct (R !! i) as [row|] eqn:Hrow.
    + destruct (lookup_lt_is_Some_2 vs i) as [v Hv]; [rewrite Hl; by eapply lookup_lt_Some|]. specialize (Hread i row v Hrow Hv). specialize (Hh i row v Hrow Hv).
      pose proof (Forall_lookup_1 _ _ _ _ Hvs Hv) as Hok. simpl in Hok. unfold read_values. rewrite Hv. destruct (type_nullable t).
      * rewrite lookup_zip_with, !list_lookup_fmap, Hrow. simpl. destruct v as [s|]; destruct Hh as [_ Hflag]; [rewrite Hflag by done|rewrite Hflag]; simpl; unfold opt_value; [by rewrite (proj1 Hread)|done].
      * rewrite !list_lookup_fmap, Hrow. simpl. destruct v as [s|]; [by rewrite (proj1 Hread)|done].
    + rewrite (lookup_ge_None_2 vs) by (rewrite Hl; by apply lookup_ge_None). symmetry. apply lookup_ge_None. apply lookup_ge_None in Hrow. unfold read_values.
      destruct (type_nullable t); [rewrite length_zip_with|]; rewrite !length_fmap; lia.
Qed.
Lemma finish_rows t k vs L (bits : list bool) :
  physical_kind (inner_id t) = Some k → Forall (λ v, match v with Some s => scalar_ok (inner_id t) s | None => type_nullable t = true end) vs →
  Forall (λ s, ∀ k, physical_kind (inner_id t) = Some k → of_kind k s = true) L → length bits = length L →
  vs = (if type_nullable t then zip_with opt_value bits L else Some <$> L) →
  column_rows t (if type_nullable t then NullableColumn bits (finish_to_column (inner_id t) L) else finish_to_column (inner_id t) L) vs.
Proof.
  intros Hk Hvs HL Hlen Heq.
  destruct (finish_scalars (inner_id t) k L Hk) as (Hs & Hfull & Hn); [eapply Forall_impl; [exact HL|]; intros s H; by apply H|].
  assert (values_ok (inner_id t) vs) as Hok by (eapply Forall_impl; [exact Hvs|]; by intros v Hv s ->).
  unfold column_rows. destruct (type_nullable t).
  - split; [done|]. split; [done|]. exists k. split; [done|]. exists bits, (finish_to_column (inner_id t) L), L. simpl. by rewrite Hfull.
  - split; [done|]. split; [done|]. exists k. split; [done|]. exists L. by rewrite Hfull.
Qed.
Lemma deserialize_fields_ok G o n step R :
  R ≠ [] → of_size step R → Forall (typed_values (length R)) G → (o + total (g_type <$> G) ≤ n)%nat → (n + nulls (g_type <$> G) ≤ step)%nat →
  (∀ i row, R !! i = Some row → row_holds (g_type <$> G) o n (row_vals G i) row) →
  ∃ cols, deserialize_fields ((λ g, (g_name g, g_type g)) <$> G) o n (concat R) step (length R) = Ok cols ∧ Forall2 (λ g c, column_rows (g_type g) c (g_values g)) G cols.
Proof.
  intros Hne HR. assert (step ≤ length (concat R))%nat as Hmem by (rewrite (concat_size _ _ HR); destruct R; [done|simpl; lia]).
  revert o n. induction G as [|g G IH]; intros o n HG Ho Hn Hh; [by exists []|]. apply Forall_cons in HG as [(Hf & Hl & Hvs) HG]. rewrite !fmap_cons in *.
  rewrite total_cons in Ho. pose proof (nulls_cons (g_type g) (g_type <$> G) n) as Hnn. set (t := g_type g) in *.
  assert (n ≤ next_null t n)%nat by (unfold next_null; destruct (type_nullable t); lia).
  destruct (read_values_ok t o n step R (g_values g) Hf HR) as (Hread & Hkind & Heq); [lia|done|done| |].
  { intros i row v Hrow Hv. pose proof (Hh i row Hrow) as H0. cbn [row_vals fmap list_fmap row_holds] in H0. rewrite Hv in H0. destruct v; apply H0. }
  destruct (IH (o + type_size t)%nat (next_null t n)) as (cols & Hcols & Hall); [done|lia|lia| |].
  { intros i row Hrow. pose proof (Hh i row Hrow) as H0. cbn [row_vals fmap list_fmap row_holds] in H0. apply H0. }
  destruct (fixed_type_size _ Hf) as (Hsize & _ & _ & _ & k & Hk & _). exists ((if type_nullable t then NullableColumn ((λ row, default 0 (row !! n) =? 0) <$> R) (finish_to_column (inner_id t) (read_values t o R))
    else finish_to_column (inner_id t) (read_values t o R)) :: cols).
  split; [|constructor; [|done]; apply (finish_rows _ k); [done|done|done|by unfold read_values; rewrite !length_fmap|done]].
  cbn [deserialize_fields snd]. change (data_type_id (remove_nullable_type t)) with (inner_id t). unfold slice_from.
  rewrite (proj2 (Nat.leb_le o _)) by lia. cbn [res_bind]. rewrite Hread. cbn [res_bind]. rewrite Hsize. cbn [res_bind]. rewrite <-(type_size_ok t Hf).
  destruct (type_nullable t) eqn:Ht; cbn [negb]; unfold next_null in *; rewrite Ht in *.
  - rewrite (proj2 (Nat.leb_le n _)) by lia. cbn [res_bind]. destruct (read_flags n step R HR) as (l & -> & Hl'); [lia|]. cbn [res_bind]. rewrite Hl', Hcols. done.
  - cbn [res_bind]. by rewrite Hcols.
Qed.

(** ** The order of the columns *)
Lemma insert_desc_fmap {A B} (f : A → B) size x l : insert_desc size (f x) (f <$> l) = f <$> insert_desc (size ∘ f) x l.
Proof. induction l as [|y l IH]; [done|]. simpl. destruct (size (f y) <=? size (f x))%nat; [done|]. simpl. f_equal. exact IH. Qed.
Lemma sort_desc_fmap {A B} (f : A → B) size l : sort_desc size (f <$> l) = f <$> sort_desc (size ∘ f) l.
Proof. induction l as [|x l IH]; [done|]. rewrite fmap_cons. unfold sort_desc in *. cbn [foldr]. rewrite IH. apply insert_desc_fmap. Qed.
Lemma sort_desc_perm {A} (size : A → nat) l : sort_desc size l ≡ₚ l.
Proof.
  induction l as [|x l IH]; [done|]. simpl. fold (sort_desc size l). rewrite <-IH at 2. generalize (sort_desc size l). clear l IH. intros l.
  induction l as [|y l IH]; [done|]. simpl. destruct (size y <=? size x)%nat; [done|]. rewrite IH. apply Permutation_swap.
Qed.
Lemma total_perm ts ts' : ts ≡ₚ ts' → total ts = total ts' ∧ nulls ts = nulls ts'.
Proof. intros H. unfold total, nulls. split; by rewrite H. Qed.
Lemma sum_sizes_ok ts : Forall (λ t, fixed_type (inner_id t) = true) ts → sum_sizes ts = Ok (total ts).
Proof.
  intros H. unfold sum_sizes. assert (res_mapM (λ t, numeric_byte_size (data_type_id (remove_nullable_type t))) ts = Ok (type_size <$> ts)) as ->; [|done].
  apply res_mapM_ok, Forall2_fmap_r, Forall_Forall2_diag. eapply Forall_impl; [exact H|]. intros t Ht. simpl. rewrite (type_size_ok t Ht). by destruct (fixed_type_size _ Ht).
Qed.
Lemma omap_Forall2 {A B C} (P : A → C → Prop) (f : A → B) (h : B → option C) G :
  (∀ g, g ∈ G → ∃ c, h (f g) = Some c ∧ P g c) → Forall2 P G (omap h (f <$> G)).
Proof.
  induction G as [|g G IH]; intros H; [constructor|]. rewrite fmap_cons. cbn [omap list_omap]. destruct (H g) as (c & Hc & HP); [by left|]. rewrite Hc. constructor; [done|].
  apply IH. intros g' Hg'. apply H. by right.
Qed.
(** A field is found again by its name and type. *)
Definition field (g : group) : string * DataType := (g_name g, g_type g).
Definition distinct_fields (G : list group) : Prop := ∀ g g', g ∈ G → g' ∈ G → field g = field g' → g_values g = g_values g'.
Lemma sort_back G sG cols :
  sG ≡ₚ G → distinct_fields G → Forall2 (λ g c, column_rows (g_type g) c (g_values g)) sG cols →
  Forall2 (λ g c, column_rows (g_type g) c (g_values g)) G
    (omap (λ f, snd <$> (snd <$> list_find (λ sc : (string * DataType) * Column, f.2 = sc.1.2 ∧ f.1 = sc.1.1) (zip (field <$> sG) cols))) (field <$> G)).
Proof.
  intros Hp Hd Hcols. apply omap_Forall2. intros g Hg. assert (g ∈ sG) as Hs by (by rewrite Hp). apply list_elem_of_lookup in Hs as [i Hi].
  destruct (Forall2_lookup_l _ _ _ _ _ Hcols Hi) as (c & Hc & _).
  destruct (list_find_elem_of (λ sc : (string * DataType) * Column, (field g).2 = sc.1.2 ∧ (field g).1 = sc.1.1) (zip (field <$> sG) cols) (field g, c)) as [[j [f c']] Hfind]; [|done|].
  { apply list_elem_of_lookup. exists i. apply lookup_zip_Some. by rewrite list_lookup_fmap, Hi. }
  rewrite Hfind. exists c'. split; [done|]. apply list_find_Some in Hfind as (Hj & [H2 H1] & _). apply lookup_zip_Some in Hj as [Hf Hc'].
  apply list_lookup_fmap_Some in Hf as (g' & -> & Hg'). simpl in H1, H2. destruct (Forall2_lookup_lr _ _ _ _ _ _ Hcols Hg' Hc') as [Hn Hrest].
  assert (g_type g' = g_type g) as <- by done. rewrite (Hd g g'); [done|done|rewrite <-Hp; by eapply list_elem_of_lookup_2|unfold field; by f_equal].
Qed.

(** ** Fixed keys hold the values *)
Definition select (sel : list nat) (g : group) : group := mkGroup (g_name g) (g_type g) (g_column g) ((λ r, default None (g_values g !! r)) <$> sel).
Lemma row_vals_select sel G i r : sel !! i = Some r → row_vals (select sel <$> G) i = row_vals G r.
Proof. intros Hi. unfold row_vals. rewrite <-list_fmap_compose. apply list_fmap_ext. intros _ g _. simpl. by rewrite list_lookup_fmap, Hi. Qed.
Lemma fixed_typed rows sel g : fixed_group rows g → Forall (λ r, (r < rows)%nat) sel → typed_values (length sel) (select sel g).
Proof.
  intros (Hc & Hf & Hl) Hsel. split_and!; [done|simpl; by rewrite length_fmap|]. simpl. apply Forall_fmap. eapply Forall_impl; [exact Hsel|]. intros r Hr. cbv beta in Hr. simpl.
  destruct (lookup_lt_is_Some_2 (g_values g) r) as [v Hv]; [lia|]. rewrite Hv. simpl. destruct v as [s|]; [|by eapply column_rows_valid].
  destruct Hc as (_ & Hok & _). by apply (Forall_lookup_1 _ _ r (Some s) Hok).
Qed.
Lemma zip_fmap_pair {A B C} (f : A → B) (h : A → C) l : zip (f <$> l) (h <$> l) = (λ x, (f x, h x)) <$> l.
Proof. induction l as [|x l IH]; [done|]. simpl. f_equal. exact IH. Qed.
Lemma concat_replicate step rows : replicate (rows * step) 0 = concat (replicate rows (replicate step 0)).
Proof. induction rows as [|rows IH]; [done|]. simpl. by rewrite replicate_add, IH. Qed.
Lemma imap_replicate {A B} (f : nat → A → B) n x : imap f (replicate n x) = (λ r, f r x) <$> seq 0 n.
Proof.
  revert f. induction n as [|n IH]; intros f; [done|]. simpl. f_equal. rewrite (IH (f ∘ S)). rewrite <-fmap_S_seq, <-list_fmap_compose. done.
Qed.
Lemma mem_keys_rows step R : of_size step R → mem_keys step (length R) (concat R) = from_le <$> R.
Proof.
  intros HR. apply list_eq. intros i. unfold mem_keys. rewrite !list_lookup_fmap. destruct (R !! i) as [row|] eqn:Hi.
  - rewrite (proj2 (lookup_seq _ _ _ _)) by (split; [done|by eapply lookup_lt_Some]). simpl. f_equal. f_equal. rewrite (drop_concat _ _ _ HR), (drop_S _ _ _ Hi). simpl.
    apply take_app_length'. symmetry. by apply (Forall_lookup_1 _ _ _ _ HR Hi).
  - apply lookup_ge_None in Hi. by rewrite lookup_seq_ge by lia.
Qed.
Lemma zero_at_replicate a b n : (b ≤ n)%nat → zero_at (replicate n 0) a b.
Proof. intros H j Hj. apply lookup_replicate_2. lia. Qed.
Lemma seq_rows rows : Forall (λ r, (r < rows)%nat) (seq 0 rows).
Proof. apply Forall_lookup. intros i r [-> Hi]%lookup_seq. lia. Qed.
Section fixed.
Context (step rows : nat) (G : list group) (HG : Forall (fixed_group rows) G) (Hd : distinct_fields G) (Hfit : (total (g_type <$> G) + nulls (g_type <$> G) ≤ step)%nat).
Definition sorted : list group := sort_desc (type_size ∘ g_type) G.
Definition row_bytes (r : nat) : list Z := encode_row (g_type <$> sorted) 0 (total (g_type <$> G)) (row_vals sorted r) (replicate step 0).
Lemma sorted_perm : sorted ≡ₚ G.
Proof using. apply sort_desc_perm. Qed.
Lemma sorted_total : total (g_type <$> sorted) = total (g_type <$> G) ∧ nulls (g_type <$> sorted) = nulls (g_type <$> G).
Proof using. apply total_perm. by rewrite sorted_perm. Qed.
Lemma sorted_groups : Forall (fixed_group rows) sorted.
Proof using HG. by rewrite sorted_perm. Qed.
Lemma row_bytes_ok r : (r < rows)%nat → length (row_bytes r) = step ∧ Forall is_byte (row_bytes r) ∧
  row_holds (g_type <$> sorted) 0 (total (g_type <$> G)) (row_vals sorted r) (row_bytes r).
Proof using HG Hfit.
  intros Hr. destruct sorted_total as [Ht Hn]. pose proof (row_vals_ok rows sorted r sorted_groups Hr) as Hv.
  destruct (encode_row_frame _ 0 (total (g_type <$> G)) _ (replicate step 0) Hv) as (Hl & _ & Hb); [lia|rewrite length_replicate; lia|].
  split_and!; [unfold row_bytes; by rewrite Hl, length_replicate|apply Hb, Forall_replicate; unfold is_byte; lia|].
  apply encode_holds; [done|lia|rewrite length_replicate; lia|apply zero_at_replicate; lia|rewrite length_replicate; by apply zero_at_replicate].
Qed.
Lemma rows_size sel : Forall (λ r, (r < rows)%nat) sel → of_size step (row_bytes <$> sel).
Proof using HG Hfit. intros H. apply Forall_fmap. eapply Forall_impl; [exact H|]. intros r Hr. by apply row_bytes_ok. Qed.
Lemma fixed_build_ok : fixed_build_keys step (g_type <$> G) (g_column <$> G) rows = Ok ((from_le ∘ row_bytes) <$> seq 0 rows).
Proof using HG Hfit.
  destruct sorted_total as [Ht Hn]. unfold fixed_build_keys. rewrite sum_sizes_ok by (apply Forall_fmap; eapply Forall_impl; [exact HG|]; by intros g (_ & ? & _)). cbn [res_bind].
  assert (zip (g_type <$> G) (g_column <$> G) = (λ g, (g_type g, g_column g)) <$> G) as -> by apply zip_fmap_pair.
  rewrite sort_desc_fmap. change (sort_desc _ G) with sorted. rewrite concat_replicate. rewrite build_all_ok.
  - cbn [res_bind]. f_equal. rewrite imap_replicate. change (λ r, encode_row _ _ _ _ _) with row_bytes. pose proof (rows_size _ (seq_rows rows)) as Hs. rewrite list_fmap_compose.
    rewrite <-(mem_keys_rows _ _ Hs). by rewrite length_fmap, length_seq.
  - rewrite length_replicate. apply sorted_groups.
  - apply Forall_replicate. by rewrite length_replicate.
  - lia.
  - lia.
Qed.
Lemma fixed_finish_ok sel : sel ≠ [] → Forall (λ r, (r < rows)%nat) sel →
  ∃ cols, deserialize_group_columns step ((from_le ∘ row_bytes) <$> sel) (field <$> G) = Ok cols ∧ Forall2 (λ g c, column_rows (g_type g) c (g_values (select sel g))) G cols.
Proof using HG Hd Hfit.
  intros Hne Hsel. destruct sorted_total as [Ht Hn]. unfold deserialize_group_columns.
  assert (keys_mem step ((from_le ∘ row_bytes) <$> sel) = concat (row_bytes <$> sel)) as ->.
  { unfold keys_mem. f_equal. rewrite <-list_fmap_compose. apply list_fmap_ext. intros i r Hr. simpl. destruct (row_bytes_ok r) as (Hl & Hb & _); [by apply (Forall_lookup_1 _ _ _ _ Hsel Hr)|].
    rewrite <-Hl at 1. by apply le_bytes_from_le. }
  assert ((field <$> G).*2 = g_type <$> G) as -> by (by rewrite <-list_fmap_compose).
  rewrite sum_sizes_ok by (apply Forall_fmap; eapply Forall_impl; [exact HG|]; by intros g (_ & ? & _)). cbn [res_bind].
  rewrite sort_desc_fmap. change (sort_desc _ G) with sorted. rewrite length_fmap, <-(length_fmap row_bytes).
  assert (g_type <$> (select sel <$> sorted) = g_type <$> sorted) as Hts by (by rewrite <-list_fmap_compose).
  destruct (deserialize_fields_ok (select sel <$> sorted) 0 (total (g_type <$> G)) step (row_bytes <$> sel)) as (cols & Hcols & Hall).
  - by destruct sel.
  - by apply rows_size.
  - rewrite length_fmap. apply Forall_fmap. eapply Forall_impl; [exact sorted_groups|]. intros g Hg. by eapply fixed_typed.
  - rewrite Hts. lia.
  - rewrite Hts. lia.
  - rewrite Hts. intros i row (r & -> & Hr)%list_lookup_fmap_Some. rewrite (row_vals_select sel sorted i r Hr). by apply row_bytes_ok, (Forall_lookup_1 _ _ _ _ Hsel Hr).
  - assert ((λ g, (g_name g, g_type g)) <$> (select sel <$> sorted) = field <$> sorted) as Hfs by (by rewrite <-list_fmap_compose). rewrite Hfs in Hcols. rewrite Hcols. cbn [res_bind].
    eexists. split; [done|]. pose proof (sort_back (select sel <$> G) (select sel <$> sorted) cols) as Hback.
    assert (∀ H, field <$> (select sel <$> H) = field <$> H) as Hfield by (intros H; by rewrite <-list_fmap_compose). rewrite !Hfield in Hback.
    apply (Forall2_fmap_l (select sel) (λ g c, column_rows (g_type g) c (g_values g))). apply Hback; [by rewrite sorted_perm| |done].
    intros g g' (g0 & -> & H0)%list_elem_of_fmap (g1 & -> & H1)%list_elem_of_fmap Hf. simpl. by rewrite (Hd g0 g1).
Qed.
End fixed.
