(* ===== verification/SerialKeys.v ===== *)
(** * Serialized keys hold the values of their rows.

    Numbers of variable length, strings and the flags of null values are read back from the
    bytes of a key one after the other. *)
From S2P Require Import Prelude Column GroupKeys GroupKeysProps.
#[local] Open Scope Z_scope.

(** ** Numbers of variable length: put_uvarint and read_uvarint *)
Lemma byte_cases (P : Z → bool) : forallb (λ n, P (Z.of_nat n)) (seq 0 256) = true → ∀ m, 0 ≤ m < 256 → P m = true.
Proof.
  intros H m Hm. rewrite <-(Z2Nat.id m) by lia. rewrite forallb_forall in H. apply H. apply in_seq. lia.
Qed.
Lemma varint_byte m : 0 ≤ m < 256 → Z.lor m 0x80 = 128 + m `mod` 128 ∧ Z.land (Z.lor m 0x80) 0x7f = m `mod` 128.
Proof.
  intros Hm. pose proof (byte_cases (λ m, (Z.lor m 0x80 =? 128 + m `mod` 128) && (Z.land (Z.lor m 0x80) 0x7f =? m `mod` 128)) ltac:(vm_compute; reflexivity) m Hm) as H.
  apply andb_true_iff in H as [H1%Z.eqb_eq H2%Z.eqb_eq]. done.
Qed.
Lemma lor_shift x n s : 0 ≤ s → 0 ≤ x < 2 ^ s → 0 ≤ n → n * 2 ^ s < 2 ^ 64 → Z.lor x (Z.shiftl n s `mod` 2 ^ 64) = x + n * 2 ^ s.
Proof.
  intros Hs Hx Hn Hlt. pose proof (Z.pow_pos_nonneg 2 s). rewrite Z.shiftl_mul_pow2, Z.mod_small by nia.
  assert (Z.land x (n * 2 ^ s) = 0) as Hland.
  { apply Z.bits_inj'. intros j Hj. rewrite Z.land_spec, Z.bits_0. destruct (Z.lt_ge_cases j s).
    - rewrite (Z.mul_pow2_bits_low n s j) by lia. apply andb_false_r.
    - rewrite <-(Z.mod_small x (2 ^ s)), Z.mod_pow2_bits_high by lia. done. }
  by rewrite <-Z.lxor_lor, Z.add_nocarry_lxor.
Qed.
Lemma put_uvarint_ok room n : 0 ≤ n < 2 ^ (7 * Z.of_nat room) → (0 < room)%nat → ∃ bytes, put_uvarint room n = Ok bytes ∧ Forall is_byte bytes.
Proof.
  revert n. induction room as [|room IH]; intros n Hn Hr; [lia|]. cbn [put_uvarint]. destruct (Z.leb_spec 0x80 n) as [Hge|Hlt].
  - assert (2 ^ (7 * Z.of_nat (S room)) = 128 * 2 ^ (7 * Z.of_nat room)) as Hp by (rewrite Nat2Z.inj_succ, Z.mul_succ_r, Z.add_comm, Z.pow_add_r by lia; done).
    assert (0 < room)%nat by (destruct room; [change (2 ^ (7 * Z.of_nat 1)) with 128 in Hn; lia|lia]).
    destruct (IH (Z.shiftr n 7)) as (bytes & -> & Hb); [rewrite Z.shiftr_div_pow2 by lia; change (2 ^ 7) with 128; split; [apply Z.div_pos; lia|apply Z.div_lt_upper_bound; lia]|done|].
    exists (Z.lor (n `mod` 256) 128 :: bytes). split; [done|]. constructor; [|done]. pose proof (Z.mod_pos_bound n 256). unfold is_byte.
    rewrite (proj1 (varint_byte (n `mod` 256) ltac:(lia))). pose proof (Z.mod_pos_bound (n `mod` 256) 128). lia.
  - exists [n `mod` 256]. split; [done|]. constructor; [apply Z.mod_pos_bound; lia|done].
Qed.
Lemma read_put room i x n bytes rest :
  (i + room = 10)%nat → 0 ≤ x < 2 ^ (7 * Z.of_nat i) → 0 ≤ n → n * 2 ^ (7 * Z.of_nat i) < 2 ^ 64 → put_uvarint room n = Ok bytes →
  read_uvarint x (7 * Z.of_nat i) (Z.of_nat i) (bytes ++ rest) = Ok (x + n * 2 ^ (7 * Z.of_nat i), rest).
Proof.
  revert i x n bytes. induction room as [|room IH]; intros i x n bytes Hi Hx Hn Hlt; [done|]. cbn [put_uvarint]. set (s := 7 * Z.of_nat i) in *.
  pose proof (Z.pow_pos_nonneg 2 s ltac:(lia) ltac:(lia)) as Hs. destruct (Z.leb_spec 0x80 n) as [Hge|Hsmall].
  - assert (s + 7 < 64) as Hs64 by (apply (Z.pow_lt_mono_r_iff 2); [lia..|]; rewrite Z.pow_add_r by lia; change (2 ^ 7) with 128; nia).
    destruct (put_uvarint room (Z.shiftr n 7)) as [bytes'| |] eqn:Hput; try done. cbn [res_bind]. intros [= <-]. cbn [app read_uvarint].
    destruct (varint_byte (n `mod` 256)) as [Hb1 Hb2]; [apply Z.mod_pos_bound; lia|]. rewrite Hb2. pose proof (Z.mod_pos_bound (n `mod` 256) 128 ltac:(lia)) as Hm.
    rewrite (proj2 (Z.ltb_ge _ _)) by lia. rewrite (proj2 (Z.leb_gt _ _)) by lia.
    assert ((n `mod` 256) `mod` 128 = n `mod` 128) as Hmm by (apply Z.mod_mod_divide; by exists 2). rewrite Hmm in *.
    assert (2 ^ (7 * Z.of_nat (S i)) = 128 * 2 ^ s) as Hp by (unfold s; rewrite Nat2Z.inj_succ, Z.mul_succ_r, Z.add_comm, Z.pow_add_r by lia; done).
    pose proof (Z.div_mod n 128 ltac:(lia)) as Hdm. rewrite lor_shift by nia. rewrite Z.shiftr_div_pow2 in Hput by lia. change (2 ^ 7) with 128 in Hput.
    replace (s + 7) with (7 * Z.of_nat (S i)) by (unfold s; lia). replace (Z.of_nat i + 1) with (Z.of_nat (S i)) by lia.
    rewrite (IH (S i) _ (n / 128) bytes'); [|lia|rewrite Hp; nia|apply Z.div_pos; lia|rewrite Hp; nia|done]. do 2 f_equal. rewrite Hp. nia.
  - intros [= <-]. rewrite Z.mod_small by lia. cbn [app read_uvarint]. rewrite (proj2 (Z.ltb_lt _ _)) by lia.
    assert ((Z.of_nat i =? 9) && (1 <? n) = false) as ->.
    { apply andb_false_iff. destruct (Z.eqb_spec (Z.of_nat i) 9) as [H9|]; [right|by left]. apply Z.ltb_ge. unfold s in Hlt. rewrite H9 in Hlt. change (2 ^ (7 * 9)) with (2 ^ 63) in Hlt. lia. }
    rewrite (proj2 (Z.leb_gt _ _)) by (unfold s; lia). by rewrite lor_shift by lia.
Qed.

(** ** Strings *)
Lemma bytes_of_string_ok s : length (bytes_of_string s) = String.length s ∧ Forall is_byte (bytes_of_string s) ∧ string_of_bytes (bytes_of_string s) = s.
Proof.
  induction s as [|a s (Hl & Hb & Hs)]; [done|]. unfold bytes_of_string, string_of_bytes in *. cbn [String.list_ascii_of_string fmap list_fmap length String.length]. split_and!.
  - by f_equal.
  - constructor; [|done]. unfold is_byte. simpl. pose proof (Ascii.N_ascii_bounded a). lia.
  - cbn [String.string_of_list_ascii]. f_equal; [|exact Hs]. simpl. by rewrite N2Z.id, Ascii.ascii_N_embedding.
Qed.
Lemma string_of_bytes_ok l : Forall is_byte l → bytes_of_string (string_of_bytes l) = l.
Proof.
  intros Hl. unfold bytes_of_string, string_of_bytes. rewrite String.list_ascii_of_string_of_list_ascii, <-list_fmap_compose. induction Hl as [|b l Hb _ IH]; [done|]. rewrite fmap_cons. f_equal; [|exact IH].
  simpl. unfold is_byte in Hb. rewrite Ascii.N_ascii_embedding by lia. lia.
Qed.

(** ** The bytes of a field *)
Lemma write_value_ok t v : scalar_ok t v → ∃ bytes, write_value t v = Ok bytes ∧ Forall is_byte bytes ∧ ∀ rest, de_value t (bytes ++ rest) = Ok (v, rest).
Proof.
  intros Hv. destruct (decide (t = T_String)) as [->|Ht].
  - destruct v as [b|n|f|x]; simpl in Hv; [done|by destruct Hv|by destruct Hv as [[]|[]]|]. destruct Hv as [_ Hlen]. destruct (bytes_of_string_ok x) as (Hl & Hb & Hs).
    destruct (put_uvarint_ok MAX_VARINT_LEN64 (Z.of_nat (String.length x))) as (len & Hlen' & Hlb); [change (2 ^ (7 * Z.of_nat MAX_VARINT_LEN64)) with (2 ^ 70); lia|unfold MAX_VARINT_LEN64; lia|].
    exists (len ++ bytes_of_string x). unfold write_value. rewrite Hlen'. split_and!; [done|by apply Forall_app|]. intros rest. unfold de_value. rewrite <-app_assoc.
    pose proof (read_put MAX_VARINT_LEN64 0 0 (Z.of_nat (String.length x)) len (bytes_of_string x ++ rest)) as Hread.
    change (2 ^ (7 * Z.of_nat 0)) with 1 in Hread. change (7 * Z.of_nat 0) with 0 in Hread. change (Z.of_nat 0) with 0 in Hread. rewrite Hread; [|done|lia|lia|lia|done]. cbn [res_bind].
    rewrite Z.mul_1_r, Z.add_0_l, Nat2Z.id, <-Hl, (proj2 (Nat.ltb_ge _ _)) by (rewrite length_app; lia).
    by rewrite take_app_length, drop_app_length, Hs.
  - exists (marshal t v). destruct (marshal_ok t v Hv Ht) as (_ & Hb & _). assert (write_value t v = Ok (marshal t v)) as -> by (destruct v; [done..|]; by destruct Hv).
    split_and!; [done|done|]. intros rest. assert (de_value t (marshal t v ++ rest) = de_scalar t (marshal t v ++ rest)) as -> by (by destruct t). by apply de_scalar_ok.
Qed.
Definition value_bytes (t : TypeID) (v : Scalar) : list Z := match write_value t v with Ok bytes => bytes | _ => [] end.
Definition field_bytes (t : DataType) (v : option Scalar) : list Z :=
  (if type_nullable t then [Z.b2z (bool_decide (is_Some v))] else []) ++ match v with Some s => value_bytes (inner_id t) s | None => [] end.
Definition field_value (t : DataType) (v : option Scalar) : Scalar := default (default (SInt 0) (scalar_default <$> physical_kind (inner_id t))) v.
(** A value of the type, null only where it may be. *)
Definition opt_ok (t : DataType) (v : option Scalar) : Prop := match v with Some s => scalar_ok (inner_id t) s | None => type_nullable t = true end.
Lemma value_bytes_ok t v : scalar_ok t v → write_value t v = Ok (value_bytes t v) ∧ Forall is_byte (value_bytes t v) ∧ ∀ rest, de_value t (value_bytes t v ++ rest) = Ok (v, rest).
Proof. intros Hv. unfold value_bytes. destruct (write_value_ok t v Hv) as (bytes & -> & ? & ?). done. Qed.
Lemma field_bytes_byte t v : opt_ok t v → Forall is_byte (field_bytes t v).
Proof.
  intros Hv. unfold field_bytes. apply Forall_app. split.
  - destruct (type_nullable t); [|done]. constructor; [|done]. unfold is_byte. case_bool_decide; simpl; lia.
  - destruct v as [s|]; [by apply value_bytes_ok|done].
Qed.
Lemma de_binary_ok t v rest : opt_ok t v → de_binary t (field_bytes t v ++ rest) = Ok (bool_decide (is_Some v), field_value t v, rest).
Proof.
  intros Hv. unfold de_binary, field_bytes. destruct (type_nullable t) eqn:Ht.
  - destruct v as [s|]; simpl in Hv.
    + destruct (value_bytes_ok _ _ Hv) as (_ & _ & Hd). unfold read_scalar. simpl. rewrite drop_0, Hd. done.
    + unfold read_scalar. simpl. by rewrite drop_0.
  - destruct v as [s|]; simpl in Hv; [|congruence]. destruct (value_bytes_ok _ _ Hv) as (_ & _ & Hd). simpl. by rewrite Hd.
Qed.

(** ** The keys of all rows *)
Lemma serialize_rows_ok t rows keys :
  length rows = length keys → Forall (λ x : Scalar * option bool, type_nullable t = bool_decide (is_Some x.2) ∧ (default true x.2 = true → scalar_ok (inner_id t) x.1)) rows →
  serialize_rows (inner_id t) rows keys = Ok (zip_with (λ k x, k ++ field_bytes t (opt_value (default true x.2) x.1)) keys rows).
Proof.
  revert keys. induction rows as [|[s valid] rows IH]; intros [|vec keys] Hl Hrows; try done. apply Forall_cons in Hrows as [[Hn Hok] Hrows]. cbn [serialize_rows zip_with].
  rewrite IH by (done || by injection Hl). simpl in Hn, Hok. unfold field_bytes. rewrite Hn. destruct valid as [[|]|]; simpl.
  - destruct (value_bytes_ok _ _ (Hok eq_refl)) as (-> & _). done.
  - done.
  - destruct (value_bytes_ok _ _ (Hok eq_refl)) as (-> & _). done.
Qed.
Definition append_rows (t : DataType) (keys : list (list Z)) (vs : list (option Scalar)) : list (list Z) := zip_with (λ k v, k ++ field_bytes t v) keys vs.
Lemma series_serialize_ok t c vs keys :
  column_rows t c vs → length vs = length keys → series_serialize 2 (inner_id t) c keys None = Ok (append_rows t keys vs).
Proof.
  intros (Hn & Hok & k & Hk & Hc) Hl. unfold append_rows. destruct (type_nullable t) eqn:Ht.
  - destruct Hc as (v & inner & l & Hfull & Hinner & Hlen & ->). rewrite length_zip_with in Hl. cbn [series_serialize]. rewrite Hfull. cbn [is_nullable validity snd combine_validities remove_nullable].
    destruct (scalars_full _ _ _ Hinner) as (-> & -> & ->). rewrite Hk, Hinner. cbn [ok_or res_bind]. unfold group_serialize. rewrite (proj2 (Nat.eqb_eq _ _)) by lia. cbn [negb].
    rewrite serialize_rows_ok; [|rewrite length_zip, length_fmap; lia|].
    + f_equal. clear -Hlen. revert l v Hlen. induction keys as [|key keys IH]; intros [|s l] [|b v] Hlen; try done. simpl. f_equal. apply IH. by injection Hlen.
    + apply Forall_lookup. intros i [s valid] [Hs Hb]%lookup_zip_Some. apply list_lookup_fmap_Some in Hb as (b & -> & Hb). split; [done|]. simpl. intros ->.
      apply (Forall_lookup_1 _ _ i (Some s) Hok); [|done]. by rewrite lookup_zip_with, Hb, Hs.
  - destruct Hc as (l & Hfull & ->). rewrite length_fmap in Hl. destruct (scalars_full _ _ _ Hfull) as (Hff & Hfn & Hfr). cbn [series_serialize]. rewrite Hfn, Hfr, Hk, Hfull.
    cbn [ok_or res_bind]. unfold group_serialize. rewrite (proj2 (Nat.eqb_eq _ _)) by lia. cbn [negb]. rewrite serialize_rows_ok; [|by rewrite length_fmap|].
    + f_equal. clear. revert l. induction keys as [|key keys IH]; intros [|s l]; try done. simpl. f_equal. apply IH.
    + apply Forall_fmap, Forall_lookup. intros i s Hi. split; [done|]. intros _. simpl. apply (Forall_lookup_1 _ _ i (Some s) Hok); [|done]. by rewrite list_lookup_fmap, Hi.
Qed.
Definition serial_group (rows : nat) (g : group) : Prop := column_rows (g_type g) (g_column g) (g_values g) ∧ length (g_values g) = rows.
Definition row_code (G : list group) (r : nat) : list Z := concat ((λ g, field_bytes (g_type g) (default None (g_values g !! r))) <$> G).
Lemma serialize_all_ok G keys :
  Forall (serial_group (length keys)) G → serialize_all ((λ g, (g_type g, g_column g)) <$> G) keys = Ok (imap (λ r key, key ++ row_code G r) keys).
Proof.
  revert keys. induction G as [|g G IH]; intros keys HG.
  { cbn [fmap list_fmap serialize_all]. f_equal. symmetry. rewrite <-(list_fmap_id keys) at 2. rewrite <-imap_const. apply imap_ext. intros i key _. apply app_nil_r. }
  apply Forall_cons in HG as [[Hc Hl] HG]. rewrite fmap_cons. cbn [serialize_all fst snd]. rewrite (series_serialize_ok _ _ _ _ Hc Hl). cbn [res_bind].
  rewrite IH by (unfold append_rows; by rewrite length_zip_with, Hl, Nat.min_id). f_equal. unfold append_rows. rewrite (imap_zip_with _ _ _ _ None) by done. apply imap_ext.
  intros r key _. unfold row_code. rewrite fmap_cons. cbn [concat]. by rewrite app_assoc.
Qed.
Lemma deserialize_serialized_ok G rows :
  Forall (λ g, length (g_values g) = rows ∧ Forall (opt_ok (g_type g)) (g_values g) ∧ is_Some (physical_kind (inner_id (g_type g)))) G →
  ∃ cols, deserialize_serialized (g_type <$> G) (row_code G <$> seq 0 rows) = Ok cols ∧ Forall2 (λ g c, column_rows (g_type g) c (g_values g)) G cols.
Proof.
  induction G as [|g G IH]; intros HG; [by exists []|]. apply Forall_cons in HG as [(Hl & Hok & k & Hk) HG]. destruct (IH HG) as (cols & Hcols & Hall).
  rewrite fmap_cons. cbn [deserialize_serialized]. set (t := g_type g) in *.
  assert (res_mapM (de_binary t) (row_code (g :: G) <$> seq 0 rows) = Ok ((λ r, (bool_decide (is_Some (default None (g_values g !! r))), field_value t (default None (g_values g !! r)), row_code G r)) <$> seq 0 rows)) as ->.
  { apply res_mapM_ok, Forall2_fmap, Forall_Forall2_diag, Forall_lookup. intros i r [-> Hr]%lookup_seq. rewrite Nat.add_0_l. unfold row_code. rewrite fmap_cons. cbn [concat].
    apply de_binary_ok. destruct (lookup_lt_is_Some_2 (g_values g) i) as [v Hv]; [lia|]. rewrite Hv. by apply (Forall_lookup_1 _ _ _ _ Hok Hv). }
  cbn [res_bind]. rewrite <-!list_fmap_compose. change ((snd ∘ _) <$> seq 0 rows) with (row_code G <$> seq 0 rows). rewrite Hcols. cbn [res_bind]. eexists. split; [done|]. constructor; [|done].
  assert (∀ {A} (f : option Scalar → A), (λ r, f (default None (g_values g !! r))) <$> seq 0 rows = f <$> g_values g) as Hseq.
  { intros A f. rewrite <-Hl. apply list_eq. intros i. rewrite !list_lookup_fmap. destruct (g_values g !! i) as [v|] eqn:Hv.
    - rewrite (proj2 (lookup_seq _ _ _ _)) by (split; [done|by eapply lookup_lt_Some]). simpl. by rewrite Hv.
    - apply lookup_ge_None in Hv. by rewrite lookup_seq_ge by lia. }
  pose proof (Hseq _ (λ v, bool_decide (is_Some v))) as Hbits. pose proof (Hseq _ (field_value t)) as Hvals. cbv beta in Hbits, Hvals.
  match goal with |- column_rows _ (if _ then NullableColumn ?b (finish_to_column _ ?l) else _) _ => assert (b = (λ v, bool_decide (is_Some v)) <$> g_values g) as -> by exact Hbits; assert (l = field_value t <$> g_values g) as -> by exact Hvals end.
  apply (finish_rows t k); [done|done| |by rewrite !length_fmap|].
  - apply Forall_fmap. eapply Forall_impl; [exact Hok|]. intros v Hv k' Hk'. rewrite Hk in Hk'. injection Hk' as <-. simpl. unfold field_value. rewrite Hk.
    destruct v as [s|]; simpl; [by eapply scalar_ok_kind|by destruct k].
  - clear Hl Hseq Hbits Hvals. induction Hok as [|v vs Hv _ IHv]; [by destruct (type_nullable t)|]. destruct (type_nullable t) eqn:Ht; rewrite !fmap_cons; cbn [zip_with]; rewrite IHv at 1; f_equal.
    + by destruct v.
    + destruct v; [done|]. simpl in Hv. congruence.
Qed.
Lemma row_code_byte rows G r : Forall (serial_group rows) G → (r < rows)%nat → Forall is_byte (row_code G r).
Proof.
  intros HG Hr. unfold row_code. apply Forall_concat, Forall_fmap. eapply Forall_impl; [exact HG|]. intros g [Hc Hl]. simpl. apply field_bytes_byte.
  destruct (lookup_lt_is_Some_2 (g_values g) r) as [v Hv]; [lia|]. rewrite Hv. simpl. destruct v as [s|]; simpl; [|by eapply column_rows_valid].
  destruct Hc as (_ & Hok & _). by apply (Forall_lookup_1 _ _ r (Some s) Hok).
Qed.
Lemma serial_typed rows sel g : serial_group rows g → Forall (λ r, (r < rows)%nat) sel →
  length (g_values (select sel g)) = length sel ∧ Forall (opt_ok (g_type g)) (g_values (select sel g)) ∧ is_Some (physical_kind (inner_id (g_type g))).
Proof.
  intros [Hc Hl] Hsel. split_and!; [simpl; by rewrite length_fmap| |destruct Hc as (_ & _ & k & Hk & _); by exists k]. simpl. apply Forall_fmap. eapply Forall_impl; [exact Hsel|]. intros r Hr. cbv beta in Hr.
  simpl. destruct (lookup_lt_is_Some_2 (g_values g) r) as [v Hv]; [lia|]. rewrite Hv. simpl. destruct v as [s|]; simpl; [|by eapply column_rows_valid].
  destruct Hc as (_ & Hok & _). by apply (Forall_lookup_1 _ _ r (Some s) Hok).
Qed.
(** The keys as the strings that the column of keys holds. *)
Definition serial_build_keys (types : list DataType) (group_columns : list Column) (rows : nat) : res agg_error (list string) :=
  res_map (fmap string_of_bytes) (serializer_build_keys types group_columns rows).
Definition serial_finish (types : list DataType) (keys : list string) : res agg_error (list Column) := deserialize_serialized types (bytes_of_string <$> keys).
(** Any choice of the keys is read back as the values of the rows. *)
Lemma serial_finish_ok G rows sel : Forall (serial_group rows) G → Forall (λ r, (r < rows)%nat) sel →
  ∃ cols, serial_finish (g_type <$> G) ((string_of_bytes ∘ row_code G) <$> sel) = Ok cols ∧ Forall2 (λ g c, column_rows (g_type g) c (g_values (select sel g))) G cols.
Proof.
  intros HG Hsel. unfold serial_finish. assert (bytes_of_string <$> ((string_of_bytes ∘ row_code G) <$> sel) = row_code G <$> sel) as ->.
  { rewrite <-list_fmap_compose. apply list_fmap_ext. intros i r Hr. apply string_of_bytes_ok, (row_code_byte rows); [done|]. by apply (Forall_lookup_1 _ _ _ _ Hsel Hr). }
  destruct (deserialize_serialized_ok (select sel <$> G) (length sel)) as (cols & Hcols & Hall).
  { apply Forall_fmap. eapply Forall_impl; [exact HG|]. intros g Hg. exact (serial_typed rows sel g Hg Hsel). }
  exists cols. split; [|by apply Forall2_fmap_l in Hall]. rewrite <-Hcols. f_equal; [by rewrite <-list_fmap_compose|].
  apply list_eq. intros i. rewrite !list_lookup_fmap. destruct (sel !! i) as [r|] eqn:Hi; [|apply lookup_ge_None in Hi; by rewrite lookup_seq_ge by lia].
  rewrite (proj2 (lookup_seq _ _ _ _)) by (split; [done|by eapply lookup_lt_Some]). simpl. f_equal. unfold row_code. rewrite <-list_fmap_compose. f_equal. apply list_fmap_ext.
  intros _ g _. simpl. by rewrite list_lookup_fmap, Hi.
Qed.
