(* ===== verification/AggFunction.v ===== *)
(** * Aggregate functions (src/common/functions/src/aggregates).

    The state of an aggregate function lives at an address; the functions read and write it
    through raw pointers.  The memory of an aggregator is a map from addresses to the
    objects stored there.  An object of one 64-bit field is a word, whatever its Rust type,
    so a pointer of the wrong type to it reads the word; any other access at the wrong type,
    or where nothing is stored, is undefined and shown as [Panic]. *)
From S2P Require Import Prelude Column.
#[local] Open Scope Z_scope.

(** ** Memory: aggregate_function_state.rs *)
Inductive Obj :=
  | OByte (b : Z)
  | OWord (n : Z)
  | OAvg (value count : Z)
  | OOpt (value : option Scalar)
  | OSet (set : list (list Scalar)).
Abbreviation heap := (gmap Z Obj).
Definition AM (A : Type) : Type := M heap agg_error A.

Definition get_byte (a : Z) : AM Z := λ h, match h !! a with Some (OByte b) => (Ok b, h) | _ => (Panic, h) end.
Definition get_word (a : Z) : AM Z := λ h, match h !! a with Some (OWord n) => (Ok n, h) | _ => (Panic, h) end.
Definition get_avg (a : Z) : AM (Z * Z) := λ h, match h !! a with Some (OAvg v c) => (Ok (v, c), h) | _ => (Panic, h) end.
Definition get_opt (a : Z) : AM (option Scalar) := λ h, match h !! a with Some (OOpt v) => (Ok v, h) | _ => (Panic, h) end.
Definition get_set (a : Z) : AM (list (list Scalar)) := λ h, match h !! a with Some (OSet s) => (Ok s, h) | _ => (Panic, h) end.
Definition write (a : Z) (o : Obj) : AM unit := λ h, (Ok tt, <[a:=o]> h).
(** [drop_in_place]: the object at the address is gone. *)
Definition drop_in_place (a : Z) : AM unit := λ h, match h !! a with Some _ => (Ok tt, delete a h) | None => (Panic, h) end.

(** [StateAddr::next]. *)
Definition next (place offset : Z) : Z := place + offset.

Record Layout := mkLayout { l_size : Z; l_align : Z }.
(** [Layout::from_size_align]: the alignment is a power of two and the size, rounded up, is not too large. *)
Definition is_power_of_two (n : Z) : bool := (0 <? n) && (Z.land n (n - 1) =? 0).
Definition from_size_align (size align : Z) : res agg_error Layout :=
  if is_power_of_two align && (size <=? 2 ^ 63 - align) then Ok (mkLayout size align) else Err LayoutError.

(** ** The interface of a function *)
Record AggregateFunction := mkFunction {
  state_layout : Layout;
  init_state : Z → AM unit;
  accumulate : Z → list Column → option (list bool) → nat → AM unit;
  accumulate_keys : list Z → Z → list Column → nat → AM unit;
  accumulate_row : Z → list Column → nat → AM unit;
  serialize : Z → AM string;
  deserialize : Z → string → AM string;
  merge : Z → Z → AM unit;
  merge_result : Z → AM (option Scalar);
  need_manual_drop_state : bool;
  drop_state : Z → AM unit;
  convert_const_to_full : bool;
}.

(** The offsets of the states of several functions in one allocation, with its layout.  The sums of the sizes, which are those of
    a few words for each function of a query, stay far below the bound of [usize]. *)
Fixpoint layout_loop (funcs : list AggregateFunction) (max_align total_size : Z) : list Z * Z * Z :=
  match funcs with
  | [] => ([], max_align, total_size)
  | func :: funcs =>
      let layout := state_layout func in
      let align := l_align layout in
      let total_size := (total_size + align - 1) `div` align * align in
      let '(offsets, m, t) := layout_loop funcs (Z.max max_align align) (total_size + l_size layout) in
      (total_size :: offsets, m, t)
  end.
Definition get_layout_offsets (funcs : list AggregateFunction) : res agg_error (list Z * Layout) :=
  let '(offsets, max_align, total_size) := layout_loop funcs 0 0 in
  let? layout := from_size_align total_size max_align in Ok (offsets, layout).

(** ** Bytes *)

(** The crate bincode: values of a type to bytes and back. *)
Class Bincode (A : Type) := { bin_ser : A → string; bin_de : string → option (A * string) }.
#[global] Hint Mode Bincode ! : typeclass_instances.
Definition deserialize_from_slice {A} `{!Bincode A} (reader : string) : AM (A * string) := lift (ok_or (bin_de reader) BadBytes).
(** [write_scalar] and [read_scalar] of a flag. *)
Definition write_flag (b : bool) : string := String (if b then Ascii.one else Ascii.zero) EmptyString.
Definition read_flag (reader : string) : AM (bool * string) :=
  lift match reader with
       | EmptyString => Err BadBytes
       | String c r => Ok (negb (bool_decide (c = Ascii.zero)), r)
       end.

(** The layouts that the compiler chooses. *)
Class Layouts := { scalar_state_layout : Layout; distinct_state_layout : Layout }.

(** [columns[0]]. *)
Definition column0 (columns : list Column) : AM Column := lift (unwrap (columns !! 0%nat)).

Section functions.
Context `{!Bincode Z, !Bincode (Z * Z), !Bincode (option Scalar), !Bincode (list (list Scalar)), !Layouts}.

(** ** count: aggregate_count.rs *)
Definition u64_wrap (n : Z) : Z := n `mod` 2 ^ 64.
Definition count_add (place n : Z) : AM unit := let! count := get_word place in write place (OWord (u64_wrap (count + n))).
(** Without a bitmap the offset of the state is not added to the place. *)
Definition count_keys (places : list Z) (offset : Z) (columns : list Column) : AM unit :=
  let v := match columns with [] => None | c :: _ => (validity c).2 end in
  match v with
  | Some v => forM (zip v places) (λ '(valid, place), if (valid : bool) then count_add (next place offset) 1 else ret tt)
  | None => forM places (λ place, count_add place 1)
  end.
Definition count_function : AggregateFunction := {|
  state_layout := mkLayout 8 8;
  init_state place := write place (OWord 0);
  accumulate place _ validity input_rows :=
    let nulls := match validity with Some b => null_count b | None => 0%nat end in
    count_add place (Z.of_nat input_rows - Z.of_nat nulls);
  accumulate_keys places offset columns _ := count_keys places offset columns;
  accumulate_row place _ _ := count_add place 1;
  serialize place := let! count := get_word place in ret (bin_ser count);
  deserialize place reader :=
    get_word place ;;!
    let! ' (count, reader) := deserialize_from_slice reader in write place (OWord count) ;;! ret reader;
  merge place rhs := let! count := get_word place in let! r := get_word rhs in write place (OWord (u64_wrap (count + r)));
  merge_result place := let! count := get_word place in ret (Some (SInt count));
  need_manual_drop_state := false;
  drop_state _ := ret tt;
  convert_const_to_full := true |}.

(** ** sum: aggregate_sum.rs *)

(** The sum is an [i64] or a [u64]; its word is that of the sum modulo 2^64. *)
Definition of_word (signed : bool) (n : Z) : Z := if signed && (2 ^ 63 <=? n) then n - 2 ^ 64 else n.
Definition sum_add (place other : Z) : AM unit := let! v := get_word place in write place (OWord (u64_wrap (v + other))).
Definition bool_to_u8 (b : bool) : Z := if b then 1 else 0.
(** [default_column_cast] of a boolean column to [u8]. *)
Definition cast_boolean (c : Column) : Column := match c with BooleanColumn l => PrimitiveColumn (bool_to_u8 <$> l) | _ => c end.
Definition sum_primitive (column : Column) (validity : option (list bool)) : AM Z :=
  let! inner := lift (check_get_int column) in
  ret match validity with
      | Some v => foldl (λ sum '(t, b), if (b : bool) then u64_wrap (sum + t) else sum) 0 (zip inner v)
      | None => foldl (λ sum t, u64_wrap (sum + t)) 0 inner
      end.
Definition sum_function (signed : bool) : AggregateFunction := {|
  state_layout := mkLayout 8 8;
  init_state place := write place (OWord 0);
  accumulate place columns validity _ :=
    let! c := column0 columns in
    let! value := sum_primitive (cast_boolean c) validity in
    sum_add place value;
  accumulate_keys places offset columns _ :=
    let! c := column0 columns in
    let! darray := lift (static_cast_int (cast_boolean c)) in
    forM (zip darray places) (λ '(c, place), sum_add (next place offset) c);
  accumulate_row place columns row :=
    let! c := column0 columns in
    let! column := lift (static_cast_int (cast_boolean c)) in
    let! v := lift (unwrap (column !! row)) in sum_add place v;
  serialize place := let! value := get_word place in ret (bin_ser value);
  deserialize place reader :=
    get_word place ;;!
    let! ' (value, reader) := deserialize_from_slice reader in write place (OWord value) ;;! ret reader;
  merge place rhs := let! r := get_word rhs in sum_add place r;
  merge_result place := let! value := get_word place in ret (Some (SInt (of_word signed value)));
  need_manual_drop_state := false;
  drop_state _ := ret tt;
  convert_const_to_full := true |}.

(** ** avg: aggregate_avg.rs *)
Definition avg_add (place value count : Z) : AM unit :=
  let! ' (v, c) := get_avg place in write place (OAvg (u64_wrap (v + value)) (u64_wrap (c + count))).
(** [n as f64], rounded to the nearest; the division of [f64]. *)
Definition f64_of_int (n : Z) : spec_float := binary_normalize 53 1024 n 0 false.
Definition f64_div : spec_float → spec_float → spec_float := SFdiv 53 1024.
Definition avg_function (signed : bool) : AggregateFunction := {|
  state_layout := mkLayout 16 8;
  init_state place := write place (OAvg 0 0);
  accumulate place columns validity input_rows :=
    let! c := column0 columns in
    let! sum := sum_primitive (cast_boolean c) validity in
    let nulls := match validity with Some b => null_count b | None => 0%nat end in
    avg_add place sum (Z.of_nat input_rows - Z.of_nat nulls);
  accumulate_keys places offset columns _ :=
    let! c := column0 columns in
    let! array := lift (static_cast_int (cast_boolean c)) in
    forM (zip array places) (λ '(v, place), avg_add (next place offset) v 1);
  accumulate_row place columns row :=
    let! c := column0 columns in
    let! array := lift (static_cast_int c) in
    let! v := lift (unwrap (array !! row)) in avg_add place v 1;
  serialize place := let! state := get_avg place in ret (bin_ser state);
  deserialize place reader :=
    get_avg place ;;!
    let! ' (v, c, reader) := deserialize_from_slice reader in write place (OAvg v c) ;;! ret reader;
  merge place rhs := let! ' (v, c) := get_avg rhs in avg_add place v c;
  merge_result place := let! ' (v, c) := get_avg place in ret (Some (SFloat (of_num (f64_div (f64_of_int (of_word signed v)) (f64_of_int c)))));
  need_manual_drop_state := false;
  drop_state _ := ret tt;
  convert_const_to_full := true |}.

(** ** min, max, any: aggregate_scalar_state.rs, aggregate_min_max.rs *)

(** [partial_cmp] of two values of one type. *)
Definition scalar_cmp (l r : Scalar) : option comparison :=
  match l, r with
  | SBool a, SBool b => Some (Z.compare (bool_to_u8 a) (bool_to_u8 b))
  | SInt a, SInt b => Some (Z.compare a b)
  | SFloat a, SFloat b => SFcompare (num a) (num b)
  | SStr a, SStr b => Some (String.compare a b)
  | _, _ => None
  end.
Inductive ChangeIf := CmpMin | CmpMax | CmpAny.
Definition change_if (c : ChangeIf) (l r : Scalar) : bool :=
  match c with
  | CmpMin => bool_decide (default Eq (scalar_cmp l r) = Gt)
  | CmpMax => bool_decide (default Eq (scalar_cmp l r) = Lt)
  | CmpAny => false
  end.
Definition state_add (c : ChangeIf) (value : option Scalar) (other : Scalar) : option Scalar :=
  match value with
  | Some a => if change_if c a other then Some other else value
  | None => Some other
  end.
(** The rows that are null in the column itself are left out; the bitmap serves only to see that there is something to add. *)
Definition add_batch (t : TypeKind) (c : ChangeIf) (value : option Scalar) (column : Column) (validity : option (list bool))
    : res agg_error (option Scalar) :=
  match validity with
  | Some bit =>
      if (null_count bit =? col_len column)%nat then Ok value
      else
        let? items := viewer_items t column in
        let v := foldl (λ v '(row, data),
          if null_at column row then v
          else match v with Some a => if change_if c a data then Some data else v | None => Some data end) None
          (zip (seq 0 (length items)) items) in
        Ok match v with Some v => state_add c value v | None => value end
  | None =>
      let? items := scalar_iter t column in
      Ok match items with
         | [] => value
         | a :: items => state_add c value (foldl (λ a b, if negb (change_if c a b) then a else b) a items)
         end
  end.
Definition minmax_function (t : TypeKind) (c : ChangeIf) : AggregateFunction := {|
  state_layout := scalar_state_layout;
  init_state place := write place (OOpt None);
  accumulate place columns validity _ :=
    let! value := get_opt place in
    let! col := column0 columns in
    let! value := lift (add_batch t c value col validity) in write place (OOpt value);
  accumulate_keys places offset columns _ :=
    let! col := column0 columns in
    let! items := lift (scalar_iter t col) in
    forM (zip items places) (λ '(item, place),
      let! value := get_opt (next place offset) in write (next place offset) (OOpt (state_add c value item)));
  accumulate_row place columns row :=
    let! col := column0 columns in
    let! items := lift (scalar_iter t col) in
    let! value := get_opt place in
    let! item := lift (unwrap (items !! row)) in write place (OOpt (state_add c value item));
  serialize place := let! value := get_opt place in ret (bin_ser value);
  deserialize place reader :=
    get_opt place ;;!
    let! ' (value, reader) := deserialize_from_slice reader in write place (OOpt value) ;;! ret reader;
  merge place rhs :=
    let! r := get_opt rhs in
    let! value := get_opt place in
    match r with Some v => write place (OOpt (state_add c value v)) | None => ret tt end;
  merge_result place := let! value := get_opt place in ret (Some (default (scalar_default t) value));
  need_manual_drop_state := match t with KStr => true | _ => false end;
  drop_state place := drop_in_place place;
  convert_const_to_full := true |}.

(** ** The result of a function of nulls: aggregate_null_result.rs *)
Definition null_result_function (default_value : option Scalar) : AggregateFunction := {|
  state_layout := mkLayout 1 1;
  init_state _ := ret tt;
  accumulate _ _ _ _ := ret tt;
  accumulate_keys _ _ _ _ := ret tt;
  accumulate_row _ _ _ := ret tt;
  serialize _ := ret EmptyString;
  deserialize _ reader := ret reader;
  merge _ _ := ret tt;
  merge_result _ := ret default_value;
  need_manual_drop_state := false;
  drop_state _ := ret tt;
  convert_const_to_full := true |}.

(** ** Distinct values: aggregate_combinator_distinct.rs *)

(** The equality of [DataGroupValue]: [OrderedFloat] takes all values that are not numbers as one. *)
Definition group_value_eqb (a b : Scalar) : bool :=
  match a, b with
  | SFloat x, SFloat y => SFeqb (num x) (num y) || (match x, y with FNan _ _, FNan _ _ => true | _, _ => false end)
  | _, _ => bool_decide (a = b)
  end.
Definition group_values_eqb (a b : list Scalar) : bool :=
  (length a =? length b)%nat && forallb (λ '(x, y), group_value_eqb x y) (zip a b).
Definition set_insert (s : list (list Scalar)) (v : list Scalar) : list (list Scalar) :=
  if existsb (group_values_eqb v) s then s else s ++ [v].
(** [DataGroupValue::try_from] of the values of a row. *)
Definition group_values (columns : list Column) (row : nat) : res agg_error (list Scalar) :=
  res_mapM (λ c, ok_or (col_get c row) BadDataValueType) columns.
Definition create_column (t : TypeKind) (values : list Scalar) : res agg_error Column :=
  match t with
  | KInt => res_map PrimitiveColumn (res_mapM (λ v, match v with SInt n => Ok n | _ => Err BadDataValueType end) values)
  | KFloat => res_map FloatColumn (res_mapM (λ v, match v with SFloat n => Ok n | _ => Err BadDataValueType end) values)
  | KBool => res_map BooleanColumn (res_mapM (λ v, match v with SBool n => Ok n | _ => Err BadDataValueType end) values)
  | KStr => res_map StringColumn (res_mapM (λ v, match v with SStr n => Ok n | _ => Err BadDataValueType end) values)
  end.
(** The columns of the values of a set. *)
Definition set_columns (arguments : list TypeKind) (results : list (list Scalar)) : res agg_error (list Column) :=
  res_mapM (λ '(i, t), let? v := res_mapM (λ inner : list Scalar, unwrap (inner !! i)) results in create_column t v)
    (zip (seq 0 (length arguments)) arguments).
Definition distinct_combinator (arguments : list TypeKind) (nested : AggregateFunction) : AggregateFunction :=
  let nested_place place := next place (l_size distinct_state_layout) in
  let insert place columns row :=
    let! data_values := lift (group_values columns row) in
    let! s := get_set place in write place (OSet (set_insert s data_values)) in {|
  state_layout := mkLayout (l_size distinct_state_layout + l_size (state_layout nested)) (l_align distinct_state_layout);
  init_state place := write place (OSet []) ;;! init_state nested (nested_place place);
  accumulate place columns validity input_rows :=
    forM (seq 0 input_rows) (λ row,
      match validity with
      | Some v => if get_bit v row then insert place columns row else ret tt
      | None => insert place columns row
      end);
  accumulate_keys places offset columns _ :=
    forM (zip (seq 0 (length places)) places) (λ '(row, place), insert (next place offset) columns row);
  accumulate_row place columns row := insert place columns row;
  serialize place := let! s := get_set place in ret (bin_ser s);
  deserialize place reader :=
    get_set place ;;!
    let! ' (s, reader) := deserialize_from_slice reader in write place (OSet s) ;;! ret reader;
  merge place rhs :=
    let! s := get_set place in let! r := get_set rhs in write place (OSet (foldl set_insert s r));
  merge_result place :=
    let! s := get_set place in
    match s with
    | [] => merge_result nested (nested_place place)
    | _ =>
        let! columns := lift (set_columns arguments s) in
        accumulate nested (nested_place place) columns None (length s) ;;!
        merge_result nested (nested_place place)
    end;
  need_manual_drop_state := true;
  drop_state place := drop_in_place place ;;! if need_manual_drop_state nested then drop_state nested (nested_place place) else ret tt;
  convert_const_to_full := true |}.

(** ** Under a condition: aggregate_combinator_if.rs *)

(** The last of the [argument_len] columns is the condition. *)
Definition if_combinator (argument_len : nat) (nested : AggregateFunction) : AggregateFunction :=
  let predicate columns : AM (list bool) :=
    let! c := lift (unwrap (columns !! (argument_len - 1)%nat)) in lift (check_get_bool c) in {|
  state_layout := state_layout nested;
  init_state := init_state nested;
  accumulate place columns validity input_rows :=
    match columns with
    | [] => ret tt
    | _ =>
        let! p := predicate columns in
        accumulate nested place (take (argument_len - 1) columns) (combine_validities validity (Some p)) input_rows
    end;
  accumulate_keys places offset columns _ :=
    let! p := predicate columns in
    let args := (λ c, col_filter c p) <$> take (argument_len - 1) columns in
    let row_size := (length p - null_count p)%nat in
    let new_places := if (null_count p =? 0)%nat then places else filter_list places p in
    accumulate_keys nested new_places offset args row_size;
  accumulate_row place columns row :=
    let! p := predicate columns in
    if get_bit p row then accumulate_row nested place (take (argument_len - 1) columns) row else ret tt;
  serialize := serialize nested;
  deserialize := deserialize nested;
  merge := merge nested;
  merge_result := merge_result nested;
  need_manual_drop_state := need_manual_drop_state nested;
  drop_state := drop_state nested;
  convert_const_to_full := true |}.

(** ** Nullable arguments: aggregate_null_unary_adaptor.rs, aggregate_null_variadic_adaptor.rs *)

(** A byte before the state of the nested function tells whether there was a row without nulls. *)
Section null_adaptor.
Variable NULLABLE_RESULT : bool.
Variable nested : AggregateFunction.
Definition prefix_size : Z := if NULLABLE_RESULT then l_align (state_layout nested) else 0.
Definition set_flag (place : Z) : AM unit := if NULLABLE_RESULT then write place (OByte 1) else ret tt.
Definition init_flag (place : Z) : AM unit := if NULLABLE_RESULT then write place (OByte 0) else ret tt.
Definition get_flag (place : Z) : AM Z := if NULLABLE_RESULT then get_byte place else ret 1.
Definition nested_place (place : Z) : Z := next place prefix_size.
Definition adaptor_init (place : Z) : AM unit := init_flag place ;;! init_state nested (nested_place place).
(** The bitmap of the rows without nulls, whether one of the columns is all null, and the columns without their bitmaps. *)
Definition adaptor_columns (validity0 : option (list bool)) (columns : list Column) : option (list bool) * bool * list Column :=
  foldl (λ '(v, all_null, cols) col,
    (combine_validities v (validity col).2, all_null || (validity col).1, cols ++ [remove_nullable col]))
    (validity0, false, []) columns.
Definition adaptor_accumulate (place : Z) (columns : list Column) (validity0 : option (list bool)) (input_rows : nat) : AM unit :=
  let '(v, is_all_null, not_null_columns) := adaptor_columns validity0 columns in
  accumulate nested (nested_place place) not_null_columns v input_rows ;;!
  if is_all_null then ret tt
  else match v with
       | Some v => if (null_count v =? input_rows)%nat then ret tt else set_flag place
       | None => set_flag place
       end.
Definition adaptor_accumulate_keys (places : list Z) (offset : Z) (columns : list Column) (input_rows : nat) : AM unit :=
  let '(v, is_all_null, not_null_columns) := adaptor_columns None columns in
  accumulate_keys nested places (offset + prefix_size) not_null_columns input_rows ;;!
  if is_all_null then ret tt
  else match v with
       | Some v => forM (zip v places) (λ '(valid, place), if (valid : bool) then set_flag (next place offset) else ret tt)
       | None => forM places (λ place, set_flag (next place offset))
       end.
Definition adaptor_serialize (place : Z) : AM string :=
  let! flag := get_flag place in
  let! bytes := serialize nested (nested_place place) in
  ret (if NULLABLE_RESULT then write_flag (flag =? 1) +:+ bytes else bytes).
(** The flag of the place is set but never cleared. *)
Definition adaptor_deserialize (place : Z) (reader : string) : AM string :=
  let! reader :=
    (if NULLABLE_RESULT then
       let! ' (flag, reader) := read_flag reader in
       (if (flag : bool) then set_flag place else ret tt) ;;! ret reader
     else ret reader) in
  deserialize nested (nested_place place) reader.
Definition adaptor_merge (place rhs : Z) : AM unit :=
  let! f := get_flag place in
  (if f =? 0 then adaptor_init place else ret tt) ;;!
  let! r := get_flag rhs in
  (if r =? 1 then set_flag place else ret tt) ;;!
  merge nested (nested_place place) (nested_place rhs).
Definition adaptor_merge_result (place : Z) : AM (option Scalar) :=
  if NULLABLE_RESULT then
    let! f := get_flag place in
    if f =? 1 then merge_result nested (nested_place place) else ret None
  else merge_result nested (nested_place place).
Definition null_variadic_adaptor : AggregateFunction := {|
  state_layout := mkLayout (l_size (state_layout nested) + prefix_size) (l_align (state_layout nested));
  init_state := adaptor_init;
  accumulate := adaptor_accumulate;
  accumulate_keys := adaptor_accumulate_keys;
  accumulate_row _ _ _ := lift Panic;
  serialize := adaptor_serialize;
  deserialize := adaptor_deserialize;
  merge := adaptor_merge;
  merge_result := adaptor_merge_result;
  need_manual_drop_state := need_manual_drop_state nested;
  drop_state place := drop_state nested (nested_place place);
  convert_const_to_full := convert_const_to_full nested |}.
(** With a single column. *)
Definition null_unary_adaptor : AggregateFunction := {|
  state_layout := mkLayout (l_size (state_layout nested) + prefix_size) (l_align (state_layout nested));
  init_state := adaptor_init;
  accumulate place columns v input_rows := let! c := column0 columns in adaptor_accumulate place [c] v input_rows;
  accumulate_keys places offset columns input_rows :=
    let! c := column0 columns in adaptor_accumulate_keys places offset [c] input_rows;
  accumulate_row _ _ _ := lift Panic;
  serialize := adaptor_serialize;
  deserialize := adaptor_deserialize;
  merge := adaptor_merge;
  merge_result := adaptor_merge_result;
  need_manual_drop_state := need_manual_drop_state nested;
  drop_state place := drop_state nested (nested_place place);
  convert_const_to_full := convert_const_to_full nested |}.
End null_adaptor.

(** ** Constant columns: aggregate_base_adaptor.rs *)
Definition basic_adaptor (inner : AggregateFunction) : AggregateFunction :=
  let full columns := if convert_const_to_full inner && existsb is_const columns then convert_full_column <$> columns else columns in {|
  state_layout := state_layout inner;
  init_state := init_state inner;
  accumulate place columns validity input_rows := accumulate inner place (full columns) validity input_rows;
  accumulate_keys places offset columns input_rows := accumulate_keys inner places offset (full columns) input_rows;
  accumulate_row := accumulate_row inner;
  serialize := serialize inner;
  deserialize := deserialize inner;
  merge := merge inner;
  merge_result := merge_result inner;
  need_manual_drop_state := need_manual_drop_state inner;
  drop_state := drop_state inner;
  convert_const_to_full := convert_const_to_full inner |}.
End functions.
