(* ===== verification/AggLaws.v ===== *)
(** * What an aggregate function promises, and which functions keep it.

    The state of a function at an address stands for the list of the rows it has taken in.
    [Lawful] says that initializing, serializing, deserializing into a place used before,
    merging and reading the result act on that list; [LawfulKeys] and [LawfulBatch] say the
    same of taking in the rows of a block, grouped and ungrouped. *)
From S2P Require Import Prelude DataValue Column AggFunction.
#[local] Open Scope Z_scope.

(** ** Rows *)
Abbreviation Row := (list (option Scalar)).
Definition row_at (cols : list Column) (i : nat) : Row := (λ c, col_get c i) <$> cols.
Definition rows_of (cols : list Column) (n : nat) : list Row := row_at cols <$> seq 0 n.
(** The rows whose place is [p]. *)
Definition pick (p : Z) (places : list Z) (rs : list Row) : list Row := snd <$> filter (λ x, x.1 = p) (zip places rs).

Lemma pick_nil p rs : pick p [] rs = [].
Proof. done. Qed.
Lemma pick_cons p q places r rs : pick p (q :: places) (r :: rs) = (if decide (q = p) then [r] else []) ++ pick p places rs.
Proof. unfold pick. simpl. rewrite filter_cons. simpl. by destruct (decide (q = p)). Qed.
Lemma length_rows_of cols n : length (rows_of cols n) = n.
Proof. unfold rows_of. by rewrite length_fmap, length_seq. Qed.

(** ** Memory *)
Definition in_state (p size a : Z) : Prop := p ≤ a < p + size.
Definition frame (h h' : heap) (p size : Z) : Prop := ∀ a, ¬ in_state p size a → h' !! a = h !! a.
Lemma frame_refl h p size : frame h h p size.
Proof. by intros a _. Qed.
Lemma frame_trans h1 h2 h3 p size : frame h1 h2 p size → frame h2 h3 p size → frame h1 h3 p size.
Proof. intros H12 H23 a Ha. by rewrite H23, H12. Qed.
Lemma frame_insert (h : heap) p size o : 0 < size → frame h (<[p:=o]> h) p size.
Proof. intros Hs a Ha. apply lookup_insert_ne. intros ->. apply Ha. unfold in_state. lia. Qed.
Lemma frame_delete (h : heap) p size : 0 < size → frame h (delete p h) p size.
Proof. intros Hs a Ha. apply lookup_delete_ne. intros ->. apply Ha. unfold in_state. lia. Qed.
Lemma frame_weaken h h' p size p' size' : frame h h' p size → p' ≤ p → p + size ≤ p' + size' → frame h h' p' size'.
Proof. intros Hf Hp Hs a Ha. apply Hf. unfold in_state in *. lia. Qed.

(** ** The promises *)
Record agg_spec := mkSpec {
  as_args : list Column → nat → Prop;
  as_value : list Row → option Scalar;
  as_rep : heap → Z → list Row → Prop;
}.
Definition fsize (F : AggregateFunction) : Z := l_size (state_layout F).
(** Bytes from which the state of [xs] is restored, whatever was at the place before. *)
Definition encodes (F : AggregateFunction) (S : agg_spec) (b : string) (xs : list Row) : Prop :=
  ∀ h q ys r, as_rep S h q ys → ∃ h', deserialize F q (b +:+ r) h = (Ok r, h') ∧ as_rep S h' q xs ∧ frame h h' q (fsize F).
Class Lawful (F : AggregateFunction) (S : agg_spec) : Prop := {
  lw_size : 0 < fsize F;
  lw_align : is_power_of_two (l_align (state_layout F)) = true;
  lw_local h h' p xs : (∀ a, in_state p (fsize F) a → h' !! a = h !! a) → as_rep S h p xs → as_rep S h' p xs;
  lw_init h p : ∃ h', init_state F p h = (Ok tt, h') ∧ as_rep S h' p [] ∧ frame h h' p (fsize F);
  lw_bytes h p xs : as_rep S h p xs → ∃ b, serialize F p h = (Ok b, h) ∧ encodes F S b xs;
  lw_merge h p q xs ys : as_rep S h p xs → as_rep S h q ys → p + fsize F ≤ q ∨ q + fsize F ≤ p →
    ∃ h', merge F p q h = (Ok tt, h') ∧ as_rep S h' p (xs ++ ys) ∧ frame h h' p (fsize F);
  lw_result h p xs : as_rep S h p xs → ∃ h', merge_result F p h = (Ok (as_value S xs), h') ∧ as_rep S h' p xs ∧ frame h h' p (fsize F);
  lw_drop h p xs : as_rep S h p xs → need_manual_drop_state F = true → ∃ h', drop_state F p h = (Ok tt, h') ∧ frame h h' p (fsize F);
}.
(** Places are apart when the states at them do not overlap. *)
Definition apart (size : Z) (Q : list Z) : Prop := ∀ p q, p ∈ Q → q ∈ Q → p ≠ q → p + size ≤ q ∨ q + size ≤ p.
Class LawfulKeys (F : AggregateFunction) (S : agg_spec) (off : Z) : Prop :=
  lw_keys h Q places cols n xs :
    as_args S cols n → length places = n → places ⊆ Q → apart (fsize F) Q → (∀ p, p ∈ Q → as_rep S h (next p off) (xs p)) →
    ∃ h', accumulate_keys F places off cols n h = (Ok tt, h') ∧
      (∀ p, p ∈ Q → as_rep S h' (next p off) (xs p ++ pick p places (rows_of cols n))) ∧
      (∀ a, (∀ p, p ∈ Q → ¬ in_state (next p off) (fsize F) a) → h' !! a = h !! a).
Class LawfulBatch (F : AggregateFunction) (S : agg_spec) : Prop :=
  lw_batch h p cols n xs :
    as_args S cols n → as_rep S h p xs →
    ∃ h', accumulate F p cols None n h = (Ok tt, h') ∧ as_rep S h' p (xs ++ rows_of cols n) ∧ frame h h' p (fsize F).
#[global] Hint Mode Lawful ! - : typeclass_instances.
#[global] Hint Mode LawfulKeys ! - - : typeclass_instances.
#[global] Hint Mode LawfulBatch ! - : typeclass_instances.

(** The documented behaviour of bincode: what is written is read back, up to the bytes that follow. *)
Class BincodeLaws (A : Type) `{!Bincode A} (valid : A → Prop) : Prop :=
  bin_round a r : valid a → bin_de (bin_ser a +:+ r) = Some (a, r).
#[global] Hint Mode BincodeLaws ! - - : typeclass_instances.
Definition word_ok (n : Z) : Prop := 0 ≤ n < 2 ^ 64.
Lemma u64_wrap_ok n : word_ok (u64_wrap n).
Proof. apply Z.mod_pos_bound. lia. Qed.
Lemma u64_wrap_add a b : u64_wrap (u64_wrap a + b) = u64_wrap (a + b).
Proof. unfold u64_wrap. by rewrite Zplus_mod_idemp_l. Qed.
Lemma u64_wrap_add_r a b : u64_wrap (a + u64_wrap b) = u64_wrap (a + b).
Proof. unfold u64_wrap. by rewrite Zplus_mod_idemp_r. Qed.

(** ** Functions whose state is one object *)
Section cell.
Variable obj : list Row → Obj.
Variable good : Row → Prop.
Definition cell_rep (h : heap) (p : Z) (xs : list Row) : Prop := h !! p = Some (obj xs) ∧ Forall good xs.
Lemma cell_local size h h' p xs : 0 < size → (∀ a, in_state p size a → h' !! a = h !! a) → cell_rep h p xs → cell_rep h' p xs.
Proof. intros Hs Ha [Hp Hg]. split; [|done]. rewrite Ha; [done|]. unfold in_state. lia. Qed.
Lemma cell_write h p o xs : o = obj xs → Forall good xs → cell_rep (<[p:=o]> h) p xs.
Proof. intros -> Hg. split; [by rewrite lookup_insert_eq|done]. Qed.

(** A loop over items and places, each item adding the row it stands for. *)
Context {A : Type} (R : A → Row → Prop) (op : Z → A → AM unit) (size off : Z).
Hypothesis size_pos : 0 < size.
Hypothesis op_ok : ∀ h q xs a r, R a r → cell_rep h q xs → op q a h = (Ok tt, <[q:=obj (xs ++ [r])]> h) ∧ good r.
Lemma keys_loop h Q places items rs (xs : Z → list Row) :
  Forall2 R items rs → length places = length items → places ⊆ Q → apart size Q → (∀ p, p ∈ Q → cell_rep h (next p off) (xs p)) →
  ∃ h', forM (zip items places) (λ '(a, place), op (next place off) a) h = (Ok tt, h') ∧
    (∀ p, p ∈ Q → cell_rep h' (next p off) (xs p ++ pick p places rs)) ∧
    (∀ a, (∀ p, p ∈ Q → ¬ in_state (next p off) size a) → h' !! a = h !! a).
Proof.
  intros HR. revert h places xs. induction HR as [|a r items rs Har HR IH]; intros h places xs Hlen Hsub Hap Hrep.
  { destruct places; [|done]. exists h. split; [done|]. split; [|done]. intros p Hp. rewrite pick_nil, app_nil_r. by apply Hrep. }
  destruct places as [|q places]; [done|]. simpl in Hlen |- *. assert (q ∈ Q) as Hq by (apply Hsub; by left).
  destruct (op_ok h (next q off) (xs q) a r Har (Hrep q Hq)) as [Hop Hg]. unfold bind at 1. rewrite Hop.
  destruct (IH (<[next q off:=obj (xs q ++ [r])]> h) places (λ p, if decide (p = q) then xs q ++ [r] else xs p)) as (h' & Hrun & Hr & Hfr);
    [lia|intros p Hp; apply Hsub; by right|done| |].
  - intros p Hp. destruct (decide (p = q)) as [->|Hne].
    + apply cell_write; [done|]. apply Forall_app. split; [apply (Hrep q Hq)|by apply Forall_singleton].
    + destruct (Hrep p Hp) as [Hc Hgp]. split; [|done]. rewrite lookup_insert_ne; [done|]. unfold next. lia.
  - exists h'. split; [done|]. split.
    + intros p Hp. specialize (Hr p Hp). rewrite pick_cons. destruct (decide (p = q)) as [->|Hne].
      * rewrite decide_True by done. by rewrite app_assoc.
      * by rewrite decide_False by done.
    + intros b Hb. rewrite Hfr by done. apply lookup_insert_ne. intros <-. apply (Hb q Hq). unfold in_state. lia.
Qed.
End cell.

(** Running a step on known memory. *)
Ltac am_step := unfold bind, ret, lift, write, get_word, get_opt, get_avg, get_set, get_byte; cbv beta iota.
Tactic Notation "am_read" constr(H) := am_step; rewrite H; cbv beta iota.

(** The rows of a single plain column. *)
Lemma rows_of_plain {A} (f : A → Scalar) (c : Column) (l : list A) n :
  (∀ i, col_get c i = f <$> l !! i) → length l = n → rows_of [c] n = (λ x, [Some (f x)]) <$> l.
Proof.
  intros Hget <-. apply list_eq. intros i. unfold rows_of. rewrite !list_lookup_fmap. destruct (l !! i) as [x|] eqn:Hi.
  - pose proof (lookup_lt_Some _ _ _ Hi). rewrite (proj2 (lookup_seq 0 _ i i)) by lia. simpl. unfold row_at. simpl. by rewrite Hget, Hi.
  - apply lookup_ge_None in Hi. by rewrite lookup_seq_ge by done.
Qed.

(** ** Sums *)
Definition int_of (r : Row) : Z := match r with [Some (SInt z)] => z | [Some (SBool b)] => bool_to_u8 b | _ => 0 end.
Definition sum_rows (xs : list Row) : Z := foldr (λ r s, int_of r + s) 0 xs.
Lemma sum_rows_app xs ys : sum_rows (xs ++ ys) = sum_rows xs + sum_rows ys.
Proof. induction xs as [|x xs IH]; simpl; [done|]. rewrite IH. lia. Qed.
Definition int_args (cols : list Column) (n : nat) : Prop :=
  match cols with
  | [PrimitiveColumn l] => length l = n
  | [BooleanColumn l] => length l = n
  | _ => False
  end.
Lemma int_args_column cols n :
  int_args cols n → ∃ c l, cols = [c] ∧ cast_boolean c = PrimitiveColumn l ∧ length l = n ∧ Forall2 (λ z r, int_of r = z) l (rows_of cols n).
Proof.
  destruct cols as [|c [|]]; [done| |by destruct c]. destruct c as [l| |l| | | |]; try done; simpl; intros <-.
  - exists (PrimitiveColumn l), l. split_and!; [done..|]. rewrite (rows_of_plain SInt _ l) by done.
    apply Forall2_fmap_r. by apply Forall_Forall2_diag, Forall_true.
  - exists (BooleanColumn l), (bool_to_u8 <$> l). split_and!; [done..|by rewrite length_fmap|]. rewrite (rows_of_plain SBool _ l) by done.
    apply Forall2_fmap. by apply Forall_Forall2_diag, Forall_true.
Qed.
Lemma sum_rows_ints l xs : Forall2 (λ z r, int_of r = z) l xs → foldl (λ sum t, u64_wrap (sum + t)) 0 l = u64_wrap (sum_rows xs).
Proof.
  intros Hl. assert (∀ s, word_ok s → foldl (λ sum t, u64_wrap (sum + t)) s l = u64_wrap (s + sum_rows xs)) as Hgen; [|by rewrite Hgen].
  induction Hl as [|z r l xs Hz Hl IH]; intros s Hs; simpl.
  - unfold u64_wrap. by rewrite Z.add_0_r, Z.mod_small.
  - rewrite IH by apply u64_wrap_ok. rewrite u64_wrap_add. f_equal. rewrite Hz. lia.
Qed.

Section sums.
Context `{!Bincode Z, !BincodeLaws Z word_ok, !Bincode (Z * Z), !BincodeLaws (Z * Z) (λ x, word_ok x.1 ∧ word_ok x.2)}.
Definition sum_obj (xs : list Row) : Obj := OWord (u64_wrap (sum_rows xs)).
Definition sum_spec (signed : bool) : agg_spec := {|
  as_args := int_args;
  as_value xs := Some (SInt (of_word signed (u64_wrap (sum_rows xs))));
  as_rep := cell_rep sum_obj (λ _, True) |}.
Lemma Forall_any (xs : list Row) : Forall (λ _, True) xs.
Proof. by apply Forall_true. Qed.
Hint Resolve Forall_any : core.
Lemma u64_wrap_wrap n : u64_wrap (u64_wrap n) = u64_wrap n.
Proof. unfold u64_wrap. by rewrite Zmod_mod. Qed.
Lemma sum_add_ok h p xs n ys :
  cell_rep sum_obj (λ _, True) h p xs → u64_wrap n = u64_wrap (sum_rows ys) → sum_add p n h = (Ok tt, <[p:=sum_obj (xs ++ ys)]> h).
Proof.
  intros [Hp _] Hn. unfold sum_add. am_read Hp. unfold sum_obj. rewrite u64_wrap_add, sum_rows_app.
  by rewrite <-u64_wrap_add_r, Hn, u64_wrap_add_r.
Qed.
#[export] Instance sum_lawful signed : Lawful (sum_function signed) (sum_spec signed).
Proof.
  split; simpl; [done|done|intros h h' p xs; by apply cell_local|..].
  - intros h p. eexists. split; [done|]. split; [by apply cell_write|by apply frame_insert].
  - intros h p xs [Hp _]. eexists. am_read Hp. split; [done|]. intros h2 q ys r [Hq _]. simpl. am_read Hq.
    unfold deserialize_from_slice. am_step. rewrite bin_round by apply u64_wrap_ok. simpl.
    eexists. split; [done|]. split; [by apply cell_write|by apply frame_insert].
  - intros h p q xs ys Hp [Hq _] Hd. am_read Hq. eexists. split.
    + apply sum_add_ok; [done|apply u64_wrap_wrap].
    + split; [by apply cell_write|by apply frame_insert].
  - intros h p xs Hrep. pose proof Hrep as [Hp _]. am_read Hp. eexists. split; [done|]. split; [done|apply frame_refl].
  - done.
Qed.
#[export] Instance sum_lawful_keys signed off : LawfulKeys (sum_function signed) (sum_spec signed) off.
Proof.
  intros h Q places cols n xs Hargs Hlen Hsub Hap Hrep.
  destruct (int_args_column cols n Hargs) as (c & l & -> & Hc & Hl & HR). simpl. unfold column0. am_step. simpl. rewrite Hc. simpl.
  apply (keys_loop sum_obj (λ _, True) (λ z r, int_of r = z) (λ q z, sum_add q z) 8 off ltac:(lia)); [|done|congruence|done..].
  intros h' q xs' z r <- Hq. split; [|done]. apply sum_add_ok; [done|]. simpl. f_equal. lia.
Qed.
#[export] Instance sum_lawful_batch signed : LawfulBatch (sum_function signed) (sum_spec signed).
Proof.
  intros h p cols n xs Hargs Hrep. destruct (int_args_column cols n Hargs) as (c & l & -> & Hc & Hl & HR).
  simpl. unfold column0, sum_primitive. am_step. simpl. rewrite Hc. simpl. rewrite (sum_rows_ints _ _ HR).
  rewrite (sum_add_ok h p xs _ _ Hrep (u64_wrap_wrap _)).
  eexists. split; [done|]. split; [by apply cell_write|by apply frame_insert].
Qed.
End sums.

(** ** Averages *)
Section averages.
Context `{!Bincode (Z * Z), !BincodeLaws (Z * Z) (λ x, word_ok x.1 ∧ word_ok x.2)}.
Definition avg_obj (xs : list Row) : Obj := OAvg (u64_wrap (sum_rows xs)) (u64_wrap (Z.of_nat (length xs))).
Definition avg_spec (signed : bool) : agg_spec := {|
  as_args := int_args;
  as_value xs := Some (SFloat (of_num (f64_div (f64_of_int (of_word signed (u64_wrap (sum_rows xs)))) (f64_of_int (u64_wrap (Z.of_nat (length xs)))))));
  as_rep := cell_rep avg_obj (λ _, True) |}.
Hint Resolve Forall_any : core.
Lemma avg_add_ok h p xs v n ys :
  cell_rep avg_obj (λ _, True) h p xs → u64_wrap v = u64_wrap (sum_rows ys) → u64_wrap n = u64_wrap (Z.of_nat (length ys)) →
  avg_add p v n h = (Ok tt, <[p:=avg_obj (xs ++ ys)]> h).
Proof.
  intros [Hp _] Hv Hn. unfold avg_add. am_read Hp. unfold avg_obj. rewrite !u64_wrap_add, sum_rows_app, length_app, Nat2Z.inj_add.
  by rewrite <-(u64_wrap_add_r (sum_rows xs)), Hv, <-(u64_wrap_add_r (Z.of_nat _)), Hn, !u64_wrap_add_r.
Qed.
#[export] Instance avg_lawful signed : Lawful (avg_function signed) (avg_spec signed).
Proof.
  split; simpl; [done|done|intros h h' p xs; by apply cell_local|..].
  - intros h p. eexists. split; [done|]. split; [by apply cell_write|by apply frame_insert].
  - intros h p xs [Hp _]. eexists. am_read Hp. split; [done|]. intros h2 q ys r [Hq _]. simpl. am_read Hq.
    unfold deserialize_from_slice. am_step. rewrite (bin_round (_, _)) by (split; apply u64_wrap_ok). simpl.
    eexists. split; [done|]. split; [by apply cell_write|by apply frame_insert].
  - intros h p q xs ys Hp [Hq _] Hd. am_read Hq. simpl. rewrite (avg_add_ok h p xs _ _ ys Hp) by apply u64_wrap_wrap.
    eexists. split; [done|]. split; [by apply cell_write|by apply frame_insert].
  - intros h p xs Hrep. pose proof Hrep as [Hp _]. am_read Hp. eexists. split; [done|]. split; [done|apply frame_refl].
  - done.
Qed.
#[export] Instance avg_lawful_keys signed off : LawfulKeys (avg_function signed) (avg_spec signed) off.
Proof.
  intros h Q places cols n xs Hargs Hlen Hsub Hap Hrep.
  destruct (int_args_column cols n Hargs) as (c & l & -> & Hc & Hl & HR). simpl. unfold column0. am_step. simpl. rewrite Hc. simpl.
  apply (keys_loop avg_obj (λ _, True) (λ z r, int_of r = z) (λ q z, avg_add q z 1) 16 off ltac:(lia)); [|done|congruence|done..].
  intros h' q xs' z r <- Hq. split; [|done]. apply avg_add_ok; [done| |done]. simpl. f_equal. lia.
Qed.
#[export] Instance avg_lawful_batch signed : LawfulBatch (avg_function signed) (avg_spec signed).
Proof.
  intros h p cols n xs Hargs Hrep. destruct (int_args_column cols n Hargs) as (c & l & -> & Hc & Hl & HR).
  simpl. unfold column0, sum_primitive. am_step. simpl. rewrite Hc. simpl. rewrite (sum_rows_ints _ _ HR), Z.sub_0_r.
  rewrite (avg_add_ok h p xs _ _ _ Hrep (u64_wrap_wrap _)) by by rewrite length_rows_of.
  eexists. split; [done|]. split; [by apply cell_write|by apply frame_insert].
Qed.
End averages.

(** ** Counts *)

(** A row counts when it has no argument or its first argument is not null. *)
Definition counts (r : Row) : bool := match r with None :: _ => false | _ => true end.
Definition count_rows (xs : list Row) : Z := Z.of_nat (length (filter (λ r, counts r = true) xs)).
Lemma count_rows_app xs ys : count_rows (xs ++ ys) = count_rows xs + count_rows ys.
Proof. unfold count_rows. rewrite filter_app, length_app. lia. Qed.
Lemma count_rows_all xs : Forall (λ r, counts r = true) xs → count_rows xs = Z.of_nat (length xs).
Proof.
  intros Hall. unfold count_rows. f_equal. f_equal. induction Hall as [|x xs Hx Hall IH]; [done|]. by rewrite filter_cons_True, IH.
Qed.
(** Arguments without a bitmap, where all rows count, and a nullable argument. *)
Definition count_args (nullable : bool) (cols : list Column) (n : nat) : Prop :=
  if nullable then match cols with [NullableColumn v c] => length v = n ∧ ∀ i, (i < n)%nat → is_Some (col_get c i) | _ => False end
  else (match cols with [] => True | c :: _ => (validity c).2 = None end) ∧ Forall (λ r, counts r = true) (rows_of cols n).
Section counts.
Context `{!Bincode Z, !BincodeLaws Z word_ok}.
Definition count_obj (xs : list Row) : Obj := OWord (u64_wrap (count_rows xs)).
Definition count_spec (nullable : bool) : agg_spec := {|
  as_args := count_args nullable;
  as_value xs := Some (SInt (u64_wrap (count_rows xs)));
  as_rep := cell_rep count_obj (λ _, True) |}.
Hint Resolve Forall_any : core.
Lemma count_add_ok h p xs n ys :
  cell_rep count_obj (λ _, True) h p xs → n = count_rows ys → count_add p n h = (Ok tt, <[p:=count_obj (xs ++ ys)]> h).
Proof. intros [Hp _] ->. unfold count_add. am_read Hp. unfold count_obj. by rewrite u64_wrap_add, count_rows_app. Qed.
#[export] Instance count_lawful nullable : Lawful count_function (count_spec nullable).
Proof.
  split; simpl; [done|done|intros h h' p xs; by apply cell_local|..].
  - intros h p. eexists. split; [done|]. split; [by apply cell_write|by apply frame_insert].
  - intros h p xs [Hp _]. eexists. am_read Hp. split; [done|]. intros h2 q ys r [Hq _]. simpl. am_read Hq.
    unfold deserialize_from_slice. am_step. rewrite bin_round by apply u64_wrap_ok. simpl.
    eexists. split; [done|]. split; [by apply cell_write|by apply frame_insert].
  - intros h p q xs ys [Hp _] [Hq _] Hd. am_read Hp. simpl. rewrite Hq. simpl. rewrite u64_wrap_add, u64_wrap_add_r, <-count_rows_app.
    eexists. split; [done|]. split; [by apply cell_write|by apply frame_insert].
  - intros h p xs Hrep. pose proof Hrep as [Hp _]. am_read Hp. eexists. split; [done|]. split; [done|apply frame_refl].
  - done.
Qed.
(** Without a bitmap only as the first of the functions, at offset 0. *)
#[export] Instance count_lawful_keys : LawfulKeys count_function (count_spec false) 0.
Proof.
  intros h Q places cols n xs [Hv Hall] Hlen Hsub Hap Hrep. simpl. unfold count_keys.
  assert (match cols with [] => None | c :: _ => (validity c).2 end = None) as -> by by destruct cols.
  destruct (keys_loop count_obj (λ _, True) (λ '(_ : unit) r, counts r = true) (λ q _, count_add q 1) 8 0 ltac:(lia)) with
    (h := h) (Q := Q) (places := places) (items := replicate n tt) (rs := rows_of cols n) (xs := xs) as (h' & Hrun & Hr & Hfr); [| |by rewrite length_replicate|done..|].
  - intros h' q xs' [] r Hr Hq. split; [|done]. apply count_add_ok; [done|]. unfold count_rows. by rewrite filter_cons_True.
  - apply Forall2_replicate_l; first [exact Hall|apply length_rows_of].
  - exists h'. split; [|done]. rewrite <-Hrun. clear -Hlen. revert h n Hlen. induction places as [|p places IH]; intros h [|n] Hlen; try done. injection Hlen as Hlen.
    simpl. unfold bind at 1 2. unfold next. rewrite Z.add_0_r. destruct (count_add p 1 h) as [[| |] h1]; [by apply IH|done|done].
Qed.
#[export] Instance count_nullable_lawful_keys off : LawfulKeys count_function (count_spec true) off.
Proof.
  intros h Q places cols n xs Hargs Hlen Hsub Hap Hrep. destruct cols as [|[| | | |v c| |] [|]]; try done. destruct Hargs as [Hv Hc].
  simpl. unfold count_keys. simpl.
  apply (keys_loop count_obj (λ _, True) (λ (b : bool) r, counts r = b) (λ q (b : bool), if b then count_add q 1 else ret tt) 8 off ltac:(lia));
    [| |congruence|done..].
  - intros h' q xs' b r Hr Hq. split; [|done]. destruct b; [apply count_add_ok; [done|]; unfold count_rows; by rewrite filter_cons_True|].
    destruct Hq as [Hq _]. unfold ret. f_equal. symmetry. apply insert_id. rewrite Hq. unfold count_obj. do 2 f_equal.
    rewrite count_rows_app. unfold count_rows at 3. rewrite filter_cons_False by congruence. simpl. by rewrite Z.add_0_r.
  - apply Forall2_same_length_lookup_2; [by rewrite length_rows_of|]. intros i b r Hb Hr. unfold rows_of in Hr.
    apply list_lookup_fmap_Some in Hr as (j & -> & Hj). apply lookup_seq in Hj as [-> Hj]. unfold row_at. simpl. unfold get_bit. rewrite Hb. simpl.
    destruct b; [|done]. destruct (Hc i ltac:(lia)) as [x ->]. done.
Qed.
#[export] Instance count_lawful_batch : LawfulBatch count_function (count_spec false).
Proof.
  intros h p cols n xs [Hv Hall] Hrep. simpl. rewrite Z.sub_0_r, (count_add_ok h p xs _ (rows_of cols n) Hrep).
  - eexists. split; [done|]. split; [by apply cell_write|by apply frame_insert].
  - rewrite (count_rows_all _ Hall). by rewrite length_rows_of.
Qed.
End counts.

(** ** The least and the greatest value *)

(** Values of one kind, numbers only, are totally ordered by these keys. *)
Definition scalar_ok (t : TypeKind) (x : Scalar) : bool :=
  match t, x with KInt, SInt _ => true | KFloat, SFloat f => not_nan (num f) | KBool, SBool _ => true | KStr, SStr _ => true | _, _ => false end.
Definition order_key (x : Scalar) : list Z :=
  match x with SBool b => [bool_to_u8 b] | SInt n => [n] | SFloat f => float_key (num f) | SStr s => string_key s end.
Lemma scalar_cmp_key t x y : scalar_ok t x = true → scalar_ok t y = true → scalar_cmp x y = Some (lex (order_key x) (order_key y)).
Proof.
  destruct t, x as [a|a|a|a], y as [b|b|b|b]; simpl; try done; intros Hx Hy.
  - by destruct (a ?= b).
  - by apply SFcompare_key.
  - by destruct a, b.
  - by rewrite string_compare_key.
Qed.
Lemma lex_eq a b : lex a b = Eq → a = b.
Proof.
  revert b. induction a as [|x a IH]; intros [|y b]; simpl; try done. destruct (Z.compare_spec x y) as [->| |]; try done.
  intros ?%IH. by subst.
Qed.
Lemma lex_lt_trans a b c : lex a b = Lt → lex b c = Lt → lex a c = Lt.
Proof.
  intros Hab Hbc. pose proof (lex_trans a b c) as Ht. rewrite Hab, Hbc in Ht. destruct (lex a c) eqn:Hac; [|done|by destruct Ht].
  apply lex_eq in Hac. subst. rewrite (lex_antisym b c), Hbc in Hab. done.
Qed.
Lemma lex_gt_lt a b : lex a b = Gt ↔ lex b a = Lt.
Proof. rewrite (lex_antisym a b). by destruct (lex a b). Qed.
Lemma change_if_key t c x y :
  scalar_ok t x = true → scalar_ok t y = true →
  change_if c x y = match c with CmpMin => bool_decide (lex (order_key y) (order_key x) = Lt) | CmpMax => bool_decide (lex (order_key x) (order_key y) = Lt) | CmpAny => false end.
Proof.
  intros Hx Hy. unfold change_if. rewrite (scalar_cmp_key t) by done. simpl. destruct c; [|done..].
  apply bool_decide_ext, lex_gt_lt.
Qed.
Lemma change_if_trans t c x y z :
  scalar_ok t x = true → scalar_ok t y = true → scalar_ok t z = true →
  change_if c x y = true → change_if c y z = true → change_if c x z = true.
Proof.
  intros Hx Hy Hz. rewrite !(change_if_key t) by done. destruct c; rewrite ?bool_decide_eq_true; [| |done]; intros ? ?; by eapply lex_lt_trans.
Qed.
Lemma change_if_neg_trans t c x y z :
  scalar_ok t x = true → scalar_ok t y = true → scalar_ok t z = true →
  change_if c x y = false → change_if c y z = false → change_if c x z = false.
Proof.
  intros Hx Hy Hz. rewrite !(change_if_key t) by done.
  destruct c; rewrite ?bool_decide_eq_false; [| |done]; rewrite <-!lex_gt_lt; intros ? ?; by eapply lex_trans.
Qed.

(** The value kept of two. *)
Definition better (c : ChangeIf) (x y : Scalar) : Scalar := if change_if c x y then y else x.
Lemma better_assoc t c x y z :
  scalar_ok t x = true → scalar_ok t y = true → scalar_ok t z = true → better c (better c x y) z = better c x (better c y z).
Proof.
  intros Hx Hy Hz. unfold better. pose proof (change_if_trans t c x y z Hx Hy Hz) as HT. pose proof (change_if_neg_trans t c x y z Hx Hy Hz) as HN.
  destruct (change_if c x y) eqn:Hxy, (change_if c y z) eqn:Hyz; rewrite ?Hxy, ?Hyz, ?HT, ?HN by done; done.
Qed.
Lemma better_ok t c x y : scalar_ok t x = true → scalar_ok t y = true → scalar_ok t (better c x y) = true.
Proof. intros. unfold better. by destruct (change_if c x y). Qed.
Definition best (c : ChangeIf) (l : list Scalar) : option Scalar := foldl (state_add c) None l.
Lemma best_ok t c l x : Forall (λ y, scalar_ok t y = true) l → best c l = Some x → scalar_ok t x = true.
Proof.
  intros Hl. unfold best. assert (∀ w, None = Some w → scalar_ok t w = true) as Hs by done. revert Hs. generalize (None : option Scalar).
  induction Hl as [|y l Hy Hl IH]; intros s Hs; simpl; [apply Hs|]. apply IH.
  intros w. unfold state_add. destruct s as [v|]; [|by intros [= <-]]. destruct (change_if c v y); intros [= <-]; [done|by apply Hs].
Qed.
Lemma state_add_better c x y : state_add c (Some x) y = Some (better c x y).
Proof. unfold better. simpl. by destruct (change_if c x y). Qed.
Lemma best_from t c x l :
  scalar_ok t x = true → Forall (λ y, scalar_ok t y = true) l →
  foldl (state_add c) (Some x) l = Some match best c l with Some y => better c x y | None => x end.
Proof.
  intros Hx Hl. revert x Hx. induction Hl as [|y l Hy Hl IH]; intros x Hx; [done|]. unfold best. cbn [foldl].
  rewrite state_add_better, IH by by apply better_ok. change (state_add c None y) with (Some y). rewrite IH by done. f_equal.
  destruct (best c l) as [z|] eqn:Hz; [|done]. apply (better_assoc t); [done..|]. by eapply best_ok.
Qed.
Lemma best_app t c l l' :
  Forall (λ y, scalar_ok t y = true) (l ++ l') → best c (l ++ l') = match best c l' with Some y => state_add c (best c l) y | None => best c l end.
Proof.
  intros [Hl Hl']%Forall_app. unfold best. rewrite foldl_app. fold (best c l) (best c l').
  destruct (best c l) as [x|] eqn:Hx; [|by fold (best c l'); destruct (best c l')].
  pose proof (best_ok t c l x Hl Hx). rewrite (best_from t) by done. destruct (best c l') as [y|]; [|done]. by rewrite state_add_better.
Qed.

Section extremes.
Context `{!Bincode (option Scalar), !BincodeLaws (option Scalar) (λ _, True), !Layouts}.
Hypothesis scalar_layout : 0 < l_size scalar_state_layout ∧ is_power_of_two (l_align scalar_state_layout) = true.
(** The value of a row with one argument. *)
Definition scalar_of (r : Row) : option Scalar := match r with [Some x] => Some x | _ => None end.
Definition extreme_good (t : TypeKind) (r : Row) : Prop := ∃ x, scalar_of r = Some x ∧ scalar_ok t x = true.
Definition extreme_obj (c : ChangeIf) (xs : list Row) : Obj := OOpt (best c (omap scalar_of xs)).
Definition extreme_args (t : TypeKind) (cols : list Column) (n : nat) : Prop :=
  match cols with
  | [col] => match scalars_of t col with Some l => length l = n ∧ Forall (λ x, scalar_ok t x = true) l | None => False end
  | _ => False
  end.
Definition minmax_spec (t : TypeKind) (c : ChangeIf) : agg_spec := {|
  as_args := extreme_args t;
  as_value xs := Some (default (scalar_default t) (best c (omap scalar_of xs)));
  as_rep := cell_rep (extreme_obj c) (extreme_good t) |}.
Lemma extreme_good_all t xs : Forall (extreme_good t) xs → Forall (λ y, scalar_ok t y = true) (omap scalar_of xs).
Proof. induction 1 as [|r xs (x & Hr & Hx) Hxs IH]; [done|]. simpl. rewrite Hr. by constructor. Qed.
Lemma extreme_app t c xs ys :
  Forall (extreme_good t) xs → Forall (extreme_good t) ys →
  extreme_obj c (xs ++ ys) =
    OOpt match best c (omap scalar_of ys) with Some y => state_add c (best c (omap scalar_of xs)) y | None => best c (omap scalar_of xs) end.
Proof.
  intros Hx Hy. unfold extreme_obj. rewrite omap_app, (best_app t); [done|]. apply Forall_app. split; by apply extreme_good_all.
Qed.
(** The rows of an argument. *)
Lemma extreme_rows t col n l :
  scalars_of t col = Some l → length l = n → rows_of [col] n = (λ x, [Some x]) <$> l.
Proof.
  intros Hl Hn. apply (rows_of_plain id); [|done]. intros i. destruct t, col; try done; injection Hl as <-; simpl; rewrite list_lookup_fmap; by destruct (_ !! i).
Qed.
Lemma scalars_of_rows (l : list Scalar) : omap scalar_of ((λ x, [Some x] : Row) <$> l) = l.
Proof. induction l as [|x l IH]; [done|]. simpl. by f_equal. Qed.
Lemma Forall_extreme_rows t l : Forall (λ x, scalar_ok t x = true) l → Forall (extreme_good t) ((λ x, [Some x] : Row) <$> l).
Proof. intros Hl. apply Forall_fmap. eapply Forall_impl; [exact Hl|]. intros x Hx. by exists x. Qed.
#[export] Instance minmax_lawful t c : Lawful (minmax_function t c) (minmax_spec t c).
Proof using All.
  destruct scalar_layout as [Hs Ha]. split; simpl; [done|done|intros h h' p xs; by apply cell_local|..].
  - intros h p. eexists. split; [done|]. split; [by apply cell_write|by apply frame_insert].
  - intros h p xs [Hp Hg]. eexists. am_read Hp. split; [done|]. intros h2 q ys r [Hq _]. simpl. am_read Hq.
    unfold deserialize_from_slice. am_step. rewrite bin_round by done. simpl.
    eexists. split; [done|]. split; [by apply cell_write|by apply frame_insert].
  - intros h p q xs ys [Hp Hgp] [Hq Hgq] Hd. am_read Hq. simpl. rewrite Hp. simpl. pose proof (extreme_app t c xs ys Hgp Hgq) as Happ.
    destruct (best c (omap scalar_of ys)) as [y|]; (eexists; split; [done|]).
    + split; [apply cell_write; [done|by apply Forall_app]|by apply frame_insert].
    + split; [|apply frame_refl]. split; [by rewrite Happ|by apply Forall_app].
  - intros h p xs Hrep. pose proof Hrep as [Hp _]. am_read Hp. eexists. split; [done|]. split; [done|apply frame_refl].
  - intros h p xs [Hp _] _. unfold drop_in_place. rewrite Hp. eexists. split; [done|by apply frame_delete].
Qed.
#[export] Instance minmax_lawful_keys t c off : LawfulKeys (minmax_function t c) (minmax_spec t c) off.
Proof using All.
  intros h Q places cols n xs Hargs Hlen Hsub Hap Hrep. destruct cols as [|col [|]]; try done. simpl in Hargs.
  destruct (scalars_of t col) as [l|] eqn:Hl; [|done]. destruct Hargs as [Hn Hok]. simpl. unfold column0. am_step. simpl.
  unfold scalar_iter. rewrite Hl. simpl. rewrite (extreme_rows t col n l) by done.
  apply (keys_loop (extreme_obj c) (extreme_good t) (λ x r, r = [Some x] ∧ scalar_ok t x = true)
    (λ q x, let! value := get_opt q in write q (OOpt (state_add c value x))) (l_size scalar_state_layout) off); [apply scalar_layout| | |congruence|done..].
  - intros h' q xs' x r [-> Hx] [Hq Hg]. am_read Hq. split; [|by exists x]. simpl. do 2 f_equal.
    rewrite (extreme_app t); [done|done|]. apply Forall_singleton. by exists x.
  - apply Forall2_fmap_r, Forall_Forall2_diag. eapply Forall_impl; [exact Hok|]. done.
Qed.
#[export] Instance minmax_lawful_batch t c : LawfulBatch (minmax_function t c) (minmax_spec t c).
Proof using All.
  intros h p cols n xs Hargs [Hp Hg]. destruct cols as [|col [|]]; try done. simpl in Hargs.
  destruct (scalars_of t col) as [l|] eqn:Hl; [|done]. destruct Hargs as [Hn Hok]. simpl. am_read Hp. simpl. unfold scalar_iter. rewrite Hl. simpl.
  rewrite (extreme_rows t col n l) by done. eexists. split; [done|]. split; [|apply frame_insert, scalar_layout].
  pose proof (Forall_extreme_rows t l Hok) as Hgl. apply cell_write; [|by apply Forall_app].
  rewrite (extreme_app t) by done. f_equal. rewrite scalars_of_rows.
  destruct l as [|x l]; [done|]. assert (best c (x :: l) = Some (foldl (better c) x l)) as ->.
  { unfold best. simpl. clear. revert x. induction l as [|y l IH]; intros x; [done|]. cbn [foldl]. by rewrite state_add_better. }
  f_equal. clear. revert x. induction l as [|y l IH]; intros x; [done|]. simpl. rewrite <-IH. f_equal. unfold better. by destruct (change_if c x y).
Qed.
End extremes.

(** ** Constant columns *)

(** A column of [n] rows; a constant one has one row inside, and nothing constant is inside of another column. *)
Fixpoint col_ok (n : nat) (c : Column) : Prop :=
  match c with
  | NullableColumn v c => length v = n ∧ is_const c = false ∧ is_nullable c = false ∧ col_ok n c
  | ConstColumn c k => k = n ∧ is_const c = false ∧ col_ok 1 c
  | c => col_len c = n
  end.
Lemma replicate_head {A B} (f : A → B) (l : list A) n i :
  length l = 1%nat → (i < n)%nat → f <$> match l with x :: _ => replicate n x | [] => [] end !! i = f <$> l !! 0%nat.
Proof. destruct l as [|x [|]]; try done. intros _ Hi. by rewrite lookup_replicate_2. Qed.
Lemma replicate_one_get n c i : col_ok 1 c → is_const c = false → (i < n)%nat → col_get (replicate_one c n) i = col_get c 0.
Proof.
  induction c as [l|l|l|l|v c IH|c IH k|k]; simpl; intros Hc Hk Hi; try by apply replicate_head. 2-3: done.
  destruct Hc as (Hv & Hc & _ & Hcol). unfold get_bit at 1. rewrite lookup_replicate_2 by done. simpl.
  by destruct (get_bit v 0); [apply IH|].
Qed.
Lemma full_get n c i : col_ok n c → (i < n)%nat → col_get (convert_full_column c) i = col_get c i.
Proof.
  intros Hc Hi. destruct c as [l|l|l|l|v c|c k|k]; try done; simpl in *.
  - destruct Hc as (_ & Hk & Hn & Hc). destruct (get_bit v i); [|done]. by destruct c.
  - destruct Hc as (-> & Hk & Hc). by apply replicate_one_get.
Qed.
Definition full_columns (inner : AggregateFunction) (columns : list Column) : list Column :=
  if convert_const_to_full inner && existsb is_const columns then convert_full_column <$> columns else columns.
Lemma full_rows inner cols n : Forall (col_ok n) cols → rows_of (full_columns inner cols) n = rows_of cols n.
Proof.
  intros Hc. unfold full_columns. destruct (_ && _); [|done]. unfold rows_of. apply list_fmap_ext. intros j i Hi.
  assert (i < n)%nat as Hin by (apply lookup_seq in Hi; lia). unfold row_at. rewrite <-list_fmap_compose. apply list_fmap_ext.
  intros k c Hk. simpl. apply (full_get n); [|done]. by eapply Forall_lookup.
Qed.
Definition basic_spec (inner : AggregateFunction) (S : agg_spec) : agg_spec := {|
  as_args cols n := Forall (col_ok n) cols ∧ as_args S (full_columns inner cols) n;
  as_value := as_value S;
  as_rep := as_rep S |}.
#[export] Instance basic_lawful F S `{!Lawful F S} : Lawful (basic_adaptor F) (basic_spec F S).
Proof. destruct Lawful0. by split. Qed.
#[export] Instance basic_lawful_keys F S off `{!LawfulKeys F S off} : LawfulKeys (basic_adaptor F) (basic_spec F S) off.
Proof. intros h Q places cols n xs [Hc Hargs]. rewrite <-(full_rows F cols n Hc). by apply LawfulKeys0. Qed.
#[export] Instance basic_lawful_batch F S `{!LawfulBatch F S} : LawfulBatch (basic_adaptor F) (basic_spec F S).
Proof. intros h p cols n xs [Hc Hargs]. rewrite <-(full_rows F cols n Hc). by apply LawfulBatch0. Qed.

(** ** A condition *)

(** The arguments of a row whose last value, the condition, is true. *)
Definition under (k : nat) (r : Row) : option Row :=
  match r !! k with Some (Some (SBool true)) => Some (take k r) | _ => None end.
Definition if_spec (k : nat) (S : agg_spec) : agg_spec := {|
  as_args cols n := length cols = Datatypes.S k ∧ Forall (col_ok n) cols ∧ ∃ p, cols !! k = Some (BooleanColumn p) ∧
    as_args S ((λ c, col_filter c p) <$> take k cols) (length p - null_count p);
  as_value xs := as_value S (omap (under k) xs);
  as_rep h p xs := as_rep S h p (omap (under k) xs) |}.
#[export] Instance if_lawful k F S `{!Lawful F S} : Lawful (if_combinator (Datatypes.S k) F) (if_spec k S).
Proof.
  destruct Lawful0 as [Hsz Hal Hlo Hin Hby Hme Hre Hdr]. split; simpl; try done.
  - intros h h' p xs. apply Hlo.
  - intros h p xs Hp. destruct (Hby h p _ Hp) as (b & Hser & Henc). exists b. split; [done|]. intros h2 q ys r Hq. exact (Henc h2 q _ r Hq).
  - intros h p q xs ys. rewrite omap_app. apply Hme.
  - intros h p xs. apply Hre.
  - intros h p xs. apply Hdr.
Qed.

(** The rows a bitmap selects. *)
Fixpoint bits (p : list bool) : list nat :=
  match p with [] => [] | b :: p => (if b then [0%nat] else []) ++ (Datatypes.S <$> bits p) end.
Lemma null_count_cons b p : null_count (b :: p) = ((if b then 0 else 1) + null_count p)%nat.
Proof. unfold null_count. rewrite filter_cons. by destruct b. Qed.
Lemma null_count_le p : (null_count p ≤ length p)%nat.
Proof. apply length_filter. Qed.
Lemma length_bits p : length (bits p) = (length p - null_count p)%nat.
Proof.
  induction p as [|b p IH]; [done|]. rewrite null_count_cons. simpl. rewrite length_app, length_fmap, IH.
  pose proof (null_count_le p). destruct b; simpl; lia.
Qed.
Lemma length_filter_list {A} (l : list A) p : length l = length p → length (filter_list l p) = length (bits p).
Proof.
  revert l. induction p as [|b p IH]; intros [|x l]; try done. intros [= Hlen]. rewrite filter_list_cons. simpl.
  rewrite !length_app, length_fmap, IH by done. by destruct b.
Qed.
Lemma filter_list_lookup {A} (l : list A) p i : length l = length p → filter_list l p !! i = bits p !! i ≫= (l !!.).
Proof.
  revert l i. induction p as [|b p IH]; intros [|x l] i; try done. intros [= Hlen]. rewrite filter_list_cons. simpl.
  assert (∀ i, (Datatypes.S <$> bits p) !! i ≫= ((x :: l) !!.) = bits p !! i ≫= (l !!.)) as HS.
  { intros j. rewrite list_lookup_fmap. by destruct (bits p !! j). }
  destruct b; simpl; [|by rewrite HS, IH]. destruct i as [|i]; [done|]. simpl. by rewrite HS, IH.
Qed.
Lemma bits_lt p i j : bits p !! i = Some j → (j < length p)%nat.
Proof.
  revert i j. induction p as [|b p IH]; intros i j; [done|]. simpl. intros [H|[_ H]]%lookup_app_Some.
  - destruct b; [|done]. destruct i; [injection H as <-; lia|done].
  - apply list_lookup_fmap_Some in H as (j' & -> & Hj). apply IH in Hj. lia.
Qed.
Lemma bits_full p : null_count p = 0%nat → bits p = seq 0 (length p).
Proof.
  induction p as [|b p IH]; [done|]. rewrite null_count_cons. destruct b; [|lia]. simpl. intros Hn. rewrite IH by lia. by rewrite fmap_S_seq.
Qed.
Lemma filter_list_full {A} (l : list A) p : length l = length p → null_count p = 0%nat → filter_list l p = l.
Proof.
  intros Hlen Hn. apply list_eq. intros i. rewrite filter_list_lookup, bits_full by done.
  destruct (decide (i < length p)%nat) as [Hi|Hi]; [by rewrite (proj2 (lookup_seq 0 _ i i)) by lia|].
  rewrite lookup_seq_ge by lia. symmetry. apply lookup_ge_None. lia.
Qed.
Lemma col_filter_get n c p i j : col_ok n c → length p = n → bits p !! i = Some j → col_get (col_filter c p) i = col_get c j.
Proof.
  revert n. induction c as [l|l|l|l|v c IH|c IH k|k]; intros n Hc Hp Hij; simpl in *; try by rewrite filter_list_lookup, Hij by congruence.
  - destruct Hc as (Hv & _ & _ & Hc). destruct (Nat.eqb_spec (null_count p) 0) as [Hn|_]; simpl.
    + rewrite bits_full in Hij by done. by apply lookup_seq in Hij as [-> _].
    + rewrite (IH n) by done. unfold get_bit. by rewrite filter_list_lookup, Hij by congruence.
  - done.
  - done.
Qed.
Lemma filter_rows n cols p :
  Forall (col_ok n) cols → length p = n → rows_of ((λ c, col_filter c p) <$> cols) (length p - null_count p) = filter_list (rows_of cols n) p.
Proof.
  intros Hc Hp. apply list_eq. intros i. rewrite filter_list_lookup by by rewrite length_rows_of. rewrite <-length_bits. unfold rows_of.
  destruct (bits p !! i) as [j|] eqn:Hj; simpl.
  - pose proof (lookup_lt_Some _ _ _ Hj). pose proof (bits_lt _ _ _ Hj). rewrite !list_lookup_fmap, !lookup_seq_lt by lia. simpl.
    f_equal. unfold row_at. rewrite <-list_fmap_compose. apply list_fmap_ext. intros k c Hk. simpl. apply (col_filter_get n); [|done..].
    by eapply Forall_lookup.
  - apply lookup_ge_None in Hj. rewrite list_lookup_fmap, lookup_seq_ge by done. done.
Qed.
(** Selecting rows before or after grouping. *)
Lemma pick_filter k q (places : list Z) (rs : list Row) (p : list bool) :
  length places = length p → length rs = length p →
  (∀ i r, rs !! i = Some r → r !! k = Some (SBool <$> p !! i)) →
  pick q (filter_list places p) (take k <$> filter_list rs p) = omap (under k) (pick q places rs).
Proof.
  revert places rs. induction p as [|b p IH]; intros [|x places] [|r rs]; try done. intros [= Hp] [= Hr] Hb.
  rewrite !filter_list_cons, pick_cons, omap_app. pose proof (Hb 0%nat r eq_refl) as Hr0. simpl in Hr0.
  rewrite <-IH by (done || intros i r' Hi; exact (Hb (S i) r' Hi)). destruct b; simpl.
  - rewrite pick_cons. f_equal. destruct (decide (x = q)); [|done]. simpl. unfold under. by rewrite Hr0.
  - destruct (decide (x = q)); [|done]. simpl. unfold under. by rewrite Hr0.
Qed.
Lemma rows_of_take cols k n : rows_of (take k cols) n = take k <$> rows_of cols n.
Proof.
  unfold rows_of. rewrite <-list_fmap_compose. apply list_fmap_ext. intros i j _. unfold row_at. simpl. by rewrite fmap_take.
Qed.
Lemma filter_list_fmap {A B} (f : A → B) l p : filter_list (f <$> l) p = f <$> filter_list l p.
Proof.
  revert p. induction l as [|x l IH]; intros [|b p]; try done. rewrite fmap_cons, !filter_list_cons, fmap_app, IH. by destruct b.
Qed.
Lemma elem_of_filter_list {A} (x : A) l p : x ∈ filter_list l p → x ∈ l.
Proof.
  unfold filter_list. intros ((y & b) & -> & [_ Hin]%list_elem_of_filter)%list_elem_of_fmap. simpl.
  by apply elem_of_zip_l in Hin.
Qed.
#[export] Instance if_lawful_keys k F S off `{!LawfulKeys F S off} : LawfulKeys (if_combinator (Datatypes.S k) F) (if_spec k S) off.
Proof.
  intros h Q places cols n xs (Hk & Hc & p & Hp & Hargs) Hlen Hsub Hap Hrep.
  assert (length p = n) as Hpn by exact (proj1 (Forall_lookup _ _) Hc k _ Hp).
  assert ((if (null_count p =? 0)%nat then places else filter_list places p) = filter_list places p) as Hnew.
  { destruct (Nat.eqb_spec (null_count p) 0); [|done]. symmetry. apply filter_list_full; [congruence|done]. }
  simpl. am_step. rewrite Nat.sub_0_r, Hp. simpl. rewrite Hnew.
  destruct (LawfulKeys0 h Q (filter_list places p) _ _ (λ q, omap (under k) (xs q)) Hargs) as (h' & Hrun & Hr & Hfr); [| |done|done|].
  - rewrite <-length_bits. apply length_filter_list. congruence.
  - intros q Hq. by apply Hsub, (elem_of_filter_list _ _ p).
  - exists h'. split; [done|]. split; [|done]. intros q Hq. specialize (Hr q Hq). simpl. rewrite omap_app.
    rewrite <-(pick_filter k q places _ p); [|congruence|by rewrite length_rows_of|].
    + rewrite <-filter_list_fmap, <-rows_of_take, <-(filter_rows n); [done| |done]. by apply Forall_take.
    + intros i r Hi. unfold rows_of in Hi. apply list_lookup_fmap_Some in Hi as (j & -> & [-> _]%lookup_seq).
      unfold row_at. by rewrite list_lookup_fmap, Hp.
Qed.

(** *** Under a condition without GROUP BY: the condition becomes the bitmap of the nested function *)
Class LawfulMasked (F : AggregateFunction) (S : agg_spec) : Prop :=
  lw_masked h q cols n xs p :
    length p = n → as_args S ((λ c, col_filter c p) <$> cols) (length p - null_count p) → as_rep S h q xs →
    ∃ h', accumulate F q cols (Some p) n h = (Ok tt, h') ∧
      as_rep S h' q (xs ++ rows_of ((λ c, col_filter c p) <$> cols) (length p - null_count p)) ∧ frame h h' q (fsize F).
#[global] Hint Mode LawfulMasked ! - : typeclass_instances.
Lemma under_rows k (rs : list Row) (p : list bool) :
  length rs = length p → (∀ i r, rs !! i = Some r → r !! k = Some (SBool <$> p !! i)) → omap (under k) rs = take k <$> filter_list rs p.
Proof.
  revert rs. induction p as [|b p IH]; intros [|r rs]; try done. intros [= Hr] Hb. rewrite filter_list_cons, fmap_app. simpl.
  rewrite <-IH by (done || intros i r' Hi; exact (Hb (S i) r' Hi)). pose proof (Hb 0%nat r eq_refl) as Hr0. simpl in Hr0. unfold under. rewrite Hr0. by destruct b.
Qed.
#[export] Instance if_lawful_batch k F S `{!LawfulMasked F S} : LawfulBatch (if_combinator (Datatypes.S k) F) (if_spec k S).
Proof.
  intros h q cols n xs (Hk & Hc & p & Hp & Hargs) Hrep. assert (length p = n) as Hpn by exact (proj1 (Forall_lookup _ _) Hc k _ Hp).
  destruct (LawfulMasked0 h q (take k cols) n _ p Hpn Hargs Hrep) as (h' & Hrun & Hr & Hf). exists h'. simpl. split.
  - destruct cols as [|c0 cols]; [done|]. am_step. rewrite Nat.sub_0_r, Hp. exact Hrun.
  - split; [|done]. rewrite (filter_rows n) in Hr by (done || by apply Forall_take). rewrite omap_app, (under_rows k (rows_of cols n) p).
    + by rewrite rows_of_take, filter_list_fmap in Hr.
    + by rewrite length_rows_of.
    + intros i r Hi. unfold rows_of in Hi. apply list_lookup_fmap_Some in Hi as (j & -> & [-> _]%lookup_seq).
      unfold row_at. by rewrite list_lookup_fmap, Hp.
Qed.
Lemma masked_sum (l : list Z) (p : list bool) s :
  foldl (λ sum '(t, b), if (b : bool) then u64_wrap (sum + t) else sum) s (zip l p) = foldl (λ sum t, u64_wrap (sum + t)) s (filter_list l p).
Proof. revert p s. induction l as [|x l IH]; intros [|b p] s; try done. rewrite filter_list_cons. simpl. destruct b; simpl; apply IH. Qed.
Lemma masked_ints cols n p :
  int_args ((λ c, col_filter c p) <$> cols) n →
  ∃ c l, cols = [c] ∧ cast_boolean c = PrimitiveColumn l ∧ Forall2 (λ z r, int_of r = z) (filter_list l p) (rows_of ((λ c, col_filter c p) <$> cols) n).
Proof.
  intros Hargs. destruct (int_args_column _ _ Hargs) as (c' & l' & Hcols & Hcast & _ & Hrows). destruct cols as [|c [|]]; try done. injection Hcols as <-.
  destruct c as [l| |l| |v c| |]; try done; simpl in Hcast; [exists (PrimitiveColumn l), l|exists (BooleanColumn l), (bool_to_u8 <$> l)|simpl in Hargs; by destruct (null_count p =? 0)%nat].
  - injection Hcast as <-. by rewrite fmap_cons.
  - injection Hcast as <-. by rewrite filter_list_fmap.
Qed.

(** ** The functions of a query *)

(** What [AggregateFunctionFactory::get] makes of some names: the function, or the function under a condition, behind the
    adaptor for constant columns; count has its own form for a nullable argument. *)
Inductive AggName := NSum (signed : bool) | NAvg (signed : bool) | NCount | NBest (t : TypeKind) (c : ChangeIf).
Inductive AggCall := Call (f : AggName) | CallIf (arguments : nat) (f : AggName) | CountNullable.
Section calls.
Context `{!Bincode Z, !Bincode (Z * Z), !Bincode (option Scalar), !Layouts}.
Definition get_impl (f : AggName) : AggregateFunction :=
  match f with NSum s => sum_function s | NAvg s => avg_function s | NCount => count_function | NBest t c => minmax_function t c end.
Definition get_inner (c : AggCall) : AggregateFunction :=
  match c with Call f => get_impl f | CallIf k f => if_combinator (Datatypes.S k) (get_impl f) | CountNullable => count_function end.
Definition factory_get (c : AggCall) : AggregateFunction := basic_adaptor (get_inner c).
(** What they are to give. *)
Definition name_spec (f : AggName) : agg_spec :=
  match f with NSum s => sum_spec s | NAvg s => avg_spec s | NCount => count_spec false | NBest t c => minmax_spec t c end.
Definition inner_spec (c : AggCall) : agg_spec :=
  match c with Call f => name_spec f | CallIf k f => if_spec k (name_spec f) | CountNullable => count_spec true end.
Definition call_spec (c : AggCall) : agg_spec := basic_spec (get_inner c) (inner_spec c).
(** The calls that count rows by [accumulate_keys] without a bitmap: these are right only in the first place. *)
Definition counts_rows (c : AggCall) : bool := match c with Call NCount | CallIf _ NCount => true | _ => false end.
(** The calls that are right without GROUP BY: not count of a nullable argument, nor min, max and any under a condition. *)
Definition batch_call (c : AggCall) : bool := match c with CallIf _ (NBest _ _) | CountNullable => false | _ => true end.

Context `{!BincodeLaws Z word_ok, !BincodeLaws (Z * Z) (λ x, word_ok x.1 ∧ word_ok x.2), !BincodeLaws (option Scalar) (λ _, True)}.
#[local] Hint Resolve Forall_any : core.
#[export] Instance sum_lawful_masked signed : LawfulMasked (sum_function signed) (sum_spec signed).
Proof.
  intros h q cols n xs p Hp Hargs Hrep. destruct (masked_ints cols _ p Hargs) as (c & l & -> & Hc & HR).
  simpl. unfold column0, sum_primitive. am_step. simpl. rewrite Hc. simpl. rewrite masked_sum, (sum_rows_ints _ _ HR).
  rewrite (sum_add_ok h q xs _ _ Hrep (u64_wrap_wrap _)). eexists. split; [done|]. split; [by apply cell_write|by apply frame_insert].
Qed.
#[export] Instance avg_lawful_masked signed : LawfulMasked (avg_function signed) (avg_spec signed).
Proof.
  intros h q cols n xs p Hp Hargs Hrep. destruct (masked_ints cols _ p Hargs) as (c & l & -> & Hc & HR).
  simpl. unfold column0, sum_primitive. am_step. simpl. rewrite Hc. simpl. rewrite masked_sum, (sum_rows_ints _ _ HR). pose proof (null_count_le p).
  erewrite (avg_add_ok h q xs _ _ _ Hrep (u64_wrap_wrap _)) by (rewrite length_rows_of; f_equal; lia).
  eexists. split; [done|]. split; [by apply cell_write|by apply frame_insert].
Qed.
#[export] Instance count_lawful_masked : LawfulMasked count_function (count_spec false).
Proof.
  intros h q cols n xs p Hp [_ Hall] Hrep. pose proof (null_count_le p). simpl. erewrite (count_add_ok h q xs _ _ Hrep).
  - eexists. split; [done|]. split; [by apply cell_write|by apply frame_insert].
  - rewrite (count_rows_all _ Hall), length_rows_of. lia.
Qed.
Context (scalar_layout : 0 < l_size scalar_state_layout ∧ is_power_of_two (l_align scalar_state_layout) = true).
Lemma call_lawful c : Lawful (factory_get c) (call_spec c).
Proof using All.
  apply basic_lawful. assert (∀ f, Lawful (get_impl f) (name_spec f)) as Hf by (intros []; simpl; first [apply _|by apply minmax_lawful]).
  destruct c as [f|k f|]; [apply Hf|apply if_lawful, Hf|simpl; apply _].
Qed.
Lemma call_lawful_keys c off : (counts_rows c = true → off = 0) → LawfulKeys (factory_get c) (call_spec c) off.
Proof using All.
  intros Hoff. apply basic_lawful_keys. assert (∀ f, (f = NCount → off = 0) → LawfulKeys (get_impl f) (name_spec f) off) as Hf.
  { intros [] Ho; simpl; first [apply _|by apply minmax_lawful_keys|rewrite Ho by done; apply _]. }
  destruct c as [f|k f|]; [apply Hf|apply if_lawful_keys, Hf|simpl; apply _]; intros ->; by apply Hoff.
Qed.
Lemma call_lawful_batch c : batch_call c = true → LawfulBatch (factory_get c) (call_spec c).
Proof using All.
  intros Hc. apply basic_lawful_batch. destruct c as [f|k f|]; [|apply if_lawful_batch|done]; destruct f; try done; simpl; first [apply _|by apply minmax_lawful_batch].
Qed.
End calls.
