(* ===== verification/AggState.v ===== *)
(** * The states of a GROUP BY (src/query/src/pipelines/transforms/group_by).

    A state maps the keys of the groups to the places of their aggregate states, and owns
    the memory area of these.  There are three: an array indexed by the key for keys of
    one or two bytes, and hash tables for longer integers and for byte strings.  The
    class [AggregatorStateLaws] is what the aggregators rely on; the three keep it. *)
From S2P Require Import Prelude HashTable HashTableProps HashTableKinds Column AggFunction.
#[local] Open Scope Z_scope.

(** ** Memory areas: the crate bumpalo *)
Class Bump := { bump : Type; bump_new : bump; alloc_layout : Layout → bump → Z * bump }.
(** Allocations of one area do not overlap and are aligned. *)
Definition range_apart (x y : Z * Z) : Prop := x.1 + x.2 ≤ y.1 ∨ y.1 + y.2 ≤ x.1.
Class BumpLaws `{!Bump} := {
  bump_ok : bump → list (Z * Z) → Prop;
  bump_new_ok : bump_ok bump_new [];
  bump_alloc_ok b l ly a b' : bump_ok b l → alloc_layout ly b = (a, b') →
    bump_ok b' ((a, l_size ly) :: l) ∧ Forall (range_apart (a, l_size ly)) l ∧ (is_power_of_two (l_align ly) = true → (l_align ly | a));
}.

(** ** The interface: aggregator_state.rs *)
Class AggregatorState (K St : Type) := {
  st_ptr : Type;
  st_len : St → Z;
  st_iter : St → option (list (K * Z));
  st_alloc_place : Layout → St → Z * St;
  st_entity : K → St → option (st_ptr * bool * St);
  st_get_value : St → st_ptr → option Z;
  st_set_value : Z → st_ptr → St → St;
  st_is_two_level : St → bool;
  st_convert_to_two_level : St → option St;
}.
#[global] Hint Mode AggregatorState - ! : typeclass_instances.
Class AggregatorStateLaws (K St : Type) `{Countable K, !AggregatorState K St} := {
  st_key_ok : K → Prop;
  st_ok : St → gmap K Z → list (Z * Z) → Prop;
  st_points : St → st_ptr → K → Prop;
  st_len_ok st g al : st_ok st g al → st_len st = Z.of_nat (size g);
  st_iter_ok st g al : st_ok st g al → ∃ l, st_iter st = Some l ∧ map_to_list g ≡ₚ l;
  st_alloc_ok st g al ly a st' : st_ok st g al → st_alloc_place ly st = (a, st') →
    st_ok st' g ((a, l_size ly) :: al) ∧ Forall (range_apart (a, l_size ly)) al ∧ (∀ p k, st_points st p k → st_points st' p k);
  st_entity_ok st g al k : st_ok st g al → st_key_ok k → Z.of_nat (size g) < 2 ^ 57 →
    ∃ p st', st_entity k st = Some (p, bool_decide (g !! k = None), st') ∧
      st_ok st' (if bool_decide (g !! k = None) then <[k:=0]> g else g) al ∧ st_points st' p k;
  st_get_ok st g al p k : st_ok st g al → st_points st p k → st_get_value st p = g !! k;
  st_set_ok st g al p k v : st_ok st g al → st_points st p k → st_ok (st_set_value v p st) (<[k:=v]> g) al;
  st_convert_ok st g al : st_ok st g al → st_is_two_level st = false → Z.of_nat (size g) < 2 ^ 57 →
    ∃ st', st_convert_to_two_level st = Some st' ∧ st_ok st' g al;
}.

Section states.
Context `{!Bump}.

(** ** Keys of one or two bytes: an array *)
Record ShortEntity := mkShort { se_key : Z; se_value : Z; se_fill : bool }.
Record ShortState := mkShortState {
  ss_area : bump; ss_size : Z; ss_max_size : Z; ss_data : list ShortEntity; ss_two_level : bool }.
Definition short_create (max_size : Z) : ShortState :=
  mkShortState bump_new 0 max_size (replicate (Z.to_nat max_size) (mkShort 0 0 false)) false.
Definition short_cell (l : list ShortEntity) (index : Z) : option ShortEntity := if 0 <=? index then l !! Z.to_nat index else None.
(** [ShortFixedKeysStateIterator::next] from a position; the loop over it. *)
Fixpoint short_next (fuel : nat) (l : list ShortEntity) (capacity index : Z) : option (option ShortEntity * Z) :=
  match fuel with
  | O => None
  | S fuel =>
      if index <? capacity then
        e ← short_cell l index;
        if se_fill e then Some (Some e, index + 1) else short_next fuel l capacity (index + 1)
      else Some (None, index)
  end.
Fixpoint short_entries (fuel : nat) (l : list ShortEntity) (capacity index : Z) : option (list (Z * Z)) :=
  match fuel with
  | O => None
  | S fuel =>
      '(e, index) ← short_next (S (Z.to_nat (capacity - index))) l capacity index;
      match e with
      | None => Some []
      | Some e => es ← short_entries fuel l capacity index; Some ((se_key e, se_value e) :: es)
      end
  end.
Definition short_entity (key : Z) (self : ShortState) : option (Z * bool * ShortState) :=
  let index := key in
  value ← short_cell (ss_data self) index;
  if se_fill value then Some (index, false, self)
  else Some (index, true, mkShortState (ss_area self) (ss_size self + 1) (ss_max_size self)
    (<[Z.to_nat index:=mkShort key (se_value value) true]> (ss_data self)) (ss_two_level self)).
#[export] Instance short_state : AggregatorState Z ShortState := {|
  st_ptr := Z;
  st_len := ss_size;
  st_iter self := short_entries (S (Z.to_nat (ss_max_size self))) (ss_data self) (ss_max_size self) 0;
  st_alloc_place ly self :=
    let '(a, b) := alloc_layout ly (ss_area self) in
    (a, mkShortState b (ss_size self) (ss_max_size self) (ss_data self) (ss_two_level self));
  st_entity := short_entity;
  st_get_value self p := se_value <$> short_cell (ss_data self) p;
  st_set_value v p self := mkShortState (ss_area self) (ss_size self) (ss_max_size self)
    (alter (λ e, mkShort (se_key e) v (se_fill e)) (Z.to_nat p) (ss_data self)) (ss_two_level self);
  st_is_two_level := ss_two_level;
  st_convert_to_two_level self :=
    Some (mkShortState (ss_area self) (ss_size self) (ss_max_size self) (ss_data self) true) |}.

(** ** Longer keys: a hash table *)
Section hashed.
Context {K : Type} `{!EqDecision K, !HashTableKeyable K, !Zeroed K}.
#[local] Instance zero_usize : Zeroed Z := 0.
Record HashedState := mkHashedState { hs_area : bump; hs_keys_area : bump; hs_data : HashTableKind K Z; hs_two_level : bool }.
Definition hashed_create : HashedState := mkHashedState bump_new bump_new create_hash_table false.
(** Fixed keys go into the table as they are. *)
Definition fixed_entity (key : K) (self : HashedState) : option ((nat * ptr) * bool * HashedState) :=
  '(p, inserted, data) ← kind_insert_key (hs_data self) key;
  Some (p, inserted, mkHashedState (hs_area self) (hs_keys_area self) data (hs_two_level self)).
(** The bytes of a new key are copied to the area of keys, and the entry refers to the copy. *)
Definition serialized_entity (key_size : K → Z) (key : K) (self : HashedState) : option ((nat * ptr) * bool * HashedState) :=
  '(p, inserted, data) ← kind_insert_key (hs_data self) key;
  if (inserted : bool) then
    let '(_, keys_area) := alloc_layout (mkLayout (key_size key) 1) (hs_keys_area self) in
    e ← kind_deref data p;
    let inserted_hash := e_hash e in
    Some (p, inserted, mkHashedState (hs_area self) keys_area
      (kind_update (λ e, set_key_and_hash e key inserted_hash) data p) (hs_two_level self))
  else Some (p, inserted, mkHashedState (hs_area self) (hs_keys_area self) data (hs_two_level self)).
Definition hashed_iter (self : HashedState) : option (list (K * Z)) :=
  match kind_list (hs_data self) with Some es => Some (map entry es) | None => None end.
Definition hashed_convert (self : HashedState) : option HashedState :=
  match convert_to_two_level (hs_data self) with
  | Some data => Some (mkHashedState (hs_area self) (hs_keys_area self) data true)
  | None => None
  end.
Definition hashed_state (entity : K → HashedState → option ((nat * ptr) * bool * HashedState)) : AggregatorState K HashedState := {|
  st_ptr := nat * ptr;
  st_len self := kind_len (hs_data self);
  st_iter := hashed_iter;
  st_alloc_place ly self :=
    let '(a, b) := alloc_layout ly (hs_area self) in (a, mkHashedState b (hs_keys_area self) (hs_data self) (hs_two_level self));
  st_entity := entity;
  st_get_value self p := match kind_deref (hs_data self) p with Some e => Some (e_value e) | None => None end;
  st_set_value v p self := mkHashedState (hs_area self) (hs_keys_area self) (kind_update (set_value v) (hs_data self) p) (hs_two_level self);
  st_is_two_level := hs_two_level;
  st_convert_to_two_level := hashed_convert |}.
End hashed.
End states.
Arguments HashedState {_} K.

(** ** The array *)
Section short.
Context `{!Bump, !BumpLaws}.
Implicit Types (l : list ShortEntity) (g : gmap Z Z).
Definition short_entry (e : ShortEntity) : Z * Z := (se_key e, se_value e).
Record short_ok (max : Z) (st : ShortState) g (al : list (Z * Z)) : Prop := {
  so_area : bump_ok (ss_area st) al;
  so_max : ss_max_size st = max;
  so_len : Z.of_nat (length (ss_data st)) = max;
  so_size : ss_size st = Z.of_nat (size g);
  so_key k e : short_cell (ss_data st) k = Some e → se_fill e = true → se_key e = k;
  so_empty k e : short_cell (ss_data st) k = Some e → se_fill e = false → se_value e = 0;
  so_map k v : g !! k = Some v ↔ ∃ e, short_cell (ss_data st) k = Some e ∧ se_fill e = true ∧ se_value e = v;
}.
Lemma short_cell_lookup l (i : nat) : short_cell l (Z.of_nat i) = l !! i.
Proof. unfold short_cell. by rewrite (proj2 (Z.leb_le 0 _)), Nat2Z.id by lia. Qed.
Lemma short_cell_some l k e : short_cell l k = Some e → 0 ≤ k < Z.of_nat (length l) ∧ l !! Z.to_nat k = Some e.
Proof. unfold short_cell. destruct (Z.leb_spec 0 k); [|done]. intros He. pose proof (lookup_lt_Some _ _ _ He). split; [lia|done]. Qed.
Lemma short_cell_in l k : 0 ≤ k < Z.of_nat (length l) → is_Some (short_cell l k).
Proof. intros Hk. unfold short_cell. rewrite (proj2 (Z.leb_le 0 k)) by lia. apply lookup_lt_is_Some. lia. Qed.
Lemma short_cell_insert l k j e :
  0 ≤ k < Z.of_nat (length l) → short_cell (<[Z.to_nat k:=e]> l) j = if decide (k = j) then Some e else short_cell l j.
Proof.
  intros Hk. unfold short_cell. destruct (Z.leb_spec 0 j); [|rewrite decide_False by lia; done].
  destruct (decide (k = j)) as [->|]; [apply list_lookup_insert_eq; lia|apply list_lookup_insert_ne; lia].
Qed.
Lemma short_next_ok l capacity index fuel :
  Z.of_nat (length l) = capacity → 0 ≤ index ≤ capacity → capacity - index < Z.of_nat fuel →
  ∃ r index', short_next fuel l capacity index = Some (r, index') ∧ 0 ≤ index' ≤ capacity ∧
    filter (λ e, se_fill e = true) (drop (Z.to_nat index) l) =
      match r with Some e => e :: filter (λ e, se_fill e = true) (drop (Z.to_nat index') l) | None => [] end.
Proof.
  intros Hlen. revert index. induction fuel as [|fuel IH]; intros index Hi Hf; [lia|]. simpl.
  destruct (Z.ltb_spec index capacity); [|eexists None, index; split; [done|]; split; [lia|by rewrite drop_ge by lia]].
  destruct (short_cell_in l index) as [e He]; [lia|]. rewrite He. simpl. apply short_cell_some in He as [_ He].
  rewrite (drop_S _ _ _ He). replace (S (Z.to_nat index)) with (Z.to_nat (index + 1)) by lia. destruct (se_fill e) eqn:Hfill.
  - eexists (Some e), (index + 1). split; [done|]. split; [lia|]. by rewrite filter_cons_True.
  - rewrite filter_cons_False by congruence. apply IH; lia.
Qed.
Lemma short_entries_ok l capacity index fuel :
  Z.of_nat (length l) = capacity → 0 ≤ index ≤ capacity → (length (filter (λ e, se_fill e = true) (drop (Z.to_nat index) l)) < fuel)%nat →
  short_entries fuel l capacity index = Some (short_entry <$> filter (λ e, se_fill e = true) (drop (Z.to_nat index) l)).
Proof.
  intros Hlen. revert index. induction fuel as [|fuel IH]; intros index Hi Hf; [lia|]. cbn [short_entries].
  destruct (short_next_ok l capacity index (S (Z.to_nat (capacity - index))) Hlen Hi) as (r & index' & -> & Hi' & Heq); [lia|]. simpl.
  rewrite Heq in Hf |- *. destruct r as [e|]; [|done]. simpl in Hf. rewrite IH by lia. done.
Qed.
Lemma short_keys_nodup l : (∀ k e, short_cell l k = Some e → se_fill e = true → se_key e = k) →
  NoDup (se_key <$> filter (λ e, se_fill e = true) l).
Proof.
  intros Hkey. assert (∀ i e, l !! i = Some e → se_fill e = true → se_key e = Z.of_nat i) as Hk.
  { intros i e Hi. apply Hkey. by rewrite short_cell_lookup. }
  clear Hkey. assert (∀ n, (∀ i e, l !! i = Some e → se_fill e = true → se_key e = Z.of_nat (n + i)) →
    NoDup (se_key <$> filter (λ e, se_fill e = true) l) ∧ ∀ k, k ∈ se_key <$> filter (λ e, se_fill e = true) l → Z.of_nat n ≤ k) as Hgen; [|by apply (Hgen 0%nat)].
  clear Hk. induction l as [|e l IH]; intros n Hk; [split; [apply NoDup_nil_2|by intros k ?%elem_of_nil]|].
  destruct (IH (S n)) as [Hnd Hle]. { intros i f Hi Hf. rewrite (Hk (S i) f) by done. lia. }
  rewrite filter_cons. destruct (decide (se_fill e = true)) as [He|He]; [|split; [done|intros k Hkin; specialize (Hle k Hkin); lia]].
  pose proof (Hk 0%nat e eq_refl He) as Hk0. rewrite fmap_cons. split.
  - apply NoDup_cons. split; [|done]. intros Hin. apply Hle in Hin. lia.
  - intros k [->|Hin]%elem_of_cons; [lia|]. apply Hle in Hin. lia.
Qed.
Lemma short_contents max st g al : short_ok max st g al → map_to_list g ≡ₚ short_entry <$> filter (λ e, se_fill e = true) (ss_data st).
Proof.
  intros Hok. apply NoDup_Permutation; [apply NoDup_map_to_list| |].
  - apply (NoDup_fmap_1 fst). rewrite <-list_fmap_compose. apply (short_keys_nodup (ss_data st)), Hok.
  - intros [k v]. rewrite elem_of_map_to_list, (so_map _ _ _ _ Hok), list_elem_of_fmap. setoid_rewrite list_elem_of_filter. split.
    + intros (e & He & Hf & Hv). exists e. unfold short_entry. rewrite (so_key _ _ _ _ Hok k e He Hf), Hv. split; [done|]. split; [done|].
      apply short_cell_some in He as [_ He]. by eapply list_elem_of_lookup_2.
    + intros (e & [= -> ->] & Hf & (i & Hi)%list_elem_of_lookup). rewrite <-short_cell_lookup in Hi.
      rewrite (so_key _ _ _ _ Hok _ e Hi Hf). by exists e.
Qed.
Lemma short_create_ok max : 0 ≤ max → short_ok max (short_create max) ∅ [].
Proof.
  intros Hm. assert (∀ k e, short_cell (replicate (Z.to_nat max) (mkShort 0 0 false)) k = Some e → e = mkShort 0 0 false) as He.
  { by intros k e [_ [-> _]%lookup_replicate]%short_cell_some. }
  split; simpl; [apply bump_new_ok|done|rewrite length_replicate; lia|by rewrite map_size_empty|..].
  - by intros k e ->%He.
  - by intros k e ->%He.
  - intros k v. rewrite lookup_empty. split; [done|]. by intros (e & ->%He & ? & _).
Qed.
Definition short_points (st : ShortState) (p k : Z) : Prop := p = k ∧ ∃ e, short_cell (ss_data st) k = Some e ∧ se_fill e = true.
Lemma short_entity_ok max st g al k :
  short_ok max st g al → 0 ≤ k < max →
  ∃ st', short_entity k st = Some (k, bool_decide (g !! k = None), st') ∧
    short_ok max st' (if bool_decide (g !! k = None) then <[k:=0]> g else g) al ∧ short_points st' k k.
Proof.
  intros Hok Hk. pose proof (so_len _ _ _ _ Hok) as Hlen. destruct (short_cell_in (ss_data st) k) as [e He]; [lia|].
  unfold short_entity. rewrite He. simpl. destruct (se_fill e) eqn:Hf.
  - rewrite bool_decide_false. { exists st. split_and!; [done..|]. split; [done|eauto]. }
    rewrite (proj2 (so_map _ _ _ _ Hok k (se_value e))); [done|eauto].
  - assert (g !! k = None) as Hno.
    { apply eq_None_not_Some. intros [v (f & Hf' & Hff & _)%(so_map _ _ _ _ Hok)]. congruence. }
    rewrite bool_decide_true by done. eexists. split; [done|]. pose proof Hok as [Ha Hm _ Hs Hkey Hem Hmap].
    assert (∀ j, short_cell (<[Z.to_nat k:=mkShort k (se_value e) true]> (ss_data st)) j =
      if decide (k = j) then Some (mkShort k (se_value e) true) else short_cell (ss_data st) j) as Hc by (intros j; apply short_cell_insert; lia).
    pose proof (Hem k e He Hf) as He0. split.
    + split; simpl; [done|done|by rewrite length_insert|rewrite map_size_insert_None by done; lia|..]; intros j; rewrite Hc.
      * intros f. destruct (decide (k = j)) as [->|]; [by intros [= <-]|apply Hkey].
      * intros f. destruct (decide (k = j)) as [->|]; [by intros [= <-]|apply Hem].
      * intros v. rewrite lookup_insert_Some. destruct (decide (k = j)) as [->|Hne].
        -- split; [intros [[_ <-]|[? _]]; [by eexists|done]|]. intros (f & [= <-] & _ & <-). by left.
        -- rewrite Hmap. split; [by intros [[? _]|[_ ?]]|]. by right.
    + split; [done|]. simpl. rewrite Hc, decide_True by done. eauto.
Qed.
Lemma short_set_ok max st g al k v :
  short_ok max st g al → short_points st k k → short_ok max (st_set_value (AggregatorState:=short_state) v k st) (<[k:=v]> g) al.
Proof.
  intros Hok [_ (e & He & Hf)]. pose proof Hok as [Ha Hm Hlen Hs Hkey Hem Hmap]. pose proof (short_cell_some _ _ _ He) as [Hk Hl].
  assert (g !! k = Some (se_value e)) as Hg by (apply Hmap; eauto). simpl. rewrite (alter_as_insert _ _ _ _ Hl).
  assert (∀ j, short_cell (<[Z.to_nat k:=mkShort (se_key e) v (se_fill e)]> (ss_data st)) j =
    if decide (k = j) then Some (mkShort (se_key e) v (se_fill e)) else short_cell (ss_data st) j) as Hc by (intros j; apply short_cell_insert; lia).
  split; simpl; [done|done|by rewrite length_insert|rewrite map_size_insert_Some; [done|eauto]|..]; intros j; rewrite Hc.
  - intros f. destruct (decide (k = j)) as [->|]; [|apply Hkey]. intros [= <-] _. simpl. by apply Hkey.
  - intros f. destruct (decide (k = j)) as [->|]; [|apply Hem]. intros [= <-]. simpl. congruence.
  - intros w. rewrite lookup_insert_Some. destruct (decide (k = j)) as [->|Hne].
    + split; [intros [[_ <-]|[? _]]; [by eexists|done]|]. intros (f & [= <-] & _ & <-). by left.
    + rewrite Hmap. split; [by intros [[? _]|[_ ?]]|]. by right.
Qed.
#[refine] Instance short_laws (max : Z) : AggregatorStateLaws Z ShortState := {|
  st_key_ok k := 0 ≤ k < max; st_ok := short_ok max; st_points := short_points |}.
Proof.
  - intros st g al. apply so_size.
  - intros st g al Hok. cbn [st_iter short_state]. pose proof (so_len _ _ _ _ Hok) as Hlen. rewrite (so_max _ _ _ _ Hok).
    eexists. split; [apply short_entries_ok; [done|lia|]|by eapply short_contents].
    rewrite drop_0. pose proof (length_filter (λ e, se_fill e = true) (ss_data st)). lia.
  - intros st g al ly a st' Hok. simpl. destruct (alloc_layout ly (ss_area st)) as [b b'] eqn:Hal. intros [= -> <-].
    destruct (bump_alloc_ok _ _ _ _ _ (so_area _ _ _ _ Hok) Hal) as (Hb & Hap & _). split; [|done]. destruct Hok. by split.
  - intros st g al k Hok Hk _. destruct (short_entity_ok max st g al k Hok Hk) as (st' & ? & ? & ?). by exists k, st'.
  - intros st g al p k Hok [-> (e & He & Hf)]. simpl. rewrite He. simpl. symmetry. apply (so_map _ _ _ _ Hok). eauto.
  - intros st g al p k v Hok Hp. destruct Hp as [-> Hp]. by apply short_set_ok.
  - intros st g al Hok _ _. eexists. split; [done|]. destruct Hok. by split.
Defined.
End short.

(** ** The hash tables *)
Section hashed.
Context `{!Bump, !BumpLaws}.
Context {K : Type} `{Countable K, !HashTableKeyable K, !Zeroed K, !KeyableLaws K}.
Implicit Types (g : gmap K Z) (st : HashedState K).
#[local] Existing Instance zero_usize.
Lemma update_points (t : HashTable K Z) p e f : points t p e → e_key (f e) = e_key e → points (update f t p) p (f e).
Proof.
  intros Hp Hk. destruct p as [q|]; simpl in *; [|by rewrite Hp]. destruct Hp as [Hq Hz]. pose proof (cell_some _ _ _ Hq).
  rewrite cell_alter, decide_True, Hq by lia. split; [done|]. unfold is_zero in *. by rewrite Hk.
Qed.
Lemma kind_update_points (kd : HashTableKind K Z) p e f :
  kind_points kd p e → e_key (f e) = e_key e → kind_points (kind_update f kd p) p (f e).
Proof.
  destruct kd as [t|ts]; simpl; [apply update_points|]. intros (t & Ht & Hp) Hk. exists (update f t p.2).
  split; [by rewrite list_lookup_alter_eq, Ht|by apply update_points].
Qed.
Definition hashed_ok st g (al : list (Z * Z)) : Prop :=
  bump_ok (hs_area st) al ∧ kind_ok (hs_data st) g ∧ (hs_two_level st = false → ∃ t, hs_data st = OneLevel t).
Definition hashed_points st (p : nat * ptr) (k : K) : Prop := ∃ e, kind_points (hs_data st) p e ∧ e_key e = k.
Lemma hashed_create_ok : hashed_ok hashed_create ∅ [].
Proof. split; [apply bump_new_ok|]. split; [apply kind_create_ok|]. intros _. by eexists. Qed.
Lemma insert_keeps_level (kd : HashTableKind K Z) k p b kd' :
  kind_insert_key kd k = Some (p, b, kd') → (∃ t, kd = OneLevel t) → ∃ t, kd' = OneLevel t.
Proof.
  intros Hi [t ->]. cbn [kind_insert_key] in Hi. destruct (insert_key single_level_limit t k) as [[[p' b'] t']|]; [|done].
  injection Hi as <- <- <-. by eexists.
Qed.
Definition entity_ok (entity : K → HashedState K → option ((nat * ptr) * bool * HashedState K)) : Prop :=
  ∀ st g al k, hashed_ok st g al → Z.of_nat (size g) < 2 ^ 57 →
    ∃ p st', entity k st = Some (p, bool_decide (g !! k = None), st') ∧
      hashed_ok st' (if bool_decide (g !! k = None) then <[k:=0]> g else g) al ∧ hashed_points st' p k.
Lemma fixed_entity_ok : entity_ok fixed_entity.
Proof.
  intros st g al k (Ha & Hd & Hl) Hs. destruct (kind_insert_ok (hs_data st) g k Hd Hs) as (p & kd' & Hi & Hok & e & Hp & He).
  unfold fixed_entity. rewrite Hi. cbn [mbind option_bind]. eexists p, _. split; [done|]. split; [|by exists e].
  split; [done|]. split; [done|]. intros Ht. by eapply insert_keeps_level, Hl.
Qed.
Lemma serialized_entity_ok key_size : entity_ok (serialized_entity key_size).
Proof.
  intros st g al k (Ha & Hd & Hl) Hs. destruct (kind_insert_ok (hs_data st) g k Hd Hs) as (p & kd' & Hi & Hok & e & Hp & He).
  assert (hs_two_level st = false → ∃ t, kd' = OneLevel t) as Hl' by (intros Ht; by eapply insert_keeps_level, Hl).
  unfold serialized_entity. rewrite Hi. cbn [mbind option_bind]. destruct (g !! k) as [v|] eqn:Hg.
  - rewrite bool_decide_false in Hok |- * by done. eexists p, _. split; [done|]. split; [by split_and!|by exists e].
  - rewrite bool_decide_true in Hok |- * by done. destruct (alloc_layout _ (hs_keys_area st)) as [a b]. rewrite (kind_deref_ok _ _ _ Hp).
    cbn [mbind option_bind]. set (f := λ e0, set_key_and_hash e0 k (e_hash e)). eexists p, _. split; [done|].
    assert (e_key (f e) = e_key e) as Hk by (unfold f; simpl; by rewrite kl_set).
    pose proof (kind_update_ok kd' _ p e f Hok Hp Hk eq_refl) as Hu. pose proof (kind_points_entry _ _ _ _ Hok Hp) as Hv.
    change (e_value (f e)) with (e_value e) in Hu. rewrite insert_id in Hu by done. split.
    + split; [done|]. split; [done|]. simpl. intros Ht. destruct (Hl' Ht) as [t ->]. by eexists.
    + exists (f e). split; [by apply kind_update_points|congruence].
Qed.
#[refine] Definition hashed_laws entity (Hentity : entity_ok entity) : @AggregatorStateLaws K (HashedState K) _ _ (hashed_state entity) := {|
  st_key_ok _ := True; st_ok := hashed_ok; st_points := (hashed_points : HashedState K → @st_ptr _ _ (hashed_state entity) → K → Prop) |}.
Proof.
  - intros st g al (_ & Hd & _). by apply kind_len_ok.
  - intros st g al (_ & Hd & _). destruct (kind_list_ok _ _ Hd) as (es & Hes & Hp). simpl. unfold hashed_iter. rewrite Hes.
    eexists. split; [done|]. exact Hp.
  - intros st g al ly a st' (Ha & Hd & Hl). simpl. destruct (alloc_layout ly (hs_area st)) as [b b'] eqn:Hal. intros [= -> <-].
    destruct (bump_alloc_ok _ _ _ _ _ Ha Hal) as (Hb & Hap & _). split; [by split_and!|]. by split.
  - intros st g al k Hok _ Hs. by apply Hentity.
  - intros st g al p k (_ & Hd & _) (e & Hp & <-). simpl. rewrite (kind_deref_ok _ _ _ Hp). symmetry. by eapply kind_points_entry.
  - intros st g al p k v (Ha & Hd & Hl) (e & Hp & <-). split; [done|]. split.
    + exact (kind_update_ok _ _ _ e (set_value v) Hd Hp eq_refl eq_refl).
    + simpl. intros Ht. destruct (Hl Ht) as [t Hdt]. rewrite Hdt. by eexists.
  - intros st g al (Ha & Hd & Hl) Ht Hs. destruct (Hl Ht) as [t Hdt]. rewrite Hdt in Hd. destruct Hd as [d Hd].
    destruct (convert_ok d t g Hd Hs) as (ts & Hts & Hok). simpl. unfold hashed_convert. rewrite Hdt, Hts. eexists. split; [done|].
    by split_and!.
Defined.
End hashed.
