(* ===== verification/AggLayout.v ===== *)
(** * The states of several aggregate functions in one allocation. *)
From S2P Require Import Prelude Column AggFunction AggLaws.
#[local] Open Scope Z_scope.

Definition falign (F : AggregateFunction) : Z := l_align (state_layout F).
(** Layouts as the compiler gives them. *)
Definition layout_ok (F : AggregateFunction) : Prop := 0 < fsize F ∧ is_power_of_two (falign F) = true.

Lemma power_of_two_pow n : is_power_of_two n = true → ∃ k, 0 ≤ k ∧ n = 2 ^ k.
Proof.
  unfold is_power_of_two. rewrite andb_true_iff, Z.ltb_lt, Z.eqb_eq. intros [Hn Hl]. exists (Z.log2 n).
  pose proof (Z.log2_nonneg n) as Hk. split; [done|]. destruct (Z.log2_spec n Hn) as [Hlo Hhi]. rewrite Z.pow_succ_r in Hhi by done.
  destruct (Z.eq_dec n (2 ^ Z.log2 n)) as [|Hne]; [done|]. exfalso.
  assert (Z.testbit (Z.land n (n - 1)) (Z.log2 n) = true) as Hbit; [|rewrite Hl, Z.bits_0 in Hbit; done].
  assert (Z.log2 (n - 1) = Z.log2 n) as Hlog by (apply Z.log2_unique; [done|rewrite Z.pow_succ_r by done; lia]).
  rewrite Z.land_spec, Z.bit_log2 by done. rewrite <-Hlog. rewrite Z.bit_log2; [done|]. lia.
Qed.
Lemma pow_divide a b : 0 ≤ a ≤ b → (2 ^ a | 2 ^ b).
Proof. intros Hab. exists (2 ^ (b - a)). rewrite <-Z.pow_add_r by lia. f_equal. lia. Qed.
Lemma power_of_two_divide a b : is_power_of_two a = true → is_power_of_two b = true → a ≤ b → (a | b).
Proof.
  intros (x & Hx & ->)%power_of_two_pow (y & Hy & ->)%power_of_two_pow Hle. apply pow_divide. split; [done|].
  apply (Z.pow_le_mono_r_iff 2); lia.
Qed.
(** Rounding up. *)
Lemma round_up t a : 0 < a → let o := (t + a - 1) `div` a * a in (a | o) ∧ t ≤ o < t + a.
Proof.
  intros Ha. simpl. split; [by exists ((t + a - 1) / a)|]. pose proof (Z.div_mod (t + a - 1) a). pose proof (Z.mod_pos_bound (t + a - 1) a). lia.
Qed.
Lemma align_pos F : layout_ok F → 0 < falign F.
Proof. intros [_ (k & Hk & ->)%power_of_two_pow]. lia. Qed.

(** What the loop gives from a total on: the states in order, each at the first aligned offset after the one before. *)
Inductive slots : Z → list AggregateFunction → list Z → Z → Prop :=
  | slots_nil t : slots t [] [] t
  | slots_cons t F Fs o offs t' : (falign F | o) → t ≤ o < t + falign F → slots (o + fsize F) Fs offs t' → slots t (F :: Fs) (o :: offs) t'.
Lemma layout_loop_ok Fs m t offs m' t' :
  Forall layout_ok Fs → layout_loop Fs m t = (offs, m', t') →
  slots t Fs offs t' ∧ m ≤ m' ∧ (m' = m ∨ ∃ F, F ∈ Fs ∧ m' = falign F) ∧ ∀ F, F ∈ Fs → falign F ≤ m'.
Proof.
  intros Hok. revert m t offs. induction Hok as [|F Fs HF Hok IH]; intros m t offs; simpl.
  { intros [= <- <- <-]. split_and!; [constructor|lia|by left|by intros F ?%not_elem_of_nil]. }
  destruct (layout_loop Fs _ _) as [[offs1 m1] t1] eqn:Hl. intros [= <- <- <-]. destruct (IH _ _ _ Hl) as (Hs & Hm & Hor & Hle).
  destruct (round_up t (falign F) (align_pos F HF)) as [Hd Hr]. split_and!.
  - constructor; [done|done|exact Hs].
  - lia.
  - destruct Hor as [->|(G & HG & ->)]; [|right; exists G; split; [by right|done]].
    destruct (Z.max_spec m (l_align (state_layout F))) as [[_ ->]|[_ ->]]; [right; exists F; split; [by left|done]|by left].
  - intros G [->|HG]%elem_of_cons; [|by apply Hle]. unfold falign. lia.
Qed.
Lemma slots_length t Fs offs t' : slots t Fs offs t' → length offs = length Fs.
Proof. induction 1; simpl; congruence. Qed.
Lemma slots_bounds t Fs offs t' : Forall layout_ok Fs → slots t Fs offs t' → t ≤ t' ∧
  ∀ i F o, Fs !! i = Some F → offs !! i = Some o → (falign F | o) ∧ t ≤ o ∧ o + fsize F ≤ t'.
Proof.
  intros Hok Hs. induction Hs as [t|t F Fs o offs t' Hd Ho Hs IH]; [done|]. apply Forall_cons in Hok as [[Hpos _] Hok].
  destruct (IH Hok) as [Hle IH']. split; [lia|]. intros [|i] G p; simpl; [intros [= <-] [= <-]; split_and!; [done|lia|lia]|].
  intros HG Hp. destruct (IH' i G p HG Hp) as (? & ? & ?). split_and!; [done|lia|lia].
Qed.
Lemma slots_apart t Fs offs t' i j F o p :
  Forall layout_ok Fs → slots t Fs offs t' → (i < j)%nat → Fs !! i = Some F → offs !! i = Some o → offs !! j = Some p → o + fsize F ≤ p.
Proof.
  intros Hok Hs. revert i j. induction Hs as [t|t G Fs q offs t' Hd Hq Hs IH]; intros i j Hij; [done|].
  apply Forall_cons in Hok as [HG Hok]. destruct j as [|j]; [lia|]. destruct i as [|i]; simpl.
  - intros [= ->] [= ->] Hp. destruct (lookup_lt_is_Some_2 Fs j) as [H HH].
    { rewrite <-(slots_length _ _ _ _ Hs). by eapply lookup_lt_Some. }
    destruct (proj2 (slots_bounds _ _ _ _ Hok Hs) j H p HH Hp) as (_ & ? & _). lia.
  - apply IH; [done|lia].
Qed.

Lemma layout_slots Fs offs ly :
  Forall layout_ok Fs → get_layout_offsets Fs = Ok (offs, ly) →
  slots 0 Fs offs (l_size ly) ∧ is_power_of_two (l_align ly) = true ∧ l_size ly ≤ 2 ^ 63 - l_align ly ∧ ∀ F, F ∈ Fs → falign F ≤ l_align ly.
Proof.
  intros Hok. unfold get_layout_offsets. destruct (layout_loop Fs 0 0) as [[offs' m] t] eqn:Hl. unfold from_size_align.
  destruct (is_power_of_two m) eqn:Hm; [|done]. destruct (Z.leb_spec t (2 ^ 63 - m)) as [Ht|]; [|done]. simpl. intros [= <- <-].
  by destruct (layout_loop_ok _ _ _ _ _ _ Hok Hl) as (Hs & _ & _ & Hle).
Qed.

(** C24: the offsets that get_layout_offsets gives to the states of several functions are aligned for each function, the
    states do not overlap, come in order and end within the size of the layout, whose alignment serves them all; no
    state is further than needed from the end of the one before. *)
Theorem layout_offsets_fit Fs offs ly :
  Forall layout_ok Fs → get_layout_offsets Fs = Ok (offs, ly) →
  slots 0 Fs offs (l_size ly) ∧ length offs = length Fs ∧ is_power_of_two (l_align ly) = true ∧ l_size ly ≤ 2 ^ 63 - l_align ly ∧
  (∀ i F o, Fs !! i = Some F → offs !! i = Some o → (falign F | o) ∧ (falign F | l_align ly) ∧ 0 ≤ o ∧ o + fsize F ≤ l_size ly) ∧
  (∀ i j F o p, (i < j)%nat → Fs !! i = Some F → offs !! i = Some o → offs !! j = Some p → o + fsize F ≤ p).
Proof.
  intros Hok Hl. destruct (layout_slots _ _ _ Hok Hl) as (Hs & Hm & Ht & Hle). split_and!; [done|by eapply slots_length|done|done| |].
  - intros i F o HF Ho. destruct (proj2 (slots_bounds _ _ _ _ Hok Hs) i F o HF Ho) as (? & ? & ?). split_and!; [done| |done..].
    apply power_of_two_divide; [|done|apply Hle; by eapply list_elem_of_lookup_2].
    eapply (Forall_lookup_1 _ _ _ _ Hok) in HF. apply HF.
  - intros i j F o p. by apply (slots_apart 0 Fs offs (l_size ly)).
Qed.
