(* ===== verification/Aggregator.v ===== *)
(** * The aggregators (src/query/src/pipelines/new/processors/transforms/aggregator).

    A partial aggregator groups the rows of its blocks by key and gives, for each group,
    the serialized states of the aggregate functions; a final aggregator merges what the
    partial ones give and computes the results.  Without GROUP BY there is a single state.
    An aggregator has the memory of its areas for itself. *)
From S2P Require Import Prelude Column AggFunction AggState.
#[local] Open Scope Z_scope.

(** ** Parameters: aggregator_params.rs *)
Record AggregatorParams := mkParams {
  schema : list string;
  group_columns_name : list string;
  aggregate_functions : list AggregateFunction;
  aggregate_functions_arguments_name : list (list string);
  layout : option Layout;
  offsets_aggregate_states : list Z;
}.
(** [try_create_partial], [try_create_final] and [try_create_v2], from the functions and the names the expressions stand for. *)
Definition params_create (schema group_cols : list string) (functions : list AggregateFunction) (arguments_name : list (list string))
    : res agg_error AggregatorParams :=
  match functions with
  | [] => Ok (mkParams schema group_cols [] arguments_name None [])
  | _ =>
      let? ' (states_offsets, states_layout) := get_layout_offsets functions in
      Ok (mkParams schema group_cols functions arguments_name (Some states_layout) states_offsets)
  end.

(** ** Keys: HashMethod and PolymorphicKeysHelper *)
Class HashMethod (K : Type) := {
  build_keys : list Column → nat → res agg_error (list K);
  (** The column that a [KeysColumnBuilder] makes of keys, the keys that a [KeysColumnIter] reads from it. *)
  keys_column : list K → Column;
  keys_iter_from_column : Column → res agg_error (list K);
  (** What a [GroupColumnsBuilder] makes of keys. *)
  group_columns_finish : list K → res agg_error (list Column);
}.
#[global] Hint Mode HashMethod ! : typeclass_instances.
(** [HashMethodSingleString]. *)
Definition single_string : HashMethod string := {|
  build_keys group_columns rows :=
    let? column := unwrap (group_columns !! 0%nat) in
    let? str_column := check_get_string column in
    res_mapM (λ row, unwrap (str_column !! row)) (seq 0 rows);
  keys_column := StringColumn;
  keys_iter_from_column := check_get_string;
  group_columns_finish keys := Ok [StringColumn keys] |}.

(** The columns of the arguments, and those of the groups. *)
Definition columns_by_name (block : DataBlock) (names : list string) : res agg_error (list Column) := res_mapM (try_column_by_name block) names.
Definition aggregate_arguments (block : DataBlock) (params : AggregatorParams) : res agg_error (list (list Column)) :=
  res_mapM (columns_by_name block) (aggregate_functions_arguments_name params).
(** [DataBlock::create]. *)
Definition block_create (schema : list string) (columns : list Column) : DataBlock := zip schema columns.

(** The trait [Aggregator], on some world. *)
Record AggregatorOps (W B : Type) := mkOps { op_consume : DataBlock → M W agg_error unit; op_generate : M W agg_error (option B) }.
Arguments mkOps {W B}. Arguments op_consume {W B}. Arguments op_generate {W B}.
(** A loop over functions with their indices, and with what is found at the index in another list: offsets or places. *)
Definition each_indexed {W A} (funcs : list AggregateFunction) (xs : list Z) (body : nat → AggregateFunction → Z → M W agg_error A) : M W agg_error (list A) :=
  collectM (λ '(idx, func), let! x := lift (unwrap (xs !! idx)) in body idx func x) (zip (seq 0 (length funcs)) funcs).

(** ** Aggregators with keys *)

(** The block of the results: a column of results is shown as the list of its values. *)
Record ResultBlock := mkResult { result_values : list (list (option Scalar)); result_groups : list Column }.
Record Agg (St : Type) := mkAgg { is_generated : bool; states_dropped : bool; state : St; memory : heap }.
Arguments mkAgg {St}. Arguments is_generated {St}. Arguments states_dropped {St}. Arguments state {St}. Arguments memory {St}.

Section aggregators.
Context {K St : Type} `{!AggregatorState K St, !HashMethod K}.
Variable params : AggregatorParams.
(** The setting group_by_two_level_threshold. *)
Variable threshold : Z.
Abbreviation GM := (M (Agg St) agg_error).
Definition on_memory {A} (m : AM A) : GM A := λ w,
  let '(r, h) := m (memory w) in (r, mkAgg (is_generated w) (states_dropped w) (state w) h).
Definition on_state {A} (f : St → option (A * St)) : GM A := λ w,
  match f (state w) with
  | Some (a, st) => (Ok a, mkAgg (is_generated w) (states_dropped w) st (memory w))
  | None => (Panic, w)
  end.
Definition get_state {A} (f : St → A) : GM A := λ w, (Ok (f (state w)), w).
Definition get_generated : GM bool := λ w, (Ok (is_generated w), w).
Definition set_generated : GM unit := λ w, (Ok tt, mkAgg true (states_dropped w) (state w) (memory w)).
Definition get_dropped : GM bool := λ w, (Ok (states_dropped w), w).
Definition set_dropped : GM unit := λ w, (Ok tt, mkAgg (is_generated w) true (state w) (memory w)).
Definition each_function {A} : (nat → AggregateFunction → Z → GM A) → GM (list A) :=
  each_indexed (aggregate_functions params) (offsets_aggregate_states params).

(** [AggregatorState::alloc_layout2]. *)
Definition alloc_layout2 : GM (option Z) :=
  match layout params with
  | None => ret None
  | Some layout =>
      let! place := on_state (λ st, Some (st_alloc_place layout st)) in
      each_function (λ _ func aggr_state, on_memory (init_state func (next place aggr_state))) ;;!
      ret (Some place)
  end.
Definition entity (key : K) : GM (st_ptr (K:=K) (St:=St) * bool) := on_state (λ st, '(p, inserted, st) ← st_entity key st; Some ((p, inserted), st)).
(** The place of the states of a key, allocated where the key is new. *)
Definition lookup_place (key : K) : GM (list Z) :=
  let! ' (entity, inserted) := entity key in
  if (inserted : bool) then
    let! place := alloc_layout2 in
    match place with
    | Some place => on_state (λ st, Some (tt, st_set_value place entity st)) ;;! ret [place]
    | None => ret []
    end
  else let! place := on_state (λ st, v ← st_get_value st entity; Some (v, st)) in ret [place].
Definition lookup_state (keys : list K) : GM (list Z) := let! places := collectM lookup_place keys in ret (concat places).
Definition lookup_key (keys : list K) : GM unit := forM keys (λ key, entity key ;;! ret tt).
Definition check_two_level : GM unit :=
  let! two_level := get_state st_is_two_level in
  let! len := get_state st_len in
  if negb two_level && (threshold <=? len) then on_state (λ st, st ← st_convert_to_two_level st; Some (tt, st)) else ret tt.
Definition entries : GM (list (K * Z)) := on_state (λ st, es ← st_iter st; Some (es, st)).
Definition is_done : GM bool :=
  let! len := get_state st_len in let! generated := get_generated in ret ((len =? 0) || generated).

(** The states that own memory beyond the areas are dropped once; [temp_place] is that of a final aggregator. *)
Definition drop_at (place : Z) : GM unit :=
  let functions := filter (λ f, need_manual_drop_state f = true) (aggregate_functions params) in
  let! states := lift (res_mapM (λ '(idx, s), let? f := unwrap (aggregate_functions params !! idx) in Ok (need_manual_drop_state f, s))
    (zip (seq 0 (length (offsets_aggregate_states params))) (offsets_aggregate_states params))) in
  forM (zip functions (snd <$> filter (λ x, x.1 = true) states)) (λ '(function, state_offset), on_memory (drop_state function (next place state_offset))).
Definition drop_states (temp_place : option Z) : GM unit :=
  let! dropped := get_dropped in
  if (dropped : bool) then ret tt
  else
    let! es := entries in
    forM es (λ '(_, place), drop_at place) ;;!
    (match temp_place with Some place => drop_at place | None => ret tt end) ;;!
    set_dropped.

(** *** aggregator_partial.rs *)
Definition execute (block : DataBlock) (places : list Z) : GM unit :=
  let! aggregate_arguments_columns := lift (aggregate_arguments block params) in
  each_function (λ index function state_offset,
    let! function_arguments := lift (unwrap (aggregate_arguments_columns !! index)) in
    on_memory (accumulate_keys function places state_offset function_arguments (num_rows block))) ;;!
  ret tt.
Definition partial_keys (block : DataBlock) : GM (list K) :=
  let! group_columns := lift (columns_by_name block (group_columns_name params)) in
  lift (build_keys group_columns (num_rows block)).
Definition partial_consume (block : DataBlock) : GM unit :=
  let! group_keys := partial_keys block in
  check_two_level ;;!
  let! places := lookup_state group_keys in
  execute block places.
Definition partial_generate : GM (option DataBlock) :=
  let! is_done := is_done in
  if (is_done : bool) then ret None
  else
    set_generated ;;!
    let! es := entries in
    let! rows := collectM (λ '(_, place), each_function (λ _ func offset, on_memory (serialize func (next place offset)))) es in
    let state_columns := (λ idx, StringColumn (omap (λ r : list string, r !! idx) rows)) <$> seq 0 (length (aggregate_functions params)) in
    ret (Some (block_create (schema params) (state_columns ++ [keys_column es.*1]))).
(** Without aggregate functions. *)
Definition partial_consume_keys (block : DataBlock) : GM unit :=
  let! group_keys := partial_keys block in
  check_two_level ;;!
  lookup_key group_keys.
Definition partial_generate_keys : GM (option DataBlock) :=
  let! is_done := is_done in
  if (is_done : bool) then drop_states None ;;! ret None
  else
    set_generated ;;!
    let! es := entries in
    ret (Some (block_create (schema params) [keys_column es.*1])).

(** *** aggregator_final.rs *)
Definition final_create : GM (option Z) :=
  match aggregate_functions params with [] => ret None | _ => alloc_layout2 end.
Definition final_consume (temp_place : option Z) (block : DataBlock) : GM unit :=
  let aggregate_function_len := length (aggregate_functions params) in
  let! keys_column := lift (block_column block aggregate_function_len) in
  let! keys := lift (keys_iter_from_column keys_column) in
  check_two_level ;;!
  let! places := lookup_state keys in
  let! states_columns := lift (res_mapM (block_column block) (seq 0 aggregate_function_len)) in
  let! states_binary_columns := lift (res_mapM check_get_string states_columns) in
  match temp_place with
  | Some temp_place =>
      forM (zip (seq 0 (length places)) places) (λ '(row, place),
        each_function (λ idx aggregate_function offset,
          let final_place := next place offset in
          let state_place := next temp_place offset in
          let! column := lift (unwrap (states_binary_columns !! idx)) in
          let! data := lift (unwrap (column !! row)) in
          on_memory (deserialize aggregate_function state_place data) ;;!
          on_memory (merge aggregate_function final_place state_place)) ;;! ret tt)
  | None => ret tt
  end.
Definition final_generate (temp_place : option Z) : GM (option ResultBlock) :=
  let! is_done := is_done in
  if (is_done : bool) then drop_states temp_place ;;! ret None
  else
    set_generated ;;!
    let! es := entries in
    let! rows := collectM (λ '(_, place), each_function (λ _ func offset, on_memory (merge_result func (next place offset)))) es in
    let! groups := lift (group_columns_finish es.*1) in
    ret (Some (mkResult ((λ idx, omap (λ r : list (option Scalar), r !! idx) rows) <$> seq 0 (length (aggregate_functions params))) groups)).
(** Without aggregate functions. *)
Definition final_consume_keys (block : DataBlock) : GM unit :=
  let! key_array := lift (block_column block 0) in
  let! keys := lift (keys_iter_from_column key_array) in
  check_two_level ;;!
  lookup_key keys.
Definition final_generate_keys : GM (option ResultBlock) :=
  let! is_done := is_done in
  if (is_done : bool) then ret None
  else
    set_generated ;;!
    let! es := entries in
    let! groups := lift (group_columns_finish es.*1) in
    ret (Some (mkResult [] groups)).
End aggregators.

(** ** One state, without GROUP BY: aggregator_single_key.rs *)
Section single.
Context `{!Bump}.
Variable params : AggregatorParams.
Abbreviation SM := (M (Agg unit) agg_error).
Abbreviation funcs := (aggregate_functions params).
(** The closure of [try_create]: a place for the states of all functions, initialized. *)
Definition get_places (offsets : list Z) (layout : Layout) (arena : bump) : SM (list Z * bump) :=
  let '(place, arena) := alloc_layout layout arena in
  let! places := each_indexed funcs offsets (λ _ func offset,
    let arg_place := next place offset in on_memory (init_state func arg_place) ;;! ret arg_place) in
  ret (places, arena).
(** The places and the temporary places. *)
Definition single_create : SM (list Z * list Z) :=
  if (length (offsets_aggregate_states params) =? 0)%nat then lift Panic
  else
    let! ' (offsets, layout) := lift (get_layout_offsets funcs) in
    let! ' (places, arena) := get_places offsets layout bump_new in
    let! ' (temp_places, _) := get_places offsets layout arena in
    ret (places, temp_places).
Variable places temp_places : list Z.
Definition single_drop_places (places : list Z) : SM unit :=
  forM (zip places funcs) (λ '(place, func), if need_manual_drop_state func then on_memory (drop_state func place) else ret tt).
Definition single_drop_states : SM unit :=
  let! dropped := get_dropped in
  if (dropped : bool) then ret tt
  else
    single_drop_places places ;;!
    single_drop_places temp_places ;;!
    set_dropped.
Definition single_final_consume (block : DataBlock) : SM unit :=
  each_indexed funcs places (λ index func place,
    let! binary_array := lift (block_column block index) in
    let! binary_array := lift (check_get_string binary_array) in
    let! data := lift (unwrap (binary_array !! 0%nat)) in
    let! temp_addr := lift (unwrap (temp_places !! index)) in
    on_memory (deserialize func temp_addr data) ;;!
    on_memory (merge func place temp_addr)) ;;!
  ret tt.
Definition single_final_generate : SM (option (list (option Scalar))) :=
  let! is_finished := get_generated in
  if (is_finished : bool) then ret None
  else
    set_generated ;;!
    let! values := each_indexed funcs places (λ _ func place, on_memory (merge_result func place)) in
    ret (Some values).
Definition single_partial_consume (block : DataBlock) : SM unit :=
  each_indexed funcs places (λ idx func place,
    let! names := lift (unwrap (aggregate_functions_arguments_name params !! idx)) in
    let! arg_columns := lift (columns_by_name block names) in
    on_memory (accumulate func place arg_columns None (num_rows block))) ;;!
  ret tt.
Definition single_partial_generate : SM (option DataBlock) :=
  let! is_finished := get_generated in
  if (is_finished : bool) then single_drop_states ;;! ret None
  else
    set_generated ;;!
    let! bytes := each_indexed funcs places (λ _ func place, on_memory (serialize func place)) in
    ret (Some (block_create (schema params) ((λ b, StringColumn [b]) <$> bytes))).
Definition single_partial_processor : AggregatorOps (Agg unit) DataBlock := mkOps single_partial_consume single_partial_generate.
Definition single_final_processor : AggregatorOps (Agg unit) (list (option Scalar)) := mkOps single_final_consume single_final_generate.
End single.

(** ** The processor: transform_aggregator.rs *)

Inductive Event := NeedData | NeedConsume | Sync | Async | Finished.
(** The ports of the processor: what is seen of them when an event is asked for, and what is done to them. *)
Record Ports := mkPorts {
  input_finished : bool;
  input_data : option (res agg_error DataBlock);
  output_finished : bool;
  output_can_push : bool;
}.
Inductive PortAction (B : Type) := PullData | SetNeedData | PushData (b : B) | Finish.
Arguments PullData {B}. Arguments SetNeedData {B}. Arguments PushData {B}. Arguments Finish {B}.
Inductive AggregatorTransform (B : Type) :=
  | ConsumeData (input_data_block : option DataBlock)
  | Generate (is_finished : bool) (output_data_block : option B)
  | TFinished.
Arguments ConsumeData {B}. Arguments Generate {B}. Arguments TFinished {B}.
Section transform.
Context {W B : Type} (ops : AggregatorOps W B).
Definition convert_to_generate (self : AggregatorTransform B) : res agg_error (AggregatorTransform B) :=
  match self with ConsumeData _ => Ok (Generate false None) | _ => Err LogicalError end.
Definition event (ports : Ports) (self : AggregatorTransform B) : res agg_error (Event * list (PortAction B) * AggregatorTransform B) :=
  match self with
  | TFinished => Ok (Finished, [], TFinished)
  | Generate is_finished output_data_block =>
      if output_finished ports then Ok (Finished, [], TFinished)
      else if negb (output_can_push ports) then Ok (NeedConsume, [], self)
      else match output_data_block with
           | Some block => Ok (NeedConsume, [PushData block], Generate is_finished None)
           | None => if is_finished then Ok (Finished, [Finish], TFinished) else Ok (Sync, [], self)
           end
  | ConsumeData input_data_block =>
      match input_data_block with
      | Some _ => Ok (Sync, [], self)
      | None =>
          if input_finished ports then let? s := convert_to_generate self in Ok (Sync, [], s)
          else match input_data ports with
               | Some data => let? data := data in Ok (Sync, [PullData], ConsumeData (Some data))
               | None => Ok (NeedData, [SetNeedData], self)
               end
      end
  end.
Definition process (self : AggregatorTransform B) : M W agg_error (AggregatorTransform B) :=
  match self with
  | TFinished => ret self
  | ConsumeData input_data_block =>
      match input_data_block with Some data => op_consume ops data ;;! ret (ConsumeData None) | None => ret self end
  | Generate is_finished _ =>
      let! generate_data := op_generate ops in
      ret (Generate (match generate_data with None => true | Some _ => is_finished end) generate_data)
  end.
End transform.

(** ** The aggregators of a GROUP BY: TransformAggregator::try_create_partial and try_create_final *)
Section processors.
Context {K St : Type} `{!AggregatorState K St, !HashMethod K}.
Definition partial_processor (params : AggregatorParams) (threshold : Z) : AggregatorOps (Agg St) DataBlock :=
  match aggregate_functions params with
  | [] => mkOps (partial_consume_keys params threshold) (partial_generate_keys params)
  | _ => mkOps (partial_consume params threshold) (partial_generate params)
  end.
Definition final_processor (params : AggregatorParams) (threshold : Z) (temp_place : option Z) : AggregatorOps (Agg St) ResultBlock :=
  match aggregate_functions params with
  | [] => mkOps (final_consume_keys threshold) final_generate_keys
  | _ => mkOps (final_consume params threshold temp_place) (final_generate params temp_place)
  end.
(** A new aggregator. *)
Definition agg_create (st : St) : Agg St := mkAgg false false st ∅.
End processors.
