(* ===== verification/AggregatorProps.v ===== *)
(** * The aggregators compute the groups.

    Against the interfaces [Lawful], [LawfulKeys], [LawfulBatch] and [AggregatorStateLaws]:
    what the partial aggregators give for the rows of their blocks, merged by a final
    aggregator, is one row per key with the value of each function on the rows of the key. *)
From S2P Require Import Prelude Column AggFunction AggLaws AggState AggLayout Aggregator.
#[local] Open Scope Z_scope.

(** What is asked of the columns of keys: the keys are read back. *)
Class HashMethodLaws (K : Type) `{!HashMethod K} (key_ok : K → Prop) : Prop := {
  hm_round ks : Forall key_ok ks → keys_iter_from_column (keys_column ks) = Ok ks;
}.
#[global] Hint Mode HashMethodLaws ! - - : typeclass_instances.
(** Columns can be made of any choice of the keys. *)
Definition finishable {K : Type} `{!HashMethod K} (ks : list K) : Prop :=
  ∀ ks', ks' ≠ [] → (∀ k, k ∈ ks' → k ∈ ks) → is_ok (group_columns_finish ks') = true.
(** A column of a table given by its rows. *)
Lemma omap_column {A} (rows : list (list A)) i j :
  (∀ r, r ∈ rows → (i < length r)%nat) → omap (λ r, r !! i) rows !! j = rows !! j ≫= λ r, r !! i.
Proof.
  revert j. induction rows as [|r rows IH]; intros j Hr; [done|]. simpl. destruct (lookup_lt_is_Some_2 r i) as [x Hx]; [apply Hr; by left|].
  rewrite Hx. destruct j as [|j]; [done|]. simpl. apply IH. intros r' Hr'. apply Hr. by right.
Qed.
Lemma omap_column_length {A} (rows : list (list A)) i : (∀ r, r ∈ rows → (i < length r)%nat) → length (omap (λ r, r !! i) rows) = length rows.
Proof.
  induction rows as [|r rows IH]; intros Hr; [done|]. simpl. destruct (lookup_lt_is_Some_2 r i) as [x Hx]; [apply Hr; by left|].
  rewrite Hx. simpl. f_equal. apply IH. intros r' Hr'. apply Hr. by right.
Qed.

(** ** The functions of an aggregation *)
Record agg_params (params : AggregatorParams) (Ss : list agg_spec) (ly : Layout) : Prop := {
  ap_layout : layout params = Some ly;
  ap_slots : slots 0 (aggregate_functions params) (offsets_aggregate_states params) (l_size ly);
  ap_lawful : Forall2 Lawful (aggregate_functions params) Ss;
}.
Lemma lawful_layout F S : Lawful F S → layout_ok F.
Proof. intros [Hs Ha]. by split. Qed.
Lemma lawful_layouts Fs Ss : Forall2 Lawful Fs Ss → Forall layout_ok Fs.
Proof. induction 1 as [|F S Fs Ss HF _ IH]; constructor; [by eapply lawful_layout|done]. Qed.
(** The parameters that are created have these properties. *)
Lemma params_create_ok schema groups Fs names params Ss :
  Forall2 Lawful Fs Ss → Fs ≠ [] → params_create schema groups Fs names = Ok params →
  ∃ ly, agg_params params Ss ly ∧ aggregate_functions params = Fs ∧ get_layout_offsets Fs = Ok (offsets_aggregate_states params, ly) ∧
    Aggregator.schema params = schema ∧ aggregate_functions_arguments_name params = names.
Proof.
  intros Hl Hne. destruct Fs as [|F Fs]; [done|]. unfold params_create. destruct (get_layout_offsets _) as [[offs ly]| |] eqn:Ho; [|done..].
  simpl. intros [= <-]. exists ly. split; [|done]. destruct (layout_slots _ _ _ (lawful_layouts _ _ Hl) Ho) as (Hs & _). by split.
Qed.

Lemma each_indexed_ok {W A} (Fs : list AggregateFunction) (xs : list Z) (body : nat → AggregateFunction → Z → M W agg_error A) (I : nat → W → Prop) (Q : nat → A → Prop) w :
  length xs = length Fs → I 0%nat w →
  (∀ i F x w, Fs !! i = Some F → xs !! i = Some x → I i w → ∃ a w', body i F x w = (Ok a, w') ∧ Q i a ∧ I (Datatypes.S i) w') →
  ∃ l w', each_indexed Fs xs body w = (Ok l, w') ∧ length l = length Fs ∧ (∀ i a, l !! i = Some a → Q i a) ∧ I (length Fs) w'.
Proof.
  intros Hx HI Hbody. unfold each_indexed. set (zs := zip (seq 0 (length Fs)) Fs). assert (length zs = length Fs) as Hz by (unfold zs; rewrite length_zip, length_seq; lia).
  assert (∀ i x, zs !! i = Some x → x.1 = i ∧ Fs !! i = Some x.2) as Hzs.
  { intros i [j F] Hi. apply lookup_zip_Some in Hi as [[-> _]%lookup_seq HF]. done. }
  destruct (collectM_ok (λ '(idx, func), let! x := lift (unwrap (xs !! idx)) in body idx func x) I (λ i _ a, Q i a) zs w) as (l & w' & Hrun & Hlen & HQ & HI'); [done| |].
  - intros i [j F] w1 Hi HI1. destruct (Hzs _ _ Hi) as [Hj HF]. simpl in Hj, HF. subst j.
    destruct (lookup_lt_is_Some_2 xs i) as [x Hxi]; [rewrite Hx; by eapply lookup_lt_Some|].
    destruct (Hbody i F x w1 HF Hxi HI1) as (a & w2 & Ha & HQ & HI2). exists a, w2. unfold bind, lift. rewrite Hxi. by simpl.
  - exists l, w'. rewrite Hz in Hlen, HI'. split_and!; [done|done| |done]. intros i a Ha.
    destruct (lookup_lt_is_Some_2 zs i) as [x Hxi]; [rewrite Hz, <-Hlen; by eapply lookup_lt_Some|]. by eapply HQ.
Qed.

Section functions.
Context (params : AggregatorParams) (Ss : list agg_spec) (ly : Layout) (Hap : agg_params params Ss ly).
Abbreviation Fs := (aggregate_functions params).
Abbreviation offs := (offsets_aggregate_states params).
Abbreviation sz := (l_size ly).
Implicit Types (h : heap) (p q : Z).
(** The i-th function, with its specification and its offset. *)
Definition slot (i : nat) F S o : Prop := Fs !! i = Some F ∧ Ss !! i = Some S ∧ offs !! i = Some o.
Definition reps h p (R : nat → list Row) : Prop := ∀ i F S o, slot i F S o → as_rep S h (next p o) (R i).

Lemma offs_length : length offs = length Fs.
Proof using Hap. destruct Hap as [_ Hs _]. by eapply slots_length. Qed.
Lemma specs_length : length Ss = length Fs.
Proof using Hap. destruct Hap as [_ _ Hl]. symmetry. by eapply Forall2_length. Qed.
Lemma slot_function i F o : Fs !! i = Some F → offs !! i = Some o → ∃ S, slot i F S o.
Proof using Hap.
  intros HF Ho. destruct (lookup_lt_is_Some_2 Ss i) as [S HS]; [rewrite specs_length; by eapply lookup_lt_Some|]. by exists S.
Qed.
Lemma slot_at i : (i < length Fs)%nat → ∃ F S o, slot i F S o.
Proof using Hap.
  intros Hi. destruct (lookup_lt_is_Some_2 Fs i Hi) as [F HF]. destruct (lookup_lt_is_Some_2 offs i) as [o Ho]; [by rewrite offs_length|].
  destruct (slot_function i F o HF Ho) as [S HS]. by exists F, S, o.
Qed.
Lemma slot_lawful i F S o : slot i F S o → Lawful F S.
Proof using Hap. intros (HF & HS & _). destruct Hap as [_ _ Hl]. by eapply Forall2_lookup_lr. Qed.
Lemma slot_bounds i F S o : slot i F S o → 0 ≤ o ∧ o + fsize F ≤ sz ∧ 0 < fsize F.
Proof using Hap.
  intros Hslot. destruct (slot_lawful _ _ _ _ Hslot) as [Hpos]. destruct Hslot as (HF & _ & Ho). destruct Hap as [_ Hs Hl].
  by destruct (proj2 (slots_bounds _ _ _ _ (lawful_layouts _ _ Hl) Hs) i F o HF Ho) as (_ & ? & ?).
Qed.
Lemma slot_apart i j F S o G T u : slot i F S o → slot j G T u → i ≠ j → o + fsize F ≤ u ∨ u + fsize G ≤ o.
Proof using Hap.
  intros (HF & _ & Ho) (HG & _ & Hu) Hij. destruct Hap as [_ Hs Hl]. pose proof (lawful_layouts _ _ Hl) as Hok.
  destruct (decide (i < j)%nat) as [Hlt|Hge]; [left; by apply (slots_apart 0 Fs offs sz i j)|].
  right. apply (slots_apart 0 Fs offs sz j i); [done|done|lia|done..].
Qed.

(** The states of different functions, and those at places apart, do not overlap. *)
Lemma slot_outside i F S o p j G T u q a :
  slot i F S o → slot j G T u → (i ≠ j ∧ p = q) ∨ range_apart (p, sz) (q, sz) →
  in_state (next q u) (fsize G) a → ¬ in_state (next p o) (fsize F) a.
Proof using Hap.
  intros Hi Hj Hor. unfold in_state, next, range_apart in *. simpl in *.
  pose proof (slot_bounds _ _ _ _ Hi). pose proof (slot_bounds _ _ _ _ Hj). destruct Hor as [[Hne ->]|Hor]; [|lia].
  pose proof (slot_apart _ _ _ _ _ _ _ _ Hi Hj Hne). lia.
Qed.
Lemma slot_keeps h h' i F S o p j G T u q xs :
  slot i F S o → slot j G T u → frame h h' (next p o) (fsize F) → (i ≠ j ∧ p = q) ∨ range_apart (p, sz) (q, sz) →
  as_rep T h (next q u) xs → as_rep T h' (next q u) xs.
Proof using Hap.
  intros Hi Hj Hf Hor. apply (lw_local (Lawful:=slot_lawful _ _ _ _ Hj)). intros a Ha. apply Hf. by eapply slot_outside.
Qed.
Lemma frame_slot h h' i F S o p : slot i F S o → frame h h' (next p o) (fsize F) → frame h h' p sz.
Proof using Hap. intros Hi Hf. pose proof (slot_bounds _ _ _ _ Hi). eapply frame_weaken; [done|unfold next; lia..]. Qed.
Lemma reps_frame h h' p q R : frame h h' p sz → range_apart (p, sz) (q, sz) → reps h q R → reps h' q R.
Proof using Hap.
  intros Hf Hpq Hr i F S o Hi. apply (lw_local (Lawful:=slot_lawful _ _ _ _ Hi) h); [|by eapply Hr].
  intros a Ha. apply Hf. pose proof (slot_bounds _ _ _ _ Hi). unfold in_state, range_apart, next in *. simpl in *. lia.
Qed.
Lemma reps_ext h p R R' : reps h p R → (∀ i, R i = R' i) → reps h p R'.
Proof. intros Hr HR i F S o Hi. rewrite <-HR. by eapply Hr. Qed.
(** The states of the first [i] functions stand for other rows than before. *)
Definition upto (i : nat) (R R' : nat → list Row) : nat → list Row := λ j, if (j <? i)%nat then R' j else R j.
Lemma upto_succ i R R' j : upto (Datatypes.S i) R R' j = if decide (j = i) then R' i else upto i R R' j.
Proof.
  unfold upto. destruct (decide (j = i)) as [->|Hne]; [by rewrite (proj2 (Nat.ltb_lt i (Datatypes.S i))) by lia|].
  assert ((j <? Datatypes.S i)%nat = (j <? i)%nat) as ->; [|done]. apply Bool.eq_iff_eq_true. rewrite !Nat.ltb_lt. lia.
Qed.
Lemma upto_at i R R' : upto i R R' i = R i.
Proof. unfold upto. by rewrite Nat.ltb_irrefl. Qed.
Lemma upto_reps h h' p R R' i F S o :
  slot i F S o → reps h p (upto i R R') → frame h h' (next p o) (fsize F) → as_rep S h' (next p o) (R' i) → reps h' p (upto (Datatypes.S i) R R').
Proof using Hap.
  intros Hi Hr Hf Hnew j G T u Hj. rewrite upto_succ. destruct (decide (j = i)) as [->|Hne].
  - destruct Hi as (HF & HS & Ho), Hj as (HG & HT & Hu). by assert (S = T ∧ o = u) as (-> & ->) by (split_and!; congruence).
  - eapply (slot_keeps h h' i F S o p); [done..| |by eapply Hr]. left. by split.
Qed.
Lemma upto_all h p R R' : reps h p (upto (length Fs) R R') → reps h p R'.
Proof.
  intros Hr i F S o Hi. specialize (Hr i F S o Hi). unfold upto in Hr. destruct Hi as (HF & _). apply lookup_lt_Some in HF.
  by rewrite (proj2 (Nat.ltb_lt _ _)) in Hr.
Qed.

(** A loop over the functions that changes the memory only. *)
Lemma each_function_ok {St A : Type} (body : nat → AggregateFunction → Z → M (Agg St) agg_error A) (I : nat → heap → Prop) (Q : nat → A → Prop) gen dr st h :
  I 0%nat h →
  (∀ i F S o h, slot i F S o → I i h → ∃ a h', body i F o (mkAgg gen dr st h) = (Ok a, mkAgg gen dr st h') ∧ Q i a ∧ I (Datatypes.S i) h') →
  ∃ l h', each_function params body (mkAgg gen dr st h) = (Ok l, mkAgg gen dr st h') ∧ length l = length Fs ∧
    (∀ i a, l !! i = Some a → Q i a) ∧ I (length Fs) h'.
Proof using Hap.
  intros HI Hbody. destruct (each_indexed_ok Fs offs body (λ i w, ∃ h, w = mkAgg gen dr st h ∧ I i h) (λ i a, Q i a) (mkAgg gen dr st h)) as (l & w & Hrun & Hlen & HQ & h' & -> & HI').
  - by rewrite offs_length.
  - by exists h.
  - intros i F o w HF Ho (h1 & -> & HI1). destruct (slot_function i F o HF Ho) as [S Hi].
    destruct (Hbody i F S o h1 Hi HI1) as (a & h2 & Ha & HQ & HI2). exists a, (mkAgg gen dr st h2). split_and!; [done..|]. by exists h2.
  - by exists l, h'.
Qed.
End functions.

Lemma on_memory_ok {St A} (m : AM A) gen dr (st : St) h a h' : m h = (Ok a, h') → on_memory m (mkAgg gen dr st h) = (Ok a, mkAgg gen dr st h').
Proof. intros Hm. unfold on_memory. simpl. by rewrite Hm. Qed.
Lemma range_apart_sym x y : range_apart x y → range_apart y x.
Proof. unfold range_apart. lia. Qed.

(** ** The groups of an aggregator *)
Section keys.
Context {K St : Type} `{Countable K, !AggregatorState K St, !AggregatorStateLaws K St, !HashMethod K}.
Context (params : AggregatorParams) (Ss : list agg_spec) (ly : Layout) (Hap : agg_params params Ss ly) (threshold : Z).
Abbreviation Fs := (aggregate_functions params).
Abbreviation sz := (l_size ly).
Abbreviation reps := (reps params Ss).
Abbreviation slot := (slot params Ss).
Abbreviation world := (mkAgg (St:=St)).
Implicit Types (g : gmap K Z) (R : K → nat → list Row) (h : heap) (temp : option Z).

(** The places an aggregator owns: those of its keys, and the temporary one. *)
Definition place_of temp g (x : option K) : option Z := match x with Some k => g !! k | None => temp end.
(** The state at the place of a key stands for the rows [R] gives for it. *)
Record agg_inv (st : St) h temp g R : Prop := {
  ai_places : ∃ al, st_ok st g al ∧ ∀ x p, place_of temp g x = Some p → (p, sz) ∈ al;
  ai_apart x y p q : x ≠ y → place_of temp g x = Some p → place_of temp g y = Some q → range_apart (p, sz) (q, sz);
  ai_rep k p : g !! k = Some p → reps h p (R k);
  ai_temp t : temp = Some t → ∃ ys, reps h t ys;
}.
Lemma init_all gen dr st h p :
  ∃ l h', each_function params (λ _ F o, on_memory (init_state F (next p o))) (world gen dr st h) = (Ok l, world gen dr st h') ∧
    reps h' p (λ _, []) ∧ frame h h' p sz.
Proof using Hap.
  destruct (each_function_ok params Ss ly Hap (λ _ F o, on_memory (init_state F (next p o)))
    (λ i h', frame h h' p sz ∧ ∀ j F S o, (j < i)%nat → slot j F S o → as_rep S h' (next p o) []) (λ _ _, True) gen dr st h) as (l & h' & Hrun & _ & _ & Hf & Hr).
  - split; [apply frame_refl|lia].
  - intros i F S o h1 Hi [Hf Hr]. destruct (lw_init (Lawful:=slot_lawful _ _ _ Hap _ _ _ _ Hi) h1 (next p o)) as (h2 & Hinit & Hrep & Hf2).
    exists tt, h2. split; [by apply on_memory_ok|]. split; [done|]. split; [eapply frame_trans; [done|by eapply frame_slot]|].
    intros j G T u Hj Hjs. destruct (decide (i = j)) as [<-|Hne].
    + destruct Hi as (HF & HS & Ho), Hjs as (HG & HT & Hu). by assert (T = S ∧ u = o) as [-> ->] by (split; congruence).
    + eapply (slot_keeps params Ss ly Hap h1 h2 i F S o p); [done|done|done|left; done|]. apply (Hr j G T u); [lia|done].
  - exists l, h'. split; [done|]. split; [|done]. intros i F S o Hi. eapply Hr; [|done]. destruct Hi as (HF & _). by eapply lookup_lt_Some.
Qed.
Lemma alloc_layout2_ok gen dr st h g al :
  st_ok st g al → ∃ p st' h', alloc_layout2 params (world gen dr st h) = (Ok (Some p), world gen dr st' h') ∧
    st_ok st' g ((p, sz) :: al) ∧ Forall (range_apart (p, sz)) al ∧ (∀ q k, st_points st q k → st_points st' q k) ∧
    reps h' p (λ _, []) ∧ frame h h' p sz.
Proof using Hap.
  intros Hok. destruct (st_alloc_place ly st) as [p st'] eqn:Hal. destruct (st_alloc_ok _ _ _ _ _ _ Hok Hal) as (Hok' & Hap' & Hpts).
  destruct (init_all gen dr st' h p) as (l & h' & Hrun & Hr & Hf). exists p, st', h'. unfold alloc_layout2. rewrite (ap_layout _ _ _ Hap).
  unfold bind at 1, on_state. simpl. rewrite Hal. by rewrite (bind_ok _ _ _ _ _ Hrun).
Qed.
(** A new place for a key leaves the other groups as they were. *)
Lemma agg_inv_new st st' h h' temp g R al k p :
  agg_inv st h temp g R → (∀ x q, place_of temp g x = Some q → (q, sz) ∈ al) → g !! k = None → (∀ i, R k i = []) →
  st_ok st' (<[k:=p]> g) ((p, sz) :: al) → Forall (range_apart (p, sz)) al → reps h' p (λ _, []) → frame h h' p sz →
  agg_inv st' h' temp (<[k:=p]> g) R.
Proof using Hap.
  intros [_ Hpq Hrep Htemp] Hin Hk HR Hok Hall Hnew Hf.
  assert (∀ x q, place_of temp g x = Some q → range_apart (p, sz) (q, sz)) as Hfresh.
  { intros x q Hx. rewrite Forall_forall in Hall. apply Hall. by eapply Hin. }
  assert (∀ x q, place_of temp (<[k:=p]> g) x = Some q → (x = Some k ∧ q = p) ∨ (x ≠ Some k ∧ place_of temp g x = Some q)) as Hcases.
  { intros [j|] q; simpl; [|by right]. rewrite lookup_insert_Some. intros [[-> ->]|[Hne Hj]]; [by left|right]. split; [congruence|done]. }
  split.
  - exists ((p, sz) :: al). split; [done|]. intros x q [[-> ->]|[_ Hx]]%Hcases; [by left|]. right. by eapply Hin.
  - intros x y q r Hxy [[-> ->]|[Hx Hq]]%Hcases [[-> ->]|[Hy Hr]]%Hcases; [done|by eapply Hfresh|by eapply range_apart_sym, Hfresh|by apply (Hpq x y)].
  - intros j q. rewrite lookup_insert_Some. intros [[<- <-]|[Hne Hj]].
    + eapply reps_ext; [done|]. intros i. by rewrite HR.
    + eapply reps_frame; [done|done|apply (Hfresh (Some j)); done|by apply Hrep].
  - intros t Ht. destruct (Htemp t Ht) as [ys Hys]. exists ys. eapply reps_frame; [done|done|by apply (Hfresh None)|done].
Qed.
Lemma lookup_place_ok gen dr k st h temp g R :
  agg_inv st h temp g R → st_key_ok k → Z.of_nat (size g) < 2 ^ 57 → (g !! k = None → ∀ i, R k i = []) →
  ∃ p st' h' g', lookup_place params k (world gen dr st h) = (Ok [p], world gen dr st' h') ∧ agg_inv st' h' temp g' R ∧
    g ⊆ g' ∧ (∀ j, is_Some (g' !! j) ↔ is_Some (g !! j) ∨ j = k) ∧ (size g' ≤ S (size g))%nat ∧ g' !! k = Some p.
Proof using Hap.
  intros Hinv Hk Hs HR. destruct (ai_places _ _ _ _ _ Hinv) as (al & Hok & Hin).
  destruct (st_entity_ok st g al k Hok Hk Hs) as (e & st1 & He & Hok1 & Hpt). unfold lookup_place, entity.
  erewrite bind_ok by (unfold on_state; simpl; rewrite He; simpl; reflexivity). case_bool_decide as Hg.
  - destruct (alloc_layout2_ok gen dr st1 h _ al Hok1) as (p & st2 & h2 & Hal & Hok2 & Hall & Hpts & Hrep & Hf).
    cbv iota. rewrite (bind_ok _ _ _ _ _ Hal). eexists p, (st_set_value p e st2), h2, (<[k:=p]> g). split; [done|].
    split; [|split_and!; [by apply insert_subseteq| |by rewrite map_size_insert_None|by rewrite lookup_insert_eq]].
    + apply (agg_inv_new st _ h _ temp g R al); try done; [by apply HR|].
      pose proof (st_set_ok _ _ _ _ _ p Hok2 (Hpts _ _ Hpt)) as Hset. by rewrite insert_insert_eq in Hset.
    + intros j. destruct (decide (j = k)) as [->|Hne]; [rewrite lookup_insert_eq; split; [by right|by eexists]|].
      rewrite lookup_insert_ne by done. tauto.
  - destruct (g !! k) as [p|] eqn:Hp; [|done]. pose proof (st_get_ok _ _ _ _ _ Hok1 Hpt) as Hget. rewrite Hp in Hget.
    cbv iota. erewrite bind_ok by (unfold on_state; simpl; rewrite Hget; simpl; reflexivity).
    eexists p, st1, h, g. split; [done|]. split; [|split_and!; [done| |lia|done]].
    + destruct Hinv as [_ Hpq Hr Ht]. split; [by exists al|done..].
    + intros j. split; [by left|]. intros [?| ->]; [done|by eexists].
Qed.
(** The places of the keys of a block. *)
Lemma lookup_state_ok gen dr keys st h temp g R :
  agg_inv st h temp g R → Forall st_key_ok keys → Z.of_nat (size g + length keys) < 2 ^ 57 → (∀ k, g !! k = None → ∀ i, R k i = []) →
  ∃ places st' h' g', lookup_state params keys (world gen dr st h) = (Ok places, world gen dr st' h') ∧ agg_inv st' h' temp g' R ∧
    g ⊆ g' ∧ (∀ k, is_Some (g' !! k) ↔ is_Some (g !! k) ∨ k ∈ keys) ∧ (size g' ≤ size g + length keys)%nat ∧ Forall2 (λ k p, g' !! k = Some p) keys places.
Proof using Hap.
  intros Hinv Hkeys. unfold lookup_state.
  assert (∀ keys st h g, agg_inv st h temp g R → Forall st_key_ok keys → Z.of_nat (size g + length keys) < 2 ^ 57 → (∀ k, g !! k = None → ∀ i, R k i = []) →
    ∃ ps st' h' g', collectM (lookup_place params) keys (world gen dr st h) = (Ok ps, world gen dr st' h') ∧ agg_inv st' h' temp g' R ∧
    g ⊆ g' ∧ (∀ k, is_Some (g' !! k) ↔ is_Some (g !! k) ∨ k ∈ keys) ∧ (size g' ≤ size g + length keys)%nat ∧
    Forall2 (λ k p, g' !! k = Some p) keys (concat ps)) as Hloop.
  2:{ intros Hs HR. destruct (Hloop keys st h g Hinv Hkeys Hs HR) as (ps & st' & h' & g' & Hrun & Hrest). exists (concat ps), st', h', g'.
      by rewrite (bind_ok _ _ _ _ _ Hrun). }
  clear -Hap. intros keys st h g Hinv Hkeys. revert st h g Hinv. induction Hkeys as [|k keys Hk Hkeys IH]; intros st h g Hinv Hs HR; simpl.
  { exists [], st, h, g. split_and!; [done..|split; [by left|by intros [?|?%not_elem_of_nil]]|lia|constructor]. }
  simpl in Hs. destruct (lookup_place_ok gen dr k st h temp g R Hinv Hk ltac:(lia) (HR k)) as (p & st1 & h1 & g1 & Hb & Hinv1 & Hg1 & Hdom1 & Hsz1 & Hp1).
  rewrite (bind_ok _ _ _ _ _ Hb).
  destruct (IH st1 h1 g1 Hinv1) as (ps & st' & h' & g' & Hrun & Hinv' & Hg' & Hdom & Hsz & Hps); [lia| |].
  { intros j Hj. apply HR. destruct (g !! j) as [x|] eqn:Hx; [|done]. rewrite (lookup_weaken _ _ _ _ Hx Hg1) in Hj. done. }
  exists ([p] :: ps), st', h', g'. rewrite (bind_ok _ _ _ _ _ Hrun). split_and!; [done|done|by etrans| |simpl; lia|].
  - intros j. rewrite Hdom, Hdom1, elem_of_cons. tauto.
  - simpl. constructor; [by eapply lookup_weaken|done].
Qed.
Lemma check_two_level_ok gen dr st h temp g R :
  agg_inv st h temp g R → Z.of_nat (size g) < 2 ^ 57 →
  ∃ st', check_two_level threshold (world gen dr st h) = (Ok tt, world gen dr st' h) ∧ agg_inv st' h temp g R.
Proof.
  intros Hinv Hs. unfold check_two_level, get_state, bind. simpl. destruct (st_is_two_level st) eqn:Ht; [by exists st|]. simpl.
  destruct (threshold <=? st_len st); [|by exists st]. destruct Hinv as [(al & Hok & Hin) Hpq Hr Hte].
  destruct (st_convert_ok st g al Hok Ht Hs) as (st' & Hc & Hok'). exists st'. unfold on_state. simpl. rewrite Hc. split; [done|].
  split; [by exists al|done..].
Qed.

(** ** Taking in a block *)

(** The rows of a key. *)
Definition rows_for (k : K) (ks : list K) (rs : list Row) : list Row := snd <$> filter (λ x, x.1 = k) (zip ks rs).
Definition block_rows (ks : list K) (argss : list (list Column)) (n : nat) (k : K) (i : nat) : list Row :=
  rows_for k ks (rows_of (default [] (argss !! i)) n).
Lemma place_injective st h temp g R k k' p : Fs ≠ [] → agg_inv st h temp g R → g !! k = Some p → g !! k' = Some p → k = k'.
Proof using Hap.
  intros Hne Hinv Hk Hk'. destruct (decide (k = k')) as [|Hkk]; [done|]. exfalso.
  destruct (slot_at params Ss ly Hap 0) as (F & S & o & Hslot); [by destruct Fs; [done|simpl; lia]|].
  pose proof (slot_bounds params Ss ly Hap _ _ _ _ Hslot).
  pose proof (ai_apart _ _ _ _ _ Hinv (Some k) (Some k') p p ltac:(congruence) Hk Hk') as Hr. unfold range_apart in Hr. simpl in Hr. lia.
Qed.
Lemma pick_rows g ks places rs k p :
  (∀ j, g !! j = Some p → j = k) → g !! k = Some p → Forall2 (λ k p, g !! k = Some p) ks places → pick p places rs = rows_for k ks rs.
Proof.
  intros Hinj Hk Hps. revert rs. unfold pick, rows_for. induction Hps as [|j q ks places Hj Hps IH]; intros [|r rs]; try done. simpl.
  destruct (decide (j = k)) as [->|Hne].
  - assert (q = p) as -> by congruence. rewrite !filter_cons_True by done. simpl. f_equal. apply IH.
  - rewrite !filter_cons_False; [apply IH|done|]. intros Hq. simpl in Hq. subst. by apply Hne, Hinj.
Qed.
(** The key of a place. *)
Definition key_at g (p : Z) : option K := fst <$> head (filter (λ x, x.2 = p) (map_to_list g)).
Lemma key_at_ok g p k : (∀ j, g !! j = Some p → j = k) → g !! k = Some p → key_at g p = Some k.
Proof.
  intros Hinj Hk. unfold key_at. destruct (filter _ (map_to_list g)) as [|[j q] l] eqn:Hl.
  - exfalso. assert ((k, p) ∈ filter (λ x, x.2 = p) (map_to_list g)) as Hin; [|rewrite Hl in Hin; by apply not_elem_of_nil in Hin].
    apply list_elem_of_filter. split; [done|]. by apply elem_of_map_to_list.
  - simpl. assert ((j, q) ∈ filter (λ x, x.2 = p) (map_to_list g)) as [Hq Hin]%list_elem_of_filter by (rewrite Hl; left).
    simpl in Hq. subst q. apply elem_of_map_to_list in Hin. by rewrite (Hinj j).
Qed.
Lemma elem_of_places g p : p ∈ (map_to_list g).*2 ↔ ∃ k, g !! k = Some p.
Proof.
  rewrite list_elem_of_fmap. split; [intros ([k q] & -> & Hk); exists k; by apply elem_of_map_to_list|].
  intros [k Hk]. exists (k, p). split; [done|]. by apply elem_of_map_to_list.
Qed.
Lemma accumulate_step i F S o st h temp g R R' ks places args n :
  slot i F S o → LawfulKeys F S o → agg_inv st h temp g (λ k, upto i (R k) (R' k)) → Forall2 (λ k p, g !! k = Some p) ks places →
  as_args S args n → length ks = n → (∀ k, R' k i = R k i ++ rows_for k ks (rows_of args n)) →
  ∃ h', accumulate_keys F places o args n h = (Ok tt, h') ∧ agg_inv st h' temp g (λ k, upto (Datatypes.S i) (R k) (R' k)).
Proof using Hap.
  intros Hi Hkeys Hinv Hps Hargs Hn HR'. pose proof (slot_bounds params Ss ly Hap _ _ _ _ Hi) as Hb.
  assert (Fs ≠ []) as Hne by (destruct Hi as [HF _]; by destruct Fs).
  assert (∀ k p, g !! k = Some p → ∀ j, g !! j = Some p → j = k) as Hinj by (intros k p Hk j Hj; by eapply place_injective).
  destruct (Hkeys h (map_to_list g).*2 places args n (λ p, match key_at g p with Some k => R k i | None => [] end)) as (h' & Hrun & Hrep & Hout); [done| | | | |].
  - by rewrite <-(Forall2_length _ _ _ Hps).
  - intros p Hp. apply elem_of_places. apply list_elem_of_lookup in Hp as [j Hj]. destruct (Forall2_lookup_r _ _ _ _ _ Hps Hj) as (k & _ & Hk). by exists k.
  - intros p q [k Hk]%elem_of_places [k' Hk']%elem_of_places Hpq.
    pose proof (ai_apart _ _ _ _ _ Hinv (Some k) (Some k') p q ltac:(congruence) Hk Hk') as Hr. unfold range_apart in Hr. simpl in Hr. lia.
  - intros p [k Hk]%elem_of_places. rewrite (key_at_ok g p k) by eauto. pose proof (ai_rep _ _ _ _ _ Hinv k p Hk i F S o Hi) as Hr.
    cbv beta in Hr. by rewrite upto_at in Hr.
  - exists h'. split; [done|]. destruct Hinv as [Hal Hpq Hr Ht].
    assert (∀ x p j G T u xs, place_of temp g x = Some p → slot j G T u → (i ≠ j ∨ x = None) → as_rep T h (next p u) xs → as_rep T h' (next p u) xs) as Hkeep.
    { intros x p j G T u xs Hx Hj Hor. apply (lw_local (Lawful:=slot_lawful _ _ _ Hap _ _ _ _ Hj)). intros a Ha. apply Hout.
      intros q [k Hk]%elem_of_places. eapply (slot_outside params Ss ly Hap _ _ _ _ q _ _ _ _ p); [exact Hi|exact Hj| |exact Ha].
      destruct (decide (x = Some k)) as [->|Hxk]; [|right; by apply (Hpq (Some k) x)]. left. simpl in Hx. destruct Hor; [|done]. split; [done|congruence]. }
    split; [done|done| |].
    + intros k p Hk. assert (as_rep S h' (next p o) (R' k i)) as Hnew.
      { assert (p ∈ (map_to_list g).*2) as Hp by (apply elem_of_places; eauto). specialize (Hrep p Hp). rewrite (key_at_ok g p k) in Hrep by eauto.
        rewrite (pick_rows g ks places _ k p) in Hrep by eauto. by rewrite HR'. }
      intros j G T u Hj. rewrite upto_succ. destruct (decide (j = i)) as [->|Hij].
      * destruct Hi as (_ & HS & Ho), Hj as (_ & HT & Hu). by assert (T = S ∧ u = o) as [-> ->] by (split; congruence).
      * apply (Hkeep (Some k) p j G T u); [done|done|left; congruence|by eapply (Hr k p Hk)].
    + intros t Htt. destruct (Ht t Htt) as [ys Hys]. exists ys. intros j G T u Hj. apply (Hkeep None t j G T u); [done|done|by right|by eapply Hys].
Qed.
Lemma agg_inv_ext st h temp g R R' : agg_inv st h temp g R → (∀ k i, R k i = R' k i) → agg_inv st h temp g R'.
Proof. intros [Hal Hpq Hr Ht] HR. split; [done|done| |done]. intros k p Hk. eapply reps_ext; [by apply Hr|]. intros i. apply HR. Qed.
Lemma agg_inv_upto st h temp g R R' : agg_inv st h temp g (λ k, upto (length Fs) (R k) (R' k)) → agg_inv st h temp g R'.
Proof. intros [Hal Hpq Hr Ht]. split; [done|done| |done]. intros k p Hk. by eapply upto_all, Hr. Qed.
Hypothesis keys_lawful : ∀ i F S o, slot i F S o → LawfulKeys F S o.
Lemma execute_ok gen dr st h temp g R ks places block argss :
  agg_inv st h temp g R → Forall2 (λ k p, g !! k = Some p) ks places → length ks = num_rows block → aggregate_arguments block params = Ok argss →
  (∀ i S, Ss !! i = Some S → ∃ args, argss !! i = Some args ∧ as_args S args (num_rows block)) →
  ∃ h', execute params block places (world gen dr st h) = (Ok tt, world gen dr st h') ∧
    agg_inv st h' temp g (λ k i, R k i ++ block_rows ks argss (num_rows block) k i).
Proof using All.
  intros Hinv Hps Hn Hargs Hspec. set (R' := λ k i, R k i ++ block_rows ks argss (num_rows block) k i). unfold execute.
  erewrite bind_ok by (unfold lift; rewrite Hargs; reflexivity).
  match goal with |- context [each_function params ?b] => destruct (each_function_ok params Ss ly Hap b
    (λ i h', agg_inv st h' temp g (λ k, upto i (R k) (R' k))) (λ _ _, True) gen dr st h) as (l & h' & Hrun & _ & _ & Hinv') end.
  - by eapply agg_inv_ext.
  - intros i F S o h1 Hi Hinv1. destruct (Hspec i S) as (args & Ha & Hok); [apply Hi|].
    destruct (accumulate_step i F S o st h1 temp g R R' ks places args (num_rows block)) as (h2 & Hacc & Hinv2); [by eauto..| |].
    { intros k. unfold R', block_rows. by rewrite Ha. }
    exists tt, h2. split; [|done]. erewrite bind_ok by (unfold lift; rewrite Ha; reflexivity). by apply on_memory_ok.
  - exists h'. rewrite (bind_ok _ _ _ _ _ Hrun). split; [done|]. by eapply agg_inv_upto.
Qed.

(** What a block holds: the keys of its rows, and the arguments of the functions. *)
Record fact := mkFact { f_keys : list K; f_args : list (list Column); f_rows : nat }.
Record fact_of (block : DataBlock) (f : fact) : Prop := {
  fo_keys : ∃ cols, columns_by_name block (group_columns_name params) = Ok cols ∧ build_keys cols (num_rows block) = Ok (f_keys f);
  fo_rows : f_rows f = num_rows block;
  fo_length : length (f_keys f) = f_rows f;
  fo_ok : Forall st_key_ok (f_keys f);
  fo_args : aggregate_arguments block params = Ok (f_args f);
  fo_spec i S : Ss !! i = Some S → ∃ args, f_args f !! i = Some args ∧ as_args S args (f_rows f);
}.
(** The keys of blocks, and the rows of a key for the i-th function. *)
Definition group_keys (fs : list fact) : list K := fs ≫= f_keys.
Definition group_rows (fs : list fact) (k : K) (i : nat) : list Row := fs ≫= λ f, block_rows (f_keys f) (f_args f) (f_rows f) k i.
Lemma rows_for_nil k ks rs : k ∉ ks → rows_for k ks rs = [].
Proof.
  revert rs. unfold rows_for. induction ks as [|j ks IH]; intros [|r rs]; try done. rewrite not_elem_of_cons. intros [Hj Hk]. simpl.
  rewrite filter_cons_False by (simpl; congruence). by apply IH.
Qed.
Lemma group_rows_nil fs k i : k ∉ group_keys fs → group_rows fs k i = [].
Proof.
  unfold group_keys, group_rows. induction fs as [|f fs IH]; [done|]. simpl. rewrite not_elem_of_app. intros [Hf Hfs].
  unfold block_rows at 1. rewrite rows_for_nil by done. by apply IH.
Qed.
Lemma group_rows_app fs fs' k i : group_rows (fs ++ fs') k i = group_rows fs k i ++ group_rows fs' k i.
Proof. unfold group_rows. apply bind_app. Qed.
Lemma group_keys_app fs fs' : group_keys (fs ++ fs') = group_keys fs ++ group_keys fs'.
Proof. unfold group_keys. apply bind_app. Qed.
Lemma group_keys_snoc fs f : group_keys (fs ++ [f]) = group_keys fs ++ f_keys f.
Proof. rewrite group_keys_app. unfold group_keys at 2. simpl. by rewrite app_nil_r. Qed.
Lemma group_rows_snoc fs f k i : group_rows (fs ++ [f]) k i = group_rows fs k i ++ block_rows (f_keys f) (f_args f) (f_rows f) k i.
Proof. rewrite group_rows_app. unfold group_rows at 2. simpl. by rewrite app_nil_r. Qed.

(** An aggregator that has taken in these blocks. *)
Definition groups_inv (st : St) h temp (fs : list fact) : Prop :=
  ∃ g, agg_inv st h temp g (group_rows fs) ∧ (∀ k, is_Some (g !! k) ↔ k ∈ group_keys fs) ∧ (size g ≤ length (group_keys fs))%nat ∧
    Forall st_key_ok (group_keys fs).
Lemma group_absent g fs : (∀ k, is_Some (g !! k) ↔ k ∈ group_keys fs) → ∀ k, g !! k = None → ∀ i, group_rows fs k i = [].
Proof. intros Hdom k Hk i. apply group_rows_nil. rewrite <-Hdom, Hk. by intros [? ?]. Qed.
(** The places of keys, those of a block or those of partial states. *)
Lemma group_lookup gen dr st h temp fs ks :
  groups_inv st h temp fs → Forall st_key_ok ks → Z.of_nat (length (group_keys fs) + length ks) < 2 ^ 57 →
  ∃ places st' h' g, (check_two_level threshold ;;! lookup_state params ks) (world gen dr st h) = (Ok places, world gen dr st' h') ∧
    agg_inv st' h' temp g (group_rows fs) ∧ (∀ k, is_Some (g !! k) ↔ k ∈ group_keys fs ∨ k ∈ ks) ∧
    (size g ≤ length (group_keys fs) + length ks)%nat ∧ Forall2 (λ k p, g !! k = Some p) ks places.
Proof using Hap.
  intros (g & Hinv & Hdom & Hsz & _) Hks Hlen. destruct (check_two_level_ok gen dr st h temp g _ Hinv ltac:(lia)) as (st1 & Htwo & Hinv1).
  destruct (lookup_state_ok gen dr ks st1 h temp g _ Hinv1 Hks ltac:(lia) (group_absent g fs Hdom)) as (places & st' & h' & g' & Hrun & Hinv' & _ & Hdom' & Hsz' & Hps).
  exists places, st', h', g'. rewrite (bind_ok _ _ _ _ _ Htwo). split_and!; [done|done| |lia|done].
  intros k. by rewrite Hdom', Hdom.
Qed.
Lemma bind_assoc_run {A B C} (m : M (Agg St) agg_error A) (f : A → M (Agg St) agg_error B) (c : B → M (Agg St) agg_error C) w :
  bind m (λ a, bind (f a) c) w = bind (bind m f) c w.
Proof. unfold bind. by destruct (m w) as [[] w1]. Qed.
Lemma partial_consume_ok gen dr st h temp fs block f :
  groups_inv st h temp fs → fact_of block f → Z.of_nat (length (group_keys fs) + length (f_keys f)) < 2 ^ 57 →
  ∃ st' h', partial_consume params threshold block (world gen dr st h) = (Ok tt, world gen dr st' h') ∧ groups_inv st' h' temp (fs ++ [f]).
Proof using All.
  intros Hg [(cols & Hcols & Hbk) Hrows Hlen Hok Hargs Hspec] Hlt. unfold partial_consume, partial_keys.
  erewrite bind_ok by (unfold bind, lift; rewrite Hcols, Hbk; reflexivity). rewrite bind_assoc_run.
  destruct (group_lookup gen dr st h temp fs (f_keys f) Hg Hok Hlt) as (places & st' & h' & g & Hrun & Hinv & Hdom & Hsz & Hps).
  rewrite (bind_ok _ _ _ _ _ Hrun). rewrite Hrows in Hlen, Hspec.
  destruct (execute_ok gen dr st' h' temp g _ (f_keys f) places block (f_args f) Hinv Hps Hlen Hargs Hspec) as (h2 & Hex & Hinv2).
  exists st', h2. split; [done|]. exists g. rewrite group_keys_snoc. split_and!.
  - eapply agg_inv_ext; [done|]. intros k i. by rewrite group_rows_snoc, Hrows.
  - intros k. by rewrite elem_of_app.
  - by rewrite length_app.
  - apply Forall_app. split; [|done]. by destruct Hg as (? & _ & _ & _ & ?).
Qed.

(** ** Reading and dropping the states *)

(** The state of a function at one place is replaced. *)
Lemma agg_inv_write st h h' temp g R R' x p i F S o zs :
  slot i F S o → agg_inv st h temp g R → place_of temp g x = Some p → frame h h' (next p o) (fsize F) → as_rep S h' (next p o) zs →
  (∀ k j, R' k j = if decide (x = Some k ∧ j = i) then zs else R k j) → agg_inv st h' temp g R'.
Proof using Hap.
  intros Hi [Hal Hpq Hr Ht] Hx Hf Hz HR'.
  assert (∀ y q j G T u xs, place_of temp g y = Some q → slot j G T u → ¬ (x = y ∧ j = i) → as_rep T h (next q u) xs → as_rep T h' (next q u) xs) as Hkeep.
  { intros y q j G T u xs Hy Hj Hne. eapply (slot_keeps params Ss ly Hap h h' i F S o p); [done..|].
    destruct (decide (x = y)) as [->|Hxy]; [left|right; by apply (Hpq x y)]. split; [|congruence]. intros ->. by apply Hne. }
  assert (∀ j G T u, slot j G T u → j = i → T = S ∧ u = o) as Hsame.
  { intros j G T u (_ & HT & Hu) ->. destruct Hi as (_ & HS & Ho). split; congruence. }
  split; [done|done| |].
  - intros k q Hk j G T u Hj. rewrite HR'. case_decide as Hd; [|apply (Hkeep (Some k) q j G T u); [done..|by eapply Hr]].
    destruct Hd as [-> Hji]. simpl in Hx. assert (q = p) as -> by congruence. by destruct (Hsame _ _ _ _ Hj Hji) as [-> ->].
  - intros t Htt. destruct (Ht t Htt) as [ys Hys]. exists (λ j, if decide (x = None ∧ j = i) then zs else ys j).
    intros j G T u Hj. case_decide as Hd; [|apply (Hkeep None t j G T u); [done..|by eapply Hys]].
    destruct Hd as [-> Hji]. simpl in Hx. assert (t = p) as -> by congruence. by destruct (Hsame _ _ _ _ Hj Hji) as [-> ->].
Qed.
Lemma entries_ok gen dr st h temp g R :
  agg_inv st h temp g R → ∃ l, entries (K:=K) (world gen dr st h) = (Ok l, world gen dr st h) ∧ map_to_list g ≡ₚ l.
Proof.
  intros [(al & Hok & _) _ _ _]. destruct (st_iter_ok _ _ _ Hok) as (l & Hl & Hp). exists l. unfold entries, on_state. simpl. by rewrite Hl.
Qed.
Lemma is_done_ok gen dr st h temp g R :
  agg_inv st h temp g R → is_done (K:=K) (world gen dr st h) = (Ok (bool_decide (g = ∅) || gen), world gen dr st h).
Proof.
  intros [(al & Hok & _) _ _ _]. unfold is_done, get_state, get_generated, bind. simpl. unfold ret. do 3 f_equal. rewrite (st_len_ok _ _ _ Hok).
  case_bool_decide as Hg; [by subst|]. apply Z.eqb_neq. intros Hz. apply Hg, map_size_empty_inv. lia.
Qed.
(** Serializing the states, or computing the results, for all keys. *)
Definition reads {A} (op : AggregateFunction → Z → AM A) (P : AggregateFunction → agg_spec → A → list Row → Prop) : Prop :=
  ∀ i F S o h p xs, slot i F S o → as_rep S h p xs → ∃ a h', op F p h = (Ok a, h') ∧ P F S a xs ∧ as_rep S h' p xs ∧ frame h h' p (fsize F).
Lemma reads_serialize : reads serialize (λ F S b xs, encodes F S b xs).
Proof using Hap.
  intros i F S o h p xs Hi Hrep. destruct (lw_bytes (Lawful:=slot_lawful _ _ _ Hap _ _ _ _ Hi) h p xs Hrep) as (b & Hb & Henc).
  exists b, h. split_and!; [done..|apply frame_refl].
Qed.
Lemma reads_result : reads merge_result (λ F S v xs, v = as_value S xs).
Proof using Hap.
  intros i F S o h p xs Hi Hrep. destruct (lw_result (Lawful:=slot_lawful _ _ _ Hap _ _ _ _ Hi) h p xs Hrep) as (h' & Hb & Hrest). by eexists _, h'.
Qed.
Lemma read_loop {A} (op : AggregateFunction → Z → AM A) P gen dr st h temp g R l :
  reads op P → agg_inv st h temp g R → map_to_list g ≡ₚ l →
  ∃ rows h', collectM (λ '(_, place), each_function params (λ _ F o, on_memory (op F (next place o)))) l (world gen dr st h) = (Ok rows, world gen dr st h') ∧
    agg_inv st h' temp g R ∧ length rows = length l ∧
    ∀ j k p row, l !! j = Some (k, p) → rows !! j = Some row → length row = length Fs ∧ ∀ i F S o a, slot i F S o → row !! i = Some a → P F S a (R k i).
Proof using Hap.
  intros Hop Hinv Hl.
  edestruct (collectM_ok (λ '((_, place) : K * Z), each_function params (λ _ F o, on_memory (op F (next place o))))
    (λ _ w, ∃ h', w = world gen dr st h' ∧ agg_inv st h' temp g R)
    (λ _ x row, length row = length Fs ∧ ∀ i F S o a, slot i F S o → row !! i = Some a → P F S a (R x.1 i)) l (world gen dr st h)) as (rows & w & Hrun & Hlen & HQ & h' & -> & Hinv').
  - by exists h.
  - intros j [k p] w Hj (h1 & -> & Hinv1). assert (g !! k = Some p) as Hk.
    { apply elem_of_map_to_list. rewrite Hl. by eapply list_elem_of_lookup_2. }
    destruct (each_function_ok params Ss ly Hap (λ _ F o, on_memory (op F (next p o))) (λ _ h', agg_inv st h' temp g R)
      (λ i a, ∀ F S o, slot i F S o → P F S a (R k i)) gen dr st h1) as (row & h2 & Hrow & Hrl & HP & Hinv2); [done| |].
    + intros i F S o h2 Hi Hinv2. destruct (Hop i F S o h2 (next p o) (R k i) Hi) as (a & h3 & Ha & HP & Hrep & Hf); [by eapply (ai_rep _ _ _ _ _ Hinv2)|].
      exists a, h3. split; [by apply on_memory_ok|]. split.
      * intros G T u Hj'. destruct Hi as (HF & HS & _), Hj' as (HG & HT & _). by assert (G = F ∧ T = S) as [-> ->] by (split; congruence).
      * eapply (agg_inv_write st h2 h3 temp g R R (Some k) p i); [done..|]. intros k' j'. case_decide as Hd; [|done]. destruct Hd as [[= ->] ->]. done.
    + exists row, (world gen dr st h2). split; [done|]. split; [|by exists h2]. split; [done|]. intros i F S o a Hi Ha. by eapply HP.
  - exists rows, h'. split_and!; [done..|]. intros j k p row Hj Hrow. exact (HQ j (k, p) row Hj Hrow).
Qed.

(** ** What a partial aggregator gives *)

(** A block with the states of the groups of these facts. *)
Definition partial_output (b : DataBlock) (fs : list fact) : Prop := ∃ ks bss,
  NoDup ks ∧ ks ≠ [] ∧ (∀ k, k ∈ ks ↔ k ∈ group_keys fs) ∧ block_column b (length Fs) = Ok (keys_column ks) ∧
  length bss = length Fs ∧ (∀ i bs, bss !! i = Some bs → block_column b i = Ok (StringColumn bs) ∧ length bs = length ks ∧
    ∀ F S j k bt, Fs !! i = Some F → Ss !! i = Some S → ks !! j = Some k → bs !! j = Some bt → encodes F S bt (group_rows fs k i)).
Lemma block_create_column names cols i c :
  length names = length cols → cols !! i = Some c → block_column (block_create names cols) i = Ok c.
Proof.
  intros Hl Hc. unfold block_column, block_create. destruct (lookup_lt_is_Some_2 names i) as [n Hn]; [rewrite Hl; by eapply lookup_lt_Some|].
  change (unwrap (E:=agg_error) (snd <$> zip names cols !! i) = Ok c). by rewrite (proj2 (lookup_zip_Some names cols i n c) (conj Hn Hc)).
Qed.
Lemma map_keys_perm g (l : list (K * Z)) : map_to_list g ≡ₚ l → NoDup l.*1 ∧ ∀ k, k ∈ l.*1 ↔ is_Some (g !! k).
Proof.
  intros Hp. split; [rewrite <-Hp; apply NoDup_fst_map_to_list|]. intros k. rewrite <-Hp, list_elem_of_fmap. split.
  - intros ([j v] & -> & Hj%elem_of_map_to_list). by eexists.
  - intros [v Hv]. exists (k, v). split; [done|]. by apply elem_of_map_to_list.
Qed.
Lemma read_columns {A} (op : AggregateFunction → Z → AM A) P gen dr st h temp fs :
  reads op P → groups_inv st h temp fs →
  ∃ l rows h', entries (K:=K) (world gen dr st h) = (Ok l, world gen dr st h) ∧
    collectM (λ '(_, place), each_function params (λ _ F o, on_memory (op F (next place o)))) l (world gen dr st h) = (Ok rows, world gen dr st h') ∧
    groups_inv st h' temp fs ∧ NoDup l.*1 ∧ (∀ k, k ∈ l.*1 ↔ k ∈ group_keys fs) ∧
    ∀ i F S, Fs !! i = Some F → Ss !! i = Some S → length (omap (λ r : list A, r !! i) rows) = length l.*1 ∧
      ∀ j k a, l.*1 !! j = Some k → omap (λ r : list A, r !! i) rows !! j = Some a → P F S a (group_rows fs k i).
Proof using Hap.
  intros Hop (g & Hinv & Hdom & Hsz & Hks). destruct (entries_ok gen dr st h temp g _ Hinv) as (l & Hl & Hperm). destruct (map_keys_perm g l Hperm) as [Hnd Hin].
  destruct (read_loop op P gen dr st h temp g _ l Hop Hinv Hperm) as (rows & h' & Hrun & Hinv' & Hrl & Hrows).
  exists l, rows, h'. split_and!; [done|done|by exists g|done|intros k; by rewrite Hin, Hdom|]. intros i F S HF HS.
  assert (∀ r, r ∈ rows → (i < length r)%nat) as Hlens.
  { intros r [j Hj]%list_elem_of_lookup. destruct (lookup_lt_is_Some_2 l j) as [[k p] Hk]; [rewrite <-Hrl; by eapply lookup_lt_Some|].
    destruct (Hrows j k p r Hk Hj) as [-> _]. by eapply lookup_lt_Some. }
  split; [by rewrite omap_column_length, length_fmap|]. intros j k a Hj Ha. rewrite omap_column in Ha by done.
  apply list_lookup_fmap_Some in Hj as ([k' p] & -> & Hj). destruct (rows !! j) as [row|] eqn:Hrow; [|done]. simpl in Ha.
  destruct (slot_at params Ss ly Hap i) as (F' & S' & o & Hslot); [by eapply lookup_lt_Some|]. destruct (Hrows j k' p row Hj Hrow) as [_ HP].
  pose proof Hslot as (HF' & HS' & _). assert (F' = F ∧ S' = S) as [-> ->] by (split; congruence). by eapply HP.
Qed.
(** There is nothing to generate when no row was taken in. *)
Lemma groups_done gen dr st h temp fs :
  groups_inv st h temp fs → is_done (K:=K) (world gen dr st h) = (Ok (bool_decide (group_keys fs = []) || gen), world gen dr st h).
Proof.
  intros (g & Hinv & Hdom & _). rewrite (is_done_ok _ _ _ _ _ _ _ Hinv). do 3 f_equal. apply bool_decide_ext. split.
  - intros ->. destruct (group_keys fs) as [|k ks]; [done|]. destruct (proj2 (Hdom k)) as [x Hx]; [by left|]. by rewrite lookup_empty in Hx.
  - intros Hnil. apply map_eq. intros k. rewrite lookup_empty. apply eq_None_not_Some. rewrite Hdom, Hnil. apply not_elem_of_nil.
Qed.
Lemma perm_nonempty (ks : list K) fs : (∀ k, k ∈ ks ↔ k ∈ group_keys fs) → group_keys fs ≠ [] → ks ≠ [].
Proof.
  intros Hin Hne ->. destruct (group_keys fs) as [|k l]; [done|]. pose proof (proj2 (Hin k) ltac:(left)) as Hk.
  by apply not_elem_of_nil in Hk.
Qed.
Lemma partial_generate_ok dr st h temp fs :
  length (schema params) = Datatypes.S (length Fs) → groups_inv st h temp fs → group_keys fs ≠ [] →
  ∃ b h', partial_generate params (world false dr st h) = (Ok (Some b), world true dr st h') ∧ partial_output b fs ∧ groups_inv st h' temp fs.
Proof using Hap.
  intros Hschema Hg Hne. unfold partial_generate. rewrite (bind_ok _ _ _ _ _ (groups_done _ _ _ _ _ _ Hg)). rewrite bool_decide_false by done. cbv beta iota delta [orb].
  destruct (read_columns serialize _ true dr st h temp fs reads_serialize Hg) as (l & rows & h' & Hl & Hrun & Hg' & Hnd & Hin & Hcols).
  rewrite (bind_ok set_generated _ (world false dr st h) tt (world true dr st h) eq_refl), (bind_ok _ _ _ _ _ Hl), (bind_ok _ _ _ _ _ Hrun).
  eexists _, h'. split; [done|]. split; [|done]. set (col := λ idx, omap (λ r : list string, r !! idx) rows).
  exists l.*1, (col <$> seq 0 (length Fs)). split_and!; [done|by eapply perm_nonempty|done| |by rewrite length_fmap, length_seq|].
  - apply block_create_column; [rewrite length_app, length_fmap, length_seq; simpl; lia|].
    rewrite lookup_app_r; rewrite length_fmap, length_seq; [by rewrite Nat.sub_diag|lia].
  - intros i bs Hbs. apply list_lookup_fmap_Some in Hbs as (i' & -> & [-> Hi]%lookup_seq). simpl.
    destruct (slot_at params Ss ly Hap i Hi) as (F & S & o & HF & HS & _). destruct (Hcols i F S HF HS) as [Hlen HP]. split; [|split; [done|]].
    + apply block_create_column; [rewrite length_app, length_fmap, length_seq; simpl; lia|].
      rewrite lookup_app_l by by rewrite length_fmap, length_seq. by rewrite list_lookup_fmap, (proj2 (lookup_seq 0 _ i i)).
    + intros F' S' j k bt HF' HS' Hj Hbt. assert (F' = F ∧ S' = S) as [-> ->] by (split; congruence). by eapply HP.
Qed.

(** ** Merging partial states *)
Lemma merge_step gen dr st h t g R i F S o k p b ys :
  slot i F S o → agg_inv st h (Some t) g R → g !! k = Some p → encodes F S b ys →
  ∃ h', (on_memory (deserialize F (next t o) b) ;;! on_memory (merge F (next p o) (next t o))) (world gen dr st h) = (Ok tt, world gen dr st h') ∧
    agg_inv st h' (Some t) g (λ k' j, if decide (Some k = Some k' ∧ j = i) then R k i ++ ys else R k' j).
Proof using Hap.
  intros Hi Hinv Hk Henc. destruct (ai_temp _ _ _ _ _ Hinv t eq_refl) as [zs Hzs].
  destruct (Henc h (next t o) (zs i) EmptyString (Hzs i F S o Hi)) as (h1 & Hde & Hrep1 & Hf1). rewrite string_app_nil in Hde.
  pose proof (agg_inv_write st h h1 (Some t) g R R None t i F S o ys Hi Hinv eq_refl Hf1 Hrep1) as Hinv1.
  specialize (Hinv1 ltac:(intros k' j; by rewrite decide_False by (intros [? _]; done))).
  pose proof (slot_bounds params Ss ly Hap _ _ _ _ Hi). pose proof (ai_apart _ _ _ _ _ Hinv (Some k) None p t ltac:(done) Hk eq_refl) as Hpt.
  destruct (lw_merge (Lawful:=slot_lawful _ _ _ Hap _ _ _ _ Hi) h1 (next p o) (next t o) (R k i) ys) as (h2 & Hme & Hrep2 & Hf2).
  { by eapply (ai_rep _ _ _ _ _ Hinv1). } { done. } { unfold range_apart, next in *. simpl in *. lia. }
  exists h2. rewrite (bind_ok _ _ _ _ _ (on_memory_ok _ _ _ _ _ _ _ Hde)). split; [by apply on_memory_ok|].
  by apply (agg_inv_write st h1 h2 (Some t) g R _ (Some k) p i F S o (R k i ++ ys)).
Qed.
(** The rows [X] of a key are added for all functions. *)
Definition add_rows R (k : K) (X : nat → list Row) : K → nat → list Row := λ k' j, if decide (k' = k) then R k j ++ X j else R k' j.
Lemma merge_row gen dr st h t g R k p (X : nat → list Row) (cols : list (list string)) row :
  agg_inv st h (Some t) g R → g !! k = Some p → length cols = length Fs →
  (∀ i F S bs, cols !! i = Some bs → Fs !! i = Some F → Ss !! i = Some S → ∃ b, bs !! row = Some b ∧ encodes F S b (X i)) →
  ∃ h', (each_function params (λ idx F o,
      let! column := lift (unwrap (cols !! idx)) in
      let! data := lift (unwrap (column !! row)) in
      on_memory (deserialize F (next t o) data) ;;! on_memory (merge F (next p o) (next t o))) ;;! ret tt) (world gen dr st h) = (Ok tt, world gen dr st h') ∧
    agg_inv st h' (Some t) g (add_rows R k X).
Proof using Hap.
  intros Hinv Hk Hcols Henc. match goal with |- context [each_function params ?b] => destruct (each_function_ok params Ss ly Hap b
    (λ i h', agg_inv st h' (Some t) g (λ k', if decide (k' = k) then upto i (R k) (λ j, R k j ++ X j) else R k')) (λ _ _, True) gen dr st h) as (l & h' & Hrun & _ & _ & Hinv') end.
  - eapply agg_inv_ext; [done|]. intros k' j. by destruct (decide (k' = k)) as [->|].
  - intros i F S o h1 Hi Hinv1. destruct (lookup_lt_is_Some_2 cols i) as [bs Hbs]; [rewrite Hcols; destruct Hi; by eapply lookup_lt_Some|].
    destruct (Henc i F S bs Hbs) as (b & Hb & He); [apply Hi..|].
    destruct (merge_step gen dr st h1 t g _ i F S o k p b (X i) Hi Hinv1 Hk He) as (h2 & Hrun & Hinv2). exists tt, h2.
    erewrite bind_ok by (unfold lift; rewrite Hbs; reflexivity). erewrite bind_ok by (unfold lift; rewrite Hb; reflexivity). split; [exact Hrun|]. split; [done|].
    eapply agg_inv_ext; [done|]. intros k' j. simpl. destruct (decide (k' = k)) as [->|Hne].
    + rewrite !(decide_True (P:=k = k)) by done. rewrite upto_succ, upto_at. destruct (decide (j = i)) as [->|Hji]; [by rewrite decide_True by done|].
      by rewrite decide_False by (intros [_ ?]; done).
    + rewrite decide_False; [done|]. intros [[= ->] _]. done.
  - exists h'. rewrite (bind_ok _ _ _ _ _ Hrun). split; [done|]. destruct Hinv' as [Hal Hpq Hr Ht]. split; [done|done| |done].
    intros k' q Hk'. specialize (Hr k' q Hk'). unfold add_rows. destruct (decide (k' = k)) as [->|]; [by eapply upto_all|done].
Qed.
Context `{!HashMethodLaws K st_key_ok}.
Lemma merge_partial_rows gen dr st h t g R fs ks places (cols : list (list string)) :
  agg_inv st h (Some t) g R → Forall2 (λ k p, g !! k = Some p) ks places → NoDup ks → length cols = length Fs →
  (∀ i bs, cols !! i = Some bs → length bs = length ks ∧
    ∀ F S j k bt, Fs !! i = Some F → Ss !! i = Some S → ks !! j = Some k → bs !! j = Some bt → encodes F S bt (group_rows fs k i)) →
  ∃ h', forM (zip (seq 0 (length places)) places) (λ '(row, place),
      each_function params (λ idx F o,
        let! column := lift (unwrap (cols !! idx)) in
        let! data := lift (unwrap (column !! row)) in
        on_memory (deserialize F (next t o) data) ;;! on_memory (merge F (next place o) (next t o))) ;;! ret tt) (world gen dr st h) = (Ok tt, world gen dr st h') ∧
    agg_inv st h' (Some t) g (λ k i, if decide (k ∈ ks) then R k i ++ group_rows fs k i else R k i).
Proof using Hap.
  intros Hinv Hps Hnd Hcols Henc. pose proof (Forall2_length _ _ _ Hps) as Hlen.
  match goal with |- context [forM ?l ?body] => destruct (forM_ok body (λ j w, ∃ h', w = world gen dr st h' ∧
    agg_inv st h' (Some t) g (λ k i, if decide (k ∈ take j ks) then R k i ++ group_rows fs k i else R k i)) l (world gen dr st h)) as (w & Hrun & h' & -> & Hinv') end.
  3:{ rewrite length_zip, length_seq, Nat.min_id in Hinv'. exists h'. split; [exact Hrun|]. by rewrite <-Hlen, firstn_all in Hinv'. }
  - exists h. split; [done|]. eapply agg_inv_ext; [done|]. intros k i. by rewrite decide_False by apply not_elem_of_nil.
  - intros j [row p] w Hj (h1 & -> & Hinv1). apply lookup_zip_Some in Hj as [[-> _]%lookup_seq Hp]. simpl.
    destruct (Forall2_lookup_r _ _ _ _ _ Hps Hp) as (k & Hkj & Hk).
    destruct (merge_row gen dr st h1 t g _ k p (λ i, group_rows fs k i) cols j Hinv1 Hk Hcols) as (h2 & Hrow & Hinv2).
    { intros i F S bs Hbs HF HS. destruct (Henc i bs Hbs) as [Hl He]. destruct (lookup_lt_is_Some_2 bs j) as [b Hb]; [rewrite Hl; by eapply lookup_lt_Some|].
      exists b. split; [done|]. by eapply He. }
    exists (world gen dr st h2). split; [exact Hrow|]. exists h2. split; [done|]. eapply agg_inv_ext; [done|]. intros k' i. unfold add_rows.
    rewrite (take_S_r _ _ _ Hkj). assert (k ∉ take j ks) as Hnew.
    { intros (m & Hm)%list_elem_of_lookup. apply lookup_take_Some in Hm as [Hm Hlt]. pose proof (NoDup_lookup _ _ _ _ Hnd Hm Hkj). lia. }
    destruct (decide (k' = k)) as [->|Hne].
    + rewrite decide_False by done. by rewrite decide_True by (apply elem_of_app; right; left).
    + apply decide_ext. rewrite elem_of_app, list_elem_of_singleton. tauto.
Qed.
Lemma final_consume_ok gen dr st h t fs fs' b :
  groups_inv st h (Some t) fs → partial_output b fs' → Forall st_key_ok (group_keys fs') → Z.of_nat (length (group_keys fs) + length (group_keys fs')) < 2 ^ 57 →
  ∃ st' h', final_consume params threshold (Some t) b (world gen dr st h) = (Ok tt, world gen dr st' h') ∧ groups_inv st' h' (Some t) (fs ++ fs').
Proof using Hap HashMethodLaws0.
  intros Hg (ks & bss & Hnd & _ & Hin & Hkc & Hbl & Hbs) Hok Hlt.
  assert (length ks ≤ length (group_keys fs'))%nat as Hkl by (apply submseteq_length, NoDup_submseteq; [done|intros k; by rewrite Hin]).
  assert (Forall st_key_ok ks) as Hks by (rewrite Forall_forall in Hok |- *; intros k Hk; by apply Hok, Hin).
  unfold final_consume. erewrite bind_ok by (unfold lift; rewrite Hkc; reflexivity).
  erewrite bind_ok by (unfold lift; rewrite hm_round by done; reflexivity). rewrite bind_assoc_run.
  destruct (group_lookup gen dr st h (Some t) fs ks Hg Hks ltac:(lia)) as (places & st' & h' & g & Hrun & Hinv & Hdom & Hsz & Hps).
  rewrite (bind_ok _ _ _ _ _ Hrun).
  assert (res_mapM (block_column b) (seq 0 (length Fs)) = Ok (StringColumn <$> bss)) as Hcols.
  { apply res_mapM_ok, Forall2_same_length_lookup_2; [by rewrite length_seq, length_fmap|]. intros i j c [-> _]%lookup_seq Hc.
    apply list_lookup_fmap_Some in Hc as (bs & -> & Hi). by destruct (Hbs _ _ Hi). }
  assert (res_mapM check_get_string (StringColumn <$> bss) = Ok bss) as Hcheck.
  { apply res_mapM_ok. apply Forall2_fmap_l. by apply Forall_Forall2_diag, Forall_true. }
  erewrite bind_ok by (unfold lift; rewrite Hcols; reflexivity). erewrite bind_ok by (unfold lift; rewrite Hcheck; reflexivity).
  destruct (merge_partial_rows gen dr st' h' t g _ fs' ks places bss Hinv Hps Hnd Hbl) as (h2 & Hloop & Hinv2); [intros i bs Hi; by destruct (Hbs i bs Hi)|].
  exists st', h2. split; [exact Hloop|]. exists g. rewrite group_keys_app. split_and!.
  - eapply agg_inv_ext; [done|]. intros k i. simpl. rewrite group_rows_app. destruct (decide (k ∈ ks)) as [|Hk]; [done|].
    rewrite (group_rows_nil fs' k i), app_nil_r by by rewrite <-Hin. done.
  - intros k. by rewrite Hdom, elem_of_app, Hin.
  - rewrite length_app. lia.
  - apply Forall_app. split; [|done]. by destruct Hg as (? & _ & _ & _ & ?).
Qed.

(** ** The results *)
Definition final_result (r : ResultBlock) (fs : list fact) : Prop := ∃ ks,
  NoDup ks ∧ (∀ k, k ∈ ks ↔ k ∈ group_keys fs) ∧ group_columns_finish ks = Ok (result_groups r) ∧ length (result_values r) = length Fs ∧
  ∀ i S col, result_values r !! i = Some col → Ss !! i = Some S → col = (λ k, as_value S (group_rows fs k i)) <$> ks.
Lemma final_generate_ok dr st h t fs :
  groups_inv st h (Some t) fs → group_keys fs ≠ [] → finishable (group_keys fs) →
  ∃ r h', final_generate params (Some t) (world false dr st h) = (Ok (Some r), world true dr st h') ∧ final_result r fs ∧ groups_inv st h' (Some t) fs.
Proof using Hap HashMethodLaws0.
  intros Hg Hne Hfinish. unfold final_generate. rewrite (bind_ok _ _ _ _ _ (groups_done _ _ _ _ _ _ Hg)). rewrite bool_decide_false by done. cbv beta iota delta [orb].
  destruct (read_columns merge_result _ true dr st h (Some t) fs reads_result Hg) as (l & rows & h' & Hl & Hrun & Hg' & Hnd & Hin & Hcols).
  rewrite (bind_ok set_generated _ (world false dr st h) tt (world true dr st h) eq_refl), (bind_ok _ _ _ _ _ Hl), (bind_ok _ _ _ _ _ Hrun).
  pose proof (Hfinish l.*1 (perm_nonempty _ _ Hin Hne) (λ k, proj1 (Hin k))) as Hfin. destruct (group_columns_finish l.*1) as [groups| |] eqn:Hgr; [|done..].
  eexists _, h'. split; [done|]. split; [|done]. exists l.*1. split_and!; [done..|simpl; by rewrite length_fmap, length_seq|].
  intros i S col Hcol HS. simpl in Hcol. apply list_lookup_fmap_Some in Hcol as (i' & -> & [-> Hi]%lookup_seq). simpl.
  destruct (slot_at params Ss ly Hap i Hi) as (F & S' & o & HF & HS' & _). destruct (Hcols i F S HF HS) as [Hlen HP].
  apply list_eq. intros j. rewrite list_lookup_fmap. destruct (l.*1 !! j) as [k|] eqn:Hj; simpl.
  - destruct (lookup_lt_is_Some_2 (omap (λ r : list (option Scalar), r !! i) rows) j) as [v Hv]; [rewrite Hlen; by eapply lookup_lt_Some|].
    rewrite Hv. f_equal. by eapply HP.
  - apply lookup_ge_None. rewrite Hlen. by apply lookup_ge_None.
Qed.
End keys.
