(* ===== verification/AggregatorRun.v ===== *)
(** * Running the aggregators: dropping the states, the processor, and the whole of a GROUP BY. *)
From S2P Require Import Prelude Column AggFunction AggLaws AggState AggLayout Aggregator AggregatorProps.
#[local] Open Scope Z_scope.

Lemma forM_filter {W E A} (P : A → Prop) `{!∀ x, Decision (P x)} (f : A → M W E unit) l w :
  forM (filter P l) f w = forM l (λ x, if decide (P x) then f x else ret tt) w.
Proof.
  revert w. induction l as [|x l IH]; intros w; [done|]. rewrite filter_cons. simpl. destruct (decide (P x)); simpl.
  - unfold bind. destruct (f x w) as [[] w1]; [apply IH|done..].
  - unfold bind, ret. apply IH.
Qed.

(** Dropping the states at a place, one function after the other. *)
Lemma drop_loop params Ss ly (Hap : agg_params params Ss ly) {St X : Type} p R (l : list X) (body : X → M (Agg St) agg_error unit) gen dr st h :
  (∀ i x, l !! i = Some x → ∃ F S o, slot params Ss i F S o ∧
    ∀ w, body x w = (if need_manual_drop_state F then on_memory (drop_state F (next p o)) else ret tt) w) →
  reps params Ss h p R → ∃ h', forM l body (mkAgg gen dr st h) = (Ok tt, mkAgg gen dr st h') ∧ frame h h' p (l_size ly).
Proof.
  intros Hl Hr. destruct (forM_ok body (λ i w, ∃ h', w = mkAgg gen dr st h' ∧ frame h h' p (l_size ly) ∧
    ∀ j F S o, (i ≤ j)%nat → slot params Ss j F S o → as_rep S h' (next p o) (R j)) l (mkAgg gen dr st h)) as (w & Hrun & h' & -> & Hf & _).
  3:{ by exists h'. }
  - exists h. split_and!; [done|apply frame_refl|]. intros j F S o _ Hj. by eapply Hr.
  - intros i x w Hx (h1 & -> & Hf & Hrest). destruct (Hl i x Hx) as (F & S & o & Hi & Hbody). rewrite Hbody. destruct (need_manual_drop_state F) eqn:Hneed.
    + destruct (lw_drop (Lawful:=slot_lawful _ _ _ Hap _ _ _ _ Hi) h1 (next p o) (R i)) as (h2 & Hd & Hf2); [by eapply Hrest|done|].
      exists (mkAgg gen dr st h2). split; [by apply on_memory_ok|]. exists h2. split_and!; [done|eapply frame_trans; [done|by eapply frame_slot]|].
      intros j G T u Hij Hj. eapply (slot_keeps params Ss ly Hap h1 h2 i F S o p); [done..|left; split; [lia|done]|]. apply (Hrest j G T u); [lia|done].
    + exists (mkAgg gen dr st h1). split; [done|]. exists h1. split_and!; [done|done|]. intros j G T u Hij. apply Hrest. lia.
Qed.

Section drops.
Context {K St : Type} `{Countable K, !AggregatorState K St, !AggregatorStateLaws K St, !HashMethod K}.
Context (params : AggregatorParams) (Ss : list agg_spec) (ly : Layout) (Hap : agg_params params Ss ly).
Abbreviation Fs := (aggregate_functions params).
Abbreviation offs := (offsets_aggregate_states params).
Abbreviation sz := (l_size ly).
Abbreviation world := (mkAgg (St:=St)).

(** The functions to be dropped, each with its own offset. *)
Lemma drop_pairs (l : list AggregateFunction) (os : list Z) :
  length os = length l →
  zip (filter (λ f, need_manual_drop_state f = true) l) (snd <$> filter (λ x, x.1 = true) (zip (need_manual_drop_state <$> l) os)) =
    filter (λ x, need_manual_drop_state x.1 = true) (zip l os).
Proof.
  revert os. induction l as [|F l IH]; intros [|o os] Hl; try done. simpl in *. rewrite !filter_cons. simpl.
  destruct (decide (need_manual_drop_state F = true)); simpl; rewrite IH by lia; done.
Qed.
Lemma drop_states_list :
  res_mapM (E:=agg_error) (λ '(idx, s), let? f := unwrap (Fs !! idx) in Ok (need_manual_drop_state f, s)) (zip (seq 0 (length offs)) offs) =
    Ok (zip (need_manual_drop_state <$> Fs) offs).
Proof using Hap.
  pose proof (offs_length params Ss ly Hap) as Hlen. apply res_mapM_ok, Forall2_same_length_lookup_2.
  { rewrite !length_zip, length_fmap, length_seq. lia. }
  intros i [j o] [b o'] Hx Hy. apply lookup_zip_Some in Hx as [[-> Hi]%lookup_seq Ho]. apply lookup_zip_Some in Hy as [Hb Ho'].
  apply list_lookup_fmap_Some in Hb as (F & -> & HF). simpl. rewrite HF. simpl. congruence.
Qed.
Lemma drop_at_ok gen dr st h p R :
  reps params Ss h p R → ∃ h', drop_at params p (world gen dr st h) = (Ok tt, world gen dr st h') ∧ frame h h' p sz.
Proof using Hap.
  intros Hr. unfold drop_at. erewrite bind_ok by (unfold lift; rewrite drop_states_list; reflexivity).
  rewrite drop_pairs by by apply (offs_length params Ss ly Hap). rewrite forM_filter. apply (drop_loop params Ss ly Hap p R); [|done].
  intros i [F o] [HF Ho]%lookup_zip_Some. destruct (slot_function params Ss ly Hap i F o HF Ho) as [S Hi]. exists F, S, o. split; [done|]. intros w. simpl.
  destruct (decide (need_manual_drop_state F = true)) as [-> | ->%not_true_is_false]; done.
Qed.
(** All states are dropped, and dropping them again does nothing. *)
Lemma drop_states_ok gen st h temp fs :
  groups_inv params Ss ly st h temp fs → ∃ h', drop_states params temp (world gen false st h) = (Ok tt, world gen true st h').
Proof using Hap.
  intros (g & Hinv & _). unfold drop_states. unfold bind at 1. simpl. destruct (entries_ok _ _ _ gen false st h temp g _ Hinv) as (l & Hl & Hperm).
  rewrite (bind_ok _ _ _ _ _ Hl). destruct Hinv as [_ Hpq Hr Ht].
  assert (∀ j k p, l !! j = Some (k, p) → g !! k = Some p) as Hlg.
  { intros j k p Hj. apply elem_of_map_to_list. rewrite Hperm. by eapply list_elem_of_lookup_2. }
  assert (NoDup l) as Hnd by (rewrite <-Hperm; apply NoDup_map_to_list).
  match goal with |- context [forM l ?body] => destruct (forM_ok body (λ i w, ∃ h', w = world gen false st h' ∧
    (∀ j k p, (i ≤ j)%nat → l !! j = Some (k, p) → ∃ R, reps params Ss h' p R) ∧ ∀ t, temp = Some t → ∃ ys, reps params Ss h' t ys) l (world gen false st h)) as (w & Hrun & h1 & -> & _ & Ht1) end.
  - exists h. split_and!; [done| |done]. intros j k p _ Hj. eexists. by eapply Hr, Hlg.
  - intros i [k p] w Hi (h1 & -> & Hr1 & Ht1). destruct (Hr1 i k p) as [R HR]; [lia|done|]. destruct (drop_at_ok gen false st h1 p R HR) as (h2 & Hd & Hf).
    exists (world gen false st h2). split; [done|]. exists h2. split_and!; [done| |].
    + intros j k' p' Hij Hj. destruct (Hr1 j k' p') as [R' HR']; [lia|done|]. exists R'. eapply (reps_frame params Ss ly Hap h1); [exact Hf| |exact HR'].
      apply (Hpq (Some k) (Some k')); [|by eapply Hlg|by eapply Hlg]. intros [= <-]. assert (p = p') as <- by (apply Hlg in Hi, Hj; congruence).
      pose proof (NoDup_lookup _ _ _ _ Hnd Hi Hj). lia.
    + intros t Htt. destruct (Ht1 t Htt) as [ys Hys]. exists ys. eapply (reps_frame params Ss ly Hap h1); [exact Hf| |exact Hys].
      apply (Hpq (Some k) None); [done|by eapply Hlg|done].
  - rewrite (bind_ok _ _ _ _ _ Hrun). destruct temp as [t|]; [|by eexists]. destruct (Ht1 t eq_refl) as [ys Hys].
    destruct (drop_at_ok gen false st h1 t ys Hys) as (h2 & Hd & _). rewrite (bind_ok _ _ _ _ _ Hd). by eexists.
Qed.
Lemma drop_states_again gen st h temp : drop_states params temp (world gen true st h) = (Ok tt, world gen true st h).
Proof. done. Qed.
End drops.

(** ** The processor *)

(** The code without the ports: all blocks are consumed, then blocks are generated until there are none. *)
Section run.
Context {W B : Type} (ops : AggregatorOps W B).
Inductive gen_run : W → list B → W → Prop :=
  | gr_nil w : gen_run w [] w
  | gr_snoc w bs w1 b w2 : gen_run w bs w1 → op_generate ops w1 = (Ok (Some b), w2) → gen_run w (bs ++ [b]) w2.
Definition seq_run (w0 : W) (inputs : list DataBlock) (outs : list B) (w : W) : Prop :=
  ∃ w1 w2, forM inputs (op_consume ops) w0 = (Ok tt, w1) ∧ gen_run w1 outs w2 ∧ op_generate ops w2 = (Ok None, w).

(** The processor between its ports: the blocks that will still arrive and those that were pushed. *)
Record config := mkConfig { c_self : AggregatorTransform B; c_world : W; c_in : list DataBlock; c_out : list B; c_closed : bool }.
Definition init (w0 : W) (inputs : list DataBlock) : config := mkConfig (ConsumeData None) w0 inputs [] false.
(** The input port may be late, but does not lie.  It is assumed that a port that is finished holds no block any more, since
    the transform looks first whether the port is finished. *)
Definition ports_ok (ports : Ports) (inputs : list DataBlock) : Prop :=
  (input_finished ports = true → inputs = []) ∧
  match input_data ports with Some (Ok b) => head inputs = Some b | Some _ => False | None => True end.
Definition act (a : PortAction B) (c : list DataBlock * list B * bool) : list DataBlock * list B * bool :=
  let '(inp, out, closed) := c in
  match a with PullData => (tail inp, out, closed) | SetNeedData => c | PushData b => (inp, out ++ [b], closed) | Finish => (inp, out, true) end.
Definition after (c : config) (self : AggregatorTransform B) (w : W) (acts : list (PortAction B)) : config :=
  let '(inp, out, closed) := foldl (flip act) (c_in c, c_out c, c_closed c) acts in mkConfig self w inp out closed.
(** An event, followed by the work it asks for. *)
Inductive transform_step : config → config → Prop :=
  | ts_wait c ports ev acts self : ports_ok ports (c_in c) → event ports (c_self c) = Ok (ev, acts, self) → ev ≠ Sync →
      transform_step c (after c self (c_world c) acts)
  | ts_sync c ports acts self self' w : ports_ok ports (c_in c) → event ports (c_self c) = Ok (Sync, acts, self) →
      process ops self (c_world c) = (Ok self', w) → transform_step c (after c self' w acts).

Definition transform_inv (w0 : W) (inputs : list DataBlock) (c : config) : Prop :=
  match c_self c with
  | ConsumeData d => d = None ∧ c_closed c = false ∧ c_out c = [] ∧ ∃ past, inputs = past ++ c_in c ∧ forM past (op_consume ops) w0 = (Ok tt, c_world c)
  | Generate fin data => c_closed c = false ∧ ∃ w1, forM inputs (op_consume ops) w0 = (Ok tt, w1) ∧
      if fin then data = None ∧ ∃ w2, gen_run w1 (c_out c) w2 ∧ op_generate ops w2 = (Ok None, c_world c)
      else gen_run w1 (c_out c ++ option_list data) (c_world c)
  | TFinished => c_closed c = true → seq_run w0 inputs (c_out c) (c_world c)
  end.
Lemma forM_snoc {A} (l : list A) x (f : A → M W agg_error unit) w w1 w2 :
  forM l f w = (Ok tt, w1) → f x w1 = (Ok tt, w2) → forM (l ++ [x]) f w = (Ok tt, w2).
Proof.
  revert w. induction l as [|y l IH]; intros w; simpl.
  - intros [= <-] Hx. unfold bind, ret. by rewrite Hx.
  - unfold bind. destruct (f y w) as [[[]| |] w']; [apply IH|done..].
Qed.
Lemma transform_step_inv w0 inputs c c' : transform_inv w0 inputs c → transform_step c c' → transform_inv w0 inputs c'.
Proof.
  intros Hinv Hs. destruct Hs as [c ports ev acts self [Hfin Hdata] Hev Hne|c ports acts self self' w [Hfin Hdata] Hev Hp].
  - destruct c as [cs cw cin cout ccl]. destruct cs as [d|fin data|]; unfold transform_inv in *; simpl in *.
    + destruct Hinv as (-> & -> & -> & past & -> & Hrun). destruct (input_finished ports); [congruence|].
      destruct (input_data ports) as [[b| |]|]; simpl in Hev; [congruence|done..|]. injection Hev as <- <- <-. simpl. eauto 10.
    + destruct (output_finished ports); [injection Hev as <- <- <-; simpl; destruct Hinv as [-> _]; done|].
      destruct (output_can_push ports); simpl in Hev; [|by injection Hev as <- <- <-]. destruct Hinv as (-> & w1 & Hrun & Hrest).
      destruct data as [b|]; [|destruct fin; [|congruence]]; injection Hev as <- <- <-; simpl.
      * destruct fin; [by destruct Hrest|]. split; [done|]. exists w1. by rewrite app_nil_r.
      * intros _. destruct Hrest as (_ & w2 & ? & ?). by exists w1, w2.
    + injection Hev as <- <- <-. by simpl.
  - destruct c as [cs cw cin cout ccl]. destruct cs as [d|fin data|]; unfold transform_inv in *; simpl in *; [| |congruence].
    + destruct Hinv as (-> & -> & -> & past & -> & Hrun). destruct (input_finished ports).
      * pose proof (Hfin eq_refl) as ->. rewrite app_nil_r. injection Hev as <- <-. simpl in Hp. unfold bind in Hp.
        destruct (op_generate ops cw) as [[[b|]| |] w'] eqn:Hg; try done; injection Hp as <- <-; simpl; (split; [done|]; exists cw; split; [done|]).
        -- apply (gr_snoc cw [] cw); [constructor|done].
        -- split; [done|]. exists cw. split; [constructor|done].
      * destruct (input_data ports) as [[b| |]|]; simpl in Hev; try done. injection Hev as <- <-. simpl in Hp. unfold bind in Hp.
        destruct (op_consume ops b cw) as [[[]| |] w'] eqn:Hc; try done. injection Hp as <- <-. simpl. destruct cin as [|b' cin]; [done|]. injection Hdata as ->.
        split_and!; [done..|]. exists (past ++ [b]). split; [by rewrite <-app_assoc|]. by eapply forM_snoc.
    + destruct (output_finished ports); [congruence|]. destruct (output_can_push ports); simpl in Hev; [|congruence].
      destruct data as [b|]; [congruence|]. destruct fin; [congruence|]. injection Hev as <- <-. simpl in Hp. unfold bind in Hp.
      destruct Hinv as (-> & w1 & Hrun & Hgen). rewrite app_nil_r in Hgen.
      destruct (op_generate ops cw) as [[[b|]| |] w'] eqn:Hg; try done; injection Hp as <- <-; simpl; (split; [done|]; exists w1; split; [done|]).
      * by eapply gr_snoc.
      * split; [done|]. by exists cw.
Qed.
Lemma transform_inv_reachable w0 inputs c : rtc transform_step (init w0 inputs) c → transform_inv w0 inputs c.
Proof.
  intros Hr. assert (transform_inv w0 inputs (init w0 inputs)) as Hinit.
  { split_and!; [done..|]. by exists []. }
  revert Hinit. induction Hr as [|c0 c1 c2 Hs _ IH]; [done|]. intros H0. apply IH. by eapply transform_step_inv.
Qed.
(** With ports that are ready the processor finishes. *)
Lemma transform_completes w0 inputs outs w :
  seq_run w0 inputs outs w → rtc transform_step (init w0 inputs) (mkConfig TFinished w [] outs true).
Proof.
  intros (w1 & w2 & Hrun & Hgen & Hnone).
  assert (∀ inp w, forM inp (op_consume ops) w = (Ok tt, w1) → rtc transform_step (mkConfig (ConsumeData None) w inp [] false) (mkConfig (ConsumeData None) w1 [] [] false)) as Hconsume.
  { clear. induction inp as [|b inp IH]; intros w; simpl; [by intros [= ->]|]. unfold bind. destruct (op_consume ops b w) as [[[]| |] w'] eqn:Hb; try done.
    intros Hf. eapply rtc_l; [|by apply IH].
    apply (ts_sync (mkConfig (ConsumeData None) w (b :: inp) [] false) (mkPorts false (Some (Ok b)) false true) [PullData] (ConsumeData (Some b)) (ConsumeData None) w'); [done..|].
    simpl. unfold bind. by rewrite Hb. }
  assert (∀ bs w', gen_run w1 bs w' → bs = [] ∧ w' = w1 ∨ ∃ out b, bs = out ++ [b] ∧
    rtc transform_step (mkConfig (ConsumeData None) w1 [] [] false) (mkConfig (Generate false (Some b)) w' [] out false)) as Hgenerate.
  { clear. induction 1 as [w|w bs w' b w2 Hgen IH Hb]; [by left|]. right. exists bs, b. split; [done|]. destruct IH as [[-> ->]|(out & b' & -> & Hr)].
    - apply rtc_once. apply (ts_sync (mkConfig (ConsumeData None) w [] [] false) (mkPorts true None false true) [] (Generate false None) (Generate false (Some b)) w2); [done..|].
      simpl. unfold bind. by rewrite Hb.
    - etrans; [exact Hr|]. eapply rtc_l.
      + by apply (ts_wait (mkConfig (Generate false (Some b')) w' [] out false) (mkPorts true None false true) NeedConsume [PushData b'] (Generate false None)).
      + apply rtc_once. apply (ts_sync (mkConfig (Generate false None) w' [] (out ++ [b']) false) (mkPorts true None false true) [] (Generate false None) (Generate false (Some b)) w2); [done..|].
        simpl. unfold bind. by rewrite Hb. }
  assert (∀ out, rtc transform_step (mkConfig (Generate true None) w [] out false) (mkConfig TFinished w [] out true)) as Hfinish.
  { intros out. apply rtc_once. by apply (ts_wait (mkConfig (Generate true None) w [] out false) (mkPorts true None false true) Finished [Finish] TFinished). }
  etrans; [by apply Hconsume|]. destruct (Hgenerate outs w2 Hgen) as [[-> ->]|(out & b & -> & Hr)].
  - eapply rtc_l; [|apply Hfinish].
    apply (ts_sync (mkConfig (ConsumeData None) w1 [] [] false) (mkPorts true None false true) [] (Generate false None) (Generate true None) w); [done..|].
    simpl. unfold bind. by rewrite Hnone.
  - etrans; [exact Hr|]. eapply rtc_l.
    + by apply (ts_wait (mkConfig (Generate false (Some b)) w2 [] out false) (mkPorts true None false true) NeedConsume [PushData b] (Generate false None)).
    + eapply rtc_l; [|apply Hfinish].
      apply (ts_sync (mkConfig (Generate false None) w2 [] (out ++ [b]) false) (mkPorts true None false true) [] (Generate false None) (Generate true None) w); [done..|].
      simpl. unfold bind. by rewrite Hnone.
Qed.
(** C19: whatever the order in which its ports become ready, an aggregator that finishes its output has consumed all its
    blocks in order and pushed what it generated until there was nothing more; and when consuming and generating
    succeed, a run that finishes exists. *)
Theorem transform_runs w0 inputs outs w :
  seq_run w0 inputs outs w ↔ ∃ c, rtc transform_step (init w0 inputs) c ∧ c_self c = TFinished ∧ c_closed c = true ∧ c_out c = outs ∧ c_world c = w.
Proof.
  split.
  - intros Hrun. eexists. split; [by apply transform_completes|done].
  - intros (c & Hr & Hself & Hclosed & <- & <-). pose proof (transform_inv_reachable _ _ _ Hr) as Hinv. unfold transform_inv in Hinv.
    rewrite Hself in Hinv. by apply Hinv.
Qed.
End run.

(** ** The whole of a GROUP BY *)
Section group_by.
Context {K St : Type} `{Countable K, !AggregatorState K St, !AggregatorStateLaws K St, !HashMethod K, !HashMethodLaws K st_key_ok}.
Context (st0 : St) (Hst0 : st_ok st0 ∅ []) (Ss : list agg_spec) (threshold : Z).
Abbreviation world := (mkAgg (St:=St)).
Implicit Types (fs : list (fact (K:=K))).

Section partial.
Context (params : AggregatorParams) (ly : Layout) (Hap : agg_params params Ss ly).
Context (Hne : aggregate_functions params ≠ []) (Hschema : length (schema params) = S (length (aggregate_functions params))).
Context (Hkeys : ∀ i F S o, slot params Ss i F S o → LawfulKeys F S o).
Lemma groups_inv_create temp st h :
  (∀ t, temp = Some t → ∃ ys, reps params Ss h t ys) → (∃ al, st_ok st (∅ : gmap K Z) al ∧ ∀ t, temp = Some t → (t, l_size ly) ∈ al) →
  groups_inv params Ss ly st h temp [].
Proof.
  intros Ht (al & Hok & Hin). exists ∅. split_and!; [|intros k; rewrite lookup_empty; split; [by intros []|by intros ?%not_elem_of_nil]|done|constructor].
  split; [exists al; split; [done|]| |done|done].
  - intros [k|] p; simpl; [by rewrite lookup_empty|apply Hin].
  - intros [k|] [k'|] p q; simpl; rewrite ?lookup_empty; done.
Qed.
Lemma consume_blocks gen dr blocks fs fs0 st h :
  Forall2 (fact_of params Ss) blocks fs → groups_inv params Ss ly st h None fs0 → Z.of_nat (length (group_keys (fs0 ++ fs))) < 2 ^ 57 →
  ∃ st' h', forM blocks (partial_consume params threshold) (world gen dr st h) = (Ok tt, world gen dr st' h') ∧ groups_inv params Ss ly st' h' None (fs0 ++ fs).
Proof using All.
  intros Hf. revert fs0 st h. induction Hf as [|b f blocks fs Hb Hf IH]; intros fs0 st h Hg Hlt; simpl; [exists st, h; by rewrite app_nil_r|].
  rewrite (cons_middle f fs0 fs), app_assoc in Hlt |- *.
  destruct (partial_consume_ok params Ss ly Hap threshold Hkeys gen dr st h None fs0 b f Hg Hb) as (st1 & h1 & Hrun & Hg1).
  { rewrite group_keys_app, length_app, group_keys_snoc, length_app in Hlt. lia. }
  rewrite (bind_ok _ _ _ _ _ Hrun). by apply IH.
Qed.
(** A partial aggregator gives one block with the states of its groups, and its states can be dropped. *)
Lemma partial_run blocks fs :
  Forall2 (fact_of params Ss) blocks fs → Z.of_nat (length (group_keys fs)) < 2 ^ 57 →
  ∃ outs w, seq_run (partial_processor params threshold) (agg_create st0) blocks outs w ∧
    (if bool_decide (group_keys fs = []) then outs = [] else ∃ b, outs = [b] ∧ partial_output params Ss b fs) ∧
    ∃ w', drop_states (K:=K) params None w = (Ok tt, w').
Proof using All.
  intros Hf Hlt. assert (partial_processor params threshold = mkOps (partial_consume params threshold) (partial_generate params)) as ->.
  { unfold partial_processor. by destruct (aggregate_functions params). }
  destruct (consume_blocks false false blocks fs [] st0 ∅ Hf) as (st & h & Hrun & Hg); [|done|].
  { apply groups_inv_create; [done|]. by exists []. }
  case_bool_decide as Hnil.
  - exists [], (world false false st h). split; [|split; [done|]].
    + exists (world false false st h), (world false false st h). split_and!; [done|constructor|]. simpl. unfold partial_generate.
      rewrite (bind_ok _ _ _ _ _ (groups_done _ _ _ _ _ _ _ _ _ Hg)), bool_decide_true by done. done.
    + destruct (drop_states_ok params Ss ly Hap false st h None fs Hg) as [h' Hd]. eauto.
  - destruct (partial_generate_ok params Ss ly Hap false st h None fs Hschema Hg Hnil) as (b & h' & Hgen & Hout & Hg').
    exists [b], (world true false st h'). split; [|split; [by exists b|]].
    + exists (world false false st h), (world true false st h'). split_and!; [done|eapply (gr_snoc _ _ []); [constructor|done]|]. simpl. unfold partial_generate.
      rewrite (bind_ok _ _ _ _ _ (groups_done _ _ _ _ _ _ _ _ _ Hg')), orb_true_r. done.
    + destruct (drop_states_ok params Ss ly Hap true st h' None fs Hg') as [h2 Hd]. eauto.
Qed.
End partial.

Section final.
Context (params : AggregatorParams) (ly : Layout) (Hap : agg_params params Ss ly) (Hne : aggregate_functions params ≠ []).
Lemma final_create_ok :
  ∃ t st h, final_create (K:=K) params (agg_create st0) = (Ok (Some t), world false false st h) ∧ groups_inv params Ss ly st h (Some t) [].
Proof using All.
  unfold final_create. destruct (aggregate_functions params) as [|F l] eqn:HF; [done|].
  destruct (alloc_layout2_ok params Ss ly Hap false false st0 ∅ ∅ [] Hst0) as (t & st & h & Hrun & Hok & _ & _ & Hrep & _).
  exists t, st, h. split; [done|]. apply groups_inv_create; [intros ? [= <-]; eauto|]. eexists. split; [done|]. intros ? [= <-]. by left.
Qed.
Lemma merge_blocks gen dr t bs fss fs0 st h :
  Forall2 (λ b fs, partial_output params Ss b fs ∧ Forall st_key_ok (group_keys fs)) bs fss → groups_inv params Ss ly st h (Some t) fs0 →
  Z.of_nat (length (group_keys (fs0 ++ concat fss))) < 2 ^ 57 →
  ∃ st' h', forM bs (final_consume (K:=K) params threshold (Some t)) (world gen dr st h) = (Ok tt, world gen dr st' h') ∧
    groups_inv params Ss ly st' h' (Some t) (fs0 ++ concat fss).
Proof using All.
  intros Hf. revert fs0 st h. induction Hf as [|b fs bs fss [Hb Hok] Hf IH]; intros fs0 st h Hg Hlt; simpl in *; [exists st, h; by rewrite app_nil_r|].
  rewrite app_assoc in Hlt |- *.
  destruct (final_consume_ok params Ss ly Hap threshold gen dr st h t fs0 fs b Hg Hb Hok) as (st1 & h1 & Hrun & Hg1).
  { rewrite !group_keys_app, !length_app in Hlt. lia. }
  rewrite (bind_ok _ _ _ _ _ Hrun). by apply IH.
Qed.
(** A final aggregator gives the results of the groups; generating again drops the states. *)
Lemma final_run bs fss :
  Forall2 (λ b fs, partial_output params Ss b fs ∧ Forall st_key_ok (group_keys fs)) bs fss → Z.of_nat (length (group_keys (concat fss))) < 2 ^ 57 → finishable (group_keys (concat fss)) →
  ∃ t w1 outs w, final_create (K:=K) params (agg_create st0) = (Ok t, w1) ∧ seq_run (final_processor (K:=K) params threshold t) w1 bs outs w ∧
    (if bool_decide (group_keys (concat fss) = []) then outs = [] else ∃ r, outs = [r] ∧ final_result params Ss r (concat fss)) ∧
    ∃ w', drop_states (K:=K) params t w = (Ok tt, w').
Proof using All.
  intros Hf Hlt Hfinish. destruct final_create_ok as (t & st & h & Hcreate & Hg0).
  assert (final_processor (K:=K) (St:=St) params threshold (Some t) = mkOps (final_consume params threshold (Some t)) (final_generate (K:=K) params (Some t))) as Hops.
  { unfold final_processor. by destruct (aggregate_functions params). }
  destruct (merge_blocks false false t bs fss [] st h Hf Hg0 Hlt) as (st1 & h1 & Hrun & Hg). simpl in Hg.
  assert (∀ gen st h, groups_inv params Ss ly st h (Some t) (concat fss) → (group_keys (concat fss) = [] ∨ gen = true) →
    ∃ h', final_generate (K:=K) params (Some t) (world gen false st h) = (Ok None, world gen true st h')) as Hlast.
  { intros gen st2 h2 Hg2 Hor. destruct (drop_states_ok params Ss ly Hap gen st2 h2 (Some t) _ Hg2) as [h3 Hd]. exists h3. unfold final_generate.
    rewrite (bind_ok _ _ _ _ _ (groups_done _ _ _ _ _ _ _ _ _ Hg2)). assert (bool_decide (group_keys (concat fss) = []) || gen = true) as ->.
    { destruct Hor as [Hor| ->]; [by rewrite bool_decide_true by done|apply orb_true_r]. }
    by rewrite (bind_ok _ _ _ _ _ Hd). }
  exists (Some t), (world false false st h). rewrite Hops. case_bool_decide as Hnil.
  - destruct (Hlast false st1 h1 Hg (or_introl Hnil)) as [h2 Hgen]. exists [], (world false true st1 h2). split_and!; [done| |done|by eexists].
    exists (world false false st1 h1), (world false false st1 h1). split_and!; [done|constructor|done].
  - destruct (final_generate_ok params Ss ly Hap false st1 h1 t _ Hg Hnil Hfinish) as (r & h2 & Hgen & Hres & Hg2).
    destruct (Hlast true st1 h2 Hg2 (or_intror eq_refl)) as [h3 Hgen2]. exists [r], (world true true st1 h3).
    split_and!; [done| |by exists r|by eexists].
    exists (world false false st1 h1), (world true false st1 h2). split_and!; [done|eapply (gr_snoc _ _ []); [constructor|done]|done].
Qed.
End final.

(** Streams without rows give no block, and do not matter. *)
Definition live (fs : list (fact (K:=K))) : Prop := group_keys fs ≠ [].
Lemma group_keys_concat fss : group_keys (concat (filter live fss)) = group_keys (concat fss).
Proof.
  induction fss as [|fs fss IH]; [done|]. rewrite filter_cons. simpl. rewrite group_keys_app, <-IH. destruct (decide (live fs)) as [|Hdead]; simpl; [by rewrite group_keys_app|].
  destruct (group_keys fs) eqn:Hk; [done|]. destruct Hdead. unfold live. by rewrite Hk.
Qed.
Lemma group_rows_concat fss k i : group_rows (concat (filter live fss)) k i = group_rows (concat fss) k i.
Proof.
  induction fss as [|fs fss IH]; [done|]. rewrite filter_cons. simpl. rewrite group_rows_app, <-IH. destruct (decide (live fs)) as [|Hdead]; simpl; [by rewrite group_rows_app|].
  rewrite (group_rows_nil fs); [done|]. destruct (group_keys fs) eqn:Hk; [apply not_elem_of_nil|]. destruct Hdead. unfold live. by rewrite Hk.
Qed.
Lemma final_result_live params r fss : final_result params Ss r (concat (filter live fss)) → final_result params Ss r (concat fss).
Proof.
  intros (ks & Hnd & Hin & Hgr & Hlen & Hcols). exists ks. rewrite group_keys_concat in Hin. split_and!; [done..|].
  intros i S col Hcol HS. rewrite (Hcols i S col Hcol HS). apply list_fmap_ext. intros j k _. by rewrite group_rows_concat.
Qed.
Lemma partial_runs params ly streams fss :
  agg_params params Ss ly → aggregate_functions params ≠ [] → length (schema params) = S (length (aggregate_functions params)) →
  (∀ i F S o, slot params Ss i F S o → LawfulKeys F S o) →
  Forall2 (Forall2 (fact_of params Ss)) streams fss → Z.of_nat (length (group_keys (concat fss))) < 2 ^ 57 →
  ∃ outs, Forall2 (λ blocks out, ∃ w w', seq_run (partial_processor params threshold) (agg_create st0) blocks out w ∧ drop_states (K:=K) params None w = (Ok tt, w')) streams outs ∧
    Forall2 (λ b fs, partial_output params Ss b fs ∧ Forall st_key_ok (group_keys fs)) (concat outs) (filter live fss).
Proof using Hst0 HashMethodLaws0.
  intros Hap Hne Hschema Hkeys Hf. induction Hf as [|blocks fs streams fss Hb Hf IH]; intros Hlt; [by exists []|].
  simpl in Hlt. rewrite group_keys_app, length_app in Hlt. destruct (IH ltac:(lia)) as (outs & Hruns & Houts).
  destruct (partial_run params ly Hap Hne Hschema Hkeys blocks fs Hb ltac:(lia)) as (out & w & Hrun & Hout & w' & Hd).
  exists (out :: outs). split; [constructor; [by exists w, w'|done]|]. rewrite filter_cons. simpl.
  assert (Forall st_key_ok (group_keys fs)) as Hok.
  { clear -Hb. unfold group_keys. induction Hb as [|b f blocks fs Hbf _ IH]; [constructor|]. simpl. apply Forall_app. split; [apply Hbf|done]. }
  case_bool_decide as Hnil.
  - subst out. rewrite decide_False by (intros Hl; by apply Hl). done.
  - destruct Hout as (b & -> & Hout). rewrite decide_True by done. simpl. by constructor.
Qed.

(** A GROUP BY over streams of blocks, on the keys of the rows.  Each stream has its partial aggregator; the final aggregator takes in what they
    give.  If the functions keep their promises, all runs succeed, the states are dropped without harm, and the result
    has one row for each key of the input, with the value of each function on exactly the rows of that key, in their order. *)
Lemma group_by_keys Fs names schema_p schema_f groups pp pf streams fss :
  Fs ≠ [] → Forall2 Lawful Fs Ss → length schema_p = S (length Fs) →
  params_create schema_p groups Fs names = Ok pp → params_create schema_f groups Fs names = Ok pf →
  (∀ i F S o, slot pp Ss i F S o → LawfulKeys F S o) →
  Forall2 (Forall2 (fact_of pp Ss)) streams fss → Z.of_nat (length (group_keys (concat fss))) < 2 ^ 57 → finishable (group_keys (concat fss)) →
  ∃ outs t w0 rs w, Forall2 (λ blocks out, ∃ w w', seq_run (partial_processor pp threshold) (agg_create st0) blocks out w ∧ drop_states (K:=K) pp None w = (Ok tt, w')) streams outs ∧
    final_create (K:=K) pf (agg_create st0) = (Ok t, w0) ∧ seq_run (final_processor (K:=K) pf threshold t) w0 (concat outs) rs w ∧
    (∃ w', drop_states (K:=K) pf t w = (Ok tt, w')) ∧
    if bool_decide (group_keys (concat fss) = []) then rs = [] else ∃ r, rs = [r] ∧ final_result pf Ss r (concat fss).
Proof using Hst0 HashMethodLaws0.
  intros Hne Hl Hschema Hpp Hpf Hkeys Hf Hlt Hfinish.
  destruct (params_create_ok _ _ _ _ _ _ Hl Hne Hpp) as (ly & Hap & HFp & _ & Hsp & _). destruct (params_create_ok _ _ _ _ _ _ Hl Hne Hpf) as (ly' & Hap' & HFf & _ & _ & _).
  destruct (partial_runs pp ly streams fss Hap) as (outs & Hruns & Houts); [by rewrite HFp|by rewrite HFp, Hsp|done..|].
  assert (Forall2 (λ b fs, partial_output pf Ss b fs ∧ Forall st_key_ok (group_keys fs)) (concat outs) (filter live fss)) as Houts'.
  { eapply Forall2_impl; [exact Houts|]. intros b fs [Hout Hok]. split; [|done]. unfold partial_output in *. by rewrite HFf, <-HFp. }
  destruct (final_run pf ly' Hap' ltac:(by rewrite HFf) (concat outs) (filter live fss) Houts') as (t & w0 & rs & w & Hc & Hrun & Hres & Hd).
  { by rewrite group_keys_concat. }
  { by rewrite group_keys_concat. }
  exists outs, t, w0, rs, w. split_and!; [done..|]. rewrite group_keys_concat in Hres. case_bool_decide; [done|].
  destruct Hres as (r & -> & Hr). exists r. split; [done|]. by apply final_result_live.
Qed.
End group_by.
