(* ===== verification/AggSingle.v ===== *)
(** * Aggregation without GROUP BY (aggregator_single_key.rs): one state for all rows. *)
From S2P Require Import Prelude Column AggFunction AggLaws AggState AggLayout Aggregator AggregatorProps AggregatorRun.
#[local] Open Scope Z_scope.

Section single.
Context `{!Bump, !BumpLaws}.
Context (params : AggregatorParams) (Ss : list agg_spec) (ly : Layout) (Hap : agg_params params Ss ly).
Abbreviation Fs := (aggregate_functions params).
Abbreviation offs := (offsets_aggregate_states params).
Abbreviation sz := (l_size ly).
Abbreviation reps := (reps params Ss).
Abbreviation slot := (slot params Ss).
Abbreviation world := (mkAgg (St:=unit)).
Implicit Types (h : heap) (p t : Z) (R : nat → list Row).



(** ** Rows and partial states *)


Section partial.
Hypothesis batch_lawful : ∀ i F S o, slot i F S o → LawfulBatch F S.
End partial.


(** ** Merging *)


(** ** Runs *)
Context (Hne : Fs ≠ []) (Hly : get_layout_offsets Fs = Ok (offs, ly)).
End single.


