(* ===== verification/AggDistinct.v ===== *)
(** * GROUP BY without aggregate functions: the distinct keys. *)
From S2P Require Import Prelude Column AggFunction AggLaws AggState AggLayout Aggregator AggregatorProps AggregatorRun.
#[local] Open Scope Z_scope.

Section distinct.
Context {K St : Type} `{Countable K, !AggregatorState K St, !AggregatorStateLaws K St, !HashMethod K, !HashMethodLaws K st_key_ok}.
Context (st0 : St) (Hst0 : st_ok st0 ∅ []) (threshold : Z).
Context (params : AggregatorParams) (Hnone : aggregate_functions params = []).
Abbreviation world := (mkAgg (St:=St)).
(** The keys taken in. *)
Definition keys_inv (st : St) (ks : list K) : Prop :=
  ∃ (g : gmap K Z) al, st_ok st g al ∧ (∀ k, is_Some (g !! k) ↔ k ∈ ks) ∧ (size g ≤ length ks)%nat ∧ Forall st_key_ok ks.
Lemma keys_inv_create : keys_inv st0 [].
Proof using Hst0.
  exists ∅, []. split_and!; [done| |done|constructor]. intros k. rewrite lookup_empty. split; [by intros []|by intros ?%not_elem_of_nil].
Qed.
Lemma lookup_key_ok gen dr st h ks ks' :
  keys_inv st ks → Forall st_key_ok ks' → Z.of_nat (length ks + length ks') < 2 ^ 57 →
  ∃ st', lookup_key ks' (world gen dr st h) = (Ok tt, world gen dr st' h) ∧ keys_inv st' (ks ++ ks').
Proof.
  intros Hinv Hok. revert st ks Hinv. induction Hok as [|k ks' Hk Hok IH]; intros st ks Hinv Hlt; simpl; [exists st; by rewrite app_nil_r|].
  destruct Hinv as (g & al & Hst & Hdom & Hsz & Hall). simpl in Hlt.
  destruct (st_entity_ok st g al k Hst Hk ltac:(lia)) as (e & st1 & He & Hst1 & _). unfold lookup_key, entity. simpl. unfold bind at 1.
  erewrite bind_ok by (unfold on_state; simpl; rewrite He; simpl; reflexivity). simpl.
  rewrite (cons_middle k ks ks'), app_assoc. apply IH; [|rewrite length_app; simpl; lia].
  eexists _, al. split; [exact Hst1|]. split_and!; [| |apply Forall_app; split; [done|by apply Forall_singleton]].
  - intros j. rewrite elem_of_app, list_elem_of_singleton, <-Hdom. case_bool_decide as Hg.
    + destruct (decide (j = k)) as [->|Hne]; [rewrite lookup_insert_eq; split; [by right|by eexists]|]. rewrite lookup_insert_ne by done. tauto.
    + split; [by left|]. intros [?| ->]; [done|]. by apply not_eq_None_Some.
  - rewrite length_app. simpl. case_bool_decide; [|lia]. rewrite map_size_insert_None by done. lia.
Qed.
Lemma keys_two_level gen dr st h ks :
  keys_inv st ks → Z.of_nat (length ks) < 2 ^ 57 → ∃ st', check_two_level threshold (world gen dr st h) = (Ok tt, world gen dr st' h) ∧ keys_inv st' ks.
Proof.
  intros (g & al & Hst & Hdom & Hsz & Hall) Hlt. unfold check_two_level, get_state, bind. simpl.
  destruct (st_is_two_level st) eqn:Ht; simpl; [exists st; split; [done|by exists g, al]|].
  destruct (threshold <=? st_len st); [|exists st; split; [done|by exists g, al]].
  destruct (st_convert_ok st g al Hst Ht ltac:(lia)) as (st' & Hc & Hst'). exists st'. unfold on_state. simpl. rewrite Hc. split; [done|by exists g, al].
Qed.
Lemma keys_done gen dr st h ks : keys_inv st ks → is_done (K:=K) (world gen dr st h) = (Ok (bool_decide (ks = []) || gen), world gen dr st h).
Proof.
  intros (g & al & Hst & Hdom & _). unfold is_done, get_state, get_generated, bind, ret. simpl. do 3 f_equal. rewrite (st_len_ok _ _ _ Hst).
  apply Bool.eq_iff_eq_true. rewrite Z.eqb_eq, bool_decide_eq_true. split.
  - intros Hz. rewrite (map_size_empty_inv g) in Hdom by lia. destruct ks as [|k ks]; [done|]. destruct (proj2 (Hdom k)) as [x Hx]; [by left|]. by rewrite lookup_empty in Hx.
  - intros ->. assert (g = ∅) as ->; [|by rewrite map_size_empty]. apply map_empty. intros k. apply eq_None_not_Some. rewrite Hdom. apply not_elem_of_nil.
Qed.
Lemma keys_entries gen dr st h ks :
  keys_inv st ks → ∃ l, entries (K:=K) (world gen dr st h) = (Ok l, world gen dr st h) ∧ NoDup l.*1 ∧ ∀ k, k ∈ l.*1 ↔ k ∈ ks.
Proof.
  intros (g & al & Hst & Hdom & _). destruct (st_iter_ok _ _ _ Hst) as (l & Hl & Hp). destruct (map_keys_perm g l Hp) as [Hnd Hin].
  exists l. unfold entries, on_state. simpl. rewrite Hl. split_and!; [done..|]. intros k. by rewrite Hin, Hdom.
Qed.
(** Without functions there is nothing to drop. *)
Lemma drop_nothing gen dr st h ks temp :
  keys_inv st ks → offsets_aggregate_states params = [] → ∃ dr', drop_states (K:=K) params temp (world gen dr st h) = (Ok tt, world gen dr' st h).
Proof using Hnone.
  intros Hinv Ho. destruct dr; [by exists true|]. exists true. unfold drop_states. unfold bind at 1. simpl.
  destruct (keys_entries gen false st h ks Hinv) as (l & Hl & _). rewrite (bind_ok _ _ _ _ _ Hl).
  assert (∀ p, drop_at params p (world gen false st h) = (Ok tt, world gen false st h)) as Hd.
  { intros p. unfold drop_at. rewrite Hnone, Ho. done. }
  assert (forM l (λ '((_, place) : K * Z), drop_at params place) (world gen false st h) = (Ok tt, world gen false st h)) as Hloop.
  { clear Hl. induction l as [|[k p] l IH]; [done|]. simpl. by rewrite (bind_ok _ _ _ _ _ (Hd p)). }
  rewrite (bind_ok _ _ _ _ _ Hloop). destruct temp as [t|]; [|done]. by rewrite (bind_ok _ _ _ _ _ (Hd t)).
Qed.
(** The keys of a block. *)
Record keys_of (block : DataBlock) (ks : list K) : Prop := {
  ko_keys : ∃ cols, columns_by_name block (group_columns_name params) = Ok cols ∧ build_keys cols (num_rows block) = Ok ks;
  ko_ok : Forall st_key_ok ks;
}.
Lemma consume_keys_ok gen dr st h ks blocks kss :
  keys_inv st ks → Forall2 keys_of blocks kss → Z.of_nat (length ks + length (concat kss)) < 2 ^ 57 →
  ∃ st', forM blocks (partial_consume_keys params threshold) (world gen dr st h) = (Ok tt, world gen dr st' h) ∧ keys_inv st' (ks ++ concat kss).
Proof.
  intros Hinv Hf. revert st ks Hinv. induction Hf as [|block ks' blocks kss [(cols & Hcols & Hbk) Hok] _ IH]; intros st ks Hinv Hlt; simpl in *; [exists st; by rewrite app_nil_r|].
  rewrite length_app in Hlt. unfold partial_consume_keys at 1, partial_keys. destruct (keys_two_level gen dr st h ks Hinv ltac:(lia)) as (st1 & Htwo & Hinv1).
  destruct (lookup_key_ok gen dr st1 h ks ks' Hinv1 Hok ltac:(lia)) as (st2 & Hrun & Hinv2).
  rewrite app_assoc. erewrite bind_ok; [apply (IH st2 _ Hinv2); rewrite length_app; lia|].
  erewrite bind_ok by (unfold bind, lift; rewrite Hcols, Hbk; reflexivity). by rewrite (bind_ok _ _ _ _ _ Htwo).
Qed.
(** A block of keys. *)
Definition keys_output (b : DataBlock) (ks : list K) : Prop := ∃ ks',
  NoDup ks' ∧ (∀ k, k ∈ ks' ↔ k ∈ ks) ∧ block_column b 0 = Ok (keys_column ks') ∧ Forall st_key_ok ks.
Lemma partial_keys_run blocks kss :
  offsets_aggregate_states params = [] → length (schema params) = 1%nat → Forall2 keys_of blocks kss → Z.of_nat (length (concat kss)) < 2 ^ 57 →
  ∃ outs w w', seq_run (partial_processor params threshold) (agg_create st0) blocks outs w ∧ drop_states (K:=K) params None w = (Ok tt, w') ∧
    if bool_decide (concat kss = []) then outs = [] else ∃ b, outs = [b] ∧ keys_output b (concat kss).
Proof using Hst0 Hnone.
  intros Ho Hschema Hf Hlt. assert (partial_processor (K:=K) (St:=St) params threshold = mkOps (partial_consume_keys params threshold) (partial_generate_keys (K:=K) params)) as ->.
  { unfold partial_processor. by rewrite Hnone. }
  destruct (consume_keys_ok false false st0 ∅ [] blocks kss) as (st & Hrun & Hinv); [apply keys_inv_create|done|done|].
  simpl in Hinv.
  assert (∀ gen, (concat kss = [] ∨ gen = true) → ∃ dr, partial_generate_keys (K:=K) params (world gen false st ∅) = (Ok None, world gen dr st ∅)) as Hlast.
  { intros gen Hor. destruct (drop_nothing gen false st ∅ _ None Hinv Ho) as [dr Hd]. exists dr. unfold partial_generate_keys.
    rewrite (bind_ok _ _ _ _ _ (keys_done _ _ _ _ _ Hinv)). assert (bool_decide (concat kss = []) || gen = true) as ->; [|by rewrite (bind_ok _ _ _ _ _ Hd)].
    destruct Hor as [Hor| ->]; [by rewrite bool_decide_true by done|apply orb_true_r]. }
  case_bool_decide as Hnil.
  - destruct (Hlast false (or_introl Hnil)) as [dr Hgen]. destruct (drop_nothing false dr st ∅ _ None Hinv Ho) as [dr' Hd].
    exists [], (world false dr st ∅). eexists. split_and!; [|exact Hd|done]. exists (world false false st ∅), (world false false st ∅). split_and!; [done|constructor|done].
  - destruct (Hlast true (or_intror eq_refl)) as [dr Hgen]. destruct (drop_nothing true dr st ∅ _ None Hinv Ho) as [dr' Hd].
    destruct (keys_entries true false st ∅ _ Hinv) as (l & Hl & Hnd & Hin).
    eexists [_], (world true dr st ∅), _. split_and!; [|exact Hd|eexists; split; [done|]].
    + exists (world false false st ∅), (world true false st ∅). split_and!; [done| |done]. eapply (gr_snoc _ _ []); [constructor|].
      cbn [op_generate]. unfold partial_generate_keys. rewrite (bind_ok _ _ _ _ _ (keys_done _ _ _ _ _ Hinv)), bool_decide_false by done. cbv beta iota delta [orb].
      rewrite (bind_ok set_generated _ (world false false st ∅) tt (world true false st ∅) eq_refl), (bind_ok _ _ _ _ _ Hl). reflexivity.
    + exists l.*1. split_and!; [done..| |by destruct Hinv as (? & ? & _ & _ & _ & ?)]. by apply block_create_column.
Qed.
(** All streams; one without rows gives no block. *)
Lemma partial_keys_runs streams (kss : list (list (list K))) :
  offsets_aggregate_states params = [] → length (schema params) = 1%nat → Forall2 (Forall2 keys_of) streams kss → Z.of_nat (length (concat (concat kss))) < 2 ^ 57 →
  ∃ outs kso, Forall2 (λ blocks out, ∃ w w', seq_run (partial_processor params threshold) (agg_create st0) blocks out w ∧ drop_states (K:=K) params None w = (Ok tt, w')) streams outs ∧
    Forall2 keys_output (concat outs) kso ∧ concat kso = concat (concat kss).
Proof using Hst0 Hnone.
  intros Ho Hschema Hf. induction Hf as [|blocks ks streams kss Hb _ IH]; intros Hlt; [by exists [], []|]. simpl in Hlt. rewrite concat_app, length_app in Hlt.
  destruct (IH ltac:(lia)) as (outs & kso & Hruns & Houts & Hkeys).
  destruct (partial_keys_run blocks ks Ho Hschema Hb ltac:(lia)) as (out & w & w' & Hr & Hd & Hout). case_bool_decide as Hnil.
  - exists (out :: outs), kso. subst out. split_and!; [constructor; [by exists w, w'|done]|done|]. simpl. by rewrite concat_app, Hnil.
  - destruct Hout as (b & -> & Hb'). exists ([b] :: outs), (concat ks :: kso). split_and!; [constructor; [by exists w, w'|done]|by constructor|].
    simpl. by rewrite concat_app, Hkeys.
Qed.
(** The keys of several blocks of keys. *)
Lemma merge_keys_ok gen dr st h ks bs kss :
  keys_inv st ks → Forall2 keys_output bs kss → Z.of_nat (length ks + length (concat kss)) < 2 ^ 57 →
  ∃ st' ks', forM bs (final_consume_keys threshold) (world gen dr st h) = (Ok tt, world gen dr st' h) ∧ keys_inv st' ks' ∧ ∀ k, k ∈ ks' ↔ k ∈ ks ++ concat kss.
Proof using HashMethodLaws0.
  intros Hinv Hf. assert (∀ bs kss st ks m, (length ks ≤ m)%nat → keys_inv st ks → Forall2 keys_output bs kss → Z.of_nat (m + length (concat kss)) < 2 ^ 57 →
    ∃ st' ks', forM bs (final_consume_keys threshold) (world gen dr st h) = (Ok tt, world gen dr st' h) ∧ keys_inv st' ks' ∧ ∀ k, k ∈ ks' ↔ k ∈ ks ++ concat kss) as Hgen;
    [|intros Hlt; by apply (Hgen bs kss st ks (length ks))].
  clear -HashMethodLaws0. intros bs kss st ks m Hm Hinv Hf. revert st ks m Hm Hinv.
  induction Hf as [|b k1 bs kss (ks' & Hnd & Hin & Hcol & Hok) _ IH]; intros st ks m Hm Hinv Hlt; simpl in *; [exists st, ks; by rewrite app_nil_r|].
  rewrite length_app in Hlt. assert (length ks' ≤ length k1)%nat as Hkl by (apply submseteq_length, NoDup_submseteq; [done|intros k; by rewrite Hin]).
  assert (Forall st_key_ok ks') as Hks by (rewrite Forall_forall in Hok |- *; intros k Hk; by apply Hok, Hin).
  destruct (keys_two_level gen dr st h ks Hinv ltac:(lia)) as (st1 & Htwo & Hinv1).
  destruct (lookup_key_ok gen dr st1 h ks ks' Hinv1 Hks ltac:(lia)) as (st2 & Hrun & Hinv2).
  destruct (IH st2 (ks ++ ks') (m + length k1)%nat) as (st3 & ks3 & Hrest & Hinv3 & Hin3); [rewrite length_app; lia|done|lia|].
  exists st3, ks3. split_and!; [|done|].
  - erewrite bind_ok; [exact Hrest|]. unfold final_consume_keys. erewrite bind_ok by (unfold lift; rewrite Hcol; reflexivity).
    erewrite bind_ok by (unfold lift; rewrite hm_round by done; reflexivity). by rewrite (bind_ok _ _ _ _ _ Htwo).
  - intros k. rewrite Hin3, !elem_of_app, Hin. tauto.
Qed.
End distinct.

(** C23: GROUP BY without aggregate functions over streams of blocks: all runs succeed, and the result is the column of the
    distinct keys of the input, each once. *)
Theorem distinct_keys_correct {K St : Type} `{Countable K, !AggregatorState K St, !AggregatorStateLaws K St, !HashMethod K, !HashMethodLaws K st_key_ok}
    (st0 : St) threshold schema_p schema_f groups pp pf streams (kss : list (list (list K))) :
  st_ok st0 ∅ [] → length schema_p = 1%nat → params_create schema_p groups [] [] = Ok pp → params_create schema_f groups [] [] = Ok pf →
  Forall2 (Forall2 (keys_of pp)) streams kss → Z.of_nat (length (concat (concat kss))) < 2 ^ 57 → finishable (concat (concat kss)) →
  ∃ outs rs w, Forall2 (λ blocks out, ∃ w w', seq_run (partial_processor pp threshold) (agg_create st0) blocks out w ∧ drop_states (K:=K) pp None w = (Ok tt, w')) streams outs ∧
    final_create (K:=K) pf (agg_create st0) = (Ok None, agg_create st0) ∧ seq_run (final_processor (K:=K) pf threshold None) (agg_create st0) (concat outs) rs w ∧
    if bool_decide (concat (concat kss) = []) then rs = [] else
      ∃ ks cols, rs = [mkResult [] cols] ∧ group_columns_finish ks = Ok cols ∧ NoDup ks ∧ ∀ k, k ∈ ks ↔ k ∈ concat (concat kss).
Proof.
  intros Hst0 Hschema [= <-] [= <-] Hf Hlt Hfinish. set (pp := mkParams schema_p groups [] [] None []).
  destruct (partial_keys_runs st0 Hst0 threshold pp eq_refl streams kss eq_refl Hschema Hf Hlt) as (outs & kso & Hruns & Houts & Hkeys).
  destruct (merge_keys_ok threshold false false st0 ∅ [] (concat outs) kso) as (st & ks & Hrun & Hinv & Hin); [by apply keys_inv_create|done|by rewrite Hkeys|].
  rewrite Hkeys in Hin. simpl in Hin. pose proof (keys_done false false st ∅ ks Hinv) as Hdone. pose proof (keys_done true false st ∅ ks Hinv) as Hdone2.
  assert (bool_decide (ks = []) = bool_decide (concat (concat kss) = [])) as Hempty.
  { apply bool_decide_ext. split; intros Hnil; apply elem_of_nil_inv; intros k Hk; apply Hin in Hk; rewrite Hnil in Hk; by apply not_elem_of_nil in Hk. }
  rewrite Hempty in Hdone. exists outs. destruct (bool_decide_reflect (concat (concat kss) = [])) as [Hnil|Hnil].
  - exists [], (mkAgg false false st ∅). split_and!; [done..| |done]. exists (mkAgg false false st ∅), (mkAgg false false st ∅). split_and!; [done|constructor|].
    cbn [op_generate final_processor]. unfold final_processor, final_generate_keys. simpl. by rewrite (bind_ok _ _ _ _ _ Hdone).
  - destruct (keys_entries true false st ∅ _ Hinv) as (l & Hl & Hnd & Hinl).
    assert (l.*1 ≠ []) as Hne.
    { intros Hn. apply Hnil, elem_of_nil_inv. intros k Hk. apply Hin, Hinl in Hk. rewrite Hn in Hk. by apply not_elem_of_nil in Hk. }
    pose proof (Hfinish l.*1 Hne ltac:(intros k Hk; by apply Hin, Hinl)) as Hfin. destruct (group_columns_finish l.*1) as [cols| |] eqn:Hcols; [|done..].
    exists [mkResult [] cols], (mkAgg true false st ∅). split_and!; [done..| |exists l.*1, cols; split_and!; [done..|]; intros k; by rewrite Hinl, Hin].
    exists (mkAgg false false st ∅), (mkAgg true false st ∅). split_and!; [done| |].
    + eapply (gr_snoc _ _ []); [constructor|]. unfold final_processor, final_generate_keys. simpl. rewrite (bind_ok _ _ _ _ _ Hdone). cbv beta iota delta [orb].
      rewrite (bind_ok set_generated _ (mkAgg false false st ∅) tt (mkAgg true false st ∅) eq_refl), (bind_ok _ _ _ _ _ Hl). unfold bind, lift. by rewrite Hcols.
    + unfold final_processor, final_generate_keys. simpl. rewrite (bind_ok _ _ _ _ _ Hdone2). by rewrite orb_true_r.
Qed.
