(* ===== verification/GroupBy.v ===== *)
(** * GROUP BY on the values of columns.

    The keys of the hash methods are codes of the values in the group columns, so what the
    aggregators compute for each key is what SQL asks for each tuple of group values. *)
From S2P Require Import Prelude Column AggFunction AggLaws AggState AggLayout GroupKeys GroupKeysProps SerialKeys Aggregator AggregatorProps AggregatorRun.
#[local] Open Scope Z_scope.

(** ** The hash methods *)
Definition fixed_keys (step : nat) (fields : list (string * DataType)) : HashMethod Z := {|
  build_keys := fixed_build_keys step fields.*2;
  keys_column := PrimitiveColumn;
  keys_iter_from_column := check_get_int;
  group_columns_finish keys := deserialize_group_columns step keys fields |}.
Definition serializer (fields : list (string * DataType)) : HashMethod string := {|
  build_keys := serial_build_keys fields.*2;
  keys_column := StringColumn;
  keys_iter_from_column := check_get_string;
  group_columns_finish := serial_finish fields.*2 |}.

(** ** Keys as codes of values *)

(** The values of a row in the group columns; columns of the same name and type are the same. *)
Abbreviation vals := (list (option Scalar)).
Definition group_vals (fields : list (string * DataType)) (v : vals) : Prop :=
  Forall2 opt_ok fields.*2 v ∧ ∀ i j f, fields !! i = Some f → fields !! j = Some f → v !! i = v !! j.
Definition nth_values (i : nat) (V : list vals) : list (option Scalar) := (λ v, default None (v !! i)) <$> V.
Record keys_code {K} (method : HashMethod K) (full : bool) (fields : list (string * DataType)) (code : vals → K) : Prop := {
  kc_build G rows : field <$> G = fields → Forall (serial_group rows) G → (full = true → Forall (λ g, is_const (g_column g) = false) G) →
    build_keys (g_column <$> G) rows = Ok ((code ∘ row_vals G) <$> seq 0 rows);
  kc_finish V : V ≠ [] → Forall (group_vals fields) V → ∃ cols, group_columns_finish (code <$> V) = Ok cols ∧ length cols = length fields ∧
    ∀ i f c, fields !! i = Some f → cols !! i = Some c → column_rows f.2 c (nth_values i V);
}.
(** Different values have different keys. *)
Lemma code_inj {K} (method : HashMethod K) full fields code v w :
  keys_code method full fields code → group_vals fields v → group_vals fields w → code v = code w → v = w.
Proof.
  intros [_ Hfin] Hv Hw Hc. destruct (Hfin [v]) as (cv & Hcv & Hlen & Hgv); [done|by constructor|]. destruct (Hfin [w]) as (cw & Hcw & _ & Hgw); [done|by constructor|].
  simpl in Hcv, Hcw. rewrite Hc, Hcw in Hcv. injection Hcv as ->. destruct Hv as [Hv _], Hw as [Hw _]. apply Forall2_length in Hv, Hw. rewrite length_fmap in Hv, Hw.
  apply list_eq. intros i. destruct (fields !! i) as [f|] eqn:Hf; [|apply lookup_ge_None in Hf; by rewrite !(proj2 (lookup_ge_None _ _)) by lia].
  pose proof (lookup_lt_Some _ _ _ Hf) as Hi. destruct (lookup_lt_is_Some_2 cv i) as [c Hci]; [lia|].
  pose proof (column_rows_get _ _ _ 0 _ (Hgv i f c Hf Hci) eq_refl) as H1. pose proof (column_rows_get _ _ _ 0 _ (Hgw i f c Hf Hci) eq_refl) as H2. rewrite H1 in H2.
  destruct (lookup_lt_is_Some_2 v i) as [x Hx]; [lia|]. destruct (lookup_lt_is_Some_2 w i) as [y Hy]; [lia|]. rewrite Hx, Hy in *. by f_equal.
Qed.
(** Columns with given rows. *)
Definition rows_column (t : DataType) (vs : list (option Scalar)) : Column :=
  let inner := finish_to_column (inner_id t) (field_value t <$> vs) in if type_nullable t then NullableColumn ((λ v, bool_decide (is_Some v)) <$> vs) inner else inner.
Lemma rows_column_ok t vs : is_Some (physical_kind (inner_id t)) → Forall (opt_ok t) vs → column_rows t (rows_column t vs) vs.
Proof.
  intros [k Hk] Hok. unfold rows_column. apply (finish_rows t k); [done|done| |by rewrite !length_fmap|].
  - apply Forall_fmap. eapply Forall_impl; [exact Hok|]. intros v Hv k' Hk'. simpl. rewrite Hk in Hk'. injection Hk' as <-. unfold field_value. rewrite Hk.
    destruct v as [s|]; simpl; [by eapply scalar_ok_kind|by destruct k].
  - induction Hok as [|v vs Hv _ IH]; [by destruct (type_nullable t)|]. destruct (type_nullable t) eqn:Ht; rewrite !fmap_cons; cbn [zip_with]; rewrite IH at 1; f_equal.
    + by destruct v.
    + destruct v; [done|]. simpl in Hv. congruence.
Qed.
Definition groups_of (fields : list (string * DataType)) (V : list vals) : list group :=
  imap (λ i f, mkGroup f.1 f.2 (rows_column f.2 (nth_values i V)) (nth_values i V)) fields.
Section groups.
Context (fields : list (string * DataType)) (Hkind : Forall (λ f, is_Some (physical_kind (inner_id f.2))) fields) (V : list vals) (HV : Forall (group_vals fields) V).
Lemma groups_of_fields : field <$> groups_of fields V = fields.
Proof using. unfold groups_of. rewrite fmap_imap. rewrite <-(list_fmap_id fields) at 2. rewrite <-imap_const. apply imap_ext. by intros i [n t] _. Qed.
Lemma nth_opt_ok i f : fields !! i = Some f → Forall (opt_ok f.2) (nth_values i V).
Proof using HV.
  intros Hf. apply Forall_fmap. eapply Forall_impl; [exact HV|]. intros v [Hv _]. simpl. destruct (Forall2_lookup_l _ _ _ i f.2 Hv) as (x & Hx & Hok); [by rewrite list_lookup_fmap, Hf|]. by rewrite Hx.
Qed.
Lemma groups_of_ok : Forall (serial_group (length V)) (groups_of fields V).
Proof using HV Hkind.
  apply Forall_lookup. intros i g Hg. unfold groups_of in Hg. rewrite list_lookup_imap in Hg. destruct (fields !! i) as [f|] eqn:Hf; [|done]. injection Hg as <-.
  split; simpl; [|unfold nth_values; by rewrite length_fmap]. apply rows_column_ok; [by apply (Forall_lookup_1 _ _ _ _ Hkind Hf)|by apply nth_opt_ok].
Qed.
Lemma groups_of_distinct : distinct_fields (groups_of fields V).
Proof using HV.
  intros g g' [i Hg]%list_elem_of_lookup [j Hg']%list_elem_of_lookup. unfold groups_of in *. rewrite list_lookup_imap in Hg, Hg'.
  destruct (fields !! i) as [f|] eqn:Hf; [|done]. destruct (fields !! j) as [f'|] eqn:Hf'; [|done]. injection Hg as <-. injection Hg' as <-. unfold field. simpl. destruct f, f'. intros [= -> ->].
  unfold nth_values. apply list_fmap_ext. intros r v Hv. destruct (Forall_lookup_1 _ _ _ _ HV Hv) as [_ Hsame]. by rewrite (Hsame i j _ Hf Hf').
Qed.
Lemma groups_of_rows : row_vals (groups_of fields V) <$> seq 0 (length V) = V.
Proof using HV.
  apply list_eq. intros r. rewrite list_lookup_fmap. destruct (V !! r) as [v|] eqn:Hr; [|apply lookup_ge_None in Hr; by rewrite lookup_seq_ge by lia].
  rewrite (proj2 (lookup_seq _ _ _ _)) by (split; [done|by eapply lookup_lt_Some]). simpl. f_equal. destruct (Forall_lookup_1 _ _ _ _ HV Hr) as [Hv _]. apply Forall2_length in Hv. rewrite length_fmap in Hv.
  apply list_eq. intros i. unfold row_vals, groups_of. rewrite list_lookup_fmap, list_lookup_imap. destruct (fields !! i) as [f|] eqn:Hf; simpl.
  - destruct (lookup_lt_is_Some_2 v i) as [x Hx]; [rewrite <-Hv; by eapply lookup_lt_Some|]. unfold nth_values. by rewrite list_lookup_fmap, Hr, Hx; simpl; rewrite Hx.
  - apply lookup_ge_None in Hf. symmetry. apply lookup_ge_None. lia.
Qed.
(** Columns for these groups are columns of the values. *)
Lemma groups_of_columns sel cols : sel = seq 0 (length V) →
  Forall2 (λ g c, column_rows (g_type g) c (g_values (select sel g))) (groups_of fields V) cols →
  length cols = length fields ∧ ∀ i f c, fields !! i = Some f → cols !! i = Some c → column_rows f.2 c (nth_values i V).
Proof using.
  intros -> Hc. split; [apply Forall2_length in Hc; unfold groups_of in Hc; by rewrite length_imap in Hc|]. intros i f c Hf Hci.
  destruct (Forall2_lookup_r _ _ _ _ _ Hc Hci) as (g & Hg & Hcol). unfold groups_of in Hg. rewrite list_lookup_imap, Hf in Hg. injection Hg as <-. simpl in Hcol.
  replace (nth_values i V) with ((λ r, default None (nth_values i V !! r)) <$> seq 0 (length V)); [done|]. unfold nth_values. apply list_eq. intros r. rewrite !list_lookup_fmap.
  destruct (V !! r) as [v|] eqn:Hr; [|apply lookup_ge_None in Hr; by rewrite lookup_seq_ge by lia].
  rewrite (proj2 (lookup_seq _ _ _ _)) by (split; [done|by eapply lookup_lt_Some]). simpl. by rewrite list_lookup_fmap, Hr.
Qed.
End groups.

(** *** Fixed keys *)
Definition fixed_code (step : nat) (ts : list DataType) (v : vals) : Z :=
  let s := sort_desc (type_size ∘ fst) (zip ts v) in from_le (encode_row s.*1 0 (total ts) s.*2 (replicate step 0)).
Lemma row_bytes_code step G r : from_le (row_bytes step G r) = fixed_code step (g_type <$> G) (row_vals G r).
Proof. unfold fixed_code, row_vals. rewrite zip_fmap_pair, sort_desc_fmap, <-!list_fmap_compose. done. Qed.
Lemma field_types G fields : field <$> G = fields → g_type <$> G = fields.*2.
Proof. intros <-. by rewrite <-list_fmap_compose. Qed.
Definition fixed_fields (fields : list (string * DataType)) : Prop := Forall (λ f, fixed_type (inner_id f.2) = true) fields.
Lemma serial_fixed fields G rows : fixed_fields fields → field <$> G = fields → Forall (serial_group rows) G → Forall (fixed_group rows) G.
Proof.
  intros Hf <- HG. unfold fixed_fields in Hf. rewrite Forall_fmap in Hf. rewrite Forall_forall in *. intros g Hg. destruct (HG g Hg) as [Hc Hl]. split_and!; [done|by apply Hf|done].
Qed.
Lemma fixed_kinds fields : fixed_fields fields → Forall (λ f, is_Some (physical_kind (inner_id f.2))) fields.
Proof. intros H. eapply Forall_impl; [exact H|]. intros f Hf. destruct (fixed_type_size _ Hf) as (_ & _ & _ & _ & k & Hk & _). by exists k. Qed.
Lemma fixed_keys_code step fields :
  fixed_fields fields → (total fields.*2 + nulls fields.*2 ≤ step)%nat → keys_code (fixed_keys step fields) false fields (fixed_code step fields.*2).
Proof.
  intros Hf Hfit. split.
  - intros G rows HGf HG _. pose proof (field_types _ _ HGf) as Ht. cbn [build_keys fixed_keys]. rewrite <-Ht. rewrite (fixed_build_ok step rows G); [|by eapply serial_fixed|by rewrite Ht].
    f_equal. apply list_fmap_ext. intros i r _. apply row_bytes_code.
  - intros V Hne HV. pose proof (groups_of_fields fields V) as HGf. pose proof (field_types _ _ HGf) as Ht. cbn [group_columns_finish fixed_keys].
    destruct (fixed_finish_ok step (length V) (groups_of fields V)) with (sel := seq 0 (length V)) as (cols & Hcols & Hall).
    + eapply serial_fixed; [done|done|]. apply groups_of_ok; [by apply fixed_kinds|done].
    + by apply groups_of_distinct.
    + by rewrite Ht.
    + by destruct V.
    + apply seq_rows.
    + destruct (groups_of_columns fields V _ cols eq_refl Hall) as [Hl Hc]. exists cols. split_and!; [|done|done]. rewrite <-Hcols, HGf. f_equal.
      rewrite <-(groups_of_rows fields V HV) at 1. rewrite <-list_fmap_compose. apply list_fmap_ext. intros i r _. simpl. by rewrite row_bytes_code, Ht.
Qed.
Lemma fixed_code_bound step fields v : fixed_fields fields → (total fields.*2 + nulls fields.*2 ≤ step)%nat → group_vals fields v → 0 ≤ fixed_code step fields.*2 v < 2 ^ (8 * Z.of_nat step).
Proof.
  intros Hf Hfit Hv. assert (Forall (group_vals fields) [v]) as HV by (by constructor). pose proof (groups_of_fields fields [v]) as HGf. pose proof (field_types _ _ HGf) as Ht.
  assert (Forall (fixed_group 1) (groups_of fields [v])) as HG by (eapply serial_fixed; [done|done|]; apply (groups_of_ok fields (fixed_kinds _ Hf) [v] HV)).
  destruct (row_bytes_ok step 1 (groups_of fields [v]) HG ltac:(by rewrite Ht) 0 ltac:(lia)) as (Hl & Hb & _).
  pose proof (groups_of_rows fields [v] HV) as Hr. simpl in Hr. injection Hr as Hr. rewrite <-Hr, <-Ht, <-row_bytes_code. pose proof (from_le_bound _ Hb) as Hbound. by rewrite Hl in Hbound.
Qed.

(** *** Serialized keys *)
Definition serial_code (ts : list DataType) (v : vals) : string := string_of_bytes (concat (zip_with field_bytes ts v)).
Lemma row_code_code G r : string_of_bytes (row_code G r) = serial_code (g_type <$> G) (row_vals G r).
Proof. unfold serial_code, row_vals, row_code. rewrite zip_with_fmap_l, zip_with_fmap_r, zip_with_diag. done. Qed.
Lemma serial_keys_code fields :
  Forall (λ f, is_Some (physical_kind (inner_id f.2))) fields → keys_code (serializer fields) false fields (serial_code fields.*2).
Proof.
  intros Hk. split.
  - intros G rows HGf HG _. pose proof (field_types _ _ HGf) as Ht. cbn [build_keys serializer]. rewrite <-Ht. unfold serial_build_keys, serializer_build_keys.
    rewrite zip_fmap_pair, serialize_all_ok by (by rewrite length_replicate). cbn [res_map]. rewrite imap_replicate, <-list_fmap_compose. f_equal. apply list_fmap_ext. intros i r _. apply row_code_code.
  - intros V Hne HV. pose proof (groups_of_fields fields V) as HGf. pose proof (field_types _ _ HGf) as Ht. cbn [group_columns_finish serializer].
    destruct (serial_finish_ok _ _ (seq 0 (length V)) (groups_of_ok fields Hk V HV) (seq_rows _)) as (cols & Hcols & Hall).
    destruct (groups_of_columns fields V _ cols eq_refl Hall) as [Hl Hc]. exists cols. split_and!; [|done|done]. rewrite <-Hcols, Ht. f_equal.
    rewrite <-(groups_of_rows fields V HV) at 1. rewrite <-list_fmap_compose. apply list_fmap_ext. intros i r _. simpl. by rewrite row_code_code, Ht.
Qed.

(** *** A single string *)
Definition string_code (v : vals) : string := match v with [Some (SStr s)] => s | _ => EmptyString end.
Lemma string_rows c vs : column_rows (mkType T_String false) c vs → is_const c = false → ∃ l, c = StringColumn l ∧ vs = (Some ∘ SStr) <$> l.
Proof.
  intros (Hn & _ & k & [= <-] & l & Hl & ->) Hc. destruct c as [| | |x| | |]; try done. simpl in Hl. injection Hl as <-. exists x. by rewrite <-list_fmap_compose.
Qed.
Lemma single_string_code name : keys_code single_string true [(name, mkType T_String false)] string_code.
Proof.
  split.
  - intros [|g [|]] rows [= Hname Htype] HG Hfull; try done. apply Forall_singleton in HG as [Hc Hl]. specialize (Hfull eq_refl). rewrite Forall_singleton in Hfull.
    rewrite Htype in Hc. destruct (string_rows _ _ Hc Hfull) as (l & Hcol & Hvs). cbn [build_keys single_string]. rewrite fmap_cons, Hcol. cbn [res_bind unwrap lookup list_lookup check_get_string].
    rewrite Hvs, length_fmap in Hl. apply res_mapM_ok, Forall2_same_length_lookup_2; [by rewrite length_fmap|]. intros i r s [-> Hi]%lookup_seq Hs. rewrite Nat.add_0_l in *.
    apply list_lookup_fmap_Some in Hs as (r & -> & [-> _]%lookup_seq). rewrite Nat.add_0_l. destruct (lookup_lt_is_Some_2 l i) as [x Hx]; [lia|]. rewrite Hx. simpl. rewrite Hvs, list_lookup_fmap, Hx. done.
  - intros V Hne HV. cbn [group_columns_finish single_string]. eexists. split; [done|]. split; [done|]. intros i f c Hf Hc. destruct i as [|i]; [|done]. injection Hf as <-. injection Hc as <-.
    assert (∀ v, group_vals [(name, mkType T_String false)] v → ∃ s, v = [Some (SStr s)] ∧ Z.of_nat (String.length s) < 2 ^ 64) as Hval.
    { intros v [Hv _]. simpl in Hv. apply Forall2_cons_inv_l in Hv as (o & v' & Ho & Hv & ->). apply Forall2_nil_inv_l in Hv as ->. destruct o as [[b|n|f|s]|]; try done; simpl in Ho.
      - by destruct Ho.
      - by destruct Ho as [[]|[]].
      - exists s. by destruct Ho. }
    split; [done|]. split; [|exists KStr; split; [done|]; eexists; split; [done|]].
    + apply Forall_fmap. eapply Forall_impl; [exact HV|]. intros v (s & -> & Hs)%Hval s' [= <-]. done.
    + unfold nth_values. rewrite <-!list_fmap_compose. apply list_fmap_ext. intros i v Hv. destruct (Hval v) as (s & -> & _); [by apply (Forall_lookup_1 _ _ _ _ HV Hv)|]. done.
Qed.

(** *** The method that is chosen *)
Lemma group_key_len_ok ts n : ∃ r, group_key_len ts n = Ok r ∧ ∀ len, r = Some len → Forall (λ t, fixed_type (inner_id t) = true) ts ∧ len = (n + total ts + nulls ts)%nat.
Proof.
  revert n. induction ts as [|t ts IH]; intros n; [exists (Some n); split; [done|]; intros len [= <-]; split; [done|unfold total, nulls; simpl; lia]|]. cbn [group_key_len].
  change (data_type_id (remove_nullable_type t)) with (inner_id t). destruct (is_numeric (inner_id t) || is_date_or_date_time (inner_id t)) eqn:Hf; [|by exists None].
  destruct (fixed_type_size (inner_id t) Hf) as (-> & _). cbn [res_bind]. destruct (IH (n + buffer_size (inner_id t) + (if type_nullable t then 1 else 0))%nat) as (r & -> & Hr).
  exists r. split; [done|]. intros len Hlen. destruct (Hr len Hlen) as [Hts ->]. split; [by constructor|]. rewrite total_cons, (type_size_ok t Hf). pose proof (nulls_cons t ts 0) as Hn. unfold next_null in Hn.
  destruct (type_nullable t); lia.
Qed.
Definition faithful {K} (method : HashMethod K) (full : bool) (fields : list (string * DataType)) (code : vals → K) (key_ok : K → Prop) : Prop :=
  keys_code method full fields code ∧ ∀ v w, group_vals fields v → group_vals fields w → key_ok (code v) ∧ (code v = code w → v = w).
Definition fixed_method (step : nat) (fields : list (string * DataType)) : Prop :=
  faithful (fixed_keys step fields) false fields (fixed_code step fields.*2) (λ k, 0 ≤ k < 2 ^ (8 * Z.of_nat step)).
Lemma fixed_method_ok step fields len : Forall (λ t, fixed_type (inner_id t) = true) fields.*2 → len = (0 + total fields.*2 + nulls fields.*2)%nat → (len ≤ step)%nat → fixed_method step fields.
Proof.
  intros Hf -> Hfit. rewrite Forall_fmap in Hf. pose proof (fixed_keys_code step fields Hf ltac:(lia)) as Hc. split; [done|]. intros v w Hv Hw. split; [by apply fixed_code_bound; [|lia|]|by eapply code_inj].
Qed.
(** C13: for group columns of scalar types a method is chosen whose keys are codes of the group values: all
    accesses to the memory of the keys stay inside of it, two rows have the same key exactly if they have the same values,
    nulls included and floating-point values by their bits, and any keys are read back as columns with the values of their rows.  Only a single string column that
    is constant is left out: there the method returns an error. *)
Theorem hash_method_codes fields :
  Forall (λ f, is_Some (physical_kind (inner_id f.2))) fields →
  ∃ m, choose_hash_method_with_types fields.*2 = Ok m ∧
    match m with
    | HSerializer => faithful (serializer fields) false fields (serial_code fields.*2) (λ _, True)
    | HSingleString => faithful single_string true fields string_code (λ _, True) ∧
        ∀ c n rows, build_keys (HashMethod:=single_string) [ConstColumn c n] rows = Err UnknownColumn
    | HKeysU8 => fixed_method 1 fields
    | HKeysU16 => fixed_method 2 fields
    | HKeysU32 => fixed_method 4 fields
    | HKeysU64 => fixed_method 8 fields
    end.
Proof.
  intros Hk. assert (faithful (serializer fields) false fields (serial_code fields.*2) (λ _, True)) as Hser.
  { pose proof (serial_keys_code fields Hk) as Hc. split; [done|]. intros v w Hv Hw. split; [done|by eapply code_inj]. }
  unfold choose_hash_method_with_types. destruct ((length fields.*2 =? 1)%nat && _) eqn:Hs.
  - exists HSingleString. split; [done|]. apply andb_true_iff in Hs as [Hl Hs]. destruct fields as [|[name [id null]] [|]]; try done. simpl in Hs. rewrite andb_true_r, bool_decide_eq_true in Hs. unfold data_type_id in Hs.
    simpl in Hs. destruct null; [done|]. subst id. pose proof (single_string_code name) as Hc. split; [|done]. split; [done|]. intros v w Hv Hw. split; [done|by eapply code_inj].
  - clear Hs. destruct (group_key_len_ok fields.*2 0) as (r & -> & Hr). cbn [res_bind]. eexists. split; [done|]. destruct r as [len|]; [|done]. destruct (Hr len eq_refl) as [Hf Hlen].
    assert (∀ step, (len ≤ step)%nat → fixed_method step fields) as Hfix by (intros step; by apply fixed_method_ok).
    destruct len as [|[|[|len]]]; [done|by apply Hfix|by apply Hfix|]. destruct (Nat.leb_spec 3 (S (S (S len)))), (Nat.leb_spec (S (S (S len))) 4); cbn [andb]; try by apply Hfix.
    all: destruct (Nat.leb_spec 5 (S (S (S len)))), (Nat.leb_spec (S (S (S len))) 8); cbn [andb]; try done; by apply Hfix.
Qed.

(** ** The groups of values *)
Record vfact := mkVfact { vf_vals : list vals; vf_args : list (list Column); vf_rows : nat }.
(** The group values of the rows of blocks, and the rows that have certain group values, for the i-th function. *)
Definition all_vals (fs : list vfact) : list vals := fs ≫= vf_vals.
Definition value_rows (fs : list vfact) (v : vals) (i : nat) : list Row := fs ≫= λ f, block_rows (vf_vals f) (vf_args f) (vf_rows f) v i.
Section values.
Context {K St : Type} `{Countable K, !AggregatorState K St, !AggregatorStateLaws K St}.
Context (method : HashMethod K) (fields : list (string * DataType)) (full : bool) (code : vals → K).
Context (Hcode : keys_code method full fields code) (Hok : ∀ v, group_vals fields v → st_key_ok (code v)).
#[local] Existing Instance method.
(** What is asked of a block: group columns of the types of the fields, and arguments that the functions take. *)
Record vfact_of (params : AggregatorParams) (Ss : list agg_spec) (block : DataBlock) (f : vfact) : Prop := {
  vo_groups : ∃ G, columns_by_name block (group_columns_name params) = Ok (g_column <$> G) ∧ field <$> G = fields ∧ Forall (serial_group (num_rows block)) G ∧
    (full = true → Forall (λ g, is_const (g_column g) = false) G) ∧ distinct_fields G ∧ vf_vals f = row_vals G <$> seq 0 (num_rows block);
  vo_rows : vf_rows f = num_rows block;
  vo_args : aggregate_arguments block params = Ok (vf_args f);
  vo_spec i S : Ss !! i = Some S → ∃ args, vf_args f !! i = Some args ∧ as_args S args (vf_rows f);
}.
Definition code_fact (f : vfact) : fact (K:=K) := mkFact (code <$> vf_vals f) (vf_args f) (vf_rows f).
Lemma row_group_vals G rows r : field <$> G = fields → Forall (serial_group rows) G → distinct_fields G → (r < rows)%nat → group_vals fields (row_vals G r).
Proof using.
  intros HGf HG Hd Hr. split.
  - rewrite <-(field_types _ _ HGf). unfold row_vals. apply Forall2_fmap, Forall_Forall2_diag. eapply Forall_impl; [exact HG|]. intros g [Hc Hl].
    destruct (lookup_lt_is_Some_2 (g_values g) r) as [v Hv]; [lia|]. rewrite Hv. simpl. destruct v as [s|]; simpl; [|by eapply column_rows_valid].
    destruct Hc as (_ & Hv' & _). by apply (Forall_lookup_1 _ _ r (Some s) Hv').
  - intros i j f Hi Hj. rewrite <-HGf in Hi, Hj. apply list_lookup_fmap_Some in Hi as (g & -> & Hi). apply list_lookup_fmap_Some in Hj as (g' & Hf & Hj).
    unfold row_vals. rewrite !list_lookup_fmap, Hi, Hj. simpl. rewrite (Hd g g'); [done|by eapply list_elem_of_lookup_2..|done].
Qed.
Lemma vfact_vals params Ss b f : vfact_of params Ss b f → Forall (group_vals fields) (vf_vals f).
Proof using.
  intros [(G & _ & HGf & HG & _ & Hd & ->) _ _ _]. apply Forall_fmap, Forall_lookup. intros i r [-> Hr]%lookup_seq. by eapply row_group_vals.
Qed.
Lemma vfact_fact params Ss b f : vfact_of params Ss b f → fact_of params Ss b (code_fact f).
Proof using Hcode Hok.
  intros Hf. pose proof (vfact_vals _ _ _ _ Hf) as Hvals. destruct Hf as [(G & Hcols & HGf & HG & Hfull & _ & Hv) Hr Ha Hs]. split; simpl; [|done| | |done|done].
  - exists (g_column <$> G). split; [done|]. rewrite (kc_build _ _ _ _ Hcode G (num_rows b) HGf HG Hfull), Hv. by rewrite <-list_fmap_compose.
  - rewrite length_fmap, Hv, length_fmap, length_seq. done.
  - apply Forall_fmap. eapply Forall_impl; [exact Hvals|]. exact Hok.
Qed.
Lemma rows_for_code v ks rs : group_vals fields v → Forall (group_vals fields) ks → rows_for (code v) (code <$> ks) rs = rows_for v ks rs.
Proof using Hcode.
  intros Hv Hks. unfold rows_for. revert rs. induction Hks as [|w ks Hw _ IH]; intros [|r rs]; try done. simpl. rewrite !filter_cons. simpl.
  specialize (IH rs). destruct (decide (code w = code v)) as [Heq|Hne], (decide (w = v)) as [Heq'|Hne']; simpl; try congruence; [f_equal; exact IH| |exact IH]. destruct Hne'. by eapply code_inj.
Qed.
Lemma group_keys_code fs : group_keys (code_fact <$> fs) = code <$> all_vals fs.
Proof using. unfold group_keys, all_vals. induction fs as [|f fs IH]; [done|]. simpl. rewrite fmap_app. f_equal. exact IH. Qed.
Definition code_facts (fss : list (list vfact)) : list (list (fact (K:=K))) := (λ fs : list vfact, code_fact <$> fs) <$> fss.
Lemma code_facts_concat fss : concat (code_facts fss) = code_fact <$> concat fss.
Proof using. induction fss as [|fs fss IH]; [done|]. simpl. rewrite fmap_app. f_equal. exact IH. Qed.
Lemma group_rows_code fs v i : group_vals fields v → Forall (group_vals fields) (all_vals fs) → group_rows (code_fact <$> fs) (code v) i = value_rows fs v i.
Proof using Hcode.
  intros Hv. unfold group_rows, value_rows, all_vals. induction fs as [|f fs IH]; [done|]. cbn [fmap list_fmap mbind list_bind]. rewrite Forall_app. intros [Hf Hfs]. rewrite <-(IH Hfs). f_equal.
  unfold block_rows. simpl. by apply rows_for_code.
Qed.
(** Keys among those of the values are codes. *)
Lemma keys_decode (ks : list K) (vs : list vals) : (∀ k, k ∈ ks → k ∈ code <$> vs) → ∃ V, ks = code <$> V ∧ Forall (λ v, v ∈ vs) V.
Proof using.
  induction ks as [|k ks IH]; intros Hks; [by exists []|]. destruct IH as (V & -> & HV); [intros k' Hk'; apply Hks; by right|].
  destruct (proj1 (list_elem_of_fmap _ _ _) (Hks k ltac:(by left))) as (v & -> & Hv). exists (v :: V). split; [done|by constructor].
Qed.
Lemma vals_finishable vs : Forall (group_vals fields) vs → finishable (code <$> vs).
Proof using Hcode.
  intros Hvs ks Hne Hks. destruct (keys_decode ks vs Hks) as (V & -> & HV). destruct (kc_finish _ _ _ _ Hcode V) as (cols & Hcols & _); [by destruct V| |].
  - eapply Forall_impl; [exact HV|]. intros v Hv. by apply (proj1 (Forall_forall _ _) Hvs).
  - by rewrite Hcols.
Qed.
(** The result of a GROUP BY: one row for each tuple of group values. *)
Definition values_result (Fs : list AggregateFunction) (Ss : list agg_spec) (r : ResultBlock) (fs : list vfact) : Prop := ∃ V : list vals,
  NoDup V ∧ (∀ v, v ∈ V ↔ v ∈ all_vals fs) ∧ length (result_groups r) = length fields ∧
  (∀ i f c, fields !! i = Some f → result_groups r !! i = Some c → column_rows f.2 c (nth_values i V)) ∧ length (result_values r) = length Fs ∧
  ∀ i S col, result_values r !! i = Some col → Ss !! i = Some S → col = (λ v, as_value S (value_rows fs v i)) <$> V.
Lemma final_values params Ss r fs :
  Forall (group_vals fields) (all_vals fs) → all_vals fs ≠ [] → final_result params Ss r (code_fact <$> fs) → values_result (aggregate_functions params) Ss r fs.
Proof using Hcode.
  intros Hvals Hne (ks & Hnd & Hin & Hgr & Hlen & Hcols). rewrite group_keys_code in Hin. destruct (keys_decode ks (all_vals fs)) as (V & -> & HV); [intros k; apply Hin|].
  rewrite Forall_forall in Hvals. assert (Forall (group_vals fields) V) as HVok by (eapply Forall_impl; [exact HV|]; exact Hvals).
  assert (∀ v, v ∈ V ↔ v ∈ all_vals fs) as HVin.
  { intros v. split; [intros Hv; by apply (proj1 (Forall_forall _ _) HV)|]. intros Hv. destruct (proj1 (list_elem_of_fmap _ _ _) (proj2 (Hin (code v)) (list_elem_of_fmap_2 code _ _ Hv))) as (w & Hc & Hw).
    rewrite (code_inj method full fields code v w); [done|done|by apply Hvals|by apply Hvals, (proj1 (Forall_forall _ _) HV)|done]. }
  exists V. destruct (kc_finish _ _ _ _ Hcode V) as (cols & Hfin & Hcl & Hcr); [|done|].
  { destruct V; [|done]. destruct Hne. apply elem_of_nil_inv. intros v Hv%HVin. by apply not_elem_of_nil in Hv. }
  rewrite Hfin in Hgr. injection Hgr as Hgr. rewrite <-Hgr. split_and!; [by eapply NoDup_fmap_1|done|done|done|done|].
  intros i S col Hcol HS. rewrite (Hcols i S col Hcol HS), <-list_fmap_compose. apply list_fmap_ext. intros j v Hv. simpl. rewrite group_rows_code; [done| |by rewrite Forall_forall].
  by apply (Forall_lookup_1 _ _ _ _ HVok Hv).
Qed.
End values.

(** Any functions that keep the laws. *)
Lemma lawful_group_by {K St : Type} `{Countable K, !AggregatorState K St, !AggregatorStateLaws K St} (method : HashMethod K) `{!HashMethodLaws K st_key_ok}
    fields full code (st0 : St) threshold Fs Ss names schema_p schema_f groups pp pf streams fss :
  keys_code method full fields code → (∀ v, group_vals fields v → st_key_ok (code v)) → st_ok st0 ∅ [] →
  Fs ≠ [] → Forall2 Lawful Fs Ss → length schema_p = S (length Fs) →
  params_create schema_p groups Fs names = Ok pp → params_create schema_f groups Fs names = Ok pf →
  (∀ i F S o, slot pp Ss i F S o → LawfulKeys F S o) →
  Forall2 (Forall2 (vfact_of fields full pp Ss)) streams fss → Z.of_nat (length (all_vals (concat fss))) < 2 ^ 57 →
  ∃ outs t w0 rs w, Forall2 (λ blocks out, ∃ w w', seq_run (partial_processor pp threshold) (agg_create st0) blocks out w ∧ drop_states (K:=K) pp None w = (Ok tt, w')) streams outs ∧
    final_create (K:=K) pf (agg_create st0) = (Ok t, w0) ∧ seq_run (final_processor (K:=K) pf threshold t) w0 (concat outs) rs w ∧
    (∃ w', drop_states (K:=K) pf t w = (Ok tt, w')) ∧
    if bool_decide (all_vals (concat fss) = []) then rs = [] else ∃ r, rs = [r] ∧ values_result fields Fs Ss r (concat fss).
Proof.
  intros Hcode Hok Hst0 Hne Hl Hschema Hpp Hpf Hkeys Hf Hlt.
  assert (Forall (group_vals fields) (all_vals (concat fss))) as Hvals.
  { clear -Hf. induction Hf as [|bs fs streams fss Hb _ IH]; [constructor|]. simpl. unfold all_vals. rewrite bind_app. apply Forall_app. split; [|exact IH].
    clear -Hb. induction Hb as [|b f bs fs Hbf _ IH]; [constructor|]. simpl. apply Forall_app. split; [by eapply vfact_vals|exact IH]. }
  pose proof (code_facts_concat code fss) as Hconcat.
  destruct (group_by_keys st0 Hst0 Ss threshold Fs names schema_p schema_f groups pp pf streams (code_facts code fss)) as (outs & t & w0 & rs & w & Hruns & Hc & Hrun & Hd & Hres); try done.
  - unfold code_facts. apply Forall2_fmap_r. eapply Forall2_impl; [exact Hf|]. intros bs fs Hb. apply Forall2_fmap_r. eapply Forall2_impl; [exact Hb|]. intros b f Hbf. by eapply vfact_fact.
  - by rewrite Hconcat, group_keys_code, length_fmap.
  - rewrite Hconcat, group_keys_code. by eapply vals_finishable.
  - exists outs, t, w0, rs, w. split_and!; [done..|]. rewrite Hconcat, group_keys_code in Hres. destruct (bool_decide_reflect (all_vals (concat fss) = [])) as [Hnil|Hnil].
    + rewrite Hnil in Hres. by rewrite bool_decide_true in Hres.
    + rewrite bool_decide_false in Hres by (intros ?%fmap_nil_inv; done). destruct Hres as (r & -> & Hr). exists r. split; [done|].
      destruct (params_create_ok _ _ _ _ _ _ Hl Hne Hpf) as (_ & _ & HFf & _). rewrite <-HFf. by eapply final_values.
Qed.

Lemma first_offset F Fs offs ly : get_layout_offsets (F :: Fs) = Ok (offs, ly) → 0 < l_align (state_layout F) → offs !! 0%nat = Some 0.
Proof.
  unfold get_layout_offsets. cbn [layout_loop]. destruct (layout_loop Fs _ _) as [[offsets m] t]. intros Hl Ha.
  rewrite Z.add_0_l, (Z.div_small (_ - 1)) in Hl by lia. destruct (from_size_align _ _); [|done..]. by injection Hl as <- <-.
Qed.
(** The functions of a query keep the laws at their places when counts of rows are in the first place. *)
Lemma calls_keys `{!Bincode Z, !Bincode (Z * Z), !Bincode (option Scalar), !Layouts}
    `{!BincodeLaws Z word_ok, !BincodeLaws (Z * Z) (λ x, word_ok x.1 ∧ word_ok x.2), !BincodeLaws (option Scalar) (λ _, True)}
    calls names schema groups pp i F S o :
  0 < l_size scalar_state_layout ∧ is_power_of_two (l_align scalar_state_layout) = true → calls ≠ [] →
  (∀ i c, calls !! i = Some c → counts_rows c = true → i = 0%nat) →
  params_create schema groups (factory_get <$> calls) names = Ok pp → slot pp (call_spec <$> calls) i F S o → LawfulKeys F S o.
Proof.
  intros Hly Hne Hfirst Hpp (HF & HS & Ho). assert (Forall2 Lawful (factory_get <$> calls) (call_spec <$> calls)) as Hl.
  { apply Forall2_fmap, Forall_Forall2_diag, Forall_true. intros c. by apply call_lawful. }
  destruct (params_create_ok _ _ _ _ _ _ Hl ltac:(by destruct calls) Hpp) as (ly & Hap & HFp & Hlp & _). rewrite HFp in HF.
  apply list_lookup_fmap_Some in HF as (c & -> & Hc). rewrite list_lookup_fmap, Hc in HS. injection HS as <-.
  apply call_lawful_keys; [done|]. intros Hrows. pose proof (Hfirst i c Hc Hrows) as ->. destruct calls as [|c' calls]; [done|]. injection Hc as ->.
  pose proof (lw_align (Lawful:=call_lawful Hly c)) as Ha. unfold is_power_of_two in Ha. apply andb_true_iff in Ha as [Ha%Z.ltb_lt _].
  pose proof (first_offset _ _ _ _ Hlp Ha) as H0. congruence.
Qed.

(** C12: a GROUP BY over streams of blocks, with sum and avg of integers or booleans, min, max and any of values other than NaN, of arguments
    without nulls, all these also under a condition, count of a nullable argument, and count of rows, also under a condition, as the
    first of the functions.  Each stream has its partial aggregator with its own table and memory; the final aggregator takes
    in what they give.  All runs succeed and the states are dropped without harm; the result has one row for each tuple of
    group values of the input, nulls included, with these values in the group columns and the value of each function on
    exactly the rows of the group, in their order.  Count of rows in another place, functions behind the adaptor for
    nullable arguments and distinct are left out: the first two give wrong values ([count_not_first], [min_under_nulls],
    [sum_of_nulls]). *)
Theorem group_by_correct {K St : Type} `{Countable K, !AggregatorState K St, !AggregatorStateLaws K St} (method : HashMethod K) `{!HashMethodLaws K st_key_ok}
    `{!Bincode Z, !Bincode (Z * Z), !Bincode (option Scalar), !Layouts}
    `{!BincodeLaws Z word_ok, !BincodeLaws (Z * Z) (λ x, word_ok x.1 ∧ word_ok x.2), !BincodeLaws (option Scalar) (λ _, True)}
    fields full code (st0 : St) threshold calls names schema_p schema_f groups pp pf streams fss :
  keys_code method full fields code → (∀ v, group_vals fields v → st_key_ok (code v)) → st_ok st0 ∅ [] →
  0 < l_size scalar_state_layout ∧ is_power_of_two (l_align scalar_state_layout) = true →
  calls ≠ [] → (∀ i c, calls !! i = Some c → counts_rows c = true → i = 0%nat) → length schema_p = S (length calls) →
  params_create schema_p groups (factory_get <$> calls) names = Ok pp → params_create schema_f groups (factory_get <$> calls) names = Ok pf →
  Forall2 (Forall2 (vfact_of fields full pp (call_spec <$> calls))) streams fss → Z.of_nat (length (all_vals (concat fss))) < 2 ^ 57 →
  ∃ outs t w0 rs w, Forall2 (λ blocks out, ∃ w w', seq_run (partial_processor pp threshold) (agg_create st0) blocks out w ∧ drop_states (K:=K) pp None w = (Ok tt, w')) streams outs ∧
    final_create (K:=K) pf (agg_create st0) = (Ok t, w0) ∧ seq_run (final_processor (K:=K) pf threshold t) w0 (concat outs) rs w ∧
    (∃ w', drop_states (K:=K) pf t w = (Ok tt, w')) ∧
    if bool_decide (all_vals (concat fss) = []) then rs = [] else ∃ r, rs = [r] ∧ values_result fields (factory_get <$> calls) (call_spec <$> calls) r (concat fss).
Proof.
  intros Hcode Hok Hst0 Hly Hne Hfirst Hschema Hpp Hpf Hf Hlt. eapply lawful_group_by; try done.
  - by destruct calls.
  - apply Forall2_fmap, Forall_Forall2_diag, Forall_true. intros c. by apply call_lawful.
  - by rewrite length_fmap.
  - intros i F S o Hs. by eapply (calls_keys calls names schema_p groups pp i F S o).
Qed.
