(* ===== verification/AggModel.v ===== *)
(** * The aggregators at work: concrete instances of their parameters, and what the code does on small inputs. *)
From Stdlib Require Import Ascii.
From S2P Require Import Prelude HashTable HashTableProps HashTableKinds Column AggFunction AggLaws AggState AggLayout Aggregator AggregatorProps AggregatorRun AggSingle AggDistinct GroupKeys GroupKeysProps SerialKeys GroupBy.
#[local] Open Scope Z_scope.

(** ** Bytes: a positive number as its bits, with a mark at the end *)
Fixpoint put_pos (p : positive) : string :=
  match p with xO p => String "0"%char (put_pos p) | xI p => String "1"%char (put_pos p) | xH => String "2"%char EmptyString end.
Fixpoint get_pos (s : string) : option (positive * string) :=
  match s with
  | String "0"%char s => '(p, r) ← get_pos s; Some (xO p, r)
  | String "1"%char s => '(p, r) ← get_pos s; Some (xI p, r)
  | String "2"%char s => Some (xH, s)
  | _ => None
  end.
Lemma get_put p r : get_pos (put_pos p +:+ r) = Some (p, r).
Proof. induction p as [p IH|p IH|]; simpl; [by rewrite IH..|done]. Qed.
#[export] Instance bits_bincode {A} `{Countable A} : Bincode A := {|
  bin_ser a := put_pos (encode a);
  bin_de s := '(p, r) ← get_pos s; a ← decode p; Some (a, r) |}.
#[export] Instance bits_laws {A} `{Countable A} valid : BincodeLaws A valid.
Proof. intros a r _. simpl. rewrite get_put. simpl. by rewrite decode_encode. Qed.

(** ** Memory: the next free address *)
Definition round (a n : Z) : Z := if 0 <? a then (n + a - 1) `div` a * a else n.
#[export] Instance counter_bump : Bump := {|
  bump := Z; bump_new := 8;
  alloc_layout ly b := let a := round (l_align ly) b in (a, a + Z.max 0 (l_size ly)) |}.
Lemma round_le a n : n ≤ round a n.
Proof. unfold round. destruct (Z.ltb_spec 0 a) as [Ha|]; [|done]. by destruct (round_up n a Ha) as [_ [? _]]. Qed.
#[export] #[refine] Instance counter_laws : BumpLaws := {| bump_ok b l := Forall (λ x, x.1 + x.2 ≤ b) l |}.
Proof.
  - constructor.
  - simpl. intros b l ly a b' Hl [= <- <-]. pose proof (round_le (l_align ly) b) as Hr. split_and!.
    + constructor; simpl; [lia|]. eapply Forall_impl; [exact Hl|]. intros x Hx. simpl in Hx. lia.
    + eapply Forall_impl; [exact Hl|]. intros x Hx. unfold range_apart. simpl in *. lia.
    + intros Ha. unfold round. apply power_of_two_pow in Ha as (k & Hk & ->). destruct (Z.ltb_spec 0 (2 ^ k)) as [Hp|Hp]; [|lia].
      by destruct (round_up b (2 ^ k) Hp) as [? _].
Defined.

#[export] Instance spec_float_countable : Countable spec_float.
Proof.
  refine (inj_countable' (λ f, match f with
    | S754_zero s => inl (inl s) | S754_infinity s => inl (inr s) | S754_nan => inr (inl tt) | S754_finite s m e => inr (inr (s, m, e)) end)
    (λ x, match x with
    | inl (inl s) => S754_zero s | inl (inr s) => S754_infinity s | inr (inl _) => S754_nan | inr (inr (s, m, e)) => S754_finite s m e end) _).
  by intros [].
Defined.
#[export] Instance Float_countable : Countable Float.
Proof.
  refine (inj_countable' (λ x, match x with FNum f => inl f | FNan s p => inr (s, p) end) (λ x, match x with inl f => FNum f | inr (s, p) => FNan s p end) _).
  by intros [].
Defined.
#[export] Instance scalar_countable : Countable Scalar.
Proof.
  refine (inj_countable' (λ x, match x with SBool b => inl (inl b) | SInt n => inl (inr n) | SFloat f => inr (inl f) | SStr s => inr (inr s) end)
    (λ x, match x with inl (inl b) => SBool b | inl (inr n) => SInt n | inr (inl f) => SFloat f | inr (inr s) => SStr s end) _).
  by intros [].
Defined.
#[export] Instance some_layouts : Layouts := {| scalar_state_layout := mkLayout 16 8; distinct_state_layout := mkLayout 64 8 |}.

(** ** GROUP BY a string *)
Definition length_hash (s : string) : Z := Z.of_nat (String.length s) mod 2 ^ 64.
#[export] Instance string_keyable : HashTableKeyable string := keys_ref_keyable length_hash.
#[export] Instance string_zeroed : Zeroed string := EmptyString.
#[export] Instance string_laws : KeyableLaws string := keys_ref_laws length_hash.
Definition string_state : AggregatorState string (HashedState string) := hashed_state (serialized_entity (λ s, Z.of_nat (String.length s))).
#[export] Existing Instance string_state.
Definition string_state_laws : AggregatorStateLaws string (HashedState string) := hashed_laws _ (serialized_entity_ok _).
#[export] Existing Instance string_state_laws.
#[export] Existing Instance single_string.
#[export] Instance single_string_laws : HashMethodLaws string (λ _, True).
Proof. by split. Qed.

(** SELECT name, count(v), sum(v) ... GROUP BY name, over three blocks in two streams. *)
Definition sample_block (names : list string) (vs : list Z) : DataBlock := [("name"%string, StringColumn names); ("v"%string, PrimitiveColumn vs)].
Definition sample_streams : list (list DataBlock) :=
  [[sample_block ["a"; "b"; "a"]%string [1; 2; 3]; sample_block ["c"]%string [10]]; [sample_block ["b"; "a"]%string [5; 7]]].
Definition sample_group (names : list string) : group := mkGroup "name"%string (mkType T_String false) (StringColumn names) ((Some ∘ SStr) <$> names).
Definition sample_fact (names : list string) (vs : list Z) : vfact :=
  mkVfact (row_vals [sample_group names] <$> seq 0 (length names)) [[PrimitiveColumn vs]; [PrimitiveColumn vs]] (length names).
Definition sample_facts : list (list vfact) :=
  [[sample_fact ["a"; "b"; "a"]%string [1; 2; 3]; sample_fact ["c"]%string [10]]; [sample_fact ["b"; "a"]%string [5; 7]]].
Definition sample_fields : list (string * DataType) := [("name"%string, mkType T_String false)].
Definition sample_calls : list AggCall := [Call NCount; Call (NSum true)].
Abbreviation sample_functions := (factory_get <$> sample_calls).
Abbreviation sample_specs := (call_spec <$> sample_calls).
Definition sample_params (names : list string) : AggregatorParams :=
  mkParams names ["name"%string] sample_functions [["v"]; ["v"]]%string (Some (mkLayout 16 8)) [0; 8].
Definition partial_names : list string := ["s0"; "s1"; "k"]%string.
Definition final_names : list string := ["count"; "sum"; "name"]%string.
Abbreviation state0 := (hashed_create (K:=string)).
(** Running both sides. *)
Definition run_partial (params : AggregatorParams) (blocks : list DataBlock) : res agg_error (option DataBlock) :=
  ((forM blocks (partial_consume params 2) ;;! partial_generate params) (agg_create state0)).1.
Definition run_final (params : AggregatorParams) (blocks : list DataBlock) : res agg_error (option ResultBlock) :=
  ((let! temp := final_create params in forM blocks (final_consume params 2 temp) ;;! final_generate params temp) (agg_create state0)).1.
Example group_by_runs :
  (let? outs := res_mapM (run_partial (sample_params partial_names)) sample_streams in run_final (sample_params final_names) (omap id outs)) =
    Ok (Some (mkResult [[Some (SInt 3); Some (SInt 2); Some (SInt 1)]; [Some (SInt 11); Some (SInt 7); Some (SInt 10)]] [StringColumn ["a"; "b"; "c"]%string])).
Proof. vm_compute. reflexivity. Qed.
(** Lists of the same length, element by element. *)
Ltac each2 := repeat first [apply Forall2_nil_2|apply Forall2_cons_2].
Lemma sample_fact_of params names vs :
  length names = length vs → Forall (λ s, Z.of_nat (String.length s) < 2 ^ 64) names → columns_by_name (sample_block names vs) (group_columns_name params) = Ok [StringColumn names] →
  aggregate_arguments (sample_block names vs) params = Ok [[PrimitiveColumn vs]; [PrimitiveColumn vs]] →
  vfact_of sample_fields true params sample_specs (sample_block names vs) (sample_fact names vs).
Proof.
  intros Hlen Hshort Hg Ha. split; simpl; [|done|done|].
  - exists [sample_group names]. split_and!; [done|done| |by intros _; constructor| |done].
    + constructor; [|done]. split; simpl; [|by rewrite length_fmap]. split; [done|]. split; [|exists KStr; split; [done|]; eexists; split; [done|by rewrite <-list_fmap_compose]].
      apply Forall_fmap. eapply Forall_impl; [exact Hshort|]. intros s Hs s' [= <-]. done.
    + intros g g' ->%list_elem_of_singleton ->%list_elem_of_singleton. done.
  - intros i S HS. destruct i as [|[|[|]]]; try done; injection HS as <-; (eexists; split; [done|]); simpl; rewrite Hlen; (split; [by repeat constructor|]); [|done].
    split; [done|]. unfold full_columns. simpl. rewrite (rows_of_plain SInt _ vs) by done. apply Forall_fmap, Forall_true. done.
Qed.
Lemma state0_ok : st_ok (K:=string) state0 ∅ [].
Proof. apply hashed_create_ok. Qed.
Lemma group_by_correct_example : ∃ outs t w0 r w,
  Forall2 (λ blocks out, ∃ w w', seq_run (partial_processor (sample_params partial_names) 2) (agg_create state0) blocks out w ∧
    drop_states (K:=string) (sample_params partial_names) None w = (Ok tt, w')) sample_streams outs ∧
  final_create (K:=string) (sample_params final_names) (agg_create state0) = (Ok t, w0) ∧
  seq_run (final_processor (K:=string) (sample_params final_names) 2 t) w0 (concat outs) [r] w ∧
  values_result sample_fields sample_functions sample_specs r (concat sample_facts).
Proof.
  destruct (group_by_correct single_string sample_fields true string_code state0 2 sample_calls [["v"]; ["v"]]%string partial_names final_names ["name"%string]
    (sample_params partial_names) (sample_params final_names) sample_streams sample_facts) as (outs & t & w0 & rs & w & Hruns & Hc & Hrun & _ & Hres).
  - apply single_string_code.
  - done.
  - apply state0_ok.
  - done.
  - done.
  - intros [|[|]] c Hc Hrows; simplify_eq/=; done.
  - done.
  - reflexivity.
  - reflexivity.
  - each2; (apply sample_fact_of; [done|repeat constructor|done|done]).
  - vm_compute. reflexivity.
  - rewrite bool_decide_false in Hres by done. destruct Hres as (r & -> & Hr). by exists outs, t, w0, r, w.
Defined.
Lemma layout_offsets_fit_example : slots 0 sample_functions [0; 8] 16.
Proof.
  apply (layout_offsets_fit sample_functions [0; 8] (mkLayout 16 8)); [|reflexivity]. repeat constructor.
Defined.
(** SELECT DISTINCT. *)
Definition key_params (names : list string) : AggregatorParams := mkParams names ["name"%string] [] [] None [].
Lemma distinct_keys_correct_example : ∃ rs w ks cols,
  (∃ outs, seq_run (final_processor (K:=string) (key_params ["name"%string]) 2 None) (agg_create state0) (concat outs) rs w) ∧
  rs = [mkResult [] cols] ∧ group_columns_finish ks = Ok cols ∧ NoDup ks ∧ ∀ k, k ∈ ks ↔ k ∈ ["a"; "b"; "a"; "c"; "b"; "a"]%string.
Proof.
  destruct (distinct_keys_correct state0 2 ["k"%string] ["name"%string] ["name"%string] (key_params ["k"%string]) (key_params ["name"%string]) sample_streams
    [[["a"; "b"; "a"]; ["c"]]; [["b"; "a"]]]%string) as (outs & rs & w & _ & _ & Hr & Hres).
  - apply state0_ok.
  - done.
  - reflexivity.
  - reflexivity.
  - each2; (split; [eexists; split; reflexivity|by apply Forall_true]).
  - vm_compute. reflexivity.
  - by intros ks _ _.
  - rewrite bool_decide_false in Hres by done. destruct Hres as (ks & cols & Hrs & Hcols & Hnd & Hin). exists rs, w, ks, cols. split; [by exists outs|done].
Defined.

(** ** What the functions do in some cases *)
Definition run_group_by (functions : list AggregateFunction) (names : list (list string)) (streams : list (list DataBlock)) : res agg_error (option ResultBlock) :=
  let n := length functions in
  let? pp := params_create (replicate (S n) "c"%string) ["name"%string] functions names in
  let? pf := params_create (replicate (S n) "c"%string) ["name"%string] functions names in
  let? outs := res_mapM (run_partial pp) streams in
  run_final pf (omap id outs).
Definition run_single (functions : list AggregateFunction) (names : list (list string)) (blocks : list DataBlock) : res agg_error (option (list (option Scalar))) :=
  let? params := params_create (replicate (length functions) "c"%string) [] functions names in
  ((let! ' (places, temp) := single_create params in
    forM blocks (single_partial_consume params places) ;;! single_final_generate params places) (agg_create tt)).1.
Definition nullable_block (names : list string) (valid : list bool) (vs : list Z) : DataBlock :=
  [("name"%string, StringColumn names); ("v"%string, NullableColumn valid (PrimitiveColumn vs)); ("p"%string, BooleanColumn valid)].
(** count(v) as the second function adds to the state of the first: sum(v) of 5 and 6 is 13, and count(v) is 0. *)
Example count_not_first :
  run_group_by [sum_function true; count_function] [["v"]; ["v"]]%string [[sample_block ["a"; "a"]%string [5; 6]]] =
    Ok (Some (mkResult [[Some (SInt 13)]; [Some (SInt 0)]] [StringColumn ["a"%string]])).
Proof. vm_compute. reflexivity. Qed.
(** Without GROUP BY, count of a nullable column counts the nulls; with GROUP BY it does not. *)
Example count_nulls :
  run_single [count_function] [["v"%string]] [nullable_block ["a"; "a"]%string [true; false] [5; 0]] = Ok (Some [Some (SInt 2)]) ∧
  run_group_by [count_function] [["v"%string]] [[nullable_block ["a"; "a"]%string [true; false] [5; 0]]] =
    Ok (Some (mkResult [[Some (SInt 1)]] [StringColumn ["a"%string]])).
Proof. split; vm_compute; reflexivity. Qed.
(** Without GROUP BY, min_if takes in the rows where the condition is false. *)
Example min_if_condition :
  run_single [if_combinator 2 (minmax_function KInt CmpMin)] [["w"; "p"]%string]
    [[("w"%string, PrimitiveColumn [5; 1]); ("p"%string, BooleanColumn [true; false])]] = Ok (Some [Some (SInt 1)]).
Proof. vm_compute. reflexivity. Qed.
(** With GROUP BY, min of a nullable column takes in the values stored under the nulls. *)
Example min_under_nulls :
  run_group_by [null_unary_adaptor true (minmax_function KInt CmpMin)] [["v"%string]] [[nullable_block ["a"; "a"]%string [true; false] [5; 0]]] =
    Ok (Some (mkResult [[Some (SInt 0)]] [StringColumn ["a"%string]])).
Proof. vm_compute. reflexivity. Qed.
(** The flag of the temporary state is not cleared: a group of nulls that follows another group gets 0 and not NULL. *)
Example sum_of_nulls :
  run_group_by [null_unary_adaptor true (sum_function true)] [["v"%string]] [[nullable_block ["a"; "b"]%string [true; false] [5; 0]]] =
    Ok (Some (mkResult [[Some (SInt 5); Some (SInt 0)]] [StringColumn ["a"; "b"]%string])) ∧
  run_group_by [null_unary_adaptor true (sum_function true)] [["v"%string]] [[nullable_block ["b"]%string [false] [0]]] =
    Ok (Some (mkResult [[None]] [StringColumn ["b"%string]])).
Proof. split; vm_compute; reflexivity. Qed.

(** ** Keys *)
Definition pair_fields : list (string * DataType) := [("a"%string, mkType T_UInt8 true); ("b"%string, mkType T_UInt16 false)].
Lemma hash_method_codes_example : fixed_method 4 pair_fields.
Proof.
  destruct (hash_method_codes pair_fields) as (m & Hm & H); [repeat constructor; by eexists|]. vm_compute in Hm. injection Hm as <-. exact H.
Defined.
(** GROUP BY a, b with a nullable byte and a constant: the larger column comes first in the key, the null flag last. *)
Definition pair_columns : list Column := [NullableColumn [true; false; true] (PrimitiveColumn [7; 0; 7]); ConstColumn (PrimitiveColumn [258]) 3].
Example pair_keys : fixed_build_keys 4 pair_fields.*2 pair_columns 3 = Ok [0x00070102; 0x01000102; 0x00070102].
Proof. vm_compute. reflexivity. Qed.
Example pair_groups : deserialize_group_columns 4 [0x00070102; 0x01000102] pair_fields = Ok [NullableColumn [true; false] (PrimitiveColumn [7; 0]); PrimitiveColumn [258; 258]].
Proof. vm_compute. reflexivity. Qed.
(** The same columns with a key of two bytes: the null flag would be outside of the key. *)
Example pair_keys_short : fixed_build_keys 2 pair_fields.*2 pair_columns 3 = Panic.
Proof. vm_compute. reflexivity. Qed.
(** A constant column of strings is an error, unlike one of numbers. *)
Example constant_string_group : build_keys (HashMethod:=single_string) [ConstColumn (StringColumn ["a"%string]) 2] 2 = Err UnknownColumn.
Proof. vm_compute. reflexivity. Qed.
