(* ===== verification/Port.v ===== *)
(** * Ports between processors (src/query/src/pipelines/new/processors/port.rs).

    A connected pair of ports shares one word: the address of a block on its way, with three
    flags in the low bits.  The processors at both ends run on different threads; a call that
    writes is a loop of weak compare-and-exchange, a call that reads is a relaxed load.

    Memory is the sequence of all values the word has had.  A thread has seen a place of that
    sequence and reads there or later; an exchange succeeds only at the end of the sequence.
    The loops are cut into their accesses to the word, and these interleave in any order.

    The specification of a port is a block in its slot and two flags.  Calls that write take
    effect at once, on the current state; calls that only read answer from some state not
    before the last one the caller has seen.  [port_linearizable]: the loops refine this,
    however the threads interleave. *)
From S2P Require Import Prelude.
#[local] Open Scope Z_scope.

(** ** The word *)
Definition HAS_DATA : Z := 1.
Definition NEED_DATA : Z := 2.
Definition IS_FINISHED : Z := 4.
Definition FLAGS_MASK : Z := 7.
Definition usize_not (z : Z) : Z := 2 ^ 64 - 1 - z.
Definition UNSET_FLAGS_MASK : Z := usize_not FLAGS_MASK.

(** ** SharedStatus *)
Inductive status_call := Swap (data set_flags unset_flags : Z) | SetFlags (set_flags unset_flags : Z) | GetFlags.
Definition loops (c : status_call) : bool := match c with GetFlags => false | _ => true end.
(** The first round of a loop: the word is expected to be null. *)
Definition first_desired (c : status_call) : Z :=
  match c with
  | Swap data set_flags _ => Z.lor data set_flags
  | SetFlags set_flags _ => set_flags
  | GetFlags => 0
  end.
(** The next round, after an exchange that failed and found [address]. *)
Definition next_desired (c : status_call) (desired address : Z) : Z :=
  match c with
  | Swap _ set_flags unset_flags =>
      let desired_data := Z.land desired UNSET_FLAGS_MASK in
      let desired_flags := Z.lor (Z.land (Z.land address FLAGS_MASK) (usize_not unset_flags)) set_flags in
      Z.lor desired_data desired_flags
  | SetFlags set_flags unset_flags =>
      let desired_data := Z.land address UNSET_FLAGS_MASK in
      let desired_flags := Z.lor (Z.land (Z.land address FLAGS_MASK) (usize_not unset_flags)) set_flags in
      Z.lor desired_data desired_flags
  | GetFlags => desired
  end.
(** What a call returns, from the value it exchanged or loaded. *)
Definition status_value (c : status_call) (old_value : Z) : Z :=
  match c with
  | Swap _ _ _ => Z.land old_value UNSET_FLAGS_MASK
  | SetFlags _ _ | GetFlags => Z.land old_value FLAGS_MASK
  end.

(** ** InputPort and OutputPort *)
Inductive port_call (B : Type) :=
  | PushData (data : B) | PullData | Finish | SetNeedData | SetNotNeedData | HasData | IsFinished | CanPush.
Arguments PushData {B} data. Arguments PullData {B}. Arguments Finish {B}. Arguments SetNeedData {B}.
Arguments SetNotNeedData {B}. Arguments HasData {B}. Arguments IsFinished {B}. Arguments CanPush {B}.
(** For [Finish] and [SetNeedData]: whether the flag was not set before, which triggers the edge. *)
Inductive answer (B : Type) := AUnit | ABool (b : bool) | ABlock (data : option B) | ADangling.
Arguments AUnit {B}. Arguments ABool {B} b. Arguments ABlock {B} data. Arguments ADangling {B}.

Section port.
Context {B : Type}.
Abbreviation call := (port_call B).
Abbreviation ans := (answer B).
Implicit Types (c : call) (t : nat).

Definition shared_call c (box : Z) : status_call :=
  match c with
  | PushData _ => Swap box HAS_DATA HAS_DATA
  | PullData => Swap 0 0 (Z.lor HAS_DATA NEED_DATA)
  | Finish => SetFlags IS_FINISHED IS_FINISHED
  | SetNeedData => SetFlags NEED_DATA NEED_DATA
  | SetNotNeedData => SetFlags 0 NEED_DATA
  | HasData | IsFinished | CanPush => GetFlags
  end.
(** The rest of a call, with the boxes on the heap; [ADangling] is a pointer to no box. *)
Definition port_return c (v : Z) (boxes : gmap Z B) : ans * gmap Z B :=
  match c with
  | PushData _ | SetNotNeedData => (AUnit, boxes)
  | PullData =>
      if v =? 0 then (ABlock None, boxes)
      else match boxes !! v with Some data => (ABlock (Some data), delete v boxes) | None => (ADangling, boxes) end
  | Finish => (ABool (Z.land v IS_FINISHED =? 0), boxes)
  | SetNeedData => (ABool (Z.land v NEED_DATA =? 0), boxes)
  | HasData => (ABool (negb (Z.land v HAS_DATA =? 0)), boxes)
  | IsFinished => (ABool (Z.land v IS_FINISHED =? IS_FINISHED), boxes)
  | CanPush => (ABool ((Z.land v NEED_DATA =? NEED_DATA) && (Z.land v HAS_DATA =? 0)), boxes)
  end.

(** ** Threads on one word *)
Record frame := mkFrame { f_call : call; f_box : Z; f_expected : Z; f_desired : Z }.
Record shared := mkShared { order : list Z; seen : gmap nat nat; boxes : gmap Z B; running : gmap nat frame }.
Definition view (seen : gmap nat nat) t : nat := default 0%nat (seen !! t).
(** [SharedStatus::create]. *)
Definition shared_create : shared := mkShared [0] ∅ ∅ ∅.
(** [Box::new] allocates at a free address; [SharedData] is aligned to 8 bytes. *)
Definition fresh_box (box : Z) (bs : gmap Z B) : Prop := 0 < box < 2 ^ 64 ∧ box `mod` 8 = 0 ∧ bs !! box = None.
Definition boxed c (box : Z) (bs bs' : gmap Z B) : Prop :=
  match c with PushData data => fresh_box box bs ∧ bs' = <[box := data]> bs | _ => box = 0 ∧ bs' = bs end.
(** One access to the word by one thread; a call that ends gives its answer. *)
Inductive port_step : shared → option (nat * call * ans) → shared → Prop :=
  | step_call o sn bs bs' fs t c box :
      fs !! t = None → boxed c box bs bs' →
      port_step (mkShared o sn bs fs) None (mkShared o sn bs' (<[t := mkFrame c box 0 (first_desired (shared_call c box))]> fs))
  | step_retry o sn bs fs t c box expected desired i address :
      fs !! t = Some (mkFrame c box expected desired) → loops (shared_call c box) = true →
      (view sn t ≤ i)%nat → o !! i = Some address →
      port_step (mkShared o sn bs fs) None
        (mkShared o (<[t := i]> sn) bs (<[t := mkFrame c box address (next_desired (shared_call c box) desired address)]> fs))
  | step_exchange o sn bs bs' fs t c box expected desired a :
      fs !! t = Some (mkFrame c box expected desired) → loops (shared_call c box) = true →
      last o = Some expected → port_return c (status_value (shared_call c box) expected) bs = (a, bs') →
      port_step (mkShared o sn bs fs) (Some (t, c, a)) (mkShared (o ++ [desired]) (<[t := length o]> sn) bs' (delete t fs))
  | step_load o sn bs bs' fs t c box expected desired i address a :
      fs !! t = Some (mkFrame c box expected desired) → loops (shared_call c box) = false →
      (view sn t ≤ i)%nat → o !! i = Some address → port_return c (status_value (shared_call c box) address) bs = (a, bs') →
      port_step (mkShared o sn bs fs) (Some (t, c, a)) (mkShared o (<[t := i]> sn) bs' (delete t fs)).
(** Runs, with the calls that ended in their order. *)
Inductive port_steps : shared → list (nat * call * ans) → shared → Prop :=
  | steps_nil s : port_steps s [] s
  | steps_snoc s tr s1 l s2 : port_steps s tr s1 → port_step s1 l s2 → port_steps s (tr ++ option_list l) s2.
End port.
Arguments shared : clear implicits.
Arguments frame : clear implicits.

(** ** Words and flags *)
Lemma low_bits a f : 0 ≤ a < 2 ^ 64 → a `mod` 8 = 0 → 0 ≤ f < 8 →
  Z.lor a f = a + f ∧ Z.land (a + f) FLAGS_MASK = f ∧ Z.land (a + f) UNSET_FLAGS_MASK = a.
Proof.
  intros Ha Hm Hf. assert (Z.land a f = 0) as Hd.
  { apply Z.bits_inj'. intros n Hn. rewrite Z.land_spec, Z.bits_0. destruct (Z.lt_ge_cases n 3) as [Hlt|Hge].
    - rewrite <- (Z.mod_pow2_bits_low a 3 n) by lia. change (2 ^ 3) with 8. by rewrite Hm, Z.bits_0.
    - rewrite <- (Z.mod_small f 8), Z.mod_pow2_bits_high with (n := 3) by lia. by rewrite andb_false_r. }
  assert (Z.lor a f = a + f) as Hor by (pose proof (Z.add_lor_land a f); lia).
  split; [done|]. change FLAGS_MASK with (Z.ones 3). rewrite Z.land_ones by lia. change (2 ^ 3) with 8. split.
  - rewrite Z.add_mod, Hm, Z.add_0_l, Z.mod_mod by lia. by apply Z.mod_small.
  - assert (UNSET_FLAGS_MASK = Z.ldiff (Z.ones 64) (Z.ones 3)) as -> by reflexivity. rewrite <- Hor. apply Z.bits_inj'. intros n Hn.
    rewrite Z.land_spec, Z.ldiff_spec, Z.lor_spec, !Z.testbit_ones_nonneg by lia.
    destruct (Z.lt_ge_cases n 3) as [Hlt|Hge].
    + replace (n <? 3) with true by (symmetry; by apply Z.ltb_lt). rewrite !andb_false_r. rewrite <- (Z.mod_pow2_bits_low a 3 n) by lia. change (2 ^ 3) with 8. by rewrite Hm, Z.bits_0.
    + replace (n <? 3) with false by (symmetry; by apply Z.ltb_ge). rewrite andb_true_r. replace (Z.testbit f n) with false.
      * rewrite orb_false_r. destruct (Z.lt_ge_cases n 64) as [Hl|Hg]; [replace (n <? 64) with true by (symmetry; by apply Z.ltb_lt); by rewrite andb_true_r|].
        rewrite <- (Z.mod_small a (2 ^ 64)), Z.mod_pow2_bits_high by lia. done.
      * symmetry. rewrite <- (Z.mod_small f 8) by lia. change 8 with (2 ^ 3). apply Z.mod_pow2_bits_high. lia.
Qed.

Section port_spec.
Context {B : Type}.
Abbreviation call := (port_call B).
Abbreviation ans := (answer B).
Implicit Types (c : call) (t : nat).

(** ** Specification *)
Record port_state := mkPort { slot : option B; need : bool; fin : bool }.
Definition port_empty : port_state := mkPort None false false.
Definition has (s : port_state) : bool := bool_decide (is_Some (slot s)).
Definition writes c : bool := match c with HasData | IsFinished | CanPush => false | _ => true end.
Definition port_write c (s : port_state) : ans * port_state :=
  match c with
  | PushData data => (AUnit, mkPort (Some data) (need s) (fin s))
  | PullData => (ABlock (slot s), mkPort None false (fin s))
  | Finish => (ABool (negb (fin s)), mkPort (slot s) (need s) true)
  | SetNeedData => (ABool (negb (need s)), mkPort (slot s) true (fin s))
  | SetNotNeedData => (AUnit, mkPort (slot s) false (fin s))
  | _ => (AUnit, s)
  end.
Definition port_read c (s : port_state) : ans :=
  match c with
  | HasData => ABool (has s)
  | IsFinished => ABool (fin s)
  | CanPush => ABool (need s && negb (has s))
  | _ => AUnit
  end.
Record port_hist := mkHist { hist : list port_state; views : gmap nat nat }.
Definition hist_create : port_hist := mkHist [port_empty] ∅.
Inductive spec_step : port_hist → nat * call * ans → port_hist → Prop :=
  | spec_write h vs t c s a s' :
      writes c = true → last h = Some s → port_write c s = (a, s') →
      spec_step (mkHist h vs) (t, c, a) (mkHist (h ++ [s']) (<[t := length h]> vs))
  | spec_read h vs t c i s :
      writes c = false → (view vs t ≤ i)%nat → h !! i = Some s →
      spec_step (mkHist h vs) (t, c, port_read c s) (mkHist h (<[t := i]> vs)).
Inductive spec_steps : port_hist → list (nat * call * ans) → port_hist → Prop :=
  | spec_nil s : spec_steps s [] s
  | spec_snoc s tr s1 l s2 : spec_steps s tr s1 → spec_step s1 l s2 → spec_steps s (tr ++ [l]) s2.

(** ** The words of a state *)
Definition flags (s : port_state) : Z := Z.b2z (has s) * HAS_DATA + Z.b2z (need s) * NEED_DATA + Z.b2z (fin s) * IS_FINISHED.
Definition aligned (a : Z) : Prop := 0 ≤ a < 2 ^ 64 ∧ a `mod` 8 = 0.
(** A word of the past: only its flags matter. *)
Definition past_word (w : Z) (s : port_state) : Prop := ∃ a, aligned a ∧ w = a + flags s.
(** The current word: its address is that of the box in the slot. *)
Definition word_is (bs : gmap Z B) (w : Z) (s : port_state) : Prop :=
  ∃ a, aligned a ∧ w = a + flags s ∧ (a = 0 ↔ slot s = None) ∧ ∀ data, slot s = Some data → bs !! a = Some data.
Lemma flags_range s : 0 ≤ flags s < 8.
Proof. unfold flags, HAS_DATA, NEED_DATA, IS_FINISHED. destruct (has s), (need s), (fin s); simpl; lia. Qed.
Lemma word_flags a s : aligned a → Z.land (a + flags s) FLAGS_MASK = flags s.
Proof. intros [Ha Hm]. by apply low_bits, flags_range. Qed.
Lemma word_address a s : aligned a → Z.land (a + flags s) UNSET_FLAGS_MASK = a.
Proof. intros [Ha Hm]. by apply low_bits, flags_range. Qed.
Lemma word_or a s : aligned a → Z.lor a (flags s) = a + flags s.
Proof. intros [Ha Hm]. by apply low_bits, flags_range. Qed.

(** ** The value a loop is about to write *)
Definition target c (box a : Z) : Z := match c with PushData _ => box | PullData => 0 | _ => a end.
Definition swaps c : bool := match c with PushData _ | PullData => true | _ => false end.
Definition desired_ok c (box expected desired : Z) : Prop :=
  (swaps c = true → ∃ f, 0 ≤ f < 8 ∧ desired = target c box 0 + f) ∧
  ∀ a s, aligned a → expected = a + flags s → desired = target c box a + flags (port_write c s).2.
Definition box_of c (box : Z) : Prop := match c with PushData _ => aligned box | _ => box = 0 end.
Lemma aligned_0 : aligned 0.
Proof. by split. Qed.
Lemma aligned_target c box a : box_of c box → aligned a → aligned (target c box a).
Proof. destruct c; simpl; auto using aligned_0. Qed.
(** The flags that a round of a loop computes. *)
Definition next_flags (f set_flags unset_flags : Z) : Z := Z.lor (Z.land f (usize_not unset_flags)) set_flags.
Lemma next_flags_ok c box s : writes c = true →
  match shared_call c box with
  | Swap _ u v | SetFlags u v => next_flags (flags s) u v = flags (port_write c s).2
  | GetFlags => False
  end.
Proof. destruct c; try done; intros _; unfold flags; destruct s as [[data'|] [] []]; reflexivity. Qed.
Lemma first_ok c box : writes c = true → box_of c box → desired_ok c box 0 (first_desired (shared_call c box)).
Proof.
  intros Hw Hb. assert (∀ s, flags s = 0 → first_desired (shared_call c box) = target c box 0 + flags (port_write c s).2) as Hfirst.
  { intros s Hs. pose proof (next_flags_ok c box s Hw) as Hn. rewrite Hs in Hn. unfold next_flags in Hn.
    rewrite <- (word_or (target c box 0)) by (by apply aligned_target, aligned_0). destruct c; try done; cbn [shared_call first_desired target] in *; by rewrite <- Hn, ?Z.land_0_l, ?Z.lor_0_l. }
  split.
  - intros _. exists (flags (port_write c port_empty).2). split; [apply flags_range|]. by apply Hfirst.
  - intros a s Ha He. pose proof (flags_range s). destruct Ha as [Ha Hm]. assert (a = 0) as -> by lia. apply Hfirst. lia.
Qed.
Lemma next_ok c box e d w : writes c = true → box_of c box → (∃ s, past_word w s) → desired_ok c box e d → desired_ok c box w (next_desired (shared_call c box) d w).
Proof.
  intros Hw Hb Hpast [Hd _]. assert (∀ a s, aligned a → w = a + flags s → next_desired (shared_call c box) d w = target c box a + flags (port_write c s).2) as Hnext.
  { intros a s Ha ->. rewrite <- (word_or (target c box a)) by (by apply aligned_target). pose proof (next_flags_ok c box s Hw) as Hn.
    destruct c; try done; simpl in *; unfold next_flags in Hn; rewrite ?word_flags, ?word_address, Hn by done; try done.
    all: destruct (Hd eq_refl) as (f & Hf & ->); f_equal; apply low_bits; try done; apply Hb || apply aligned_0. }
  split; [|done]. intros Hs. destruct Hpast as (s & a & Ha & He). rewrite (Hnext _ _ Ha He). eexists. split; [apply flags_range|]. by destruct c.
Qed.

(** ** Simulation *)
Record frame_ok (bs : gmap Z B) (w : Z) (f : frame B) : Prop := {
  fo_box : box_of (f_call f) (f_box f);
  fo_desired : writes (f_call f) = true → desired_ok (f_call f) (f_box f) (f_expected f) (f_desired f);
  fo_data data : f_call f = PushData data → 0 < f_box f ∧ bs !! f_box f = Some data ∧ f_box f ≠ Z.land w UNSET_FLAGS_MASK;
}.
Definition apart (fs : gmap nat (frame B)) : Prop :=
  ∀ t t' f f' data data', t ≠ t' → fs !! t = Some f → fs !! t' = Some f' → f_call f = PushData data → f_call f' = PushData data' → f_box f ≠ f_box f'.
Record sim (s : shared B) (p : port_hist) : Prop := {
  sim_past : Forall2 past_word (order s) (hist p);
  sim_now : ∃ w st, last (order s) = Some w ∧ last (hist p) = Some st ∧ word_is (boxes s) w st;
  sim_view t : (view (views p) t ≤ view (seen s) t)%nat;
  sim_frames t f w : running s !! t = Some f → last (order s) = Some w → frame_ok (boxes s) w f;
  sim_apart : apart (running s);
}.
Lemma loops_writes c box : loops (shared_call c box) = writes c.
Proof. by destruct c. Qed.
Lemma view_insert (sn : gmap nat nat) t i t' : view (<[t := i]> sn) t' = if decide (t = t') then i else view sn t'.
Proof. unfold view. rewrite lookup_insert. by destruct (decide (t = t')). Qed.
Lemma sim_create : sim shared_create hist_create.
Proof.
  assert (past_word 0 port_empty) as H0 by (exists 0; split; [apply aligned_0|done]).
  split; simpl; [by repeat constructor| |done|done|done]. exists 0, port_empty. split; [done|]. split; [done|]. exists 0. split; [apply aligned_0|]. by split_and!.
Qed.
Lemma word_past bs w s : word_is bs w s → past_word w s.
Proof. intros (a & Ha & Hw & _). by exists a. Qed.
Lemma word_land bs w s : word_is bs w s → Z.land w UNSET_FLAGS_MASK = 0 ↔ slot s = None.
Proof. intros (a & Ha & -> & Hz & _). by rewrite word_address. Qed.
Lemma word_box bs w s data : word_is bs w s → slot s = Some data → bs !! Z.land w UNSET_FLAGS_MASK = Some data.
Proof. intros (a & Ha & -> & _ & Hd) Hs. rewrite word_address by done. by apply Hd. Qed.
(** A box that is not the one of the word can come or go. *)
Lemma word_heap bs bs' w s : word_is bs w s → (∀ data, slot s = Some data → bs' !! Z.land w UNSET_FLAGS_MASK = bs !! Z.land w UNSET_FLAGS_MASK) → word_is bs' w s.
Proof. intros (a & Ha & -> & Hz & Hd) Hb. rewrite word_address in Hb by done. exists a. split; [done|]. split; [done|]. split; [done|]. intros data Hs. rewrite (Hb data) by done. by apply Hd. Qed.
Lemma sim_call o sn bs bs' fs p t c box : sim (mkShared o sn bs fs) p → fs !! t = None → boxed c box bs bs' →
  sim (mkShared o sn bs' (<[t := mkFrame c box 0 (first_desired (shared_call c box))]> fs)) p.
Proof.
  intros [Hp (w & st & Hw & Hst & Hnow) Hv Hf Ha] Ht Hb. simpl in *.
  assert (∀ x data, bs !! x = Some data → bs' !! x = Some data ∧ (∀ d, c = PushData d → x ≠ box)) as Hold.
  { intros x data Hx. destruct c; simpl in Hb; try (destruct Hb as [_ ->]; done). destruct Hb as [(Hr & _ & Hn) ->].
    assert (x ≠ box) by congruence. by rewrite lookup_insert_ne. }
  split; simpl; try done.
  - exists w, st. split; [done|]. split; [done|]. eapply word_heap; [done|]. intros data Hs. pose proof (word_box _ _ _ _ Hnow Hs) as Hx. destruct (Hold _ _ Hx) as [-> _]. by rewrite Hx.
  - intros t' f w' Ht' Hw'. simplify_eq. destruct (decide (t = t')) as [<-|Hne].
    + rewrite lookup_insert_eq in Ht'. simplify_eq. assert (box_of c box) as Hbox.
      { destruct c; simpl in *; try apply Hb. destruct Hb as [(? & ? & _) _]. split; [lia|done]. }
      split; simpl; [done|intros; by apply first_ok|]. intros data ->. simpl in Hb. destruct Hb as [(? & _ & Hn) ->]. split; [lia|]. split; [by rewrite lookup_insert_eq|].
      destruct (slot st) as [d|] eqn:Hs; [intros Hbox'; rewrite Hbox', (word_box _ _ _ _ Hnow Hs) in Hn; done|]. apply (word_land _ _ _ Hnow) in Hs. lia.
    + rewrite lookup_insert_ne in Ht' by done. destruct (Hf _ _ _ Ht' Hw) as [F1 F2 F3]. split; [done|done|]. intros data Hc. destruct (F3 _ Hc) as (? & Hx & ?). split; [done|]. by destruct (Hold _ _ Hx) as [-> _].
  - intros t1 t2 f1 f2 d1 d2 Hne H1 H2 C1 C2. destruct (decide (t = t1)) as [<-|N1], (decide (t = t2)) as [<-|N2]; try done.
    + rewrite lookup_insert_eq in H1. rewrite lookup_insert_ne in H2 by done. simplify_eq/=. destruct (Hf _ _ _ H2 Hw) as [_ _ F]. destruct (F _ C2) as (_ & Hx & _). destruct (Hold _ _ Hx) as [_ Hn]. apply not_eq_sym. by eapply Hn.
    + rewrite lookup_insert_eq in H2. rewrite lookup_insert_ne in H1 by done. simplify_eq/=. destruct (Hf _ _ _ H1 Hw) as [_ _ F]. destruct (F _ C1) as (_ & Hx & _). destruct (Hold _ _ Hx) as [_ Hn]. by eapply Hn.
    + rewrite lookup_insert_ne in H1, H2 by done. exact (Ha _ _ _ _ _ _ Hne H1 H2 C1 C2).
Qed.

Lemma sim_retry o sn bs fs p t c box e d i w : sim (mkShared o sn bs fs) p → fs !! t = Some (mkFrame c box e d) →
  writes c = true → (view sn t ≤ i)%nat → o !! i = Some w →
  sim (mkShared o (<[t := i]> sn) bs (<[t := mkFrame c box w (next_desired (shared_call c box) d w)]> fs)) p.
Proof.
  intros [Hp Hnow Hv Hf Ha] Ht Hc Hi Ho. simpl in *. split; simpl; try done.
  - intros t'. rewrite view_insert. specialize (Hv t'). case_decide; subst; lia.
  - intros t' f w' Ht' Hw'. destruct (decide (t = t')) as [<-|Hne]; [|rewrite lookup_insert_ne in Ht' by done; eauto].
    rewrite lookup_insert_eq in Ht'. simplify_eq. destruct (Hf _ _ _ Ht Hw') as [F1 F2 F3]. simpl in *. split; [done| |done].
    intros _. eapply next_ok; [done|done| |by apply F2]. destruct (Forall2_lookup_l _ _ _ _ _ Hp Ho) as (s & _ & Hs). by exists s.
  - intros t1 t2 f1 f2 d1 d2 Hne H1 H2 C1 C2. destruct (decide (t = t1)) as [<-|N1], (decide (t = t2)) as [<-|N2]; try done.
    + rewrite lookup_insert_eq in H1. rewrite lookup_insert_ne in H2 by done. simplify_eq/=. exact (Ha _ _ _ _ _ _ Hne Ht H2 eq_refl C2).
    + rewrite lookup_insert_eq in H2. rewrite lookup_insert_ne in H1 by done. simplify_eq/=. exact (Ha _ _ _ _ _ _ Hne H1 Ht C1 eq_refl).
    + rewrite lookup_insert_ne in H1, H2 by done. exact (Ha _ _ _ _ _ _ Hne H1 H2 C1 C2).
Qed.
Lemma read_return c s w bs : writes c = false → past_word w s → port_return c (status_value (shared_call c 0) w) bs = (port_read c s, bs).
Proof.
  intros Hc (a & Ha & ->). destruct c; try done; unfold port_return, status_value, shared_call; rewrite word_flags by done; unfold flags; destruct s as [[x|] [] []]; reflexivity.
Qed.
Lemma apart_delete fs t : apart fs → apart (delete t fs).
Proof. intros Ha t1 t2 f1 f2 d1 d2 Hne [_ H1]%lookup_delete_Some [_ H2]%lookup_delete_Some C1 C2. exact (Ha _ _ _ _ _ _ Hne H1 H2 C1 C2). Qed.
Lemma sim_load o sn bs bs' fs p t c box e d i w a : sim (mkShared o sn bs fs) p → fs !! t = Some (mkFrame c box e d) →
  writes c = false → (view sn t ≤ i)%nat → o !! i = Some w → port_return c (status_value (shared_call c box) w) bs = (a, bs') →
  ∃ p', spec_step p (t, c, a) p' ∧ sim (mkShared o (<[t := i]> sn) bs' (delete t fs)) p'.
Proof.
  intros [Hp Hnow Hv Hf Ha] Ht Hc Hi Ho Hr. destruct p as [h vs]. simpl in *. destruct (Forall2_lookup_l _ _ _ _ _ Hp Ho) as (s & Hs & Hw).
  replace (shared_call c box) with (shared_call c 0) in Hr by (by destruct c). rewrite (read_return c s) in Hr by done. simplify_eq.
  eexists. split; [eapply spec_read; [done| |done]; specialize (Hv t); lia|]. split; simpl; try done.
  - intros t'. rewrite !view_insert. by case_decide.
  - intros t' f w' [_ Ht']%lookup_delete_Some Hw'. eauto.
  - by apply apart_delete.
Qed.

(** The boxes after a call: the one of a block that was pulled is gone. *)
Definition boxes_after c (w : Z) (bs : gmap Z B) : gmap Z B := match c with PullData => delete (Z.land w UNSET_FLAGS_MASK) bs | _ => bs end.
Lemma write_return c box s w bs bs' a : writes c = true → word_is bs w s → port_return c (status_value (shared_call c box) w) bs = (a, bs') →
  a = (port_write c s).1 ∧ ∀ x, x ≠ 0 → bs' !! x = boxes_after c w bs !! x.
Proof.
  intros Hc Hw. pose proof (word_land _ _ _ Hw) as Hz. pose proof (λ data, word_box _ _ _ data Hw) as Hb. destruct Hw as (a' & Ha & -> & _).
  destruct c; try done; unfold port_return, status_value, shared_call.
  - by intros [= <- <-].
  - destruct (Z.eqb_spec (Z.land (a' + flags s) UNSET_FLAGS_MASK) 0) as [E|E].
    + intros [= <- <-]. split; [simpl; by rewrite (proj1 Hz E)|]. intros x Hx. simpl. rewrite E. by rewrite lookup_delete_ne.
    + destruct (slot s) as [data|] eqn:Hs; [|by rewrite Hz in E]. rewrite (Hb data) by done. intros [= <- <-]. split; [by simpl; rewrite Hs|done].
  - rewrite word_flags by done. intros [= <- <-]. split; [|done]. unfold flags. by destruct s as [[x|] [] []].
  - rewrite word_flags by done. intros [= <- <-]. split; [|done]. unfold flags. by destruct s as [[x|] [] []].
  - by intros [= <- <-].
Qed.
Lemma word_write c box s w d bs bs' : writes c = true → word_is bs w s → box_of c box → d = target c box (Z.land w UNSET_FLAGS_MASK) + flags (port_write c s).2 →
  (∀ data, c = PushData data → 0 < box ∧ bs !! box = Some data) → (∀ x, x ≠ 0 → bs' !! x = boxes_after c w bs !! x) → word_is bs' d (port_write c s).2.
Proof.
  intros Hc Hw Hbox Hd Hpush Hbs. pose proof (word_land _ _ _ Hw) as Hz. pose proof (λ data, word_box _ _ _ data Hw) as Hb. destruct Hw as (a & Ha & -> & _).
  rewrite word_address in * by done. exists (target c box a). split; [by apply aligned_target|]. split; [done|].
  destruct c; try done; simpl in *; try (split; [done|]; intros data Hs; rewrite Hbs; [by apply Hb|]; intros ->; by rewrite (proj1 Hz eq_refl) in Hs).
  destruct (Hpush _ eq_refl) as [Hpos Hx]. split; [split; [lia|done]|]. intros data' [= <-]. rewrite Hbs by lia. done.
Qed.
Lemma sim_exchange o sn bs bs' fs p t c box e d a : sim (mkShared o sn bs fs) p → fs !! t = Some (mkFrame c box e d) →
  writes c = true → last o = Some e → port_return c (status_value (shared_call c box) e) bs = (a, bs') →
  ∃ p', spec_step p (t, c, a) p' ∧ sim (mkShared (o ++ [d]) (<[t := length o]> sn) bs' (delete t fs)) p'.
Proof.
  intros [Hp (w & st & Hw & Hst & Hnow) Hv Hf Ha] Ht Hc Hl Hr. destruct p as [h vs]. simpl in *. assert (w = e) as -> by congruence. destruct (write_return c box st e bs bs' a Hc Hnow Hr) as [-> Hbs].
  destruct (Hf _ _ _ Ht Hw) as [F1 F2 F3]. simpl in *. destruct (F2 Hc) as [_ Hd].
  assert (d = target c box (Z.land e UNSET_FLAGS_MASK) + flags (port_write c st).2) as Hd'.
  { destruct Hnow as (a0 & Ha0 & -> & _). rewrite word_address by done. by apply Hd. }
  assert (word_is bs' d (port_write c st).2) as Hnew.
  { eapply word_write; try done. intros data ->. destruct (F3 _ eq_refl) as (? & ? & _). done. }
  eexists. split; [by eapply spec_write; [| |apply surjective_pairing]|]. split; simpl.
  - apply Forall2_app; [done|]. constructor; [|done]. by eapply word_past.
  - exists d, (port_write c st).2. by rewrite !last_snoc.
  - intros t'. rewrite !view_insert, (Forall2_length _ _ _ Hp). case_decide; [done|apply Hv].
  - intros t' f w' [Hne Ht']%lookup_delete_Some Hw'. rewrite last_snoc in Hw'. simplify_eq. destruct (Hf _ _ _ Ht' Hw) as [G1 G2 G3]. split; [done|done|].
    intros data Hfc. destruct (G3 _ Hfc) as (Hpos & Hx & Hnot). split; [done|]. split.
    + rewrite Hbs by lia. destruct c; try done. simpl. by rewrite lookup_delete_ne.
    + replace (Z.land _ UNSET_FLAGS_MASK) with (target c box (Z.land e UNSET_FLAGS_MASK)).
      * destruct c; try done; simpl; [|lia]. apply not_eq_sym. exact (Ha _ _ _ _ _ _ Hne Ht Ht' eq_refl Hfc).
      * rewrite word_address; [done|]. apply aligned_target; [done|]. destruct Hnow as (a0 & Ha0 & -> & _). by rewrite word_address.
  - by apply apart_delete.
Qed.

Lemma sim_step s l s' p : port_step s l s' → sim s p → ∃ p', match l with Some l => spec_step p l p' | None => p' = p end ∧ sim s' p'.
Proof.
  intros Hstep Hs. destruct Hstep; rewrite ?loops_writes in *.
  - exists p. split; [done|]. by eapply sim_call.
  - exists p. split; [done|]. by eapply sim_retry.
  - by eapply sim_exchange.
  - by eapply sim_load.
Qed.
(** C16: the calls of any number of threads on a connected pair of ports, cut into their accesses to the shared word and
    interleaved in any order, with exchanges that fail and loads that return old values, answer as the calls of an atomic
    port executed one at a time in the order in which they end: no block is read from a dangling pointer, a call that
    writes acts on the current state, and a call that reads answers from a state not older than what the caller has seen.
    When all calls have ended, the word stands for the state of that port. *)
Theorem port_linearizable tr s : port_steps shared_create tr s →
  ∃ p, spec_steps hist_create tr p ∧
    ∃ w st, last (order s) = Some w ∧ last (hist p) = Some st ∧ word_is (boxes s) w st.
Proof.
  intros Hrun. assert (∃ p, spec_steps hist_create tr p ∧ sim s p) as (p & Hp & Hs); [|exists p; split; [done|]; apply Hs].
  remember shared_create as s0 eqn:E. induction Hrun as [|s0' tr s1 l s2 _ IH Hstep]; subst; [exists hist_create; split; [constructor|apply sim_create]|].
  destruct (IH eq_refl) as (p & Hp & Hs). destruct (sim_step _ _ _ _ Hstep Hs) as (p' & Hp' & Hs').
  exists p'. split; [|done]. destruct l as [l|]; simpl; [by eapply spec_snoc|]. by rewrite app_nil_r, Hp'.
Qed.
End port_spec.
Arguments port_state : clear implicits.
Arguments port_hist : clear implicits.
