(* ===== verification/Pipeline.v ===== *)
(** * Processors of a pipeline (src/query/src/pipelines/new/processors).

    What a processor does when the executor asks for its event is a program of calls on its
    ports; it is kept as a tree, so that the calls of different processors can interleave.
    Between two events a processor may be asked to work ([process]).  A pipeline is a set of
    nodes that are connected by ports.

    Nodes run at the same time and interleave at every access to a port.  The executor may
    ask an idle node for its event whenever it likes; what it really does (executor_graph.rs,
    executor_worker_context.rs) is one of these runs.  The ports are a parameter: the words
    of Port.v, or the atomic ports of its specification. *)
From S2P Require Import Prelude Column Port.

(** ** Programs of calls *)
Inductive side := In (i : nat) | Out (j : nat).
Section prog.
Context {B E : Type}.
Inductive prog (R : Type) :=
  | Ret (r : R)
  | Fail (e : E)
  | Crash
  | Call (at_port : side) (c : port_call B) (k : answer B → prog R).
#[global] Arguments Ret {R} r.
#[global] Arguments Fail {R} e.
#[global] Arguments Crash {R}.
#[global] Arguments Call {R} at_port c k.
Fixpoint prog_bind {R S} (p : prog R) (f : R → prog S) : prog S :=
  match p with
  | Ret r => f r
  | Fail e => Fail e
  | Crash => Crash
  | Call x c k => Call x c (λ a, prog_bind (k a) f)
  end.
Definition ask (x : side) (c : port_call B) : prog bool := Call x c (λ a, match a with ABool b => Ret b | _ => Crash end).
Definition tell (x : side) (c : port_call B) : prog unit := Call x c (λ _, Ret tt).
(** [pull_data().unwrap()]. *)
Definition pull (x : side) : prog B := Call x PullData (λ a, match a with ABlock (Some data) => Ret data | _ => Crash end).
End prog.
Arguments prog : clear implicits.
Declare Scope prog_scope.
Delimit Scope prog_scope with prog.
Notation "'do!' x := m 'in' k" := (prog_bind m (λ x, k)) (at level 10, x name, m at level 100, k at level 200) : prog_scope.
Notation "m ;; k" := (prog_bind m (λ _, k)) (at level 100, k at level 200, right associativity) : prog_scope.

(** ** The trait: processor.rs *)
Inductive Event := NeedData | NeedConsume | Sync | Async | Finished.

Section processors.
Context {E : Type}.
(** The blocks on a port: [Result<DataBlock>]. *)
Abbreviation Data := (DataBlock + E)%type.
Abbreviation program := (prog Data E).
#[local] Open Scope prog_scope.
Record Processor := mkProcessor {
  p_state : Type;
  p_event : p_state → program (Event * p_state);
  p_process : p_state → res E p_state;
}.

Definition block_is_empty (b : DataBlock) : bool := num_rows b =? 0.

(** ** Transforms: transforms/transform.rs *)
Record Transform := mkTransform { tr_state : Type; transform : tr_state → DataBlock → res E (DataBlock * tr_state); SKIP_EMPTY_DATA_BLOCK : bool }.
Record Transformer (T : Transform) := mkTransformer { t_transform : tr_state T; t_input_data : option DataBlock; t_output_data : option DataBlock }.
#[global] Arguments mkTransformer {T}.
#[global] Arguments t_transform {T}.
#[global] Arguments t_input_data {T}.
#[global] Arguments t_output_data {T}.
Definition transformer_pull_data {T} (self : Transformer T) : program (Event * Transformer T) :=
  do! has := ask (In 0) HasData in
  if has then
    do! data := pull (In 0) in
    match data with
    | inr e => Fail e
    | inl block => Ret (Sync, mkTransformer (t_transform self) (Some block) (t_output_data self))
    end
  else
    do! finished := ask (In 0) IsFinished in
    if finished then tell (Out 0) Finish ;; Ret (Finished, self)
    else tell (In 0) SetNeedData ;; Ret (NeedData, self).
Definition transformer_event {T} (self : Transformer T) : program (Event * Transformer T) :=
  do! finished := ask (Out 0) IsFinished in
  if finished then tell (In 0) Finish ;; Ret (Finished, self)
  else
    do! can := ask (Out 0) CanPush in
    if negb can then tell (In 0) SetNotNeedData ;; Ret (NeedConsume, self)
    else
      match t_output_data self with
      | None => if bool_decide (is_Some (t_input_data self)) then Ret (Sync, self) else transformer_pull_data self
      | Some data => tell (Out 0) (PushData (inl data)) ;; Ret (NeedConsume, mkTransformer (t_transform self) (t_input_data self) None)
      end.
Definition transformer_process {T} (self : Transformer T) : res E (Transformer T) :=
  match t_input_data self with
  | Some data_block =>
      let? ' (data_block, inner) := transform T (t_transform self) data_block in
      Ok (mkTransformer inner None (if negb (SKIP_EMPTY_DATA_BLOCK T) || negb (block_is_empty data_block) then Some data_block else t_output_data self))
  | None => Ok self
  end.
Definition TransformerProcessor (T : Transform) : Processor := mkProcessor (Transformer T) transformer_event transformer_process.

(** ** Sources: sources/sync_source.rs; the counts of the progress are left out *)
Record SyncSource := mkSource { src_state : Type; generate : src_state → res E (option DataBlock * src_state) }.
Record SyncSourcer (G : SyncSource) := mkSourcer { is_finish : bool; src_inner : src_state G; generated_data : option DataBlock }.
#[global] Arguments mkSourcer {G}.
#[global] Arguments is_finish {G}.
#[global] Arguments src_inner {G}.
#[global] Arguments generated_data {G}.
Definition source_event {G} (self : SyncSourcer G) : program (Event * SyncSourcer G) :=
  if is_finish self then tell (Out 0) Finish ;; Ret (Finished, self)
  else
    do! finished := ask (Out 0) IsFinished in
    if finished then Ret (Finished, self)
    else
      do! can := ask (Out 0) CanPush in
      if negb can then Ret (NeedConsume, self)
      else
        match generated_data self with
        | None => Ret (Sync, self)
        | Some data_block => tell (Out 0) (PushData (inl data_block)) ;; Ret (NeedConsume, mkSourcer (is_finish self) (src_inner self) None)
        end.
Definition source_process {G} (self : SyncSourcer G) : res E (SyncSourcer G) :=
  let? ' (data, inner) := generate G (src_inner self) in
  match data with
  | None => Ok (mkSourcer true inner (generated_data self))
  | Some data_block => Ok (mkSourcer (is_finish self) inner (Some data_block))
  end.
Definition SourceProcessor (G : SyncSource) : Processor := mkProcessor (SyncSourcer G) source_event source_process.

(** ** Sinks: sinks/sync_sink.rs *)
Record Sink := mkSink { sk_state : Type; on_start : sk_state → res E sk_state; consume : sk_state → DataBlock → res E sk_state; on_finish : sk_state → res E sk_state }.
Record Sinker (K : Sink) := mkSinker { sk_inner : sk_state K; sk_input_data : option DataBlock; called_on_start : bool; called_on_finish : bool }.
#[global] Arguments mkSinker {K}.
#[global] Arguments sk_inner {K}.
#[global] Arguments sk_input_data {K}.
#[global] Arguments called_on_start {K}.
#[global] Arguments called_on_finish {K}.
Definition sink_event {K} (self : Sinker K) : program (Event * Sinker K) :=
  if negb (called_on_start self) then Ret (Sync, self)
  else if bool_decide (is_Some (sk_input_data self)) then Ret (Sync, self)
  else
    do! finished := ask (In 0) IsFinished in
    if finished then Ret (if negb (called_on_finish self) then Sync else Finished, self)
    else
      do! has := ask (In 0) HasData in
      if has then
        do! data := pull (In 0) in
        match data with
        | inr e => Fail e
        | inl block => Ret (Sync, mkSinker (sk_inner self) (Some block) (called_on_start self) (called_on_finish self))
        end
      else tell (In 0) SetNeedData ;; Ret (NeedData, self).
Definition sink_process {K} (self : Sinker K) : res E (Sinker K) :=
  if negb (called_on_start self) then
    let? inner := on_start K (sk_inner self) in Ok (mkSinker inner (sk_input_data self) true (called_on_finish self))
  else
    match sk_input_data self with
    | Some data_block =>
        let? inner := consume K (sk_inner self) data_block in Ok (mkSinker inner None (called_on_start self) (called_on_finish self))
    | None =>
        if negb (called_on_finish self) then
          let? inner := on_finish K (sk_inner self) in Ok (mkSinker inner None (called_on_start self) true)
        else Ok self
    end.
Definition SinkProcessor (K : Sink) : Processor := mkProcessor (Sinker K) sink_event sink_process.

(** ** LIMIT and OFFSET: transforms/transform_limit.rs *)
Inductive limit_mode := ONLY_LIMIT | ONLY_OFFSET | OFFSET_AND_LIMIT.
Record TransformLimit := mkLimit {
  l_mode : limit_mode; take_remaining : nat; skip_remaining : nat;
  input_data_block : option DataBlock; output_data_block : option DataBlock }.
(** [TransformLimit::try_create]. *)
Definition limit_create (limit : option nat) (offset : nat) (logical_error : E) : res E TransformLimit :=
  let create mode := Ok (mkLimit mode (default 0 limit) offset None None) in
  match limit, offset with
  | None, 0 => Err logical_error
  | Some _, 0 => create ONLY_LIMIT
  | None, _ => create ONLY_OFFSET
  | Some _, _ => create OFFSET_AND_LIMIT
  end.
(** The first check is an assertion of debug builds. *)
Definition take_rows (self : TransformLimit) (data_block : DataBlock) : res E (DataBlock * TransformLimit) :=
  let rows := num_rows data_block in
  if take_remaining self =? 0 then Panic
  else if rows <=? take_remaining self then
    Ok (data_block, mkLimit (l_mode self) (take_remaining self - rows) (skip_remaining self) (input_data_block self) (output_data_block self))
  else
    let? block := block_slice data_block 0 (take_remaining self) in
    Ok (block, mkLimit (l_mode self) 0 (skip_remaining self) (input_data_block self) (output_data_block self)).
Definition skip_rows (self : TransformLimit) (data_block : DataBlock) : res E (option DataBlock * TransformLimit) :=
  let rows := num_rows data_block in
  if rows <=? skip_remaining self then
    Ok (None, mkLimit (l_mode self) (take_remaining self) (skip_remaining self - rows) (input_data_block self) (output_data_block self))
  else
    let offset := skip_remaining self in
    match l_mode self with
    | OFFSET_AND_LIMIT =>
        let length := Nat.min (take_remaining self) (rows - offset) in
        let? block := block_slice data_block offset length in
        Ok (Some block, mkLimit (l_mode self) (take_remaining self - length) 0 (input_data_block self) (output_data_block self))
    | _ =>
        let? block := block_slice data_block offset (rows - offset) in
        Ok (Some block, mkLimit (l_mode self) (take_remaining self) 0 (input_data_block self) (output_data_block self))
    end.
Definition set_input_block (self : TransformLimit) (b : option DataBlock) : TransformLimit :=
  mkLimit (l_mode self) (take_remaining self) (skip_remaining self) b (output_data_block self).
Definition set_output_block (self : TransformLimit) (b : option DataBlock) : TransformLimit :=
  mkLimit (l_mode self) (take_remaining self) (skip_remaining self) (input_data_block self) b.
(** The end of [event]: work on the block at hand, or get one. *)
Definition limit_pull (self : TransformLimit) : program (Event * TransformLimit) :=
  if bool_decide (is_Some (input_data_block self)) then Ret (Sync, self)
  else
    do! finished := ask (In 0) IsFinished in
    if finished then tell (Out 0) Finish ;; Ret (Finished, self)
    else
      do! has := ask (In 0) HasData in
      if negb has then tell (In 0) SetNeedData ;; Ret (NeedData, self)
      else
        do! data := pull (In 0) in
        match data with inr e => Fail e | inl block => Ret (Sync, set_input_block self (Some block)) end.
(** All rows to skip are skipped: blocks are handed on as they are. *)
Definition limit_forward (self : TransformLimit) : program (Event * TransformLimit) :=
  do! finished := ask (In 0) IsFinished in
  if finished then tell (Out 0) Finish ;; Ret (Finished, self)
  else
    do! has := ask (In 0) HasData in
    if negb has then tell (In 0) SetNeedData ;; Ret (NeedData, self)
    else
      do! data := pull (In 0) in
      tell (Out 0) (PushData data) ;; Ret (NeedConsume, self).
Definition limit_event (self : TransformLimit) : program (Event * TransformLimit) :=
  do! finished := ask (Out 0) IsFinished in
  if finished then tell (In 0) Finish ;; Ret (Finished, self)
  else
    do! can := ask (Out 0) CanPush in
    if negb can then tell (In 0) SetNotNeedData ;; Ret (NeedConsume, self)
    else
      match output_data_block self with
      | Some data_block => tell (Out 0) (PushData (inl data_block)) ;; Ret (NeedConsume, set_output_block self None)
      | None =>
          if (skip_remaining self =? 0) && (take_remaining self =? 0) then
            match l_mode self with
            | ONLY_LIMIT | OFFSET_AND_LIMIT => tell (In 0) Finish ;; (tell (Out 0) Finish ;; Ret (Finished, self))
            | ONLY_OFFSET => limit_forward self
            end
          else limit_pull self
      end.
Definition limit_process (self : TransformLimit) : res E TransformLimit :=
  match input_data_block self with
  | None => Ok self
  | Some data_block =>
      let self := set_input_block self None in
      let take := (let? ' (b, self) := take_rows self data_block in Ok (set_output_block self (Some b))) in
      let skip := (let? ' (b, self) := skip_rows self data_block in Ok (set_output_block self b)) in
      match l_mode self with
      | ONLY_OFFSET => skip
      | ONLY_LIMIT => take
      | OFFSET_AND_LIMIT => if negb (skip_remaining self =? 0) then skip else take
      end
  end.
Definition LimitProcessor : Processor := mkProcessor TransformLimit limit_event limit_process.

(** ** Resize: resize_processor.rs *)
Record ResizeProcessor := mkResize { r_inputs : nat; r_outputs : nat; cur_input_index : nat; cur_output_index : nat }.
Definition set_cur_input (self : ResizeProcessor) (i : nat) : ResizeProcessor := mkResize (r_inputs self) (r_outputs self) i (cur_output_index self).
Definition set_cur_output (self : ResizeProcessor) (j : nat) : ResizeProcessor := mkResize (r_inputs self) (r_outputs self) (cur_input_index self) j.
(** The search goes once around the ports; there is one round for each of them. *)
Fixpoint get_current_input (rounds : nat) (self : ResizeProcessor) (index : nat) (finished : bool) : program (option nat * ResizeProcessor) :=
  match rounds with
  | 0 => Crash
  | S rounds =>
      if r_inputs self <=? index then Crash
      else
        let next (finished : bool) :=
          (let index' := if index + 1 =? r_inputs self then 0 else index + 1 in
           if index' =? cur_input_index self then Ret ((if finished then Some index else None), self)
           else get_current_input rounds self index' finished) in
        do! fin := ask (In index) IsFinished in
        if fin then next finished
        else
          do! has := ask (In index) HasData in
          if has then Ret (Some index, set_cur_input self index) else next false
  end.
Fixpoint get_current_output (rounds : nat) (self : ResizeProcessor) (index : nat) (finished : bool) : program (option nat * ResizeProcessor) :=
  match rounds with
  | 0 => Crash
  | S rounds =>
      if r_outputs self <=? index then Crash
      else
        let next (finished : bool) :=
          (let index' := if index + 1 =? r_outputs self then 0 else index + 1 in
           if index' =? cur_output_index self then Ret ((if finished then Some index else None), self)
           else get_current_output rounds self index' finished) in
        do! fin := ask (Out index) IsFinished in
        if fin then next finished
        else
          do! can := ask (Out index) CanPush in
          if can then Ret (Some index, set_cur_output self index) else next false
  end.
Fixpoint each_port (ports : list side) (c : port_call Data) : program unit :=
  match ports with [] => Ret tt | x :: ports => tell x c ;; each_port ports c end.
Definition resize_inputs (self : ResizeProcessor) : list side := In <$> seq 0 (r_inputs self).
Definition resize_outputs (self : ResizeProcessor) : list side := Out <$> seq 0 (r_outputs self).
Definition finish_inputs (self : ResizeProcessor) : program unit := each_port (resize_inputs self) Finish.
Definition inputs_need_data (self : ResizeProcessor) : program unit := each_port (resize_inputs self) SetNeedData.
Definition inputs_not_need_data (self : ResizeProcessor) : program unit := each_port (resize_inputs self) SetNotNeedData.
Definition finish_outputs (self : ResizeProcessor) : program unit := each_port (resize_outputs self) Finish.
(** The end of [event], with an output that can take a block. *)
Definition resize_pull (self : ResizeProcessor) (cur_output : nat) : program (Event * ResizeProcessor) :=
  do! r := get_current_input (r_inputs self) self (cur_input_index self) true in
  match r with
  | (Some cur_input, self) =>
      do! finished := ask (In cur_input) IsFinished in
      if finished then finish_outputs self ;; Ret (Finished, self)
      else
        do! data := pull (In cur_input) in
        tell (Out cur_output) (PushData data) ;; Ret (NeedConsume, self)
  | (None, self) => inputs_need_data self ;; Ret (NeedData, self)
  end.
Definition resize_event (self : ResizeProcessor) : program (Event * ResizeProcessor) :=
  do! r := get_current_output (r_outputs self) self (cur_output_index self) true in
  match r with
  | (Some cur_output, self) =>
      do! finished := ask (Out cur_output) IsFinished in
      if finished then finish_inputs self ;; Ret (Finished, self) else resize_pull self cur_output
  | (None, self) => inputs_not_need_data self ;; Ret (NeedConsume, self)
  end.
(** [process] is the default of the trait; it is never called. *)
Definition ResizeP (unimplement : E) : Processor := mkProcessor ResizeProcessor resize_event (λ _, Err unimplement).
End processors.

Section pipeline.
Context {E : Type}.
Abbreviation Data := (DataBlock + E)%type.
Abbreviation program := (prog Data E).
Abbreviation call := (port_call Data).
Abbreviation ans := (answer Data).

(** ** Nodes: the states of executor_graph.rs *)
Inductive life (S : Type) := Idle (s : S) | Busy (p : program (Event * S)) | Processing (s : S) | Done (s : S) | Failed (e : E).
#[global] Arguments Idle {S} s.
#[global] Arguments Busy {S} p.
#[global] Arguments Processing {S} s.
#[global] Arguments Done {S} s.
#[global] Arguments Failed {S} e.
Record node := mkNode { n_proc : Processor (E:=E); n_life : life (p_state n_proc); n_ins : list nat; n_outs : list nat }.
(** The steps of a node without its ports; after its work a node is asked again at once. *)
Inductive life_step (P : Processor) : life (p_state P) → life (p_state P) → Prop :=
  | life_event s : life_step P (Idle s) (Busy (p_event P s))
  | life_idle ev s : ev = NeedData ∨ ev = NeedConsume → life_step P (Busy (Ret (ev, s))) (Idle s)
  | life_task ev s : ev = Sync ∨ ev = Async → life_step P (Busy (Ret (ev, s))) (Processing s)
  | life_finished s : life_step P (Busy (Ret (Finished, s))) (Done s)
  | life_error e : life_step P (Busy (Fail e)) (Failed e)
  | life_process s s' : p_process P s = Ok s' → life_step P (Processing s) (Busy (p_event P s'))
  | life_process_error s e : p_process P s = Err e → life_step P (Processing s) (Failed e).

(** The threads of a port. *)
Definition PRODUCER : nat := 0.
Definition CONSUMER : nat := 1.
Definition thread_of (x : side) : nat := match x with In _ => CONSUMER | Out _ => PRODUCER end.
Definition port_of (n : node) (x : side) : option nat := match x with In i => n_ins n !! i | Out j => n_outs n !! j end.

(** ** Pipelines over any ports *)
Class Ports := {
  port : Type;
  port_next : port → option (nat * call * ans) → port → Prop;
  in_flight : port → gmap nat call;
}.
Record net `{Ports} := mkNet { ports : list port; nodes : list node }.
#[global] Arguments net : clear implicits.
#[global] Arguments net {_}.
#[global] Arguments mkNet {_}.
#[global] Arguments ports {_}.
#[global] Arguments nodes {_}.
Definition set_life (n : node) (l : life (p_state (n_proc n))) : node := mkNode (n_proc n) l (n_ins n) (n_outs n).
(** Node [n] is about to make, or is making, a call at its port [i] in the role [t]. *)
Definition calling (n : node) (i t : nat) (c : call) : Prop :=
  ∃ x k, n_life n = Busy (Call x c k) ∧ port_of n x = Some i ∧ thread_of x = t.
(** A step, with the port, the thread, the call and the answer if a call ends. *)
Abbreviation label := (nat * nat * call * ans)%type.
Inductive net_step `{Ports} : net → option label → net → Prop :=
  | net_life ps ns k n l :
      ns !! k = Some n → life_step (n_proc n) (n_life n) l →
      net_step (mkNet ps ns) None (mkNet ps (<[k := set_life n l]> ns))
  | net_port ps ns i p p' :
      ps !! i = Some p → port_next p None p' →
      (∀ t c, in_flight p' !! t = Some c → ∃ n, n ∈ ns ∧ calling n i t c) →
      net_step (mkNet ps ns) None (mkNet (<[i := p']> ps) ns)
  | net_call ps ns k n x c kont i p p' a :
      ns !! k = Some n → n_life n = Busy (Call x c kont) → port_of n x = Some i →
      ps !! i = Some p → port_next p (Some (thread_of x, c, a)) p' →
      net_step (mkNet ps ns) (Some (i, thread_of x, c, a)) (mkNet (<[i := p']> ps) (<[k := set_life n (Busy (kont a))]> ns)).
Inductive net_steps `{Ports} : net → list label → net → Prop :=
  | net_nil n : net_steps n [] n
  | net_snoc n tr n1 l n2 : net_steps n tr n1 → net_step n1 l n2 → net_steps n (tr ++ option_list l) n2.

(** The words of Port.v, and atomic ports. *)
Definition word_ports : Ports := {| port := shared Data; port_next := port_step; in_flight s := f_call <$> running s |}.
Definition atomic_ports : Ports := {|
  port := port_hist Data;
  port_next p l p' := match l with Some l => spec_step p l p' | None => p' = p end;
  in_flight _ := ∅ |}.

(** ** A pipeline of words is a pipeline of atomic ports *)
Definition net_sim (w : @net word_ports) (a : @net atomic_ports) : Prop := Forall2 sim (ports w) (ports a) ∧ nodes w = nodes a.
Lemma net_sim_step w l w' a : @net_step word_ports w l w' → net_sim w a → ∃ a', net_sim w' a' ∧ (@net_step atomic_ports a l a' ∨ l = None ∧ a' = a).
Proof.
  intros Hstep [Hp Hns]. destruct a as [ps' ns']. destruct Hstep as [ps ns k n lf Hk Hl|ps ns i p p' Hi Hnext _|ps ns k n x c kont i p p' a Hk Hn Hx Hi Hnext]; simpl in *; subst ns'.
  - eexists. split; [|left; by eapply net_life]. by split.
  - destruct (Forall2_lookup_l _ _ _ _ _ Hp Hi) as (q & Hq & Hs). destruct (sim_step _ _ _ _ Hnext Hs) as (q' & -> & Hs'). eexists. split; [|by right].
    split; [|done]. simpl. rewrite <- (list_insert_id ps' i q) by done. by apply Forall2_insert.
  - destruct (Forall2_lookup_l _ _ _ _ _ Hp Hi) as (q & Hq & Hs). destruct (sim_step _ _ _ _ Hnext Hs) as (q' & Hq' & Hs').
    eexists. split; [|left; eapply (@net_call atomic_ports); [exact Hk|exact Hn|exact Hx|exact Hq|exact Hq']]. split; [|done]. simpl. by apply Forall2_insert.
Qed.
Lemma net_sim_steps w tr w' a : @net_steps word_ports w tr w' → net_sim w a → ∃ a', net_sim w' a' ∧ @net_steps atomic_ports a tr a'.
Proof.
  intros Hrun Ha. induction Hrun as [w|w tr w1 l w2 _ IH Hstep]; [exists a; split; [done|constructor]|]. destruct (IH Ha) as (a1 & Hs1 & Ha1).
  destruct (net_sim_step _ _ _ _ Hstep Hs1) as (a2 & Hs2 & [Ha2|[-> ->]]); exists a2 || exists a1; split; try done; [by econstructor|]. simpl. by rewrite app_nil_r.
Qed.
End pipeline.
