(* ===== verification/PipelineProps.v ===== *)
(** * What processors may rely on, and what they must keep.

    A producer pushes a block only after it has seen that the port can take one, and not after
    it has finished; then blocks are delivered exactly once and in order, although flags are
    read late.  [Lawful] states this discipline for a processor together with what it does to
    the blocks, for one processor at a time; it then holds in every pipeline. *)
From S2P Require Import Prelude Column Port Pipeline.

Section ends.
Context {B : Type}.
Abbreviation call := (port_call B).
Abbreviation ans := (answer B).

(** ** What has happened at the two ends of a port *)
Record out_end := mkOut { o_pushed : list B; o_armed : bool; o_done : bool; o_clean : bool; o_closed : bool }.
Record in_end := mkIn { i_pulled : list B; i_ready : bool; i_done : bool; i_eof : bool }.
Definition out_start : out_end := mkOut [] false false true false.
Definition in_start : in_end := mkIn [] false false false.
(** A producer is armed when it has seen, since its last block, that there is room.  It finishes
    cleanly when it is armed, or has not pushed anything.  [o_closed]: it has seen the port finished. *)
Definition out_next (o : out_end) (c : call) (a : ans) : out_end :=
  match c, a with
  | PushData data, _ => mkOut (o_pushed o ++ [data]) false (o_done o) (o_clean o) (o_closed o)
  | CanPush, ABool b => mkOut (o_pushed o) (o_armed o || b) (o_done o) (o_clean o) (o_closed o)
  | IsFinished, ABool b => mkOut (o_pushed o) (o_armed o) (o_done o) (o_clean o) (o_closed o || b)
  | Finish, _ => mkOut (o_pushed o) (o_armed o) true (o_clean o && (o_armed o || (length (o_pushed o) =? 0))) (o_closed o)
  | _, _ => o
  end.
(** A consumer is ready when it has seen, since it last pulled, that there is a block. *)
Definition in_next (g : in_end) (c : call) (a : ans) : in_end :=
  match c, a with
  | PullData, ABlock r => mkIn (i_pulled g ++ option_list r) false (i_done g) (i_eof g)
  | HasData, ABool b => mkIn (i_pulled g) (i_ready g || b) (i_done g) (i_eof g)
  | IsFinished, ABool b => mkIn (i_pulled g) (i_ready g) (i_done g) (i_eof g || b)
  | Finish, _ => mkIn (i_pulled g) (i_ready g) true (i_eof g)
  | _, _ => g
  end.
(** The calls each end may make, and the answers it can get. *)
Definition out_may (o : out_end) (c : call) : Prop :=
  match c with
  | PushData _ => o_armed o = true ∧ o_done o = false
  | Finish | IsFinished | CanPush => True
  | _ => False
  end.
Definition in_may (c : call) : Prop := match c with PushData _ | CanPush => False | _ => True end.
Definition out_sound (o : out_end) (c : call) (a : ans) : Prop :=
  match c with
  | IsFinished => ∃ b, a = ABool b ∧ (o_closed o = true → b = true)
  | Finish | CanPush => ∃ b, a = ABool b
  | _ => True
  end.
Definition in_sound (g : in_end) (c : call) (a : ans) : Prop :=
  match c with
  | PullData => ∃ r, a = ABlock r ∧ (i_ready g = true → is_Some r)
  | IsFinished => ∃ b, a = ABool b ∧ (i_eof g = true → b = true)
  | Finish | HasData | SetNeedData => ∃ b, a = ABool b
  | _ => True
  end.

(** ** The invariant of a port *)
Record port_inv (p : port_hist B) (o : out_end) (g : in_end) (st : port_state B) : Prop := {
  pv_last : last (hist p) = Some st;
  pv_data : o_pushed o = i_pulled g ++ option_list (slot st);
  pv_armed : o_armed o = true → slot st = None;
  pv_ready : i_ready g = true → is_Some (slot st);
  pv_clean : o_done o = true → o_clean o = true → slot st = None;
  pv_fin : fin st = true → o_done o = true ∨ i_done g = true;
  pv_eof : i_eof g = true → fin st = true;
  pv_closed : o_closed o = true → fin st = true;
  pv_room i s : view (views p) PRODUCER ≤ i → hist p !! i = Some s → slot s = None → slot st = None;
  pv_block i s : view (views p) CONSUMER ≤ i → hist p !! i = Some s → is_Some (slot s) → is_Some (slot st);
  pv_mono i j s s' : i ≤ j → hist p !! i = Some s → hist p !! j = Some s' → fin s = true → fin s' = true;
  pv_closed_seen i s : o_closed o = true → view (views p) PRODUCER ≤ i → hist p !! i = Some s → fin s = true;
  pv_seen i s : i_eof g = true → view (views p) CONSUMER ≤ i → hist p !! i = Some s → fin s = true;
}.
Lemma port_inv_create : port_inv hist_create out_start in_start port_empty.
Proof. split; try done; intros [|i]; try done; simpl; [by intros s _ [= <-]..|]. intros [|j] s s' _ [= <-] H; [by injection H as <-|done]. Qed.
Lemma last_index {A} (h : list A) x : last h = Some x → h !! pred (length h) = Some x.
Proof. by rewrite last_lookup. Qed.
Lemma hist_snoc {A} (h : list A) x i y : (h ++ [x]) !! i = Some y → h !! i = Some y ∨ i = length h ∧ y = x.
Proof. intros [?|[Hl Hi]]%lookup_app_Some; [by left|]. destruct (i - length h) as [|k] eqn:E; simpl in Hi; [|done]. right. simplify_eq. split; [lia|done]. Qed.
Lemma view_ne (vs : gmap nat nat) t t' i : t ≠ t' → view (<[t := i]> vs) t' = view vs t'.
Proof. intros Hne. rewrite view_insert. by rewrite decide_False. Qed.
Lemma view_eq (vs : gmap nat nat) t i : view (<[t := i]> vs) t = i.
Proof. rewrite view_insert. by rewrite decide_True. Qed.

Lemma pv_fin_last p o g st i s : port_inv p o g st → hist p !! i = Some s → fin s = true → fin st = true.
Proof. intros Hinv Hs. apply (pv_mono _ _ _ _ Hinv i (pred (length (hist p)))); [apply lookup_lt_Some in Hs; lia|done|]. apply last_index, Hinv. Qed.
(** What an end writes: the other end keeps what it has seen. *)
Lemma write_inv h vs o g st t c o' g' : port_inv (mkHist h vs) o g st → t = PRODUCER ∨ t = CONSUMER →
  let st' := (port_write c st).2 in
  (t = PRODUCER → is_Some (slot st) → is_Some (slot st')) → (t = CONSUMER → slot st = None → slot st' = None) → (fin st = true → fin st' = true) →
  o_pushed o' = i_pulled g' ++ option_list (slot st') → (o_armed o' = true → slot st' = None) → (i_ready g' = true → is_Some (slot st')) →
  (o_done o' = true → o_clean o' = true → slot st' = None) → (fin st' = true → o_done o' = true ∨ i_done g' = true) →
  i_eof g' = i_eof g → o_closed o' = o_closed o →
  port_inv (mkHist (h ++ [st']) (<[t := length h]> vs)) o' g' st'.
Proof.
  intros Hinv Ht st' Hup Hdown Hfin Hd' Ha' Hr' Hc' Hf' He' Hcl'. pose proof Hinv as [Hl Hd Ha Hr Hc Hf He Hcl HP HC Hm HT HS]. simpl in *. split; simpl; try done; [by rewrite last_snoc|rewrite He'; auto|rewrite Hcl'; auto|..].
  all: assert (∀ i s, h !! i = Some s → fin s = true → fin st = true) as Hlast by (intros i s Hs; exact (pv_fin_last _ _ _ _ _ _ Hinv Hs)).
  - intros i s Hi [Hs|[-> ->]]%hist_snoc Hn; [|done]. destruct Ht as [-> | ->].
    + rewrite view_eq in Hi. apply lookup_lt_Some in Hs. lia.
    + rewrite view_ne in Hi by done. eauto.
  - intros i s Hi [Hs|[-> ->]]%hist_snoc Hn; [|done]. destruct Ht as [-> | ->].
    + rewrite view_ne in Hi by done. eauto.
    + rewrite view_eq in Hi. apply lookup_lt_Some in Hs. lia.
  - intros i j s s' Hij [Hs|[-> ->]]%hist_snoc [Hs'|[-> ->]]%hist_snoc Hn; [by eapply (Hm i j)|eauto| |done]. apply lookup_lt_Some in Hs'. lia.
  - intros i s Hclo Hi [Hs|[-> ->]]%hist_snoc; [|apply Hfin, Hcl; congruence]. destruct Ht as [-> | ->].
    + rewrite view_eq in Hi. apply lookup_lt_Some in Hs. lia.
    + rewrite view_ne in Hi by done. apply (HT i); congruence.
  - intros i s Heof Hi [Hs|[-> ->]]%hist_snoc; [|apply Hfin, He; congruence]. destruct Ht as [-> | ->].
    + rewrite view_ne in Hi by done. apply (HS i); congruence.
    + rewrite view_eq in Hi. apply lookup_lt_Some in Hs. lia.
Qed.
(** What an end reads: it has seen a later state. *)
Lemma read_inv h vs o g st t i o' g' : port_inv (mkHist h vs) o g st → view vs t ≤ i →
  o_pushed o' = o_pushed o → i_pulled g' = i_pulled g → (o_armed o' = true → slot st = None) → (i_ready g' = true → is_Some (slot st)) →
  o_done o' = o_done o → o_clean o' = o_clean o → i_done g' = i_done g → (o_closed o' = true → o_closed o = true ∨ t = PRODUCER ∧ ∃ s, h !! i = Some s ∧ fin s = true) →
  (i_eof g' = true → i_eof g = true ∨ t = CONSUMER ∧ ∃ s, h !! i = Some s ∧ fin s = true) →
  port_inv (mkHist h (<[t := i]> vs)) o' g' st.
Proof.
  intros Hinv Hi E1 E2 Ha' Hr' E3 E4 E5 Hcl' He'. pose proof Hinv as [Hl Hd Ha Hr Hc Hf He Hcl HP HC Hm HT HS]. simpl in *.
  assert (∀ i s, h !! i = Some s → fin s = true → fin st = true) as Hlast by (intros j s Hs; exact (pv_fin_last _ _ _ _ _ _ Hinv Hs)). split; simpl; rewrite ?E1, ?E2, ?E3, ?E4, ?E5; try done.
  - intros Heof. destruct (He' Heof) as [?|(_ & s & Hs & Hf')]; [by apply He|by eapply Hlast].
  - intros Hclo. destruct (Hcl' Hclo) as [?|(_ & s & Hs & Hf')]; [by apply Hcl|by eapply Hlast].
  - intros j s. rewrite view_insert. case_decide; subst; intros; (eapply HP; [|eassumption|eassumption]); lia.
  - intros j s. rewrite view_insert. case_decide; subst; intros; (eapply HC; [|eassumption|eassumption]); lia.
  - intros j s Hclo Hj Hs. destruct (Hcl' Hclo) as [Hold|(-> & s' & Hs' & Hf')].
    + rewrite view_insert in Hj. case_decide; subst; (eapply HT; [done| |done]); lia.
    + rewrite view_eq in Hj. by eapply (Hm i j).
  - intros j s Heof Hj Hs. destruct (He' Heof) as [Hold|(-> & s' & Hs' & Hf')].
    + rewrite view_insert in Hj. case_decide; subst; (eapply HS; [done| |done]); lia.
    + rewrite view_eq in Hj. by eapply (Hm i j).
Qed.
Lemma producer_step p c a p' o g st : port_inv p o g st → spec_step p (PRODUCER, c, a) p' → out_may o c →
  out_sound o c a ∧ ∃ st', port_inv p' (out_next o c a) g st'.
Proof.
  intros Hinv Hstep Hmay. inversion Hstep as [h vs t c' s a' s' Hw Hl Hp|h vs t c' i s Hw Hi Hs]; subst.
  - assert (s = st) as -> by (pose proof (pv_last _ _ _ _ Hinv) as Hl'; simpl in Hl'; congruence).
    pose proof (pv_data _ _ _ _ Hinv) as Hd. pose proof (pv_armed _ _ _ _ Hinv) as Ha. pose proof (pv_clean _ _ _ _ Hinv) as Hc. pose proof (pv_fin _ _ _ _ Hinv) as Hf.
    destruct c as [data| | | | | | |]; try done; simpl in Hp; simplify_eq; (split; [try done; by eexists|]).
    + destruct Hmay as [Harm Hdone]. exists (mkPort (Some data) (need st) (fin st)). pose proof (Ha Harm) as Hnone. rewrite Hnone, app_nil_r in Hd.
      apply (write_inv _ _ _ _ _ _ (PushData data) _ _ Hinv); simpl; auto; try done; [by rewrite Hd|congruence].
    + exists (mkPort (slot st) (need st) true). apply (write_inv _ _ _ _ _ _ Finish _ _ Hinv); simpl; auto; try apply Hinv. intros _ [Hclean Hor]%andb_true_iff. apply orb_true_iff in Hor as [Harm|Hnil]; [by apply Ha|].
      apply Nat.eqb_eq in Hnil. rewrite Hd, length_app in Hnil. destruct (slot st); simpl in Hnil; [lia|done].
  - destruct c; try done; (split; [first [done|by eexists|eexists; split; [done|intros He; by eapply (pv_closed_seen _ _ _ _ Hinv)]]|]); exists st; apply (read_inv _ _ _ _ _ _ _ _ _ Hinv); simpl; auto; try apply Hinv.
    + intros [Hcl|Hfin]%orb_true_iff; [by left|]. right. split; [done|]. by exists s.
    + intros [Harm|[_ Hroom]%andb_true_iff]%orb_true_iff; [by apply (pv_armed _ _ _ _ Hinv)|]. eapply (pv_room _ _ _ _ Hinv); [done|done|]. unfold has in Hroom. rewrite negb_true_iff, bool_decide_eq_false in Hroom. by apply eq_None_not_Some.
Qed.
Lemma consumer_step p c a p' o g st : port_inv p o g st → spec_step p (CONSUMER, c, a) p' → in_may c →
  in_sound g c a ∧ ∃ st', port_inv p' o (in_next g c a) st'.
Proof.
  intros Hinv Hstep Hmay. inversion Hstep as [h vs t c' s a' s' Hw Hl Hp|h vs t c' i s Hw Hi Hs]; subst.
  - assert (s = st) as -> by (pose proof (pv_last _ _ _ _ Hinv) as Hl'; simpl in Hl'; congruence). pose proof (pv_data _ _ _ _ Hinv) as Hd.
    destruct c as [data| | | | | | |]; try done; simpl in Hp; simplify_eq; (split; [first [done|by eexists|eexists; split; [done|apply Hinv]]|]).
    + exists (mkPort None false (fin st)). apply (write_inv _ _ _ _ _ _ PullData _ _ Hinv); simpl; auto; try done; try apply Hinv. by rewrite app_nil_r.
    + exists (mkPort (slot st) (need st) true). apply (write_inv _ _ _ _ _ _ Finish _ _ Hinv); simpl; auto; apply Hinv.
    + exists (mkPort (slot st) true (fin st)). apply (write_inv _ _ _ _ _ _ SetNeedData _ _ Hinv); simpl; auto; apply Hinv.
    + exists (mkPort (slot st) false (fin st)). apply (write_inv _ _ _ _ _ _ SetNotNeedData _ _ Hinv); simpl; auto; apply Hinv.
  - destruct c; try done; (split; [first [done|by eexists|eexists; split; [done|intros He; by eapply (pv_seen _ _ _ _ Hinv)]]|]); exists st; apply (read_inv _ _ _ _ _ _ _ _ _ Hinv); simpl; auto; try apply Hinv.
    + intros [Hr|Hhas]%orb_true_iff; [by apply (pv_ready _ _ _ _ Hinv)|]. eapply (pv_block _ _ _ _ Hinv); [done|done|]. unfold has in Hhas. by rewrite bool_decide_eq_true in Hhas.
    + intros [He|Hfin]%orb_true_iff; [by left|]. right. split; [done|]. by exists s.
Qed.
End ends.
Arguments out_end : clear implicits.
Arguments in_end : clear implicits.

(** ** The discipline of a processor *)
Section lawful.
Context {E : Type}.
Abbreviation Data := (DataBlock + E)%type.
Abbreviation program := (prog Data E).
Abbreviation label := (nat * nat * port_call Data * answer Data)%type.
Implicit Types (tr : list label) (i k : nat).
Record ends := mkEnds { e_ins : list (in_end Data); e_outs : list (out_end Data) }.
(** A program keeps the discipline whatever answers it gets, has [A] after every call, and ends with [Q]; an error ends the query. *)
Fixpoint wp {R} (A : ends → Prop) (p : program R) (Q : R → ends → Prop) (g : ends) {struct p} : Prop :=
  match p with
  | Ret r => Q r g
  | Fail _ => True
  | Crash => False
  | Call (In i) c k =>
      match e_ins g !! i with
      | Some x => in_may c ∧ ∀ a, in_sound x c a → let g' := mkEnds (<[i := in_next x c a]> (e_ins g)) (e_outs g) in A g' ∧ wp A (k a) Q g'
      | None => False
      end
  | Call (Out j) c k =>
      match e_outs g !! j with
      | Some y => out_may y c ∧ ∀ a, out_sound y c a → let g' := mkEnds (e_ins g) (<[j := out_next y c a]> (e_outs g)) in A g' ∧ wp A (k a) Q g'
      | None => False
      end
  end.
(** What holds of a processor and the ends of its ports while it is idle, has work to do, or is done; and of the ends at any time. *)
Definition after_event {S} (idle work done : S → ends → Prop) (r : Event * S) (g : ends) : Prop :=
  match r.1 with NeedData | NeedConsume => idle r.2 g | Sync | Async => work r.2 g | Finished => done r.2 g end.
Record Lawful (P : Processor (E:=E)) := mkLawful {
  lw_any : ends → Prop;
  lw_idle : p_state P → ends → Prop;
  lw_work : p_state P → ends → Prop;
  lw_done : p_state P → ends → Prop;
  lw_event s g : lw_any g → lw_idle s g → wp lw_any (p_event P s) (after_event lw_idle lw_work lw_done) g;
  lw_process s g s' : lw_work s g → p_process P s = Ok s' → lw_idle s' g;
}.
#[global] Arguments lw_any {P} _ g.
#[global] Arguments lw_idle {P} _ s g.
#[global] Arguments lw_work {P} _ s g.
#[global] Arguments lw_done {P} _ s g.
Definition life_ok {P} (L : Lawful P) (l : life (p_state P)) (g : ends) : Prop :=
  lw_any L g ∧
  match l with
  | Idle s => lw_idle L s g
  | Busy p => wp (lw_any L) p (after_event (lw_idle L) (lw_work L) (lw_done L)) g
  | Processing s => lw_work L s g
  | Done s => lw_done L s g
  | Failed _ => True
  end.
Lemma life_step_ok {P} (L : Lawful P) l l' g : life_step P l l' → life_ok L l g → life_ok L l' g.
Proof.
  intros Hstep [Ha Hl]. split; [done|]. destruct Hstep as [s|ev s He|ev s He|s|e|s s' Hp|s e Hp]; simpl in *; try done.
  - by apply lw_event.
  - by destruct He as [-> | ->].
  - by destruct He as [-> | ->].
  - apply lw_event; [done|]. by eapply lw_process.
Qed.

(** ** The ends of the ports, from the calls of a run *)
Definition is_end i t (l : label) : bool := bool_decide (l.1.1.1 = i ∧ l.1.1.2 = t).
Definition out_of tr i : out_end Data := foldl (λ o l, if is_end i PRODUCER l then out_next o l.1.2 l.2 else o) out_start tr.
Definition in_of tr i : in_end Data := foldl (λ g l, if is_end i CONSUMER l then in_next g l.1.2 l.2 else g) in_start tr.
Definition ends_of tr (ins outs : list nat) : ends := mkEnds (in_of tr <$> ins) (out_of tr <$> outs).
Lemma in_of_snoc tr l i : in_of (tr ++ [l]) i = if is_end i CONSUMER l then in_next (in_of tr i) l.1.2 l.2 else in_of tr i.
Proof. unfold in_of. by rewrite foldl_app. Qed.
Lemma out_of_snoc tr l i : out_of (tr ++ [l]) i = if is_end i PRODUCER l then out_next (out_of tr i) l.1.2 l.2 else out_of tr i.
Proof. unfold out_of. by rewrite foldl_app. Qed.
Lemma fmap_update {A} (f g : nat → A) (l : list nat) idx i : NoDup l → l !! idx = Some i → (∀ j, j ≠ i → g j = f j) → g <$> l = <[idx := g i]> (f <$> l).
Proof.
  intros Hnd Hi Hg. apply list_eq. intros j. rewrite list_lookup_fmap. destruct (decide (idx = j)) as [<-|Hne].
  - rewrite list_lookup_insert_eq by (rewrite length_fmap; by eapply lookup_lt_Some). by rewrite Hi.
  - rewrite list_lookup_insert_ne, list_lookup_fmap by done. destruct (l !! j) as [x|] eqn:Hx; [|done]. simpl. f_equal. apply Hg. intros ->. apply Hne. by eapply NoDup_lookup.
Qed.
Lemma fmap_same {A} (f g : nat → A) (l : list nat) i : i ∉ l → (∀ j, j ≠ i → g j = f j) → g <$> l = f <$> l.
Proof. intros Hi Hg. apply list_fmap_ext. intros k x Hx. apply Hg. intros ->. apply Hi. by eapply list_elem_of_lookup_2. Qed.
Lemma NoDup_concat (ls : list (list nat)) : NoDup (concat ls) →
  (∀ k a, ls !! k = Some a → NoDup a) ∧ ∀ k j a b x, k ≠ j → ls !! k = Some a → ls !! j = Some b → x ∈ a → x ∉ b.
Proof.
  induction ls as [|l ls IH]; [done|]. simpl. intros (Hl & Hd & Hr)%NoDup_app. destruct (IH Hr) as [IH1 IH2]. split.
  - intros [|k] a; simpl; [by intros [= <-]|eauto].
  - assert (∀ j b x, ls !! j = Some b → x ∈ b → x ∈ concat ls) as Hin.
    { intros j b x Hj Hx. apply list_elem_of_In, in_concat. exists b. split; [|by apply list_elem_of_In]. apply list_elem_of_In. by eapply list_elem_of_lookup_2. }
    intros [|k] [|j] a b x Hne; simpl; try done.
    + intros [= <-] Hj Hx Hb. eapply Hd; eauto.
    + intros Hk [= <-] Hx Hb. eapply Hd; eauto.
    + intros Hk Hj Hx. eapply (IH2 k j); eauto.
Qed.

(** ** Pipelines of lawful processors *)
Record place := mkPlace { pl_proc : Processor (E:=E); pl_law : Lawful pl_proc; pl_start : p_state pl_proc; pl_ins : list nat; pl_outs : list nat }.
Definition place_node (pl : place) : node := mkNode (pl_proc pl) (Idle (pl_start pl)) (pl_ins pl) (pl_outs pl).
(** [ExecutingGraph::create]: every port has at most one producer and one consumer. *)
Definition net_create (top : list place) (np : nat) : @net E word_ports := mkNet (replicate np (shared_create : @port E word_ports)) (place_node <$> top).
Record wired (top : list place) (np : nat) : Prop := {
  wi_ins : NoDup (concat (pl_ins <$> top));
  wi_outs : NoDup (concat (pl_outs <$> top));
  wi_ports : Forall (λ pl, Forall (λ i, i < np) (pl_ins pl ++ pl_outs pl)) top;
  wi_start : Forall (λ pl, life_ok (pl_law pl) (Idle (pl_start pl)) (ends_of [] (pl_ins pl) (pl_outs pl))) top;
}.
Definition at_place tr (pl : place) (n : node) : Prop :=
  ∃ l, n = mkNode (pl_proc pl) l (pl_ins pl) (pl_outs pl) ∧ life_ok (pl_law pl) l (ends_of tr (pl_ins pl) (pl_outs pl)).
Record net_inv (top : list place) tr (a : @net E atomic_ports) : Prop := {
  ni_ports i (p : port_hist Data) : ports a !! i = Some p → ∃ st, port_inv p (out_of tr i) (in_of tr i) st;
  ni_nodes : Forall2 (at_place tr) top (nodes a);
}.
(** A call at one end of a port changes nothing for the other nodes. *)
Lemma at_place_frame tr l i t pl n : l.1.1 = (i, t) → (t = CONSUMER → i ∉ pl_ins pl) → (t = PRODUCER → i ∉ pl_outs pl) → at_place tr pl n → at_place (tr ++ [l]) pl n.
Proof.
  intros Hl Hi Ho (lf & -> & Hok). exists lf. split; [done|]. destruct pl as [P L s0 ins outs]. simpl in *. unfold ends_of in *.
  replace (in_of (tr ++ [l]) <$> ins) with (in_of tr <$> ins); [replace (out_of (tr ++ [l]) <$> outs) with (out_of tr <$> outs); [done|]|].
  - apply list_fmap_ext. intros k x Hx. rewrite out_of_snoc. unfold is_end. rewrite Hl. case_bool_decide as Hc; [|done]. simpl in Hc. destruct Hc as [<- ->]. destruct Ho; [done|]. by eapply list_elem_of_lookup_2.
  - apply list_fmap_ext. intros k x Hx. rewrite in_of_snoc. unfold is_end. rewrite Hl. case_bool_decide as Hc; [|done]. simpl in Hc. destruct Hc as [<- ->]. destruct Hi; [done|]. by eapply list_elem_of_lookup_2.
Qed.
Lemma Forall2_at tr tr' top ns k pl n n' : Forall2 (at_place tr) top ns → top !! k = Some pl → ns !! k = Some n → at_place tr' pl n' →
  (∀ j pl' m, j ≠ k → top !! j = Some pl' → at_place tr pl' m → at_place tr' pl' m) → Forall2 (at_place tr') top (<[k := n']> ns).
Proof.
  intros Hall Hk Hn Hn' Hrest. apply Forall2_same_length_lookup_2; [rewrite length_insert; by eapply Forall2_length|]. intros j pl' m Hj Hm.
  destruct (decide (k = j)) as [<-|Hne].
  - rewrite list_lookup_insert_eq in Hm by (by eapply lookup_lt_Some). by simplify_eq.
  - rewrite list_lookup_insert_ne in Hm by done. eapply Hrest; [done|done|]. destruct (Forall2_lookup_l _ _ _ _ _ Hall Hj) as (m' & Hm' & Hat). by simplify_eq.
Qed.
Lemma net_inv_life top tr ps ns k n l : net_inv top tr (mkNet ps ns) → ns !! k = Some n → life_step (n_proc n) (n_life n) l →
  net_inv top tr (mkNet ps (<[k := set_life n l]> ns)).
Proof.
  intros [Hp Hn] Hk Hl. split; simpl in *; [done|]. destruct (Forall2_lookup_r _ _ _ _ _ Hn Hk) as (pl & Hpl & Hat).
  eapply Forall2_at; [done|done|done| |done]. destruct Hat as (lf & -> & Hok). eexists. split; [done|]. by eapply life_step_ok.
Qed.
(** The ends of a node after one of its calls. *)
Lemma ends_of_in tr i c a ins outs idx : NoDup ins → ins !! idx = Some i →
  ends_of (tr ++ [(i, CONSUMER, c, a)]) ins outs = mkEnds (<[idx := in_next (in_of tr i) c a]> (in_of tr <$> ins)) (out_of tr <$> outs).
Proof.
  intros Hnd Hi. unfold ends_of. f_equal.
  - replace (in_next (in_of tr i) c a) with (in_of (tr ++ [(i, CONSUMER, c, a)]) i) by (rewrite in_of_snoc; unfold is_end; by rewrite bool_decide_true).
    apply fmap_update; [done|done|]. intros j Hj. rewrite in_of_snoc. unfold is_end. rewrite bool_decide_false; [done|]. simpl. intros [-> _]. done.
  - apply list_fmap_ext. intros k x _. rewrite out_of_snoc. unfold is_end. rewrite bool_decide_false; [done|]. simpl. by intros [_ ?].
Qed.
Lemma ends_of_out tr i c a ins outs idx : NoDup outs → outs !! idx = Some i →
  ends_of (tr ++ [(i, PRODUCER, c, a)]) ins outs = mkEnds (in_of tr <$> ins) (<[idx := out_next (out_of tr i) c a]> (out_of tr <$> outs)).
Proof.
  intros Hnd Hi. unfold ends_of. f_equal.
  - apply list_fmap_ext. intros k x _. rewrite in_of_snoc. unfold is_end. rewrite bool_decide_false; [done|]. simpl. by intros [_ ?].
  - replace (out_next (out_of tr i) c a) with (out_of (tr ++ [(i, PRODUCER, c, a)]) i) by (rewrite out_of_snoc; unfold is_end; by rewrite bool_decide_true).
    apply fmap_update; [done|done|]. intros j Hj. rewrite out_of_snoc. unfold is_end. rewrite bool_decide_false; [done|]. simpl. intros [-> _]. done.
Qed.
Lemma ni_ports_call tr l (ps : list (port_hist Data)) i t p' st :
  l.1.1 = (i, t) → (∀ j p, ps !! j = Some p → ∃ st, port_inv p (out_of tr j) (in_of tr j) st) → port_inv p' (out_of (tr ++ [l]) i) (in_of (tr ++ [l]) i) st →
  ∀ j p, <[i := p']> ps !! j = Some p → ∃ st, port_inv p (out_of (tr ++ [l]) j) (in_of (tr ++ [l]) j) st.
Proof.
  intros Hl Hps Hp' j p [(<- & <- & _)|[Hne Hj]]%list_lookup_insert_Some; [by exists st|]. destruct (Hps _ _ Hj) as [st' Hst']. exists st'.
  rewrite out_of_snoc, in_of_snoc. unfold is_end. rewrite Hl. rewrite !bool_decide_false by (simpl; by intros [? _]). done.
Qed.
Lemma net_inv_call top np tr ps ns k n x c kont i (p p' : port_hist Data) a : wired top np → net_inv top tr (mkNet ps ns) →
  ns !! k = Some n → n_life n = Busy (Call x c kont) → port_of n x = Some i → ps !! i = Some p → spec_step p (thread_of x, c, a) p' →
  net_inv top (tr ++ [(i, thread_of x, c, a)]) (mkNet (<[i := p']> ps) (<[k := set_life n (Busy (kont a))]> ns)).
Proof.
  intros [Win Wout _ _] [Hp Hn] Hk Hl Hx Hi Hstep. simpl in *. destruct (NoDup_concat _ Win) as [Nin Din]. destruct (NoDup_concat _ Wout) as [Nout Dout].
  destruct (Forall2_lookup_r _ _ _ _ _ Hn Hk) as (pl & Hpl & Hat). destruct (Hp _ _ Hi) as [st Hst].
  assert (∀ j pl' m, j ≠ k → top !! j = Some pl' → at_place tr pl' m → at_place (tr ++ [(i, thread_of x, c, a)]) pl' m) as Hrest.
  { intros j pl' m Hj Hpl' Hm. assert (pl_ins pl = n_ins n ∧ pl_outs pl = n_outs n) as [Eins Eouts] by (by destruct Hat as (? & -> & _)).
    eapply at_place_frame; [done| | |done]; intros Ht; destruct x as [idx|idx]; try done; simpl in Hx; apply list_elem_of_lookup_2 in Hx.
    - rewrite <- Eins in Hx. eapply (Din k j); [done|by rewrite list_lookup_fmap, Hpl|by rewrite list_lookup_fmap, Hpl'|done].
    - rewrite <- Eouts in Hx. eapply (Dout k j); [done|by rewrite list_lookup_fmap, Hpl|by rewrite list_lookup_fmap, Hpl'|done]. }
  assert (NoDup (pl_ins pl)) as Nins by (eapply Nin; by rewrite list_lookup_fmap, Hpl). assert (NoDup (pl_outs pl)) as Nouts by (eapply Nout; by rewrite list_lookup_fmap, Hpl).
  destruct Hat as (lf & -> & Hok). simpl in *. subst lf. destruct Hok as [_ Hok]. destruct pl as [P L s0 ins outs]. destruct x as [idx|idx]; simpl in *.
  - rewrite list_lookup_fmap, Hx in Hok. destruct Hok as [Hmay Hok]. destruct (consumer_step _ _ _ _ _ _ _ Hst Hstep Hmay) as (Hsound & st' & Hst'). split; simpl.
    + eapply ni_ports_call; [done|done|]. rewrite out_of_snoc, in_of_snoc. unfold is_end. rewrite bool_decide_false, bool_decide_true by (done || by intros [_ ?]). done.
    + eapply Forall2_at; [done|done|done| |done]. eexists. split; [done|]. simpl. erewrite ends_of_in by done. by apply Hok.
  - rewrite list_lookup_fmap, Hx in Hok. destruct Hok as [Hmay Hok]. destruct (producer_step _ _ _ _ _ _ _ Hst Hstep Hmay) as (Hsound & st' & Hst'). split; simpl.
    + eapply ni_ports_call; [done|done|]. rewrite out_of_snoc, in_of_snoc. unfold is_end. rewrite bool_decide_true, bool_decide_false by (done || by intros [_ ?]). done.
    + eapply Forall2_at; [done|done|done| |done]. eexists. split; [done|]. simpl. erewrite ends_of_out by done. by apply Hok.
Qed.

(** ** Every pipeline of lawful processors *)
Definition net_atomic (top : list place) (np : nat) : @net E atomic_ports := mkNet (replicate np (hist_create : @port E atomic_ports)) (place_node <$> top).
Lemma net_inv_start top np : wired top np → net_inv top [] (net_atomic top np).
Proof.
  intros [_ _ _ Hs]. split; simpl.
  - intros i p [-> _]%lookup_replicate. exists port_empty. apply port_inv_create.
  - apply Forall2_fmap_r. induction Hs as [|pl top Hpl _ IH]; constructor; [|done]. by exists (Idle (pl_start pl)).
Qed.
Lemma net_run top np tr w : wired top np → net_steps (net_create top np) tr w → ∃ a, net_sim w a ∧ net_inv top tr a.
Proof.
  intros Hw Hrun. assert (net_sim (net_create top np) (net_atomic top np)) as Hsim.
  { split; [|done]. simpl. apply Forall2_replicate. apply sim_create. }
  destruct (net_sim_steps _ _ _ _ Hrun Hsim) as (a & Ha & Hrun'). exists a. split; [done|]. clear Hrun Hsim Ha w.
  remember (net_atomic top np) as a0 eqn:E0. induction Hrun' as [a|a tr a1 l a2 _ IH Hstep]; subst; [by apply net_inv_start|]. specialize (IH eq_refl).
  destruct Hstep as [ps ns k n lf Hk Hl|ps ns i p p' Hi Hnext _|ps ns k n x c kont i p p' b Hk Hn Hx Hi Hnext]; simpl; rewrite ?app_nil_r.
  - by eapply net_inv_life.
  - simpl in Hnext. subst p'. by rewrite list_insert_id.
  - by eapply net_inv_call.
Qed.
(** The blocks pushed to a port and pulled from it, in their order. *)
Definition pushed tr i : list Data := omap (λ l, if is_end i PRODUCER l then match l.1.2 with PushData data => Some data | _ => None end else None) tr.
Definition pulled tr i : list Data := omap (λ l, if is_end i CONSUMER l then match l.1.2, l.2 with PullData, ABlock r => r | _, _ => None end else None) tr.
Lemma pushed_of tr i : o_pushed (out_of tr i) = pushed tr i.
Proof.
  induction tr as [|l tr IH] using rev_ind; [done|]. unfold pushed. rewrite out_of_snoc, omap_app. fold (pushed tr i). rewrite <- IH. simpl.
  destruct (is_end i PRODUCER l); [|by rewrite app_nil_r]. destruct l as [[[j t] c] a]. simpl. destruct c, a; simpl; by rewrite ?app_nil_r.
Qed.
Lemma pulled_of tr i : i_pulled (in_of tr i) = pulled tr i.
Proof.
  induction tr as [|l tr IH] using rev_ind; [done|]. unfold pulled. rewrite in_of_snoc, omap_app. fold (pulled tr i). rewrite <- IH. simpl.
  destruct (is_end i CONSUMER l); [|by rewrite app_nil_r]. destruct l as [[[j t] c] a]. simpl. destruct c, a as [| |r|]; simpl; by rewrite ?app_nil_r.
Qed.
(** C15: in any pipeline of processors that keep the discipline, however their accesses to the shared words interleave and
    whenever the executor asks them, no processor panics on a port that it took to have a block, and every port delivers
    the blocks pushed to it in their order, each at most once and none lost: what was pushed is what was pulled and at most
    one block, which lies in its box at the address in the word.  What each processor promises of its blocks holds too. *)
Theorem pipeline_delivers top np tr w : wired top np → net_steps (net_create top np) tr w →
  (∀ n, n ∈ nodes w → n_life n ≠ Busy Crash) ∧
  (∀ i s, ports w !! i = Some s → ∃ word st, last (order s) = Some word ∧ word_is (boxes s) word st ∧ pushed tr i = pulled tr i ++ option_list (slot st)) ∧
  Forall2 (at_place tr) top (nodes w).
Proof.
  intros Hw Hrun. destruct (net_run _ _ _ _ Hw Hrun) as (a & [Hp Hn] & [Hports Hnodes]). rewrite Hn. split; [|split; [|done]].
  - intros n Hin Hc. apply list_elem_of_lookup_1 in Hin as [k Hk]. destruct (Forall2_lookup_r _ _ _ _ _ Hnodes Hk) as (pl & _ & Hat). destruct Hat as (l & -> & _ & Hok). simpl in *. by subst l.
  - intros i s Hi. destruct (Forall2_lookup_l _ _ _ _ _ Hp Hi) as (p & Hpi & Hsim). destruct (Hports _ _ Hpi) as [st Hst]. destruct Hsim as [_ (wd & st' & Hwd & Hst' & Hword) _ _ _].
    assert (st' = st) as -> by (pose proof (pv_last _ _ _ _ Hst); congruence). exists wd, st. split; [done|]. split; [done|]. rewrite <- pushed_of, <- pulled_of. apply Hst.
Qed.
End lawful.
