(* ===== verification/PipelineLaws.v ===== *)
(** * The processors keep the discipline of the ports.

    For each processor: what it has pushed is what it makes of the blocks it has pulled, up to
    the blocks it still holds, and when it finishes its output it has handled all its input. *)
From S2P Require Import Prelude Column Port Pipeline PipelineProps.

(** Steps through a program: the call is allowed, and the answer has its shape. *)
Ltac wp_sound :=
  let H := fresh in intros ? H; simpl in H;
  lazymatch type of H with
  | True => clear H
  | ∃ _, _ ∧ _ => let Heof := fresh "Heof" in destruct H as ([] & -> & Heof)
  | _ => destruct H as [[] ->]
  end; simpl.
Ltac wp_call := simpl; split; [try done|wp_sound].

Section laws.
Context {E : Type}.
Abbreviation Data := (DataBlock + E)%type.
Implicit Types (x : in_end Data) (y : out_end Data) (bs : list DataBlock).
Definition goods (bs : list DataBlock) : list Data := inl <$> bs.

Lemma goods_inj bs bs' : goods bs = goods bs' → bs = bs'.
Proof. apply (inj (fmap inl)). Qed.
(** ** A processor between two ports *)

(** Its output is a function [f] of its input.  What it has pushed is a beginning of what [f] gives, whatever input follows;
    when it finishes its output, it has seen the end of its input, or more input makes no difference. *)
Definition stage_ok (f : list DataBlock → res E (list DataBlock)) x y : Prop :=
  o_clean y = true ∧ ∀ ins, i_pulled x = goods ins → ∃ outs, o_pushed y = goods outs ∧
    (∀ rest full, f (ins ++ rest) = Ok full → outs `prefix_of` full) ∧
    (o_done y = true →
      (i_eof x = true ∧ i_done x = false ∧ ∀ full, f ins = Ok full → full = outs) ∨ (∀ rest full, f (ins ++ rest) = Ok full → full = outs)).
Definition stage_any (f : list DataBlock → res E (list DataBlock)) (g : ends) : Prop := ∃ x y, g = mkEnds [x] [y] ∧ stage_ok f x y.

(** Nothing is promised after an error in the input. *)
Definition broken x : Prop := ∃ e, inr e ∈ i_pulled x.
Lemma broken_stage f x y : broken x → o_clean y = true → stage_any f (mkEnds [x] [y]).
Proof. intros [e He] Hc. exists x, y. split; [done|]. split; [done|]. intros ins Hins. rewrite Hins in He. apply list_elem_of_fmap in He as (b & Hb & _). done. Qed.
Lemma broken_by x (bs : list Data) e : i_pulled x = bs ++ [inr e] → broken x.
Proof. intros Hx. exists e. rewrite Hx. apply elem_of_app. right. by apply list_elem_of_singleton. Qed.

(** ** Processors that handle one block after the other *)
Section steps.
Context {S : Type} (step : S → DataBlock → res E (list DataBlock * S)).
Fixpoint step_all (s : S) bs : res E (list DataBlock * S) :=
  match bs with
  | [] => Ok ([], s)
  | b :: bs => let? ' (r, s) := step s b in let? ' (rs, s) := step_all s bs in Ok (r ++ rs, s)
  end.
Lemma step_all_app s bs1 bs2 : step_all s (bs1 ++ bs2) = let? ' (r1, s) := step_all s bs1 in let? ' (r2, s) := step_all s bs2 in Ok (r1 ++ r2, s).
Proof.
  revert s. induction bs1 as [|b bs1 IH]; intros s; simpl; [by destruct (step_all s bs2) as [[]| |]|].
  destruct (step s b) as [[r s']| |]; simpl; [|done..]. rewrite IH. destruct (step_all s' bs1) as [[r1 s1]| |]; simpl; [|done..].
  destruct (step_all s1 bs2) as [[r2 s2]| |]; simpl; [|done..]. by rewrite app_assoc.
Qed.
Definition step_fun (s0 : S) bs : res E (list DataBlock) := let? ' (r, _) := step_all s0 bs in Ok r.
(** No more blocks come out. *)
Definition exhausted (s : S) : Prop := ∀ bs r s', step_all s bs = Ok (r, s') → r = [].
(** The blocks [bs] have been handled, [inp] is at hand, [out] is ready. *)
Record stepped (s0 s : S) (inp out : option DataBlock) x y (bs outs : list DataBlock) : Prop := {
  sd_pulled : i_pulled x = goods (bs ++ option_list inp);
  sd_pushed : o_pushed y = goods outs;
  sd_all : step_all s0 bs = Ok (outs ++ option_list out, s);
  sd_clean : o_clean y = true;
  sd_done : o_done y = true → inp = None ∧ out = None ∧ (i_eof x = true ∧ i_done x = false ∨ exhausted s);
}.
Lemma stepped_stage s0 s inp out x y bs outs : stepped s0 s inp out x y bs outs → stage_any (step_fun s0) (mkEnds [x] [y]).
Proof.
  intros [Hin Hout Hall Hclean Hdone]. exists x, y. split; [done|]. split; [done|]. intros ins Hins. rewrite Hin in Hins. apply goods_inj in Hins as <-. exists outs. split; [done|].
  unfold step_fun. split.
  - intros rest full. rewrite <- app_assoc, step_all_app, Hall. simpl. destruct (step_all s _) as [[r t']| |]; simpl; [|done..]. intros [= <-]. rewrite <- app_assoc. by apply prefix_app_r.
  - intros Hd. destruct (Hdone Hd) as (-> & -> & Hend). simpl in *. rewrite !app_nil_r in *. destruct Hend as [[He Hi]|Hex]; [left|right].
    + split; [done|]. split; [done|]. intros full. rewrite Hall. simpl. by intros [= <-].
    + intros rest full. rewrite step_all_app, Hall. simpl. destruct (step_all s rest) as [[r t']| |] eqn:Hr; simpl; [|done..]. intros [= <-]. by rewrite (Hex _ _ _ Hr), app_nil_r.
Qed.
End steps.

(** ** Transforms *)
Definition kept (T : Transform (E:=E)) (b : DataBlock) : list DataBlock := if negb (SKIP_EMPTY_DATA_BLOCK T) || negb (block_is_empty b) then [b] else [].
Definition transform_step (T : Transform (E:=E)) (t : tr_state T) (b : DataBlock) : res E (list DataBlock * tr_state T) :=
  let? ' (b, t) := transform T t b in Ok (kept T b, t).
Definition transformer_inv (T : Transform (E:=E)) (t0 : tr_state T) (s : Transformer T) (g : ends) : Prop :=
  ∃ x y bs outs, g = mkEnds [x] [y] ∧ stepped (transform_step T) t0 (t_transform s) (t_input_data s) (t_output_data s) x y bs outs ∧
    (is_Some (t_input_data s) → t_output_data s = None) ∧ i_done x = false ∧ o_done y = false.
Lemma transformer_event_ok T t0 s g : stage_any (step_fun (transform_step T) t0) g → transformer_inv T t0 s g →
  wp (stage_any (step_fun (transform_step T) t0)) (transformer_event s) (after_event (transformer_inv T t0) (transformer_inv T t0) (λ _, stage_any (step_fun (transform_step T) t0))) g.
Proof.
  destruct s as [t inp out]. intros _ (x & y & bs & outs & -> & Htd & Hone & Hi & Ho). unfold transformer_event. simpl in *.
  assert (∀ x' y', i_pulled x' = i_pulled x → o_pushed y' = o_pushed y → o_clean y' = true → o_done y' = false → stepped (transform_step T) t0 t inp out x' y' bs outs) as Hsame.
  { intros x' y' Ex Ey Hc Hd. destruct Htd. split; congruence. }
  pose proof Htd as [Hin Hout Hall Hclean _].
  wp_call; (split; [eapply stepped_stage, Hsame; simpl; auto|]).
  { wp_call; split; eapply stepped_stage, Hsame; simpl; auto. }
  wp_call; (split; [eapply stepped_stage, Hsame; simpl; auto|]).
  2:{ wp_call. split; [eapply stepped_stage, Hsame; simpl; auto|]. eexists _, _, bs, outs. split; [done|]. split; [apply Hsame; simpl; auto|done]. }
  destruct out as [d|].
  - destruct inp as [b|]; [by discriminate (Hone (mk_is_Some _ _ eq_refl))|]. split; [simpl; by rewrite orb_true_r|]. wp_sound.
    match goal with |- stage_any _ (mkEnds [?x'] [?y']) ∧ _ => assert (stepped (transform_step T) t0 t None None x' y' bs (outs ++ [d])) as Hnew end.
    { split; simpl; try done; [rewrite Hout; unfold goods; by rewrite fmap_app|by rewrite app_nil_r|congruence]. }
    split; [by eapply stepped_stage|]. by eexists _, _, bs, (outs ++ [d]).
  - case_bool_decide as Hinp; [eexists _, _, bs, outs; split; [done|]; split; [apply Hsame; simpl; auto|done]|]. assert (inp = None) as -> by (by apply eq_None_not_Some).
    unfold transformer_pull_data. simpl in *. rewrite app_nil_r in *. wp_call; (split; [eapply stepped_stage, Hsame; simpl; auto|]).
    + split; [done|]. intros a (r & -> & Hr). simpl in Hr. rewrite orb_true_r in Hr. destruct (Hr eq_refl) as [d ->]. simpl. destruct d as [b|e].
      * match goal with |- stage_any _ (mkEnds [?x'] [?y']) ∧ _ => assert (stepped (transform_step T) t0 t (Some b) None x' y' bs outs) as Hnew end.
        { split; simpl; try done; [rewrite Hin; unfold goods; by rewrite fmap_app|by rewrite app_nil_r|congruence]. }
        split; [by eapply stepped_stage|]. by eexists _, _, bs, outs.
      * split; [|done]. apply broken_stage; [by eapply broken_by|done].
    + wp_call; (split; [eapply stepped_stage, Hsame; simpl; auto|]); wp_call.
      1,2: match goal with |- stage_any _ (mkEnds [?x'] [?y']) ∧ _ => assert (stepped (transform_step T) t0 t None None x' y' bs outs) as Hnew end;
        [split; simpl; rewrite ?app_nil_r, ?orb_true_r; auto; by rewrite Hclean|]; split; by eapply stepped_stage.
      all: (split; [eapply stepped_stage, Hsame; simpl; auto|]); eexists _, _, bs, outs; (split; [done|]); split; [apply Hsame; simpl; auto|done].
Qed.
Lemma transformer_process_ok T t0 s g s' : transformer_inv T t0 s g → transformer_process s = Ok s' → transformer_inv T t0 s' g.
Proof.
  destruct s as [t inp out]. intros (x & y & bs & outs & -> & [Hin Hout Hall Hclean Hdone] & Hone & Hi & Ho). unfold transformer_process. simpl in *. destruct inp as [b|]; [|intros [= <-]; by eexists _, _, bs, outs].
  specialize (Hone (mk_is_Some _ _ eq_refl)) as ->. simpl in *. rewrite app_nil_r in Hall. destruct (transform T t b) as [[b' t']| |] eqn:Ht; simpl; [|done..]. intros [= <-].
  exists x, y, (bs ++ [b]), outs. split; [done|]. simpl. split; [|done]. split; simpl; rewrite ?app_nil_r; try done; [|congruence]. rewrite step_all_app, Hall. simpl. unfold transform_step. rewrite Ht. simpl. rewrite app_nil_r. unfold kept. by destruct (_ || _).
Qed.
Definition transformer_law (T : Transform (E:=E)) (t0 : tr_state T) : Lawful (TransformerProcessor T) :=
  mkLawful (TransformerProcessor T) _ _ _ _ (transformer_event_ok T t0) (transformer_process_ok T t0).

(** ** LIMIT and OFFSET *)
Definition spent (s : TransformLimit) : bool := (skip_remaining s =? 0) && (take_remaining s =? 0).
Definition limit_step (s : TransformLimit) (b : DataBlock) : res E (list DataBlock * TransformLimit) :=
  if spent s then Ok (match l_mode s with ONLY_OFFSET => [b] | _ => [] end, s)
  else let? s := limit_process (set_input_block s (Some b)) in Ok (option_list (output_data_block s), set_output_block s None).
Definition limit_core (s : TransformLimit) : TransformLimit := set_input_block (set_output_block s None) None.
Definition limit_inv (s0 : TransformLimit) (work : bool) (s : TransformLimit) (g : ends) : Prop :=
  ∃ x y, g = mkEnds [x] [y] ∧ i_done x = false ∧ o_done y = false ∧
    ((∃ bs outs, stepped limit_step s0 (limit_core s) (input_data_block s) (output_data_block s) x y bs outs ∧
        if work then is_Some (input_data_block s) ∧ output_data_block s = None ∧ spent s = false else input_data_block s = None) ∨
     broken x ∧ o_clean y = true ∧ work = false ∧ s = mkLimit ONLY_OFFSET 0 0 None None).
Lemma limit_exhausted s : spent s = true → l_mode s ≠ ONLY_OFFSET → exhausted limit_step s.
Proof.
  intros Hs Hm bs. induction bs as [|b bs IH]; intros r s'; simpl; [by intros [= <- _]|]. unfold limit_step at 1. rewrite Hs. destruct (l_mode s); try done; simpl.
  all: destruct (step_all limit_step s bs) as [[r' s'']| |] eqn:Hr; simpl; [|done..]; intros [= <- _]; by eapply IH.
Qed.
Abbreviation limit_wp s0 := (λ p, wp (stage_any (step_fun limit_step s0)) p (after_event (limit_inv s0 false) (limit_inv s0 true) (λ _, stage_any (step_fun limit_step s0)))).
Lemma stepped_same {S} (step : S → DataBlock → res E (list DataBlock * S)) s0 s inp out x y bs outs x' y' : stepped step s0 s inp out x y bs outs →
  i_pulled x' = i_pulled x → o_pushed y' = o_pushed y → o_clean y' = true → o_done y' = false → stepped step s0 s inp out x' y' bs outs.
Proof. intros [] Ex Ey Hc Hd. split; congruence. Qed.
(** The end of the input is the end of the output. *)
Lemma limit_last s0 s x y bs outs : stepped limit_step s0 s None None x y bs outs → i_eof x = true → i_done x = false → o_armed y = true →
  limit_wp s0 (tell (Out 0) Finish ;; Ret (Finished, s))%prog (mkEnds [x] [y]).
Proof.
  intros Hsd He Hi Harm. pose proof Hsd as [Hin Hout Hall Hclean _]. wp_call; (split; eapply (stepped_stage _ s0 s None None _ _ bs outs); split; simpl; rewrite ?Harm, ?Hclean; auto).
Qed.
Lemma limit_need s0 s x y bs outs : stepped limit_step s0 (limit_core s) None (output_data_block s) x y bs outs → input_data_block s = None → i_done x = false → o_done y = false →
  limit_wp s0 (tell (In 0) SetNeedData ;; Ret (NeedData, s))%prog (mkEnds [x] [y]).
Proof.
  intros Hsd Hn Hi Ho. pose proof (sd_clean _ _ _ _ _ _ _ _ _ Hsd). wp_call; (split; [eapply stepped_stage, stepped_same; [exact Hsd|done..]|]); rewrite <- Hn in Hsd; eexists _, _; repeat (split; [done|]); left; exists bs, outs; (split; [by eapply stepped_same|done]).
Qed.
Lemma limit_pull_ok s0 mode tk sk x y bs outs : let s := mkLimit mode tk sk None None in
  stepped limit_step s0 s None None x y bs outs → i_done x = false → o_done y = false → o_armed y = true → spent s = false → limit_wp s0 (limit_pull s) (mkEnds [x] [y]).
Proof.
  intros s Hsd Hi Ho Harm Hspent. pose proof Hsd as [Hin Hout Hall Hclean _]. unfold limit_pull. simpl in *. rewrite app_nil_r in *.
  wp_call; (split; [eapply stepped_stage, stepped_same; [exact Hsd|done..]|]).
  { apply limit_last with (bs := bs) (outs := outs); simpl; try done; [by eapply stepped_same|by rewrite orb_true_r]. }
  wp_call; (split; [eapply stepped_stage, stepped_same; [exact Hsd|done..]|]).
  2:{ apply limit_need with (bs := bs) (outs := outs); simpl; try done. by eapply stepped_same. }
  split; [done|]. intros a (r & -> & Hr). simpl in Hr. rewrite orb_true_r in Hr. destruct (Hr eq_refl) as [d ->]. simpl. destruct d as [b|e].
  - match goal with |- stage_any _ (mkEnds [?x'] [?y']) ∧ _ => assert (stepped limit_step s0 s (Some b) None x' y' bs outs) as Hnew end.
    { split; simpl; rewrite ?app_nil_r; try done; [rewrite Hin; unfold goods; by rewrite fmap_app|congruence]. }
    split; [by eapply stepped_stage|]. eexists _, _. do 3 (split; [done|]). left. by exists bs, outs.
  - split; [|done]. apply broken_stage; [by eapply broken_by|done].
Qed.
Lemma limit_forward_ok s0 tk sk x y bs outs : let s := mkLimit ONLY_OFFSET tk sk None None in
  stepped limit_step s0 s None None x y bs outs → i_done x = false → o_done y = false → o_armed y = true → spent s = true → limit_wp s0 (limit_forward s) (mkEnds [x] [y]).
Proof.
  intros s Hsd Hi Ho Harm Hspent. pose proof Hsd as [Hin Hout Hall Hclean _]. unfold limit_forward. simpl in *. rewrite app_nil_r in *.
  wp_call; (split; [eapply stepped_stage, stepped_same; [exact Hsd|done..]|]).
  { apply limit_last with (bs := bs) (outs := outs); simpl; try done; [by eapply stepped_same|by rewrite orb_true_r]. }
  wp_call; (split; [eapply stepped_stage, stepped_same; [exact Hsd|done..]|]).
  2:{ apply limit_need with (bs := bs) (outs := outs); simpl; try done. by eapply stepped_same. }
  split; [done|]. intros a (r & -> & Hr). simpl in Hr. rewrite orb_true_r in Hr. destruct (Hr eq_refl) as [d ->]. simpl. destruct d as [b|e].
  - assert (∀ out o, outs ++ [b] = o ++ option_list out → step_all limit_step s0 (bs ++ [b]) = Ok (o ++ option_list out, s)) as Hstep.
    { intros out o <-. rewrite step_all_app, Hall. simpl. unfold limit_step. by rewrite Hspent. }
    split. { eapply (stepped_stage _ s0 s None (Some b) _ _ (bs ++ [b]) outs). split; simpl; rewrite ?app_nil_r; try done; [rewrite Hin; unfold goods; by rewrite fmap_app|by apply (Hstep (Some b))|congruence]. }
    split; [done|]. intros a _. match goal with |- stage_any _ (mkEnds [?x'] [?y']) ∧ _ => assert (stepped limit_step s0 s None None x' y' (bs ++ [b]) (outs ++ [b])) as Hnew end.
    { split; simpl; rewrite ?app_nil_r; try done; [rewrite Hin; unfold goods; by rewrite fmap_app|rewrite Hout; unfold goods; by rewrite fmap_app|by rewrite (Hstep None _ (eq_sym (app_nil_r _))), app_nil_r|congruence]. }
    split; [by eapply stepped_stage|]. eexists _, _. do 3 (split; [done|]). left. by exists (bs ++ [b]), (outs ++ [b]).
  - split; [apply broken_stage; [by eapply broken_by|done]|]. split; [done|]. intros a _. split; [apply broken_stage; [by eapply broken_by|done]|]. 
    eexists _, _. do 3 (split; [done|]). right. split; [by eapply broken_by|]. split; [done|]. split; [done|]. unfold s in *. unfold spent in Hspent. simpl in Hspent.
    apply andb_true_iff in Hspent as [->%Nat.eqb_eq ->%Nat.eqb_eq]. done.
Qed.
Lemma broken_next x c a : broken x → broken (in_next x c a).
Proof. intros [e He]. exists e. destruct c, a; simpl; try done. apply elem_of_app. by left. Qed.
(** After an error was handed on, nothing is promised but the discipline. *)
Lemma limit_broken s0 x y : broken x → o_clean y = true → i_done x = false → o_done y = false → limit_wp s0 (limit_event (mkLimit ONLY_OFFSET 0 0 None None)) (mkEnds [x] [y]).
Proof.
  intros Hb Hclean Hi Ho. unfold limit_event, limit_forward.
  assert (∀ x' y', i_pulled x' = i_pulled x → o_clean y' = true → stage_any (step_fun limit_step s0) (mkEnds [x'] [y'])) as Hany by (intros x' y' Ex Hc; apply broken_stage; [destruct Hb as [e He]; exists e; by rewrite Ex|done]).
  assert (∀ x' y' w, i_pulled x' = i_pulled x → o_clean y' = true → i_done x' = false → o_done y' = false → w = false → limit_inv s0 w (mkLimit ONLY_OFFSET 0 0 None None) (mkEnds [x'] [y'])) as Hinv.
  { intros x' y' w Ex Hc Hx Hy ->. eexists x', y'. do 3 (split; [done|]). right. split; [|done]. destruct Hb as [e He]. exists e. by rewrite Ex. }
  wp_call; (split; [by apply Hany|]); [wp_call; split; by apply Hany|].
  wp_call; (split; [by apply Hany|]); [|wp_call; split; [by apply Hany|by apply Hinv]].
  wp_call; (split; [by apply Hany|]); [wp_call; split; apply Hany; simpl; rewrite ?orb_true_r, ?Hclean; done|].
  wp_call; (split; [by apply Hany|]); [|wp_call; split; [by apply Hany|by apply Hinv|by apply Hany|by apply Hinv]].
  split; [done|]. intros a (r & -> & Hr). simpl in Hr. rewrite orb_true_r in Hr. destruct (Hr eq_refl) as [v ->]. simpl.
  assert (∀ f y' c1 c2 c3, o_clean y' = true → stage_any f (mkEnds [mkIn (i_pulled x ++ [v]) c1 c2 c3] [y']) ∧ broken (mkIn (i_pulled x ++ [v]) c1 c2 c3)) as Hmore.
  { intros f y' c1 c2 c3 Hc. assert (broken (mkIn (i_pulled x ++ [v]) c1 c2 c3)) as Hb' by (destruct Hb as [e He]; exists e; apply elem_of_app; by left). split; [by apply broken_stage|done]. }
  split; [by apply Hmore|]. split; [simpl; by rewrite orb_true_r|]. intros a _. split; [by apply Hmore|]. eexists _, _. do 3 (split; [done|]). right. split; [|done]. by apply (Hmore (step_fun limit_step s0) y).
Qed.
Lemma limit_event_ok s0 s g : stage_any (step_fun limit_step s0) g → limit_inv s0 false s g → limit_wp s0 (limit_event s) g.
Proof.
  intros _ (x & y & -> & Hi & Ho & [(bs & outs & Hsd & Hinp)|(Hb & Hc & _ & ->)]); [|by apply limit_broken]. destruct s as [mode tk sk inp out]. simpl in *. subst inp.
  pose proof Hsd as [Hin Hout Hall Hclean _]. unfold limit_event. simpl in *.
  wp_call; (split; [eapply stepped_stage, stepped_same; [exact Hsd|done..]|]).
  { wp_call; split; (eapply stepped_stage, stepped_same; [exact Hsd|done..]). }
  wp_call; (split; [eapply stepped_stage, stepped_same; [exact Hsd|done..]|]).
  2:{ wp_call. split; [eapply stepped_stage, stepped_same; [exact Hsd|done..]|]. eexists _, _. do 3 (split; [done|]). left. exists bs, outs. split; [by eapply stepped_same|done]. }
  destruct out as [d|].
  { split; [simpl; by rewrite orb_true_r|]. wp_sound.
    match goal with |- stage_any _ (mkEnds [?x'] [?y']) ∧ _ => assert (stepped limit_step s0 (mkLimit mode tk sk None None) None None x' y' bs (outs ++ [d])) as Hnew end.
    { split; simpl; try done; [rewrite Hout; unfold goods; by rewrite fmap_app|by rewrite app_nil_r|congruence]. }
    split; [by eapply stepped_stage|]. eexists _, _. do 3 (split; [done|]). left. by exists bs, (outs ++ [d]). }
  change ((sk =? 0) && (tk =? 0)) with (spent (mkLimit mode tk sk None None)). destruct (spent _) eqn:Hspent.
  2:{ apply limit_pull_ok with (bs := bs) (outs := outs); simpl; try done; [by eapply stepped_same|by rewrite orb_true_r]. }
  destruct mode; [|apply limit_forward_ok with (bs := bs) (outs := outs); simpl; try done; [by eapply stepped_same|by rewrite orb_true_r]|].
  all: wp_call; (split; [eapply stepped_stage, stepped_same; [exact Hsd|done..]|]); wp_call.
  all: split; eapply (stepped_stage _ s0 _ None None _ _ bs outs); split; simpl; rewrite ?orb_true_r, ?Hclean; try done; intros _; (do 2 (split; [done|])); right; by apply limit_exhausted.
Qed.
Lemma limit_process_inputs s s' : limit_process (E:=E) s = Ok s' → input_data_block s' = None.
Proof.
  unfold limit_process. destruct s as [mode tk sk [b|] out]; simpl; [|by intros [= <-]]. unfold take_rows, skip_rows. simpl.
  destruct mode; simpl; repeat (case_decide || case_match || destruct (block_slice b _ _) as [?| |]); simpl; intros Hs; by simplify_eq/=.
Qed.
Lemma limit_process_ok s0 s g s' : limit_inv s0 true s g → limit_process (E:=E) s = Ok s' → limit_inv s0 false s' g.
Proof.
  intros (x & y & -> & Hi & Ho & [(bs & outs & Hsd & Hb & Hout & Hspent)|(_ & _ & ? & _)]) Hp; [|done]. destruct s as [mode tk sk inp out]. simpl in *. subst out. destruct Hb as [b ->].
  exists x, y. do 3 (split; [done|]). left. exists (bs ++ [b]), outs. pose proof (limit_process_inputs _ _ Hp) as Hnone. split; [|done]. destruct Hsd as [Hin Hpush Hall Hclean _]. simpl in *. rewrite app_nil_r in Hall.
  rewrite Hnone. split; simpl; rewrite ?app_nil_r; try done; [|congruence]. rewrite step_all_app, Hall. simpl. unfold limit_step.
  change (spent (limit_core (mkLimit mode tk sk (Some b) None))) with (spent (mkLimit mode tk sk (Some b) None)). rewrite Hspent. unfold set_input_block, limit_core at 1. simpl. rewrite Hp. simpl. rewrite app_nil_r.
  destruct s' as [m' t' k' i' o']. simpl in *. by subst i'.
Qed.
Definition limit_law (s0 : TransformLimit) : Lawful (E:=E) LimitProcessor :=
  mkLawful LimitProcessor _ _ _ _ (limit_event_ok s0) (limit_process_ok s0).

(** ** Sources *)
Inductive generates (G : SyncSource (E:=E)) (g0 : src_state G) : list DataBlock → src_state G → Prop :=
  | gen_nil : generates G g0 [] g0
  | gen_snoc bs g b g' : generates G g0 bs g → generate G g = Ok (Some b, g') → generates G g0 (bs ++ [b]) g'.
(** All blocks of a source. *)
Definition generates_all (G : SyncSource (E:=E)) (g0 : src_state G) bs : Prop := ∃ g g', generates G g0 bs g ∧ generate G g = Ok (None, g').
Lemma generates_det G g0 bs g bs' g' : generates G g0 bs g → generates G g0 bs' g' → length bs ≤ length bs' → bs `prefix_of` bs' ∧ (length bs = length bs' → bs = bs' ∧ g = g').
Proof.
  intros H1 H2. revert bs g H1. induction H2 as [|bs' h b h' H2 IH Hb]; intros bs g H1 Hle.
  - destruct H1 as [|bs g b g']; [done|]. rewrite length_app in Hle. simpl in Hle. lia.
  - rewrite length_app in *. simpl in *. destruct (decide (length bs ≤ length bs')) as [Hl|Hl].
    + destruct (IH _ _ H1 Hl) as [Hp _]. split; [by apply prefix_app_r|lia].
    + destruct H1 as [|bs g c g' H1 Hc]; [simpl in Hl; lia|]. rewrite length_app in *. simpl in *. destruct (IH _ _ H1 ltac:(lia)) as [_ Heq]. destruct (Heq ltac:(lia)) as [-> ->]. rewrite Hb in Hc. simplify_eq. by split.
Qed.
Lemma generates_all_max G g0 bs g bs' : generates G g0 bs g → generates_all G g0 bs' → bs `prefix_of` bs'.
Proof.
  intros H1 (h & h' & H2 & Hnone). destruct (decide (length bs ≤ length bs')) as [Hl|Hl]; [by eapply generates_det|]. exfalso.
  assert (∃ g1 b g2, generates G g0 bs' g1 ∧ generate G g1 = Ok (Some b, g2)) as (g1 & b & g2 & Hg1 & Hb).
  { induction H1 as [|bs g b g' H1 IH Hb]; [simpl in Hl; lia|]. rewrite length_app in Hl. simpl in Hl. destruct (decide (length bs = length bs')) as [He|He]; [|apply IH; lia].
    exists g, b, g'. split; [|done]. destruct (generates_det _ _ _ _ _ _ H1 H2 ltac:(lia)) as [_ Heq]. by destruct (Heq He) as [<- _]. }
  destruct (generates_det _ _ _ _ _ _ Hg1 H2 ltac:(lia)) as [_ Heq]. destruct (Heq eq_refl) as [_ ->]. congruence.
Qed.
(** The source has pushed [outs]; [more] is what it has generated since. *)
Record sourced (G : SyncSource (E:=E)) (g0 gn : src_state G) y (outs : list DataBlock) (more : option DataBlock) : Prop := {
  so_pushed : o_pushed y = goods outs;
  so_gen : generates G g0 (outs ++ option_list more) gn;
  so_clean : o_clean y = true;
  so_done : o_done y = true → generates_all G g0 outs;
}.
Definition source_any (G : SyncSource (E:=E)) (g0 : src_state G) (g : ends) : Prop := ∃ y gn outs more, g = mkEnds [] [y] ∧ sourced G g0 gn y outs more.
Definition source_idle (G : SyncSource (E:=E)) (g0 : src_state G) (s : SyncSourcer G) (g : ends) : Prop :=
  ∃ y gn outs more, g = mkEnds [] [y] ∧ sourced G g0 gn y outs more ∧ o_done y = false ∧
    if is_finish s then o_armed y = true ∧ generates_all G g0 outs else gn = src_inner s ∧ more = generated_data s.
Definition source_work (G : SyncSource (E:=E)) (g0 : src_state G) (s : SyncSourcer G) (g : ends) : Prop :=
  ∃ y outs, g = mkEnds [] [y] ∧ sourced G g0 (src_inner s) y outs None ∧ o_done y = false ∧ o_armed y = true ∧ is_finish s = false ∧ generated_data s = None.
Lemma source_event_ok G g0 s g : source_any G g0 g → source_idle G g0 s g →
  wp (source_any G g0) (source_event s) (after_event (source_idle G g0) (source_work G g0) (λ _, source_any G g0)) g.
Proof.
  destruct s as [finish inner data]. intros _ (y & gn & outs & more & -> & Hso & Hdone & Hst). unfold source_event. simpl in *.
  assert (∀ y', o_pushed y' = o_pushed y → o_clean y' = true → o_done y' = false → sourced G g0 gn y' outs more) as Hsame.
  { intros y' Ey Hc Hd. destruct Hso. split; congruence. }
  pose proof Hso as [Hout Hgen Hclean _]. destruct finish; simpl in *.
  - destruct Hst as [Harm Hall]. wp_call; (split; eexists _, gn, outs, more; (split; [done|]); split; simpl; rewrite ?Harm, ?Hclean; done).
  - destruct Hst as [-> ->]. wp_call; (split; [eexists _, _, outs, data; split; [done|]; apply Hsame; simpl; auto|]).
    { eexists _, _, outs, data. split; [done|]. apply Hsame; simpl; auto. }
    wp_call; (split; [eexists _, _, outs, data; split; [done|]; apply Hsame; simpl; auto|]).
    2:{ eexists _, _, outs, data. split; [done|]. split; [apply Hsame; simpl; auto|done]. }
    destruct data as [b|]; simpl in *.
    + split; [by rewrite orb_true_r|]. wp_sound. match goal with |- source_any _ _ (mkEnds [] [?y']) ∧ _ => assert (sourced G g0 inner y' (outs ++ [b]) None) as Hnew end.
      { split; simpl; rewrite ?app_nil_r; try done; [rewrite Hout; unfold goods; by rewrite fmap_app|congruence]. }
      split; [by eexists _, _, _, None|]. by eexists _, _, _, None.
    + eexists _, outs. split; [done|]. split; [apply Hsame; simpl; auto|]. simpl. by rewrite orb_true_r.
Qed.
Lemma source_process_ok G g0 s g s' : source_work G g0 s g → source_process s = Ok s' → source_idle G g0 s' g.
Proof.
  destruct s as [finish inner data]. intros (y & outs & -> & [Hout Hgen Hclean Hd] & Hdone & Harm & Hf & Hdata). unfold source_process. simpl in *. subst finish data. rewrite app_nil_r in Hgen.
  destruct (generate G inner) as [[[b|] inner']| |] eqn:Hg; simpl; try done; intros [= <-].
  - exists y, inner', outs, (Some b). split; [done|]. split; [|done]. split; simpl; try done. by eapply gen_snoc.
  - exists y, inner, outs, None. split; [done|]. split; [|split; [done|]; simpl; split; [done|]; by exists inner, inner']. split; simpl; rewrite ?app_nil_r; try done.
Qed.
Definition source_law (G : SyncSource (E:=E)) (g0 : src_state G) : Lawful (SourceProcessor G) :=
  mkLawful (SourceProcessor G) _ _ _ _ (source_event_ok G g0) (source_process_ok G g0).

(** ** Sinks *)
Fixpoint consume_all (K : Sink (E:=E)) (k : sk_state K) bs : res E (sk_state K) :=
  match bs with [] => Ok k | b :: bs => let? k := consume K k b in consume_all K k bs end.
Lemma consume_all_snoc K k bs b : consume_all K k (bs ++ [b]) = let? k := consume_all K k bs in consume K k b.
Proof. revert k. induction bs as [|b' bs IH]; intros k; simpl; [by destruct (consume K k b)|]. destruct (consume K k b'); simpl; auto. Qed.
Definition sink_run (K : Sink (E:=E)) (k0 : sk_state K) bs : res E (sk_state K) := let? k := on_start K k0 in consume_all K k bs.
Definition sink_state (K : Sink (E:=E)) (k0 : sk_state K) (s : Sinker K) bs : Prop :=
  if called_on_finish s then called_on_start s = true ∧ sk_input_data s = None ∧ ∃ k, sink_run K k0 bs = Ok k ∧ on_finish K k = Ok (sk_inner s)
  else if called_on_start s then sink_run K k0 bs = Ok (sk_inner s)
  else sk_inner s = k0 ∧ bs = [] ∧ sk_input_data s = None.
Definition sink_inv (K : Sink (E:=E)) (k0 : sk_state K) (fl : Sinker K → in_end Data → Prop) (s : Sinker K) (g : ends) : Prop :=
  ∃ x bs, g = mkEnds [x] [] ∧ i_pulled x = goods (bs ++ option_list (sk_input_data s)) ∧ i_done x = false ∧ sink_state K k0 s bs ∧ fl s x.
Definition sink_idle {K : Sink (E:=E)} (s : Sinker K) x : Prop := called_on_finish s = true → i_eof x = true.
Definition sink_work {K : Sink (E:=E)} (s : Sinker K) x : Prop := called_on_finish s = false ∧ (called_on_start s = true → sk_input_data s = None → i_eof x = true).
Definition sink_end {K : Sink (E:=E)} (s : Sinker K) x : Prop := called_on_finish s = true ∧ i_eof x = true.
Definition sink_any (g : ends) : Prop := ∃ x, g = mkEnds [x] [] ∧ i_done x = false.
Lemma sink_event_ok (K : Sink (E:=E)) k0 s g : sink_any g → sink_inv K k0 sink_idle s g →
  wp sink_any (sink_event s) (after_event (sink_inv K k0 sink_idle) (sink_inv K k0 sink_work) (sink_inv K k0 sink_end)) g.
Proof.
  destruct s as [inner data start fini]. intros _ (x & bs & -> & Hin & Hdone & Hst & Hidle). unfold sink_event, sink_idle in *. simpl in *. destruct start; simpl.
  2:{ exists x, bs. unfold sink_work, sink_state in *. simpl in *. destruct fini; [by destruct Hst|]. split; [done|]. split; [done|]. split; [done|]. by repeat split; try apply Hst. }
  case_bool_decide as Hdata.
  { exists x, bs. unfold sink_work, sink_state in *. simpl in *. destruct fini; [destruct Hst as (_ & -> & _); by destruct Hdata|]. split_and!; try done. intros _ ->. by destruct Hdata. }
  assert (data = None) as -> by (by apply eq_None_not_Some). wp_call; (split; [by eexists|]).
  - destruct fini; simpl; eexists _, bs; (split; [done|]); (split; [done|]); (split; [done|]); (split; [done|]); split; simpl; intros; rewrite ?orb_true_r; done.
  - destruct fini; [by discriminate (Heof (Hidle eq_refl))|]. simpl in Hin. rewrite app_nil_r in Hin. wp_call; (split; [by eexists|]).
    + split; [done|]. intros a (r & -> & Hr). simpl in Hr. rewrite orb_true_r in Hr. destruct (Hr eq_refl) as [d ->]. simpl. split; [by eexists|]. destruct d as [b|e]; [|done].
      eexists _, bs. split; [done|]. simpl. rewrite Hin. unfold goods. rewrite fmap_app. by split_and!.
    + wp_call; (split; [by eexists|]); eexists _, bs; (split; [done|]); simpl; rewrite app_nil_r; by split_and!.
Qed.
Lemma sink_process_ok K k0 s g s' : sink_inv K k0 sink_work s g → sink_process s = Ok s' → sink_inv K k0 sink_idle s' g.
Proof.
  destruct s as [inner data start fini]. intros (x & bs & -> & Hin & Hdone & Hst & Hfini & Heof). unfold sink_process, sink_state in *. simpl in *. subst fini. destruct start; simpl in *.
  - destruct data as [b|].
    + destruct (consume K inner b) as [k| |] eqn:Hk; simpl; try done. intros [= <-]. exists x, (bs ++ [b]). split; [done|]. simpl. rewrite app_nil_r. split_and!; try done.
      unfold sink_state. simpl. unfold sink_run in *. destruct (on_start K k0); simpl in *; try done. by rewrite consume_all_snoc, Hst.
    + destruct (on_finish K inner) as [k| |] eqn:Hk; simpl; try done. intros [= <-]. exists x, bs. split; [done|]. split_and!; try done; [|by intros _; apply Heof]. unfold sink_state. simpl. split_and!; try done. by exists inner.
  - destruct Hst as (-> & -> & ->). destruct (on_start K k0) as [k| |] eqn:Hk; simpl; try done. intros [= <-]. exists x, []. split; [done|]. split_and!; try done. unfold sink_state. simpl. unfold sink_run. by rewrite Hk.
Qed.
Definition sink_law (K : Sink (E:=E)) (k0 : sk_state K) : Lawful (SinkProcessor K) :=
  mkLawful (SinkProcessor K) _ _ _ _ (sink_event_ok K k0) (sink_process_ok K k0).

(** ** Chains *)
Record stage := mkStage {
  sg_proc : Processor (E:=E);
  sg_law : Lawful sg_proc;
  sg_start : p_state sg_proc;
  sg_fun : list DataBlock → res E (list DataBlock);
  sg_any g : lw_any sg_law g → stage_any sg_fun g;
  sg_ready : life_ok sg_law (Idle sg_start) (mkEnds [in_start] [out_start]);
}.
Lemma stepped_start {S} (step : S → DataBlock → res E (list DataBlock * S)) s0 : stepped step s0 s0 None None in_start out_start [] [].
Proof. by split. Qed.
Program Definition transform_stage (T : Transform (E:=E)) (t0 : tr_state T) : stage :=
  mkStage (TransformerProcessor T) (transformer_law T t0) (mkTransformer t0 None None) (step_fun (transform_step T) t0) (λ g H, H) _.
Next Obligation.
  intros T t0. split; [eapply stepped_stage, stepped_start|]. eexists _, _, [], []. split; [done|]. by split; [apply stepped_start|].
Qed.
Program Definition limit_stage (mode : limit_mode) (limit offset : nat) : stage :=
  let s0 := mkLimit mode limit offset None None in mkStage LimitProcessor (limit_law s0) s0 (step_fun limit_step s0) (λ g H, H) _.
Next Obligation.
  intros mode limit offset s0. split; [eapply stepped_stage, stepped_start|]. eexists _, _. do 3 (split; [done|]). left. exists [], []. by split; [apply stepped_start|].
Qed.
Fixpoint stage_places (i : nat) (ss : list stage) : list place :=
  match ss with [] => [] | s :: ss => mkPlace (sg_proc s) (sg_law s) (sg_start s) [i] [S i] :: stage_places (S i) ss end.
(** A source, the stages and a sink; port [i] leads into stage [i]. *)
Definition chain (G : SyncSource (E:=E)) (g0 : src_state G) (ss : list stage) (K : Sink (E:=E)) (k0 : sk_state K) : list place :=
  mkPlace (SourceProcessor G) (source_law G g0) (mkSourcer false g0 None) [] [0] :: stage_places 0 ss ++
  [mkPlace (SinkProcessor K) (sink_law K k0) (mkSinker k0 None false false) [length ss] []].
Fixpoint chain_fun (ss : list stage) bs : res E (list DataBlock) :=
  match ss with [] => Ok bs | s :: ss => let? bs := sg_fun s bs in chain_fun ss bs end.
Lemma stage_places_ins i ss : concat (pl_ins <$> stage_places i ss) = seq i (length ss).
Proof. revert i. induction ss as [|s ss IH]; intros i; [done|]. simpl. f_equal. apply IH. Qed.
Lemma stage_places_outs i ss : concat (pl_outs <$> stage_places i ss) = seq (S i) (length ss).
Proof. revert i. induction ss as [|s ss IH]; intros i; [done|]. simpl. f_equal. apply IH. Qed.
Lemma stage_places_length i ss : length (stage_places i ss) = length ss.
Proof. revert i. induction ss as [|s ss IH]; intros i; [done|]. simpl. f_equal. apply IH. Qed.
Lemma stage_places_ok i ss np : i + length ss < np → Forall (λ pl, Forall (λ j, j < np) (pl_ins pl ++ pl_outs pl) ∧ life_ok (pl_law pl) (Idle (pl_start pl)) (ends_of [] (pl_ins pl) (pl_outs pl))) (stage_places i ss).
Proof.
  revert i. induction ss as [|s ss IH]; intros i Hi; [done|]. simpl in *. constructor; [|apply IH; lia]. simpl. split; [repeat constructor; lia|]. apply (sg_ready s).
Qed.
Lemma chain_wired G g0 ss K k0 : wired (chain G g0 ss K k0) (S (length ss)).
Proof.
  pose proof (stage_places_ok 0 ss (S (length ss)) ltac:(lia)) as Hst. apply Forall_and in Hst as [Hports Hstart]. unfold chain. split.
  - simpl. rewrite fmap_app, concat_app, stage_places_ins. simpl. change [length ss] with (seq (0 + length ss) 1). rewrite <- seq_app. apply NoDup_seq.
  - simpl. rewrite fmap_app, concat_app, stage_places_outs. simpl. rewrite app_nil_r. apply (NoDup_seq 0 (S (length ss))).
  - apply Forall_cons. split; [apply Forall_cons; split; [lia|done]|]. apply Forall_app. split; [done|]. apply Forall_cons. split; [apply Forall_cons; split; [lia|done]|done].
  - constructor.
    + split; [eexists _, g0, [], None|eexists _, g0, [], None]; (split; [done|]); [|split; [|done]]; split; try done; apply gen_nil.
    + apply Forall_app. split; [done|]. constructor; [|done]. split; [by eexists|]. by exists in_start, [].
Qed.

(** A consumer that has seen the end, and did not cause it, has pulled everything. *)
Lemma port_end (p : port_hist Data) o g st : port_inv p o g st → o_clean o = true → i_eof g = true → i_done g = false → o_done o = true ∧ o_pushed o = i_pulled g.
Proof.
  intros Hinv Hc He Hd. destruct (pv_fin _ _ _ _ Hinv (pv_eof _ _ _ _ Hinv He)) as [Ho|Hi]; [|congruence]. split; [done|].
  rewrite (pv_data _ _ _ _ Hinv), (pv_clean _ _ _ _ Hinv Ho Hc). apply app_nil_r.
Qed.
Lemma goods_prefix bs (l r : list Data) : goods bs = l ++ r → ∃ ins, l = goods ins ∧ ins `prefix_of` bs.
Proof. intros (ins & rest & -> & -> & ->)%fmap_app_inv. exists ins. split; [done|]. by apply prefix_app_r. Qed.
Lemma chain_flow (tr : list (nat * nat * port_call Data * answer Data)) ss : ∀ i pre bs full,
  (∀ j, i ≤ j ≤ i + length ss → ∃ p st, port_inv (B:=Data) p (out_of tr j) (in_of tr j) st) →
  (∀ k s, ss !! k = Some s → stage_ok (sg_fun s) (in_of tr (i + k)) (out_of tr (S (i + k)))) →
  o_pushed (out_of tr i) = goods pre → pre `prefix_of` bs → (o_done (out_of tr i) = true → pre = bs) → o_clean (out_of tr i) = true → chain_fun ss bs = Ok full →
  i_eof (in_of tr (i + length ss)) = true → i_done (in_of tr (i + length ss)) = false → i_pulled (in_of tr (i + length ss)) = goods full.
Proof.
  induction ss as [|s ss IH]; intros i pre bs full Hports Hst Hpush Hpre Hend Hclean Hfun Heof Hdone; simpl in *; destruct (Hports i ltac:(lia)) as (p & st & Hinv).
  - rewrite Nat.add_0_r in *. destruct (port_end _ _ _ _ Hinv Hclean Heof Hdone) as [Ho Heq]. specialize (Hend Ho). congruence.
  - destruct (sg_fun s bs) as [mid| |] eqn:Hf; simpl in Hfun; try done. pose proof (pv_data _ _ _ _ Hinv) as Hdata. rewrite Hpush in Hdata. destruct (goods_prefix _ _ _ Hdata) as (ins & Hins & Hpi).
    destruct (Hst 0 s eq_refl) as [Hc Hok]. rewrite Nat.add_0_r in *. destruct (Hok ins Hins) as (outs & Houts & Hprefix & Hfinal). destruct (transitivity Hpi Hpre) as [rest Hrest].
    replace (i + S (length ss)) with (S i + length ss) in * by lia. apply (IH (S i) outs mid full); try done.
    + intros j Hj. apply Hports. lia.
    + intros k s' Hk. specialize (Hst (S k) s' Hk). by replace (i + S k) with (S i + k) in Hst by lia.
    + apply (Hprefix rest). by rewrite <- Hrest.
    + intros Ho. destruct (Hfinal Ho) as [(He & Hd & Hall)|Hall].
      * destruct (port_end _ _ _ _ Hinv Hclean He Hd) as [Ho' Heq]. specialize (Hend Ho'). subst pre. rewrite Hpush, Hins in Heq. apply goods_inj in Heq as <-. symmetry. by apply Hall.
      * symmetry. apply (Hall rest). by rewrite <- Hrest.
Qed.
Lemma net_steps_ports `{Ports E} n tr n' : net_steps n tr n' → length (ports n') = length (ports n).
Proof. intros Hrun. induction Hrun as [|n tr n1 l n2 _ IH Hstep]; [done|]. rewrite <- IH. destruct Hstep; simpl; by rewrite ?length_insert. Qed.
Lemma stage_places_lookup i ss k s : ss !! k = Some s → stage_places i ss !! k = Some (mkPlace (sg_proc s) (sg_law s) (sg_start s) [i + k] [S (i + k)]).
Proof.
  revert i k. induction ss as [|s' ss IH]; intros i k; [done|]. destruct k as [|k]; simpl; [intros [= ->]; by rewrite Nat.add_0_r|]. intros Hk. rewrite (IH (S i) k Hk). by rewrite Nat.add_succ_r.
Qed.
(** C14: in a pipeline of a source, any number of transforms, limits and offsets, and a sink, however the processors
    interleave and whenever the executor asks them, a sink that has finished has consumed exactly the blocks that the
    stages make of all blocks of the source, in their order and each once, between [on_start] and [on_finish]. *)
Theorem chain_complete G g0 ss K k0 tr w bs full :
  net_steps (net_create (chain G g0 ss K k0) (S (length ss))) tr w → generates_all G g0 bs → chain_fun ss bs = Ok full →
  ∃ l, nodes w !! S (length ss) = Some (mkNode (SinkProcessor K) l [length ss] []) ∧
    ∀ s, l = Done s → pulled tr (length ss) = goods full ∧ ∃ k, sink_run K k0 full = Ok k ∧ on_finish K k = Ok (sk_inner s).
Proof.
  intros Hrun Hbs Hfull. pose proof (net_steps_ports _ _ _ Hrun) as Hlen. simpl in Hlen. rewrite length_replicate in Hlen.
  destruct (net_run _ _ _ _ (chain_wired _ _ _ _ _) Hrun) as (a & [Hsim Hnodes] & [Hports Hat]). rewrite Hnodes. unfold chain in Hat.
  assert (∀ j, j ≤ length ss → ∃ p st, port_inv (B:=Data) p (out_of tr j) (in_of tr j) st) as Hinv.
  { intros j Hj. assert (length (ports a) = S (length ss)) as Ha by (etrans; [symmetry; exact (Forall2_length _ _ _ Hsim)|exact Hlen]).
    destruct (lookup_lt_is_Some_2 (ports a) j ltac:(lia)) as [p Hp]. exists p. by apply Hports. }
  apply Forall2_cons_inv_l in Hat as (n0 & ns & (l0 & _ & (y & gn & outs & more & Hends & [Hpush Hgen Hclean Hdone]) & _) & Hat & Hns). rewrite Hns. unfold ends_of in Hends. simpl in *. injection Hends as <-.
  apply Forall2_app_inv_l in Hat as (ns1 & ns2 & Hat1 & Hat2 & ->). apply Forall2_cons_inv_l in Hat2 as (n2 & ns3 & (l & -> & Hany & Hl) & _ & ->).
  exists l. split. { rewrite lookup_app_r; rewrite <- (Forall2_length _ _ _ Hat1), stage_places_length; [|lia]. by rewrite Nat.sub_diag. }
  intros s ->. simpl in Hl. destruct Hl as (x & bs' & Hx & Hpull & Hdn & Hstate & [Hcalled Heof]). unfold ends_of in Hx. simpl in Hx. injection Hx as <-.
  assert (i_pulled (in_of tr (length ss)) = goods full) as Hp.
  { apply (chain_flow tr ss 0 outs bs); simpl; try done.
    - intros j Hj. apply Hinv. lia.
    - intros k s' Hk. destruct (Forall2_lookup_l _ _ _ _ _ Hat1 (stage_places_lookup 0 ss k s' Hk)) as (n & _ & (l' & _ & Hany' & _)). apply sg_any in Hany' as (x' & y' & Hx' & Hok). by injection Hx' as <- <-.
    - apply (transitivity (y := outs ++ option_list more)); [by apply prefix_app_r|by eapply generates_all_max].
    - intros Ho. apply (anti_symm prefix); [by destruct (Hdone Ho) as (h & h' & Hh & _); eapply generates_all_max|]. destruct Hbs as (h & h' & Hh & _). eapply generates_all_max; [done|by apply Hdone]. }
  split; [by rewrite <- pulled_of|]. unfold sink_state in Hstate. rewrite Hcalled in Hstate. destruct Hstate as (_ & Hnone & k & Hk & Hfin). rewrite Hnone in Hpull. simpl in Hpull. rewrite app_nil_r in Hpull.
  rewrite Hp in Hpull. apply goods_inj in Hpull as <-. by exists k.
Qed.

(** ** Resize *)
Lemma prog_wp_mono {R} A (p : prog Data E R) (Q Q' : R → ends → Prop) g : (∀ r g', Q r g' → Q' r g') → wp A p Q g → wp A p Q' g.
Proof.
  intros HQ. revert g. induction p as [r|e| |[i|j] c k IH]; intros g; simpl; auto.
  - destruct (e_ins g !! i) as [x|]; [|done]. intros [Hm Hk]. split; [done|]. intros a Ha. destruct (Hk a Ha) as [HA Hw]. split; [done|]. by apply IH.
  - destruct (e_outs g !! j) as [y|]; [|done]. intros [Hm Hk]. split; [done|]. intros a Ha. destruct (Hk a Ha) as [HA Hw]. split; [done|]. by apply IH.
Qed.
Lemma prog_wp_bind {R S} A (p : prog Data E R) (f : R → prog Data E S) (Q : S → ends → Prop) g : wp A p (λ r g', wp A (f r) Q g') g → wp A (prog_bind p f) Q g.
Proof.
  revert g. induction p as [r|e| |[i|j] c k IH]; intros g; simpl; auto.
  - destruct (e_ins g !! i) as [x|]; [|done]. intros [Hm Hk]. split; [done|]. intros a Ha. destruct (Hk a Ha) as [HA Hw]. split; [done|]. by apply IH.
  - destruct (e_outs g !! j) as [y|]; [|done]. intros [Hm Hk]. split; [done|]. intros a Ha. destruct (Hk a Ha) as [HA Hw]. split; [done|]. by apply IH.
Qed.
Lemma fmap_insert_same {A B} (f : A → B) (l : list A) (i : nat) (u v : A) : l !! i = Some u → f v = f u → f <$> <[i := v]> l = f <$> l.
Proof. intros Hi Hf. rewrite list_fmap_insert, Hf. apply list_insert_id. by rewrite list_lookup_fmap, Hi. Qed.
(** The blocks that went through the ports, and the outputs finished. *)
Definition in_blocks (g : ends (E:=E)) : list (list Data) := i_pulled <$> e_ins g.
Definition out_blocks (g : ends (E:=E)) : list (list Data) := o_pushed <$> e_outs g.
Definition same_blocks (g g' : ends (E:=E)) : Prop := in_blocks g' = in_blocks g ∧ out_blocks g' = out_blocks g.
Definition none_done (g : ends (E:=E)) : Prop := Forall (λ y, o_done y = false) (e_outs g).
Definition anything (_ : ends (E:=E)) : Prop := True.
Lemma same_in g j x x' : e_ins g !! j = Some x → i_pulled x' = i_pulled x → same_blocks g (mkEnds (<[j := x']> (e_ins g)) (e_outs g)).
Proof. intros Hj Hx. split; [|done]. unfold in_blocks. simpl. by eapply fmap_insert_same. Qed.
Lemma same_out g j y y' : e_outs g !! j = Some y → o_pushed y' = o_pushed y → same_blocks g (mkEnds (e_ins g) (<[j := y']> (e_outs g))).
Proof. intros Hj Hy. split; [done|]. unfold out_blocks. simpl. by eapply fmap_insert_same. Qed.
Lemma same_blocks_trans g g1 g2 : same_blocks g g1 → same_blocks g1 g2 → same_blocks g g2.
Proof. intros [] []. split; congruence. Qed.
Lemma same_lengths g g' : same_blocks g g' → length (e_ins g') = length (e_ins g) ∧ length (e_outs g') = length (e_outs g).
Proof. intros [Hi Ho]. unfold in_blocks, out_blocks in *. split; [rewrite <- (length_fmap i_pulled (e_ins g)), <- Hi|rewrite <- (length_fmap o_pushed (e_outs g)), <- Ho]; by rewrite length_fmap. Qed.
(** The rounds of a search lead back to where it started. *)
Definition rounds_left (n cur index rounds : nat) : Prop := 0 < rounds ∧ index < n ∧ cur < n ∧ (index + rounds = cur + n ∨ index + rounds = cur).
Lemma rounds_next n cur index rounds : rounds_left n cur index (S rounds) →
  let index' := if index + 1 =? n then 0 else index + 1 in index' = cur ∨ index' ≠ cur ∧ rounds_left n cur index' rounds.
Proof. intros (H1 & H2 & H3 & H4). simpl. destruct (Nat.eqb_spec (index + 1) n); destruct (decide ((if index + 1 =? n then 0 else index + 1) = cur)); unfold rounds_left; lia. Qed.
Lemma get_current_input_ok rounds : ∀ s index fin g, rounds_left (r_inputs s) (cur_input_index s) index rounds → length (e_ins g) = r_inputs s →
  wp anything (get_current_input rounds s index fin) (λ r g', same_blocks g g' ∧ e_outs g' = e_outs g ∧
    match r with
    | (Some i, s') => (∃ x, e_ins g' !! i = Some x ∧ (i_ready x = true ∨ i_eof x = true)) ∧ i < r_inputs s ∧ (s' = s ∨ s' = set_cur_input s i)
    | (None, s') => s' = s
    end) g.
Proof.
  induction rounds as [|rounds IH]; intros s index fin g Hr Hlen; [destruct Hr; lia|]. pose proof Hr as (_ & Hindex & Hcur & _). simpl. destruct (Nat.leb_spec (r_inputs s) index); [lia|].
  destruct (lookup_lt_is_Some_2 (e_ins g) index ltac:(lia)) as [x Hx]. pose proof (rounds_next _ _ _ _ Hr) as Hnext. simpl in Hnext.
  set (index' := if index + 1 =? r_inputs s then 0 else index + 1) in *.
  assert (∀ f g' x', same_blocks g g' → e_outs g' = e_outs g → e_ins g' !! index = Some x' → (f = true → i_eof x' = true) →
    wp anything (if index' =? cur_input_index s then Ret ((if f : bool then Some index else None), s) else get_current_input rounds s index' f)
      (λ r g', same_blocks g g' ∧ e_outs g' = e_outs g ∧ match r with
         | (Some i, s') => (∃ x, e_ins g' !! i = Some x ∧ (i_ready x = true ∨ i_eof x = true)) ∧ i < r_inputs s ∧ (s' = s ∨ s' = set_cur_input s i)
         | (None, s') => s' = s end) g') as Hgo.
  { intros f g' x' Hs Hout Hx' Hf. destruct (Nat.eqb_spec index' (cur_input_index s)) as [He|He].
    - simpl. split; [done|]. split; [done|]. destruct f; [|done]. split; [exists x'; auto|auto].
    - destruct Hnext as [?|[_ Hr']]; [done|]. eapply prog_wp_mono; [|apply IH; [done|by destruct (same_lengths _ _ Hs); congruence]]. intros r g'' (Hs' & Ho' & Hres). split; [by eapply same_blocks_trans|]. split; [congruence|done]. }
  simpl. rewrite Hx. split; [done|]. intros a (b & -> & _). split; [done|]. simpl. destruct b.
  - eapply (Hgo fin); [by eapply same_in|done|by apply list_lookup_insert_eq; eapply lookup_lt_Some|]. simpl. by rewrite orb_true_r.
  - simpl. rewrite list_lookup_insert_eq by (by eapply lookup_lt_Some). split; [done|]. intros a [b ->]. split; [done|]. simpl. rewrite list_insert_insert_eq. destruct b; simpl.
    + split; [by eapply same_in|]. split; [done|]. split; [|auto]. eexists. split; [by apply list_lookup_insert_eq; eapply lookup_lt_Some|]. simpl. rewrite orb_true_r. by left.
    + eapply (Hgo false); [by eapply same_in|done|by apply list_lookup_insert_eq; eapply lookup_lt_Some|done].
Qed.
Lemma done_out g j y y' : e_outs g !! j = Some y → o_done y' = o_done y → none_done g → none_done (mkEnds (e_ins g) (<[j := y']> (e_outs g))).
Proof. intros Hj Hy Hn. unfold none_done in *. simpl. apply Forall_insert; [done|]. rewrite Hy. by eapply Forall_lookup_1 in Hn. Qed.
Lemma get_current_output_ok rounds : ∀ s index fin g, rounds_left (r_outputs s) (cur_output_index s) index rounds → length (e_outs g) = r_outputs s →
  wp anything (get_current_output rounds s index fin) (λ r g', same_blocks g g' ∧ (none_done g → none_done g') ∧
    match r with
    | (Some i, s') => (∃ y, e_outs g' !! i = Some y ∧ (o_armed y = true ∨ o_closed y = true)) ∧ i < r_outputs s ∧ (s' = s ∨ s' = set_cur_output s i)
    | (None, s') => s' = s
    end) g.
Proof.
  induction rounds as [|rounds IH]; intros s index fin g Hr Hlen; [destruct Hr; lia|]. pose proof Hr as (_ & Hindex & Hcur & _). simpl. destruct (Nat.leb_spec (r_outputs s) index); [lia|].
  destruct (lookup_lt_is_Some_2 (e_outs g) index ltac:(lia)) as [y Hx]. pose proof (rounds_next _ _ _ _ Hr) as Hnext. simpl in Hnext.
  set (index' := if index + 1 =? r_outputs s then 0 else index + 1) in *.
  assert (∀ f g' y', same_blocks g g' → (none_done g → none_done g') → e_outs g' !! index = Some y' → (f = true → o_closed y' = true) →
    wp anything (if index' =? cur_output_index s then Ret ((if f : bool then Some index else None), s) else get_current_output rounds s index' f)
      (λ r g', same_blocks g g' ∧ (none_done g → none_done g') ∧ match r with
         | (Some i, s') => (∃ y, e_outs g' !! i = Some y ∧ (o_armed y = true ∨ o_closed y = true)) ∧ i < r_outputs s ∧ (s' = s ∨ s' = set_cur_output s i)
         | (None, s') => s' = s end) g') as Hgo.
  { intros f g' y' Hs Hout Hx' Hf. destruct (Nat.eqb_spec index' (cur_output_index s)) as [He|He].
    - simpl. split; [done|]. split; [done|]. destruct f; [|done]. split; [exists y'; auto|auto].
    - destruct Hnext as [?|[_ Hr']]; [done|]. eapply prog_wp_mono; [|apply IH; [done|by destruct (same_lengths _ _ Hs); congruence]]. intros r g'' (Hs' & Ho' & Hres). split; [by eapply same_blocks_trans|]. split; [auto|done]. }
  simpl. rewrite Hx. split; [done|]. intros a (b & -> & _). split; [done|]. simpl. destruct b.
  - eapply (Hgo fin); [by eapply same_out|by eapply done_out|by apply list_lookup_insert_eq; eapply lookup_lt_Some|]. simpl. by rewrite orb_true_r.
  - simpl. rewrite list_lookup_insert_eq by (by eapply lookup_lt_Some). split; [done|]. intros a [b ->]. split; [done|]. simpl. rewrite list_insert_insert_eq. destruct b; simpl.
    + split; [by eapply same_out|]. split; [by eapply done_out|]. split; [|auto]. eexists. split; [by apply list_lookup_insert_eq; eapply lookup_lt_Some|]. simpl. rewrite orb_true_r. by left.
    + eapply (Hgo false); [by eapply same_out|by eapply done_out|by apply list_lookup_insert_eq; eapply lookup_lt_Some|done].
Qed.
Lemma each_in_ok c (js : list nat) : ∀ g, in_may c → c ≠ PullData → Forall (λ i, i < length (e_ins g)) js → wp anything (each_port (In <$> js) c) (λ _ g', same_blocks g g' ∧ e_outs g' = e_outs g) g.
Proof.
  induction js as [|i js IH]; intros g Hm Hc Hi; [done|]. apply Forall_cons in Hi as [Hi Hjs]. simpl. destruct (lookup_lt_is_Some_2 (e_ins g) i Hi) as [x Hx]. rewrite Hx. split; [done|]. intros a Ha. split; [done|].
  assert (same_blocks g (mkEnds (<[i := in_next x c a]> (e_ins g)) (e_outs g))) as Hs by (eapply same_in; [done|]; destruct c; try done; by destruct a).
  eapply prog_wp_mono; [|apply IH; [done|done|simpl; by rewrite length_insert]]. intros _ g' [Hs' Ho]. split; [by eapply same_blocks_trans|done].
Qed.
Lemma finish_outs_ok (js : list nat) : ∀ g, Forall (λ j, j < length (e_outs g)) js → wp anything (each_port (Out <$> js) Finish) (λ _ g', same_blocks g g') g.
Proof.
  induction js as [|j js IH]; intros g Hj; [done|]. apply Forall_cons in Hj as [Hj Hjs]. simpl. destruct (lookup_lt_is_Some_2 (e_outs g) j Hj) as [y Hy]. rewrite Hy. split; [done|]. intros a Ha. split; [done|].
  eapply prog_wp_mono; [|apply IH; simpl; by rewrite length_insert]. intros r g' Hs'. assert (same_blocks g (mkEnds (e_ins g) (<[j := out_next y Finish a]> (e_outs g)))) as Hs by (by eapply same_out). by eapply same_blocks_trans.
Qed.
(** All blocks pulled from the inputs are pushed to the outputs. *)
Definition conserved (g : ends (E:=E)) : Prop := concat (in_blocks g) ≡ₚ concat (out_blocks g).
Record resize_inv (n m : nat) (s : ResizeProcessor) (g : ends (E:=E)) : Prop := {
  rz_ins : length (e_ins g) = n ∧ r_inputs s = n ∧ cur_input_index s < n;
  rz_outs : length (e_outs g) = m ∧ r_outputs s = m ∧ cur_output_index s < m;
  rz_none : none_done g;
  rz_conserved : conserved g;
}.
Lemma conserved_same g g' : same_blocks g g' → conserved g → conserved g'.
Proof. intros [Hi Ho]. unfold conserved. by rewrite Hi, Ho. Qed.
Lemma resize_again n m s s' g g' : resize_inv n m s g → same_blocks g g' → none_done g' → r_inputs s' = r_inputs s → r_outputs s' = r_outputs s → cur_input_index s' < n → cur_output_index s' < m → resize_inv n m s' g'.
Proof.
  intros [Hi Ho Hn Hc] Hs Hn' E1 E2 H1 H2. destruct (same_lengths _ _ Hs) as [L1 L2]. split; [split_and!; destruct Hi as (? & ? & ?); congruence||done|split_and!; destruct Ho as (? & ? & ?); congruence||done|done|by eapply conserved_same].
Qed.
Lemma concat_snoc (l : list (list Data)) (i : nat) (u : list Data) d : l !! i = Some u → concat (<[i := u ++ [d]]> l) ≡ₚ d :: concat l.
Proof.
  revert i. induction l as [|y l IH]; intros [|i]; simpl; try done.
  - intros [= ->]. rewrite <- app_assoc. simpl. by rewrite Permutation_middle.
  - intros Hi. rewrite (IH i Hi). by rewrite Permutation_middle.
Qed.
Abbreviation resize_wp n m := (λ p, wp anything p (after_event (resize_inv n m) (resize_inv n m) (λ _, conserved))).
Lemma seq_below k n : k = n → Forall (λ i, i < n) (seq 0 k).
Proof. intros ->. apply Forall_forall. intros i Hi%elem_of_seq. lia. Qed.
(** A block goes from an input that is ready to an output that is armed. *)
Lemma resize_move n m s g i j x y : resize_inv n m s g → e_ins g !! i = Some x → e_outs g !! j = Some y → i_ready x = true → o_armed y = true →
  resize_wp n m (prog_bind (pull (In i)) (λ data, prog_bind (tell (Out j) (PushData data)) (λ _, Ret (NeedConsume, s)))) g.
Proof.
  intros [Hi Ho Hn Hc] Hx Hy Hr Ha. simpl. rewrite Hx. split; [done|]. intros a (r & -> & Hsome). destruct (Hsome Hr) as [d ->]. split; [done|]. simpl. rewrite Hy.
  split; [split; [done|]; exact (Forall_lookup_1 _ _ _ _ Hn Hy)|]. intros a _. split; [done|]. split; simpl; rewrite ?length_insert; try done.
  - apply Forall_insert; [done|]. exact (Forall_lookup_1 _ _ _ _ Hn Hy).
  - unfold conserved, in_blocks, out_blocks in *. simpl. rewrite !list_fmap_insert. simpl. rewrite (concat_snoc _ i (i_pulled x)), (concat_snoc _ j (o_pushed y)) by (by rewrite list_lookup_fmap, ?Hx, ?Hy). by rewrite Hc.
Qed.
Lemma resize_pull_ok n m s g j y : resize_inv n m s g → e_outs g !! j = Some y → o_armed y = true → resize_wp n m (resize_pull s j) g.
Proof.
  intros Hinv Hy Ha. pose proof Hinv as [(Li & Ri & Ci) (Lo & Ro & Co) Hn Hc]. unfold resize_pull. apply prog_wp_bind.
  eapply prog_wp_mono; [|apply get_current_input_ok; [split_and!; lia || (left; lia)|lia]]. intros [[i|] s'] g1 (Hs & Ho & Hres); simpl in Hres.
  - destruct Hres as ((x & Hx & Hor) & Hi & Hs'). assert (r_inputs s' = n ∧ r_outputs s' = m ∧ cur_input_index s' < n ∧ cur_output_index s' < m) as (E1 & E2 & C1 & C2) by (destruct Hs' as [-> | ->]; simpl; lia).
    simpl. rewrite Hx. split; [done|]. intros a (b & -> & Heof). split; [done|]. set (x' := in_next x IsFinished (ABool b)). assert (same_blocks g1 (mkEnds (<[i := x']> (e_ins g1)) (e_outs g1))) as Hs1 by (by eapply same_in).
    pose proof (same_blocks_trans _ _ _ Hs Hs1) as Hs2. destruct (same_lengths _ _ Hs2) as [L1 L2]. simpl in L1, L2. destruct b.
    + simpl. apply prog_wp_bind. eapply prog_wp_mono; [|apply (finish_outs_ok (seq 0 (r_outputs s'))), seq_below; simpl; lia]. intros r g2 Hs3. simpl. eapply conserved_same; [|exact Hc]. by eapply same_blocks_trans.
    + destruct Hor as [Hr|He]; [|by discriminate (Heof He)].
      assert (resize_inv n m s' (mkEnds (<[i := x']> (e_ins g1)) (e_outs g1))) as Hinv' by (eapply resize_again; [exact Hinv|done| |lia..]; unfold none_done; simpl; by rewrite Ho).
      apply (resize_move n m s' _ i j x' y Hinv'); simpl; [by apply list_lookup_insert_eq; eapply lookup_lt_Some|by rewrite Ho|done|done].
  - subst s'. apply prog_wp_bind. destruct (same_lengths _ _ Hs) as [L1 L2]. eapply prog_wp_mono; [|apply (each_in_ok _ (seq 0 (r_inputs s))); [done|done|apply seq_below; simpl; lia]]. intros r g2 [Hs2 Ho2]. simpl.
    eapply resize_again; [exact Hinv|by eapply same_blocks_trans| |simpl; lia..]. unfold none_done. by rewrite Ho2, Ho.
Qed.
Lemma resize_event_ok n m s g : anything g → resize_inv n m s g → resize_wp n m (resize_event s) g.
Proof.
  intros _ Hinv. pose proof Hinv as [(Li & Ri & Ci) (Lo & Ro & Co) Hn Hc]. unfold resize_event. apply prog_wp_bind.
  eapply prog_wp_mono; [|apply get_current_output_ok; [split_and!; lia || (left; lia)|lia]]. intros [[j|] s'] g1 (Hs & Hn1 & Hres); simpl in Hres; destruct (same_lengths _ _ Hs) as [L1 L2].
  - destruct Hres as ((y & Hy & Hor) & Hj & Hs'). assert (r_inputs s' = n ∧ r_outputs s' = m ∧ cur_input_index s' < n ∧ cur_output_index s' < m) as (E1 & E2 & C1 & C2) by (destruct Hs' as [-> | ->]; simpl; lia).
    simpl. rewrite Hy. split; [done|]. intros a (b & -> & Hclo). split; [done|]. set (y' := out_next y IsFinished (ABool b)). assert (same_blocks g1 (mkEnds (e_ins g1) (<[j := y']> (e_outs g1)))) as Hs1 by (by eapply same_out).
    pose proof (same_blocks_trans _ _ _ Hs Hs1) as Hs2. destruct b; simpl.
    + apply prog_wp_bind. eapply prog_wp_mono; [|apply (each_in_ok _ (seq 0 (r_inputs s'))); [done|done|apply seq_below; simpl; lia]]. intros r g2 [Hs3 _]. simpl. eapply conserved_same; [|exact Hc]. by eapply same_blocks_trans.
    + destruct Hor as [Ha|He]; [|by discriminate (Hclo He)]. apply resize_pull_ok with (y := y'); [|by apply list_lookup_insert_eq; eapply lookup_lt_Some|done].
      eapply resize_again; [exact Hinv|done| |lia..]. eapply done_out; [done|done|auto].
  - subst s'. apply prog_wp_bind. eapply prog_wp_mono; [|apply (each_in_ok _ (seq 0 (r_inputs s))); [done|done|apply seq_below; simpl; lia]]. intros r g2 [Hs2 Ho2]. simpl.
    eapply resize_again; [exact Hinv|by eapply same_blocks_trans| |simpl; lia..]. unfold none_done. rewrite Ho2. by apply Hn1.
Qed.
Lemma resize_process_ok n m (unimplement : E) s g s' : resize_inv n m s g → p_process (ResizeP unimplement) s = Ok s' → resize_inv n m s' g.
Proof. done. Qed.
Definition resize_law (n m : nat) (unimplement : E) : Lawful (ResizeP unimplement) :=
  mkLawful (ResizeP unimplement) _ _ _ _ (resize_event_ok n m) (resize_process_ok n m unimplement).
(** C17: in any pipeline, however the processors interleave, a resize that is between two of its events, or done, has pushed to
    its outputs exactly the blocks that it has pulled from its inputs, each once. *)
Theorem resize_conserves top np tr w k n m unimplement s0 ins outs :
  wired top np → net_steps (net_create top np) tr w → top !! k = Some (mkPlace (ResizeP unimplement) (resize_law n m unimplement) s0 ins outs) →
  ∃ l, nodes w !! k = Some (mkNode (ResizeP unimplement) l ins outs) ∧ l ≠ Busy Crash ∧
    ∀ s, l = Idle s ∨ l = Done s → concat (pulled tr <$> ins) ≡ₚ concat (pushed tr <$> outs).
Proof.
  intros Hw Hrun Hk. destruct (net_run _ _ _ _ Hw Hrun) as (a & [_ Hnodes] & [_ Hat]). rewrite Hnodes.
  destruct (Forall2_lookup_l _ _ _ _ _ Hat Hk) as (nd & Hnd & (l & -> & _ & Hl)). exists l. split; [done|]. split; [by intros ->|]. intros s Hs.
  assert (conserved (ends_of tr ins outs)) as Hc by (destruct Hs as [-> | ->]; [by apply rz_conserved in Hl|exact Hl]).
  unfold conserved, in_blocks, out_blocks in Hc. simpl in Hc. rewrite <- !list_fmap_compose in Hc.
  rewrite (list_fmap_ext (pulled tr) (i_pulled ∘ in_of tr) ins), (list_fmap_ext (pushed tr) (o_pushed ∘ out_of tr) outs); [done|..]; intros ? j _; simpl; by rewrite ?pulled_of, ?pushed_of.
Qed.
End laws.

(** ** The rows that LIMIT and OFFSET let through *)
Section rows.
Context {E : Type}.
(** All columns of a block have its number of rows, and validities the length of their columns. *)
Fixpoint col_ok (c : Column) : Prop := match c with NullableColumn v c => length v = col_len c ∧ col_ok c | _ => True end.
Definition block_ok (b : DataBlock) : Prop := Forall (λ f, col_len f.2 = num_rows b ∧ col_ok f.2) b.
Definition block_rows (b : DataBlock) : list (list (option Scalar)) := (λ i, (λ f, col_get f.2 i) <$> b) <$> seq 0 (num_rows b).
Definition all_rows (bs : list DataBlock) : list (list (option Scalar)) := concat (block_rows <$> bs).
Lemma block_rows_length b : length (block_rows b) = num_rows b.
Proof. unfold block_rows. by rewrite length_fmap, length_seq. Qed.
Lemma slice_list_ok {A} (l : list A) o n : o + n ≤ length l → slice_list (E:=E) l o n = Ok (take n (drop o l)).
Proof. intros Hn. unfold slice_list. by rewrite (proj2 (Nat.leb_le _ _) Hn). Qed.
Lemma slice_lookup {A} (l : list A) o n i : i < n → take n (drop o l) !! i = l !! (o + i).
Proof. intros Hi. by rewrite lookup_take_lt, lookup_drop. Qed.
Lemma slice_length {A} (l : list A) o n : o + n ≤ length l → length (take n (drop o l)) = n.
Proof. intros Hn. rewrite length_take, length_drop. lia. Qed.
Lemma col_slice_ok c o n : col_ok c → o + n ≤ col_len c →
  ∃ c', col_slice (E:=E) c o n = Ok c' ∧ col_len c' = n ∧ col_ok c' ∧ ∀ i, i < n → col_get c' i = col_get c (o + i).
Proof.
  induction c as [l|l|l|l|v c IH|c _ m|m]; simpl; intros Hok Hn.
  1-4: rewrite slice_list_ok by done; eexists; split; [done|]; simpl; split; [by apply slice_length|]; split; [done|]; intros i Hi; by rewrite slice_lookup.
  - destruct Hok as [Hv Hc]. destruct (IH Hc Hn) as (c' & -> & Hlen & Hok' & Hget). simpl. rewrite slice_list_ok by lia. eexists. split; [done|]. simpl. split; [done|].
    rewrite slice_length, Hlen by lia. split; [done|]. intros i Hi. unfold get_bit. by rewrite slice_lookup, Hget.
  - by eexists.
  - by eexists.
Qed.
Lemma block_slice_ok b o n : block_ok b → o + n ≤ num_rows b → ∃ b', block_slice (E:=E) b o n = Ok b' ∧ block_ok b' ∧ block_rows b' = take n (drop o (block_rows b)).
Proof.
  intros Hok Hn. unfold block_slice. destruct ((o =? 0) && (num_rows b <=? n)) eqn:Hall.
  { apply andb_true_iff in Hall as [->%Nat.eqb_eq Hle%Nat.leb_le]. exists b. split; [done|]. split; [done|]. rewrite drop_0, take_ge; [done|]. by rewrite block_rows_length. }
  assert (∃ b', Forall2 (λ f f' : string * Column, (let? c := col_slice (E:=E) f.2 o n in Ok (f.1, c)) = Ok f' ∧ col_len f'.2 = n ∧ col_ok f'.2 ∧ ∀ i, i < n → col_get f'.2 i = col_get f.2 (o + i)) b b') as [b' Hb].
  { apply Forall_exists_Forall2_l. eapply Forall_impl; [exact Hok|]. intros [name c] [Hlen Hc]. simpl in *. destruct (col_slice_ok c o n Hc ltac:(lia)) as (c' & Hs & H). exists (name, c'). simpl. by rewrite Hs. }
  exists b'. split; [apply res_mapM_ok; eapply Forall2_impl; [exact Hb|]; by intros ?? []|].
  assert (num_rows b' = n) as Hrows by (destruct Hb as [|[? c] [? c'] b b' (_ & Hlen & _) _]; [simpl in *; destruct o, n; simpl in *; lia || done|done]).
  split.
  - unfold block_ok. rewrite Hrows. eapply Forall2_Forall_r; [exact Hb|]. apply Forall_true. by intros f f' (_ & ? & ? & _).
  - unfold block_rows at 1. rewrite Hrows. unfold block_rows. rewrite <- fmap_drop, <- fmap_take, drop_seq, take_seq. replace (n `min` (num_rows b - o)) with n by lia. simpl.
    replace (seq o n) with (Nat.add o <$> seq 0 n) by (by rewrite fmap_add_seq, Nat.add_0_r). rewrite <- list_fmap_compose. apply list_fmap_ext. intros k i Hi%lookup_seq. simpl. apply list_eq_Forall2, Forall2_fmap. apply Forall2_flip. eapply Forall2_impl; [exact Hb|]. intros f f' (_ & _ & _ & Hget). apply Hget. lia.
Qed.
Definition limit_ref (s : TransformLimit) {A} (l : list A) : list A :=
  match l_mode s with ONLY_LIMIT => take (take_remaining s) l | ONLY_OFFSET => drop (skip_remaining s) l | OFFSET_AND_LIMIT => take (take_remaining s) (drop (skip_remaining s) l) end.
Definition limit_ok (s : TransformLimit) : Prop :=
  match l_mode s with ONLY_LIMIT => skip_remaining s = 0 | ONLY_OFFSET => take_remaining s = 0 | OFFSET_AND_LIMIT => True end.
Lemma all_rows_one b : all_rows [b] = block_rows b.
Proof. unfold all_rows. simpl. by rewrite app_nil_r. Qed.
(** The two ways to handle a block. *)
Lemma take_rows_ok s b : take_remaining s ≠ 0 → block_ok b → ∃ b', take_rows (E:=E) s b = Ok (b', mkLimit (l_mode s) (take_remaining s - num_rows b) (skip_remaining s) (input_data_block s) (output_data_block s)) ∧
  block_rows b' = take (take_remaining s) (block_rows b).
Proof.
  intros Ht Hb. unfold take_rows. destruct (Nat.eqb_spec (take_remaining s) 0); [done|]. destruct (Nat.leb_spec (num_rows b) (take_remaining s)) as [Hle|Hlt].
  - exists b. split; [done|]. by rewrite take_ge by (by rewrite block_rows_length).
  - destruct (block_slice_ok b 0 (take_remaining s) Hb ltac:(lia)) as (b' & -> & _ & Hrows). exists b'. simpl. replace (take_remaining s - num_rows b) with 0 by lia. split; [done|]. by rewrite Hrows, drop_0.
Qed.
Definition skip_taken (s : TransformLimit) (rows : nat) : nat := match l_mode s with OFFSET_AND_LIMIT => take_remaining s - (rows - skip_remaining s) | _ => take_remaining s end.
Lemma skip_rows_ok s b : block_ok b → ∃ r, skip_rows (E:=E) s b = Ok (r, mkLimit (l_mode s) (skip_taken s (num_rows b)) (skip_remaining s - num_rows b) (input_data_block s) (output_data_block s)) ∧
  all_rows (option_list r) = match l_mode s with OFFSET_AND_LIMIT => take (take_remaining s) (drop (skip_remaining s) (block_rows b)) | _ => drop (skip_remaining s) (block_rows b) end.
Proof.
  intros Hb. unfold skip_rows, skip_taken. destruct (Nat.leb_spec (num_rows b) (skip_remaining s)) as [Hle|Hlt].
  - exists None. rewrite (drop_ge (block_rows b)), take_nil by (by rewrite block_rows_length). replace (num_rows b - skip_remaining s) with 0 by lia. rewrite Nat.sub_0_r. by destruct (l_mode s).
  - replace (skip_remaining s - num_rows b) with 0 by lia. set (k := skip_remaining s) in *. set (t := take_remaining s) in *. destruct (l_mode s).
    1,2: destruct (block_slice_ok b k (num_rows b - k) Hb ltac:(lia)) as (b' & -> & _ & Hrows); exists (Some b'); split; [done|]; simpl; rewrite all_rows_one, Hrows; by rewrite take_ge by (rewrite length_drop, block_rows_length; lia).
    destruct (block_slice_ok b k (t `min` (num_rows b - k)) Hb ltac:(lia)) as (b' & -> & _ & Hrows). exists (Some b'). simpl. split; [by replace (t - t `min` (num_rows b - k)) with (t - (num_rows b - k)) by lia|].
    rewrite all_rows_one, Hrows. rewrite <- (take_take (drop k (block_rows b))). f_equal. by rewrite take_ge by (rewrite length_drop, block_rows_length; lia).
Qed.
Lemma limit_step_rows s b : limit_ok s → block_ok b → ∃ outs s', limit_step (E:=E) s b = Ok (outs, s') ∧ limit_ok s' ∧ ∀ rest, limit_ref s (block_rows b ++ rest) = all_rows outs ++ limit_ref s' rest.
Proof.
  intros Hs Hb. unfold limit_step, spent. destruct s as [mode t k inp out]. unfold limit_ok, limit_ref, limit_process, set_input_block, set_output_block in *. simpl in *. pose proof (block_rows_length b) as Hlen.
  destruct ((k =? 0) && (t =? 0)) eqn:Hsp.
  { apply andb_true_iff in Hsp as [->%Nat.eqb_eq ->%Nat.eqb_eq]. eexists _, _. split; [done|]. simpl. split; [done|]. intros rest. destruct mode; [done| |done]. by rewrite all_rows_one. }
  apply andb_false_iff in Hsp. assert (∀ l, take t (block_rows b ++ l) = take t (block_rows b) ++ take (t - num_rows b) l) as Htake by (intros l; by rewrite take_app, Hlen).
  destruct mode; [subst k|subst t|destruct (Nat.eqb_spec k 0) as [->|Hk]]; simpl.
  - destruct (take_rows_ok (mkLimit ONLY_LIMIT t 0 None out) b) as (b' & -> & Hrows); [simpl; destruct Hsp as [?|?%Nat.eqb_neq]; done|done|]. eexists _, _. split; [done|]. simpl in *. split; [done|]. intros rest. by rewrite all_rows_one, Hrows, Htake.
  - destruct (skip_rows_ok (mkLimit ONLY_OFFSET 0 k None out) b Hb) as (r & -> & Hrows). eexists _, _. split; [done|]. simpl in *. split; [done|]. intros rest. by rewrite Hrows, drop_app, Hlen.
  - destruct (take_rows_ok (mkLimit OFFSET_AND_LIMIT t 0 None out) b) as (b' & -> & Hrows); [simpl; destruct Hsp as [?|?%Nat.eqb_neq]; done|done|]. eexists _, _. split; [done|]. simpl in *. split; [done|]. intros rest. by rewrite all_rows_one, Hrows, !drop_0, Htake.
  - destruct (skip_rows_ok (mkLimit OFFSET_AND_LIMIT t k None out) b Hb) as (r & -> & Hrows). eexists _, _. split; [done|]. simpl in *. split; [done|]. intros rest. rewrite Hrows, drop_app, take_app, length_drop, Hlen. done.
Qed.
(** C18: a LIMIT and an OFFSET let through, cut where blocks have to be, exactly the rows after the first [offset] ones and at
    most [limit] of them, in their order, however the rows lie in blocks; they do not panic on blocks whose columns have one length. *)
Theorem limit_rows (limit : option nat) (offset : nat) (logical_error : E) s bs : limit_create limit offset logical_error = Ok s → Forall block_ok bs →
  ∃ outs, step_fun (limit_step (E:=E)) s bs = Ok outs ∧ all_rows outs = match limit with Some n => take n (drop offset (all_rows bs)) | None => drop offset (all_rows bs) end.
Proof.
  intros Hs Hbs. assert (limit_ok s ∧ ∀ l : list (list (option Scalar)), limit_ref s l = match limit with Some n => take n (drop offset l) | None => drop offset l end) as [Hok Href]
    by (unfold limit_create in Hs; destruct limit, offset; simplify_eq; done).
  rewrite <- Href. clear Hs Href. unfold step_fun. assert (∃ outs s', step_all (limit_step (E:=E)) s bs = Ok (outs, s') ∧ all_rows outs = limit_ref s (all_rows bs)) as (outs & s' & -> & Hrows); [|by exists outs].
  revert s Hok. induction Hbs as [|b bs Hb _ IH]; intros s Hok; simpl.
  - eexists _, _. split; [done|]. change (all_rows []) with (@nil (list (option Scalar))). unfold limit_ref. destruct (l_mode s); by rewrite ?drop_nil, ?take_nil.
  - destruct (limit_step_rows s b Hok Hb) as (o1 & s1 & -> & Hok1 & Hr1). simpl. destruct (IH s1 Hok1) as (o2 & s2 & -> & Hr2). eexists _, _. split; [done|].
    change (all_rows (b :: bs)) with (block_rows b ++ all_rows bs). rewrite Hr1, <- Hr2. unfold all_rows. by rewrite fmap_app, concat_app.
Qed.
End rows.
