(* ===== verification/PipelineModel.v ===== *)
(** * Pipelines that run.

    A scheduler that takes the nodes in a given order, one step of a node at a time, and
    concrete pipelines on which the theorems on ports and pipelines are applied. *)
From S2P Require Import Prelude Column Port Pipeline PipelineProps PipelineLaws.

Section run.
Context {E : Type}.
Abbreviation Data := (DataBlock + E)%type.
Abbreviation net := (@net E word_ports).
Abbreviation label := (nat * nat * port_call Data * answer Data)%type.
Implicit Types (s : shared Data) (n : node (E:=E)) (w : net) (c : port_call Data).

(** ** The next step of a node *)
Definition life_next {P : Processor (E:=E)} (l : life (p_state P)) : option (life (p_state P)) :=
  match l with
  | Idle s => Some (Busy (p_event P s))
  | Busy (Ret (NeedData, s)) | Busy (Ret (NeedConsume, s)) => Some (Idle s)
  | Busy (Ret (Sync, s)) | Busy (Ret (Async, s)) => Some (Processing s)
  | Busy (Ret (Finished, s)) => Some (Done s)
  | Busy (Fail e) => Some (Failed e)
  | Processing s => match p_process P s with Ok s' => Some (Busy (p_event P s')) | Err e => Some (Failed e) | Panic => None end
  | _ => None
  end.
Lemma life_next_ok (P : Processor (E:=E)) l l' : life_next (P:=P) l = Some l' → life_step P l l'.
Proof.
  destruct l as [s|[[ev s]|e| |]|s|s|e]; simpl; try done.
  - intros [= <-]. constructor.
  - destruct ev; intros [= <-]; constructor; auto.
  - intros [= <-]. constructor.
  - destruct (p_process P s) eqn:Hp; intros [= <-]; by constructor.
Qed.

(** ** A whole call, at the end of the history *)
Definition push_box c (box : Z) (bs : gmap Z Data) : gmap Z Data := match c with PushData data => <[box := data]> bs | _ => bs end.
Definition box_free c (box : Z) (bs : gmap Z Data) : bool :=
  match c with PushData _ => bool_decide (0 < box < 2 ^ 64 ∧ box `mod` 8 = 0 ∧ bs !! box = None)%Z | _ => bool_decide (box = 0%Z) end.
Definition word_call s (t : nat) c (box : Z) : option (answer Data * shared Data) :=
  match last (order s) with
  | Some w =>
      if (size (running s) =? 0) && (view (seen s) t <=? pred (length (order s))) && box_free c box (boxes s) then
        let sc := shared_call c box in
        let bs := push_box c box (boxes s) in
        let r := port_return c (status_value sc w) bs in
        let seen := <[t := pred (length (order s))]> (seen s) in
        Some (r.1, if loops sc then mkShared (order s ++ [next_desired sc (first_desired sc) w]) (<[t := length (order s)]> seen) r.2 ∅ else mkShared (order s) seen r.2 ∅)
      else None
  | None => None
  end.
(** The address of a new box: the history has grown since any older one was made. *)
Definition new_box s c : Z := match c with PushData _ => 8 * Z.of_nat (length (order s)) | _ => 0 end.
Definition net_next (k : nat) w : list label * net :=
  match nodes w !! k with
  | None => ([], w)
  | Some n =>
      match life_next (n_life n) with
      | Some l => ([], @mkNet E word_ports (ports w) (<[k := set_life n l]> (nodes w)))
      | None =>
          match n_life n with
          | Busy (Call x c kont) =>
              match port_of n x with
              | Some i =>
                  match (ports w : list (shared Data)) !! i with
                  | Some s =>
                      match word_call s (thread_of x) c (new_box s c) with
                      | Some (a, s') => ([(i, thread_of x, c, a)], @mkNet E word_ports (<[i := s']> (ports w : list (shared Data))) (<[k := set_life n (Busy (kont a))]> (nodes w)))
                      | None => ([], w)
                      end
                  | None => ([], w)
                  end
              | None => ([], w)
              end
          | _ => ([], w)
          end
      end
  end.
Fixpoint net_run_all (ks : list nat) w : list label * net :=
  match ks with
  | [] => ([], w)
  | k :: ks => let r := net_next k w in let r' := net_run_all ks r.2 in (r.1 ++ r'.1, r'.2)
  end.
Lemma net_steps_trans w tr w1 tr' w2 : net_steps w tr w1 → net_steps w1 tr' w2 → net_steps w (tr ++ tr') w2.
Proof. intros H1 H2. induction H2 as [|n tr' n1 l n2 _ IH Hstep]; [by rewrite app_nil_r|]. rewrite app_assoc. by econstructor; [apply IH|]. Qed.
Lemma net_steps_one w l w' : net_step w l w' → net_steps w (option_list l) w'.
Proof. intros H. rewrite <- (app_nil_l (option_list l)). econstructor; [constructor|done]. Qed.
Lemma box_free_ok c box bs : box_free c box bs = true → boxed c box bs (push_box c box bs).
Proof. destruct c; simpl; by rewrite bool_decide_eq_true. Qed.
Lemma word_call_ok s t c box a s' : word_call s t c box = Some (a, s') →
  ∃ s1 s2, port_step s None s1 ∧ f_call <$> running s1 = {[t := c]} ∧ (s2 = s1 ∨ port_step s1 None s2) ∧ f_call <$> running s2 = {[t := c]} ∧ port_step s2 (Some (t, c, a)) s'.
Proof.
  destruct s as [o sn bs fs]. unfold word_call. simpl. destruct (last o) as [w|] eqn:Hlast; [|done]. destruct (_ && _) eqn:Hc; [|done].
  apply andb_true_iff in Hc as [[Hsize%Nat.eqb_eq Hview%Nat.leb_le]%andb_true_iff Hbox%box_free_ok]. apply map_size_empty_inv in Hsize as ->. intros [= <- <-].
  set (f := mkFrame c box 0 (first_desired (shared_call c box))). set (r := port_return _ _ _).
  assert (∀ x : frame Data, delete t (<[t := x]> ∅) =@{gmap nat (frame Data)} ∅) as Hdel by (intros x; by apply delete_insert_id).
  assert (∀ x : frame Data, f_call x = c → f_call <$> <[t := x]> ∅ =@{gmap nat (port_call Data)} {[t := c]}) as Hcall by (intros x <-; by rewrite fmap_insert, fmap_empty).
  exists (mkShared o sn (push_box c box bs) (<[t := f]> ∅)). destruct (loops (shared_call c box)) eqn:Hl.
  - set (f' := mkFrame c box w (next_desired (shared_call c box) (first_desired (shared_call c box)) w)). exists (mkShared o (<[t := pred (length o)]> sn) (push_box c box bs) (<[t := f']> ∅)).
    assert (port_step (mkShared o sn (push_box c box bs) (<[t := f]> ∅)) None (mkShared o (<[t := pred (length o)]> sn) (push_box c box bs) (<[t := f']> (<[t := f]> ∅)))) as Hretry
      by (eapply step_retry; [by apply lookup_insert_eq|done|done|by apply last_index]).
    rewrite insert_insert_eq in Hretry. split; [by apply step_call|]. split; [by apply Hcall|]. split; [by right|]. split; [by apply Hcall|].
    assert (port_step (mkShared o (<[t := pred (length o)]> sn) (push_box c box bs) (<[t := f']> ∅)) (Some (t, c, r.1)) (mkShared (o ++ [f_desired f']) (<[t := length o]> (<[t := pred (length o)]> sn)) r.2 (delete t (<[t := f']> ∅)))) as Hex
      by (eapply step_exchange; [by apply lookup_insert_eq|done|done|by apply surjective_pairing]).
    by rewrite Hdel in Hex.
  - eexists. split; [by apply step_call|]. split; [by apply Hcall|]. split; [by left|]. split; [by apply Hcall|].
    assert (port_step (mkShared o sn (push_box c box bs) (<[t := f]> ∅)) (Some (t, c, r.1)) (mkShared o (<[t := pred (length o)]> sn) r.2 (delete t (<[t := f]> ∅)))) as Hload
      by (eapply step_load; [by apply lookup_insert_eq|done|done|by apply last_index|by apply surjective_pairing]).
    by rewrite Hdel in Hload.
Qed.
Lemma net_next_ok k w : net_steps w (net_next k w).1 (net_next k w).2.
Proof.
  destruct w as [ps ns]. unfold net_next. simpl. destruct (ns !! k) as [n|] eqn:Hk; [|constructor]. destruct (life_next (n_life n)) as [l|] eqn:Hl.
  { apply (net_steps_one _ None). apply net_life; [done|]. by apply life_next_ok. }
  destruct (n_life n) as [s|[r|e| |x c kont]|s|s|e] eqn:Hn; try constructor. destruct (port_of n x) as [i|] eqn:Hx; [|constructor]. destruct ((ps : list (shared Data)) !! i) as [s|] eqn:Hi; [|constructor].
  destruct (word_call s (thread_of x) c (new_box s c)) as [[a s']|] eqn:Hc; [|constructor]. destruct (word_call_ok _ _ _ _ _ _ Hc) as (s1 & s2 & H1 & C1 & H2 & C2 & H3). simpl.
  assert (∀ t c', ({[thread_of x := c]} : gmap nat (port_call Data)) !! t = Some c' → ∃ n, n ∈ ns ∧ calling n i t c') as Hcalling.
  { intros t c' [<- <-]%lookup_singleton_Some. exists n. split; [by eapply list_elem_of_lookup_2|]. by exists x, kont. }
  assert (i < length ps) as Hlen by (by eapply lookup_lt_Some).
  change [(i, thread_of x, c, a)] with (([] ++ []) ++ [(i, thread_of x, c, a)]). eapply net_steps_trans; [eapply net_steps_trans|].
  - apply (net_steps_one _ None). eapply (@net_port E word_ports); [exact Hi|exact H1|]. simpl. rewrite C1. exact Hcalling.
  - instantiate (1 := @mkNet E word_ports (<[i := s2]> ps) ns). destruct H2 as [-> | H2]; [constructor|].
    assert (net_step (@mkNet E word_ports (<[i := s1]> ps) ns) None (@mkNet E word_ports (<[i := s2]> (<[i := s1]> ps)) ns)) as Hstep
      by (eapply (@net_port E word_ports); [by apply list_lookup_insert_eq|exact H2|]; simpl; rewrite C2; exact Hcalling).
    rewrite list_insert_insert_eq in Hstep. by apply (net_steps_one _ None).
  - assert (net_step (@mkNet E word_ports (<[i := s2]> ps) ns) (Some (i, thread_of x, c, a)) (@mkNet E word_ports (<[i := s']> (<[i := s2]> ps)) (<[k := set_life n (Busy (kont a))]> ns))) as Hstep
      by (eapply (@net_call E word_ports); [exact Hk|exact Hn|exact Hx|by apply list_lookup_insert_eq|exact H3]).
    rewrite list_insert_insert_eq in Hstep. by apply (net_steps_one _ (Some _)).
Qed.
Lemma net_run_all_ok ks w : net_steps w (net_run_all ks w).1 (net_run_all ks w).2.
Proof. revert w. induction ks as [|k ks IH]; intros w; [constructor|]. simpl. eapply net_steps_trans; [apply net_next_ok|apply IH]. Qed.
End run.

(** ** A chain of a source, a transform, a limit and a sink *)
Definition col (l : list Z) : DataBlock := [("a", PrimitiveColumn l)].
Definition list_source : SyncSource (E:=string) := mkSource (list DataBlock) (λ l, match l with [] => Ok (None, []) | b :: l => Ok (Some b, l) end).
Definition cut : Transform (E:=string) := mkTransform nat (λ n b, let? b := block_slice b 0 2 in Ok (b, S n)) true.
Definition collect : Sink (E:=string) := mkSink (list DataBlock) Ok (λ k b, Ok (k ++ [b])) Ok.
Definition demo_blocks : list DataBlock := [col [1; 2; 3]; col [4; 5]; col [6; 7; 8]]%Z.
Definition demo_stages : list (stage (E:=string)) := [transform_stage cut 0; limit_stage ONLY_LIMIT 3 0].
Definition demo_net : @net string word_ports := net_create (chain list_source demo_blocks demo_stages collect []) 3.
Definition rounds (n m : nat) : list nat := concat (replicate m (seq 0 n)).
Definition demo_run := net_run_all (rounds 4 120) demo_net.
Definition is_done (n : node (E:=string)) : bool := match n_life n with Done _ => true | _ => false end.
Lemma chain_complete_example :
  is_done <$> nodes demo_run.2 = [true; true; true; true] ∧ pulled demo_run.1 2 = goods [col [1; 2]; col [4]]%Z ∧
  ∃ l, nodes demo_run.2 !! 3 = Some (mkNode (SinkProcessor collect) l [2] []) ∧
    ∀ s, l = Done s → pulled demo_run.1 2 = goods [col [1; 2]; col [4]]%Z ∧ ∃ k, sink_run collect [] [col [1; 2]; col [4]]%Z = Ok k ∧ on_finish collect k = Ok (sk_inner s).
Proof.
  split; [by vm_compute|]. split; [by vm_compute|]. apply (chain_complete list_source demo_blocks demo_stages collect [] demo_run.1 demo_run.2 demo_blocks).
  - apply net_run_all_ok.
  - exists [], []. split; [|done]. apply (gen_snoc list_source demo_blocks [col [1; 2; 3]; col [4; 5]]%Z [col [6; 7; 8]]%Z); [|done].
    apply (gen_snoc list_source demo_blocks [col [1; 2; 3]]%Z [col [4; 5]; col [6; 7; 8]]%Z); [|done]. by apply (gen_snoc list_source demo_blocks [] demo_blocks); [apply gen_nil|].
  - by vm_compute.
Defined.
(** In the middle of the run a block lies in the second port. *)
Definition half_run := net_run_all (rounds 4 36) demo_net.
Lemma pipeline_delivers_example :
  (∀ n, n ∈ nodes half_run.2 → n_life n ≠ Busy Crash) ∧
  ∀ i (s : shared (DataBlock + string)), ports half_run.2 !! i = Some s → ∃ word st, last (order s) = Some word ∧ word_is (boxes s) word st ∧ pushed half_run.1 i = pulled half_run.1 i ++ option_list (slot st).
Proof.
  destruct (pipeline_delivers _ 3 half_run.1 half_run.2 (chain_wired list_source demo_blocks demo_stages collect [])) as (H1 & H2 & _); [apply net_run_all_ok|]. split; [exact H1|exact H2].
Defined.
(** Two rows are skipped and three taken, from blocks of three, two and three rows. *)
Lemma limit_rows_example : limit_create (Some 3) 2 "no limit" = Ok (mkLimit OFFSET_AND_LIMIT 3 2 None None) ∧
  step_fun (limit_step (E:=string)) (mkLimit OFFSET_AND_LIMIT 3 2 None None) demo_blocks = Ok [col [3]; col [4; 5]]%Z ∧ all_rows [col [3]; col [4; 5]]%Z = [[Some (SInt 3)]; [Some (SInt 4)]; [Some (SInt 5)]] ∧
  ∃ outs, step_fun (limit_step (E:=string)) (mkLimit OFFSET_AND_LIMIT 3 2 None None) demo_blocks = Ok outs ∧ all_rows outs = take 3 (drop 2 (all_rows demo_blocks)).
Proof.
  do 3 (split; [by vm_compute|]). apply (limit_rows (Some 3) 2 "no limit"); [by vm_compute|]. by repeat (apply Forall_cons; split).
Defined.

(** ** A source, a resize from one port to two, and two sinks *)
Definition resize_places : list (place (E:=string)) :=
  [mkPlace (SourceProcessor list_source) (source_law list_source demo_blocks) (mkSourcer false (demo_blocks : src_state list_source) None) [] [0];
   mkPlace (ResizeP "Unimplemented process.") (resize_law 1 2 "Unimplemented process.") (mkResize 1 2 0 0) [0] [1; 2];
   mkPlace (SinkProcessor collect) (sink_law collect []) (mkSinker ([] : sk_state collect) None false false) [1] [];
   mkPlace (SinkProcessor collect) (sink_law collect []) (mkSinker ([] : sk_state collect) None false false) [2] []].
Lemma resize_wired : wired resize_places 3.
Proof.
  split; [by apply (bool_decide_eq_true_1 _)|by apply (bool_decide_eq_true_1 _)|repeat constructor|]. apply Forall_cons. split; [|apply Forall_cons; split; [|apply Forall_cons; split; [|apply Forall_cons; split; [|done]]]].
  - split; [eexists _, demo_blocks, [], None|eexists _, demo_blocks, [], None]; (split; [done|]); [|split; [|done]]; split; try done; apply gen_nil.
  - split; [done|]. split; simpl; [lia|lia|by apply (bool_decide_eq_true_1 (Forall (λ y, o_done y = false) _))|by apply (Permutation_refl [])].
  - split; [by eexists|]. by exists in_start, [].
  - split; [by eexists|]. by exists in_start, [].
Qed.
Definition resize_net : @net string word_ports := net_create resize_places 3.
Definition resize_run := net_run_all (rounds 4 120) resize_net.
Lemma resize_conserves_example :
  is_done <$> nodes resize_run.2 = [true; true; true; true] ∧
  pulled resize_run.1 1 = goods [col [1; 2; 3]; col [6; 7; 8]]%Z ∧ pulled resize_run.1 2 = goods [col [4; 5]]%Z ∧
  ∃ l, nodes resize_run.2 !! 1 = Some (mkNode (ResizeP "Unimplemented process.") l [0] [1; 2]) ∧ l ≠ Busy Crash ∧
    ∀ s, l = Idle s ∨ l = Done s → concat (pulled resize_run.1 <$> [0]) ≡ₚ concat (pushed resize_run.1 <$> [1; 2]).
Proof.
  split; [by vm_compute|]. split; [by vm_compute|]. split; [by vm_compute|].
  eapply (resize_conserves resize_places 3 resize_run.1 resize_run.2 1 1 2 "Unimplemented process."); [exact resize_wired|apply net_run_all_ok|reflexivity].
Defined.
(** When the first sink is asked late, the resize has finished its outputs in the meantime; [Sinker::event] looks at the end
    before it looks for a block, so the block that lies in the first port is never consumed, and every node is done. *)
Definition late_run := net_run_all (rounds 4 8 ++ concat (replicate 120 [0; 1; 3]) ++ rounds 4 60) resize_net.
Lemma resize_loses_block : net_steps resize_net late_run.1 late_run.2 ∧ is_done <$> nodes late_run.2 = [true; true; true; true] ∧
  pushed late_run.1 1 = goods [col [1; 2; 3]]%Z ∧ pulled late_run.1 1 = [] ∧ pulled late_run.1 2 = goods [col [4; 5]; col [6; 7; 8]]%Z.
Proof. split; [apply net_run_all_ok|]. repeat split; by vm_compute. Qed.

(** ** One port *)

(** Two threads: the exchange of the first fails once, because the second was faster. *)
Definition port_demo : list (nat * port_call Z * answer Z) := [(1, SetNeedData, ABool true); (0, PushData 5%Z, AUnit); (1, PullData, ABlock (Some 5%Z))].
Lemma steps_none {B} (s : shared B) tr s1 s2 : port_steps s tr s1 → port_step s1 None s2 → port_steps s tr s2.
Proof. intros H1 H2. rewrite <- (app_nil_r tr). exact (steps_snoc s tr s1 None s2 H1 H2). Qed.
Lemma steps_some {B} (s : shared B) tr s1 l s2 : port_steps s tr s1 → port_step s1 (Some l) s2 → port_steps s (tr ++ [l]) s2.
Proof. intros H1 H2. exact (steps_snoc s tr s1 (Some l) s2 H1 H2). Qed.
Lemma port_demo_runs : ∃ s, port_steps shared_create port_demo s.
Proof.
  eexists. eapply (steps_some _ [(1, SetNeedData, ABool true); (0, PushData 5%Z, AUnit)]).
  - eapply steps_none; [eapply steps_none|].
    + eapply (steps_some _ [(1, SetNeedData, ABool true)]).
      * eapply steps_none; [eapply (steps_some _ []); [eapply steps_none; [eapply steps_none; [constructor|]|]|]|].
        -- eapply (step_call _ _ _ _ _ 0 (PushData 5%Z) 8); [done|]. simpl. split; [by split_and!|reflexivity].
        -- eapply (step_call _ _ _ _ _ 1 SetNeedData 0); [done|]. simpl. by split.
        -- eapply step_exchange; reflexivity.
        -- eapply (step_retry _ _ _ _ 0 _ _ _ _ 1); [reflexivity|reflexivity|vm_compute; lia|reflexivity].
      * eapply step_exchange; reflexivity.
    + eapply (step_call _ _ _ _ _ 1 PullData 0); [done|]. simpl. by split.
    + eapply (step_retry _ _ _ _ 1 _ _ _ _ 2); [reflexivity|reflexivity|vm_compute; lia|reflexivity].
  - eapply step_exchange; reflexivity.
Qed.
Lemma port_linearizable_example : ∃ p, spec_steps hist_create port_demo p.
Proof. destruct port_demo_runs as [s Hs]. destruct (port_linearizable port_demo s Hs) as (p & Hp & _). by exists p. Defined.
